(* ===== verification/_CoqProject ===== *)
-Q . S2P
Prelude.v
Bytes.v
Serialize.v
Codec.v
StdString.v
Utils.v
DataTypes.v
SecureC.v
DataRegister.v
RoundTrip.v
Registry.v
MessageProtocol.v
Daemon.v
InstanceRun.v
InstanceRunLemmas.v
Subscriptions.v
ScheduleProps.v
SchedulerSafety.v
World.v
SchedulerTheorems.v
Config.v
Handlers.v
InfoCmd.v
PluginManager.v
HandlerTheorems.v
MessageManager.v
MessageTheorems.v
SmcAcc.v
ZbbStrlen.v
NetFlow.v
Sdk.v
SdkTheorems.v
Doubles.v
ClusterSelector.v
ClusterAffinity.v
ClusterTheorems.v
ClusterPlacement.v
ClusterSetup.v
ClusterLending.v
Ctl.v
CtlConcrete.v
CtlArgs.v
CtlParams.v
CtlTheorems.v
Machine.v
Steps.v
Realtime.v
RealtimeParse.v
RealtimeSettings.v
RealtimeRestore.v
RealtimeGrubby.v
RealtimeBox.v
RealtimeConfig.v
IrqFrontEnd.v
HardIrq.v
HardIrqMatch.v
HardIrqRestore.v
HardIrqTune.v
HardIrqTheorems.v
HardIrqBox.v
NetInterface.v
NetInterfaceCycle.v
NetInterfaceCounts.v
NetInterfaceBox.v
Knobs.v
LoadBased.v
LoadBasedRun.v
LoadBasedLife.v
CpuBurst.v
CpuBurstRestore.v
DirWalk.v
CoordBurst.v
CoordBurstTheorems.v
BinaryElf.v
BinaryTune.v
BinaryTuneTheorems.v
Switches.v
SwitchKernel.v
SwitchTheorems.v
