(* ===== verification/Prelude.v ===== *)
(** * oeAware-manager: a verification development

    oeAware runs on a server, collects data about it and tunes it.  A daemon
    loads plugins, each of which brings instances; an instance collects,
    analyses or tunes, publishes topics and subscribes to those of others.
    Clients (a command line, programs that use the SDK) talk to the daemon
    over a Unix socket.  This library models the daemon's core, the client
    side of the SDK, the command line, a collector (network interfaces, with
    its eBPF program), the plugins that tune containers, interrupts, marked
    programs and the kernel's switches, and the kernel-side or low-level code
    of two others, and proves what makes them correct.

    ** How the parts interact

    A client's bytes reach the message manager's thread (MessageManager.v),
    which reassembles a message (MessageProtocol.v), makes an event of it and
    waits.  The plugin manager's thread (PluginManager.v) takes events one at
    a time and calls the handler of the event's option (Handlers.v,
    InfoCmd.v).  Handlers that change what runs post a message to the
    scheduler's thread (InstanceRun.v) and wait for its answer; the others
    read the memory store (Daemon.v) or the configuration (Config.v).  The
    scheduler handles messages, calls the instances that are due, and queues
    published data, serialised by the register (Registry.v, DataRegister.v,
    Serialize.v), for the message manager's second thread to send.  A program
    that uses the SDK has a receiving thread of its own (Sdk.v), which hands
    published data to the program's callbacks.  The command line (Ctl.v) sends
    one request, waits for its answer and prints it.  A tuning plugin is an
    instance whose [Enable], [UpdateData], [Run] and [Disable] the scheduler
    calls; what it changes is the machine (Machine.v).  The eBPF program
    (NetFlow.v) counts packets in the kernel, the collector of network
    interfaces (NetInterface.v) reads its maps and publishes what was added,
    and the binding of interrupts (HardIrq.v) adds that up for each node.

    ** Conventions

    - A C++ or C call is a function into [outcome]: it returns, throws, or is
      undefined ([Undef]: a null dereference, a read past the end, a signed
      overflow).  Code that changes state is in the monad [St]; [wp] and the
      total [twp] are its weakest preconditions, and a theorem that says the
      code returns is about [twp] or about an equation with [Ret].
    - Machine integers are [Z] with their wrap-around ([wrap], [in_range] of
      Bytes.v); strings are [string] or lists of bytes.
    - A field that the code leaves uninitialised is [None], or a value of the
      class [Platform], which leaves what the stack holds open.
    - Code that is not in the repository is a class: [SecureC] (securec),
      [Kperf] (libkperf's counters), [PluginCode] (the plugins the daemon
      loads), [HashOrder] (the order of an unordered container),
      [PriorityQueue] (std::priority_queue among equals), [Host] (files and
      dlopen), [YamlConversions], [Disk], [Accounts] (passwd and group), [Idr]
      and [SmcKernel] (the kernel), [BpfMaps] (the maps of an eBPF program),
      [Shell] (popen),
      [GetOpt] (getopt_long), [ClientHost] (files and libcurl), [Machine]
      (files, commands and documents that plugins tune), [Regex] (std::regex),
      [StdSort] (std::sort among equals), [HashOrderOf] (the order of an
      unordered map), [NetKernel] (interfaces, libbpf and its maps), [DirTree]
      (directories and links), [Sched] (the masks of threads).  Their documented laws are classes beside them, and
      World.v and the end of DataRegister.v hold instances that satisfy them.
      [Settings] (files of one value), [Grubby] (boot parameters), [IrqFiles]
      (affinities), [Knobs] (files of one number), [NetKernelLaws],
      [SchedLaws] and [SwitchKernel] (files and features of the scheduler) say
      what a machine promises to a plugin; RealtimeBox, HardIrqBox,
      NetInterfaceBox, Knobs, and the ends of CoordBurstTheorems,
      BinaryTuneTheorems and SwitchTheorems hold machines that keep these
      promises.  [Switched] (SwitchKernel.v) says what an instance promises to
      the others that share the machine.
    - [double] is binary64 of the Standard Library's specification of IEEE 754
      (Doubles.v), so the computations of the placement run as they are.
    - Threads are sequences of whole rounds.  A handler that waits for the
      scheduler runs the scheduler on the messages in front of its own
      ([post_and_wait]); the message manager that waits for the plugin manager
      runs its rounds ([WaitAndPop]).  Log lines are left out.

    ** The files

    - Prelude: this header, [outcome], [St], [wp], [twp], shared lemmas.
    - Bytes, StdString: integers, bytes and strings of the language and its
      library.  Serialize, Codec: include/oeaware/serialize.h, and what a
      matching writer and reader promise.
    - Utils: src/common/utils.cpp and include/oeaware/topic.h.
    - DataTypes, SecureC, DataRegister, RoundTrip, Registry: the
      data of topics and src/common/data_register.cpp.  Registry holds the
      round trip of every registered type.
    - MessageProtocol: src/common/message_protocol.cpp.
    - Daemon: src/plugin_mgr/plugin.cpp, memory_store.h and the shared state.
    - InstanceRun: src/plugin_mgr/instance_run_handler.cpp.  InstanceRunLemmas,
      Subscriptions, ScheduleProps, SchedulerSafety: what its
      functions keep.  World: a concrete daemon.  SchedulerTheorems: the
      specification of subscriptions and its refinement, safety of the loop,
      what a round of the run queue does, and where it goes wrong.
    - Config, Handlers, InfoCmd, PluginManager, HandlerTheorems:
      src/plugin_mgr/config.cpp, logger.cpp, event/*.cpp, plugin_manager.cpp.
    - MessageManager, MessageTheorems: src/plugin_mgr/message_manager.cpp, who
      may connect, one answer for each request, the table of connections.
    - SmcAcc: smc_acc.c, the ports it switches and the suppression of short
      connections.  ZbbStrlen: zbb_tune.c, the word-at-a-time [strlen].
      NetFlow: net_flow_kernel.c, the flows of local connections and the
      parser of packets.
    - Sdk, SdkTheorems: src/sdk/oe_client.cpp and safe_queue.h, the client with
      its receiving thread, alone and against the scheduler.
    - Doubles: floating-point numbers.  ClusterSelector, ClusterAffinity:
      topology.cpp, cluster_selector.cpp and cluster_affinity_adapt.cpp of
      src/plugin/tune/docker/cluster_affinity.  ClusterTheorems: the loops that
      take clusters and processors.  ClusterPlacement: the invariant of the
      tables and binding.  ClusterSetup: the topology that is read, the tables
      of [Init], a round of binding, a small machine.  ClusterLending: raising
      and lowering a limit, recovering.
    - Ctl: src/client, arguments, commands, socket, in a monad of its own whose
      ends are a result, an exit, a crash and turns that ran out.  CtlConcrete:
      a getopt_long for the examples.  CtlArgs: [Init] for any arguments.
      CtlParams: the parameters of an instance.  CtlTheorems: the commands
      against the daemon's handlers.

    - Machine: the functions of src/common/utils.cpp that read and change the
      machine.  Steps: what code does to its object, as a relation, and what
      holds where it ends, with tactics that walk through code.
    - Realtime: src/plugin/tune/system/realtime.  RealtimeParse: the ranges
      and the parameters that are expected.  RealtimeSettings,
      RealtimeRestore: the settings under /proc and /sys, from [Enable] to
      [Disable].  RealtimeGrubby: the boot parameters.  RealtimeConfig: the
      daemon's list of what it enables.  RealtimeBox: a machine.
    - IrqFrontEnd, HardIrq: src/plugin/tune/system/network/hardirq_tune.
      HardIrqMatch: packets and threads.  HardIrqRestore: affinities from
      [Enable] to [Disable].  HardIrqTune, HardIrqTheorems: where interrupts
      are bound.  HardIrqBox: a machine, and a run from end to end.
    - NetInterface: src/plugin/collect/system/net_interface.  NetInterfaceCycle:
      the life of the flow program and its hooks.  NetInterfaceCounts: what is
      published of a counter, down to the interrupts.  NetInterfaceBox: a
      kernel.
    - Knobs: files of numbers that are written and restored.  LoadBased:
      src/plugin/tune/docker/load_based_scheduling.  LoadBasedRun: the shares
      of a node.  LoadBasedLife: the tables that follow the containers.
      CpuBurst, CpuBurstRestore: src/plugin/tune/docker/cpu_burst.
    - DirWalk: DirectoryWalker and DockerUtils of src/common/utils.cpp.
      CoordBurst, CoordBurstTheorems: src/plugin/tune/docker/coordination_burst.
    - BinaryElf, BinaryTune, BinaryTuneTheorems: src/plugin/tune/system/binary,
      the policy in an ELF file, and the threads that are bound for it.
    - Switches: six instances of src/plugin/tune/system that change the
      kernel's switches (huge pages, scheduling by clusters, parallel NUMA
      scheduling, dynamic SMT, task stealing, the seep governor).
      SwitchKernel: settings, the class of instances that return them, and a
      family of such instances on one machine.  SwitchTheorems: the six as
      instances of the class, and together.

    ** Groups of theorems

    Refinement: messages to the scheduler change the subscriptions as the
    specification says, and a client's [Subscribe] makes that change from the
    other end of the socket; what the command line prints of [enable] is what
    the daemon did; the SMC counters implement a window of probes; the list of
    what the daemon enables is entered and left.
    Safety and invariants: the scheduler's loop never goes wrong from a state
    of its invariant; the server's views of its connections agree; who may
    use the SDK; containers hold disjoint processors, accounted for once,
    through binding, lending and returning; no packet is read past its end; no
    answer stops the command line; a set of boot parameters is changed whole
    or not at all; every interrupt's affinity, every quota and ratio, every
    thread's mask and the switches of six instances that come and go in any
    order come back; an Enable that fails half-way takes back what it did;
    the flow program is attached while a topic needs it.
    Functional: among others, every busy queue's interrupt goes to the node
    that receives most of its packets; a container's control group is found
    if the tree that is searched holds it; threads of different containers are
    bound to different cores.
    Round trips: every registered data type, framed messages,
    topic names, ranges of numbers, parameters
    from the command line to the plugin's parser, the kernel's settings
    through real-time tuning.  Equivalence: the optimised [strlen], the
    one pass over two traces, and the sections of an ELF file.  Liveness and termination: [Schedule], and the
    reading of arguments.  The
    theorems of kind error or bounds state where the code does not do what it
    means to, each by a run of the model.

    ** Bounds and fuel

    [Schedule] takes a number of rounds, and Schedule_runs_due gives one that
    is enough when periods are positive (with a period of 0 the code itself
    does not end).  [ReadBuf] reads at least one byte in each round, so the
    length that is left is enough.  [strlen] needs a round for each eight
    bytes; [wrapText] a round for each byte; [parse_and_store_ports] one for
    each token, at most the length of the text and one more.  [WaitAndPop]
    needs a round for each event in the queue, since no handler posts one.
    The loop of [DockerMinusCpuLimitComm] gives back a processor or drops a
    cluster in each turn, so their sum is enough.  Each turn of [read_options]
    takes one option of what getopt_long has left ([go_left]); [take_params]
    takes two arguments in a turn.  The search for a control group goes five
    directories deep, as the code's does; [words] and [fgets_parts] take a byte
    in each turn; a mask has 1024 processors.  The other loops of the plugins
    are over lists, so they need no fuel.

    ** Not modelled

    The analysis mode of the command line (src/client/analysis), the
    analyses, and the collectors and tuning plugins other than those above
    (among them the collector of threads, SMC's and the multi-path network's
    set-up, xcall, preloading): most of their code reads and writes files of
    /proc and /sys and prints tables.  The functions that free data;
    code that is only input and output (log appenders, curl, commands), and the
    generated kernel headers of src/3rd.  Of the placement of containers, the
    reading of /proc/stat and of the devices of the cache monitors are
    arguments, and so is whether the processors have siblings.  Of the binding
    of interrupts, the text of the debug log and of failures is left out. *)

From Stdlib Require Import ZArith Lia Strings.Byte.
From stdpp Require Export base decidable list gmap strings numbers option.

#[global] Open Scope Z_scope.

(** ** Outcomes and the state monad

    A C++ call either returns, throws an exception that unwinds the stack, or
    has undefined behaviour (a null pointer dereference, a read past the end
    of a vector, a signed overflow). *)

Inductive exn := BadAlloc | LengthError | InvalidArgument | OutOfRange | YamlException.

Inductive outcome (A : Type) :=
| Ret (a : A)
| Throw (e : exn)
| Undef.
Arguments Ret {A} a.
Arguments Throw {A} e.
Arguments Undef {A}.

Lemma Ret_inj {A} (x y : A) : Ret x = Ret y → x = y.
Proof. congruence. Qed.

#[export] Instance exn_eq_dec : EqDecision exn.
Proof. solve_decision. Defined.

(** Code that reads and writes an object of type [S] and produces an [A]. *)
Definition St (S A : Type) : Type := S → outcome (A * S).

#[export] Instance St_ret {S} : MRet (St S) := λ A a s, Ret (a, s).
#[export] Instance St_bind {S} : MBind (St S) := λ A B f m s,
  match m s with
  | Ret (a, s') => f a s'
  | Throw e => Throw e
  | Undef => Undef
  end.

Definition get {S} : St S S := λ s, Ret (s, s).
Definition put {S} (s : S) : St S unit := λ _, Ret (tt, s).
Definition modify {S} (f : S → S) : St S unit := λ s, Ret (tt, f s).
Definition gets {S A} (f : S → A) : St S A := λ s, Ret (f s, s).
Definition throw {S A} (e : exn) : St S A := λ _, Throw e.
Definition undef {S A} : St S A := λ _, Undef.

(** Dereference of a pointer that may be null, or a lookup that the code
    does not guard. *)
Definition deref {S A} (o : option A) : St S A :=
  match o with Some a => mret a | None => undef end.

(** The outcome of a function that uses no object. *)
Definition lift {S A} (o : outcome A) : St S A := λ s,
  match o with Ret a => Ret (a, s) | Throw e => Throw e | Undef => Undef end.

(** Code on a part of the object, which [part] reads and [set_part] writes. *)
Definition zoom {S M A} (part : S → M) (set_part : M → S → S) (c : St M A) : St S A := λ s,
  match c (part s) with
  | Ret (a, m) => Ret (a, set_part m s)
  | Throw e => Throw e
  | Undef => Undef
  end.

(** [for (auto &x : l) body]. *)
Fixpoint for_each {S A} (l : list A) (body : A → St S unit) : St S unit :=
  match l with
  | [] => mret tt
  | x :: l => body x ≫= λ _, for_each l body
  end.

(** Running a block one call at a time. *)
Lemma run_bind {S A B} (m : St S A) (f : A → St S B) s :
  (m ≫= f) s = match m s with Ret (a, s') => f a s' | Throw e => Throw e | Undef => Undef end.
Proof. done. Qed.

Lemma deref_run {S A} (o : option A) a (s : S) : o = Some a → deref o s = Ret (a, s).
Proof. by intros ->. Qed.

(** *** Reasoning: weakest preconditions

    [wp m Q s]: running [m] from [s] has no undefined behaviour, and [Q]
    holds of the result when it returns.  An exception is allowed: it is the
    caller's [try] block that says what happens then. *)
Definition wp {S A} (m : St S A) (Q : A → S → Prop) (s : S) : Prop :=
  match m s with
  | Ret (a, s') => Q a s'
  | Throw _ => True
  | Undef => False
  end.

Section wp.
Context {S : Type}.

Lemma wp_ret {A} (a : A) Q (s : S) : Q a s → wp (mret a) Q s.
Proof. done. Qed.

Lemma wp_bind {A B} (m : St S A) (f : A → St S B) Q s :
  wp m (λ a, wp (f a) Q) s → wp (m ≫= f) Q s.
Proof. unfold wp, mbind, St_bind. by destruct (m s) as [[a s']| |]. Qed.

Lemma wp_mono {A} (m : St S A) (Q R : A → S → Prop) s :
  wp m Q s → (∀ a s', Q a s' → R a s') → wp m R s.
Proof. unfold wp. destruct (m s) as [[a s']| |]; by eauto. Qed.

Lemma wp_get Q (s : S) : Q s s → wp get Q s.
Proof. done. Qed.
Lemma wp_put (s' : S) Q s : Q tt s' → wp (put s') Q s.
Proof. done. Qed.
Lemma wp_modify (f : S → S) Q s : Q tt (f s) → wp (modify f) Q s.
Proof. done. Qed.
Lemma wp_gets {A} (f : S → A) Q s : Q (f s) s → wp (gets f) Q s.
Proof. done. Qed.
Lemma wp_deref {A} (o : option A) a Q (s : S) :
  o = Some a → Q a s → wp (deref o) Q s.
Proof. by intros ->. Qed.

(** A loop keeps an invariant that each round keeps. *)
Lemma wp_for_each {A} (l : list A) (body : A → St S unit) (I : S → Prop) s :
  I s → (∀ x s, x ∈ l → I s → wp (body x) (λ _, I) s) →
  wp (for_each l body) (λ _, I) s.
Proof.
  intros Hs Hb. revert s Hs.
  induction l as [|x l IH]; intros s Hs; simpl; [done|].
  apply wp_bind. eapply wp_mono; [apply Hb; set_solver|].
  intros ? s' Hs'. apply IH; [|done]. set_solver.
Qed.

(** A loop whose invariant speaks of the elements already visited. *)
Lemma wp_for_each_idx {A} (l : list A) (body : A → St S unit)
    (I : list A → S → Prop) s :
  I [] s →
  (∀ l1 x l2 s, l = l1 ++ x :: l2 → I l1 s → wp (body x) (λ _, I (l1 ++ [x])) s) →
  wp (for_each l body) (λ _, I l) s.
Proof.
  intros Hs Hb. assert (∀ l2 l1 s, l = l1 ++ l2 → I l1 s →
    wp (for_each l2 body) (λ _, I l) s) as H; [|by apply (H l [])].
  induction l2 as [|x l2 IH]; intros l1 s' Hl HI; simpl.
  { apply wp_ret. by rewrite app_nil_r in Hl; subst. }
  apply wp_bind. eapply wp_mono; [by eapply Hb|].
  intros ? s'' HI'. apply (IH (l1 ++ [x])); [|done].
  by rewrite Hl, <-app_assoc.
Qed.
End wp.

(** The total variant: [m] returns, and [Q] holds of the result. *)
Definition twp {S A} (m : St S A) (Q : A → S → Prop) (s : S) : Prop :=
  match m s with
  | Ret (a, s') => Q a s'
  | _ => False
  end.

Section twp.
Context {S : Type}.

Lemma twp_alt {A} (m : St S A) Q s :
  twp m Q s ↔ ∃ a s', m s = Ret (a, s') ∧ Q a s'.
Proof.
  unfold twp. destruct (m s) as [[a s']| |]; split; try done; [by eauto|..].
  all: intros (x & t & E & HQ); by inversion E; subst.
Qed.

Lemma twp_wp {A} (m : St S A) Q s : twp m Q s → wp m Q s.
Proof. unfold twp, wp. by destruct (m s). Qed.

Lemma twp_ret {A} (a : A) (Q : A → S → Prop) s : Q a s → twp (mret a) Q s.
Proof. done. Qed.

Lemma twp_bind {A B} (m : St S A) (f : A → St S B) Q s :
  twp m (λ a, twp (f a) Q) s → twp (m ≫= f) Q s.
Proof. unfold twp, mbind, St_bind. by destruct (m s) as [[a s']| |]. Qed.

Lemma twp_mono {A} (m : St S A) (Q R : A → S → Prop) s :
  twp m Q s → (∀ a s', Q a s' → R a s') → twp m R s.
Proof. unfold twp. destruct (m s) as [[a s']| |]; by eauto. Qed.

Lemma twp_and {A} (m : St S A) (Q R : A → S → Prop) s :
  twp m Q s → twp m R s → twp m (λ a s', Q a s' ∧ R a s') s.
Proof. unfold twp. by destruct (m s) as [[a s']| |]. Qed.

Lemma twp_get (Q : S → S → Prop) s : Q s s → twp get Q s.
Proof. done. Qed.
Lemma twp_gets {A} (f : S → A) (Q : A → S → Prop) s : Q (f s) s → twp (gets f) Q s.
Proof. done. Qed.
Lemma twp_modify (f : S → S) (Q : unit → S → Prop) s : Q tt (f s) → twp (modify f) Q s.
Proof. done. Qed.
Lemma twp_deref {A} (o : option A) a (Q : A → S → Prop) s :
  o = Some a → Q a s → twp (deref o) Q s.
Proof. by intros ->. Qed.

Lemma twp_lift {A} (o : outcome A) a (Q : A → S → Prop) s :
  o = Ret a → Q a s → twp (lift o) Q s.
Proof. by intros ->. Qed.
Lemma twp_zoom {M A} (part : S → M) (set_part : M → S → S) (c : St M A) (Q : A → S → Prop) s :
  twp c (λ a m, Q a (set_part m s)) (part s) → twp (zoom part set_part c) Q s.
Proof. unfold twp, zoom. by destruct (c (part s)) as [[a m]| |]. Qed.

Lemma twp_for_each {A} (l : list A) (body : A → St S unit) (I : S → Prop) s :
  I s → (∀ x s, x ∈ l → I s → twp (body x) (λ _, I) s) →
  twp (for_each l body) (λ _, I) s.
Proof.
  intros Hs Hb. revert s Hs.
  induction l as [|x l IH]; intros s Hs; simpl; [done|].
  apply twp_bind. eapply twp_mono; [apply Hb; set_solver|].
  intros ? s' Hs'. apply IH; [|done]. set_solver.
Qed.

(** A loop over distinct elements whose invariant speaks of those already
    visited. *)
Lemma twp_for_each_idx {A} (l : list A) (body : A → St S unit)
    (I : list A → S → Prop) s :
  I [] s →
  (∀ l1 x l2 s, l = l1 ++ x :: l2 → I l1 s → twp (body x) (λ _, I (l1 ++ [x])) s) →
  twp (for_each l body) (λ _, I l) s.
Proof.
  intros Hs Hb. assert (∀ l2 l1 s, l = l1 ++ l2 → I l1 s →
    twp (for_each l2 body) (λ _, I l) s) as H; [|by apply (H l [])].
  induction l2 as [|x l2 IH]; intros l1 s' Hl HI; simpl.
  { apply twp_ret. by rewrite app_nil_r in Hl; subst. }
  apply twp_bind. eapply twp_mono; [by eapply Hb|].
  intros ? s'' HI'. apply (IH (l1 ++ [x])); [|done].
  by rewrite Hl, <-app_assoc.
Qed.
End twp.

Create HintDb oe discriminated.
#[export] Hint Resolve wp_ret wp_get wp_put wp_modify wp_gets : oe.

(** Runs the [wp] rules through a block of code. *)
Ltac wp_step :=
  match goal with
  | |- wp (mbind _ _) _ _ => apply wp_bind
  | |- wp (mret _) _ _ => apply wp_ret
  | |- wp get _ _ => apply wp_get
  | |- wp (put _) _ _ => apply wp_put
  | |- wp (modify _) _ _ => apply wp_modify
  | |- wp (gets _) _ _ => apply wp_gets
  | |- wp (throw _) _ _ => exact I
  | |- wp (match ?x with _ => _ end) _ _ => destruct x eqn:?
  end.
Ltac wp_run := repeat (wp_step; simpl).
