(* ===== verification/Bytes.v ===== *)
(** * Bytes and machine integers

    The representation the library gives to the C++ fundamental types: an
    integer is a [Z] in the range of its type, its object representation is
    the little-endian list of its bytes, and a [std::string] converts to and
    from the list of its characters. *)

From Stdlib Require Import ZArith Lia Strings.Byte.
From stdpp Require Import base list strings numbers countable.
From S2P Require Import Prelude.

Definition byte_val (b : byte) : Z := Z.of_N (Byte.to_N b).

(** The low eight bits of an integer. *)
Definition byte_of (z : Z) : byte :=
  match Byte.of_N (Z.to_N (z `mod` 256)) with Some b => b | None => x00 end.

Lemma byte_val_range b : 0 ≤ byte_val b < 256.
Proof. unfold byte_val. pose proof (Byte.to_N_bounded b). lia. Qed.

Lemma byte_of_val b : byte_of (byte_val b) = b.
Proof.
  unfold byte_of. rewrite Z.mod_small by apply byte_val_range.
  unfold byte_val. by rewrite N2Z.id, Byte.of_to_N.
Qed.

Lemma byte_val_of z : byte_val (byte_of z) = z `mod` 256.
Proof.
  assert (0 ≤ z `mod` 256 < 256) as Hz by (apply Z.mod_pos_bound; lia).
  unfold byte_val, byte_of.
  destruct (Byte.of_N (Z.to_N (z `mod` 256))) as [b|] eqn:E.
  - apply Byte.to_of_N in E. rewrite E. lia.
  - pose proof (Byte.to_of_N_option_map (Z.to_N (z `mod` 256))) as H.
    rewrite E in H. simpl in H. case_match eqn:Hle; [done|].
    apply N.leb_gt in Hle. lia.
Qed.

Lemma byte_val_inj a b : byte_val a = byte_val b → a = b.
Proof. intros H. by rewrite <-(byte_of_val a), <-(byte_of_val b), H. Qed.

#[export] Instance byte_eq_dec : EqDecision byte := Byte.byte_eq_dec.
#[export] Instance byte_countable : Countable byte :=
  inj_countable Byte.to_N Byte.of_N Byte.of_to_N.

(** ** Little-endian object representation *)

(** The [n] bytes of [z], least significant first. *)
Fixpoint le_bytes (n : nat) (z : Z) : list byte :=
  match n with
  | O => []
  | S n => byte_of z :: le_bytes n (z / 256)
  end.

Fixpoint le_val (bs : list byte) : Z :=
  match bs with
  | [] => 0
  | b :: bs => byte_val b + 256 * le_val bs
  end.

Lemma length_le_bytes n z : length (le_bytes n z) = n.
Proof. revert z; induction n; intros z; simpl; auto. Qed.

Lemma le_val_bytes n z : le_val (le_bytes n z) = z `mod` 256 ^ Z.of_nat n.
Proof.
  revert z. induction n as [|n IH]; intros z.
  { simpl. by rewrite Z.mod_1_r. }
  cbn [le_bytes le_val]. rewrite IH, byte_val_of, Nat2Z.inj_succ, Z.pow_succ_r by lia.
  by rewrite Zmod_recombine || rewrite Z.rem_mul_r by lia.
Qed.

Lemma le_val_range bs : 0 ≤ le_val bs < 256 ^ Z.of_nat (length bs).
Proof.
  induction bs as [|b bs IH]; [simpl; lia|].
  cbn [le_val length]. rewrite Nat2Z.inj_succ, Z.pow_succ_r by lia.
  pose proof (byte_val_range b). lia.
Qed.

Lemma le_bytes_val bs : le_bytes (length bs) (le_val bs) = bs.
Proof.
  induction bs as [|b bs IH]; [done|]. cbn [length le_bytes le_val].
  pose proof (byte_val_range b). f_equal.
  - apply byte_val_inj. rewrite byte_val_of, Z.mul_comm, Z_mod_plus_full.
    by apply Z.mod_small.
  - rewrite Z.mul_comm, Z.div_add, Z.div_small by lia. apply IH.
Qed.

Lemma le_bytes_mod n z : le_bytes n (z `mod` 256 ^ Z.of_nat n) = le_bytes n z.
Proof.
  rewrite <-(le_bytes_val (le_bytes n z)), length_le_bytes at 1.
  by rewrite le_val_bytes.
Qed.

(** ** Fixed-width integer types *)

(** The fundamental types of the serialised data, with their LP64 widths. *)
Inductive ctype :=
| CChar | CUchar | CShort | CUshort | CInt | CUint | CLong | CUlong
| CLlong | CUllong | CFloat | CDouble.

Definition sizeof (t : ctype) : nat :=
  match t with
  | CChar | CUchar => 1
  | CShort | CUshort => 2
  | CInt | CUint | CFloat => 4
  | CLong | CUlong | CLlong | CUllong | CDouble => 8
  end.

(** A floating-point value is carried as the integer of its bits. *)
Definition is_signed (t : ctype) : bool :=
  match t with
  | CChar | CShort | CInt | CLong | CLlong => true
  | _ => false
  end.

Definition modulus (t : ctype) : Z := 256 ^ Z.of_nat (sizeof t).

(** Conversion of an arbitrary integer to the type. *)
Definition wrap (t : ctype) (z : Z) : Z :=
  let u := z `mod` modulus t in
  if is_signed t && bool_decide (modulus t / 2 ≤ u) then u - modulus t else u.

Definition in_range (t : ctype) (z : Z) : Prop :=
  if is_signed t then - (modulus t / 2) ≤ z < modulus t / 2
  else 0 ≤ z < modulus t.

#[export] Instance in_range_dec t z : Decision (in_range t z).
Proof. unfold in_range. destruct (is_signed t); apply _. Defined.

(** The ranges as numerals, for [lia]. *)
Lemma in_range_int z : -2147483648 ≤ z < 2147483648 → in_range CInt z.
Proof. done. Qed.
Lemma in_range_uint z : 0 ≤ z < 4294967296 → in_range CUint z.
Proof. done. Qed.
Lemma in_range_ulong z : 0 ≤ z < 18446744073709551616 → in_range CUlong z.
Proof. done. Qed.
Lemma in_range_int_inv z : in_range CInt z → -2147483648 ≤ z < 2147483648.
Proof. done. Qed.
Lemma in_range_uint_inv z : in_range CUint z → 0 ≤ z < 4294967296.
Proof. done. Qed.
Lemma in_range_ulong_inv z : in_range CUlong z → 0 ≤ z < 18446744073709551616.
Proof. done. Qed.

Lemma modulus_pos t : 0 < modulus t.
Proof. destruct t; reflexivity. Qed.

Lemma modulus_even t : modulus t = 2 * (modulus t / 2).
Proof. destruct t; reflexivity. Qed.

Lemma wrap_in_range t z : in_range t (wrap t z).
Proof.
  pose proof (modulus_pos t). pose proof (modulus_even t).
  pose proof (Z.mod_pos_bound z (modulus t) ltac:(lia)).
  unfold in_range, wrap. destruct (is_signed t); simpl; [|done].
  case_bool_decide; lia.
Qed.

Lemma wrap_id t z : in_range t z → wrap t z = z.
Proof.
  pose proof (modulus_pos t). pose proof (modulus_even t).
  unfold in_range, wrap. destruct (is_signed t) eqn:E; simpl.
  - intros Hz. destruct (decide (0 ≤ z)) as [Hp|Hn].
    + rewrite Z.mod_small by lia. case_bool_decide; lia.
    + assert (z `mod` modulus t = z + modulus t) as ->.
      { symmetry. apply (Z.mod_unique_pos _ _ (-1)); lia. }
      case_bool_decide; lia.
  - intros Hz. by apply Z.mod_small.
Qed.

Lemma wrap_mod t z : wrap t z `mod` modulus t = z `mod` modulus t.
Proof.
  pose proof (modulus_pos t). unfold wrap.
  destruct (is_signed t && _); [|by apply Z.mod_mod; lia].
  replace (_ - modulus t) with (z `mod` modulus t + (-1) * modulus t) by lia.
  rewrite Z_mod_plus_full. apply Z.mod_mod; lia.
Qed.

(** The bytes of a value of the type, and the value that given bytes hold. *)
Definition to_bytes (t : ctype) (z : Z) : list byte := le_bytes (sizeof t) z.
Definition of_bytes (t : ctype) (bs : list byte) : Z := wrap t (le_val bs).

Lemma length_to_bytes t z : length (to_bytes t z) = sizeof t.
Proof. apply length_le_bytes. Qed.

Lemma of_to_bytes t z : of_bytes t (to_bytes t z) = wrap t z.
Proof.
  unfold of_bytes, to_bytes. rewrite le_val_bytes. fold (modulus t).
  unfold wrap. by rewrite Z.mod_mod by (pose proof (modulus_pos t); lia).
Qed.

Lemma of_to_bytes_id t z : in_range t z → of_bytes t (to_bytes t z) = z.
Proof. intros. by rewrite of_to_bytes, wrap_id. Qed.

Lemma of_bytes_range t bs : in_range t (of_bytes t bs).
Proof. apply wrap_in_range. Qed.

(** Proves [in_range] facts about the integer types from linear ones. *)
Ltac solve_range :=
  repeat match goal with
  | H : in_range CInt _ |- _ => apply in_range_int_inv in H
  | H : in_range CUint _ |- _ => apply in_range_uint_inv in H
  | H : in_range CUlong _ |- _ => apply in_range_ulong_inv in H
  end;
  first [apply in_range_int | apply in_range_uint | apply in_range_ulong]; lia.

#[export] Hint Resolve wrap_in_range of_bytes_range : oe.

(** ** Character strings *)

Definition bytes_of (s : string) : list byte := String.list_byte_of_string s.
Definition str_of (bs : list byte) : string := String.string_of_list_byte bs.

Lemma str_of_bytes_of s : str_of (bytes_of s) = s.
Proof. apply String.string_of_list_byte_of_string. Qed.
Lemma bytes_of_str_of bs : bytes_of (str_of bs) = bs.
Proof. apply String.list_byte_of_string_of_list_byte. Qed.

Lemma bytes_of_append s t : bytes_of (s +:+ t) = bytes_of s ++ bytes_of t.
Proof.
  unfold bytes_of, String.list_byte_of_string. rewrite <-map_app. f_equal.
  induction s as [|c s IH]; [done|]. simpl. by rewrite <-IH.
Qed.

#[export] Instance bytes_of_inj : Inj (=) (=) bytes_of.
Proof. intros s t E. by rewrite <-(str_of_bytes_of s), E, str_of_bytes_of. Qed.

Definition slen (s : string) : Z := Z.of_nat (length (bytes_of s)).

Lemma slen_nonneg s : 0 ≤ slen s.
Proof. unfold slen. lia. Qed.

(** The string a [char *] denotes: the characters before the first NUL. *)
Fixpoint until_nul (bs : list byte) : list byte :=
  match bs with
  | [] => []
  | b :: bs => if decide (b = x00) then [] else b :: until_nul bs
  end.
Definition c_str (s : string) : string := str_of (until_nul (bytes_of s)).

(** A string that is its own C string: it holds no NUL. *)
Definition no_nul (s : string) : Prop := x00 ∉ bytes_of s.
#[export] Instance no_nul_dec s : Decision (no_nul s).
Proof. unfold no_nul. apply _. Defined.

Lemma until_nul_id bs : x00 ∉ bs → until_nul bs = bs.
Proof.
  induction bs as [|b bs IH]; intros Hn; [done|]. simpl.
  rewrite decide_False by set_solver. f_equal. apply IH. set_solver.
Qed.

Lemma until_nul_no_nul bs : x00 ∉ until_nul bs.
Proof.
  induction bs as [|b bs IH]; simpl; [set_solver|].
  case_decide; set_solver.
Qed.

Lemma until_nul_length bs : (length (until_nul bs) ≤ length bs)%nat.
Proof. induction bs as [|b bs IH]; simpl; [lia|]. case_decide; simpl; lia. Qed.

Lemma c_str_id s : no_nul s → c_str s = s.
Proof. intros. unfold c_str. by rewrite until_nul_id, str_of_bytes_of. Qed.

Lemma c_str_no_nul s : no_nul (c_str s).
Proof. unfold no_nul, c_str. rewrite bytes_of_str_of. apply until_nul_no_nul. Qed.

Lemma c_str_slen s : slen (c_str s) ≤ slen s.
Proof.
  unfold slen, c_str. rewrite bytes_of_str_of.
  pose proof (until_nul_length (bytes_of s)). lia.
Qed.

#[export] Hint Resolve c_str_no_nul c_str_slen slen_nonneg : oe.
