(* ===== verification/Serialize.v ===== *)
(** * The binary streams of include/oeaware/serialize.h

    [OutStream] is the [std::stringstream] that collects written bytes,
    [InStream] the one that is read: the characters not yet extracted and
    whether the stream is still good.  A read past the end extracts what is
    left, fails the stream, and leaves the rest of the destination as it
    was: the code never tests the stream state. *)

From Stdlib Require Import ZArith Lia Strings.Byte.
From stdpp Require Import base list strings numbers.
From S2P Require Import Prelude Bytes.

(** What bounds the size of a [std::string] and of any heap block, the
    characters an uninitialised block happens to hold, and the value of an
    uninitialised [int] variable. *)
Class Platform := {
  string_max_size : Z;
  heap_limit : Z;
  heap_junk : nat → byte;
  stack_int : Z;
}.

(** ** Streams *)

Definition OutStream := list byte.

Record InStream := mkIn { is_rest : list byte; is_good : bool }.

(** [InStream(const std::string &s)]. *)
Definition in_of (s : list byte) : InStream := mkIn s true.

(** [OutStream::Append]. *)
Definition Append (data : list byte) : St OutStream unit :=
  modify (λ os, os ++ data).

(** [is.read(data, len)]: the characters it extracts. *)
Definition is_read (len : nat) : St InStream (list byte) := λ s,
  if is_good s then
    if decide (len ≤ length (is_rest s))%nat
    then Ret (take len (is_rest s), mkIn (drop len (is_rest s)) true)
    else Ret (is_rest s, mkIn [] false)
  else Ret ([], s).

(** [InStream::Deserialize(char *data, size_t len)] into a buffer that held
    [old]. *)
Definition InDeserialize (len : nat) (old : list byte) : St InStream (list byte) :=
  got ← is_read len; mret (got ++ drop (length got) old).

(** ** Fundamental types *)

Definition Serialize (t : ctype) (v : Z) : St OutStream unit :=
  Append (to_bytes t v).

Definition Deserialize (t : ctype) (old : Z) : St InStream Z :=
  bs ← InDeserialize (sizeof t) (to_bytes t old); mret (of_bytes t bs).

(** ** Strings *)

Definition SerializeString (data : string) : St OutStream unit :=
  Serialize CUlong (slen data) ≫= λ _, Append (bytes_of data).

Section alloc.
Context `{Platform}.

(** [data.resize(len)] *)
Definition str_resize {S} (data : list byte) (len : Z) : St S (list byte) :=
  if decide (string_max_size < len) then throw LengthError
  else if decide (heap_limit < len) then throw BadAlloc
  else mret (take (Z.to_nat len) data ++
             replicate (Z.to_nat len - length data) x00).

Definition DeserializeString (data : string) : St InStream string :=
  len ← Deserialize CUlong 0;
  buf ← str_resize (bytes_of data) len;
  bs ← InDeserialize (Z.to_nat len) buf;
  mret (str_of bs).

(** [const char *]: the pointer may be null, and [strlen] stops at the
    first NUL. *)
Definition SerializeCharp (data : option string) : St OutStream unit :=
  s ← deref data;
  Serialize CUlong (slen (c_str s)) ≫= λ _, Append (bytes_of (c_str s)).

(** [new char[len + 1]], the read, and the terminating zero. *)
Definition DeserializeCharp : St InStream (option string) :=
  len ← Deserialize CUlong 0;
  if decide (heap_limit < len + 1) then throw BadAlloc else
  bs ← InDeserialize (Z.to_nat len) (map heap_junk (seq 0 (Z.to_nat len)));
  mret (Some (c_str (str_of bs))).

(** ** Vectors and shared pointers *)

Definition SerializeVector {A} (ser : A → St OutStream unit) (data : list A) :
    St OutStream unit :=
  Serialize CUlong (Z.of_nat (length data)) ≫= λ _, for_each data ser.

(** [data.emplace_back(temp)] *)
Definition emplace_back {S A} (data : list A) (temp : A) : St S (list A) :=
  if decide (heap_limit ≤ Z.of_nat (length data)) then throw BadAlloc
  else mret (data ++ [temp]).

(** [for (size_t i = 0; i < n; ++i) { T temp; ...; data.emplace_back(temp); }] *)
Fixpoint vector_loop {A} (n : nat) (des : St InStream A) (data : list A) :
    St InStream (list A) :=
  match n with
  | O => mret data
  | S n => temp ← des; data ← emplace_back data temp; vector_loop n des data
  end.

Definition DeserializeVector {A} (des : St InStream A) (data : list A) :
    St InStream (list A) :=
  len ← Deserialize CUlong 0; vector_loop (Z.to_nat len) des data.

(** The [std::shared_ptr<T>] overloads go through the pointer. *)
Definition SerializeShared {A} (ser : A → St OutStream unit) (data : option A) :
    St OutStream unit := deref data ≫= ser.

Definition DeserializeShared {A} (des : A → St InStream A) (data : option A) :
    St InStream (option A) := old ← deref data; v ← des old; mret (Some v).

Definition SerializeSharedVector {A} (ser : A → St OutStream unit)
    (data : list (option A)) : St OutStream unit :=
  SerializeVector (SerializeShared ser) data.

(** [make_shared<T>()] gives each element a fresh object. *)
Definition DeserializeSharedVector {A} (des : A → St InStream A) (made : A)
    (data : list (option A)) : St InStream (list (option A)) :=
  DeserializeVector (DeserializeShared des (Some made)) data.
End alloc.

(** ** Encode and Decode *)

Definition Encode {A} (ser : A → St OutStream unit) (msg : A) : outcome (list byte) :=
  match ser msg [] with
  | Ret (_, out) => Ret out
  | Throw e => Throw e
  | Undef => Undef
  end.

(** The [catch (std::exception &)] turns an exception into [false]; the
    message then holds whatever was read, which the model does not describe
    and the code does not use. *)
Definition Decode {A} (des : A → St InStream A) (msg : A) (content : list byte) :
    outcome (bool * A) :=
  match des msg (in_of content) with
  | Ret (m, _) => Ret (true, m)
  | Throw _ => Ret (false, msg)
  | Undef => Undef
  end.
