(* ===== verification/Codec.v ===== *)
(** * Writers and readers that fit together

    The serialisers of the code come in pairs that must agree byte for byte.
    [Writes m a bs] says that [m] appends exactly [bs]; [Reads m bs a] says
    that [m] consumes exactly [bs] from a stream that starts with them; and
    [Codec w a r b] that the writer [w] produces some bytes from which the
    reader [r] recovers [b].  The combinators below follow the structure of
    the code, so a round trip is proved by walking both sides at once. *)

From Stdlib Require Import ZArith Lia Strings.Byte.
From stdpp Require Import base list strings numbers.
From S2P Require Import Prelude Bytes Serialize.

Definition Writes {A} (m : St OutStream A) (a : A) (bs : list byte) : Prop :=
  ∀ out, m out = Ret (a, out ++ bs).

Definition Reads {A} (m : St InStream A) (bs : list byte) (a : A) : Prop :=
  ∀ rest, m (in_of (bs ++ rest)) = Ret (a, in_of rest).

Definition Codec {A B} (w : St OutStream A) (a : A) (r : St InStream B) (b : B) : Prop :=
  ∃ bs, Writes w a bs ∧ Reads r bs b.

Create HintDb codec discriminated.

Section writes_reads.
Lemma Writes_ret {A} (a : A) : Writes (mret a) a [].
Proof. intros out. by rewrite app_nil_r. Qed.

Lemma Writes_bind {A B} (m : St OutStream A) (k : A → St OutStream B) a b bs1 bs2 :
  Writes m a bs1 → Writes (k a) b bs2 → Writes (m ≫= k) b (bs1 ++ bs2).
Proof.
  intros H1 H2 out. unfold mbind, St_bind. rewrite H1, H2. by rewrite app_assoc.
Qed.

Lemma Reads_ret {A} (a : A) : Reads (mret a) [] a.
Proof. by intros rest. Qed.

Lemma Reads_bind {A B} (m : St InStream A) (k : A → St InStream B) a b bs1 bs2 :
  Reads m bs1 a → Reads (k a) bs2 b → Reads (m ≫= k) (bs1 ++ bs2) b.
Proof.
  intros H1 H2 rest. unfold mbind, St_bind. by rewrite <-app_assoc, H1, H2.
Qed.

Lemma Writes_Append bs : Writes (Append bs) tt bs.
Proof. done. Qed.

Lemma Writes_Serialize t v : Writes (Serialize t v) tt (to_bytes t v).
Proof. done. Qed.

Lemma Reads_InDeserialize n old bs :
  length bs = n → length old = n → Reads (InDeserialize n old) bs bs.
Proof.
  intros <- Hold rest. unfold InDeserialize, is_read, mbind, St_bind. simpl.
  rewrite decide_True by (rewrite length_app; lia). simpl.
  rewrite take_app_length, drop_app_length.
  by rewrite drop_ge, app_nil_r by lia.
Qed.

Lemma Reads_Deserialize t old v :
  in_range t v → Reads (Deserialize t old) (to_bytes t v) v.
Proof.
  intros Hv rest. unfold Deserialize, mbind at 1, St_bind.
  rewrite Reads_InDeserialize by apply length_to_bytes.
  by rewrite of_to_bytes_id.
Qed.
End writes_reads.

(** ** Reading a stream that has already failed *)

Lemma is_read_failed n rest : is_read n (mkIn rest false) = Ret ([], mkIn rest false).
Proof. done. Qed.

Lemma InDeserialize_failed n old rest :
  InDeserialize n old (mkIn rest false) = Ret (old, mkIn rest false).
Proof. done. Qed.

Lemma Deserialize_failed t old rest :
  in_range t old →
  Deserialize t old (mkIn rest false) = Ret (old, mkIn rest false).
Proof.
  intros Ho. unfold Deserialize, mbind at 1, St_bind.
  rewrite InDeserialize_failed. by rewrite of_to_bytes_id.
Qed.

(** ** Combinators *)

Section codec.
Lemma Codec_ret {A B} (a : A) (b : B) : Codec (mret a) a (mret b) b.
Proof. exists []. split; [apply Writes_ret|apply Reads_ret]. Qed.

Lemma Codec_bind {A B A' B'} (w : St OutStream A) a (r : St InStream B) b
    (k : A → St OutStream A') a' (j : B → St InStream B') b' :
  Codec w a r b → Codec (k a) a' (j b) b' → Codec (w ≫= k) a' (r ≫= j) b'.
Proof.
  intros (bs1 & W1 & R1) (bs2 & W2 & R2). exists (bs1 ++ bs2). split.
  - by eapply Writes_bind.
  - by eapply Reads_bind.
Qed.

(** A last statement that is not followed by a [return]. *)
Lemma Codec_bind_last {A B B'} (w : St OutStream A) a (r : St InStream B) b
    (j : B → St InStream B') b' :
  Codec w a r b → (∀ s, j b s = Ret (b', s)) → Codec w a (r ≫= j) b'.
Proof.
  intros (bs & W & R) Hj. exists bs. split; [done|].
  intros rest. unfold mbind, St_bind. by rewrite R, Hj.
Qed.

(** A block that ends in its last call ends in a [return]. *)
Lemma Codec_ret_w {A B} (w : St OutStream A) a (r : St InStream B) b :
  Codec (w ≫= mret) a r b → Codec w a r b.
Proof.
  intros (bs & W & R). exists bs. split; [|done]. intros out.
  rewrite <-W. unfold mbind, St_bind. by destruct (w out) as [[]| |].
Qed.

Lemma Codec_ret_r {A B} (w : St OutStream A) a (r : St InStream B) b :
  Codec w a (r ≫= mret) b → Codec w a r b.
Proof.
  intros (bs & W & R). exists bs. split; [done|]. intros rest.
  rewrite <-R. unfold mbind, St_bind. by destruct (r _) as [[]| |].
Qed.

Lemma Codec_assoc_w {A A' A'' B} (w : St OutStream A) (k : A → St OutStream A')
    (l : A' → St OutStream A'') a (r : St InStream B) b :
  Codec (w ≫= λ x, k x ≫= l) a r b → Codec ((w ≫= k) ≫= l) a r b.
Proof.
  intros (bs & W & R). exists bs. split; [|done]. intros out.
  rewrite <-W. unfold mbind, St_bind. by destruct (w out) as [[]| |].
Qed.

Lemma Codec_assoc_r {A B B' B''} (r : St InStream B) (k : B → St InStream B')
    (l : B' → St InStream B'') b (w : St OutStream A) a :
  Codec w a (r ≫= λ x, k x ≫= l) b → Codec w a ((r ≫= k) ≫= l) b.
Proof.
  intros (bs & W & R). exists bs. split; [done|]. intros rest.
  rewrite <-R. unfold mbind, St_bind. by destruct (r _) as [[]| |].
Qed.

Lemma Codec_deref {A B C} (c : C) (k : C → St OutStream A) a (r : St InStream B) b :
  Codec (k c) a r b → Codec (deref (Some c) ≫= k) a r b.
Proof. done. Qed.

Lemma Codec_deref_r {A B C} (c : C) (w : St OutStream A) a (j : C → St InStream B) b :
  Codec w a (j c) b → Codec w a (deref (Some c) ≫= j) b.
Proof. done. Qed.

Lemma Codec_pure_w {A A' B} (x : A) (k : A → St OutStream A') a (r : St InStream B) b :
  Codec (k x) a r b → Codec (mret x ≫= k) a r b.
Proof. done. Qed.

(** A pure step of the reader, such as storing a field. *)
Lemma Codec_pure_r {A B B'} (w : St OutStream A) a (x : B) (j : B → St InStream B') b :
  Codec w a (j x) b → Codec w a (mret x ≫= j) b.
Proof. done. Qed.

Lemma Codec_base t old v :
  in_range t v → Codec (Serialize t v) tt (Deserialize t old) v.
Proof.
  exists (to_bytes t v). split; [done|by apply Reads_Deserialize].
Qed.

Lemma Codec_bytes n old bs :
  length bs = n → length old = n → Codec (Append bs) tt (InDeserialize n old) bs.
Proof. exists bs. split; [done|by apply Reads_InDeserialize]. Qed.

(** [for (i...) out << x[i]] against [for (i...) in >> y[i]]. *)
Fixpoint read_n {A} (n : nat) (r : St InStream A) : St InStream (list A) :=
  match n with
  | O => mret []
  | S n => x ← r; l ← read_n n r; mret (x :: l)
  end.

Lemma Codec_for {A B} (l : list A) (w : A → St OutStream unit) (r : St InStream B)
    (l' : list B) :
  Forall2 (λ x y, Codec (w x) tt r y) l l' →
  Codec (for_each l w) tt (read_n (length l) r) l'.
Proof.
  induction 1 as [|x y l l' Hxy _ IH]; simpl; [apply Codec_ret|].
  eapply Codec_bind; [done|]. apply Codec_bind_last with l'; done.
Qed.
End codec.

(** ** Strings and vectors *)

(** The strings that a reader has room for. *)
Definition fits `{Platform} (s : string) : Prop :=
  slen s ≤ string_max_size ∧ slen s < heap_limit ∧ in_range CUlong (slen s).

Section strings.
Context `{Platform}.

Lemma length_str_resize {S} data len (s : S) bs s' :
  0 ≤ len → str_resize data len s = Ret (bs, s') → length bs = Z.to_nat len.
Proof.
  unfold str_resize. intros ?. repeat case_decide; [done..|].
  intros [= <- <-]. rewrite length_app, length_take, length_replicate. lia.
Qed.

Lemma Codec_string old s :
  fits s → Codec (SerializeString s) tt (DeserializeString old) s.
Proof.
  intros (Hm & Hh & Hr). unfold SerializeString, DeserializeString.
  eapply Codec_bind; [by apply Codec_base|]. simpl.
  unfold str_resize. rewrite !decide_False by lia.
  apply Codec_pure_r. eapply Codec_bind_last.
  - apply Codec_bytes; [unfold slen; lia|].
    rewrite length_app, length_take, length_replicate. lia.
  - intros st. by rewrite str_of_bytes_of.
Qed.

Lemma Codec_charp s :
  fits (c_str s) →
  Codec (SerializeCharp (Some s)) tt DeserializeCharp (Some (c_str s)).
Proof.
  intros (Hm & Hh & Hr). unfold SerializeCharp, DeserializeCharp.
  apply Codec_deref. eapply Codec_bind; [by apply Codec_base|]. simpl.
  rewrite decide_False by lia. eapply Codec_bind_last.
  - apply Codec_bytes; [unfold slen; lia|]. by rewrite length_map, length_seq.
  - intros st. by rewrite str_of_bytes_of, (c_str_id (c_str s)) by auto with oe.
Qed.

(** A vector read into an empty one. *)
Lemma Codec_vector {A} (ser : A → St OutStream unit) (des : St InStream A) l :
  (∀ x, x ∈ l → Codec (ser x) tt des x) →
  Z.of_nat (length l) ≤ heap_limit → in_range CUlong (Z.of_nat (length l)) →
  Codec (SerializeVector ser l) tt (DeserializeVector des []) l.
Proof.
  intros Hx Hl Hr. unfold SerializeVector, DeserializeVector.
  eapply Codec_bind; [by apply Codec_base|]. simpl. rewrite Nat2Z.id. clear Hr.
  assert (∀ data, Z.of_nat (length data + length l) ≤ heap_limit →
    Codec (for_each l ser) tt (vector_loop (length l) des data) (data ++ l)) as HH.
  2:{ apply (HH []). simpl. lia. }
  clear Hl. induction l as [|x l IH]; intros data Hl; simpl.
  { rewrite app_nil_r. apply Codec_ret. }
  eapply Codec_bind; [apply Hx; set_solver|]. simpl in *.
  unfold emplace_back. rewrite decide_False by lia. apply Codec_pure_r.
  replace (data ++ x :: l) with ((data ++ [x]) ++ l) by (by rewrite <-app_assoc).
  apply IH; [set_solver|]. rewrite length_app. simpl. lia.
Qed.

(** On a failed stream a string reads as empty, whatever it held. *)
Lemma DeserializeString_failed old rest :
  0 ≤ string_max_size → 0 ≤ heap_limit →
  DeserializeString old (mkIn rest false) = Ret (EmptyString, mkIn rest false).
Proof.
  intros Hm Hh. unfold DeserializeString, mbind, St_bind.
  rewrite Deserialize_failed by (done || solve_range).
  unfold str_resize. rewrite !decide_False by lia. done.
Qed.
End strings.

#[export] Hint Resolve Codec_ret Codec_base Codec_string : codec.

(** ** Counted loops *)

(** [for (int i = 0; i < n; ++i) body(i)]. *)
Definition for_n {S} (n : Z) (body : nat → St S unit) : St S unit :=
  for_each (seq 0 (Z.to_nat n)) body.

(** A counted loop of reads, each of which may report an error that ends the
    loop; the elements already read are then lost. *)
Fixpoint try_n {A} (n : nat) (r : St InStream (Z * option A)) :
    St InStream (Z * option (list A)) :=
  match n with
  | O => mret (0, Some [])
  | S n =>
    x ← r;
    match x with
    | (ret, Some a) =>
      y ← try_n n r;
      match y with
      | (ret, Some l) => mret (ret, Some (a :: l))
      | (ret, None) => mret (ret, None)
      end
    | (ret, None) => mret (ret, None)
    end
  end.

Section loops.
Lemma Codec_seq {A} (l : list A) (w : nat → St OutStream unit) (r : St InStream A) k :
  (∀ i x, l !! i = Some x → Codec (w (k + i)%nat) tt r x) →
  Codec (for_each (seq k (length l)) w) tt (read_n (length l) r) l.
Proof.
  revert k. induction l as [|x l IH]; intros k Hl; simpl; [apply Codec_ret|].
  eapply Codec_bind; [rewrite <-(Nat.add_0_r k); by apply (Hl 0%nat)|].
  apply Codec_bind_last with l; [|done]. apply IH. intros i y Hi.
  replace (S k + i)%nat with (k + S i)%nat by lia. by apply Hl.
Qed.

Lemma Codec_for_n {A} (l : list A) n (w : nat → St OutStream unit) (r : St InStream A) :
  Z.of_nat (length l) = n →
  (∀ i x, l !! i = Some x → Codec (w i) tt r x) →
  Codec (for_n n w) tt (read_n (Z.to_nat n) r) l.
Proof.
  intros <- Hl. unfold for_n. rewrite Nat2Z.id. apply (Codec_seq l w r 0).
  intros i x Hi. by apply Hl.
Qed.

Lemma Codec_try_seq {A} (l : list A) (w : nat → St OutStream unit)
    (r : St InStream (Z * option A)) k :
  (∀ i x, l !! i = Some x → Codec (w (k + i)%nat) tt r (0, Some x)) →
  Codec (for_each (seq k (length l)) w) tt (try_n (length l) r) (0, Some l).
Proof.
  revert k. induction l as [|x l IH]; intros k Hl; simpl; [apply Codec_ret|].
  eapply Codec_bind; [rewrite <-(Nat.add_0_r k); by apply (Hl 0%nat)|].
  simpl. apply Codec_bind_last with (0, Some l); [|done]. apply IH. intros i y Hi.
  replace (S k + i)%nat with (k + S i)%nat by lia. by apply Hl.
Qed.

Lemma Codec_try_n {A} (l : list A) n (w : nat → St OutStream unit)
    (r : St InStream (Z * option A)) :
  Z.of_nat (length l) = n →
  (∀ i x, l !! i = Some x → Codec (w i) tt r (0, Some x)) →
  Codec (for_n n w) tt (try_n (Z.to_nat n) r) (0, Some l).
Proof.
  intros <- Hl. unfold for_n. rewrite Nat2Z.id. apply (Codec_try_seq l w r 0).
  intros i x Hi. by apply Hl.
Qed.

(** A linked list written node by node. *)
Lemma Codec_try_each {A} (l : list A) (w : A → St OutStream unit)
    (r : St InStream (Z * option A)) :
  (∀ x, x ∈ l → Codec (w x) tt r (0, Some x)) →
  Codec (for_each l w) tt (try_n (length l) r) (0, Some l).
Proof.
  induction l as [|x l IH]; intros Hl; simpl; [apply Codec_ret|].
  eapply Codec_bind; [apply Hl; set_solver|]. simpl.
  apply Codec_bind_last with (0, Some l); [|done]. apply IH. set_solver.
Qed.
End loops.
