(* ===== verification/StdString.v ===== *)
(** * What the code uses of the C++ library on strings

    [std::getline] with a delimiter, [std::to_string], [std::stoi], [atoi],
    and the search for a substring; [std::regex_token_iterator] in
    the way [SplitString] uses it is in Utils.v. *)

From Stdlib Require Import ZArith Lia Strings.Byte.
From stdpp Require Import base list strings numbers.
From S2P Require Import Prelude Bytes.

(** ** Prefixes and occurrences *)

Fixpoint prefixb (p l : list byte) : bool :=
  match p, l with
  | [], _ => true
  | x :: p, y :: l => bool_decide (x = y) && prefixb p l
  | _ :: _, [] => false
  end.

Lemma prefixb_spec p l : prefixb p l = true ↔ p `prefix_of` l.
Proof.
  revert l. induction p as [|x p IH]; intros l; simpl.
  { split; [intros _; apply prefix_nil|done]. }
  destruct l as [|y l].
  { split; [done|]. intros [k Hk]. done. }
  rewrite andb_true_iff, bool_decide_eq_true, IH. split.
  - intros [-> H]. by apply prefix_cons.
  - intros H. split; [by eapply prefix_cons_inv_1|by eapply prefix_cons_inv_2].
Qed.

Lemma prefixb_app p l : prefixb p (p ++ l) = true.
Proof. apply prefixb_spec. by apply prefix_app_r. Qed.

(** [p] occurs somewhere in [l]. *)
Fixpoint occurs (p l : list byte) : bool :=
  prefixb p l || match l with [] => false | _ :: l => occurs p l end.

Lemma occurs_false_cons p x l :
  occurs p (x :: l) = false → prefixb p (x :: l) = false ∧ occurs p l = false.
Proof. simpl. intros H. by apply orb_false_iff in H. Qed.

(** ** [std::getline(ss, token, delim)] until it fails *)

Fixpoint getline_go (delim : byte) (cur : list byte) (l : list byte) : list (list byte) :=
  match l with
  | [] => if decide (cur = []) then [] else [cur]
  | b :: l =>
    if decide (b = delim) then cur :: getline_go delim [] l
    else getline_go delim (cur ++ [b]) l
  end.
Definition getline_all (delim : byte) (l : list byte) : list (list byte) :=
  getline_go delim [] l.

Lemma getline_go_token delim cur tok rest :
  delim ∉ tok →
  getline_go delim cur (tok ++ delim :: rest) = (cur ++ tok) :: getline_go delim [] rest.
Proof.
  revert cur. induction tok as [|b tok IH]; intros cur Hd; simpl.
  { by rewrite decide_True, app_nil_r. }
  rewrite decide_False by set_solver. rewrite IH by set_solver.
  by rewrite <-app_assoc.
Qed.

Lemma getline_go_last delim cur tok :
  delim ∉ tok → cur ++ tok ≠ [] → getline_go delim cur tok = [cur ++ tok].
Proof.
  revert cur. induction tok as [|b tok IH]; intros cur Hd Hne; simpl.
  { rewrite app_nil_r in *. by rewrite decide_False. }
  rewrite decide_False by set_solver. rewrite IH; [by rewrite <-app_assoc|set_solver|].
  by destruct cur.
Qed.

(** ** Decimal numbers *)

Definition is_digit (b : byte) : bool :=
  bool_decide (48 ≤ byte_val b) && bool_decide (byte_val b ≤ 57).
Definition digit_val (b : byte) : Z := byte_val b - 48.
Definition digit (d : Z) : byte := byte_of (48 + d).
Arguments is_digit : simpl never.
Arguments digit_val : simpl never.
Arguments digit : simpl never.

Definition is_space (b : byte) : bool :=
  bool_decide (byte_val b = 32) ||
  (bool_decide (9 ≤ byte_val b) && bool_decide (byte_val b ≤ 13)).

Lemma digit_is_digit d : 0 ≤ d < 10 → is_digit (digit d) = true.
Proof.
  intros. unfold is_digit, digit. rewrite byte_val_of, Z.mod_small by lia.
  rewrite !bool_decide_eq_true_2 by lia. done.
Qed.

Lemma digit_val_digit d : 0 ≤ d < 10 → digit_val (digit d) = d.
Proof. intros. unfold digit_val, digit. rewrite byte_val_of, Z.mod_small; lia. Qed.

Fixpoint digits_fuel (f : nat) (n : Z) : list byte :=
  match f with
  | O => []
  | S f => if decide (n < 10) then [digit n]
           else digits_fuel f (n / 10) ++ [digit (n `mod` 10)]
  end.

(** A number below [2 ^ f] has at most [f] digits. *)
Definition digits (n : Z) : list byte := digits_fuel (S (Z.to_nat (Z.log2 n))) n.

(** [std::to_string(int)]. *)
Definition to_string (z : Z) : list byte :=
  if decide (z < 0) then x2d :: digits (- z) else digits z.

(** The longest prefix of digits. *)
Fixpoint span_digits (l : list byte) : list byte :=
  match l with
  | b :: l => if is_digit b then b :: span_digits l else []
  | [] => []
  end.
Definition digits_val (l : list byte) : Z :=
  foldl (λ acc b, 10 * acc + digit_val b) 0 l.

Fixpoint skip_space (l : list byte) : list byte :=
  match l with
  | b :: l' => if is_space b then skip_space l' else l
  | [] => []
  end.

(** [strtol] in base ten: nothing when no digit follows the sign. *)
Definition strtol (l : list byte) : option Z :=
  let l := skip_space l in
  let '(neg, ds) :=
    match l with
    | b :: l' => if decide (b = x2d) then (true, l')
                 else if decide (b = x2b) then (false, l') else (false, l)
    | [] => (false, [])
    end in
  match span_digits ds with
  | [] => None
  | ds => Some (if neg : bool then - digits_val ds else digits_val ds)
  end.

(** [std::stoi]. *)
Definition stoi (l : list byte) : outcome Z :=
  match strtol l with
  | None => Throw InvalidArgument
  | Some z => if decide (in_range CInt z) then Ret z else Throw OutOfRange
  end.

(** [atoi]: undefined when the value does not fit. *)
Definition atoi (l : list byte) : outcome Z :=
  match strtol l with
  | None => Ret 0
  | Some z => if decide (in_range CInt z) then Ret z else Undef
  end.

Section decimal.
Lemma digits_fuel_spec f n :
  0 ≤ n < 2 ^ Z.of_nat f → (0 < f)%nat →
  Forall (λ b, is_digit b = true) (digits_fuel f n) ∧
  digits_val (digits_fuel f n) = n ∧ digits_fuel f n ≠ [].
Proof.
  revert n. induction f as [|f IH]; intros n Hn Hf; [lia|]. simpl.
  destruct (decide (n < 10)) as [Hlt|Hge].
  { repeat split; [|unfold digits_val; cbn [foldl]; rewrite digit_val_digit; lia|done].
    repeat constructor. apply digit_is_digit; lia. }
  rewrite Nat2Z.inj_succ, Z.pow_succ_r in Hn by lia.
  destruct (decide (f = 0%nat)) as [->|Hf0]; [simpl in Hn; lia|].
  assert (n / 10 < 2 ^ Z.of_nat f) by (apply Z.div_lt_upper_bound; lia).
  pose proof (Z.div_pos n 10 ltac:(lia) ltac:(lia)).
  destruct (IH (n / 10)) as (H1 & H2 & H3); [lia|lia|].
  pose proof (Z.mod_pos_bound n 10 ltac:(lia)).
  split_and!.
  - apply Forall_app; split; [done|]. repeat constructor. apply digit_is_digit; lia.
  - unfold digits_val in *. rewrite foldl_app, H2. simpl.
    rewrite digit_val_digit by lia. pose proof (Z.div_mod n 10). lia.
  - intros [_ [=]]%app_eq_nil.
Qed.

Lemma digits_spec n :
  0 ≤ n →
  Forall (λ b, is_digit b = true) (digits n) ∧ digits_val (digits n) = n ∧ digits n ≠ [].
Proof.
  intros Hn. apply digits_fuel_spec; [|lia]. split; [done|].
  rewrite Nat2Z.inj_succ, Z2Nat.id by apply Z.log2_nonneg.
  destruct (decide (n = 0)) as [->|]; [done|]. apply Z.log2_spec. lia.
Qed.

Lemma span_digits_all l rest :
  Forall (λ b, is_digit b = true) l →
  match rest with b :: _ => is_digit b = false | [] => True end →
  span_digits (l ++ rest) = l.
Proof.
  induction 1 as [|b l Hb _ IH]; intros Hr; simpl.
  { destruct rest as [|b rest]; [done|]. simpl. by rewrite Hr. }
  rewrite Hb. by rewrite IH.
Qed.

Lemma is_digit_not_special b :
  is_digit b = true → is_space b = false ∧ b ≠ x2d ∧ b ≠ x2b ∧ b ≠ x2c ∧ b ≠ x3a.
Proof. destruct b; vm_compute; intros; repeat split; done. Qed.

(** Reading back a printed number, whatever follows it. *)
Lemma strtol_to_string z rest :
  match rest with b :: _ => is_digit b = false | [] => True end →
  strtol (to_string z ++ rest) = Some z.
Proof.
  intros Hr. unfold to_string, strtol. case_decide as Hz.
  - destruct (digits_spec (- z)) as (H1 & H2 & H3); [lia|]. simpl.
    rewrite span_digits_all by done.
    destruct (digits (- z)) as [|d ds] eqn:E; [done|]. rewrite H2. f_equal. lia.
  - destruct (digits_spec z) as (H1 & H2 & H3); [lia|].
    destruct (digits z) as [|d ds] eqn:E; [done|].
    assert (is_digit d = true) as Hd by (by inversion H1).
    destruct (is_digit_not_special d Hd) as (Hs & Hm & Hp & _).
    simpl. rewrite Hs, (decide_False _ _ Hm), (decide_False _ _ Hp).
    change (d :: ds ++ rest) with ((d :: ds) ++ rest).
    rewrite span_digits_all by done. by rewrite H2.
Qed.

Lemma stoi_to_string z : in_range CInt z → stoi (to_string z) = Ret z.
Proof.
  intros Hz. unfold stoi. rewrite <-(app_nil_r (to_string z)).
  rewrite strtol_to_string by done. by rewrite decide_True.
Qed.

Lemma atoi_to_string z : in_range CInt z → atoi (to_string z) = Ret z.
Proof.
  intros Hz. unfold atoi. rewrite <-(app_nil_r (to_string z)).
  rewrite strtol_to_string by done. by rewrite decide_True.
Qed.

Lemma to_string_inj a b : to_string a = to_string b → a = b.
Proof.
  intros H. pose proof (strtol_to_string a [] I) as Ha.
  pose proof (strtol_to_string b [] I) as Hb. rewrite H in Ha. congruence.
Qed.

(** The characters of a printed natural number. *)
Lemma to_string_digits z : 0 ≤ z → Forall (λ b, is_digit b = true) (to_string z).
Proof.
  intros. unfold to_string. rewrite decide_False by lia. by apply digits_spec.
Qed.

Lemma to_string_nonempty z : to_string z ≠ [].
Proof.
  unfold to_string. case_decide; [done|]. apply digits_spec. lia.
Qed.
End decimal.
