(* ===== verification/Utils.v ===== *)
(** * src/common/utils.cpp and include/oeaware/topic.h

    The pure helpers the rest of the program is built on, over [std::string]s
    as lists of bytes, and the three-part topic names. *)

From Stdlib Require Import ZArith Lia Strings.Byte.
From stdpp Require Import base list strings gmap numbers.
From S2P Require Import Prelude Bytes StdString.

(** ** Strings *)

Definition EndWith (s ending : list byte) : bool :=
  if decide (length ending ≤ length s)%nat
  then bool_decide (drop (length s - length ending) s = ending)
  else false.

(** The [i]-th round of the loop appends the separator unless [i] is 0. *)
Fixpoint Concat_loop (first : bool) (strings : list (list byte)) (split : list byte) :
    list byte :=
  match strings with
  | [] => []
  | s :: strings => (if first then [] else split) ++ s ++ Concat_loop false strings split
  end.
Definition Concat (strings : list (list byte)) (split : list byte) : list byte :=
  Concat_loop true strings split.

(** [std::sregex_token_iterator(..., re, -1)] for a separator without
    special characters (all the callers' are such): the text between
    consecutive matches, each found at the leftmost place; the text after the
    last match only when it is not empty; the whole text when there is no
    match.  [skip] counts the characters of a match still to be passed over,
    [matched] whether there was one. *)
Fixpoint split_go (sep : list byte) (skip : nat) (matched : bool) (cur l : list byte) :
    list (list byte) :=
  match l with
  | [] => if matched && bool_decide (cur = []) then [] else [cur]
  | b :: l' =>
    match skip with
    | S skip => split_go sep skip matched cur l'
    | O => if prefixb sep l
           then cur :: split_go sep (pred (length sep)) true [] l'
           else split_go sep 0 matched (cur ++ [b]) l'
    end
  end.
Definition SplitString (str split : list byte) : list (list byte) :=
  split_go split 0 false [] str.

(** [key:value,key:value,...]: a later key replaces an earlier one, and a
    part without a colon is dropped. *)
Fixpoint find_byte (c : byte) (l : list byte) : option nat :=
  match l with
  | [] => None
  | b :: l => if decide (b = c) then Some O else S <$> find_byte c l
  end.

Definition colon : byte := x3a.
Definition comma : byte := x2c.
Definition dash : byte := x2d.

Definition GetKeyValueFromString (params : list byte) : gmap (list byte) (list byte) :=
  foldl (λ result pair,
    match find_byte colon pair with
    | Some pos => <[take pos pair := drop (pos + 1) pair]> result
    | None => result
    end) ∅ (getline_all comma params).

(** [for (int i = start; i <= end; ++i)]: incrementing [INT_MAX] overflows. *)
Definition int_range (start stop : Z) : outcome (list Z) :=
  if decide (start ≤ stop ∧ stop = 2147483647) then Undef
  else Ret (seqZ start (stop - start + 1)).

Fixpoint ParseRange_loop (tokens : list (list byte)) (numbers : list Z) :
    outcome (list Z) :=
  match tokens with
  | [] => Ret numbers
  | token :: tokens =>
    match find_byte dash token with
    | Some dashPos =>
      match stoi (take dashPos token) with
      | Ret start =>
        match stoi (drop (dashPos + 1) token) with
        | Ret stop =>
          match int_range start stop with
          | Ret l => ParseRange_loop tokens (numbers ++ l)
          | Throw e => Throw e
          | Undef => Undef
          end
        | Throw e => Throw e
        | Undef => Undef
        end
      | Throw e => Throw e
      | Undef => Undef
      end
    | None =>
      match stoi token with
      | Ret n => ParseRange_loop tokens (numbers ++ [n])
      | Throw e => Throw e
      | Undef => Undef
      end
    end
  end.
Definition ParseRange (rangeStr : list byte) : outcome (list Z) :=
  ParseRange_loop (getline_all comma rangeStr) [].

(** [^[+-]?([0-9]\d* )$] *)
Definition skip_sign (s : list byte) : list byte :=
  match s with
  | b :: l => if decide (b = x2b ∨ b = x2d) then l else s
  | [] => []
  end.
Definition IsInteger (s : list byte) : bool :=
  let ds := skip_sign s in
  bool_decide (ds ≠ []) && forallb is_digit ds.

(** [^[-+]?\d+(\.\d+)?$] *)
Definition IsNum (s : list byte) : bool :=
  let ds := skip_sign s in
  let whole := span_digits ds in
  match whole, drop (length whole) ds with
  | [], _ => false
  | _, [] => true
  | _, b :: frac =>
    bool_decide (b = x2e) && bool_decide (frac ≠ []) && forallb is_digit frac
  end.

(** [ReplaceString] for a target that is not empty; an empty one is found
    again at every position and the loop never ends. *)
Fixpoint replace_go (target replacement : list byte) (skip : nat) (l : list byte) :
    list byte :=
  match l with
  | [] => []
  | b :: l' =>
    match skip with
    | S skip => replace_go target replacement skip l'
    | O => if prefixb target l
           then replacement ++ replace_go target replacement (pred (length target)) l'
           else b :: replace_go target replacement 0 l'
    end
  end.
Definition ReplaceString (input target replacement : list byte) : list byte :=
  replace_go target replacement 0 input.

Definition stateMap : list string :=
  ["unknown"; "notpresent"; "down"; "lowerlayerdown"; "testing"; "dormant"; "up"].

Definition GetNetOperateStr (state : Z) : string :=
  if decide (state < 0 ∨ Z.of_nat (length stateMap) ≤ state) then "unknown"
  else default "unknown"%string (stateMap !! Z.to_nat state).

Definition IF_OPER_UNKNOWN : Z := 0.

Definition GetNetOperateTypeByStr (state : string) : Z :=
  match list_find (λ s, s = state) stateMap with
  | Some (i, _) => Z.of_nat i
  | None => IF_OPER_UNKNOWN
  end.

(** ** File attributes *)

Record stat := { st_mode : Z; st_uid : Z; st_gid : Z }.

Definition ST_MODE_MASK : Z := 511. (* 0777 *)

(** The result of [lstat] is not tested: when it fails, the fields read
    next are uninitialised. *)
Definition CheckPermission (lstat : option stat) (mode : Z) : outcome bool :=
  match lstat with
  | None => Undef
  | Some st =>
    let curMode := Z.land (st_mode st) ST_MODE_MASK in
    if decide (st_gid st ≠ 0 ∧ st_uid st ≠ 0) then Ret false
    else if decide (curMode ≠ mode) then Ret false
    else Ret true
  end.

Definition CheckFileUsers (lstat : option stat) (users : list Z) : bool :=
  match lstat with
  | None => false
  | Some st => existsb (λ uid, bool_decide (uid = st_uid st)) users
  end.

Definition CheckFileGroups (lstat : option stat) (groups : list Z) : bool :=
  match lstat with
  | None => false
  | Some st => existsb (λ gid, bool_decide (gid = st_gid st)) groups
  end.

(** ** Topics *)

Definition sep : list byte := [colon; colon].

Record Topic := mkTopic {
  instanceName : string;
  topicName : string;
  params : string;
}.
#[export] Instance Topic_eq_dec : EqDecision Topic.
Proof. solve_decision. Defined.

Definition ConcatS (strings : list string) : string :=
  str_of (Concat (map bytes_of strings) sep).

Definition GetDataType (t : Topic) : string :=
  if decide (topicName t = EmptyString) then instanceName t
  else ConcatS [instanceName t; topicName t].

Definition GetType (t : Topic) : string :=
  ConcatS [instanceName t; topicName t; params t].

(** [values[0]] and [values[1]] are read without a check; [None] is a
    subscript past the end. *)
Definition GetTopicFromType (type : string) : option Topic :=
  let values := SplitString (bytes_of type) sep in
  newInstanceName ← values !! 0%nat;
  newTopicName ← values !! 1%nat;
  Some (mkTopic (str_of newInstanceName) (str_of newTopicName)
    (default EmptyString (str_of <$> values !! 2%nat))).

(** The names for which the type string determines the topic: an instance or
    topic name that could not run into the separator, and parameters that do
    not contain it. *)
Definition name_ok (s : string) : bool := negb (occurs sep (bytes_of s ++ [colon])).
Definition topic_ok (t : Topic) : bool :=
  name_ok (instanceName t) && name_ok (topicName t) && negb (occurs sep (bytes_of (params t))).

(** ** The splitter *)

Lemma split_go_token cur a rest matched :
  occurs sep (a ++ [colon]) = false →
  split_go sep 0 matched cur (a ++ sep ++ rest) =
  (cur ++ a) :: split_go sep 0 true [] rest.
Proof.
  revert cur. induction a as [|b a IH]; intros cur Ho; simpl.
  { by rewrite app_nil_r. }
  simpl in Ho. apply orb_false_iff in Ho as [Hp Ho].
  assert (bool_decide (colon = b) &&
    match a ++ colon :: colon :: rest with
    | [] => false
    | y :: _ => bool_decide (colon = y) && true end = false) as ->.
  { destruct a; simpl in *; [|by rewrite andb_true_r in *].
    by rewrite !andb_true_r in *. }
  change (a ++ colon :: colon :: rest) with (a ++ sep ++ rest).
  rewrite IH by done. by rewrite <-app_assoc.
Qed.

Lemma split_go_last cur a matched :
  occurs sep a = false →
  split_go sep 0 matched cur a =
  if matched && bool_decide (cur ++ a = []) then [] else [cur ++ a].
Proof.
  revert cur. induction a as [|b a IH]; intros cur Ho.
  { simpl. by rewrite app_nil_r. }
  apply occurs_false_cons in Ho as [Hp Ho].
  cbn [split_go]. rewrite Hp, IH by done. by rewrite <-app_assoc.
Qed.

Lemma SplitString_three a b c :
  occurs sep (a ++ [colon]) = false → occurs sep (b ++ [colon]) = false →
  occurs sep c = false →
  SplitString (Concat [a; b; c] sep) sep =
  a :: b :: (if decide (c = []) then [] else [c]).
Proof.
  intros Ha Hb Hc. unfold SplitString, Concat. simpl Concat_loop.
  rewrite app_nil_r.
  change (a ++ colon :: colon :: b ++ colon :: colon :: c)
    with (a ++ sep ++ (b ++ sep ++ c)).
  rewrite split_go_token, split_go_token, split_go_last by done. simpl.
  by case_decide; case_bool_decide.
Qed.

(** ** Theorems *)

Lemma type_roundtrip t : topic_ok t = true → GetTopicFromType (GetType t) = Some t.
Proof.
  destruct t as [i n p]. unfold topic_ok, name_ok. simpl.
  rewrite !andb_true_iff, !negb_true_iff. intros [[Hi Hn] Hp].
  unfold GetTopicFromType, GetType, ConcatS. simpl map.
  rewrite bytes_of_str_of, SplitString_three by done. simpl.
  rewrite !str_of_bytes_of. case_decide as E; simpl.
  - rewrite <-(str_of_bytes_of p), E. done.
  - by rewrite str_of_bytes_of.
Qed.

(** Topic names survive the trip through the string that keys every
    table of the scheduler: for a topic whose names cannot run into the
    ["::"] separator, [GetTopicFromType] of [GetType] is the topic itself,
    with empty topic names and parameters included. *)
Theorem GetTopicFromType_GetType t :
  topic_ok t = true → GetTopicFromType (GetType t) = Some t.
Proof. apply type_roundtrip. Qed.

Lemma GetTopicFromType_GetType_witness :
  topic_ok (mkTopic "pmu_counting_collector" "cycles" "") = true ∧
  GetTopicFromType (GetType (mkTopic "pmu_counting_collector" "cycles" "")) =
    Some (mkTopic "pmu_counting_collector" "cycles" "").
Proof.
  split; [reflexivity|].
  apply (GetTopicFromType_GetType (mkTopic "pmu_counting_collector" "cycles" "")).
  reflexivity.
Defined.

(** The condition is needed: parameters that hold the separator are cut. *)
Example GetTopicFromType_cut :
  GetTopicFromType (GetType (mkTopic "i" "t" "a::b")) = Some (mkTopic "i" "t" "a").
Proof. reflexivity. Qed.

(** A string without the separator is read past its last token. *)
Example GetTopicFromType_short : GetTopicFromType "instance" = None.
Proof. reflexivity. Qed.

(** Distinct topics have distinct keys. *)
Lemma GetType_inj t u :
  topic_ok t = true → topic_ok u = true → GetType t = GetType u → t = u.
Proof.
  intros Ht Hu H. apply type_roundtrip in Ht, Hu. congruence.
Qed.

(** What [ParseRange] is documented to read: comma-separated numbers and
    ranges of numbers. *)
Inductive range_item := Single (n : Z) | Range (a b : Z).

Definition print_item (i : range_item) : list byte :=
  match i with
  | Single n => to_string n
  | Range a b => to_string a ++ dash :: to_string b
  end.
Fixpoint print_range (l : list range_item) : list byte :=
  match l with
  | [] => []
  | [i] => print_item i
  | i :: l => print_item i ++ comma :: print_range l
  end.
Definition item_values (i : range_item) : list Z :=
  match i with Single n => [n] | Range a b => seqZ a (b - a + 1) end.
Definition item_ok (i : range_item) : Prop :=
  match i with
  | Single n => 0 ≤ n < 2147483648
  | Range a b => 0 ≤ a < 2147483648 ∧ 0 ≤ b < 2147483647
  end.

Section ParseRange.
Lemma digits_no_byte c l :
  is_digit c = false → Forall (λ b, is_digit b = true) l → c ∉ l.
Proof. intros Hc Hl Hin. rewrite list.Forall_forall in Hl. specialize (Hl _ Hin). congruence. Qed.

Lemma to_string_no_byte c z : is_digit c = false → 0 ≤ z → c ∉ to_string z.
Proof. intros. apply digits_no_byte; [done|by apply to_string_digits]. Qed.

Lemma find_byte_none c l : c ∉ l → find_byte c l = None.
Proof.
  induction l as [|b l IH]; intros H; [done|]. simpl.
  rewrite decide_False by set_solver. rewrite IH; set_solver.
Qed.

Lemma find_byte_app c l r : c ∉ l → find_byte c (l ++ c :: r) = Some (length l).
Proof.
  induction l as [|b l IH]; intros H; simpl; [by rewrite decide_True|].
  rewrite decide_False by set_solver. rewrite IH; set_solver.
Qed.

Lemma print_item_no_comma i : item_ok i → comma ∉ print_item i.
Proof.
  destruct i as [n|a b]; simpl; intros Hi.
  - apply to_string_no_byte; [done|lia].
  - rewrite elem_of_app, elem_of_cons. intros [H|[H|H]]; [|done|].
    + by apply (to_string_no_byte comma a) in H; [|done|lia].
    + by apply (to_string_no_byte comma b) in H; [|done|lia].
Qed.

Lemma print_item_nonempty i : print_item i ≠ [].
Proof.
  destruct i; simpl; [apply to_string_nonempty|].
  intros [H _]%app_eq_nil. by apply to_string_nonempty in H.
Qed.

Lemma getline_print_range l :
  Forall item_ok l → getline_all comma (print_range l) = map print_item l.
Proof.
  unfold getline_all. induction 1 as [|i l Hi Hl IH]; [done|].
  destruct l as [|j l].
  - apply getline_go_last; [by apply print_item_no_comma|apply print_item_nonempty].
  - change (print_range (i :: j :: l))
      with (print_item i ++ comma :: print_range (j :: l)).
    rewrite getline_go_token by (by apply print_item_no_comma). by rewrite IH.
Qed.

Lemma ParseRange_loop_item i tokens acc :
  item_ok i →
  ParseRange_loop (print_item i :: tokens) acc =
  ParseRange_loop tokens (acc ++ item_values i).
Proof.
  destruct i as [n|a b]; intros Hi; cbn [ParseRange_loop print_item]; simpl in Hi.
  - rewrite find_byte_none by (apply to_string_no_byte; [done|lia]).
    by rewrite stoi_to_string by solve_range.
  - rewrite find_byte_app by (apply to_string_no_byte; [done|lia]).
    rewrite take_app_length, drop_app_add'; [|simpl; lia].
    change (drop 1 (dash :: to_string b)) with (to_string b).
    rewrite !stoi_to_string by solve_range.
    unfold int_range. by rewrite decide_False by lia.
Qed.

Lemma ParseRange_items l :
  Forall item_ok l → ParseRange (print_range l) = Ret (concat (map item_values l)).
Proof.
  intros Hl. unfold ParseRange. rewrite getline_print_range by done.
  assert (∀ acc, ParseRange_loop (map print_item l) acc =
    Ret (acc ++ concat (map item_values l))) as H; [|by rewrite H].
  induction Hl as [|i l Hi Hl IH]; intros acc; simpl map; simpl concat.
  - by rewrite app_nil_r.
  - rewrite ParseRange_loop_item by done. by rewrite IH, app_assoc.
Qed.
End ParseRange.

(** [ParseRange] reads every list of numbers and ranges it is documented
    for ("0,1,3-5 => {0,1,3,4,5}") to the numbers they denote, in order, a
    descending range contributing none, without an exception or an overflow. *)
Theorem ParseRange_print l :
  Forall item_ok l →
  ParseRange (print_range l) = Ret (concat (map item_values l)).
Proof.
  apply ParseRange_items.
Qed.

Lemma ParseRange_print_witness :
  ParseRange (bytes_of "0,1,3-5") = Ret [0; 1; 3; 4; 5].
Proof.
  apply (ParseRange_print [Single 0; Single 1; Range 3 5]).
  repeat constructor; simpl; lia.
Defined.

(** [CheckPermission] accepts a file of root's user or root's group with
    exactly the given permission bits. *)
Lemma CheckPermission_spec st mode :
  CheckPermission (Some st) mode = Ret true ↔
  (st_gid st = 0 ∨ st_uid st = 0) ∧ Z.land (st_mode st) ST_MODE_MASK = mode.
Proof.
  unfold CheckPermission. repeat case_decide; split; try done; intros ?; try lia.
Qed.

(** The comment says the owner of an accepted file is root.  It need not
    be: a file of any user whose group is root's passes the check. *)
Theorem CheckPermission_owner_not_root uid :
  uid ≠ 0 →
  CheckPermission (Some {| st_mode := 33184; st_uid := uid; st_gid := 0 |}) 416 = Ret true.
Proof. intros _. apply CheckPermission_spec. split; [by left|reflexivity]. Qed.

Lemma CheckPermission_owner_not_root_witness :
  (1000 ≠ 0) ∧
  CheckPermission (Some {| st_mode := 33184; st_uid := 1000; st_gid := 0 |}) 416 = Ret true.
Proof. split; [lia|]. apply CheckPermission_owner_not_root. lia. Defined.

(** The names and numbers of interface states are inverse on the known ones. *)
Lemma GetNetOperate_roundtrip s :
  0 ≤ s < 7 → GetNetOperateTypeByStr (GetNetOperateStr s) = s.
Proof.
  intros Hs. assert (s ∈ seqZ 0 7) as Hin by (apply elem_of_seqZ; lia).
  revert s Hs Hin. assert (Forall (λ s, GetNetOperateTypeByStr (GetNetOperateStr s) = s)
    (seqZ 0 7)) as H by (repeat constructor).
  intros s _ Hin. rewrite list.Forall_forall in H. by apply H.
Qed.

(** A string accepted by [IsInteger] is one [strtol] reads to its end. *)
Lemma IsInteger_strtol s :
  IsInteger s = true → ∃ z, strtol s = Some z.
Proof.
  unfold IsInteger. rewrite andb_true_iff, bool_decide_eq_true, forallb_forall.
  intros [Hne Hd]. assert (Forall (λ b, is_digit b = true) (skip_sign s)) as Hall.
  { apply list.Forall_forall. intros b Hb. apply Hd. by apply list_elem_of_In. }
  assert (skip_space s = s) as Hs.
  { destruct s as [|b s]; [done|]. simpl in *. case_decide as Hb.
    - by destruct Hb as [-> | ->].
    - inversion Hall as [|? ? Hdb]; subst.
      by destruct (is_digit_not_special b Hdb) as (-> & _). }
  pose proof (span_digits_all (skip_sign s) [] Hall I) as Hsp.
  rewrite app_nil_r in Hsp.
  assert (∀ neg : bool, ∃ z, match span_digits (skip_sign s) with
    | [] => None
    | ds => Some (if neg then - digits_val ds else digits_val ds) end = Some z) as Hex.
  { intros neg. rewrite Hsp. destruct (skip_sign s); [done|eauto]. }
  unfold strtol. rewrite Hs. destruct s as [|b s]; [done|].
  destruct (decide (b = x2d)) as [->|H1]; [apply (Hex true)|].
  destruct (decide (b = x2b)) as [->|H2]; [apply (Hex false)|].
  assert (skip_sign (b :: s) = b :: s) as E.
  { unfold skip_sign. rewrite decide_False; [done|]. by intros [?|?]. }
  rewrite E in Hex. apply (Hex false).
Qed.
