(* ===== verification/DataTypes.v ===== *)
(** * The data an instance publishes: include/oeaware/data and data_list.h

    One record per C structure.  A [char *] is an [option string]: [None] is
    the null pointer, and the string is the text before the terminating NUL.
    A pointer to an array is the list of its elements; a linked list is the
    list of its nodes. *)

From Stdlib Require Import ZArith.
From stdpp Require Import base list strings.
From S2P Require Import Prelude Bytes Utils.

Definition charp := option string.

(** [CTopic] and [DataList] of data_list.h; the payload is one of the
    structures below. *)
Record CTopic := mkCTopic {
  ct_instanceName : charp;
  ct_topicName : charp;
  ct_params : charp;
}.

(** thread_info.h *)
Record ThreadInfo := mkThreadInfo { ti_pid : Z; ti_tid : Z; ti_name : charp }.

(** kernel_data.h *)
Record KernelDataNode := mkKernelDataNode { kn_key : charp; kn_value : charp }.
Record KernelData := mkKernelData { kd_len : Z; kd_nodes : list KernelDataNode }.

(** command_data.h *)
Definition ATTR_MAX_LENGTH : Z := 20.
Record CommandData := mkCommandData {
  cd_itemLen : Z;
  cd_attrLen : Z;
  cd_itemAttr : list charp;
  cd_items : list (list charp);
}.

(** analysis_data.h *)
Record AnalysisReport := mkAnalysisReport { ar_reportType : Z; ar_data : charp }.
Record DataItem := mkDataItem {
  di_type : Z; di_metric : charp; di_value : charp; di_extra : charp
}.
Record SuggestionItem := mkSuggestionItem {
  si_suggestion : charp; si_opt : charp; si_extra : charp
}.
Record AnalysisResultItem := mkAnalysisResultItem {
  an_dataItemLen : Z;
  an_dataItem : list DataItem;
  an_conclusion : charp;
  an_suggestionItem : SuggestionItem;
}.

(** env_data.h *)
Record EnvStaticInfo := mkEnvStaticInfo {
  es_numaNum : Z;
  es_cpuNumConfig : Z;
  es_pageSize : Z;
  es_pageMask : Z;
  es_cpu2Node : list Z;
  es_numaDistance : list (list Z);
}.
Record EnvRealTimeInfo := mkEnvRealTimeInfo {
  er_dataReady : Z;
  er_cpuNumConfig : Z;
  er_cpuNumOnline : Z;
  er_cpuOnLine : list Z;
}.
(** [CPU_UTIL_TYPE_MAX], the number of kinds of CPU time. *)
Definition CPU_UTIL_TYPE_MAX : Z := 11.
Record EnvCpuUtilParam := mkEnvCpuUtilParam {
  eu_dataReady : Z;
  eu_cpuNumConfig : Z;
  eu_times : list (list Z);
}.

(** network_interface_data.h: the names are arrays of fixed size. *)
Definition IFNAMSIZ : Z := 16.
Definition OE_NET_DRIVER_DATA_LEN : Z := 32.
Record NetworkInterfaceData := mkNetworkInterfaceData {
  ni_name : string; ni_operstate : Z; ni_ifindex : Z
}.
Record NetIntfBaseDataList := mkNetIntfBaseDataList {
  nb_count : Z; nb_base : list NetworkInterfaceData
}.
Record NetworkInterfaceDriverData := mkNetworkInterfaceDriverData {
  nd_name : string; nd_driver : string; nd_version : string;
  nd_fwVersion : string; nd_busInfo : string;
}.
Record NetIntfDriverDataList := mkNetIntfDriverDataList {
  ndl_count : Z; ndl_driver : list NetworkInterfaceDriverData
}.
Record ProcessNetAffinityData := mkProcessNetAffinityData {
  na_pid1 : Z; na_pid2 : Z; na_level : Z
}.
Record ProcessNetAffinityDataList := mkProcessNetAffinityDataList {
  nal_count : Z; nal_affinity : list ProcessNetAffinityData
}.
Record NetThreadQueData := mkNetThreadQueData {
  nq_pid : Z; nq_tid : Z; nq_ifIndex : Z; nq_queueId : Z; nq_times : Z; nq_len : Z
}.
Record NetThreadQueDataList := mkNetThreadQueDataList {
  nql_intervalMs : Z; nql_count : Z; nql_queData : list NetThreadQueData
}.

(** net_hardirq_tune_data.h *)
Record NetHirqTuneDebugInfo := mkNetHirqTuneDebugInfo { nh_log : charp }.

(** The profiling records of libkperf (a library), with the fields the
    program reads and writes. *)
Record Symbol := mkSymbol {
  sym_addr : Z; sym_module : charp; sym_symbolName : charp; sym_mangleName : charp;
  sym_fileName : charp; sym_lineNum : Z; sym_offset : Z; sym_codeMapEndAddr : Z;
  sym_codeMapAddr : Z; sym_count : Z;
}.
Record StackNode := mkStackNode { sn_symbol : option Symbol; sn_count : Z }.
Record CpuTopology := mkCpuTopology { tp_coreId : Z; tp_numaId : Z; tp_socketId : Z }.
Record PmuDataExt := mkPmuDataExt { px_pa : Z; px_va : Z; px_event : Z }.
Record PmuData := mkPmuData {
  pd_stack : list StackNode; pd_evt : charp; pd_ts : Z; pd_pid : Z; pd_tid : Z;
  pd_cpu : Z; pd_cpuTopo : option CpuTopology; pd_comm : charp; pd_period : Z;
  pd_count : Z; pd_countPercent : Z; pd_ext : option PmuDataExt;
}.

(** pmu_counting_data.h, pmu_sampling_data.h, pmu_spe_data.h and
    pmu_uncore_data.h declare the same structure. *)
Record PmuCountingData := mkPmuCountingData {
  pc_pmuData : list PmuData; pc_len : Z; pc_interval : Z
}.
