(* ===== verification/SecureC.v ===== *)
(** * The bounds-checked C library (securec.h)

    The program copies strings and memory with the functions of a secure C
    library.  They are parameters of the development: an implementation is an
    instance of [SecureC], and [SecureCLaws] is what its documentation says of
    a copy that fits. *)

From Stdlib Require Import ZArith Lia Strings.Byte.
From stdpp Require Import base list strings.
From S2P Require Import Prelude Bytes Serialize Codec.

Definition EOK : Z := 0.

Class SecureC := {
  (** [strcpy_s(dest, destMax, src)]: the status and the text in [dest]. *)
  strcpy_s : Z → string → Z * string;
  (** [memcpy_s(dest, destMax, src, count)]: the status; the bytes are copied
      when it is [EOK]. *)
  memcpy_s : Z → Z → Z;
  (** The largest destination [strcpy_s] accepts. *)
  rsize_max : Z;
}.

Class SecureCLaws (SC : SecureC) : Prop := {
  strcpy_s_fits destMax src :
    slen (c_str src) < destMax → destMax ≤ rsize_max →
    strcpy_s destMax src = (EOK, c_str src);
  memcpy_s_fits destMax count :
    0 ≤ count ≤ destMax → destMax ≤ rsize_max → memcpy_s destMax count = EOK;
}.

(** The reference behaviour, used by the concrete examples. *)
Definition secure_c_ref : SecureC := {|
  strcpy_s := λ destMax src,
    if decide (0 < destMax ∧ destMax ≤ 2147483647 ∧ slen (c_str src) < destMax)
    then (EOK, c_str src) else (34, EmptyString);
  memcpy_s := λ destMax count,
    if decide (0 ≤ count ∧ count ≤ destMax ∧ destMax ≤ 2147483647) then EOK else 34;
  rsize_max := 2147483647;
|}.

Lemma secure_c_ref_laws : SecureCLaws secure_c_ref.
Proof.
  split; simpl.
  - intros. rewrite decide_True; [done|]. pose proof (slen_nonneg (c_str src)). lia.
  - intros. by rewrite decide_True by lia.
Qed.

Section new.
Context `{Platform} `{SecureC}.

(** [new T[n]]: a negative length throws [std::bad_array_new_length]. *)
Definition new_array {S} (n : Z) : St S unit :=
  if decide (n < 0) then throw BadAlloc
  else if decide (heap_limit < n) then throw BadAlloc
  else mret tt.

(** [p = new char[s.size() + 1]; ret = strcpy_s(p, s.size() + 1, s.data());] *)
Definition new_cstr {S} (s : string) : St S (Z * option string) :=
  new_array (slen s + 1) ;;
  let '(ret, dest) := strcpy_s (slen s + 1) s in mret (ret, Some dest).

(** A C string that the whole round trip has room for. *)
Definition cstr_ok (s : string) : Prop :=
  no_nul s ∧ fits s ∧ slen s < rsize_max.
Definition charp_ok (p : option string) : Prop :=
  match p with Some s => cstr_ok s | None => False end.

#[export] Instance cstr_ok_dec s : Decision (cstr_ok s).
Proof. unfold cstr_ok, fits. apply _. Defined.
#[export] Instance charp_ok_dec p : Decision (charp_ok p).
Proof. destruct p; simpl; apply _. Defined.

Lemma new_array_ok {S} n : 0 ≤ n ≤ heap_limit → new_array (S:=S) n = mret tt.
Proof. intros. unfold new_array. by rewrite !decide_False by lia. Qed.

Context `{!SecureCLaws H0}.

Lemma new_cstr_fits {S} s :
  cstr_ok s → new_cstr (S:=S) s = mret (EOK, Some s).
Proof.
  intros (Hn & (Hm & Hh & Hr) & Hs). unfold new_cstr. pose proof (slen_nonneg s).
  rewrite new_array_ok by lia. rewrite strcpy_s_fits, c_str_id by (rewrite ?c_str_id; done || lia).
  done.
Qed.
End new.

(** Proves a closed decidable fact by evaluating its decision procedure. *)
Ltac by_decide := apply (bool_decide_unpack _); vm_compute; exact I.
