(* ===== verification/DataRegister.v ===== *)
(** * The serialisers of src/common/data_register.cpp *)

From Stdlib Require Import ZArith Lia Strings.Byte.
From stdpp Require Import base list strings gmap numbers.
From S2P Require Import Prelude Bytes Serialize Codec Utils DataTypes SecureC.

(** [std::string s(p)]: the pointer must not be null. *)
Definition std_string {S} (p : charp) : St S string := s ← deref p; mret (c_str s).

(** [std::string s(p); out << s;] *)
Definition out_cstr (p : charp) : St OutStream unit := std_string p ≫= SerializeString.

(** [x[i]] for a pointer [x] to an array. *)
Definition at_index {S A} (l : list A) (i : nat) : St S A := deref (l !! i).

(** The layout of libkperf's structures: the types of the fields that the
    program streams, and what the fields of a [new PmuData[n]] hold. *)
Class Kperf := {
  ty_addr : ctype; ty_lineNum : ctype; ty_offset : ctype; ty_symCount : ctype;
  ty_stackCount : ctype; ty_ts : ctype; ty_pid : ctype; ty_tid : ctype; ty_cpu : ctype;
  ty_topo : ctype; ty_period : ctype; ty_count : ctype; ty_percent : ctype;
  ty_ext : ctype;
  fresh_count : Z; fresh_percent : Z; fresh_ext : option PmuDataExt;
}.

Section serialisers.
Context `{Platform} `{SecureC} `{Kperf}.

(** [std::string s; in >> s; p = new char[s.size() + 1]; strcpy_s(p, ...);],
    the status of the copy being ignored or tested by the caller. *)
Definition in_cstr : St InStream (Z * charp) :=
  s ← DeserializeString EmptyString; new_cstr s.

(** ** Topics and results *)

Definition TopicSerialize (topic : CTopic) : St OutStream Z :=
  instanceName ← std_string (ct_instanceName topic);
  topicName ← std_string (ct_topicName topic);
  params ← std_string (ct_params topic);
  SerializeString instanceName ;; SerializeString topicName ;;
  SerializeString params ;; mret 0.

Definition TopicDeserialize : St InStream (Z * CTopic) :=
  instanceName ← DeserializeString EmptyString;
  topicName ← DeserializeString EmptyString;
  params ← DeserializeString EmptyString;
  '(ret1, i) ← new_cstr instanceName;
  '(ret2, t) ← new_cstr topicName;
  '(ret3, p) ← new_cstr params;
  mret (if decide (ret1 ≠ EOK) then ret1
        else if decide (ret2 ≠ EOK) then ret2
        else if decide (ret3 ≠ EOK) then ret3 else 0,
        mkCTopic i t p).

(** [ResultDeserialize]: the status of the copy, the code and the payload. *)
Definition ResultDeserialize (oldCode : Z) : St InStream (Z * (Z * charp)) :=
  code ← Deserialize CInt oldCode;
  '(ret, payload) ← in_cstr;
  mret (ret, (code, payload)).

(** ** Call stacks *)

(** One iteration of [while (count--)] in the four serialisers. *)
Definition StackNodeSerialize (tmp : StackNode) : St OutStream unit :=
  symbol ← deref (sn_symbol tmp);
  module ← std_string (sym_module symbol);
  symbolName ← std_string (sym_symbolName symbol);
  mangleName ← std_string (sym_mangleName symbol);
  fileName ← std_string (sym_fileName symbol);
  Serialize ty_addr (sym_addr symbol) ;;
  SerializeString module ;; SerializeString symbolName ;;
  SerializeString mangleName ;; SerializeString fileName ;;
  Serialize ty_lineNum (sym_lineNum symbol) ;;
  Serialize ty_offset (sym_offset symbol) ;;
  Serialize ty_offset (sym_codeMapEndAddr symbol) ;;
  Serialize ty_offset (sym_codeMapAddr symbol) ;;
  Serialize ty_symCount (sym_count symbol) ;;
  Serialize ty_stackCount (sn_count tmp).

Definition StackSerialize (stack : list StackNode) : St OutStream unit :=
  Serialize CInt (wrap CInt (Z.of_nat (length stack))) ;;
  for_each stack StackNodeSerialize.

(** The reading loop; [err] is what the function returns when the copy of a
    string fails. *)
Definition StackNodeDeserialize (err : Z → Z) : St InStream (Z * option StackNode) :=
  addr ← Deserialize ty_addr 0;
  module ← DeserializeString EmptyString;
  symbolName ← DeserializeString EmptyString;
  mangleName ← DeserializeString EmptyString;
  fileName ← DeserializeString EmptyString;
  lineNum ← Deserialize ty_lineNum 0;
  offset ← Deserialize ty_offset 0;
  codeMapEndAddr ← Deserialize ty_offset 0;
  codeMapAddr ← Deserialize ty_offset 0;
  symCount ← Deserialize ty_symCount 0;
  count ← Deserialize ty_stackCount 0;
  '(ret, m) ← new_cstr module;
  if decide (ret ≠ EOK) then mret (err ret, None) else
  '(ret, s) ← new_cstr symbolName;
  if decide (ret ≠ EOK) then mret (err ret, None) else
  '(ret, g) ← new_cstr mangleName;
  if decide (ret ≠ EOK) then mret (err ret, None) else
  '(ret, f) ← new_cstr fileName;
  if decide (ret ≠ EOK) then mret (err ret, None) else
  mret (0, Some (mkStackNode (Some (mkSymbol addr m s g f lineNum offset
    codeMapEndAddr codeMapAddr symCount)) count)).

(** The stack always starts with a [new Stack()]; a node is added after it
    while more are announced.  A negative count runs the counter down until
    it overflows. *)
Definition StackDeserialize (err : Z → Z) : St InStream (Z * option (list StackNode)) :=
  count ← Deserialize CInt 0;
  if decide (count < 0) then undef
  else if decide (count = 0) then mret (0, Some [mkStackNode None 0])
  else try_n (Z.to_nat count) (StackNodeDeserialize err).

(** ** Profiling data *)

(** The fields every kind of profiling data carries. *)
Definition PmuCommonSerialize (p : PmuData) : St OutStream unit :=
  StackSerialize (pd_stack p) ;;
  SerializeCharp (pd_evt p) ;;
  Serialize ty_ts (pd_ts p) ;; Serialize ty_pid (pd_pid p) ;;
  Serialize ty_tid (pd_tid p) ;; Serialize ty_cpu (pd_cpu p) ;;
  topo ← deref (pd_cpuTopo p);
  Serialize ty_topo (tp_coreId topo) ;; Serialize ty_topo (tp_numaId topo) ;;
  Serialize ty_topo (tp_socketId topo) ;;
  SerializeCharp (pd_comm p) ;;
  Serialize ty_period (pd_period p).

Definition PmuCommonDeserialize (err : Z → Z) : St InStream (Z * option PmuData) :=
  x ← StackDeserialize err;
  match x with
  | (ret, None) => mret (ret, None)
  | (_, Some stack) =>
    evt ← DeserializeCharp;
    ts ← Deserialize ty_ts 0;
    pid ← Deserialize ty_pid 0;
    tid ← Deserialize ty_tid 0;
    cpu ← Deserialize ty_cpu 0;
    coreId ← Deserialize ty_topo 0;
    numaId ← Deserialize ty_topo 0;
    socketId ← Deserialize ty_topo 0;
    comm ← DeserializeCharp;
    period ← Deserialize ty_period 0;
    mret (0, Some (mkPmuData stack evt ts pid tid cpu
      (Some (mkCpuTopology coreId numaId socketId)) comm period
      fresh_count fresh_percent fresh_ext))
  end.

(** The loop over the records, with what each kind adds to them. *)
Definition PmuDataSerialize (one : PmuData → St OutStream unit) (d : PmuCountingData) :
    St OutStream Z :=
  Serialize CUlong (pc_interval d) ;;
  Serialize CInt (pc_len d) ;;
  for_n (pc_len d) (λ i, p ← at_index (pc_pmuData d) i; one p) ;;
  mret 0.

Definition PmuDataDeserialize (one : St InStream (Z * option PmuData)) :
    St InStream (Z * option PmuCountingData) :=
  interval ← Deserialize CUlong 0;
  len ← Deserialize CInt 0;
  new_array len ;;
  x ← try_n (Z.to_nat len) one;
  match x with
  | (ret, None) => mret (ret, None)
  | (_, Some l) => mret (0, Some (mkPmuCountingData l len interval))
  end.

(** The counting and uncore records: the count and its share. *)
Definition pmu_counting_out (p : PmuData) : St OutStream unit :=
  PmuCommonSerialize p ;;
  Serialize ty_count (pd_count p) ;; Serialize ty_percent (pd_countPercent p).
Definition pmu_counting_in (err : Z → Z) : St InStream (Z * option PmuData) :=
  x ← PmuCommonDeserialize err;
  match x with
  | (ret, None) => mret (ret, None)
  | (_, Some p) =>
    count ← Deserialize ty_count 0;
    percent ← Deserialize ty_percent 0;
    mret (0, Some (mkPmuData (pd_stack p) (pd_evt p) (pd_ts p) (pd_pid p) (pd_tid p)
      (pd_cpu p) (pd_cpuTopo p) (pd_comm p) (pd_period p) count percent (pd_ext p)))
  end.

(** The SPE records: the addresses and the event of [ext]. *)
Definition pmu_spe_out (p : PmuData) : St OutStream unit :=
  PmuCommonSerialize p ;;
  ext ← deref (pd_ext p);
  Serialize ty_ext (px_pa ext) ;; Serialize ty_ext (px_va ext) ;;
  Serialize ty_ext (px_event ext).
Definition pmu_spe_in (err : Z → Z) : St InStream (Z * option PmuData) :=
  x ← PmuCommonDeserialize err;
  match x with
  | (ret, None) => mret (ret, None)
  | (_, Some p) =>
    pa ← Deserialize ty_ext 0;
    va ← Deserialize ty_ext 0;
    event ← Deserialize ty_ext 0;
    mret (0, Some (mkPmuData (pd_stack p) (pd_evt p) (pd_ts p) (pd_pid p) (pd_tid p)
      (pd_cpu p) (pd_cpuTopo p) (pd_comm p) (pd_period p) (pd_count p)
      (pd_countPercent p) (Some (mkPmuDataExt pa va event))))
  end.

Definition PmuCountingDataSerialize := PmuDataSerialize pmu_counting_out.
Definition PmuCountingDataDeserialize := PmuDataDeserialize (pmu_counting_in id).
Definition PmuSamplingDataSerialize := PmuDataSerialize PmuCommonSerialize.
Definition PmuSamplingDataDeserialize :=
  PmuDataDeserialize (PmuCommonDeserialize (λ _, -1)).
Definition PmuSpeDataSerialize := PmuDataSerialize pmu_spe_out.
Definition PmuSpeDataDeserialize := PmuDataDeserialize (pmu_spe_in (λ _, -1)).
Definition PmuUncoreDataSerialize := PmuDataSerialize pmu_counting_out.
Definition PmuUncoreDataDeserialize := PmuDataDeserialize (pmu_counting_in (λ _, -1)).

(** ** Thread and kernel data *)

Definition ThreadInfoSerialize (threadInfo : ThreadInfo) : St OutStream Z :=
  Serialize CInt (ti_pid threadInfo) ;; Serialize CInt (ti_tid threadInfo) ;;
  out_cstr (ti_name threadInfo) ;; mret 0.

Definition ThreadInfoDeserialize : St InStream (Z * option ThreadInfo) :=
  pid ← Deserialize CInt 0;
  tid ← Deserialize CInt 0;
  '(_, name) ← in_cstr;
  mret (0, Some (mkThreadInfo pid tid name)).

(** [for (int i = 0; i < len; i++) { ...; node = node->next; }] *)
Definition KernelDataSerialize (d : KernelData) : St OutStream Z :=
  Serialize CInt (kd_len d) ;;
  for_n (kd_len d) (λ i,
    node ← at_index (kd_nodes d) i;
    key ← std_string (kn_key node);
    value ← std_string (kn_value node);
    SerializeString key ;; SerializeString value) ;;
  mret 0.

(** One node; the list is built by appending at [kernelDataNode]. *)
Definition KernelDataNodeDeserialize : St InStream (Z * option KernelDataNode) :=
  key ← DeserializeString EmptyString;
  value ← DeserializeString EmptyString;
  '(ret, k) ← new_cstr key;
  if decide (ret ≠ EOK) then mret (-1, None) else
  '(ret, v) ← new_cstr value;
  if decide (ret ≠ EOK) then mret (-1, None) else
  mret (0, Some (mkKernelDataNode k v)).

Definition KernelDataDeserialize : St InStream (Z * option KernelData) :=
  len ← Deserialize CInt 0;
  x ← try_n (Z.to_nat len) KernelDataNodeDeserialize;
  match x with
  | (ret, None) => mret (ret, None)
  | (_, Some nodes) => mret (0, Some (mkKernelData len nodes))
  end.

(** ** Command data *)

Definition CommandDataSerialize (d : CommandData) : St OutStream Z :=
  Serialize CInt (cd_attrLen d) ;; Serialize CInt (cd_itemLen d) ;;
  for_n (cd_attrLen d) (λ i, p ← at_index (cd_itemAttr d) i; out_cstr p) ;;
  for_n (cd_itemLen d) (λ i,
    item ← at_index (cd_items d) i;
    for_n (cd_attrLen d) (λ j, p ← at_index item j; out_cstr p)) ;;
  mret 0.

(** [p[i] = new char[...]; ret = strcpy_s(...); if (ret != EOK) return -1;] *)
Definition cmd_string : St InStream (Z * option charp) :=
  '(ret, p) ← in_cstr;
  if decide (ret ≠ EOK) then mret (-1, None) else mret (0, Some p).

(** [itemAttr] and each [value] have [ATTR_MAX_LENGTH] elements, and the
    loops store without a check: the first store past the end is
    undefined. *)
Definition attr_row (attrLen : Z) : St InStream (Z * option (list charp)) :=
  x ← try_n (Z.to_nat (Z.min attrLen ATTR_MAX_LENGTH)) cmd_string;
  match x with
  | (ret, None) => mret (ret, None)
  | (_, Some l) =>
    if decide (ATTR_MAX_LENGTH < attrLen) then undef
    else mret (0, Some (l ++ replicate (Z.to_nat ATTR_MAX_LENGTH - length l) None))
  end.

Definition CommandDataDeserialize : St InStream (Z * option CommandData) :=
  attrLen ← Deserialize CInt 0;
  itemLen ← Deserialize CInt 0;
  x ← attr_row attrLen;
  match x with
  | (ret, None) => mret (ret, None)
  | (_, Some attrs) =>
    new_array itemLen ;;
    y ← try_n (Z.to_nat itemLen) (attr_row attrLen);
    match y with
    | (ret, None) => mret (ret, None)
    | (_, Some items) => mret (0, Some (mkCommandData itemLen attrLen attrs items))
    end
  end.

(** ** Analysis reports *)

Definition AnalysisDataSerialize (d : AnalysisReport) : St OutStream Z :=
  Serialize CInt (ar_reportType d) ;; out_cstr (ar_data d) ;; mret 0.

Definition AnalysisDataDeserialize : St InStream (Z * option AnalysisReport) :=
  reportType ← Deserialize CInt 0;
  '(_, data) ← in_cstr;
  mret (0, Some (mkAnalysisReport reportType data)).

Definition DataItemDeserialize : St InStream DataItem :=
  type ← Deserialize CInt 0;
  metric ← DeserializeString EmptyString;
  value ← DeserializeString EmptyString;
  extra ← DeserializeString EmptyString;
  '(_, m) ← new_cstr metric;
  '(_, v) ← new_cstr value;
  '(_, e) ← new_cstr extra;
  mret (mkDataItem type m v e).

Definition SuggestionItemDeserialize : St InStream SuggestionItem :=
  suggestion ← DeserializeString EmptyString;
  opt ← DeserializeString EmptyString;
  extra ← DeserializeString EmptyString;
  '(_, s) ← new_cstr suggestion;
  '(_, o) ← new_cstr opt;
  '(_, e) ← new_cstr extra;
  mret (mkSuggestionItem s o e).

Definition AnalysisResultItemSerialize (d : AnalysisResultItem) : St OutStream Z :=
  Serialize CInt (an_dataItemLen d) ;;
  for_n (an_dataItemLen d) (λ i,
    dataItem ← at_index (an_dataItem d) i;
    metric ← std_string (di_metric dataItem);
    value ← std_string (di_value dataItem);
    extra ← std_string (di_extra dataItem);
    Serialize CInt (di_type dataItem) ;; SerializeString metric ;;
    SerializeString value ;; SerializeString extra) ;;
  out_cstr (an_conclusion d) ;;
  suggestion ← std_string (si_suggestion (an_suggestionItem d));
  opt ← std_string (si_opt (an_suggestionItem d));
  extra ← std_string (si_extra (an_suggestionItem d));
  SerializeString suggestion ;; SerializeString opt ;; SerializeString extra ;;
  mret 0.

Definition AnalysisResultItemDeserialize : St InStream (Z * option AnalysisResultItem) :=
  dataItemLen ← Deserialize CInt 0;
  new_array dataItemLen ;;
  dataItem ← read_n (Z.to_nat dataItemLen) DataItemDeserialize;
  '(_, conclusion) ← in_cstr;
  suggestionItem ← SuggestionItemDeserialize;
  mret (0, Some (mkAnalysisResultItem dataItemLen dataItem conclusion suggestionItem)).

(** ** Environment data *)

Definition EnvStaticDataSerialize (d : EnvStaticInfo) : St OutStream Z :=
  Serialize CInt (es_numaNum d) ;; Serialize CInt (es_cpuNumConfig d) ;;
  Serialize CInt (es_pageSize d) ;; Serialize CUlong (es_pageMask d) ;;
  for_n (es_cpuNumConfig d) (λ i, x ← at_index (es_cpu2Node d) i; Serialize CInt x) ;;
  for_n (es_numaNum d) (λ i,
    row ← at_index (es_numaDistance d) i;
    for_n (es_numaNum d) (λ j, x ← at_index row j; Serialize CInt x)) ;;
  mret 0.

(** The elements of a [new int[n]] are uninitialised before the read; the
    stream then overwrites them ([0] stands for what they held). *)
Definition EnvStaticDataDeserialize : St InStream (Z * option EnvStaticInfo) :=
  numaNum ← Deserialize CInt 0;
  cpuNumConfig ← Deserialize CInt 0;
  pageSize ← Deserialize CInt 0;
  pageMask ← Deserialize CUlong 0;
  new_array cpuNumConfig ;;
  cpu2Node ← read_n (Z.to_nat cpuNumConfig) (Deserialize CInt 0);
  new_array numaNum ;;
  numaDistance ← read_n (Z.to_nat numaNum)
    (new_array numaNum ;; read_n (Z.to_nat numaNum) (Deserialize CInt 0));
  mret (0, Some (mkEnvStaticInfo numaNum cpuNumConfig pageSize pageMask cpu2Node
    numaDistance)).

Definition EnvRealTimeDataSerialize (d : EnvRealTimeInfo) : St OutStream Z :=
  Serialize CInt (er_dataReady d) ;; Serialize CInt (er_cpuNumConfig d) ;;
  Serialize CInt (er_cpuNumOnline d) ;;
  for_n (er_cpuNumConfig d) (λ i, x ← at_index (er_cpuOnLine d) i; Serialize CInt x) ;;
  mret 0.

Definition EnvRealTimeDataDeserialize : St InStream (Z * option EnvRealTimeInfo) :=
  dataReady ← Deserialize CInt 0;
  cpuNumConfig ← Deserialize CInt 0;
  cpuNumOnline ← Deserialize CInt 0;
  new_array cpuNumConfig ;;
  cpuOnLine ← read_n (Z.to_nat cpuNumConfig) (Deserialize CInt 0);
  mret (0, Some (mkEnvRealTimeInfo dataReady cpuNumConfig cpuNumOnline cpuOnLine)).

(** One more row than CPUs: the last one is the whole system.  The bound
    [cpuNumConfig + 1] is a signed addition. *)
Definition int_succ {S} (z : Z) : St S Z :=
  if decide (z = 2147483647) then undef else mret (z + 1).

Definition EnvCpuUtilSerialize (d : EnvCpuUtilParam) : St OutStream Z :=
  Serialize CInt (eu_dataReady d) ;; Serialize CInt (eu_cpuNumConfig d) ;;
  n ← int_succ (eu_cpuNumConfig d);
  for_n n (λ cpu,
    row ← at_index (eu_times d) cpu;
    for_n CPU_UTIL_TYPE_MAX (λ type, x ← at_index row type; Serialize CUlong x)) ;;
  mret 0.

Definition EnvCpuUtilDeserialize : St InStream (Z * option EnvCpuUtilParam) :=
  dataReady ← Deserialize CInt 0;
  cpuNumConfig ← Deserialize CInt 0;
  n ← int_succ cpuNumConfig;
  new_array n ;;
  times ← read_n (Z.to_nat n)
    (new_array CPU_UTIL_TYPE_MAX ;;
     read_n (Z.to_nat CPU_UTIL_TYPE_MAX) (Deserialize CUlong 0));
  mret (0, Some (mkEnvCpuUtilParam dataReady cpuNumConfig times)).

(** ** Network data *)

(** [CopyStringToCharArray] into an array of [destSize] characters, and the
    same lines written out for an interface name: the text is cut to leave
    room for the terminating NUL. *)
Definition CopyStringToCharArray (source : string) (destSize : Z) : string :=
  c_str (str_of (take (Z.to_nat (Z.min (slen source) (destSize - 1))) (bytes_of source))).

Definition NetIntfBaseSerialize (d : NetIntfBaseDataList) : St OutStream Z :=
  Serialize CInt (nb_count d) ;;
  for_n (nb_count d) (λ n,
    b ← at_index (nb_base d) n;
    SerializeString (c_str (ni_name b)) ;;
    Serialize CInt (ni_operstate b) ;; Serialize CInt (ni_ifindex b)) ;;
  mret 0.

Definition NetIntfBaseDeserialize : St InStream (Z * option NetIntfBaseDataList) :=
  count ← Deserialize CInt 0;
  if decide (count ≤ 0) then mret (0, Some (mkNetIntfBaseDataList count [])) else
  new_array count ;;
  base ← read_n (Z.to_nat count) (
    name ← DeserializeString EmptyString;
    operstate ← Deserialize CInt 0;
    ifindex ← Deserialize CInt 0;
    mret (mkNetworkInterfaceData (CopyStringToCharArray name IFNAMSIZ) operstate ifindex));
  mret (0, Some (mkNetIntfBaseDataList count base)).

Definition NetIntfDriverSerialize (d : NetIntfDriverDataList) : St OutStream Z :=
  Serialize CInt (ndl_count d) ;;
  for_n (ndl_count d) (λ n,
    x ← at_index (ndl_driver d) n;
    SerializeString (c_str (nd_name x)) ;; SerializeString (c_str (nd_driver x)) ;;
    SerializeString (c_str (nd_version x)) ;; SerializeString (c_str (nd_fwVersion x)) ;;
    SerializeString (c_str (nd_busInfo x))) ;;
  mret 0.

Definition NetIntfDriverDeserialize : St InStream (Z * option NetIntfDriverDataList) :=
  count ← Deserialize CInt 0;
  if decide (count ≤ 0) then mret (0, Some (mkNetIntfDriverDataList count [])) else
  new_array count ;;
  driver ← read_n (Z.to_nat count) (
    name ← DeserializeString EmptyString;
    driver ← DeserializeString EmptyString;
    version ← DeserializeString EmptyString;
    fwVersion ← DeserializeString EmptyString;
    busInfo ← DeserializeString EmptyString;
    mret (mkNetworkInterfaceDriverData
      (CopyStringToCharArray name IFNAMSIZ)
      (CopyStringToCharArray driver OE_NET_DRIVER_DATA_LEN)
      (CopyStringToCharArray version OE_NET_DRIVER_DATA_LEN)
      (CopyStringToCharArray fwVersion OE_NET_DRIVER_DATA_LEN)
      (CopyStringToCharArray busInfo OE_NET_DRIVER_DATA_LEN)));
  mret (0, Some (mkNetIntfDriverDataList count driver)).

Definition NetLocalAffiSerialize (d : ProcessNetAffinityDataList) : St OutStream Z :=
  Serialize CInt (nal_count d) ;;
  for_n (nal_count d) (λ n,
    a ← at_index (nal_affinity d) n;
    Serialize CUint (na_pid1 a) ;; Serialize CUint (na_pid2 a) ;;
    Serialize CUlong (na_level a)) ;;
  mret 0.

Definition NetLocalAffiDeserialize : St InStream (Z * option ProcessNetAffinityDataList) :=
  count ← Deserialize CInt 0;
  if decide (count ≤ 0) then mret (0, Some (mkProcessNetAffinityDataList count [])) else
  new_array count ;;
  affinity ← read_n (Z.to_nat count) (
    pid1 ← Deserialize CUint 0;
    pid2 ← Deserialize CUint 0;
    level ← Deserialize CUlong 0;
    mret (mkProcessNetAffinityData pid1 pid2 level));
  mret (0, Some (mkProcessNetAffinityDataList count affinity)).

Definition NetHirqTuneDebugSerialize (d : NetHirqTuneDebugInfo) : St OutStream Z :=
  out_cstr (nh_log d) ;; mret 0.

Definition NetHirqTuneDebugDeserialize : St InStream (Z * option NetHirqTuneDebugInfo) :=
  '(_, log) ← in_cstr; mret (0, Some (mkNetHirqTuneDebugInfo log)).

Definition NetThreadQueSerialize (d : NetThreadQueDataList) : St OutStream Z :=
  Serialize CUlong (nql_intervalMs d) ;; Serialize CInt (nql_count d) ;;
  for_n (nql_count d) (λ n,
    q ← at_index (nql_queData d) n;
    Serialize CUint (nq_pid q) ;; Serialize CUint (nq_tid q) ;;
    Serialize CInt (nq_ifIndex q) ;; Serialize CInt (nq_queueId q) ;;
    Serialize CUint (nq_times q) ;; Serialize CUlong (nq_len q)) ;;
  mret 0.

Definition NetThreadQueDeserialize : St InStream (Z * option NetThreadQueDataList) :=
  intervalMs ← Deserialize CUlong 0;
  count ← Deserialize CInt 0;
  if decide (count ≤ 0) then mret (0, Some (mkNetThreadQueDataList intervalMs count [])) else
  new_array count ;;
  queData ← read_n (Z.to_nat count) (
    pid ← Deserialize CUint 0;
    tid ← Deserialize CUint 0;
    ifIndex ← Deserialize CInt 0;
    queueId ← Deserialize CInt 0;
    times ← Deserialize CUint 0;
    len ← Deserialize CUlong 0;
    mret (mkNetThreadQueData pid tid ifIndex queueId times len));
  mret (0, Some (mkNetThreadQueDataList intervalMs count queData)).
End serialisers.

(** ** One instance of each interface that is left open, for the examples *)

(** A 64-bit target with libstdc++'s [max_size]. *)
Definition platform_ref : Platform := {|
  string_max_size := 9223372036854775807;
  heap_limit := 1099511627776;
  heap_junk := λ _, xaa;
  stack_int := 32767;
|}.

(** libkperf's structures on a 64-bit Linux target. *)
Definition kperf_ref : Kperf := {|
  ty_addr := CUlong; ty_lineNum := CUint; ty_offset := CUlong; ty_symCount := CUlong;
  ty_stackCount := CUlong; ty_ts := CLong; ty_pid := CInt; ty_tid := CInt; ty_cpu := CInt;
  ty_topo := CInt; ty_period := CUlong; ty_count := CUlong; ty_percent := CDouble;
  ty_ext := CUlong; fresh_count := 0; fresh_percent := 0; fresh_ext := None;
|}.
