(* ===== verification/RoundTrip.v ===== *)
(** * Round trips of the data serialisers

    For every data structure of the program: what [XSerialize] writes,
    [XDeserialize] reads back to the same structure, for the structures that
    [X_ok] describes. *)

From Stdlib Require Import ZArith Lia Strings.Byte.
From stdpp Require Import base list strings gmap numbers.
From S2P Require Import Prelude Bytes Serialize Codec Utils DataTypes SecureC DataRegister.

Section roundtrip.
Context `{PF : Platform} `{SC : SecureC} `{!SecureCLaws SC} `{KP : Kperf}.

Lemma cstr_ok_c_str s : cstr_ok s → c_str s = s.
Proof. intros (? & _). by apply c_str_id. Qed.

Lemma cstr_ok_fits s : cstr_ok s → fits s.
Proof. by intros (_ & ? & _). Qed.

Lemma Codec_cstr_string s : cstr_ok s →
  Codec (SerializeString s) tt (DeserializeString EmptyString) s.
Proof. intros. by apply Codec_string, cstr_ok_fits. Qed.

Lemma Codec_in_cstr s : cstr_ok s → Codec (SerializeString s) tt in_cstr (EOK, Some s).
Proof.
  intros Hs. unfold in_cstr. eapply Codec_bind_last; [by apply Codec_cstr_string|].
  intros st. by rewrite new_cstr_fits.
Qed.

Lemma Codec_new_cstr {A B} (w : St OutStream A) a s k (b : B) :
  cstr_ok s → Codec w a (k (EOK, Some s)) b → Codec w a (new_cstr s ≫= k) b.
Proof. intros Hs Hk. by rewrite new_cstr_fits. Qed.

Lemma Codec_new_array {A B} (w : St OutStream A) a n k (b : B) :
  0 ≤ n ≤ heap_limit → Codec w a (k tt) b → Codec w a (new_array n ≫= k) b.
Proof. intros Hn Hk. by rewrite new_array_ok. Qed.

Lemma int_succ_ok {S} z : z < 2147483647 → int_succ (S:=S) z = mret (z + 1).
Proof. intros. unfold int_succ. by rewrite decide_False by lia. Qed.

Lemma Codec_charp_ok s : cstr_ok s →
  Codec (SerializeCharp (Some s)) tt DeserializeCharp (Some s).
Proof.
  intros Hs. pose proof (Codec_charp s) as H. rewrite cstr_ok_c_str in H by done.
  by apply H, cstr_ok_fits.
Qed.

Lemma charp_ok_Some p : charp_ok p → ∃ s, p = Some s ∧ cstr_ok s.
Proof. destruct p as [s|]; [eauto|done]. Qed.

Lemma std_string_some {S} s : cstr_ok s → std_string (S:=S) (Some s) = mret s.
Proof.
  intros Hs. change (std_string (S:=S) (Some s)) with (mret (M:=St S) (c_str s)).
  by rewrite cstr_ok_c_str.
Qed.

Lemma out_cstr_ok s : cstr_ok s → out_cstr (Some s) = SerializeString s.
Proof.
  intros Hs. change (SerializeString (c_str s) = SerializeString s).
  by rewrite cstr_ok_c_str.
Qed.
End roundtrip.

(** Opens the pointers that the hypotheses say are valid. *)
Ltac open_charp :=
  repeat match goal with
  | H : _ ∧ _ |- _ => destruct H
  | H : charp_ok ?p |- _ =>
    is_var p; let s := fresh "s" in destruct p as [s|]; [simpl in H|destruct H]
  end.

(** Computes field accesses and matches on known values, and nothing else. *)
Ltac red_fields :=
  cbn beta iota delta [
    ct_instanceName ct_topicName ct_params ti_pid ti_tid ti_name kn_key kn_value
    kd_len kd_nodes cd_itemLen cd_attrLen cd_itemAttr cd_items ar_reportType
    ar_data di_type di_metric di_value di_extra si_suggestion si_opt si_extra
    an_dataItemLen an_dataItem an_conclusion an_suggestionItem es_numaNum
    es_cpuNumConfig es_pageSize es_pageMask es_cpu2Node es_numaDistance
    er_dataReady er_cpuNumConfig er_cpuNumOnline er_cpuOnLine eu_dataReady
    eu_cpuNumConfig eu_times ni_name ni_operstate ni_ifindex nb_count nb_base
    nd_name nd_driver nd_version nd_fwVersion nd_busInfo ndl_count ndl_driver
    na_pid1 na_pid2 na_level nal_count nal_affinity nq_pid nq_tid nq_ifIndex
    nq_queueId nq_times nq_len nql_intervalMs nql_count nql_queData nh_log
    sym_addr sym_module sym_symbolName sym_mangleName sym_fileName sym_lineNum
    sym_offset sym_codeMapEndAddr sym_codeMapAddr sym_count sn_symbol sn_count
    tp_coreId tp_numaId tp_socketId px_pa px_va px_event pd_stack pd_evt pd_ts
    pd_pid pd_tid pd_cpu pd_cpuTopo pd_comm pd_period pd_count pd_countPercent
    pd_ext pc_pmuData pc_len pc_interval
  ].

(** Walks a writer and its reader together. *)
Ltac codec_step :=
  match goal with
  | |- Codec (mret _) _ (mret _) _ => apply Codec_ret
  | |- Codec (Serialize _ _) _ _ _ => apply Codec_ret_w
  | |- Codec (SerializeString _) _ _ _ => apply Codec_ret_w
  | |- Codec (SerializeCharp _) _ _ _ => apply Codec_ret_w
  | |- Codec _ _ (Deserialize _ _) _ => apply Codec_ret_r
  | |- Codec ((_ ≫= _) ≫= _) _ _ _ => apply Codec_assoc_w
  | |- Codec _ _ ((_ ≫= _) ≫= _) _ => apply Codec_assoc_r
  | |- Codec (mret ?x ≫= ?k) ?a ?r ?b => change (Codec (k x) a r b)
  | |- Codec _ _ (mret _ ≫= _) _ => apply Codec_pure_r
  | |- Codec (deref (Some _) ≫= _) _ _ _ => apply Codec_deref
  | |- Codec (at_index ?l ?i ≫= ?k) ?a ?r ?b =>
      change (Codec (deref (l !! i) ≫= k) a r b);
      first [erewrite lookup_app_l_Some by eassumption
            | match goal with Hi : l !! i = Some _ |- _ => rewrite Hi end];
      apply Codec_deref
  | |- Codec (std_string (Some ?s) ≫= _) _ _ _ => rewrite (std_string_some s) by assumption
  | |- Codec (out_cstr (Some ?s) ≫= _) _ _ _ => rewrite (out_cstr_ok s) by assumption
  | |- Codec (out_cstr (Some ?s)) _ _ _ => rewrite (out_cstr_ok s) by assumption
  | |- Codec _ _ (new_cstr ?s ≫= _) _ => apply (Codec_new_cstr _ _ s); [assumption|]
  | |- Codec _ _ (new_array ?n ≫= _) _ => apply (Codec_new_array _ _ n); [lia|]
  | |- Codec (int_succ ?z ≫= _) _ _ _ => rewrite (int_succ_ok z) by lia
  | |- Codec _ _ (int_succ ?z ≫= _) _ => rewrite (int_succ_ok z) by lia
  | |- context [decide (EOK ≠ EOK)] => rewrite (decide_False (P := EOK ≠ EOK)) by congruence
  | |- Codec (Serialize _ _ ≫= _) _ (Deserialize _ _ ≫= _) _ =>
      eapply Codec_bind; [apply Codec_base; first [assumption | solve_range]|]
  | |- Codec (SerializeString _ ≫= _) _ (DeserializeString _ ≫= _) _ =>
      eapply Codec_bind; [apply Codec_cstr_string; assumption|]
  | |- Codec (SerializeString _ ≫= _) _ (in_cstr ≫= _) _ =>
      eapply Codec_bind; [apply Codec_in_cstr; assumption|]
  | |- Codec (SerializeCharp _ ≫= _) _ (DeserializeCharp ≫= _) _ =>
      eapply Codec_bind; [apply Codec_charp_ok; assumption|]
  end; red_fields.
Ltac codec := red_fields; repeat codec_step.

Section structures.
Context `{PF : Platform} `{SC : SecureC} `{!SecureCLaws SC} `{KP : Kperf}.

Definition ThreadInfo_ok (t : ThreadInfo) : Prop :=
  in_range CInt (ti_pid t) ∧ in_range CInt (ti_tid t) ∧ charp_ok (ti_name t).

Lemma ThreadInfo_Codec t : ThreadInfo_ok t →
  Codec (ThreadInfoSerialize t) 0 ThreadInfoDeserialize (0, Some t).
Proof.
  destruct t as [p d n]. unfold ThreadInfo_ok. simpl. intros. open_charp.
  unfold ThreadInfoSerialize, ThreadInfoDeserialize. cbn [ti_pid ti_tid ti_name]. codec.
Qed.

Definition KernelDataNode_ok (n : KernelDataNode) : Prop :=
  charp_ok (kn_key n) ∧ charp_ok (kn_value n).
Definition KernelData_ok (d : KernelData) : Prop :=
  in_range CInt (kd_len d) ∧ Z.of_nat (length (kd_nodes d)) = kd_len d ∧
  Forall KernelDataNode_ok (kd_nodes d).

Lemma KernelData_Codec d : KernelData_ok d →
  Codec (KernelDataSerialize d) 0 KernelDataDeserialize (0, Some d).
Proof.
  destruct d as [len nodes]. unfold KernelData_ok. simpl. intros (Hr & Hl & Hn).
  unfold KernelDataSerialize, KernelDataDeserialize. cbn [kd_len kd_nodes]. codec.
  eapply Codec_bind; [apply (Codec_try_n nodes); [done|]|codec].
  intros i [k v] Hi. pose proof (Forall_lookup_1 _ _ _ _ Hn Hi) as [Hk Hv].
  simpl in *. open_charp. unfold KernelDataNodeDeserialize. codec.
Qed.

(** *** Topics *)

Definition CTopic_ok (t : CTopic) : Prop :=
  charp_ok (ct_instanceName t) ∧ charp_ok (ct_topicName t) ∧ charp_ok (ct_params t).

Lemma Topic_Codec t : CTopic_ok t →
  Codec (TopicSerialize t) 0 TopicDeserialize (0, t).
Proof.
  destruct t as [i t p]. unfold CTopic_ok. simpl. intros. open_charp.
  unfold TopicSerialize, TopicDeserialize. codec.
Qed.

(** *** Command data *)

Definition row_ok (n : Z) (row : list charp) : Prop :=
  ∃ l, row = l ++ replicate (Z.to_nat ATTR_MAX_LENGTH - length l) None ∧
       Z.of_nat (length l) = n ∧ Forall charp_ok l.

Definition CommandData_ok (d : CommandData) : Prop :=
  0 ≤ cd_attrLen d ≤ ATTR_MAX_LENGTH ∧ in_range CInt (cd_itemLen d) ∧
  cd_itemLen d ≤ heap_limit ∧ row_ok (cd_attrLen d) (cd_itemAttr d) ∧
  Z.of_nat (length (cd_items d)) = cd_itemLen d ∧
  Forall (row_ok (cd_attrLen d)) (cd_items d).

Lemma Codec_row n row : 0 ≤ n ≤ ATTR_MAX_LENGTH → row_ok n row →
  Codec (for_n n (λ i, p ← at_index row i; out_cstr p)) tt (attr_row n) (0, Some row).
Proof.
  intros Hn (l & -> & Hl & Hok). unfold attr_row.
  replace (Z.min n ATTR_MAX_LENGTH) with n by lia.
  apply Codec_ret_w. eapply Codec_bind; [apply (Codec_try_n l); [done|]|].
  - intros i x Hi. pose proof (Forall_lookup_1 _ _ _ _ Hok Hi) as Hx.
    apply charp_ok_Some in Hx as (s & -> & Hs). unfold cmd_string. codec.
  - red_fields. rewrite decide_False by lia. codec.
Qed.

Lemma CommandData_Codec d : CommandData_ok d →
  Codec (CommandDataSerialize d) 0 CommandDataDeserialize (0, Some d).
Proof.
  destruct d as [itemLen attrLen attrs items]. unfold CommandData_ok. simpl.
  intros (Ha & Hi & Hh & Hrow & Hlen & Hrows). unfold ATTR_MAX_LENGTH in Ha.
  unfold CommandDataSerialize, CommandDataDeserialize. codec.
  eapply Codec_bind; [by apply Codec_row|]. codec.
  eapply Codec_bind; [apply (Codec_try_n items); [done|]|codec].
  intros i row Hrow_i. codec. apply Codec_row; [done|].
  by eapply (Forall_lookup_1 (row_ok attrLen)).
Qed.

(** *** Analysis reports *)

Definition AnalysisReport_ok (d : AnalysisReport) : Prop :=
  in_range CInt (ar_reportType d) ∧ charp_ok (ar_data d).

Lemma AnalysisData_Codec d : AnalysisReport_ok d →
  Codec (AnalysisDataSerialize d) 0 AnalysisDataDeserialize (0, Some d).
Proof.
  destruct d as [t p]. unfold AnalysisReport_ok. simpl. intros. open_charp.
  unfold AnalysisDataSerialize, AnalysisDataDeserialize. codec.
Qed.

Definition DataItem_ok (d : DataItem) : Prop :=
  in_range CInt (di_type d) ∧ charp_ok (di_metric d) ∧ charp_ok (di_value d) ∧
  charp_ok (di_extra d).
Definition SuggestionItem_ok (d : SuggestionItem) : Prop :=
  charp_ok (si_suggestion d) ∧ charp_ok (si_opt d) ∧ charp_ok (si_extra d).
Definition AnalysisResultItem_ok (d : AnalysisResultItem) : Prop :=
  in_range CInt (an_dataItemLen d) ∧ an_dataItemLen d ≤ heap_limit ∧
  Z.of_nat (length (an_dataItem d)) = an_dataItemLen d ∧
  Forall DataItem_ok (an_dataItem d) ∧ charp_ok (an_conclusion d) ∧
  SuggestionItem_ok (an_suggestionItem d).

Lemma AnalysisResultItem_Codec d : AnalysisResultItem_ok d →
  Codec (AnalysisResultItemSerialize d) 0 AnalysisResultItemDeserialize (0, Some d).
Proof.
  destruct d as [n items c [s o e]]. unfold AnalysisResultItem_ok, SuggestionItem_ok.
  simpl. intros (Hr & Hh & Hl & Hi & ?). open_charp.
  unfold AnalysisResultItemSerialize, AnalysisResultItemDeserialize. codec.
  eapply Codec_bind; [apply (Codec_for_n items); [done|]|].
  - intros i [t m v x] Hx. pose proof (Forall_lookup_1 _ _ _ _ Hi Hx) as Hok.
    unfold DataItem_ok in Hok. simpl in Hok. open_charp.
    unfold DataItemDeserialize. codec.
  - unfold SuggestionItemDeserialize. codec.
Qed.

(** *** Environment data *)

Definition int_row_ok (t : ctype) (n : Z) (row : list Z) : Prop :=
  Z.of_nat (length row) = n ∧ Forall (in_range t) row.

Lemma Codec_int_row t n row : int_row_ok t n row →
  Codec (for_n n (λ j, x ← at_index row j; Serialize t x)) tt
        (read_n (Z.to_nat n) (Deserialize t 0)) row.
Proof.
  intros [Hl Hr]. apply (Codec_for_n row); [done|]. intros i x Hi.
  pose proof (Forall_lookup_1 _ _ _ _ Hr Hi). codec.
Qed.

Lemma Codec_int_matrix t n m rows :
  0 ≤ m ≤ heap_limit → Z.of_nat (length rows) = n → Forall (int_row_ok t m) rows →
  Codec (for_n n (λ i, row ← at_index rows i;
           for_n m (λ j, x ← at_index row j; Serialize t x))) tt
        (read_n (Z.to_nat n) (new_array m ;; read_n (Z.to_nat m) (Deserialize t 0))) rows.
Proof.
  intros Hm Hl Hr. apply (Codec_for_n rows); [done|]. intros i row Hi.
  pose proof (Forall_lookup_1 _ _ _ _ Hr Hi). codec. by apply Codec_int_row.
Qed.

Definition EnvStaticInfo_ok (d : EnvStaticInfo) : Prop :=
  in_range CInt (es_numaNum d) ∧ in_range CInt (es_cpuNumConfig d) ∧
  in_range CInt (es_pageSize d) ∧ in_range CUlong (es_pageMask d) ∧
  es_cpuNumConfig d ≤ heap_limit ∧ es_numaNum d ≤ heap_limit ∧
  int_row_ok CInt (es_cpuNumConfig d) (es_cpu2Node d) ∧
  Z.of_nat (length (es_numaDistance d)) = es_numaNum d ∧
  Forall (int_row_ok CInt (es_numaNum d)) (es_numaDistance d).

Lemma EnvStaticData_Codec d : EnvStaticInfo_ok d →
  Codec (EnvStaticDataSerialize d) 0 EnvStaticDataDeserialize (0, Some d).
Proof.
  destruct d as [nn nc ps pm c2n dist]. unfold EnvStaticInfo_ok. simpl.
  intros (Hn & Hc & Hp & Hm & Hch & Hnh & Hrow & Hl & Hd). pose proof (proj1 Hrow).
  unfold EnvStaticDataSerialize, EnvStaticDataDeserialize. codec.
  eapply Codec_bind; [by apply Codec_int_row|]. codec.
  eapply Codec_bind; [apply Codec_int_matrix; done || lia|]. codec.
Qed.

Definition EnvRealTimeInfo_ok (d : EnvRealTimeInfo) : Prop :=
  in_range CInt (er_dataReady d) ∧ in_range CInt (er_cpuNumConfig d) ∧
  in_range CInt (er_cpuNumOnline d) ∧ er_cpuNumConfig d ≤ heap_limit ∧
  int_row_ok CInt (er_cpuNumConfig d) (er_cpuOnLine d).

Lemma EnvRealTimeData_Codec d : EnvRealTimeInfo_ok d →
  Codec (EnvRealTimeDataSerialize d) 0 EnvRealTimeDataDeserialize (0, Some d).
Proof.
  destruct d as [r nc no l]. unfold EnvRealTimeInfo_ok. simpl.
  intros (Hr & Hc & Ho & Hh & Hrow). pose proof (proj1 Hrow).
  unfold EnvRealTimeDataSerialize, EnvRealTimeDataDeserialize. codec.
  eapply Codec_bind; [by apply Codec_int_row|]. codec.
Qed.

Definition EnvCpuUtilParam_ok (d : EnvCpuUtilParam) : Prop :=
  in_range CInt (eu_dataReady d) ∧ in_range CInt (eu_cpuNumConfig d) ∧
  CPU_UTIL_TYPE_MAX ≤ heap_limit ∧ eu_cpuNumConfig d < heap_limit ∧
  eu_cpuNumConfig d < 2147483647 ∧
  Z.of_nat (length (eu_times d)) = eu_cpuNumConfig d + 1 ∧
  Forall (int_row_ok CUlong CPU_UTIL_TYPE_MAX) (eu_times d).

Lemma EnvCpuUtil_Codec d : EnvCpuUtilParam_ok d →
  Codec (EnvCpuUtilSerialize d) 0 EnvCpuUtilDeserialize (0, Some d).
Proof.
  destruct d as [r nc l]. unfold EnvCpuUtilParam_ok. simpl.
  intros (Hr & Hc & Hm & Hh & Hlt & Hl & Hrows).
  unfold EnvCpuUtilSerialize, EnvCpuUtilDeserialize. codec.
  eapply Codec_bind; [apply Codec_int_matrix; done || (unfold CPU_UTIL_TYPE_MAX in *; lia)|].
  codec.
Qed.

(** *** Network data *)

(** A name that fits in an array of [size] characters with its NUL. *)
Definition name_fits (size : Z) (s : string) : Prop := cstr_ok s ∧ slen s < size.

Lemma CopyStringToCharArray_id size s :
  name_fits size s → CopyStringToCharArray s size = s.
Proof.
  intros ((Hn & _) & Hl). unfold CopyStringToCharArray.
  rewrite take_ge, str_of_bytes_of by (unfold slen in *; lia). by apply c_str_id.
Qed.

Lemma name_fits_c_str size s : name_fits size s → cstr_ok s ∧ c_str s = s.
Proof. intros [Hs _]. split; [done|]. by apply cstr_ok_c_str. Qed.

(** The common shape of the counted lists: nothing is read for a count that
    is not positive. *)
Lemma Codec_counted {A B C} (l : list A) n (w : nat → St OutStream unit)
    (r : St InStream A) (a0 : B) (mk : list A → C) :
  Z.of_nat (length l) = Z.max 0 n → n ≤ heap_limit →
  (∀ i x, l !! i = Some x → Codec (w i) tt r x) →
  Codec (for_n n w ≫= λ _, mret a0) a0
    (if decide (n ≤ 0) then mret (mk []) else
     new_array n ;; l ← read_n (Z.to_nat n) r; mret (mk l)) (mk l).
Proof.
  intros Hl Hh Hr. case_decide.
  - destruct l; [|simpl in Hl; lia]. unfold for_n.
    replace (Z.to_nat n) with 0%nat by lia. cbn [seq for_each]. codec.
  - apply Codec_new_array; [lia|].
    eapply Codec_bind; [apply (Codec_for_n l); [lia|done]|codec].
Qed.

Definition NetworkInterfaceData_ok (x : NetworkInterfaceData) : Prop :=
  name_fits IFNAMSIZ (ni_name x) ∧ in_range CInt (ni_operstate x) ∧
  in_range CInt (ni_ifindex x).
Definition NetIntfBaseDataList_ok (d : NetIntfBaseDataList) : Prop :=
  in_range CInt (nb_count d) ∧ nb_count d ≤ heap_limit ∧
  Z.of_nat (length (nb_base d)) = Z.max 0 (nb_count d) ∧
  Forall NetworkInterfaceData_ok (nb_base d).

Lemma NetIntfBase_Codec d : NetIntfBaseDataList_ok d →
  Codec (NetIntfBaseSerialize d) 0 NetIntfBaseDeserialize (0, Some d).
Proof.
  destruct d as [n l]. unfold NetIntfBaseDataList_ok. simpl. intros (Hr & Hh & Hl & Hok).
  unfold NetIntfBaseSerialize, NetIntfBaseDeserialize. codec.
  apply (Codec_counted l n _ _ 0 (λ l, (0, Some (mkNetIntfBaseDataList n l)))); [done..|].
  intros i [nm o x] Hi. pose proof (Forall_lookup_1 _ _ _ _ Hok Hi) as (Hn & Ho & Hx).
  simpl in *. pose proof (name_fits_c_str _ _ Hn) as [Hc Hs].
  codec. rewrite Hs. codec. rewrite (CopyStringToCharArray_id _ _ Hn). codec.
Qed.

Definition NetworkInterfaceDriverData_ok (x : NetworkInterfaceDriverData) : Prop :=
  name_fits IFNAMSIZ (nd_name x) ∧ name_fits OE_NET_DRIVER_DATA_LEN (nd_driver x) ∧
  name_fits OE_NET_DRIVER_DATA_LEN (nd_version x) ∧
  name_fits OE_NET_DRIVER_DATA_LEN (nd_fwVersion x) ∧
  name_fits OE_NET_DRIVER_DATA_LEN (nd_busInfo x).
Definition NetIntfDriverDataList_ok (d : NetIntfDriverDataList) : Prop :=
  in_range CInt (ndl_count d) ∧ ndl_count d ≤ heap_limit ∧
  Z.of_nat (length (ndl_driver d)) = Z.max 0 (ndl_count d) ∧
  Forall NetworkInterfaceDriverData_ok (ndl_driver d).

Lemma NetIntfDriver_Codec d : NetIntfDriverDataList_ok d →
  Codec (NetIntfDriverSerialize d) 0 NetIntfDriverDeserialize (0, Some d).
Proof.
  destruct d as [n l]. unfold NetIntfDriverDataList_ok. simpl. intros (Hr & Hh & Hl & Hok).
  unfold NetIntfDriverSerialize, NetIntfDriverDeserialize. codec.
  apply (Codec_counted l n _ _ 0 (λ l, (0, Some (mkNetIntfDriverDataList n l)))); [done..|].
  intros i [n1 n2 n3 n4 n5] Hi.
  pose proof (Forall_lookup_1 _ _ _ _ Hok Hi) as (H1 & H2 & H3 & H4 & H5). simpl in *.
  destruct (name_fits_c_str _ _ H1) as [? E1], (name_fits_c_str _ _ H2) as [? E2],
    (name_fits_c_str _ _ H3) as [? E3], (name_fits_c_str _ _ H4) as [? E4],
    (name_fits_c_str _ _ H5) as [? E5].
  codec. rewrite E1, E2, E3, E4, E5. codec.
  rewrite (CopyStringToCharArray_id _ _ H1), (CopyStringToCharArray_id _ _ H2),
    (CopyStringToCharArray_id _ _ H3), (CopyStringToCharArray_id _ _ H4),
    (CopyStringToCharArray_id _ _ H5). codec.
Qed.

Definition ProcessNetAffinityData_ok (x : ProcessNetAffinityData) : Prop :=
  in_range CUint (na_pid1 x) ∧ in_range CUint (na_pid2 x) ∧ in_range CUlong (na_level x).
Definition ProcessNetAffinityDataList_ok (d : ProcessNetAffinityDataList) : Prop :=
  in_range CInt (nal_count d) ∧ nal_count d ≤ heap_limit ∧
  Z.of_nat (length (nal_affinity d)) = Z.max 0 (nal_count d) ∧
  Forall ProcessNetAffinityData_ok (nal_affinity d).

Lemma NetLocalAffi_Codec d : ProcessNetAffinityDataList_ok d →
  Codec (NetLocalAffiSerialize d) 0 NetLocalAffiDeserialize (0, Some d).
Proof.
  destruct d as [n l]. unfold ProcessNetAffinityDataList_ok. simpl.
  intros (Hr & Hh & Hl & Hok). unfold NetLocalAffiSerialize, NetLocalAffiDeserialize. codec.
  apply (Codec_counted l n _ _ 0 (λ l, (0, Some (mkProcessNetAffinityDataList n l))));
    [done..|].
  intros i [p1 p2 lv] Hi. pose proof (Forall_lookup_1 _ _ _ _ Hok Hi) as (H1 & H2 & H3).
  simpl in *. codec.
Qed.

Definition NetHirqTuneDebugInfo_ok (d : NetHirqTuneDebugInfo) : Prop := charp_ok (nh_log d).

Lemma NetHirqTuneDebug_Codec d : NetHirqTuneDebugInfo_ok d →
  Codec (NetHirqTuneDebugSerialize d) 0 NetHirqTuneDebugDeserialize (0, Some d).
Proof.
  destruct d as [p]. unfold NetHirqTuneDebugInfo_ok. simpl. intros. open_charp.
  unfold NetHirqTuneDebugSerialize, NetHirqTuneDebugDeserialize. codec.
Qed.

Definition NetThreadQueData_ok (x : NetThreadQueData) : Prop :=
  in_range CUint (nq_pid x) ∧ in_range CUint (nq_tid x) ∧ in_range CInt (nq_ifIndex x) ∧
  in_range CInt (nq_queueId x) ∧ in_range CUint (nq_times x) ∧ in_range CUlong (nq_len x).
Definition NetThreadQueDataList_ok (d : NetThreadQueDataList) : Prop :=
  in_range CUlong (nql_intervalMs d) ∧ in_range CInt (nql_count d) ∧
  nql_count d ≤ heap_limit ∧
  Z.of_nat (length (nql_queData d)) = Z.max 0 (nql_count d) ∧
  Forall NetThreadQueData_ok (nql_queData d).

Lemma NetThreadQue_Codec d : NetThreadQueDataList_ok d →
  Codec (NetThreadQueSerialize d) 0 NetThreadQueDeserialize (0, Some d).
Proof.
  destruct d as [ms n l]. unfold NetThreadQueDataList_ok. simpl.
  intros (Hm & Hr & Hh & Hl & Hok). unfold NetThreadQueSerialize, NetThreadQueDeserialize.
  codec.
  apply (Codec_counted l n _ _ 0 (λ l, (0, Some (mkNetThreadQueDataList ms n l)))); [done..|].
  intros i [p t x q tm ln] Hi.
  pose proof (Forall_lookup_1 _ _ _ _ Hok Hi) as (H1 & H2 & H3 & H4 & H5 & H6).
  simpl in *. codec.
Qed.

(** *** Profiling data *)

Definition Symbol_ok (x : Symbol) : Prop :=
  in_range ty_addr (sym_addr x) ∧ charp_ok (sym_module x) ∧ charp_ok (sym_symbolName x) ∧
  charp_ok (sym_mangleName x) ∧ charp_ok (sym_fileName x) ∧
  in_range ty_lineNum (sym_lineNum x) ∧ in_range ty_offset (sym_offset x) ∧
  in_range ty_offset (sym_codeMapEndAddr x) ∧ in_range ty_offset (sym_codeMapAddr x) ∧
  in_range ty_symCount (sym_count x).
Definition StackNode_ok (x : StackNode) : Prop :=
  match sn_symbol x with Some s => Symbol_ok s | None => False end ∧
  in_range ty_stackCount (sn_count x).
Definition PmuData_ok (p : PmuData) : Prop :=
  pd_stack p ≠ [] ∧ Z.of_nat (length (pd_stack p)) < 2147483648 ∧
  Forall StackNode_ok (pd_stack p) ∧ charp_ok (pd_evt p) ∧ in_range ty_ts (pd_ts p) ∧
  in_range ty_pid (pd_pid p) ∧ in_range ty_tid (pd_tid p) ∧ in_range ty_cpu (pd_cpu p) ∧
  match pd_cpuTopo p with
  | Some t => in_range ty_topo (tp_coreId t) ∧ in_range ty_topo (tp_numaId t) ∧
              in_range ty_topo (tp_socketId t)
  | None => False
  end ∧
  charp_ok (pd_comm p) ∧ in_range ty_period (pd_period p).

Lemma StackNode_Codec err x : StackNode_ok x →
  Codec (StackNodeSerialize x) tt (StackNodeDeserialize err) (0, Some x).
Proof.
  destruct x as [[[a m n g f l o e c k]|] cnt]; unfold StackNode_ok, Symbol_ok; simpl;
    intros; open_charp; [|done].
  unfold StackNodeSerialize, StackNodeDeserialize. codec.
Qed.

Lemma Stack_Codec err l :
  l ≠ [] → Z.of_nat (length l) < 2147483648 → Forall StackNode_ok l →
  Codec (StackSerialize l) tt (StackDeserialize err) (0, Some l).
Proof.
  intros Hne Hlen Hl. assert (0 < Z.of_nat (length l)) by (destruct l; simpl; [done|lia]).
  unfold StackSerialize, StackDeserialize.
  rewrite wrap_id by solve_range. codec.
  rewrite !decide_False by lia. rewrite Nat2Z.id.
  apply Codec_try_each. intros x Hx. apply StackNode_Codec.
  rewrite list.Forall_forall in Hl. by apply Hl.
Qed.

(** The record as read, before the fields of its kind: those hold what a
    fresh record holds. *)
Definition pd_common (p : PmuData) : PmuData :=
  mkPmuData (pd_stack p) (pd_evt p) (pd_ts p) (pd_pid p) (pd_tid p) (pd_cpu p)
    (pd_cpuTopo p) (pd_comm p) (pd_period p) fresh_count fresh_percent fresh_ext.

Lemma PmuCommon_Codec err p : PmuData_ok p →
  Codec (PmuCommonSerialize p) tt (PmuCommonDeserialize err) (0, Some (pd_common p)).
Proof.
  destruct p as [st ev ts pid tid cpu [[c n s]|] cm pe ct pc ext]; unfold PmuData_ok; simpl;
    intros (Hne & Hlen & Hst & ?); open_charp; [|done].
  unfold PmuCommonSerialize, PmuCommonDeserialize, pd_common.
  eapply Codec_bind; [by apply Stack_Codec|]. codec.
Qed.

(** The records of one kind, given the codec of its elements. *)
Definition PmuList_ok (one_ok : PmuData → Prop) (d : PmuCountingData) : Prop :=
  in_range CUlong (pc_interval d) ∧ in_range CInt (pc_len d) ∧ pc_len d ≤ heap_limit ∧
  Z.of_nat (length (pc_pmuData d)) = pc_len d ∧ Forall one_ok (pc_pmuData d).

Lemma PmuData_Codec one_ok w r d :
  (∀ p, one_ok p → Codec (w p) tt r (0, Some p)) → PmuList_ok one_ok d →
  Codec (PmuDataSerialize w d) 0 (PmuDataDeserialize r) (0, Some d).
Proof.
  destruct d as [l n iv]. intros Hone. unfold PmuList_ok. simpl.
  intros (Hi & Hr & Hh & Hl & Hok). unfold PmuDataSerialize, PmuDataDeserialize. codec.
  eapply Codec_bind; [apply (Codec_try_n l); [done|]|codec].
  intros i p Hp. pose proof (Forall_lookup_1 _ _ _ _ Hok Hp). codec. by apply Hone.
Qed.

Definition counting_ok (p : PmuData) : Prop :=
  PmuData_ok p ∧ in_range ty_count (pd_count p) ∧ in_range ty_percent (pd_countPercent p) ∧
  pd_ext p = fresh_ext.
Definition sampling_ok (p : PmuData) : Prop := PmuData_ok p ∧ pd_common p = p.
Definition spe_ok (p : PmuData) : Prop :=
  PmuData_ok p ∧ pd_count p = fresh_count ∧ pd_countPercent p = fresh_percent ∧
  match pd_ext p with
  | Some x => in_range ty_ext (px_pa x) ∧ in_range ty_ext (px_va x) ∧
              in_range ty_ext (px_event x)
  | None => False
  end.

Lemma counting_Codec err p : counting_ok p →
  Codec (pmu_counting_out p) tt (pmu_counting_in err) (0, Some p).
Proof.
  intros (Hp & Hc & Hpc & He). unfold pmu_counting_out, pmu_counting_in.
  eapply Codec_bind; [by apply PmuCommon_Codec|]. destruct p. simpl in He. subst.
  unfold pd_common. codec.
Qed.

Lemma sampling_Codec err p : sampling_ok p →
  Codec (PmuCommonSerialize p) tt (PmuCommonDeserialize err) (0, Some p).
Proof. intros [Hp He]. rewrite <-He at 2. by apply PmuCommon_Codec. Qed.

Lemma spe_Codec err p : spe_ok p →
  Codec (pmu_spe_out p) tt (pmu_spe_in err) (0, Some p).
Proof.
  intros (Hp & Hc & Hpc & He). unfold pmu_spe_out, pmu_spe_in.
  eapply Codec_bind; [by apply PmuCommon_Codec|].
  destruct p as [? ? ? ? ? ? ? ? ? ? ? [[]|]]; [|done]. simpl in *. subst.
  destruct He as (? & ? & ?). unfold pd_common. codec.
Qed.
End structures.
