(* ===== verification/Registry.v ===== *)
(** * The data registry and [DataList] (data_register.cpp, data_list.h)

    [Register] maps an instance name, or an instance and topic name, to the
    functions that stream its data; [DataListSerialize] and
    [DataListDeserialize] look the functions up and apply them to every
    element. *)

From Stdlib Require Import ZArith Lia Strings.Byte.
From stdpp Require Import base list strings gmap numbers.
From S2P Require Import Prelude Bytes Serialize Codec Utils DataTypes SecureC DataRegister.
From S2P Require Import RoundTrip.

(** What a [void *] of a data list points to. *)
Inductive Payload :=
| PPmu (d : PmuCountingData)
| PAnalysisResultItem (d : AnalysisResultItem)
| PThreadInfo (d : ThreadInfo)
| PKernelData (d : KernelData)
| PCommandData (d : CommandData)
| PEnvStatic (d : EnvStaticInfo)
| PEnvRealTime (d : EnvRealTimeInfo)
| PEnvCpuUtil (d : EnvCpuUtilParam)
| PNetIntfBase (d : NetIntfBaseDataList)
| PNetIntfDriver (d : NetIntfDriverDataList)
| PNetLocalAffi (d : ProcessNetAffinityDataList)
| PNetHirqTuneDebug (d : NetHirqTuneDebugInfo)
| PNetThreadQue (d : NetThreadQueDataList).

(** A [RegisterEntry]: the pair of functions that was registered. *)
Inductive RegisterEntry :=
| EPmuCounting | EPmuSampling | EPmuSpe | EPmuUncore | EAnalysisResultItem | EThreadInfo
| EKernelData | ECommandData | EEnvStatic | EEnvRealTime | EEnvCpuUtil | ENetIntfBase
| ENetIntfDriver | ENetLocalAffi | ENetHirqTuneDebug | ENetThreadQue.

(** The target the program was compiled for. *)
Inductive arch := X86 | Arm | Riscv.

Abbreviation registry := (gmap string RegisterEntry).

Definition RegisterData (name : string) (entry : RegisterEntry) (r : registry) : registry :=
  <[name := entry]> r.

(** [InitRegisterData]. *)
Definition register_riscv (r : registry) : registry :=
  RegisterData "hwprobe_analysis" EAnalysisResultItem r.

Definition pmu_entries : list (string * RegisterEntry) :=
  [("pmu_counting_collector", EPmuCounting); ("pmu_sampling_collector", EPmuSampling);
   ("pmu_spe_collector", EPmuSpe); ("pmu_uncore_collector", EPmuUncore);
   ("smc_d_analysis", EAnalysisResultItem); ("hugepage_analysis", EAnalysisResultItem);
   ("dynamic_smt_analysis", EAnalysisResultItem); ("xcall_analysis", EAnalysisResultItem);
   ("net_hirq_analysis", EAnalysisResultItem); ("numa_analysis", EAnalysisResultItem);
   ("microarch_tidnocmp_analysis", EAnalysisResultItem);
   ("docker_coordination_burst_analysis", EAnalysisResultItem)]%string.

Definition common_entries : list (string * RegisterEntry) :=
  [("thread_collector", EThreadInfo); ("kernel_config", EKernelData);
   ("thread_scenario", EThreadInfo); ("command_collector", ECommandData);
   ("env_info_collector::static", EEnvStatic);
   ("env_info_collector::realtime", EEnvRealTime);
   ("env_info_collector::cpu_util", EEnvCpuUtil);
   ("net_interface_info::base", ENetIntfBase);
   ("net_interface_info::driver", ENetIntfDriver);
   ("net_interface_info::local_net_affinity", ENetLocalAffi);
   ("net_hard_irq_tune::net_hardirq_tune_debug_info", ENetHirqTuneDebug);
   ("net_interface_info::net_thread_que_data", ENetThreadQue)]%string.

Definition register_all (l : list (string * RegisterEntry)) (r : registry) : registry :=
  foldl (λ r '(name, e), RegisterData name e r) r l.

Definition InitRegisterData (a : arch) (r : registry) : registry :=
  let r := match a with Riscv => register_riscv r | _ => r end in
  let r := match a with X86 => r | _ => register_all pmu_entries r end in
  register_all common_entries r.

(** [GetDataSerialize] and [GetDataDeserialize]: null for an unknown name. *)
Definition GetData (r : registry) (name : string) : option RegisterEntry := r !! name.

Record DataList := mkDataList {
  dl_topic : CTopic; dl_len : Z; dl_data : list (option Payload)
}.

Section registry.
Context `{PF : Platform} `{SC : SecureC} `{KP : Kperf}.

(** Calling the registered function on a pointer: an object of another type
    behind it is undefined behaviour. *)
Definition call_se (e : RegisterEntry) (p : Payload) : St OutStream Z :=
  match e, p with
  | EPmuCounting, PPmu d => PmuCountingDataSerialize d
  | EPmuSampling, PPmu d => PmuSamplingDataSerialize d
  | EPmuSpe, PPmu d => PmuSpeDataSerialize d
  | EPmuUncore, PPmu d => PmuUncoreDataSerialize d
  | EAnalysisResultItem, PAnalysisResultItem d => AnalysisResultItemSerialize d
  | EThreadInfo, PThreadInfo d => ThreadInfoSerialize d
  | EKernelData, PKernelData d => KernelDataSerialize d
  | ECommandData, PCommandData d => CommandDataSerialize d
  | EEnvStatic, PEnvStatic d => EnvStaticDataSerialize d
  | EEnvRealTime, PEnvRealTime d => EnvRealTimeDataSerialize d
  | EEnvCpuUtil, PEnvCpuUtil d => EnvCpuUtilSerialize d
  | ENetIntfBase, PNetIntfBase d => NetIntfBaseSerialize d
  | ENetIntfDriver, PNetIntfDriver d => NetIntfDriverSerialize d
  | ENetLocalAffi, PNetLocalAffi d => NetLocalAffiSerialize d
  | ENetHirqTuneDebug, PNetHirqTuneDebug d => NetHirqTuneDebugSerialize d
  | ENetThreadQue, PNetThreadQue d => NetThreadQueSerialize d
  | _, _ => undef
  end.

(** [func(&data[i], in)] with the object seen as its type. *)
Definition as_payload {A} (mk : A → Payload) (m : St InStream (Z * option A)) :
    St InStream (Z * option Payload) :=
  x ← m; mret (fst x, mk <$> snd x).

Definition call_de (e : RegisterEntry) : St InStream (Z * option Payload) :=
  match e with
  | EPmuCounting => as_payload PPmu PmuCountingDataDeserialize
  | EPmuSampling => as_payload PPmu PmuSamplingDataDeserialize
  | EPmuSpe => as_payload PPmu PmuSpeDataDeserialize
  | EPmuUncore => as_payload PPmu PmuUncoreDataDeserialize
  | EAnalysisResultItem => as_payload PAnalysisResultItem AnalysisResultItemDeserialize
  | EThreadInfo => as_payload PThreadInfo ThreadInfoDeserialize
  | EKernelData => as_payload PKernelData KernelDataDeserialize
  | ECommandData => as_payload PCommandData CommandDataDeserialize
  | EEnvStatic => as_payload PEnvStatic EnvStaticDataDeserialize
  | EEnvRealTime => as_payload PEnvRealTime EnvRealTimeDataDeserialize
  | EEnvCpuUtil => as_payload PEnvCpuUtil EnvCpuUtilDeserialize
  | ENetIntfBase => as_payload PNetIntfBase NetIntfBaseDeserialize
  | ENetIntfDriver => as_payload PNetIntfDriver NetIntfDriverDeserialize
  | ENetLocalAffi => as_payload PNetLocalAffi NetLocalAffiDeserialize
  | ENetHirqTuneDebug => as_payload PNetHirqTuneDebug NetHirqTuneDebugDeserialize
  | ENetThreadQue => as_payload PNetThreadQue NetThreadQueDeserialize
  end.

(** The topic's own entry, or else the instance's. *)
Definition find_entry {S} (reg : registry) (topic : CTopic) : St S (option RegisterEntry) :=
  i ← std_string (ct_instanceName topic);
  t ← std_string (ct_topicName topic);
  mret (match GetData reg (ConcatS [i; t]) with
        | Some e => Some e
        | None => GetData reg i
        end).

Definition DataListSerialize (reg : registry) (d : DataList) : St OutStream Z :=
  TopicSerialize (dl_topic d) ;;
  Serialize CUllong (dl_len d) ;;
  func ← find_entry reg (dl_topic d);
  for_n (dl_len d) (λ i,
    e ← deref func;
    p ← at_index (dl_data d) i;
    p ← deref p;
    call_se e p ;; mret tt) ;;
  mret 0.

(** The elements read before one that fails stay in the list. *)
Fixpoint read_elements (n : nat) (func : option RegisterEntry) :
    St InStream (Z * list (option Payload)) :=
  match n with
  | O => mret (0, [])
  | S n =>
    e ← deref func;
    x ← call_de e;
    if decide (fst x ≠ 0) then mret (fst x, [snd x]) else
    y ← read_elements n func;
    mret (fst y, snd x :: snd y)
  end.

Definition DataListDeserialize (reg : registry) : St InStream (Z * DataList) :=
  '(_, topic) ← TopicDeserialize;
  size ← Deserialize CUlong 0;
  new_array size ;;
  func ← find_entry reg topic;
  x ← read_elements (Z.to_nat size) func;
  mret (fst x, mkDataList topic size (snd x)).
End registry.

Section datalist_roundtrip.
Context `{PF : Platform} `{SC : SecureC} `{!SecureCLaws SC} `{KP : Kperf}.

(** The objects an entry can stream. *)
Definition Payload_ok (e : RegisterEntry) (p : Payload) : Prop :=
  match e, p with
  | EPmuCounting, PPmu d | EPmuUncore, PPmu d => PmuList_ok counting_ok d
  | EPmuSampling, PPmu d => PmuList_ok sampling_ok d
  | EPmuSpe, PPmu d => PmuList_ok spe_ok d
  | EAnalysisResultItem, PAnalysisResultItem d => AnalysisResultItem_ok d
  | EThreadInfo, PThreadInfo d => ThreadInfo_ok d
  | EKernelData, PKernelData d => KernelData_ok d
  | ECommandData, PCommandData d => CommandData_ok d
  | EEnvStatic, PEnvStatic d => EnvStaticInfo_ok d
  | EEnvRealTime, PEnvRealTime d => EnvRealTimeInfo_ok d
  | EEnvCpuUtil, PEnvCpuUtil d => EnvCpuUtilParam_ok d
  | ENetIntfBase, PNetIntfBase d => NetIntfBaseDataList_ok d
  | ENetIntfDriver, PNetIntfDriver d => NetIntfDriverDataList_ok d
  | ENetLocalAffi, PNetLocalAffi d => ProcessNetAffinityDataList_ok d
  | ENetHirqTuneDebug, PNetHirqTuneDebug d => NetHirqTuneDebugInfo_ok d
  | ENetThreadQue, PNetThreadQue d => NetThreadQueDataList_ok d
  | _, _ => False
  end.

Lemma as_payload_Codec {A} (mk : A → Payload) w r (d : A) :
  Codec w 0 r (0, Some d) → Codec w 0 (as_payload mk r) (0, Some (mk d)).
Proof. intros Hc. unfold as_payload. by eapply Codec_bind_last. Qed.

Lemma Payload_Codec e p : Payload_ok e p → Codec (call_se e p) 0 (call_de e) (0, Some p).
Proof.
  destruct e, p; simpl; intros Hp; try done; apply as_payload_Codec;
    eauto using PmuData_Codec, counting_Codec, sampling_Codec, spe_Codec,
      AnalysisResultItem_Codec, ThreadInfo_Codec, KernelData_Codec, CommandData_Codec,
      EnvStaticData_Codec, EnvRealTimeData_Codec, EnvCpuUtil_Codec, NetIntfBase_Codec,
      NetIntfDriver_Codec, NetLocalAffi_Codec, NetHirqTuneDebug_Codec, NetThreadQue_Codec.
Qed.

(** The entry that serves a topic. *)
Definition serves (reg : registry) (topic : CTopic) (e : RegisterEntry) : Prop :=
  ∃ i t, ct_instanceName topic = Some i ∧ ct_topicName topic = Some t ∧
    (match GetData reg (ConcatS [i; t]) with
     | Some e => Some e | None => GetData reg i end) = Some e.

Definition DataList_ok (reg : registry) (d : DataList) : Prop :=
  CTopic_ok (dl_topic d) ∧
  Z.of_nat (length (dl_data d)) = dl_len d ∧ dl_len d ≤ heap_limit ∧
  in_range CUlong (dl_len d) ∧
  ∃ e, serves reg (dl_topic d) e ∧
    Forall (λ o, match o with Some p => Payload_ok e p | None => False end) (dl_data d).

Lemma find_entry_serves {S} reg topic e :
  CTopic_ok topic → serves reg topic e → find_entry (S:=S) reg topic = mret (Some e).
Proof.
  intros (Hi & Ht & _) (i & t & Ei & Et & He). rewrite Ei in Hi. rewrite Et in Ht.
  unfold find_entry. rewrite Ei, Et, (std_string_some i) by done.
  change (mret (M:=St S) i ≫= ?k) with (k i). cbn beta.
  rewrite (std_string_some t) by done.
  change (mret (M:=St S) t ≫= ?k) with (k t). cbn beta. by rewrite He.
Qed.

Lemma elements_Codec e (l all : list (option Payload)) k :
  Forall (λ o, match o with Some p => Payload_ok e p | None => False end) l →
  (∀ i x, l !! i = Some x → all !! (k + i)%nat = Some x) →
  Codec (for_each (seq k (length l)) (λ i,
           e ← deref (Some e); p ← at_index all i; p ← deref p; call_se e p ;; mret tt)) tt
        (read_elements (length l) (Some e)) (0, l).
Proof.
  revert k. induction l as [|o l IH]; intros k Hok Hall; [apply Codec_ret|].
  apply list.Forall_cons in Hok as [Ho Hl]. destruct o as [p|]; [|done].
  assert (all !! k = Some (Some p)) as Hp.
  { rewrite <-(Nat.add_0_r k). by apply (Hall 0%nat). }
  cbn [length seq for_each read_elements]. unfold at_index. rewrite Hp.
  apply Codec_assoc_w, Codec_deref, Codec_assoc_w, Codec_deref, Codec_assoc_w, Codec_deref.
  apply Codec_deref_r, Codec_assoc_w.
  eapply Codec_bind; [by apply Payload_Codec|].
  cbn [fst snd]. rewrite decide_False by (intros Hne; by apply Hne). apply Codec_pure_w.
  eapply Codec_bind_last; [apply IH; [done|]|done].
  intros i x Hi. replace (S k + i)%nat with (k + S i)%nat by lia. by apply Hall.
Qed.

Lemma DataList_Codec reg d :
  DataList_ok reg d →
  Codec (DataListSerialize reg d) 0 (DataListDeserialize reg) (0, d).
Proof.
  intros (Ht & Hlen & Hheap & Hr & e & Hs & Hl). destruct d as [topic n l]; simpl in *.
  unfold DataListSerialize, DataListDeserialize. simpl.
  eapply Codec_bind; [by apply Topic_Codec|]. cbn beta iota.
  eapply Codec_bind; [by apply (Codec_base CUllong 0)|]. cbn beta.
  rewrite new_array_ok by lia. apply Codec_pure_r.
  rewrite (find_entry_serves (S:=OutStream) reg topic e) by done.
  rewrite (find_entry_serves (S:=InStream) reg topic e) by done.
  apply Codec_pure_w, Codec_pure_r.
  unfold for_n. rewrite <-Hlen, Nat2Z.id.
  eapply Codec_bind; [by apply elements_Codec|]. apply Codec_ret.
Qed.
End datalist_roundtrip.

(** ** Properties *)


Definition datalist_example : DataList :=
  mkDataList (mkCTopic (Some "thread_scenario") (Some "thread_scenario") (Some "p"))%string 2
    [Some (PThreadInfo (mkThreadInfo 7 8 (Some "redis"%string)));
     Some (PThreadInfo (mkThreadInfo (-1) 9 (Some ""%string)))].


Section unregistered.
Context {PF : Platform} {SC : SecureC} {HS : SecureCLaws SC} {KP : Kperf}.

(** Neither the topic nor its instance is registered. *)
Definition unregistered (reg : registry) (topic : CTopic) : Prop :=
  ∃ i t, ct_instanceName topic = Some i ∧ ct_topicName topic = Some t ∧
    GetData reg (ConcatS [i; t]) = None ∧ GetData reg i = None.

Lemma find_entry_unregistered {S} reg topic :
  CTopic_ok topic → unregistered reg topic → find_entry (S:=S) reg topic = mret None.
Proof.
  intros (Hi & Ht & _) (i & t & Ei & Et & E1 & E2). rewrite Ei in Hi. rewrite Et in Ht.
  unfold find_entry. rewrite Ei, Et, (std_string_some i) by done.
  change (mret (M:=St S) i ≫= ?k) with (k i). cbn beta.
  rewrite (std_string_some t) by done.
  change (mret (M:=St S) t ≫= ?k) with (k t). cbn beta. by rewrite E1, E2.
Qed.
End unregistered.

(** Nothing guards the lookup: a data list of an unregistered instance is
    serialised through a null function pointer as soon as it has one element,
    and reading such a list back from its bytes ends the same way. *)
Theorem DataList_unregistered_undef {PF : Platform} {SC : SecureC} {HS : SecureCLaws SC}
    {KP : Kperf} (reg : registry) (d : DataList)
    (Htopic : CTopic_ok (dl_topic d)) (Hun : unregistered reg (dl_topic d))
    (Hlen : 0 < dl_len d ≤ heap_limit) (Hr : in_range CUlong (dl_len d)) :
  (∀ out, DataListSerialize reg d out = Undef) ∧
  (∃ bs, (∀ rest, TopicDeserialize (in_of (bs ++ rest)) = Ret ((0, dl_topic d), in_of rest)) ∧
         ∀ rest, DataListDeserialize reg
                   (in_of (bs ++ to_bytes CUlong (dl_len d) ++ rest)) = Undef).
Proof.
  destruct (Topic_Codec (dl_topic d) Htopic) as (bs & W & R). split.
  - intros out. unfold DataListSerialize. rewrite find_entry_unregistered by done.
    unfold for_n. destruct (Z.to_nat (dl_len d)) as [|n] eqn:En; [lia|].
    unfold mbind at 1, St_bind. by rewrite W.
  - exists bs. split; [done|]. intros rest. unfold DataListDeserialize.
    unfold mbind at 1, St_bind. rewrite R. cbn beta iota.
    unfold mbind at 1, St_bind. rewrite Reads_Deserialize by done.
    rewrite new_array_ok by lia. rewrite find_entry_unregistered by done.
    by destruct (Z.to_nat (dl_len d)) as [|n] eqn:En; [lia|].
Qed.

Definition unregistered_example : DataList :=
  mkDataList (mkCTopic (Some "my_plugin") (Some "t") (Some ""))%string 1 [None].

Lemma DataList_unregistered_undef_witness :
  @DataListSerialize kperf_ref (InitRegisterData Arm ∅) unregistered_example []
    = Undef.
Proof.
  apply (@DataList_unregistered_undef platform_ref secure_c_ref secure_c_ref_laws kperf_ref).
  - repeat split; by_decide.
  - exists "my_plugin"%string, "t"%string. repeat split.
  - by_decide.
  - by_decide.
Defined.

Lemma attr_row_overflow {PF : Platform} {SC : SecureC} n m bs rest l :
  Reads (try_n m cmd_string) bs (0, Some l) → ATTR_MAX_LENGTH < n →
  Z.of_nat m = ATTR_MAX_LENGTH → attr_row n (in_of (bs ++ rest)) = Undef.
Proof.
  intros R Hn Hm. unfold attr_row. unfold mbind, St_bind.
  replace (Z.to_nat (Z.min n ATTR_MAX_LENGTH)) with m by lia.
  rewrite R. by rewrite decide_True by done.
Qed.

(** C40. [CommandDataDeserialize] stores the announced number of attributes
    into an array of [ATTR_MAX_LENGTH] elements: a well-formed row of more
    attributes than that is stored past its end. *)
Theorem CommandData_attrLen_overflow {PF : Platform} {SC : SecureC} {HS : SecureCLaws SC}
    {KP : Kperf} (attrLen itemLen : Z) (l : list string)
    (Hn : ATTR_MAX_LENGTH < attrLen) (Hr : in_range CInt attrLen) (Hi : in_range CInt itemLen)
    (Hl : Z.of_nat (length l) = ATTR_MAX_LENGTH) (Hok : Forall cstr_ok l) :
  ∃ bs, (∀ out, for_each l SerializeString out = Ret (tt, out ++ bs)) ∧
    ∀ rest, CommandDataDeserialize
      (in_of (to_bytes CInt attrLen ++ to_bytes CInt itemLen ++ bs ++ rest)) = Undef.
Proof.
  assert (Codec (for_each l SerializeString) tt
    (try_n (length l) cmd_string) (0, Some (map Some l))) as (bs & W & R).
  { clear Hl. induction Hok as [|s l Hs _ IH]; [apply Codec_ret|]. cbn [length for_each try_n map].
    eapply Codec_bind with (b := (0, Some (Some s))).
    { unfold cmd_string. codec. }
    cbn beta iota. eapply Codec_bind_last; [apply IH|done]. }
  exists bs. split; [done|]. intros rest. unfold CommandDataDeserialize.
  unfold mbind at 1, St_bind. rewrite Reads_Deserialize by done.
  unfold mbind at 1, St_bind. rewrite Reads_Deserialize by done.
  unfold mbind at 1, St_bind. rewrite attr_row_overflow with (1 := R) by lia. done.
Qed.

Lemma CommandData_attrLen_overflow_witness :
  ∃ bs, (∀ out, for_each (replicate 20 "a"%string) SerializeString out = Ret (tt, out ++ bs)) ∧
    ∀ rest, @CommandDataDeserialize platform_ref secure_c_ref
      (in_of (to_bytes CInt 21 ++ to_bytes CInt 0 ++ bs ++ rest)) = Undef.
Proof.
  apply (@CommandData_attrLen_overflow platform_ref secure_c_ref secure_c_ref_laws kperf_ref);
    by_decide.
Defined.
