(* ===== verification/MessageProtocol.v ===== *)
(** * Framed messages over a local socket (message_protocol.h, .cpp)

    A message is framed by two 64-bit lengths, a header and a body.
    [SocketStream] buffers what [recv] returns; [RecvMessage] reassembles one
    message from it.  The socket is the sequence of segments that [recv] will
    deliver, so a theorem that quantifies over it covers every way the kernel
    may cut the byte stream. *)

From Stdlib Require Import ZArith Lia Strings.Byte.
From stdpp Require Import base list strings numbers.
From S2P Require Import Prelude Bytes Serialize Codec SecureC DataTypes DataRegister.

Definition MAX_RECV_BUFF_SIZE : Z := 16384.
Definition PROTOCOL_LENGTH_SIZE : Z := 8.
Definition HEADER_LENGTH_SIZE : Z := 8.
Definition maxBuffSize : Z := 4096.

(** ** Messages *)

(** [enum class Opt]; a [static_cast] of another integer is a value too. *)
Inductive Opt :=
| LOAD | ENABLED | DISABLED | REMOVE | QUERY | QUERY_ALL | QUERY_SUB_GRAPH
| QUERY_ALL_SUB_GRAPH | LIST | INFO | DOWNLOAD | SUBSCRIBE | UNSUBSCRIBE | PUBLISH
| DATA | RESPONSE_OK | RESPONSE_ERROR | SHUTDOWN | RELOAD_CONF
| OtherOpt (z : Z).

#[export] Instance Opt_eq_dec : EqDecision Opt.
Proof. solve_decision. Defined.

Definition named_opts : list Opt :=
  [LOAD; ENABLED; DISABLED; REMOVE; QUERY; QUERY_ALL; QUERY_SUB_GRAPH;
   QUERY_ALL_SUB_GRAPH; LIST; INFO; DOWNLOAD; SUBSCRIBE; UNSUBSCRIBE; PUBLISH;
   DATA; RESPONSE_OK; RESPONSE_ERROR; SHUTDOWN; RELOAD_CONF].

(** [static_cast<int>(opt)] and back. *)
Definition opt_val (o : Opt) : Z :=
  match o with
  | LOAD => 0 | ENABLED => 1 | DISABLED => 2 | REMOVE => 3 | QUERY => 4 | QUERY_ALL => 5
  | QUERY_SUB_GRAPH => 6 | QUERY_ALL_SUB_GRAPH => 7 | LIST => 8 | INFO => 9
  | DOWNLOAD => 10 | SUBSCRIBE => 11 | UNSUBSCRIBE => 12 | PUBLISH => 13 | DATA => 14
  | RESPONSE_OK => 15 | RESPONSE_ERROR => 16 | SHUTDOWN => 17 | RELOAD_CONF => 18
  | OtherOpt z => z
  end.
Definition opt_of (z : Z) : Opt :=
  if decide (0 ≤ z) then default (OtherOpt z) (named_opts !! Z.to_nat z) else OtherOpt z.

(** The enumerator for the value, where there is one. *)
Definition opt_canonical (o : Opt) : Prop := opt_of (opt_val o) = o.

Record Message := mkMessage { msg_opt : Opt; msg_payload : list string }.

Inductive MessageType := REQUEST | RESPONSE | OtherType (z : Z).
Definition type_val (t : MessageType) : Z :=
  match t with REQUEST => 0 | RESPONSE => 1 | OtherType z => z end.
Definition type_of (z : Z) : MessageType :=
  if decide (z = 0) then REQUEST else if decide (z = 1) then RESPONSE else OtherType z.

Record MessageProtocol := mkProtocol { mp_header : MessageType; mp_message : Message }.

Definition MessageSerialize (m : Message) : St OutStream unit :=
  Serialize CInt (opt_val (msg_opt m)) ;;
  SerializeVector SerializeString (msg_payload m).

Definition HeaderSerialize (t : MessageType) : St OutStream unit :=
  Serialize CInt (type_val t).

Section protocol.
Context `{Platform} `{SecureC}.

(** [int op; in >> op >> payload;] *)
Definition MessageDeserialize (m : Message) : St InStream Message :=
  op ← Deserialize CInt stack_int;
  payload ← DeserializeVector (DeserializeString EmptyString) (msg_payload m);
  mret (mkMessage (opt_of op) payload).

Definition HeaderDeserialize : St InStream MessageType :=
  iType ← Deserialize CInt stack_int; mret (type_of iType).

(** [MessageProtocol::GetProtocolStr]: [out] holds the header, then the
    header and the message. *)
Definition GetProtocolStr (p : MessageProtocol) : outcome (list byte) :=
  match HeaderSerialize (mp_header p) [] with
  | Ret (_, head) =>
    match MessageSerialize (mp_message p) head with
    | Ret (_, out) =>
      let headLength := Z.of_nat (length head) in
      let totLength := PROTOCOL_LENGTH_SIZE + HEADER_LENGTH_SIZE + Z.of_nat (length out) in
      Ret (to_bytes CUlong totLength ++ to_bytes CUlong headLength ++ out)
    | Throw e => Throw e
    | Undef => Undef
    end
  | Throw e => Throw e
  | Undef => Undef
  end.

(** ** The socket *)

(** What successive calls of [recv] find: bytes, or an error. *)
Inductive Segment := Bytes (bs : list byte) | RecvError.

Record SocketStream := mkSS {
  ss_in : list Segment;        (* what the peer's bytes arrive as *)
  ss_send : list Z;            (* what successive calls of [send] return *)
  ss_sent : list byte;         (* what the peer will read *)
  readBuff : list byte;
  readBuffOff : Z;
  readBuffContentSize : Z
}.

Definition new_stream (ins : list Segment) (sends : list Z) : SocketStream :=
  mkSS ins sends [] [] 0 0.

(** [recv(sock, buf, size, 0)]: the peer has closed when nothing is left. *)
Definition recv (size : Z) : St SocketStream (Z * list byte) := λ s,
  let upd ins := mkSS ins (ss_send s) (ss_sent s) (readBuff s) (readBuffOff s)
                      (readBuffContentSize s) in
  match ss_in s with
  | [] => Ret ((0, []), s)
  | RecvError :: ins => Ret ((-1, []), upd ins)
  | Bytes bs :: ins =>
    let got := take (Z.to_nat size) bs in
    let left := drop (Z.to_nat size) bs in
    Ret ((Z.of_nat (length got), got),
         upd (match left with [] => ins | _ => Bytes left :: ins end))
  end.

(** [send]: a partial write sends a prefix; with no result listed the whole
    buffer goes out. *)
Definition send (buf : list byte) : St SocketStream Z := λ s,
  let '(n, sends) := match ss_send s with
                     | [] => (Z.of_nat (length buf), [])
                     | n :: l => (n, l) end in
  Ret (n, mkSS (ss_in s) sends (ss_sent s ++ take (Z.to_nat n) buf) (readBuff s)
               (readBuffOff s) (readBuffContentSize s)).

Definition set_buff (b : list byte) : St SocketStream unit := modify (λ s,
  mkSS (ss_in s) (ss_send s) (ss_sent s) b (readBuffOff s) (readBuffContentSize s)).
Definition set_off (off size : Z) : St SocketStream unit := modify (λ s,
  mkSS (ss_in s) (ss_send s) (ss_sent s) (readBuff s) off size).

(** [memcpy_s(buf, MAX_RECV_BUFF_SIZE, readBuff.data() + off, n)]. *)
Definition copy_out (off n : Z) : St SocketStream (option (list byte)) :=
  s ← get;
  if decide (memcpy_s MAX_RECV_BUFF_SIZE n ≠ EOK) then mret None
  else mret (Some (take (Z.to_nat n) (drop (Z.to_nat off) (readBuff s)))).

(** [SocketStream::Read]: the result and the bytes stored in [buf]. *)
Definition Read (size : Z) : St SocketStream (Z * list byte) :=
  s ← get;
  if decide (readBuffOff s < readBuffContentSize s) then
    let remainingSize := readBuffContentSize s - readBuffOff s in
    if decide (size ≤ remainingSize) then
      ret ← copy_out (readBuffOff s) size;
      match ret with
      | None => mret (-1, [])
      | Some buf =>
        set_off (readBuffOff s + size) (readBuffContentSize s) ;; mret (size, buf)
      end
    else
      ret ← copy_out (readBuffOff s) remainingSize;
      match ret with
      | None => mret (-1, [])
      | Some buf =>
        set_off (readBuffOff s + remainingSize) (readBuffContentSize s) ;;
        mret (remainingSize, buf)
      end
  else
    set_off 0 0 ;;
    if decide (size < maxBuffSize) then
      '(n, got) ← recv maxBuffSize;
      if decide (n ≤ 0) then mret (n, []) else
      set_buff got ;;
      if decide (n < size) then
        ret ← copy_out 0 n;
        match ret with
        | None => mret (-1, [])
        | Some buf => mret (n, buf)
        end
      else
        ret ← copy_out 0 size;
        match ret with
        | None => mret (-1, [])
        | Some buf => set_off size n ;; mret (size, buf)
        end
    else recv size.

(** [SocketStream::Write]. *)
Definition Write (buf : list byte) : St SocketStream Z := send buf.

(** [ReadBuf]: the loop appends to [msg] until [end - start] bytes came.
    Each round reads at least one byte, so [end - start] rounds are
    enough; the subtraction is an [int] one. *)
Fixpoint ReadBuf_loop (fuel : nat) (start end_ : Z) (msg : list byte) :
    St SocketStream (option (list byte)) :=
  if decide (start < end_) then
    match fuel with
    | O => undef
    | S fuel =>
      if decide (2147483647 < end_ - start) then undef else
      '(n, buf) ← Read (Z.min (end_ - start) MAX_RECV_BUFF_SIZE);
      if decide (n ≤ 0) then mret None
      else ReadBuf_loop fuel (start + n) end_ (msg ++ buf)
    end
  else mret (Some msg).

(** The arguments are narrowed to [int] by the call. *)
Definition ReadBuf (start end_ : Z) : St SocketStream (option (list byte)) :=
  let start := wrap CInt start in
  let end_ := wrap CInt end_ in
  ReadBuf_loop (Z.to_nat (end_ - start)) start end_ [].

(** Runs a reader on a string of its own. *)
Definition on_string {S A} (m : St InStream A) (bs : list byte) : St S A := λ s,
  match m (in_of bs) with
  | Ret (a, _) => Ret (a, s)
  | Throw e => Throw e
  | Undef => Undef
  end.

Definition RecvMessage (msgProtocol : MessageProtocol) :
    St SocketStream (bool * MessageProtocol) :=
  '(ret, buf) ← Read (PROTOCOL_LENGTH_SIZE + HEADER_LENGTH_SIZE);
  if decide (ret ≤ 0) then mret (false, msgProtocol) else
  '(totLength, headerLength) ← on_string
     (tot ← Deserialize CUlong 0; hd ← Deserialize CUlong 0; mret (tot, hd)) buf;
  let headerStart := PROTOCOL_LENGTH_SIZE + HEADER_LENGTH_SIZE in
  let headerEnd := wrap CUlong (headerStart + headerLength) in
  header ← ReadBuf headerStart headerEnd;
  match header with
  | None => mret (false, msgProtocol)
  | Some header =>
    message ← ReadBuf headerEnd totLength;
    match message with
    | None => mret (false, msgProtocol)
    | Some message =>
      newHeader ← on_string HeaderDeserialize header;
      newMessage ← on_string (MessageDeserialize (mp_message msgProtocol)) message;
      mret (true, mkProtocol newHeader newMessage)
    end
  end.

(** The [ssize_t] result becomes a [bool]: only 0 is [false]. *)
Definition SendMessage (msgProtocol : MessageProtocol) : St SocketStream bool := λ s,
  match GetProtocolStr msgProtocol with
  | Ret res => (n ← Write res; mret (bool_decide (n ≠ 0))) s
  | Throw e => Throw e
  | Undef => Undef
  end.
End protocol.

(** ** The stream a reader sees *)

Definition segment_bytes (x : Segment) : list byte :=
  match x with Bytes bs => bs | RecvError => [] end.

(** Every [recv] up to the end of the stream delivers something. *)
Definition delivers (x : Segment) : Prop :=
  match x with Bytes bs => bs ≠ [] | RecvError => False end.

(** The bytes in the buffer that were not handed out yet. *)
Definition unread (s : SocketStream) : list byte :=
  drop (Z.to_nat (readBuffOff s)) (take (Z.to_nat (readBuffContentSize s)) (readBuff s)).

(** All the bytes to come: the rest of the buffer, then the socket. *)
Definition pending (s : SocketStream) : list byte :=
  unread s ++ concat (map segment_bytes (ss_in s)).

Definition stream_ok (s : SocketStream) : Prop :=
  0 ≤ readBuffOff s ∧ 0 ≤ readBuffContentSize s ≤ Z.of_nat (length (readBuff s)) ∧
  Forall delivers (ss_in s).

Section reading.
Context `{PF : Platform} `{SC : SecureC} `{!SecureCLaws SC}.
Context (Hmax : MAX_RECV_BUFF_SIZE ≤ rsize_max).

(** What one call of [Read] promises: a non-empty prefix of what is
    pending. *)
Definition hands_out (size : Z) (s : SocketStream) (r : Z * list byte)
    (s' : SocketStream) : Prop :=
  fst r = Z.of_nat (length (snd r)) ∧ snd r ≠ [] ∧ fst r ≤ size ∧ stream_ok s' ∧
  pending s = snd r ++ pending s'.

Lemma copy_out_twp off n s Q : 0 ≤ n ≤ MAX_RECV_BUFF_SIZE →
  Q (Some (take (Z.to_nat n) (drop (Z.to_nat off) (readBuff s)))) s →
  twp (copy_out off n) Q s.
Proof.
  intros Hn HQ. unfold copy_out. apply twp_bind, twp_get. rewrite memcpy_s_fits by done.
  by rewrite decide_False by (intros Hne; by apply Hne).
Qed.

Lemma length_unread s : stream_ok s →
  Z.of_nat (length (unread s)) = Z.max 0 (readBuffContentSize s - readBuffOff s).
Proof.
  intros (Ho & Hc & _). unfold unread. rewrite length_drop, length_take. lia.
Qed.

(** Bytes served from the buffer. *)
Lemma hands_out_buffered size s n :
  stream_ok s → 0 < n ≤ size → n ≤ readBuffContentSize s - readBuffOff s →
  hands_out size s
    (n, take (Z.to_nat n) (drop (Z.to_nat (readBuffOff s)) (readBuff s)))
    (mkSS (ss_in s) (ss_send s) (ss_sent s) (readBuff s) (readBuffOff s + n)
          (readBuffContentSize s)).
Proof.
  intros Hok Hn Hr. pose proof Hok as (Ho & Hc & Hd). pose proof (length_unread s Hok) as Hl.
  assert (take (Z.to_nat n) (drop (Z.to_nat (readBuffOff s)) (readBuff s)) =
    take (Z.to_nat n) (unread s)) as E.
  { unfold unread. rewrite skipn_firstn_comm, take_take. f_equal. lia. }
  unfold hands_out. simpl. rewrite E.
  assert (n = Z.of_nat (length (take (Z.to_nat n) (unread s)))) as El.
  { rewrite length_take. lia. }
  split_and!; [done| |lia|split_and!; simpl; (done || lia)|].
  { intros E'. rewrite E' in El. simpl in El. lia. }
  unfold pending at 1. unfold pending, unread at 3. simpl.
  rewrite Z2Nat.inj_add by lia. rewrite <-drop_drop. fold (unread s).
  by rewrite app_assoc, take_drop.
Qed.

(** [recv] on a socket that delivers. *)
Lemma recv_twp size s Q : 0 < size → Forall delivers (ss_in s) → ss_in s ≠ [] →
  (∀ got ins, got ≠ [] → Z.of_nat (length got) ≤ size → Forall delivers ins →
    concat (map segment_bytes (ss_in s)) = got ++ concat (map segment_bytes ins) →
    Q (Z.of_nat (length got), got)
      (mkSS ins (ss_send s) (ss_sent s) (readBuff s) (readBuffOff s)
            (readBuffContentSize s))) →
  twp (recv size) Q s.
Proof.
  intros Hs Hd Hne HQ. unfold twp, recv.
  destruct (ss_in s) as [|[bs|] ins]; [done| |by inversion Hd].
  apply list.Forall_cons in Hd as [Hb Hd]. simpl in Hb. apply HQ.
  - destruct bs as [|b bs]; [done|]. by destruct (Z.to_nat size) eqn:E; [lia|].
  - rewrite length_take. lia.
  - by destruct (drop _ bs) eqn:E; [|constructor].
  - simpl. rewrite <-(take_drop (Z.to_nat size) bs) at 1. rewrite <-app_assoc. f_equal.
    by destruct (drop _ bs) eqn:E.
Qed.

Lemma recv_hands_out size s : 0 < size → unread s = [] → Forall delivers (ss_in s) →
  ss_in s ≠ [] → readBuffOff s = 0 → readBuffContentSize s = 0 →
  twp (recv size) (hands_out size s) s.
Proof.
  intros Hs Hu Hd Hne Ho Hc. apply recv_twp; [done..|]. intros got ins Hg Hl Hi Hcat.
  split_and!; simpl; [done..|split_and!; simpl; (done || lia)|].
  unfold pending, unread in *. simpl. by rewrite Hu, Hcat.
Qed.

Lemma Read_twp size s : 0 < size ≤ MAX_RECV_BUFF_SIZE → stream_ok s → pending s ≠ [] →
  twp (Read size) (hands_out size s) s.
Proof.
  intros Hsz Hok Hp. pose proof Hok as (Ho & Hc & Hd). pose proof (length_unread s Hok) as Hl.
  unfold Read. apply twp_bind, twp_get. case_decide as Hb.
  { case_decide; apply twp_bind, copy_out_twp; try lia; apply twp_bind, twp_modify, twp_ret;
      apply hands_out_buffered; (done || lia). }
  assert (unread s = []) as Hu by (apply length_zero_iff_nil; lia).
  assert (ss_in s ≠ []) as Hin.
  { intros E. apply Hp. unfold pending. by rewrite Hu, E. }
  apply twp_bind, twp_modify.
  set (s0 := mkSS (ss_in s) (ss_send s) (ss_sent s) (readBuff s) 0 0).
  assert (pending s = pending s0) as Ep by (unfold pending; rewrite Hu; done).
  assert (∀ r s', hands_out size s0 r s' → hands_out size s r s') as Hlift.
  { intros r s'. unfold hands_out. by rewrite Ep. }
  case_decide as Hsm.
  2:{ eapply twp_mono; [apply (recv_hands_out size s0); (done || lia)|].
      intros r s'. apply Hlift. }
  apply twp_bind, recv_twp; [unfold maxBuffSize; lia|done|done|].
  intros got ins Hg Hgl Hi Hcat. cbn beta iota. simpl in Hcat.
  assert (0 < Z.of_nat (length got)) as Hgp by (destruct got; [done|simpl; lia]).
  rewrite decide_False by lia. unfold maxBuffSize, MAX_RECV_BUFF_SIZE in *.
  apply twp_bind, twp_modify. simpl.
  case_decide as Hn; apply twp_bind, copy_out_twp; simpl; try (unfold MAX_RECV_BUFF_SIZE; lia).
  - rewrite Nat2Z.id, firstn_all, drop_0. apply twp_ret, Hlift.
    split_and!; simpl; [done|done|lia|split_and!; simpl; (done || lia)|].
    unfold pending, unread. simpl. by rewrite Hcat.
  - rewrite drop_0. apply twp_bind, twp_modify, twp_ret, Hlift.
    split_and!; simpl; [rewrite length_take; lia| |lia|split_and!; simpl; (done || lia)|].
    { intros E. apply (f_equal length) in E. rewrite length_take in E. simpl in E. lia. }
    unfold pending, unread. simpl. rewrite Hcat, Nat2Z.id, firstn_all.
    by rewrite app_assoc, take_drop.
Qed.

(** At least [size] bytes are there without waiting for another segment. *)
Definition ready (size : Z) (s : SocketStream) : Prop :=
  size ≤ Z.of_nat (length (unread s)) ∨
  unread s = [] ∧ ∃ bs ins, ss_in s = Bytes bs :: ins ∧ size ≤ Z.of_nat (length bs).

Lemma Read_ready size s : 0 < size < maxBuffSize → stream_ok s → ready size s →
  twp (Read size) (λ r _, fst r = size) s.
Proof.
  unfold maxBuffSize. intros Hsz Hok Hr. pose proof (length_unread s Hok) as Hl.
  unfold Read. apply twp_bind, twp_get. destruct Hr as [Hr|(Hu & bs & ins & Hin & Hr)].
  { rewrite decide_True by lia. rewrite decide_True by lia.
    apply twp_bind, copy_out_twp; [unfold MAX_RECV_BUFF_SIZE; lia|].
    apply twp_bind, twp_modify, twp_ret. done. }
  rewrite Hu in Hl. simpl in Hl. rewrite decide_False by lia.
  apply twp_bind, twp_modify. rewrite decide_True by (unfold maxBuffSize; lia).
  apply twp_bind. unfold twp at 1, recv. simpl. rewrite Hin. cbn beta iota. simpl.
  assert (size ≤ Z.of_nat (length (take 4096 bs))) as Ht by (rewrite length_take; lia).
  change (Z.to_nat maxBuffSize) with 4096%nat.
  rewrite decide_False by lia. apply twp_bind, twp_modify. simpl.
  rewrite decide_False by lia.
  apply twp_bind, copy_out_twp; [unfold MAX_RECV_BUFF_SIZE; lia|].
  apply twp_bind, twp_modify, twp_ret. done.
Qed.

(** The loop collects exactly the bytes it was asked for. *)
Lemma ReadBuf_loop_twp fuel start end_ msg s :
  stream_ok s → 0 ≤ start ≤ end_ → end_ ≤ 2147483647 →
  end_ - start ≤ Z.of_nat fuel → end_ - start ≤ Z.of_nat (length (pending s)) →
  twp (ReadBuf_loop fuel start end_ msg) (λ r s', ∃ got,
    r = Some (msg ++ got) ∧ Z.of_nat (length got) = end_ - start ∧ stream_ok s' ∧
    pending s = got ++ pending s') s.
Proof.
  revert start msg s. induction fuel as [|fuel IH]; intros start msg s Hok Hs He Hf Hp; simpl.
  { rewrite decide_False by lia. apply twp_ret. exists []. rewrite app_nil_r. simpl.
    split_and!; (done || lia). }
  case_decide as Hlt.
  2:{ apply twp_ret. exists []. rewrite app_nil_r. simpl. split_and!; (done || lia). }
  rewrite decide_False by lia. apply twp_bind.
  eapply twp_mono; [apply Read_twp; [unfold MAX_RECV_BUFF_SIZE; lia|done|]|].
  { intros E. rewrite E in Hp. simpl in Hp. lia. }
  intros [n buf] s' (En & Hne & Hle & Hok' & Hpend). cbn beta iota. simpl in *. subst n.
  assert (0 < length buf)%nat by (destruct buf; [done|simpl; lia]).
  rewrite decide_False by lia. rewrite Hpend, length_app in Hp.
  eapply twp_mono; [apply IH; (done || lia)|].
  intros r s'' (got & -> & Hg & Hok'' & Hp''). exists (buf ++ got).
  rewrite app_assoc, length_app. split_and!; [done|lia|done|].
  by rewrite Hpend, Hp'', app_assoc.
Qed.

Lemma ReadBuf_twp start end_ s bs rest :
  stream_ok s → 0 ≤ start ≤ end_ → end_ ≤ 2147483647 →
  pending s = bs ++ rest → Z.of_nat (length bs) = end_ - start →
  twp (ReadBuf start end_) (λ r s', r = Some bs ∧ stream_ok s' ∧ pending s' = rest) s.
Proof.
  intros Hok Hs He Hp Hl. unfold ReadBuf.
  rewrite !wrap_id by (apply in_range_int; lia).
  eapply twp_mono; [apply ReadBuf_loop_twp; try done; [lia|rewrite Hp, length_app; lia]|].
  intros r s' (got & -> & Hg & Hok' & Hp'). rewrite Hp in Hp'.
  apply app_inj_1 in Hp' as [-> ->]; [done|lia].
Qed.
End reading.

(** ** The format *)

Section format.
Context `{PF : Platform} `{SC : SecureC} `{!SecureCLaws SC}.

Definition Message_ok (m : Message) : Prop :=
  opt_canonical (msg_opt m) ∧ in_range CInt (opt_val (msg_opt m)) ∧
  Forall fits (msg_payload m) ∧ Z.of_nat (length (msg_payload m)) ≤ heap_limit ∧
  in_range CUlong (Z.of_nat (length (msg_payload m))).

Definition Protocol_ok (p : MessageProtocol) : Prop :=
  type_of (type_val (mp_header p)) = mp_header p ∧
  in_range CInt (type_val (mp_header p)) ∧ Message_ok (mp_message p).

Lemma Message_Codec m old : Message_ok m → msg_payload old = [] →
  Codec (MessageSerialize m) tt (MessageDeserialize old) m.
Proof.
  destruct m as [o l]. unfold Message_ok. simpl. intros (Ho & Hr & Hl & Hh & Hc) Hold.
  unfold MessageSerialize, MessageDeserialize. simpl. rewrite Hold.
  eapply Codec_bind; [by apply Codec_base|]. cbn beta.
  eapply Codec_bind_last.
  - apply Codec_vector; [|done..]. intros x Hx. apply Codec_string.
    by eapply list.Forall_forall in Hx.
  - intros s. by rewrite Ho.
Qed.

Lemma Header_Codec t : type_of (type_val t) = t → in_range CInt (type_val t) →
  Codec (HeaderSerialize t) tt HeaderDeserialize t.
Proof.
  intros Ht Hr. eapply Codec_bind_last; [by apply Codec_base|]. intros s. by rewrite Ht.
Qed.

(** A frame: the total length, the header length, the header, the body. *)
Lemma GetProtocolStr_frame p : Protocol_ok p → ∃ head body,
  Reads HeaderDeserialize head (mp_header p) ∧
  (∀ old, msg_payload old = [] → Reads (MessageDeserialize old) body (mp_message p)) ∧
  length head = 4%nat ∧
  GetProtocolStr p = Ret (to_bytes CUlong (16 + Z.of_nat (length (head ++ body))) ++
                          to_bytes CUlong 4 ++ head ++ body).
Proof.
  intros (Ht & Hr & Hm). destruct (Header_Codec _ Ht Hr) as (head & W & R).
  destruct (Message_Codec (mp_message p) (mkMessage LOAD []) Hm eq_refl) as (body & W' & R').
  exists head, body. split; [done|]. split.
  { intros old Hold. destruct (Message_Codec (mp_message p) old Hm Hold) as (b' & W'' & R'').
    pose proof (W' []) as E. rewrite W'' in E. by injection E as ->. }
  assert (head = to_bytes CInt (type_val (mp_header p))) as Eh.
  { pose proof (W []) as E. by injection E as <-. }
  assert (length head = 4%nat) as Hlen by (rewrite Eh; apply length_to_bytes).
  split; [done|]. unfold GetProtocolStr. rewrite W. simpl. rewrite W', Hlen. done.
Qed.
End format.

(** ** Properties *)

Section receive.
Context `{PF : Platform} `{SC : SecureC} `{!SecureCLaws SC}.
Context (Hmax : MAX_RECV_BUFF_SIZE ≤ rsize_max).

(** The two lengths of a frame. *)
Lemma lengths_on_string {S} tot hd (s : S) :
  in_range CUlong tot → in_range CUlong hd →
  on_string (tot ← Deserialize CUlong 0; hd ← Deserialize CUlong 0; mret (tot, hd))
    (to_bytes CUlong tot ++ to_bytes CUlong hd) s = Ret ((tot, hd), s).
Proof.
  intros Ht Hh. unfold on_string.
  assert (Reads (tot ← Deserialize CUlong 0; hd ← Deserialize CUlong 0; mret (tot, hd))
    (to_bytes CUlong tot ++ to_bytes CUlong hd ++ []) (tot, hd)) as R.
  { eapply Reads_bind; [by apply Reads_Deserialize|].
    eapply Reads_bind; [by apply Reads_Deserialize|]. apply Reads_ret. }
  specialize (R []). rewrite !app_nil_r in R. by rewrite R.
Qed.

Lemma on_string_twp {S A} (m : St InStream A) bs a (Q : A → S → Prop) s :
  Reads m bs a → Q a s → twp (on_string m bs) Q s.
Proof.
  intros R HQ. unfold twp, on_string. specialize (R []). rewrite app_nil_r in R. by rewrite R.
Qed.

Lemma RecvMessage_frame p0 p s bs rest :
  Protocol_ok p → msg_payload (mp_message p0) = [] → GetProtocolStr p = Ret bs →
  Z.of_nat (length bs) ≤ 2147483647 → stream_ok s → ready 16 s → pending s = bs ++ rest →
  twp (RecvMessage p0) (λ r s', r = (true, p) ∧ stream_ok s' ∧ pending s' = rest) s.
Proof.
  intros Hp Hp0 Hbs Hlen Hok Hready Hpend.
  destruct (GetProtocolStr_frame p Hp) as (head & body & Rh & Rb & Hh & E).
  rewrite Hbs in E. apply Ret_inj in E as ->.
  set (tot := 16 + Z.of_nat (length (head ++ body))) in Hlen, Hpend.
  set (l1 := to_bytes CUlong tot) in *. set (l2 := to_bytes CUlong 4) in *.
  assert (length l1 = 8%nat) as Hl1 by apply length_to_bytes.
  assert (length l2 = 8%nat) as Hl2 by apply length_to_bytes.
  assert (tot ≤ 2147483647) as Htot by (rewrite !length_app in Hlen; unfold tot; rewrite length_app; lia).
  unfold RecvMessage. apply twp_bind. change (PROTOCOL_LENGTH_SIZE + HEADER_LENGTH_SIZE) with 16.
  eapply twp_mono; [apply twp_and;
    [apply Read_twp; [done|unfold MAX_RECV_BUFF_SIZE; lia|done|]|
     apply Read_ready; [done|unfold maxBuffSize; lia|done|done]]|].
  { rewrite Hpend. intros E. apply (f_equal length) in E. rewrite !length_app in E.
    simpl in E. lia. }
  intros [ret buf] s1 [(En & _ & _ & Hok1 & Hp1) Er]. cbn beta iota. simpl in En, Er, Hp1.
  rewrite Er in *. rewrite decide_False by lia.
  assert (buf = l1 ++ l2 ∧ pending s1 = head ++ body ++ rest) as [-> Hp2].
  { rewrite Hpend, <-!app_assoc, (app_assoc l1 l2) in Hp1.
    apply app_inj_1 in Hp1 as [<- <-]; [done|]. rewrite length_app. lia. }
  apply twp_bind. unfold twp at 1, l1, l2. rewrite lengths_on_string by (solve_range || lia).
  cbn beta iota. change (wrap CUlong (16 + 4)) with 20. apply twp_bind.
  eapply twp_mono; [eapply (ReadBuf_twp Hmax 16 20 s1 head); (done || lia)|].
  cbn beta. intros r s2 (-> & Hok2 & Hp3). apply twp_bind.
  eapply twp_mono; [eapply (ReadBuf_twp Hmax 20 tot s2 body); try done;
    unfold tot; rewrite length_app; lia|].
  cbn beta. intros r s3 (-> & Hok3 & Hp4).
  apply twp_bind. eapply on_string_twp; [done|].
  apply twp_bind. eapply on_string_twp; [by apply Rb|].
  apply twp_ret. destruct p; done.
Qed.
End receive.

(** C16. Reassembly of messages: whatever segments the socket delivers a frame
    in, as long as the first one holds the two length words, [RecvMessage]
    returns the very message that [GetProtocolStr] framed, leaves every byte
    that follows it in the stream, and leaves the stream ready for the next
    message. *)
Theorem RecvMessage_delivers {PF : Platform} {SC : SecureC} {HS : SecureCLaws SC}
    (p0 p : MessageProtocol) (s : SocketStream) (bs rest : list byte)
    (Hmax : MAX_RECV_BUFF_SIZE ≤ rsize_max)
    (Hp : Protocol_ok p) (Hp0 : msg_payload (mp_message p0) = [])
    (Hbs : GetProtocolStr p = Ret bs) (Hlen : Z.of_nat (length bs) ≤ 2147483647)
    (Hok : stream_ok s) (Hready : ready 16 s) (Hpend : pending s = bs ++ rest) :
  ∃ s', RecvMessage p0 s = Ret ((true, p), s') ∧ stream_ok s' ∧ pending s' = rest.
Proof.
  destruct (proj1 (twp_alt _ _ _) (RecvMessage_frame Hmax p0 p s bs rest Hp Hp0 Hbs Hlen
    Hok Hready Hpend)) as (r & s' & E & -> & Hok' & Hp').
  by exists s'.
Qed.

Definition no_message : MessageProtocol := mkProtocol REQUEST (mkMessage LOAD []).
Definition subscribe_message : MessageProtocol :=
  mkProtocol REQUEST (mkMessage SUBSCRIBE ["abc"; ""; "thread"])%string.

(** The bytes of a message; empty for one that cannot be framed. *)
Definition frame_of (p : MessageProtocol) : list byte :=
  match GetProtocolStr p with Ret bs => bs | _ => [] end.

Definition example_segments : list Segment :=
  let bs := frame_of subscribe_message in
  [Bytes (take 18 bs); Bytes (take 1 (drop 18 bs)); Bytes (drop 19 bs ++ [x2a])].

Lemma RecvMessage_delivers_witness :
  ∃ s', @RecvMessage platform_ref secure_c_ref no_message (new_stream example_segments [])
          = Ret ((true, subscribe_message), s') ∧ stream_ok s' ∧ pending s' = [x2a].
Proof.
  apply (@RecvMessage_delivers platform_ref secure_c_ref secure_c_ref_laws) with
    (bs := frame_of subscribe_message).
  - by vm_compute.
  - repeat split; try by_decide.
  - done.
  - by vm_compute.
  - by vm_compute.
  - split_and!; [by_decide..|]. repeat constructor; discriminate.
  - right. split; [done|]. eexists _, _. split; [done|]. by_decide.
  - by vm_compute.
Defined.

(** The two length words are read by one [recv] that is not repeated: the
    same frame whose first segment ends inside them, after [k] bytes, loses
    its framing.  A frame cut after its total length is still accepted, but
    as a message that was never sent: its header length is taken to be 0 and
    the bytes of the header length, the header and the message are all read
    as the message. *)
Theorem RecvMessage_short_first_segment :
  let bs := frame_of subscribe_message in
  ∃ p s', @RecvMessage platform_ref secure_c_ref no_message
            (new_stream [Bytes (take 8 bs); Bytes (drop 8 bs)] []) = Ret ((true, p), s') ∧
          p ≠ subscribe_message ∧ msg_opt (mp_message p) = QUERY.
Proof. vm_compute. eexists _, _. split_and!; [reflexivity|discriminate|reflexivity]. Qed.
