(* ===== verification/Daemon.v ===== *)
(** * The daemon's objects (plugin.h, plugin.cpp, memory_store.h, interface.h,
      instance_run_message.h, event.h)

    Instances are shared between the plugin that owns them, the table of
    [MemoryStore] and the scheduler's queue, so they live in a heap and those
    three hold pointers.  A plugin's virtual functions are code the daemon
    loads: the class [PluginCode] leaves their results and the messages they
    post open, as functions of every call made so far. *)

From Stdlib Require Import ZArith Lia Strings.Byte.
From stdpp Require Import base list strings gmap numbers.
From S2P Require Import Prelude Bytes Serialize StdString Utils DataTypes SecureC Registry.
From S2P Require Import MessageProtocol.

(** ** Results, messages, events *)

Definition OK : Z := 0.
Definition FAILED : Z := -1.

(** [struct Result]: the default constructor leaves [code] uninitialised. *)
Record Result := mkResult { r_code : option Z; r_payload : string }.
Definition Result0 : Result := mkResult None EmptyString.

(** [result.code < 0]. *)
Definition code_negative {S} (r : Result) : St S bool :=
  c ← deref (r_code r); mret (bool_decide (c < 0)).

Inductive RunType :=
| RT_ENABLED | RT_DISABLED | RT_DISABLED_FORCE | RT_SUBSCRIBE | RT_UNSUBSCRIBE
| RT_UNSUBSCRIBE_SDK | RT_PUBLISH_DATA | RT_PUBLISH | RT_SHUTDOWN.

(** [InstanceRunMessage], less its result, which is what handling returns. *)
Record RunMessage := mkRunMessage {
  rm_type : RunType;
  rm_payload : list string;
  rm_isFree : bool;
  rm_dataList : DataList
}.

Definition no_data : DataList := mkDataList (mkCTopic None None None) 0 [].
Definition run_message (t : RunType) (payload : list string) : RunMessage :=
  mkRunMessage t payload true no_data.

Inductive EventType := INTERNAL | EXTERNAL.
Record Event := mkEvent { ev_opt : Opt; ev_type : EventType; ev_payload : list string }.

(** ** Instances and plugins *)

(** The attributes of the [Interface] object are fixed by its constructor. *)
Record Instance := mkInstance {
  in_name : string;
  in_pluginName : string;
  in_state : bool;
  in_enabled : bool;
  in_enableCnt : Z;
  in_supportTopics : gset string;
  in_openTopics : gset string;
  in_type : Z;
  in_priority : Z;
  in_period : Z
}.

Record Plugin := mkPlugin { pl_name : string; pl_instances : list nat }.

Definition TUNE : Z := 16.
Definition SCENARIO : Z := 8.
Definition INSTANCE_RUN_ONCE : Z := 2.

(** [GetType() & flag] as a condition. *)
Definition has_flag (flag : Z) (i : Instance) : bool :=
  bool_decide (Z.land (in_type i) flag ≠ 0).

Definition set_enabled (b : bool) (i : Instance) : Instance :=
  mkInstance (in_name i) (in_pluginName i) (in_state i) b (in_enableCnt i)
    (in_supportTopics i) (in_openTopics i) (in_type i) (in_priority i) (in_period i).
Definition count_enable (i : Instance) : Instance :=
  mkInstance (in_name i) (in_pluginName i) (in_state i) (in_enabled i)
    (wrap CUlong (in_enableCnt i + 1)) (in_supportTopics i) (in_openTopics i) (in_type i)
    (in_priority i) (in_period i).
Definition set_openTopics (f : gset string → gset string) (i : Instance) : Instance :=
  mkInstance (in_name i) (in_pluginName i) (in_state i) (in_enabled i) (in_enableCnt i)
    (in_supportTopics i) (f (in_openTopics i)) (in_type i) (in_priority i) (in_period i).

(** ** The plugins' own code *)

Inductive Call :=
| CallEnable (i : nat) (param : string)
| CallDisable (i : nat)
| CallOpenTopic (i : nat) (topic : Topic)
| CallCloseTopic (i : nat) (topic : Topic)
| CallUpdateData (i : nat) (dataList : DataList)
| CallRun (i : nat).

(** The result of the last call of the list, and what it posted to the
    scheduler's queue. *)
Class PluginCode := {
  call_result : list Call → Z * string;
  call_posts : list Call → list RunMessage;
}.

(** The order in which an unordered container of strings is visited. *)
Class HashOrder := {
  hash_order : gset string → list string;
  hash_order_perm X : hash_order X ≡ₚ elements X;
}.

Lemma elem_of_hash_order `{HashOrder} x X : x ∈ hash_order X ↔ x ∈ X.
Proof. by rewrite hash_order_perm, elem_of_elements. Qed.

Lemma NoDup_hash_order `{HashOrder} X : NoDup (hash_order X).
Proof. rewrite hash_order_perm. apply NoDup_elements. Qed.

(** The same for other keys. *)
Class HashOrderOf (K : Type) `{Countable K} := {
  order_of : gset K → list K;
  order_of_perm X : order_of X ≡ₚ elements X
}.
Notation HashOrderInt := (HashOrderOf Z).

Section order_of.
Context `{HashOrderOf K}.

Lemma elem_of_order_of x X : x ∈ order_of X ↔ x ∈ X.
Proof. by rewrite order_of_perm, elem_of_elements. Qed.
Lemma NoDup_order_of X : NoDup (order_of X).
Proof. rewrite order_of_perm. apply NoDup_elements. Qed.
End order_of.

(** The entries of a container in that order. *)
Definition in_order `{HashOrderOf K} {A} (m : gmap K A) : list (K * A) :=
  omap (λ k, pair k <$> (m !! k : option A)) (order_of (dom m)).
Definition named_in_order `{HashOrder} {A} (m : gmap string A) : list (string * A) :=
  omap (λ k, pair k <$> (m !! k : option A)) (hash_order (dom m)).

Lemma elem_of_in_order `{HashOrderOf K} {A} (m : gmap K A) k a :
  (k, a) ∈ in_order m ↔ m !! k = Some a.
Proof.
  unfold in_order. rewrite list_elem_of_omap. split.
  - intros (q & _ & E). destruct (m !! q) eqn:Eq; simplify_eq/=. done.
  - intros E. exists k. rewrite E. split; [|done].
    apply elem_of_order_of, elem_of_dom. by eexists.
Qed.
Lemma elem_of_named_in_order `{HashOrder} {A} (m : gmap string A) k a :
  (k, a) ∈ named_in_order m ↔ m !! k = Some a.
Proof.
  unfold named_in_order. rewrite list_elem_of_omap. split.
  - intros (q & _ & E). destruct (m !! q) eqn:Eq; simplify_eq/=. done.
  - intros E. exists k. rewrite E. split; [|done].
    apply elem_of_hash_order, elem_of_dom. by eexists.
Qed.

(** No key comes twice. *)
Lemma omap_keys {K A} (f : K → option A) (l : list K) :
  (omap (λ k, pair k <$> f k) l).*1 `sublist_of` l.
Proof.
  induction l as [|k l IH]; [constructor|]. cbn [omap list_omap].
  destruct (f k); simpl; by constructor.
Qed.
Lemma in_order_NoDup `{HashOrderOf K} {A} (m : gmap K A) : NoDup (in_order m).*1.
Proof. eapply sublist_NoDup; [apply NoDup_order_of|apply omap_keys]. Qed.
Lemma named_in_order_NoDup `{HashOrder} {A} (m : gmap string A) : NoDup (named_in_order m).*1.
Proof. eapply sublist_NoDup; [apply NoDup_hash_order|apply omap_keys]. Qed.
Lemma named_in_order_perm `{HashOrder} {A} (m : gmap string A) : named_in_order m ≡ₚ map_to_list m.
Proof.
  apply NoDup_Permutation.
  - apply NoDup_fmap_1 with fst, named_in_order_NoDup.
  - apply NoDup_map_to_list.
  - intros [k a]. by rewrite elem_of_named_in_order, elem_of_map_to_list.
Qed.
Lemma in_order_perm `{HashOrderOf K} {A} (m : gmap K A) : in_order m ≡ₚ map_to_list m.
Proof.
  apply NoDup_Permutation.
  - apply NoDup_fmap_1 with fst, in_order_NoDup.
  - apply NoDup_map_to_list.
  - intros [k a]. by rewrite elem_of_in_order, elem_of_map_to_list.
Qed.

(** ** The state shared by the plugin manager and the scheduler *)

Record ScheduleInstance := mkSchedule { si_instance : nat; si_time : Z }.

Record Daemon := mkDaemon {
  d_heap : gmap nat Instance;               (* every [Instance] object *)
  d_instances : gmap string nat;            (* MemoryStore::instances *)
  d_plugins : gmap string Plugin;           (* MemoryStore::plugins *)
  d_queue : list RunMessage;                (* InstanceRunHandler::recvQueue *)
  d_schedule : list ScheduleInstance;       (* scheduleQueue, in no order *)
  d_topicState : gmap string (gmap string (gmap string bool));
  d_subscibers : gmap string (gset string);
  d_runOnce : list (Topic * string);        (* topicRunOnce *)
  d_time : Z;
  d_recvData : list Event;                  (* to the message manager *)
  d_calls : list Call                       (* the plugin calls so far *)
}.

Section setters.
Implicit Types d : Daemon.
Definition set_heap h d := mkDaemon h (d_instances d) (d_plugins d) (d_queue d)
  (d_schedule d) (d_topicState d) (d_subscibers d) (d_runOnce d) (d_time d)
  (d_recvData d) (d_calls d).
Definition set_store ms ps d := mkDaemon (d_heap d) ms ps (d_queue d)
  (d_schedule d) (d_topicState d) (d_subscibers d) (d_runOnce d) (d_time d)
  (d_recvData d) (d_calls d).
Definition set_queue q d := mkDaemon (d_heap d) (d_instances d) (d_plugins d) q
  (d_schedule d) (d_topicState d) (d_subscibers d) (d_runOnce d) (d_time d)
  (d_recvData d) (d_calls d).
Definition set_schedule q d := mkDaemon (d_heap d) (d_instances d) (d_plugins d)
  (d_queue d) q (d_topicState d) (d_subscibers d) (d_runOnce d) (d_time d)
  (d_recvData d) (d_calls d).
Definition set_topicState ts d := mkDaemon (d_heap d) (d_instances d) (d_plugins d)
  (d_queue d) (d_schedule d) ts (d_subscibers d) (d_runOnce d) (d_time d)
  (d_recvData d) (d_calls d).
Definition set_subscibers ss d := mkDaemon (d_heap d) (d_instances d) (d_plugins d)
  (d_queue d) (d_schedule d) (d_topicState d) ss (d_runOnce d) (d_time d)
  (d_recvData d) (d_calls d).
Definition set_runOnce l d := mkDaemon (d_heap d) (d_instances d) (d_plugins d)
  (d_queue d) (d_schedule d) (d_topicState d) (d_subscibers d) l (d_time d)
  (d_recvData d) (d_calls d).
Definition set_time t d := mkDaemon (d_heap d) (d_instances d) (d_plugins d)
  (d_queue d) (d_schedule d) (d_topicState d) (d_subscibers d) (d_runOnce d) t
  (d_recvData d) (d_calls d).
Definition set_recvData l d := mkDaemon (d_heap d) (d_instances d) (d_plugins d)
  (d_queue d) (d_schedule d) (d_topicState d) (d_subscibers d) (d_runOnce d) (d_time d)
  l (d_calls d).
Definition set_calls q l d := mkDaemon (d_heap d) (d_instances d) (d_plugins d)
  q (d_schedule d) (d_topicState d) (d_subscibers d) (d_runOnce d) (d_time d)
  (d_recvData d) l.
End setters.

(** A daemon that has just started. *)
Definition daemon0 : Daemon := mkDaemon ∅ ∅ ∅ [] [] ∅ ∅ [] 0 [] [].

(** ** MemoryStore *)

Section store.
Definition IsPluginExist (name : string) (d : Daemon) : bool :=
  bool_decide (is_Some (d_plugins d !! name)).
Definition IsInstanceExist (name : string) (d : Daemon) : bool :=
  bool_decide (is_Some (d_instances d !! name)).
(** [GetPlugin], [GetInstance]: null when absent. *)
Definition GetPlugin (name : string) (d : Daemon) : option Plugin := d_plugins d !! name.
Definition GetInstance (name : string) (d : Daemon) : option nat := d_instances d !! name.
(** [insert] leaves an entry that is already there. *)
Definition AddPlugin (name : string) (p : Plugin) (d : Daemon) : Daemon :=
  match d_plugins d !! name with
  | Some _ => d
  | None => set_store (d_instances d) (<[name := p]> (d_plugins d)) d
  end.
Definition AddInstance (i : nat) : St Daemon unit :=
  d ← get;
  x ← deref (d_heap d !! i);
  match d_instances d !! in_name x with
  | Some _ => mret tt
  | None => modify (λ d, set_store (<[in_name x := i]> (d_instances d)) (d_plugins d) d)
  end.
Definition DeletePlugin (name : string) (d : Daemon) : Daemon :=
  set_store (d_instances d) (delete name (d_plugins d)) d.
Definition DeleteInstance (name : string) (d : Daemon) : Daemon :=
  set_store (delete name (d_instances d)) (d_plugins d) d.
Definition GetAllPlugins `{HashOrder} (d : Daemon) : list Plugin :=
  omap (λ name, d_plugins d !! name) (hash_order (dom (d_plugins d))).
End store.

(** ** Instance *)

Section instance.
Context `{PluginCode} `{HashOrder}.

(** Reading an object through a pointer, and writing it back. *)
Definition load (i : nat) : St Daemon Instance := d ← get; deref (d_heap d !! i).
Definition update (i : nat) (f : Instance → Instance) : St Daemon unit :=
  x ← load i; modify (λ d, set_heap (<[i := f x]> (d_heap d)) d).

(** A virtual call: its messages are in the queue when it returns. *)
Definition call (c : Call) : St Daemon Result :=
  modify (λ d, let l := d_calls d ++ [c] in set_calls (d_queue d ++ call_posts l) l d) ;;
  d ← get;
  let '(code, payload) := call_result (d_calls d) in
  mret (mkResult (Some code) payload).

Definition OpenTopic (i : nat) (topic : Topic) : St Daemon Result :=
  ret ← call (CallOpenTopic i topic);
  (if decide (r_code ret = Some OK)
   then update i (set_openTopics (λ s, {[GetType topic]} ∪ s)) else mret tt) ;;
  mret ret.

Definition CloseTopic (i : nat) (topic : Topic) : St Daemon unit :=
  call (CallCloseTopic i topic) ;;
  update i (set_openTopics (λ s, s ∖ {[GetType topic]})).

(** [Instance::Disable] closes every open topic at the plugin, and leaves
    [openTopics] as it is. *)
Definition Disable (i : nat) : St Daemon unit :=
  x ← load i;
  for_each (hash_order (in_openTopics x)) (λ type,
    topic ← deref (GetTopicFromType type); call (CallCloseTopic i topic) ;; mret tt) ;;
  call (CallDisable i) ;; mret tt.

Definition pluginEnabled : string := "running".
Definition pluginDisabled : string := "close".
Definition pluginStateOn : string := "available".
Definition pluginStateOff : string := "unavailable".

Definition GetInfo (x : Instance) : string :=
  let stateText := if in_state x then pluginStateOn else pluginStateOff in
  let runText := if in_enabled x then pluginEnabled else pluginDisabled in
  (in_name x +:+ "(" +:+ stateText +:+ ", " +:+ runText +:+ ", count: " +:+
   str_of (to_string (in_enableCnt x)) +:+ ")")%string.

Definition GetRun (x : Instance) : string :=
  let runText := if in_enabled x then pluginEnabled else pluginDisabled in
  (in_name x +:+ " (" +:+ runText +:+ ")")%string.
End instance.
