(* ===== verification/InstanceRun.v ===== *)
(** * The scheduler (instance_run_handler.h, instance_run_handler.cpp)

    [InstanceRunHandler] is the thread that calls the plugins: it enables and
    disables instances, keeps the table of subscriptions, moves data from
    publishers to subscribers, and runs the instances that are due. *)

From Stdlib Require Import ZArith Lia Strings.Byte.
From stdpp Require Import base list strings gmap numbers.
From S2P Require Import Prelude Bytes Serialize StdString Utils DataTypes SecureC DataRegister.
From S2P Require Import Registry MessageProtocol Daemon.

(** ** The topic table *)

(** [topicState[i][t][p]], [false] where there is no entry. *)
Definition topic_on (ts : gmap string (gmap string (gmap string bool))) (i t p : string) : bool :=
  default false (m ← ts !! i; m' ← m !! t; m' !! p).

(** [topicState[i][t][p] = b]. *)
Definition put_topic (i t p : string) (b : bool)
    (ts : gmap string (gmap string (gmap string bool))) :
    gmap string (gmap string (gmap string bool)) :=
  let m := default ∅ (ts !! i) in
  let m' := default ∅ (m !! t) in
  <[i := <[t := <[p := b]> m']> m]> ts.

Definition topics_of (ts : gmap string (gmap string (gmap string bool))) (i : string) :
    gmap string (gmap string bool) := default ∅ (ts !! i).
Definition params_of (ts : gmap string (gmap string (gmap string bool))) (i t : string) :
    gmap string bool := default ∅ (topics_of ts i !! t).

(** ** The run queue *)

Definition priority_of (h : gmap nat Instance) (i : nat) : Z :=
  match h !! i with Some x => in_priority x | None => 0 end.

(** [ScheduleInstance::operator<]: the later entry is the smaller one, and
    between entries of the same time the one with the larger priority
    number. *)
Definition sched_lt (h : gmap nat Instance) (a b : ScheduleInstance) : bool :=
  bool_decide (si_time b < si_time a) ||
  (bool_decide (si_time a = si_time b) &&
   bool_decide (priority_of h (si_instance b) < priority_of h (si_instance a))).

(** [std::priority_queue::top]: the position of a greatest element; which one,
    among equals, is up to the library. *)
Class PriorityQueue := {
  pq_top : gmap nat Instance → list ScheduleInstance → nat;
  pq_top_max h q : q ≠ [] →
    ∃ x, q !! pq_top h q = Some x ∧ ∀ y, y ∈ q → sched_lt h x y = false;
}.

Definition remove_at {A} (k : nat) (l : list A) : list A := take k l ++ drop (S k) l.

Section handler.
Context `{PF : Platform} `{SC : SecureC} `{KP : Kperf} `{PC : PluginCode} `{HO : HashOrder}
  `{PQ : PriorityQueue}.
Context (reg : registry).

Definition schedule_push (i : nat) (time : Z) : St Daemon unit :=
  modify (λ d, set_schedule (d_schedule d ++ [mkSchedule i (wrap CUlong time)]) d).

(** ** Instances *)

Definition not_exist (name : string) : Result :=
  mkResult (Some FAILED) ("instance {" +:+ name +:+ "} does not exist.")%string.

Definition EnableInstance (name params : string) : St Daemon Result :=
  d ← get;
  match GetInstance name d with
  | None => mret (not_exist name)
  | Some instance =>
    result ← call (CallEnable instance params);
    failed ← code_negative result;
    if failed : bool then mret result else
    update instance (set_enabled true) ;;
    update instance count_enable ;;
    x ← load instance;
    time ← gets d_time;
    (if has_flag SCENARIO x then schedule_push instance (time + in_period x)
     else if has_flag TUNE x then
       if decide (¬ in_range CInt (2 * in_period x)) then undef
       else schedule_push instance (time + 2 * in_period x)
     else schedule_push instance time) ;;
    mret result
  end.

Definition CloseInstance (instance : nat) : St Daemon unit :=
  update instance (set_enabled false) ;; Disable instance.

Definition DisableInstance (name : string) : St Daemon unit :=
  d ← get;
  match GetInstance name d with
  | None => mret tt
  | Some instance => update instance (set_enabled false) ;; Disable instance
  end.

(** ** Subscriptions *)

Definition set_topic (i t p : string) (b : bool) : St Daemon unit :=
  modify (λ d, set_topicState (put_topic i t p b (d_topicState d)) d).

Definition Subscribe (payload : list string) : St Daemon Result :=
  type ← deref (payload !! 0%nat);
  topic ← deref (GetTopicFromType type);
  d ← get;
  match GetInstance (instanceName topic) d with
  | None => mret (not_exist (instanceName topic))
  | Some instance =>
    x ← load instance;
    '(failed, result) ←
      (if in_enabled x then mret (false, Result0)
       else result ← EnableInstance (in_name x) (Utils.params topic);
            failed ← code_negative result; mret (failed, result));
    if failed : bool then mret result else
    ts ← gets d_topicState;
    let on := topic_on ts (instanceName topic) (topicName topic) (Utils.params topic) in
    set_topic (instanceName topic) (topicName topic) (Utils.params topic) on ;;
    '(failed, result) ←
      (if on then mret (false, result)
       else result ← OpenTopic instance topic;
            failed ← code_negative result;
            if failed : bool then DisableInstance (in_name x) ;; mret (true, result)
            else set_topic (instanceName topic) (topicName topic) (Utils.params topic) true ;;
                 mret (false, result));
    if failed : bool then mret result else
    subscriber ← deref (payload !! 1%nat);
    modify (λ d, set_subscibers
      (<[type := {[subscriber]} ∪ default ∅ (d_subscibers d !! type)]> (d_subscibers d)) d) ;;
    (if has_flag INSTANCE_RUN_ONCE x
     then modify (λ d, set_runOnce (d_runOnce d ++ [(topic, subscriber)]) d) else mret tt) ;;
    mret result
  end.

(** A loop that counts. *)
Fixpoint sum_each {S A} (l : list A) (body : A → St S Z) : St S Z :=
  match l with
  | [] => mret 0
  | x :: l => n ← body x; m ← sum_each l body; mret (n + m)
  end.

(** The innermost body of [UpdateInstance]: 1 when the topic stays open. *)
Definition UpdateTopic (i t p : string) : St Daemon Z :=
  d ← get;
  if topic_on (d_topicState d) i t p then
    match d_subscibers d !! ConcatS [i; t; p] with
    | Some _ => mret 1
    | None =>
      instance ← deref (GetInstance i d);
      CloseTopic instance (mkTopic i t p) ;;
      set_topic i t p false ;; mret 0
    end
  else mret 0.

(** The loops over one instance's topics. *)
Definition UpdateTopics (i : string) : St Daemon Z :=
  ts ← gets d_topicState;
  sum_each (hash_order (dom (topics_of ts i))) (λ t,
    sum_each (hash_order (dom (params_of ts i t))) (UpdateTopic i t)).

Definition UpdateEntry (i : string) : St Daemon unit :=
  cntTopic ← UpdateTopics i;
  if decide (cntTopic = 0) then
    d ← get;
    instance ← deref (GetInstance i d);
    x ← load instance;
    if in_enabled x then DisableInstance i else mret tt
  else mret tt.

Definition UpdateInstance : St Daemon unit :=
  ts ← gets d_topicState; for_each (hash_order (dom ts)) UpdateEntry.

(** [subscibers[type].erase(s)], and the entry when that empties it. *)
Definition erase_subscriber (type s : string) (ss : gmap string (gset string)) :
    gmap string (gset string) :=
  let X := default ∅ (ss !! type) ∖ {[s]} in
  if decide (X = ∅) then delete type ss else <[type := X]> ss.

Definition Unsubscribe (payload : list string) : St Daemon Result :=
  type ← deref (payload !! 0%nat);
  topic ← deref (GetTopicFromType type);
  subscriber ← deref (payload !! 1%nat);
  modify (λ d, set_subscibers (erase_subscriber type subscriber (d_subscibers d)) d) ;;
  UpdateInstance ;;
  mret Result0.

Definition UnsubscribeSdk (payload : list string) : St Daemon Result :=
  sdkFd ← deref (payload !! 0%nat);
  ss ← gets d_subscibers;
  for_each (hash_order (dom ss)) (λ type,
    ss ← gets d_subscibers;
    X ← deref (ss !! type : option (gset string));
    if decide (sdkFd ∈ X) then
      modify (set_subscibers (erase_subscriber type sdkFd ss)) ;; UpdateInstance
    else mret tt) ;;
  mret Result0.

(** ** Data *)

Definition Publish (payload : list string) : St Daemon Result :=
  bytes ← deref (payload !! 0%nat);
  '(_, dataList) ← on_string (DataListDeserialize reg) (bytes_of bytes);
  instanceName ← std_string (ct_instanceName (dl_topic dataList));
  topicName ← std_string (ct_topicName (dl_topic dataList));
  params ← std_string (ct_params (dl_topic dataList));
  let topic := mkTopic instanceName topicName params in
  d ← get;
  match GetInstance instanceName d with
  | None => mret (mkResult (Some FAILED)
              ("instance " +:+ instanceName +:+ " is not exist.")%string)
  | Some instance =>
    x ← load instance;
    if decide (topicName ≠ EmptyString ∧ topicName ∉ in_supportTopics x) then
      mret (mkResult (Some FAILED) ("topic " +:+ topicName +:+ " is not exist.")%string)
    else
    call (CallUpdateData instance dataList) ;;
    x ← load instance;
    result ← (if in_enabled x then mret None
              else result ← EnableInstance instanceName EmptyString;
                   failed ← code_negative result;
                   mret (if failed : bool then Some result else None));
    match result with
    | Some result => mret result
    | None =>
      result ← (if decide (topicName = EmptyString) then mret None
                else result ← OpenTopic instance topic;
                     failed ← code_negative result;
                     mret (if failed : bool then Some result else None));
      mret (default (mkResult (Some OK) EmptyString) result)
    end
  end.

(** A subscriber with a digit in its name is taken for a socket of the SDK. *)
Definition is_sdk (subscriber : string) : bool := existsb is_digit (bytes_of subscriber).

(** The type of the event that is queued is not initialised, and not read. *)
Definition DeliverData (type : string) (dataList : DataList) (subscriber : string) :
    St Daemon unit :=
  if is_sdk subscriber then
    out ← (λ d, match DataListSerialize reg dataList [] with
                | Ret (_, out) => Ret (out, d) | Throw e => Throw e | Undef => Undef end);
    modify (λ d, set_recvData
      (d_recvData d ++ [mkEvent DATA INTERNAL [subscriber; str_of out]]) d)
  else
    topic ← deref (GetTopicFromType type);
    d ← get;
    instance ← deref (GetInstance subscriber d);
    call (CallUpdateData instance dataList) ;; mret tt.

(** [subscibers[type]] makes an entry where there was none.  The data are
    freed at the end, which the model does not follow. *)
Definition PublishData (msg : RunMessage) : St Daemon unit :=
  type ← deref (rm_payload msg !! 0%nat);
  ss ← gets d_subscibers;
  let X := default ∅ (ss !! type) in
  modify (set_subscibers (<[type := X]> ss)) ;;
  for_each (hash_order X) (DeliverData type (rm_dataList msg)).

(** ** The loop *)

(** The [switch] of [HandleMessage]: what [msg->result] is at the end. *)
Definition handle (msg : RunMessage) : St Daemon Result :=
  match rm_type msg with
  | RT_ENABLED =>
    name ← deref (rm_payload msg !! 0%nat);
    params ← deref (rm_payload msg !! 1%nat);
    EnableInstance name params
  | RT_DISABLED | RT_DISABLED_FORCE =>
    name ← deref (rm_payload msg !! 0%nat); DisableInstance name ;; mret Result0
  | RT_SUBSCRIBE => Subscribe (rm_payload msg)
  | RT_UNSUBSCRIBE => Unsubscribe (rm_payload msg) ;; mret Result0
  | RT_UNSUBSCRIBE_SDK => UnsubscribeSdk (rm_payload msg) ;; mret Result0
  | RT_PUBLISH => Publish (rm_payload msg)
  | RT_PUBLISH_DATA => PublishData msg ;; mret Result0
  | RT_SHUTDOWN => mret Result0
  end.

(** Pops messages until the queue is empty or asks for a shutdown; [None]
    when [fuel] messages were handled and there are more. *)
Fixpoint HandleMessage (fuel : nat) : St Daemon (option bool) :=
  d ← get;
  match d_queue d with
  | [] => mret (Some true)
  | msg :: queue =>
    match fuel with
    | O => mret None
    | S fuel =>
      modify (set_queue queue) ;;
      handle msg ;;
      match rm_type msg with
      | RT_SHUTDOWN => mret (Some false)
      | _ => HandleMessage fuel
      end
    end
  end.

(** One round of the loop of [Schedule]; [true] when it is to go on. *)
Definition ScheduleRound : St Daemon bool :=
  d ← get;
  match d_schedule d with
  | [] => mret false
  | q =>
    let k := pq_top (d_heap d) q in
    s ← deref (q !! k);
    if decide (si_time s ≠ d_time d) then mret false else
    modify (set_schedule (remove_at k q)) ;;
    x ← load (si_instance s);
    if negb (in_enabled x) then mret true else
    call (CallRun (si_instance s)) ;;
    (if has_flag INSTANCE_RUN_ONCE x then CloseInstance (si_instance s)
     else schedule_push (si_instance s) (si_time s + in_period x)) ;;
    mret true
  end.

Fixpoint Schedule (fuel : nat) : St Daemon bool :=
  match fuel with
  | O => mret false
  | S fuel => more ← ScheduleRound; if more : bool then Schedule fuel else mret true
  end.

Definition defaultCycleSize : Z := 10.

Definition AddTime (period : Z) : St Daemon unit :=
  modify (λ d, set_time (wrap CUlong (d_time d + period)) d).

(** One round of [Start]: [Some false] once it quits, [None] without enough
    fuel. *)
Definition StartRound (fuel : nat) : St Daemon (option bool) :=
  r ← HandleMessage fuel;
  match r with
  | Some true =>
    fin ← Schedule fuel;
    if fin : bool then AddTime defaultCycleSize ;; mret (Some true) else mret None
  | r => mret r
  end.

(** The loop of [Start], cut after a number of rounds. *)
Fixpoint Start (rounds fuel : nat) : St Daemon unit :=
  match rounds with
  | O => mret tt
  | S rounds =>
    r ← StartRound fuel;
    match r with
    | Some true => Start rounds fuel
    | _ => mret tt
    end
  end.
End handler.
