(* ===== verification/InstanceRunLemmas.v ===== *)
(** * What the scheduler's operations keep

    The invariant of the daemon's objects, what a call into a plugin can
    change, and the effect of the shared pieces of the scheduler. *)

From Stdlib Require Import ZArith Lia Strings.Byte.
From stdpp Require Import base list strings gmap numbers.
From S2P Require Import Prelude Bytes Serialize StdString Utils DataTypes SecureC DataRegister.
From S2P Require Import Registry MessageProtocol Daemon InstanceRun.

(** ** The topic table *)

Section topic_table.
Lemma topic_on_put ts i t p b i' t' p' :
  topic_on (put_topic i t p b ts) i' t' p' =
  if decide (i = i' ∧ t = t' ∧ p = p') then b else topic_on ts i' t' p'.
Proof.
  unfold topic_on, put_topic.
  destruct (decide (i = i')) as [->|Hi].
  2:{ rewrite lookup_insert_ne by done. rewrite decide_False by (intros [? _]; done). done. }
  rewrite lookup_insert_eq. simpl.
  destruct (decide (t = t')) as [->|Ht].
  2:{ rewrite lookup_insert_ne by done. rewrite decide_False by (intros [_ [? _]]; done).
      by destruct (ts !! i'). }
  rewrite lookup_insert_eq. simpl.
  destruct (decide (p = p')) as [->|Hp].
  - rewrite lookup_insert_eq. by rewrite decide_True by done.
  - rewrite lookup_insert_ne by done. rewrite decide_False by (intros [_ [_ ?]]; done).
    destruct (ts !! i') as [m|]; simpl; [|done]. by destruct (m !! t').
Qed.

Lemma dom_put_topic ts i t p b : dom (put_topic i t p b ts) = {[i]} ∪ dom ts.
Proof. unfold put_topic. by rewrite dom_insert_L. Qed.

Lemma topic_on_dom ts i t p : topic_on ts i t p = true →
  i ∈ dom ts ∧ t ∈ dom (topics_of ts i) ∧ p ∈ dom (params_of ts i t).
Proof.
  unfold topic_on, params_of, topics_of. intros H.
  destruct (ts !! i) as [m|] eqn:E1; simpl in *; [|done].
  destruct (m !! t) as [m'|] eqn:E2; simpl in *; [|done].
  destruct (m' !! p) as [b|] eqn:E3; simpl in *; [|done].
  split_and!; by apply elem_of_dom_2 in E1, E2, E3.
Qed.
End topic_table.

(** A type string always splits into two names at least. *)
Section types.
Lemma split_go_occurs x y m cur : ∃ tok z,
  split_go sep 0 m cur (x ++ sep ++ y) = tok :: split_go sep 0 true [] (z ++ y).
Proof.
  revert cur. induction x as [|b x IH]; intros cur.
  { exists cur, []. by destruct y. }
  change ((b :: x) ++ sep ++ y) with (b :: (x ++ sep ++ y)). cbn [split_go].
  destruct (prefixb sep (b :: x ++ sep ++ y)) eqn:Hp; [|apply IH].
  destruct x as [|c x]; [by exists cur, [colon]|].
  exists cur, (x ++ sep). cbn. by rewrite <-app_assoc.
Qed.

Lemma SplitString_occurs2 x y z : ∃ a b l, SplitString (x ++ sep ++ y ++ sep ++ z) sep = a :: b :: l.
Proof.
  unfold SplitString. destruct (split_go_occurs x (y ++ sep ++ z) false []) as (a & w & ->).
  rewrite app_assoc. destruct (split_go_occurs (w ++ y) z true []) as (b & v & ->).
  by eexists _, _, _.
Qed.

Lemma GetTopicFromType_is_Some t : is_Some (GetTopicFromType (GetType t)).
Proof.
  destruct t as [i n p]. unfold GetTopicFromType, GetType, ConcatS, Concat.
  rewrite bytes_of_str_of. simpl Concat_loop. rewrite app_nil_r.
  change (bytes_of i ++ colon :: colon :: bytes_of n ++ colon :: colon :: bytes_of p)
    with (bytes_of i ++ sep ++ bytes_of n ++ sep ++ bytes_of p).
  destruct (SplitString_occurs2 (bytes_of i) (bytes_of n) (bytes_of p)) as (a & b & l & ->).
  by eexists.
Qed.
End types.

(** ** What an operation leaves alone *)

(** What the constructor of an instance fixes. *)
Definition static (x : Instance) : string * string * bool * gset string * Z * Z * Z :=
  (in_name x, in_pluginName x, in_state x, in_supportTopics x, in_type x, in_priority x,
   in_period x).

(** Everything but the instances' own state, the topic table, and what plugin
    calls leave behind. *)
Definition rest (d : Daemon) :=
  (static <$> d_heap d, d_instances d, d_plugins d, d_schedule d, d_subscibers d,
   d_runOnce d, d_time d, d_recvData d).

Definition enabled_map (d : Daemon) : gmap nat bool := in_enabled <$> d_heap d.

Definition types_ok (d : Daemon) : Prop :=
  ∀ i x ty, d_heap d !! i = Some x → ty ∈ in_openTopics x → is_Some (GetTopicFromType ty).

(** An operation that at most calls plugins and opens or closes topics. *)
Definition quiet (d d' : Daemon) : Prop :=
  rest d' = rest d ∧ enabled_map d' = enabled_map d ∧
  d_topicState d' = d_topicState d ∧ (types_ok d → types_ok d').

(** The tables and the queue point to objects, and the tables by their names. *)
Definition store_ok (d : Daemon) : Prop :=
  ∀ n i, d_instances d !! n = Some i → ∃ x, d_heap d !! i = Some x ∧ in_name x = n.
Definition sched_ok (d : Daemon) : Prop :=
  ∀ s, s ∈ d_schedule d → is_Some (d_heap d !! si_instance s).
(** Every instance with an entry in the topic table is loaded. *)
Definition known_ok (d : Daemon) : Prop := dom (d_topicState d) ⊆ dom (d_instances d).

Definition daemon_ok (d : Daemon) : Prop :=
  store_ok d ∧ sched_ok d ∧ known_ok d ∧ types_ok d.

Section quiet.
Lemma quiet_refl d : quiet d d.
Proof. done. Qed.
Lemma quiet_trans d1 d2 d3 : quiet d1 d2 → quiet d2 d3 → quiet d1 d3.
Proof. unfold quiet. intros (? & ? & ? & ?) (? & ? & ? & ?). split_and!; [congruence..|auto]. Qed.

Lemma static_lookup d d' i x :
  static <$> d_heap d' = static <$> d_heap d → d_heap d !! i = Some x →
  ∃ x', d_heap d' !! i = Some x' ∧ static x' = static x.
Proof.
  intros E Hx. apply (f_equal (lookup i)) in E. rewrite !lookup_fmap, Hx in E. simpl in E.
  destruct (d_heap d' !! i) as [x'|]; simpl in E; [|done]. exists x'. split; [done|congruence].
Qed.

Lemma store_ok_static d d' :
  static <$> d_heap d' = static <$> d_heap d → d_instances d' = d_instances d →
  store_ok d → store_ok d'.
Proof.
  intros E Ei Hs n i Hi. rewrite Ei in Hi. apply Hs in Hi as (x & Hx & Hn).
  destruct (static_lookup d d' i x E Hx) as (x' & Hx' & Es). exists x'.
  split; [done|]. unfold static in Es. congruence.
Qed.

Lemma sched_ok_static d d' :
  static <$> d_heap d' = static <$> d_heap d → d_schedule d' = d_schedule d →
  sched_ok d → sched_ok d'.
Proof.
  intros E Ei Hs s Hi. rewrite Ei in Hi. apply Hs in Hi as (x & Hx).
  destruct (static_lookup d d' _ x E Hx) as (x' & Hx' & _). by exists x'.
Qed.

Lemma rest_ok d d' :
  rest d' = rest d → dom (d_topicState d') ⊆ dom (d_topicState d) →
  (types_ok d → types_ok d') → daemon_ok d → daemon_ok d'.
Proof.
  unfold rest. intros E Hd Ht (? & ? & Hk & ?). simplify_eq E. intros.
  split_and!; [by eapply store_ok_static|by eapply sched_ok_static| |by auto].
  unfold known_ok in *. replace (d_instances d') with (d_instances d). set_solver.
Qed.

Lemma quiet_ok d d' : quiet d d' → daemon_ok d → daemon_ok d'.
Proof. intros (? & ? & E & ?). apply rest_ok; [done|by rewrite E|done]. Qed.

Lemma store_ok_inj d n m i :
  store_ok d → d_instances d !! n = Some i → d_instances d !! m = Some i → n = m.
Proof.
  intros Hs Hn Hm. apply Hs in Hn as (x & Hx & <-), Hm as (y & Hy & <-). congruence.
Qed.
End quiet.

(** ** Calls into plugins *)

Section calls.
Context `{PC : PluginCode} `{HO : HashOrder}.

Lemma call_twp c Q d :
  (∀ code payload q l, call_result (d_calls d ++ [c]) = (code, payload) →
    Q (mkResult (Some code) payload) (set_calls q l d)) →
  twp (call c) Q d.
Proof.
  intros HQ. unfold call. apply twp_bind, twp_modify, twp_bind, twp_get. simpl.
  destruct (call_result (d_calls d ++ [c])) as [code payload] eqn:E.
  by apply twp_ret, HQ.
Qed.

Lemma quiet_calls q l d : quiet d (set_calls q l d).
Proof. done. Qed.

Lemma call_quiet c d : twp (call c) (λ r d', quiet d d' ∧ d_heap d' = d_heap d ∧
  is_Some (r_code r)) d.
Proof. apply call_twp. intros. split_and!; [apply quiet_calls|done|by eexists]. Qed.

Lemma load_twp i x Q d : d_heap d !! i = Some x → Q x d → twp (load i) Q d.
Proof. intros Hx HQ. unfold load. apply twp_bind, twp_get. by rewrite Hx. Qed.

Lemma update_twp i f x (Q : unit → Daemon → Prop) d :
  d_heap d !! i = Some x → Q tt (set_heap (<[i := f x]> (d_heap d)) d) →
  twp (update i f) Q d.
Proof.
  intros Hx HQ. unfold update. apply twp_bind. by eapply load_twp, twp_modify.
Qed.

(** Opening or closing topics of an object. *)
Lemma quiet_openTopics i x f d :
  d_heap d !! i = Some x →
  (∀ ty, ty ∈ f (in_openTopics x) → ty ∈ in_openTopics x ∨ is_Some (GetTopicFromType ty)) →
  quiet d (set_heap (<[i := set_openTopics f x]> (d_heap d)) d).
Proof.
  intros Hx Hf. unfold quiet, rest, enabled_map. simpl. rewrite !fmap_insert.
  change (static (set_openTopics f x)) with (static x).
  change (in_enabled (set_openTopics f x)) with (in_enabled x).
  rewrite !insert_id by (by rewrite lookup_fmap, Hx). split_and!; [done..|].
  intros Ht j y ty Hj Hty. simpl in Hj. apply lookup_insert_Some in Hj as [[<- <-]|[_ Hj]].
  - simpl in Hty. apply Hf in Hty as [|]; [by eapply Ht|done].
  - by eapply Ht.
Qed.

Lemma OpenTopic_quiet i x topic d :
  d_heap d !! i = Some x →
  twp (OpenTopic i topic) (λ r d', quiet d d' ∧ is_Some (r_code r)) d.
Proof.
  intros Hx. unfold OpenTopic. apply twp_bind.
  eapply twp_mono; [apply call_quiet|]. intros r d1 (Hq & Hh & Hc). cbn beta.
  case_decide; apply twp_bind.
  - eapply update_twp; [by rewrite Hh|]. apply twp_ret. split; [|done].
    eapply quiet_trans; [done|]. apply quiet_openTopics; [by rewrite Hh|].
    intros ty. rewrite elem_of_union, elem_of_singleton.
    intros [->|?]; [right; apply GetTopicFromType_is_Some|by left].
  - by apply twp_ret, twp_ret.
Qed.

Lemma CloseTopic_quiet i x topic d :
  d_heap d !! i = Some x → twp (CloseTopic i topic) (λ _ d', quiet d d') d.
Proof.
  intros Hx. unfold CloseTopic. apply twp_bind.
  eapply twp_mono; [apply call_quiet|]. intros r d1 (Hq & Hh & Hc).
  eapply update_twp; [by rewrite Hh|]. eapply quiet_trans; [done|].
  apply quiet_openTopics; [by rewrite Hh|]. set_solver.
Qed.

Lemma Disable_quiet i x d :
  types_ok d → d_heap d !! i = Some x →
  twp (Disable i) (λ _ d', quiet d d' ∧ d_heap d' = d_heap d) d.
Proof.
  intros Ht Hx. unfold Disable. apply twp_bind, (load_twp _ x); [done|]. apply twp_bind.
  eapply twp_mono; [apply (twp_for_each _ _ (λ d', quiet d d' ∧ d_heap d' = d_heap d)); [done|]|].
  - intros ty d1 Hty [Hq Hh]. rewrite elem_of_hash_order in Hty.
    destruct (Ht i x ty Hx Hty) as [topic ->]. apply twp_bind, twp_ret, twp_bind.
    eapply twp_mono; [apply call_quiet|]. intros r d2 (Hq2 & Hh2 & _). apply twp_ret.
    split; [by eapply quiet_trans|congruence].
  - intros ? d1 [Hq Hh]. cbn beta. apply twp_bind. eapply twp_mono; [apply call_quiet|].
    intros r d2 (Hq2 & Hh2 & _). apply twp_ret. split; [by eapply quiet_trans|congruence].
Qed.
End calls.

(** ** Enabling and disabling *)

(** Like [quiet], but the named object's [enabled] is now [b]. *)
Definition switches (i : nat) (b : bool) (d d' : Daemon) : Prop :=
  rest d' = rest d ∧ enabled_map d' = <[i := b]> (enabled_map d) ∧
  d_topicState d' = d_topicState d ∧ (types_ok d → types_ok d').

Section switching.
Context `{PC : PluginCode} `{HO : HashOrder}.

Lemma switches_quiet i b d1 d2 d3 : switches i b d1 d2 → quiet d2 d3 → switches i b d1 d3.
Proof.
  unfold switches, quiet. intros (? & ? & ? & ?) (? & ? & ? & ?).
  split_and!; [congruence..|auto].
Qed.

Lemma quiet_switches i b d1 d2 d3 : quiet d1 d2 → switches i b d2 d3 → switches i b d1 d3.
Proof.
  unfold switches, quiet. intros (? & E & ? & ?) (? & ? & ? & ?). rewrite E in *.
  split_and!; [congruence..|auto].
Qed.

Lemma switches_ok i b d d' : switches i b d d' → daemon_ok d → daemon_ok d'.
Proof. intros (? & _ & E & ?). apply rest_ok; [done|by rewrite E|done]. Qed.

Lemma set_enabled_switches i x b d :
  d_heap d !! i = Some x →
  switches i b d (set_heap (<[i := set_enabled b x]> (d_heap d)) d).
Proof.
  intros Hx. unfold switches, rest, enabled_map. simpl. rewrite !fmap_insert.
  change (static (set_enabled b x)) with (static x). simpl.
  rewrite insert_id by (by rewrite lookup_fmap, Hx). split_and!; [done..|].
  intros Ht j y ty Hj Hty. simpl in Hj. apply lookup_insert_Some in Hj as [[<- <-]|[_ Hj]].
  - by apply (Ht i x).
  - by eapply Ht.
Qed.

Lemma CloseInstance_switches i x d :
  types_ok d → d_heap d !! i = Some x →
  twp (CloseInstance i) (λ _ d', switches i false d d') d.
Proof.
  intros Ht Hx. unfold CloseInstance. apply twp_bind. eapply update_twp; [done|].
  pose proof (set_enabled_switches i x false d Hx) as Hs.
  eapply twp_mono; [eapply Disable_quiet; [by apply Hs|by simpl; rewrite lookup_insert_eq]|].
  intros ? d2 [Hq _]. by eapply switches_quiet.
Qed.

Lemma DisableInstance_switches n i d :
  daemon_ok d → d_instances d !! n = Some i →
  twp (DisableInstance n) (λ _ d', switches i false d d') d.
Proof.
  intros (Hs & _ & _ & Ht) Hi. destruct (Hs n i Hi) as (x & Hx & _).
  unfold DisableInstance. apply twp_bind, twp_get. unfold GetInstance. rewrite Hi.
  by apply (CloseInstance_switches i x).
Qed.
End switching.

(** ** [UpdateInstance] *)

Lemma twp_sum_each {S A} (l : list A) (body : A → St S Z) (I : list A → Z → S → Prop) s :
  I [] 0 s →
  (∀ l1 x l2 n s, l = l1 ++ x :: l2 → I l1 n s →
    twp (body x) (λ m s', I (l1 ++ [x]) (n + m) s') s) →
  twp (sum_each l body) (λ n s', I l n s') s.
Proof.
  intros Hs Hb. assert (∀ l2 l1 n s, l = l1 ++ l2 → I l1 n s →
    twp (sum_each l2 body) (λ m s', I l (n + m) s') s) as H.
  { induction l2 as [|x l2 IH]; intros l1 n s' Hl HI; simpl.
    { apply twp_ret. rewrite Z.add_0_r. by rewrite app_nil_r in Hl; subst. }
    apply twp_bind. eapply twp_mono; [by eapply Hb|]. cbn beta. intros m s'' HI'.
    apply twp_bind. eapply twp_mono; [apply (IH (l1 ++ [x])); [|done]|].
    { by rewrite Hl, <-app_assoc. }
    cbn beta. intros m' s3 HI3. apply twp_ret. by rewrite Z.add_assoc. }
  by apply (H l [] 0).
Qed.

(** The type string of a topic, and whether it has an entry in the table of
    subscribers. *)
Definition has_entry (ss : gmap string (gset string)) (i t p : string) : bool :=
  bool_decide (is_Some (ss !! ConcatS [i; t; p])).

(** The topics of [vis] were visited: the open ones without an entry are
    closed, and [n] counts those that stay open. *)
Definition visited (d0 : Daemon) (vis : list (string * string * string)) (n : Z)
    (d : Daemon) : Prop :=
  rest d = rest d0 ∧ enabled_map d = enabled_map d0 ∧ (types_ok d0 → types_ok d) ∧
  dom (d_topicState d) = dom (d_topicState d0) ∧
  (∀ i t p, topic_on (d_topicState d) i t p =
    topic_on (d_topicState d0) i t p &&
    (has_entry (d_subscibers d0) i t p || bool_decide ((i, t, p) ∉ vis))) ∧
  0 ≤ n ∧
  (n = 0 ↔ ∀ i t p, (i, t, p) ∈ vis → topic_on (d_topicState d) i t p = false).

Section update_instance.
Context `{PC : PluginCode} `{HO : HashOrder}.

Lemma visited_nil d : visited d [] 0 d.
Proof.
  unfold visited. split_and!; try done.
  - intros. rewrite bool_decide_true by set_solver. by rewrite orb_true_r, andb_true_r.
  - split; [|done]. intros _ i t p Hin. by apply not_elem_of_nil in Hin.
Qed.

Lemma visited_ok d0 vis n d : visited d0 vis n d → daemon_ok d0 → daemon_ok d.
Proof.
  intros (Hr & _ & Ht & Hd & _). apply rest_ok; [done| |done]. by rewrite Hd.
Qed.

(** A visit that closes nothing. *)
Lemma visited_skip d0 vis n d i t p :
  visited d0 vis n d →
  (topic_on (d_topicState d) i t p = false ∨ has_entry (d_subscibers d0) i t p = true) →
  visited d0 (vis ++ [(i, t, p)])
    (n + if topic_on (d_topicState d) i t p then 1 else 0) d.
Proof.
  intros (Hr & He & Ht & Hd & Hon & Hn & Hz) Hcase. unfold visited. split_and!; try done.
  - intros i' t' p'. rewrite Hon. specialize (Hon i t p).
    destruct (decide ((i', t', p') = (i, t, p))) as [[= -> -> ->]|Hne].
    + rewrite (bool_decide_false ((i, t, p) ∉ vis ++ _)) by set_solver.
      destruct Hcase as [Hc|Hc]; [|by rewrite Hc].
      rewrite Hc in Hon. destruct (topic_on (d_topicState d0) i t p); [|done].
      simpl in *. by destruct (has_entry _ i t p).
    + do 2 f_equal. apply bool_decide_ext. set_solver.
  - destruct (topic_on _ i t p); lia.
  - destruct (topic_on (d_topicState d) i t p) eqn:E.
    + split; [lia|]. intros Hf. rewrite Hf in E by set_solver. done.
    + rewrite Z.add_0_r, Hz. split; [|intros Hf i' t' p' Hin; apply Hf; set_solver].
      intros Hf i' t' p' [Hin|Hin%list_elem_of_singleton]%elem_of_app; [by apply Hf|].
      by injection Hin as -> -> ->.
Qed.

Lemma UpdateTopic_twp d0 vis n d i t p :
  daemon_ok d0 → i ∈ dom (d_topicState d0) → visited d0 vis n d →
  twp (UpdateTopic i t p) (λ m d', visited d0 (vis ++ [(i, t, p)]) (n + m) d') d.
Proof.
  intros Hok Hi Hv. pose proof (visited_ok _ _ _ _ Hv Hok) as Hokd.
  pose proof Hv as (Hr & He & Ht & Hd & Hon & Hn & Hz).
  assert (d_subscibers d = d_subscibers d0) as Ess by (unfold rest in Hr; by simplify_eq Hr).
  unfold UpdateTopic. apply twp_bind, twp_get.
  destruct (topic_on (d_topicState d) i t p) eqn:E.
  2:{ apply twp_ret. pose proof (visited_skip _ _ _ _ i t p Hv (or_introl E)) as H.
      by rewrite E in H. }
  rewrite Ess. destruct (d_subscibers d0 !! _) as [X|] eqn:EX.
  { apply twp_ret. pose proof (visited_skip _ _ _ _ i t p Hv) as H.
    rewrite E in H. apply H. right. apply bool_decide_true. by rewrite EX. }
  destruct Hokd as (Hs & _ & Hk & _).
  assert (is_Some (d_instances d !! i)) as [j Hj].
  { apply elem_of_dom, Hk. by rewrite Hd. }
  destruct (Hs i j Hj) as (x & Hx & _).
  apply twp_bind. unfold GetInstance. rewrite Hj. apply twp_ret, twp_bind.
  eapply twp_mono; [by apply (CloseTopic_quiet j x)|].
  intros ? d1 (Hr1 & He1 & Hts1 & Ht1). cbn beta. apply twp_bind, twp_modify, twp_ret.
  unfold visited. change (rest (set_topicState ?ts d1)) with (rest d1).
  change (enabled_map (set_topicState ?ts d1)) with (enabled_map d1).
  change (types_ok (set_topicState ?ts d1)) with (types_ok d1).
  cbn [d_topicState set_topicState]. rewrite Hts1, dom_put_topic, Z.add_0_r.
  assert (∀ i' t' p', topic_on (put_topic i t p false (d_topicState d)) i' t' p' =
    topic_on (d_topicState d) i' t' p' && bool_decide ((i', t', p') ≠ (i, t, p))) as Hput.
  { intros i' t' p'. rewrite topic_on_put. case_decide as Hc.
    - destruct Hc as (-> & -> & ->). by rewrite bool_decide_false, andb_false_r by (intros H; by apply H).
    - rewrite bool_decide_true, andb_true_r by (intros [= -> -> ->]; by apply Hc). done. }
  split_and!; [congruence|congruence|auto|rewrite Hd; set_solver| |done|].
  - intros i' t' p'. rewrite Hput, Hon, <-andb_assoc. f_equal.
    destruct (decide ((i', t', p') = (i, t, p))) as [[= -> -> ->]|Hne].
    + rewrite (bool_decide_false (_ ≠ _)), andb_false_r by (intros H; by apply H).
      rewrite bool_decide_false by set_solver. unfold has_entry.
      rewrite bool_decide_false; [done|]. rewrite EX. by intros [? [=]].
    + rewrite (bool_decide_true (_ ≠ _)), andb_true_r by done.
      f_equal. apply bool_decide_ext. set_solver.
  - rewrite Hz. split.
    + intros Hf i' t' p' Hin. rewrite Hput.
      destruct (decide ((i', t', p') = (i, t, p))) as [Heq|Hne].
      * rewrite bool_decide_false, andb_false_r by (intros H; by apply H). done.
      * rewrite Hf; [done|]. set_solver.
    + intros Hf i' t' p' Hin. destruct (decide ((i', t', p') = (i, t, p))) as [[= -> -> ->]|Hne].
      * exfalso. rewrite Hon in E. apply andb_true_iff in E as [_ E].
        apply orb_true_iff in E as [E|E].
        -- unfold has_entry in E. apply bool_decide_eq_true in E. rewrite EX in E.
           by destruct E as [? [=]].
        -- apply bool_decide_eq_true in E. done.
      * specialize (Hf i' t' p' ltac:(set_solver)). rewrite Hput in Hf.
        by rewrite bool_decide_true, andb_true_r in Hf by done.
Qed.
End update_instance.

(** ** [UpdateInstance] closes what nobody subscribes to

    Every open topic without an entry in the table of subscribers is closed,
    every other topic stays as it is, and an instance is disabled exactly when
    none of its topics stays open. *)

(** What one instance's visit does: [c] is the number of topics left open. *)
Definition topics_done (d0 : Daemon) (i : string) (c : Z) (d : Daemon) : Prop :=
  rest d = rest d0 ∧ enabled_map d = enabled_map d0 ∧ (types_ok d0 → types_ok d) ∧
  dom (d_topicState d) = dom (d_topicState d0) ∧
  (∀ j t p, topic_on (d_topicState d) j t p =
    topic_on (d_topicState d0) j t p &&
    (has_entry (d_subscibers d0) j t p || bool_decide (j ≠ i))) ∧
  (c = 0 ↔ ∀ t p, topic_on (d_topicState d) i t p = false).

(** The whole loop, the instances of [l] being done. *)
Definition entries_done (d0 : Daemon) (l : list string) (d : Daemon) : Prop :=
  rest d = rest d0 ∧ (types_ok d0 → types_ok d) ∧
  dom (d_topicState d) = dom (d_topicState d0) ∧
  (∀ j t p, topic_on (d_topicState d) j t p =
    topic_on (d_topicState d0) j t p &&
    (has_entry (d_subscibers d0) j t p || bool_decide (j ∉ l))) ∧
  (∀ n j, d_instances d0 !! n = Some j → n ∈ l →
    (∀ t p, topic_on (d_topicState d) n t p = false) → enabled_map d !! j = Some false) ∧
  (∀ j, (∀ n, d_instances d0 !! n = Some j → n ∈ l →
          ∃ t p, topic_on (d_topicState d) n t p = true) →
    enabled_map d !! j = enabled_map d0 !! j).

Section loops.
Context `{PC : PluginCode} `{HO : HashOrder}.

Lemma UpdateTopics_twp d i :
  daemon_ok d → i ∈ dom (d_topicState d) →
  twp (UpdateTopics i) (topics_done d i) d.
Proof.
  intros Hok Hi. unfold UpdateTopics. apply twp_bind, twp_gets.
  set (ts := d_topicState d).
  eapply twp_mono.
  { apply (twp_sum_each _ _ (λ l n d', ∃ vis, visited d vis n d' ∧
      ∀ j t p, (j, t, p) ∈ vis ↔ j = i ∧ t ∈ l ∧ p ∈ dom (params_of ts i t))).
    { exists []. split; [apply visited_nil|]. set_solver. }
    intros l1 t l2 n d1 Hl (vis & Hv & Hvis).
    eapply twp_mono.
    { apply (twp_sum_each _ _ (λ lp m d', visited d (vis ++ map (λ p, (i, t, p)) lp) (n + m) d')).
      { by rewrite app_nil_r, Z.add_0_r. }
      intros lp1 p lp2 m d2 Hlp Hv2. rewrite map_app, app_assoc. simpl.
      eapply twp_mono; [by eapply (UpdateTopic_twp d)|]. intros m' d3. cbn beta.
      by rewrite Z.add_assoc. }
    cbn beta. intros m d2 Hv2. eexists. split; [done|]. intros j t' p.
    rewrite elem_of_app, Hvis, list_elem_of_fmap. setoid_rewrite elem_of_hash_order.
    split.
    - intros [(-> & Ht & Hp)|(p' & [= -> -> ->] & Hp)]; set_solver.
    - intros (-> & [Ht|Ht%list_elem_of_singleton]%elem_of_app & Hp); [by left|].
      subst t'. right. by exists p. }
  cbn beta. intros c d' (vis & (Hr & He & Ht & Hd & Hon & Hn & Hz) & Hvis).
  assert (∀ t p, topic_on ts i t p = true → (i, t, p) ∈ vis) as Hcov.
  { intros t p Htp. apply topic_on_dom in Htp as (_ & Htd & Hpd).
    rewrite Hvis, elem_of_hash_order. done. }
  split_and!; try done.
  - intros j t p. rewrite Hon. destruct (decide (j = i)) as [->|Hj].
    + rewrite (bool_decide_false (i ≠ i)) by (intros Hne; by apply Hne).
      fold ts. destruct (topic_on ts i t p) eqn:E; [|done].
      by rewrite bool_decide_false by (intros Hnin; by apply Hnin, Hcov).
    + rewrite (bool_decide_true (j ≠ i)) by done.
      rewrite bool_decide_true; [done|]. rewrite Hvis. by intros [-> _].
  - rewrite Hz. split; [|by intros Hf j t p (-> & _)%Hvis].
    intros Hf t p. destruct (topic_on (d_topicState d') i t p) eqn:E; [|done].
    rewrite <-E. apply Hf, Hcov. rewrite Hon in E. by apply andb_true_iff in E as [? _].
Qed.

Lemma entries_done_ok d0 l d : entries_done d0 l d → daemon_ok d0 → daemon_ok d.
Proof.
  intros (Hr & Ht & Hd & _). apply rest_ok; [done| |done]. by rewrite Hd.
Qed.

(** The topic table after one more instance. *)
Lemma entries_topics d0 l d i d1 c :
  entries_done d0 l d → topics_done d i c d1 →
  ∀ j t p, topic_on (d_topicState d1) j t p =
    topic_on (d_topicState d0) j t p &&
    (has_entry (d_subscibers d0) j t p || bool_decide (j ∉ l ++ [i])).
Proof.
  intros (Hr & _ & _ & Hon & _) (_ & _ & _ & _ & Hon1 & _) j t p.
  assert (d_subscibers d = d_subscibers d0) as Ess by (unfold rest in Hr; by simplify_eq Hr).
  rewrite Hon1, Hon, Ess. destruct (topic_on (d_topicState d0) j t p); [|done].
  destruct (has_entry _ j t p); [done|]. simpl.
  destruct (decide (j = i)) as [->|Hj].
  - rewrite (bool_decide_false (i ≠ i)), andb_false_r by (intros H; by apply H).
    by rewrite bool_decide_false by set_solver.
  - rewrite (bool_decide_true (j ≠ i)), andb_true_r by done.
    apply bool_decide_ext. set_solver.
Qed.

Lemma UpdateEntry_twp d0 l i d :
  daemon_ok d0 → i ∈ dom (d_topicState d0) → i ∉ l → entries_done d0 l d →
  twp (UpdateEntry i) (λ _, entries_done d0 (l ++ [i])) d.
Proof.
  intros Hok0 Hi Hl He. pose proof (entries_done_ok _ _ _ He Hok0) as Hok.
  pose proof He as (Hr & Hty & Hd & Hon & Hoff & Hsame).
  unfold UpdateEntry. apply twp_bind.
  eapply twp_mono; [apply UpdateTopics_twp; [done|by rewrite Hd]|].
  intros c d1 Hdone. cbn beta. pose proof (entries_topics _ _ _ _ _ _ He Hdone) as Hon1.
  pose proof Hdone as (Hr1 & He1 & Ht1 & Hd1 & Hon1' & Hc).
  assert (daemon_ok d1) as Hok1.
  { eapply (rest_ok d); [done|by rewrite Hd1|done|done]. }
  assert (d_instances d1 = d_instances d0) as Ei.
  { unfold rest in Hr, Hr1. simplify_eq Hr. simplify_eq Hr1. congruence. }
  assert (is_Some (d_instances d0 !! i)) as [k Hk].
  { apply elem_of_dom. destruct Hok0 as (_ & _ & Hkn & _). by apply Hkn. }
  (* the topics of the instances done before are not touched *)
  assert (∀ n t p, n ∈ l → topic_on (d_topicState d1) n t p = topic_on (d_topicState d) n t p)
    as Hkeep.
  { intros n t p Hn. rewrite Hon1'. rewrite (bool_decide_true (n ≠ i)) by set_solver.
    by rewrite orb_true_r, andb_true_r. }
  assert (∀ d', rest d' = rest d1 → (types_ok d1 → types_ok d') →
    d_topicState d' = d_topicState d1 →
    (enabled_map d' = enabled_map d1 ∧ c ≠ 0 ∨ enabled_map d' = <[k := false]> (enabled_map d1) ∧ c = 0 ∨
     enabled_map d' = enabled_map d1 ∧ c = 0 ∧ enabled_map d1 !! k = Some false) →
    entries_done d0 (l ++ [i]) d') as Hfin.
  { intros d' Hr' Ht' Hts' Hcase. unfold entries_done. rewrite Hts'.
    split_and!; [congruence|auto|congruence|done| |].
    - intros n j Hj [Hn|Hn%list_elem_of_singleton]%elem_of_app Hclosed.
      + assert (n ≠ i) by set_solver.
        assert (enabled_map d !! j = Some false) as Hjf.
        { apply (Hoff n j Hj Hn). intros t p. rewrite <-Hkeep by done. apply Hclosed. }
        destruct Hcase as [[-> _]|[[-> _]|[-> _]]]; rewrite ?He1; [done| |done].
        destruct (decide (j = k)) as [->|]; [apply lookup_insert_eq|].
        by rewrite lookup_insert_ne.
      + subst n. rewrite Hk in Hj. injection Hj as <-. apply Hc in Hclosed.
        destruct Hcase as [[_ ?]|[[-> _]|(-> & _ & ?)]]; [done|apply lookup_insert_eq|done].
    - intros j Hlive. assert (enabled_map d !! j = enabled_map d0 !! j) as Ej.
      { apply Hsame. intros n Hn Hin. destruct (Hlive n Hn) as (t & p & Htp); [set_solver|].
        exists t, p. by rewrite <-Hkeep. }
      destruct Hcase as [[-> _]|[[-> Hc0]|(-> & _ & _)]]; rewrite He1; [done| |done].
      destruct (decide (j = k)) as [->|]; [|by rewrite lookup_insert_ne].
      exfalso. destruct (Hlive i Hk) as (t & p & Htp); [set_solver|].
      rewrite (proj1 Hc Hc0) in Htp. done. }
  case_decide as Hc0; [|apply twp_ret, Hfin; by auto].
  apply twp_bind, twp_get, twp_bind. unfold GetInstance. rewrite Ei, Hk.
  apply twp_ret, twp_bind. destruct Hok1 as (Hs1 & Hok1').
  destruct (Hs1 i k) as (x & Hx & _); [by rewrite Ei|].
  apply (load_twp _ x); [done|]. destruct (in_enabled x) eqn:Ex.
  - eapply twp_mono; [eapply DisableInstance_switches; [by split|by rewrite Ei]|].
    intros ? d2 (Hr2 & He2 & Hts2 & Ht2). apply Hfin; auto.
  - apply twp_ret, Hfin; auto. right. right. split_and!; [done..|].
    unfold enabled_map. by rewrite lookup_fmap, Hx, <-Ex.
Qed.

Lemma UpdateInstance_twp d :
  daemon_ok d →
  twp UpdateInstance (λ _, entries_done d (hash_order (dom (d_topicState d)))) d.
Proof.
  intros Hok. unfold UpdateInstance. apply twp_bind, twp_gets.
  apply (twp_for_each_idx _ _ (entries_done d)).
  - unfold entries_done. split_and!; try done.
    + intros. rewrite bool_decide_true, orb_true_r, andb_true_r by set_solver. done.
    + intros n j _ Hin. by apply not_elem_of_nil in Hin.
  - intros l1 i l2 d1 Hl He. apply UpdateEntry_twp; [done| | |done].
    + rewrite <-elem_of_hash_order, Hl. set_solver.
    + pose proof (NoDup_hash_order (dom (d_topicState d))) as Hnd. rewrite Hl in Hnd.
      apply list.NoDup_app in Hnd as (_ & Hnd & _). intros Hin. apply (Hnd i Hin). set_solver.
Qed.
End loops.
