(* ===== verification/Subscriptions.v ===== *)
(** * Subscriptions

    The abstract view of the scheduler's tables is a relation: which
    subscriber is subscribed to which type.  Each message of
    [InstanceRunHandler] is shown to act on that relation as a one-line
    specification says, and to keep the invariant that ties the relation to
    the open topics: a topic is open exactly when somebody subscribes to it. *)

From Stdlib Require Import ZArith Lia Strings.Byte.
From stdpp Require Import base list strings gmap numbers.
From S2P Require Import Prelude Bytes Serialize StdString Utils DataTypes SecureC DataRegister.
From S2P Require Import RoundTrip Registry MessageProtocol Daemon InstanceRun InstanceRunLemmas.

(** ** The specification *)

Definition subscribed (d : Daemon) (ty s : string) : Prop :=
  ∃ X, d_subscibers d !! ty = Some X ∧ s ∈ X.

Definition failed (r : Result) : bool :=
  match r_code r with Some c => bool_decide (c < 0) | None => false end.

(** What a message with result [r] does to the relation. *)
Definition spec (msg : RunMessage) (r : Result) (R : string → string → Prop)
    (ty s : string) : Prop :=
  match rm_type msg, rm_payload msg with
  | RT_SUBSCRIBE, [ty'; s'] => R ty s ∨ (failed r = false ∧ ty = ty' ∧ s = s')
  | RT_UNSUBSCRIBE, [ty'; s'] => R ty s ∧ ¬ (ty = ty' ∧ s = s')
  | RT_UNSUBSCRIBE_SDK, [s'] => R ty s ∧ s ≠ s'
  | _, _ => R ty s
  end.

(** ** The invariant *)

(** A type string that names its topic exactly. *)
Definition canonical (ty : string) : Prop :=
  ∃ topic, GetTopicFromType ty = Some topic ∧ GetType topic = ty.

Definition periods_ok (d : Daemon) : Prop :=
  ∀ i x, d_heap d !! i = Some x → in_range CInt (2 * in_period x).

(** A subscriber that data can be delivered to. *)
Definition deliverable (d : Daemon) (s : string) : Prop :=
  is_sdk s = true ∨ s ∈ dom (d_instances d).

Definition is_open (d : Daemon) (topic : Topic) : Prop :=
  topic_on (d_topicState d) (instanceName topic) (topicName topic) (Utils.params topic) = true.

(** Types of subscriptions split into a topic, subscribers can be reached, and
    the open topics are those somebody is subscribed to. *)
Definition sub_inv (d : Daemon) : Prop :=
  daemon_ok d ∧ periods_ok d ∧
  (∀ ty, ty ∈ dom (d_subscibers d) → ∃ topic, GetTopicFromType ty = Some topic) ∧
  (∀ ty s, subscribed d ty s → canonical ty ∧ deliverable d s) ∧
  (∀ topic, is_open d topic ↔
     GetTopicFromType (GetType topic) = Some topic ∧ ∃ s, subscribed d (GetType topic) s).

(** ** Operations that leave the subscriptions alone *)

Definition core (d : Daemon) :=
  (static <$> d_heap d, d_instances d, d_plugins d, d_time d).

(** The same topics are open; entries for closed ones may have been made. *)
Definition same_topics (d d' : Daemon) : Prop :=
  (∀ i t p, topic_on (d_topicState d') i t p = topic_on (d_topicState d) i t p) ∧
  dom (d_topicState d') ⊆ dom (d_topicState d) ∪ dom (d_instances d).

Definition evolves (d d' : Daemon) : Prop :=
  core d' = core d ∧ d_subscibers d' = d_subscibers d ∧ same_topics d d' ∧
  (sched_ok d → sched_ok d') ∧ (types_ok d → types_ok d').

Section evolves.
Lemma same_topics_eq d d' : d_topicState d' = d_topicState d → same_topics d d'.
Proof. intros E. split; rewrite E; [done|set_solver]. Qed.

Lemma evolves_refl d : evolves d d.
Proof. split_and!; try done. by apply same_topics_eq. Qed.

Lemma core_instances d d' : core d' = core d → d_instances d' = d_instances d.
Proof. unfold core. intros E. by simplify_eq E. Qed.

Lemma evolves_trans d1 d2 d3 : evolves d1 d2 → evolves d2 d3 → evolves d1 d3.
Proof.
  unfold evolves. intros (Ec & ? & [Ht1 Hd1] & ? & ?) (? & ? & [Ht2 Hd2] & ? & ?).
  split_and!; [congruence..|split|auto|auto].
  - intros. by rewrite Ht2.
  - rewrite (core_instances _ _ Ec) in Hd2. set_solver.
Qed.

Lemma rest_core d d' : rest d' = rest d → core d' = core d ∧ d_subscibers d' = d_subscibers d.
Proof. unfold rest, core. intros E. simplify_eq E. intros. split; congruence. Qed.

Lemma rest_sched_ok d d' : rest d' = rest d → sched_ok d → sched_ok d'.
Proof. unfold rest. intros E. simplify_eq E. intros. by eapply sched_ok_static. Qed.

Lemma quiet_evolves d d' : quiet d d' → evolves d d'.
Proof.
  intros (Hr & _ & ? & ?). pose proof (rest_core _ _ Hr) as [? ?].
  split_and!; [done..|by apply same_topics_eq|by apply rest_sched_ok|done].
Qed.
Lemma switches_evolves i b d d' : switches i b d d' → evolves d d'.
Proof.
  intros (Hr & _ & ? & ?). pose proof (rest_core _ _ Hr) as [? ?].
  split_and!; [done..|by apply same_topics_eq|by apply rest_sched_ok|done].
Qed.

(** Objects keep what their constructor fixed. *)
Lemma core_lookup d d' i x : core d' = core d → d_heap d !! i = Some x →
  ∃ x', d_heap d' !! i = Some x' ∧ static x' = static x.
Proof. unfold core. intros E. simplify_eq E. intros. by eapply static_lookup. Qed.

Lemma core_periods_ok d d' : core d' = core d → periods_ok d → periods_ok d'.
Proof.
  intros E Hp i x' Hx'. destruct (core_lookup d' d i x' (eq_sym E) Hx') as (x & Hx & Es).
  apply Hp in Hx. unfold static in Es. simplify_eq Es. congruence.
Qed.

Lemma core_daemon_ok d d' :
  core d' = core d → (sched_ok d → sched_ok d') → (types_ok d → types_ok d') →
  dom (d_topicState d') ⊆ dom (d_topicState d) ∪ dom (d_instances d) →
  daemon_ok d → daemon_ok d'.
Proof.
  intros E Hs Ht Hd (Hst & ? & Hk & ?). split_and!; [|by auto| |by auto].
  - eapply store_ok_static; [| |done]; unfold core in E; by simplify_eq E.
  - unfold known_ok in *. rewrite (core_instances _ _ E). set_solver.
Qed.

Lemma evolves_ok d d' : evolves d d' → daemon_ok d → daemon_ok d'.
Proof. intros (? & _ & [_ ?] & ? & ?). by apply core_daemon_ok. Qed.

Lemma evolves_subscribed d d' ty s : evolves d d' → subscribed d' ty s ↔ subscribed d ty s.
Proof. intros (_ & E & _). unfold subscribed. by rewrite E. Qed.

(** The invariant when the relation is the same. *)
Lemma sub_inv_same d d' :
  core d' = core d → (sched_ok d → sched_ok d') → (types_ok d → types_ok d') →
  (∀ ty s, subscribed d' ty s ↔ subscribed d ty s) →
  (∀ ty, ty ∈ dom (d_subscibers d') → ty ∈ dom (d_subscibers d) ∨
    ∃ topic, GetTopicFromType ty = Some topic) →
  same_topics d d' → sub_inv d → sub_inv d'.
Proof.
  intros Ec Hs Ht Hsub Hdom [Ets Hd] (Hok & Hp & Hty & Hcan & Hon).
  pose proof (core_instances _ _ Ec) as Ei. split_and!.
  - by eapply core_daemon_ok.
  - by eapply core_periods_ok.
  - intros ty [Hin|]%Hdom; [by apply Hty|done].
  - intros ty s. rewrite Hsub. unfold deliverable. rewrite Ei. apply Hcan.
  - intros topic. unfold is_open in *. rewrite Ets, Hon. by setoid_rewrite Hsub.
Qed.

Lemma evolves_inv d d' : evolves d d' → sub_inv d → sub_inv d'.
Proof.
  intros He. pose proof He as (Ec & Ess & Ets & Hs & Ht).
  apply sub_inv_same; [done..| | |done].
  - intros. by apply evolves_subscribed.
  - intros ty. rewrite Ess. by left.
Qed.
End evolves.

Section operations.
Context `{PC : PluginCode} `{HO : HashOrder} `{PQ : PriorityQueue}.

Lemma schedule_push_evolves i t x d :
  d_heap d !! i = Some x → twp (schedule_push i t) (λ _ d', evolves d d' ∧ d_heap d' = d_heap d) d.
Proof.
  intros Hx. apply twp_modify. split; [|done].
  split_and!; try done; [by apply same_topics_eq|]. intros Hs s. simpl. rewrite elem_of_app, list_elem_of_singleton.
  intros [Hin| ->]; [by apply Hs|]. by exists x.
Qed.

(** [EnableInstance] of an instance that exists: on success it is enabled
    and in the run queue. *)
Lemma EnableInstance_twp n i params d :
  daemon_ok d → periods_ok d → d_instances d !! n = Some i →
  twp (EnableInstance n params) (λ r d', evolves d d' ∧ is_Some (r_code r) ∧
    enabled_map d' = (if failed r then enabled_map d else <[i := true]> (enabled_map d))) d.
Proof.
  intros (Hs & _ & _ & _) Hp Hi. destruct (Hs n i Hi) as (x & Hx & _).
  unfold EnableInstance. apply twp_bind, twp_get. unfold GetInstance. rewrite Hi.
  apply twp_bind. eapply twp_mono; [apply call_quiet|].
  intros r d1 (Hq & Hh & [c Hc]). cbn beta. unfold code_negative, failed. rewrite Hc.
  apply twp_bind, twp_bind, twp_ret, twp_ret. case_bool_decide as Hneg.
  { apply twp_ret. split_and!; [by apply quiet_evolves|by eexists|].
    rewrite Hc. rewrite bool_decide_true by done. by destruct Hq as (_ & -> & _). }
  assert (d_heap d1 !! i = Some x) as Hx1 by (by rewrite Hh).
  apply twp_bind. eapply update_twp; [done|].
  pose proof (set_enabled_switches i x true d1 Hx1) as Hsw.
  apply twp_bind. eapply update_twp; [simpl; apply lookup_insert_eq|]. simpl.
  set (y := count_enable (set_enabled true x)).
  set (d2 := set_heap _ _). assert (d_heap d2 = <[i := y]> (d_heap d1)) as Eh.
  { simpl. apply insert_insert_eq. }
  assert (switches i true d d2) as Hsw2.
  { eapply quiet_switches; [done|]. destruct Hsw as (Hr & He & Hts & Hty).
    unfold switches, rest, enabled_map, types_ok. rewrite Eh.
    split_and!; [|by rewrite fmap_insert|done|].
    - unfold rest in *. simpl in *. rewrite !fmap_insert in *. exact Hr.
    - intros Ht j z ty Hj. apply lookup_insert_Some in Hj as [[<- <-]|[_ Hj]].
      + by apply (Ht i x).
      + by eapply Ht. }
  assert (d_heap d2 !! i = Some y) as Hy by (rewrite Eh; apply lookup_insert_eq).
  assert (in_period y = in_period x) as Ep by done. clearbody y.
  apply twp_bind, (load_twp _ y); [done|]. apply twp_bind, twp_gets.
  assert (∀ t, twp (schedule_push i t ;; mret r) (λ r d', evolves d d' ∧ is_Some (r_code r) ∧
    enabled_map d' = if match r_code r with Some c => bool_decide (c < 0) | None => false end
      then enabled_map d else <[i := true]> (enabled_map d)) d2) as Hpush.
  { intros t. apply twp_bind. eapply twp_mono; [by apply (schedule_push_evolves i t y)|].
    intros ? d3 [He3 Hh3]. apply twp_ret. rewrite Hc, bool_decide_false by done.
    split_and!; [|by eexists|].
    - eapply evolves_trans; [by eapply switches_evolves|done].
    - transitivity (enabled_map d2); [unfold enabled_map; by rewrite Hh3|apply Hsw2]. }
  destruct (has_flag SCENARIO y); [apply Hpush|]. destruct (has_flag TUNE y); [|apply Hpush].
  rewrite decide_False; [apply Hpush|]. rewrite Ep. intros Hbad. apply Hbad, (Hp i x Hx).
Qed.

Lemma EnableInstance_evolves n params d :
  daemon_ok d → periods_ok d → twp (EnableInstance n params) (λ r d', evolves d d') d.
Proof.
  intros Hok Hp. destruct (d_instances d !! n) as [i|] eqn:Hi.
  - eapply twp_mono; [by eapply EnableInstance_twp|]. intros r d' (? & _). done.
  - unfold EnableInstance. apply twp_bind, twp_get. unfold GetInstance. rewrite Hi.
    apply twp_ret, evolves_refl.
Qed.

Lemma DisableInstance_evolves n d :
  daemon_ok d → twp (DisableInstance n) (λ _ d', evolves d d') d.
Proof.
  intros Hok. destruct (d_instances d !! n) as [i|] eqn:Hi.
  - eapply twp_mono; [by eapply DisableInstance_switches|].
    intros r d' Hsw. exact (switches_evolves _ _ _ _ Hsw).
  - unfold DisableInstance. apply twp_bind, twp_get. unfold GetInstance. rewrite Hi.
    apply twp_ret, evolves_refl.
Qed.

(** *** Subscribing *)

Lemma set_topic_evolves topic b d :
  b = topic_on (d_topicState d) (instanceName topic) (topicName topic) (Utils.params topic) →
  instanceName topic ∈ dom (d_instances d) →
  evolves d (set_topicState (put_topic (instanceName topic) (topicName topic)
    (Utils.params topic) b (d_topicState d)) d).
Proof.
  intros Hb Hi. split_and!; try done. split; simpl.
  - intros i t p. rewrite topic_on_put. case_decide as Hc; [|done].
    destruct Hc as (<- & <- & <-). done.
  - rewrite dom_put_topic. set_solver.
Qed.

Lemma subscribed_add d d' ty s ty' s' :
  d_subscibers d' = <[ty := {[s]} ∪ default ∅ (d_subscibers d !! ty)]> (d_subscibers d) →
  subscribed d' ty' s' ↔ subscribed d ty' s' ∨ ty' = ty ∧ s' = s.
Proof.
  intros E. unfold subscribed. rewrite E. destruct (decide (ty' = ty)) as [->|Hne].
  - rewrite lookup_insert_eq. destruct (d_subscibers d !! ty) as [X|]; simpl.
    + split; [|intros [(Y & [= <-] & ?)|[_ ->]]; eexists; split; [done|set_solver|done|set_solver]].
      intros (Y & [= <-] & [?%elem_of_singleton|?]%elem_of_union); [by right|by left; eauto].
    + split; [|intros [(Y & [=] & ?)|[_ ->]]; eexists; split; [done|set_solver]].
      intros (Y & [= <-] & ?). right. set_solver.
  - rewrite lookup_insert_ne by done. naive_solver.
Qed.

(** Recording a subscriber of an open topic. *)
Lemma sub_inv_add d ty s topic :
  sub_inv d → GetTopicFromType ty = Some topic → GetType topic = ty → deliverable d s →
  instanceName topic ∈ dom (d_instances d) →
  sub_inv (set_subscibers (<[ty := {[s]} ∪ default ∅ (d_subscibers d !! ty)]> (d_subscibers d))
    (set_topicState (put_topic (instanceName topic) (topicName topic) (Utils.params topic) true
      (d_topicState d)) d)).
Proof.
  intros (Hok & Hp & Hty & Hcan & Hon) Ht Et Hs Hi. set (d' := set_subscibers _ _).
  assert (∀ ty' s', subscribed d' ty' s' ↔ subscribed d ty' s' ∨ ty' = ty ∧ s' = s) as Hsub.
  { intros ty' s'. by apply subscribed_add. }
  split_and!.
  - eapply (core_daemon_ok d); try done. simpl. rewrite dom_put_topic. set_solver.
  - done.
  - intros ty'. simpl. rewrite dom_insert_L, elem_of_union, elem_of_singleton.
    intros [->|]; [by exists topic|by apply Hty].
  - intros ty' s' [Hin|[-> ->]]%Hsub; [by apply Hcan|]. split; [by exists topic|done].
  - intros u. setoid_rewrite Hsub. unfold is_open in *. simpl. rewrite topic_on_put.
    case_decide as Hc.
    + assert (u = topic) as -> by (destruct u, topic; simpl in *; naive_solver).
      rewrite Et. split; [intros _|done]. split; [done|]. exists s. by right.
    + rewrite Hon. split; intros [Hu (s' & Hs')].
      * split; [done|]. exists s'. by left.
      * destruct Hs' as [Hs'|[E ->]]; [by split; eauto|].
        exfalso. apply Hc. rewrite E, Ht in Hu. by injection Hu as ->.
Qed.

Definition subscribe_post (d : Daemon) (ty s : string) (r : Result) (d' : Daemon) : Prop :=
  sub_inv d' ∧
  ∀ ty' s', subscribed d' ty' s' ↔
    subscribed d ty' s' ∨ (failed r = false ∧ ty' = ty ∧ s' = s).

Lemma subscribe_failed d ty s r d' :
  sub_inv d → evolves d d' → failed r = true → subscribe_post d ty s r d'.
Proof.
  intros Hinv He Hf. split; [by eapply evolves_inv|]. intros ty' s'.
  rewrite evolves_subscribed by done. rewrite Hf. naive_solver.
Qed.
End operations.

Section messages.
Context `{PF : Platform} `{SC : SecureC} `{KP : Kperf} `{PC : PluginCode} `{HO : HashOrder}
  `{PQ : PriorityQueue}.
Context (reg : registry).

(** The first half of [Subscribe]: the instance is enabled unless it is. *)
Lemma ensure_enabled_twp d n i x params :
  sub_inv d → d_instances d !! n = Some i → d_heap d !! i = Some x → in_name x = n →
  twp (if in_enabled x then mret (false, Result0)
       else result ← EnableInstance (in_name x) params;
            failed ← code_negative result; mret (failed, result))
    (λ '(f, r) d', evolves d d' ∧ failed r = f ∧
       (f = false → enabled_map d' !! i = Some true)) d.
Proof.
  intros (Hok & Hp & _) Hi Hx Hn. destruct (in_enabled x) eqn:Ex.
  { apply twp_ret. split_and!; [apply evolves_refl|done|]. intros _.
    unfold enabled_map. by rewrite lookup_fmap, Hx, <-Ex. }
  apply twp_bind. eapply twp_mono; [eapply EnableInstance_twp; [done|done|by rewrite Hn]|].
  intros r d' (He & [c Hc] & Hen). cbn beta. unfold code_negative. rewrite Hc.
  apply twp_bind, twp_bind, twp_ret, twp_ret, twp_ret.
  split_and!; [done|unfold failed; by rewrite Hc|]. intros Hf. rewrite Hen.
  unfold failed. rewrite Hc, Hf. apply lookup_insert_eq.
Qed.

Lemma Subscribe_twp d ty s topic :
  sub_inv d → GetTopicFromType ty = Some topic → GetType topic = ty → deliverable d s →
  twp (Subscribe [ty; s]) (subscribe_post d ty s) d.
Proof.
  intros Hinv Ht Et Hs. pose proof Hinv as ((Hst & _) & _).
  unfold Subscribe. apply twp_bind. simpl. apply twp_ret, twp_bind. rewrite Ht.
  apply twp_ret, twp_bind, twp_get. unfold GetInstance.
  destruct (d_instances d !! instanceName topic) as [i|] eqn:Hi.
  2:{ apply twp_ret. apply subscribe_failed; [done|apply evolves_refl|done]. }
  destruct (Hst _ _ Hi) as (x & Hx & Hn).
  apply twp_bind, (load_twp _ x); [done|]. apply twp_bind.
  eapply twp_mono; [by eapply ensure_enabled_twp|]. intros [f r] d1 (He1 & Hf & _).
  destruct f; [by apply twp_ret, subscribe_failed|].
  assert (instanceName topic ∈ dom (d_instances d1)) as Hin1.
  { destruct He1 as (Ec & _). rewrite (core_instances _ _ Ec). by apply elem_of_dom_2 in Hi. }
  apply twp_bind, twp_gets. set (on := topic_on (d_topicState d1) _ _ _).
  apply twp_bind, twp_modify. set (d2 := set_topicState _ d1).
  assert (evolves d d2) as He2.
  { eapply evolves_trans; [done|]. by apply (set_topic_evolves topic on d1). }
  destruct (core_lookup d d2 i x (proj1 He2) Hx) as (x2 & Hx2 & _).
  (* what is left once the topic is known to be open *)
  assert (∀ r d3, evolves d d3 → failed r = false →
    twp (subscriber ← deref ([ty; s] !! 1%nat);
         modify (λ d, set_subscibers
           (<[ty := {[subscriber]} ∪ default ∅ (d_subscibers d !! ty)]> (d_subscibers d)) d) ;;
         (if has_flag INSTANCE_RUN_ONCE x
          then modify (λ d, set_runOnce (d_runOnce d ++ [(topic, subscriber)]) d) else mret tt) ;;
         mret r) (subscribe_post d ty s)
      (set_topicState (put_topic (instanceName topic) (topicName topic) (Utils.params topic)
        true (d_topicState d3)) d3)) as Hadd.
  { intros r' d3 He3 Hf3. apply twp_bind. simpl. apply twp_ret, twp_bind, twp_modify.
    set (d4 := set_subscibers _ _).
    assert (sub_inv d4) as Hinv4.
    { apply (sub_inv_add d3 ty s topic); try done; [by eapply evolves_inv|..].
      - unfold deliverable in *. by rewrite (core_instances _ _ (proj1 He3)).
      - rewrite (core_instances _ _ (proj1 He3)). by apply elem_of_dom_2 in Hi. }
    assert (subscribe_post d ty s r' d4) as Hpost.
    { split; [done|]. intros ty' s'. rewrite <-(evolves_subscribed d d3) by done.
      rewrite Hf3, (subscribed_add d3 d4 ty s) by done. naive_solver. }
    apply twp_bind. destruct (has_flag _ x); [apply twp_modify|]; by apply twp_ret. }
  apply twp_bind. subst on. destruct (topic_on (d_topicState d1) _ _ _) eqn:Eon.
  { apply twp_ret, Hadd; done. }
  apply twp_bind. eapply twp_mono; [by apply (OpenTopic_quiet i x2)|].
  intros r3 d3 [Hq3 [c Hc]]. cbn beta. apply quiet_evolves in Hq3.
  pose proof (evolves_trans _ _ _ He2 Hq3) as He3.
  unfold code_negative. rewrite Hc. apply twp_bind, twp_bind, twp_ret, twp_ret.
  case_bool_decide as Hneg.
  - apply twp_bind. eapply twp_mono; [apply DisableInstance_evolves; eapply evolves_ok; [done|apply Hinv]|].
    intros ? d4 He4. apply twp_ret, twp_ret. apply subscribe_failed; [done| |].
    + by eapply evolves_trans.
    + unfold failed. rewrite Hc. by apply bool_decide_true.
  - apply twp_bind, twp_modify, twp_ret, Hadd; [done|].
    unfold failed. rewrite Hc. by apply bool_decide_false.
Qed.

(** *** Unsubscribing *)

(** [UpdateInstance] after the table of subscribers shrank to [ss], where no
    entry lost its last subscriber and stayed. *)
Lemma UpdateInstance_inv d ss :
  sub_inv d → dom ss ⊆ dom (d_subscibers d) →
  (∀ ty s, subscribed (set_subscibers ss d) ty s → subscribed d ty s) →
  (∀ ty s, ty ∈ dom ss → subscribed d ty s → ∃ s', subscribed (set_subscibers ss d) ty s') →
  twp UpdateInstance (λ _ d', sub_inv d' ∧ d_subscibers d' = ss ∧ core d' = core d)
    (set_subscibers ss d).
Proof.
  intros (Hok & Hp & Hty & Hcan & Hon) Hd Hsub Hne. set (d1 := set_subscibers ss d) in *.
  eapply twp_mono; [by apply UpdateInstance_twp|].
  intros ? d' (Hr & Ht & Hdom & Hon' & _). cbn beta.
  pose proof (rest_core _ _ Hr) as [Ec Ess]. split; [|done].
  assert (∀ ty s, subscribed d' ty s ↔ subscribed d1 ty s) as Hsub'.
  { intros. unfold subscribed. by rewrite Ess. }
  split_and!.
  - eapply (core_daemon_ok d1); try done; [by apply rest_sched_ok|]. rewrite Hdom. set_solver.
  - by eapply (core_periods_ok d1).
  - intros ty. rewrite Ess. intros Hin. by apply Hty, Hd.
  - intros ty s. rewrite Hsub'. intros Hs. unfold deliverable.
    rewrite (core_instances _ _ Ec). by apply Hcan, Hsub.
  - intros u. unfold is_open in *. setoid_rewrite Hsub'. rewrite Hon'. simpl d_topicState.
    rewrite andb_true_iff, Hon. unfold has_entry. change (ConcatS _) with (GetType u).
    split.
    + intros [[Hu (s & Hs)] He]. split; [done|]. apply orb_true_iff in He as [He|He].
      * apply bool_decide_eq_true in He. eapply Hne; [|done]. by apply elem_of_dom.
      * apply bool_decide_eq_true in He. exfalso. apply He. apply elem_of_hash_order.
        assert (topic_on (d_topicState d) (instanceName u) (topicName u) (Utils.params u) = true)
          as Ho by (apply Hon; eauto). by apply topic_on_dom in Ho as (? & _).
    + intros [Hu (s & Hs)]. split; [split; [done|by eauto]|].
      rewrite bool_decide_true; [done|]. destruct Hs as (X & HX & _). by rewrite HX.
Qed.

Lemma subscribed_erase d ty s ty' s' :
  subscribed (set_subscibers (erase_subscriber ty s (d_subscibers d)) d) ty' s' ↔
  subscribed d ty' s' ∧ ¬ (ty' = ty ∧ s' = s).
Proof.
  unfold subscribed, erase_subscriber. simpl. destruct (decide (ty' = ty)) as [->|Hne].
  - case_decide as HX; [rewrite lookup_delete_eq|rewrite lookup_insert_eq].
    + split; [intros (? & [=] & _)|]. intros [(X & E & HXs) Hns]. rewrite E in HX. simpl in HX.
      exfalso. assert (s' ≠ s) by naive_solver. set_solver.
    + split.
      * intros (X & [= <-] & Hin). apply elem_of_difference in Hin as [Hin Hns].
        destruct (d_subscibers d !! ty) as [X|]; simpl in *; set_solver.
      * intros [(X & E & HXs) Hns]. rewrite E in *. simpl in *. eexists. split; [done|].
        assert (s' ≠ s) by naive_solver. set_solver.
  - case_decide; [rewrite lookup_delete_ne by done|rewrite lookup_insert_ne by done]; naive_solver.
Qed.

Lemma erase_dom ty s ss : dom (erase_subscriber ty s ss) ⊆ {[ty]} ∪ dom ss.
Proof. unfold erase_subscriber. case_decide; set_solver. Qed.

Lemma erase_inv d ty s :
  sub_inv d → (∃ topic, GetTopicFromType ty = Some topic) →
  twp UpdateInstance (λ _ d', sub_inv d' ∧ core d' = core d ∧
      d_subscibers d' = erase_subscriber ty s (d_subscibers d))
    (set_subscibers (erase_subscriber ty s (d_subscibers d)) d).
Proof.
  intros Hinv Hty. destruct (decide (ty ∈ dom (d_subscibers d))) as [Hin|Hnin].
  - eapply twp_mono; [apply UpdateInstance_inv; [done|..]|by intros ? d' (? & ? & ?)].
    + pose proof (erase_dom ty s (d_subscibers d)). set_solver.
    + intros ty' s' Hs. by apply subscribed_erase in Hs as [? _].
    + intros ty' s' Hd Hs. destruct (decide (ty' = ty)) as [->|Hne].
      * unfold erase_subscriber, subscribed in *. simpl. case_decide as HX; [set_solver|].
        apply set_choose_L in HX as [s0 Hs0]. exists s0. eexists. split; [|done].
        apply lookup_insert_eq.
      * exists s'. apply subscribed_erase. split; [done|]. naive_solver.
  - assert (erase_subscriber ty s (d_subscibers d) = d_subscibers d) as E.
    { unfold erase_subscriber. apply not_elem_of_dom in Hnin. rewrite Hnin. simpl.
      rewrite decide_True by set_solver. by apply delete_id. }
    rewrite E. eapply twp_mono; [apply UpdateInstance_inv; [done|done| |]|by intros ? d' (? & ? & ?)].
    + done.
    + intros ty' s' _ ?. by exists s'.
Qed.

Lemma Unsubscribe_twp d ty s :
  sub_inv d → (∃ topic, GetTopicFromType ty = Some topic) →
  twp (Unsubscribe [ty; s]) (λ _ d', sub_inv d' ∧
    ∀ ty' s', subscribed d' ty' s' ↔ subscribed d ty' s' ∧ ¬ (ty' = ty ∧ s' = s)) d.
Proof.
  intros Hinv [topic Ht]. unfold Unsubscribe. apply twp_bind. simpl. apply twp_ret, twp_bind.
  rewrite Ht. apply twp_ret, twp_bind, twp_ret, twp_bind, twp_modify, twp_bind.
  eapply twp_mono; [apply erase_inv; by eauto|]. intros ? d' (Hinv' & _ & Ess).
  apply twp_ret. split; [done|]. intros ty' s'. rewrite <-subscribed_erase.
  unfold subscribed. by rewrite Ess.
Qed.

Lemma erase_lookup_ne ty ty' s ss : ty' ≠ ty → erase_subscriber ty s ss !! ty' = ss !! ty'.
Proof.
  intros. unfold erase_subscriber.
  case_decide; [by rewrite lookup_delete_ne|by rewrite lookup_insert_ne].
Qed.

Lemma UnsubscribeSdk_twp d s :
  sub_inv d →
  twp (UnsubscribeSdk [s]) (λ _ d', sub_inv d' ∧
    ∀ ty' s', subscribed d' ty' s' ↔ subscribed d ty' s' ∧ s' ≠ s) d.
Proof.
  intros Hinv. unfold UnsubscribeSdk. apply twp_bind. simpl. apply twp_ret, twp_bind, twp_gets.
  apply twp_bind. eapply twp_mono.
  { apply (twp_for_each_idx _ _ (λ l d', sub_inv d' ∧
      (∀ ty, ty ∉ l → d_subscibers d' !! ty = d_subscibers d !! ty) ∧
      (∀ ty' s', subscribed d' ty' s' ↔ subscribed d ty' s' ∧ (ty' ∈ l → s' ≠ s)))).
    { split_and!; [done..|]. intros ty' s'. split; [|by intros [? _]].
      intros Hs. split; [done|]. by intros ?%not_elem_of_nil. }
    intros l1 ty l2 d1 Hl (Hinv1 & Hrest & Hsub).
    assert (ty ∈ dom (d_subscibers d)) as Hty by (rewrite <-elem_of_hash_order, Hl; set_solver).
    assert (ty ∉ l1) as Hnin.
    { pose proof (NoDup_hash_order (dom (d_subscibers d))) as Hnd. rewrite Hl in Hnd.
      apply list.NoDup_app in Hnd as (_ & Hnd & _). intros Hin. apply (Hnd ty Hin). set_solver. }
    apply elem_of_dom in Hty as [X HX]. apply twp_bind, twp_gets, twp_bind.
    rewrite Hrest, HX by done. apply twp_ret.
    assert (∀ ty' s', (ty' ∈ l1 ++ [ty] → s' ≠ s) ↔ (ty' ∈ l1 → s' ≠ s) ∧ ¬ (ty' = ty ∧ s' = s)) as Hl1.
    { intros ty' s'. rewrite elem_of_app, list_elem_of_singleton. naive_solver. }
    case_decide as HsX.
    - apply twp_bind, twp_modify. eapply twp_mono; [apply erase_inv; [done|]|].
      { destruct Hinv1 as (_ & _ & Hd1 & _). apply Hd1, elem_of_dom. by rewrite Hrest, HX. }
      intros ? d2 (Hinv2 & _ & Ess). split_and!; [done| |].
      + intros ty' Hn. rewrite Ess, erase_lookup_ne, Hrest by set_solver. done.
      + intros ty' s'. rewrite Hl1, (and_assoc (subscribed d ty' s')), <-Hsub, <-subscribed_erase.
        unfold subscribed. by rewrite Ess.
    - apply twp_ret. split_and!; [done|set_solver|]. intros ty' s'.
      rewrite Hl1, (and_assoc (subscribed d ty' s')), <-Hsub. split; [|by intros [? _]].
      intros Hs. split; [done|]. intros [-> ->]. destruct Hs as (Y & HY & HsY).
      rewrite Hrest, HX in HY by done. by injection HY as <-. }
  cbn beta. intros ? d' (Hinv' & _ & Hsub). apply twp_ret. split; [done|].
  intros ty' s'. rewrite Hsub. split; intros [Hs H]; (split; [done|]); [|by intros _].
  apply H. apply elem_of_hash_order. destruct Hs as (Y & HY & _). by apply elem_of_dom_2 in HY.
Qed.

(** *** Data *)

Lemma set_recvData_evolves l d : evolves d (set_recvData l d).
Proof. split_and!; try done. by apply same_topics_eq. Qed.

Lemma DeliverData_evolves d ty dataList s out :
  sub_inv d → deliverable d s → (∃ topic, GetTopicFromType ty = Some topic) →
  DataListSerialize reg dataList [] = Ret (0, out) →
  twp (DeliverData reg ty dataList s) (λ _ d', evolves d d') d.
Proof.
  intros Hinv Hs [topic Ht] Hout. unfold DeliverData. destruct (is_sdk s) eqn:Esdk.
  - apply twp_bind. unfold twp at 1. rewrite Hout. apply twp_modify, set_recvData_evolves.
  - destruct Hs as [?|Hs]; [congruence|]. apply elem_of_dom in Hs as [i Hi].
    rewrite Ht. apply twp_bind, twp_ret, twp_bind, twp_get, twp_bind. unfold GetInstance.
    rewrite Hi. apply twp_ret, twp_bind. eapply twp_mono; [apply call_quiet|].
    intros r d' (Hq & _). apply twp_ret. by apply quiet_evolves.
Qed.

Lemma PublishData_twp d ty isFree dataList out :
  sub_inv d → (∃ topic, GetTopicFromType ty = Some topic) →
  DataListSerialize reg dataList [] = Ret (0, out) →
  twp (PublishData reg (mkRunMessage RT_PUBLISH_DATA [ty] isFree dataList))
    (λ _ d', sub_inv d' ∧ ∀ ty' s', subscribed d' ty' s' ↔ subscribed d ty' s') d.
Proof.
  intros Hinv Hty Hout. unfold PublishData. apply twp_bind. simpl. apply twp_ret, twp_bind, twp_gets.
  apply twp_bind, twp_modify. set (X := default ∅ (d_subscibers d !! ty)).
  set (d1 := set_subscibers _ d).
  assert (∀ ty' s', subscribed d1 ty' s' ↔ subscribed d ty' s') as Hsub.
  { intros ty' s'. unfold subscribed. simpl. destruct (decide (ty' = ty)) as [->|Hne].
    - rewrite lookup_insert_eq. unfold X. destruct (d_subscibers d !! ty) as [Y|]; simpl; [done|].
      split; [|by intros (? & [=] & _)]. intros (Y & [= <-] & Hin). set_solver.
    - by rewrite lookup_insert_ne. }
  assert (sub_inv d1) as Hinv1.
  { apply (sub_inv_same d); try done; [|by apply same_topics_eq].
    intros ty'. simpl. rewrite dom_insert_L, elem_of_union, elem_of_singleton.
    intros [->|?]; [by right|by left]. }
  eapply twp_mono.
  { apply (twp_for_each _ _ (λ d', evolves d1 d')); [apply evolves_refl|].
    intros s d2 Hs He. rewrite elem_of_hash_order in Hs.
    eapply twp_mono; [eapply DeliverData_evolves; [by eapply evolves_inv| |done|done]|].
    - unfold deliverable. rewrite (core_instances _ _ (proj1 He)).
      destruct Hinv as (_ & _ & _ & Hcan & _). apply (Hcan ty s). unfold subscribed, X in *.
      destruct (d_subscibers d !! ty); simpl in *; [by eauto|set_solver].
    - intros ? d3 He3. by eapply evolves_trans. }
  cbn beta. intros ? d2 He. split; [by eapply evolves_inv|].
  intros ty' s'. by rewrite (evolves_subscribed d1 d2).
Qed.

(** What [Publish] reads from its bytes. *)
Definition publishable (bytes : string) : Prop :=
  ∃ rc dl st, DataListDeserialize reg (in_of (bytes_of bytes)) = Ret ((rc, dl), st) ∧
    is_Some (ct_instanceName (dl_topic dl)) ∧ is_Some (ct_topicName (dl_topic dl)) ∧
    is_Some (ct_params (dl_topic dl)).

Lemma std_string_twp p (Q : string → Daemon → Prop) d :
  is_Some p → (∀ s, Q s d) → twp (std_string p) Q d.
Proof. intros [s ->] HQ. unfold std_string. by apply twp_bind, twp_ret, twp_ret. Qed.

Lemma Publish_evolves d bytes :
  sub_inv d → publishable bytes → twp (Publish reg [bytes]) (λ _ d', evolves d d') d.
Proof.
  intros Hinv (rc & dl & st & E & Hi & Ht & Hp). pose proof Hinv as (Hok & Hper & _).
  unfold Publish. apply twp_bind. simpl. apply twp_ret, twp_bind.
  unfold twp at 1, on_string. rewrite E.
  apply twp_bind, std_string_twp; [done|]. intros i. apply twp_bind, std_string_twp; [done|].
  intros t. apply twp_bind, std_string_twp; [done|]. intros p. apply twp_bind, twp_get.
  unfold GetInstance. destruct (d_instances d !! i) as [j|] eqn:Hj; [|by apply twp_ret, evolves_refl].
  destruct (proj1 Hok i j Hj) as (x & Hx & Hn).
  apply twp_bind, (load_twp _ x); [done|]. case_decide; [apply twp_ret, evolves_refl|].
  apply twp_bind. eapply twp_mono; [apply call_quiet|]. intros r0 d1 (Hq & Hh & _). cbn beta.
  apply twp_bind, (load_twp _ x); [by rewrite Hh|].
  apply quiet_evolves in Hq. apply twp_bind.
  eapply (twp_mono _ (λ _ d', evolves d d')).
  { destruct (in_enabled x); [by apply twp_ret|]. apply twp_bind.
    eapply twp_mono; [eapply EnableInstance_twp; [by eapply evolves_ok| |]|].
    - by eapply core_periods_ok; [apply Hq|].
    - by rewrite (core_instances _ _ (proj1 Hq)).
    - intros r d2 (He & [c Hc] & _). cbn beta. unfold code_negative. rewrite Hc.
      apply twp_bind, twp_bind, twp_ret, twp_ret, twp_ret. by eapply evolves_trans. }
  intros [r|] d2 He2; [by apply twp_ret|]. destruct (core_lookup d d2 j x (proj1 He2) Hx) as (x2 & Hx2 & _).
  apply twp_bind. case_decide; [by apply twp_ret, twp_ret|]. apply twp_bind.
  eapply twp_mono; [by apply (OpenTopic_quiet j x2)|]. intros r d3 [Hq3 [c Hc]]. cbn beta.
  unfold code_negative. rewrite Hc. apply quiet_evolves in Hq3.
  apply twp_bind, twp_bind, twp_ret, twp_ret, twp_ret, twp_ret. by eapply evolves_trans.
Qed.
End messages.

(** ** The refinement *)

Section refinement.
Context `{PF : Platform} `{SC : SecureC} `{KP : Kperf} `{PC : PluginCode} `{HO : HashOrder}
  `{PQ : PriorityQueue}.
Context (reg : registry).

(** The messages the plugin manager and the plugins' base class build:
    [Topic::GetType] of a topic that splits back into itself, subscribers
    that can be reached, data of a registered type. *)
Definition message_ok (d : Daemon) (msg : RunMessage) : Prop :=
  match rm_type msg, rm_payload msg with
  | RT_ENABLED, [_; _] => True
  | RT_DISABLED, [_] | RT_DISABLED_FORCE, [_] => True
  | RT_SUBSCRIBE, [ty; s] => canonical ty ∧ deliverable d s
  | RT_UNSUBSCRIBE, [ty; s] => canonical ty
  | RT_UNSUBSCRIBE_SDK, [s] => True
  | RT_PUBLISH, [bytes] => publishable reg bytes
  | RT_PUBLISH_DATA, [ty] =>
      canonical ty ∧ ∃ out, DataListSerialize reg (rm_dataList msg) [] = Ret (0, out)
  | RT_SHUTDOWN, _ => True
  | _, _ => False
  end.

Definition refines (d : Daemon) (msg : RunMessage) (r : Result) (d' : Daemon) : Prop :=
  sub_inv d' ∧ ∀ ty s, subscribed d' ty s ↔ spec msg r (subscribed d) ty s.

Lemma evolves_refines d d' msg r :
  sub_inv d → evolves d d' → (∀ ty s, spec msg r (subscribed d) ty s = subscribed d ty s) →
  refines d msg r d'.
Proof.
  intros Hinv He Hs. split; [by eapply evolves_inv|]. intros ty s.
  by rewrite Hs, (evolves_subscribed d d').
Qed.

Lemma handle_twp d msg :
  sub_inv d → message_ok d msg → twp (handle reg msg) (refines d msg) d.
Proof.
  intros Hinv Hm. pose proof Hinv as (Hok & Hper & _).
  destruct msg as [ty payload isFree dl]. unfold message_ok in Hm. cbn [rm_type rm_payload rm_dataList] in Hm.
  unfold handle. cbn [rm_type rm_payload rm_dataList].
  destruct ty; destruct payload as [|a [|b [|? ?]]]; try done; cbn [lookup list_lookup];
    repeat lazymatch goal with
    | |- twp (deref (Some ?x) ≫= ?k) ?Q ?s => change (twp (k x) Q s); cbn beta
    end.
  - eapply twp_mono; [by apply EnableInstance_evolves|]. intros. by apply evolves_refines.
  - apply twp_bind. eapply twp_mono; [by apply DisableInstance_evolves|].
    intros. by apply twp_ret, evolves_refines.
  - apply twp_bind. eapply twp_mono; [by apply DisableInstance_evolves|].
    intros. by apply twp_ret, evolves_refines.
  - destruct Hm as [(topic & Ht & Et) Hs].
    eapply twp_mono; [by eapply (Subscribe_twp d a b topic)|].
    intros r d' [Hinv' Hsub]. split; [done|]. intros ty s. by rewrite Hsub.
  - destruct Hm as (topic & Ht & _). apply twp_bind.
    eapply twp_mono; [apply Unsubscribe_twp; by eauto|].
    intros r d' [Hinv' Hsub]. apply twp_ret. split; [done|]. intros ty s. by rewrite Hsub.
  - apply twp_bind. eapply twp_mono; [by apply UnsubscribeSdk_twp|].
    intros r d' [Hinv' Hsub]. apply twp_ret. split; [done|]. intros ty s. by rewrite Hsub.
  - destruct Hm as [(topic & Ht & _) [out Hout]]. apply twp_bind.
    eapply twp_mono; [eapply PublishData_twp; by eauto|].
    intros r d' [Hinv' Hsub]. apply twp_ret. split; [done|]. intros ty s. by rewrite Hsub.
  - eapply twp_mono; [by apply Publish_evolves|]. intros. by apply evolves_refines.
  all: apply twp_ret, evolves_refines; [done|apply evolves_refl|done].
Qed.
End refinement.
