(* ===== verification/ScheduleProps.v ===== *)
(** * Running what is due

    [InstanceRunHandler::Schedule] runs, in order of priority, every enabled
    instance whose time has come, puts the periodic ones back into the queue
    and retires those that run once. *)

From Stdlib Require Import ZArith Lia Strings.Byte Sorting.Sorted.
From stdpp Require Import base list strings gmap numbers sorting.
From S2P Require Import Prelude Bytes Serialize StdString Utils DataTypes SecureC DataRegister.
From S2P Require Import Registry MessageProtocol Daemon InstanceRun InstanceRunLemmas.

(** The plugins' [Run] calls made so far. *)
Definition runs_of (l : list Call) : list nat :=
  omap (λ c, match c with CallRun i => Some i | _ => None end) l.
Definition runs (d : Daemon) : list nat := runs_of (d_calls d).

Definition due (d : Daemon) (s : ScheduleInstance) : bool :=
  bool_decide (si_time s = d_time d).

Definition is_enabled (d : Daemon) (i : nat) : bool :=
  match d_heap d !! i with Some x => in_enabled x | None => false end.

(** Where a due entry goes after its run. *)
Definition reschedule (d : Daemon) (s : ScheduleInstance) : option ScheduleInstance :=
  x ← d_heap d !! si_instance s;
  if in_enabled x && negb (has_flag INSTANCE_RUN_ONCE x)
  then Some (mkSchedule (si_instance s) (d_time d + in_period x)) else None.

(** The instances that are due have a positive period, or run once. *)
Definition periodic (d : Daemon) (i : nat) : Prop :=
  ∀ x, d_heap d !! i = Some x →
    has_flag INSTANCE_RUN_ONCE x = true ∨
    (0 < in_period x ∧ d_time d + in_period x < 18446744073709551616).

Record sched_pre (d : Daemon) : Prop := {
  sp_sched : sched_ok d;
  sp_types : types_ok d;
  sp_time : 0 ≤ d_time d;
  sp_future : ∀ s, s ∈ d_schedule d → d_time d ≤ si_time s;
  sp_periodic : ∀ s, s ∈ d_schedule d → due d s = true → periodic d (si_instance s);
}.

Section order.
Lemma filter_elem_iff {A} (P Q : A → Prop) `{!∀ x, Decision (P x), !∀ x, Decision (Q x)} (l : list A) :
  (∀ x, x ∈ l → P x ↔ Q x) → filter P l = filter Q l.
Proof.
  induction l as [|x l IH]; intros Hl; [done|].
  rewrite !filter_cons, IH by (intros y Hy; apply Hl; by right).
  specialize (Hl x (list_elem_of_here x l)).
  destruct (decide (P x)), (decide (Q x)); try done; exfalso; tauto.
Qed.

Lemma remove_at_perm {A} (q : list A) k x : q !! k = Some x → q ≡ₚ x :: remove_at k q.
Proof.
  intros Hk. unfold remove_at. rewrite <-(take_drop_middle q k x Hk) at 1.
  by rewrite Permutation_middle.
Qed.

Lemma sched_lt_due d x y :
  sched_lt (d_heap d) x y = false → due d x = true → due d y = true →
  priority_of (d_heap d) (si_instance x) ≤ priority_of (d_heap d) (si_instance y).
Proof.
  unfold sched_lt, due. rewrite !bool_decide_eq_true. intros Hlt Hx Hy.
  apply orb_false_iff in Hlt as [_ Hlt]. rewrite bool_decide_true in Hlt by congruence.
  apply bool_decide_eq_false in Hlt. lia.
Qed.

Lemma sched_lt_time h x y : sched_lt h x y = false → si_time x ≤ si_time y.
Proof.
  unfold sched_lt. intros Hlt. apply orb_false_iff in Hlt as [Hlt _].
  apply bool_decide_eq_false in Hlt. lia.
Qed.
End order.

Section calls.
Context `{PC : PluginCode} `{HO : HashOrder}.

Lemma runs_app l1 l2 : runs_of (l1 ++ l2) = runs_of l1 ++ runs_of l2.
Proof. apply omap_app. Qed.

Lemma call_runs c d :
  twp (call c) (λ _ d', runs d' = runs d ++ runs_of [c] ∧ d_heap d' = d_heap d ∧
    d_schedule d' = d_schedule d ∧ d_time d' = d_time d) d.
Proof.
  unfold call. apply twp_bind, twp_modify, twp_bind, twp_get. simpl.
  destruct (call_result _) as [code payload]. apply twp_ret.
  unfold runs. simpl. by rewrite runs_app.
Qed.

Lemma Disable_runs i x d :
  types_ok d → d_heap d !! i = Some x → twp (Disable i) (λ _ d', runs d' = runs d) d.
Proof.
  intros Ht Hx. unfold Disable. apply twp_bind, (load_twp _ x); [done|]. apply twp_bind.
  eapply twp_mono; [apply (twp_for_each _ _ (λ d', runs d' = runs d)); [done|]|].
  - intros ty d1 Hty Hr. rewrite elem_of_hash_order in Hty.
    destruct (Ht i x ty Hx Hty) as [topic ->]. apply twp_bind, twp_ret, twp_bind.
    eapply twp_mono; [apply call_runs|]. intros r d2 (Hr2 & _). apply twp_ret.
    by rewrite Hr2, app_nil_r.
  - intros ? d1 Hr. cbn beta. apply twp_bind. eapply twp_mono; [apply call_runs|].
    intros r d2 (Hr2 & _). apply twp_ret. by rewrite Hr2, app_nil_r.
Qed.

Lemma CloseInstance_runs i x d :
  types_ok d → d_heap d !! i = Some x → twp (CloseInstance i) (λ _ d', runs d' = runs d) d.
Proof.
  intros Ht Hx. unfold CloseInstance. apply twp_bind. eapply update_twp; [done|].
  eapply twp_mono; [eapply Disable_runs; [|by simpl; rewrite lookup_insert_eq]|done].
  by apply (set_enabled_switches i x false d Hx).
Qed.
End calls.

(** What one due entry leaves for the rest of the loop. *)
Definition round_done (d : Daemon) (s : ScheduleInstance) (q : list ScheduleInstance)
    (d1 : Daemon) : Prop :=
  d_time d1 = d_time d ∧ types_ok d1 ∧ static <$> d_heap d1 = static <$> d_heap d ∧
  (∀ j, j ≠ si_instance s → is_enabled d1 j = is_enabled d j) ∧
  d_schedule d1 = q ++ option_list (reschedule d s) ∧
  runs d1 = runs d ++ (if is_enabled d (si_instance s) then [si_instance s] else []).

Section rounds.
Context `{PC : PluginCode} `{HO : HashOrder} `{PQ : PriorityQueue}.

Lemma rest_fields d d' : rest d' = rest d →
  static <$> d_heap d' = static <$> d_heap d ∧ d_schedule d' = d_schedule d ∧
  d_time d' = d_time d.
Proof. unfold rest. intros E. by simplify_eq E. Qed.

Lemma is_enabled_map d j : is_enabled d j = default false (enabled_map d !! j).
Proof. unfold is_enabled, enabled_map. rewrite lookup_fmap. by destruct (d_heap d !! j). Qed.

(** A round with nothing due. *)
Lemma ScheduleRound_idle d :
  sched_pre d → (∀ s, s ∈ d_schedule d → due d s = false) →
  ScheduleRound d = Ret (false, d).
Proof.
  intros Hpre Hnd. unfold ScheduleRound, mbind, St_bind, get.
  destruct (d_schedule d) as [|s0 q0] eqn:Eq; [done|]. rewrite <-Eq in *.
  destruct (pq_top_max (d_heap d) (d_schedule d)) as (s & Hs & _); [by rewrite Eq|].
  rewrite Hs. simpl. rewrite decide_True; [done|].
  apply list_elem_of_lookup_2, Hnd, bool_decide_eq_false in Hs. done.
Qed.

(** A round with something due runs a due entry of the best priority. *)
Lemma ScheduleRound_due d :
  sched_pre d → (∃ s, s ∈ d_schedule d ∧ due d s = true) →
  twp ScheduleRound (λ more d1, more = true ∧ ∃ s q, d_schedule d ≡ₚ s :: q ∧
    due d s = true ∧
    (∀ y, y ∈ q → due d y = true →
      priority_of (d_heap d) (si_instance s) ≤ priority_of (d_heap d) (si_instance y)) ∧
    round_done d s q d1) d.
Proof.
  intros [Hso Hto Ht0 Hfut Hper] (s0 & Hs0 & Hd0).
  unfold ScheduleRound. apply twp_bind, twp_get.
  destruct (d_schedule d) as [|e q0] eqn:Eq; [by apply not_elem_of_nil in Hs0|].
  rewrite <-Eq in *. clear e q0 Eq.
  destruct (pq_top_max (d_heap d) (d_schedule d)) as (s & Hs & Hmax).
  { intros E. rewrite E in Hs0. by apply not_elem_of_nil in Hs0. }
  set (k := pq_top _ _) in *. pose proof (remove_at_perm _ _ _ Hs) as Hperm.
  pose proof (list_elem_of_lookup_2 _ _ _ Hs) as Hin.
  assert (due d s = true) as Hds.
  { unfold due in *. apply bool_decide_eq_true in Hd0. apply bool_decide_eq_true.
    pose proof (sched_lt_time _ _ _ (Hmax _ Hs0)). specialize (Hfut s Hin). lia. }
  destruct (Hso s Hin) as [x Hx]. rewrite Hs. apply twp_bind, twp_ret. cbn beta.
  assert (si_time s = d_time d) as Et by (by apply bool_decide_eq_true in Hds).
  rewrite decide_False by (intros Hne; by apply Hne).
  apply twp_bind, twp_modify. set (d0 := set_schedule _ d).
  apply twp_bind, (load_twp _ x); [done|].
  assert (∀ y, y ∈ remove_at k (d_schedule d) → due d y = true →
      priority_of (d_heap d) (si_instance s) ≤ priority_of (d_heap d) (si_instance y)) as Hprio.
  { intros y Hy Hdy. eapply sched_lt_due; [apply Hmax; rewrite Hperm; by right|done|done]. }
  assert (∀ d1, round_done d s (remove_at k (d_schedule d)) d1 →
    twp (mret true) (λ more d1, more = true ∧ ∃ s q, d_schedule d ≡ₚ s :: q ∧
    due d s = true ∧
    (∀ y, y ∈ q → due d y = true →
      priority_of (d_heap d) (si_instance s) ≤ priority_of (d_heap d) (si_instance y)) ∧
    round_done d s q d1) d1) as Hret.
  { intros d1 Hd1. apply twp_ret. split; [done|]. by exists s, (remove_at k (d_schedule d)). }
  assert (reschedule d s = if in_enabled x && negb (has_flag INSTANCE_RUN_ONCE x)
    then Some (mkSchedule (si_instance s) (d_time d + in_period x)) else None) as Hre.
  { unfold reschedule. by rewrite Hx. }
  assert (is_enabled d (si_instance s) = in_enabled x) as Hen by (unfold is_enabled; by rewrite Hx).
  destruct (in_enabled x) eqn:Ex; simpl.
  2:{ apply Hret. unfold round_done. rewrite Hre, Hen, !app_nil_r. done. }
  apply twp_bind. eapply twp_mono; [apply twp_and; [apply call_quiet|apply call_runs]|].
  intros r d1 [(Hq & _ & _) (Hr & Hh & Hsch & Htm)]. cbn beta.
  assert (types_ok d1) as Ht1 by (by apply Hq). simpl in Hr.
  apply twp_bind. destruct (has_flag INSTANCE_RUN_ONCE x) eqn:Hro.
  - eapply twp_mono; [apply twp_and;
      [eapply CloseInstance_switches; [done|by rewrite Hh]|
       eapply CloseInstance_runs; [done|by rewrite Hh]]|].
    intros ? d2 [(Hr2 & He2 & _ & Hto2) Hruns2]. cbn beta. apply Hret.
    apply rest_fields in Hr2 as (Hst & Hsc & Htime). unfold round_done.
    rewrite Hre, Hen. simpl. rewrite app_nil_r.
    split_and!; [by rewrite Htime, Htm|by apply Hto2|by rewrite Hst, Hh| |by rewrite Hsc, Hsch|].
    + intros j Hj. rewrite !is_enabled_map, He2, lookup_insert_ne by done.
      unfold enabled_map. by rewrite Hh.
    + by rewrite Hruns2, Hr.
  - apply twp_modify. apply Hret.
    unfold round_done. rewrite Hre, Hen. simpl. rewrite Htm, Hh, Hsch.
    destruct (Hper s Hin Hds x Hx) as [?|[Hp0 Hp1]]; [congruence|].
    split_and!; try done.
    + intros j _. unfold is_enabled. simpl. by rewrite Hh.
    + simpl. rewrite wrap_id by (apply in_range_ulong; lia). by rewrite Et.
Qed.
End rounds.

(** ** The whole loop *)

Definition due_entries (d : Daemon) : list ScheduleInstance :=
  filter (λ s, due d s = true) (d_schedule d).
Definition later_entries (d : Daemon) : list ScheduleInstance :=
  filter (λ s, due d s = false) (d_schedule d).
Definition runnable (d : Daemon) : list ScheduleInstance :=
  filter (λ s, due d s = true ∧ is_enabled d (si_instance s) = true) (d_schedule d).

Definition by_priority (h : gmap nat Instance) (a b : ScheduleInstance) : Prop :=
  priority_of h (si_instance a) ≤ priority_of h (si_instance b).

(** What the loop did: [L] is the order of the runs. *)
Definition schedule_done (d : Daemon) (d' : Daemon) : Prop :=
  d_time d' = d_time d ∧
  (∃ L, runs d' = runs d ++ map si_instance L ∧ L ≡ₚ runnable d ∧
        StronglySorted (by_priority (d_heap d)) L) ∧
  d_schedule d' ≡ₚ later_entries d ++ omap (reschedule d) (due_entries d).

Lemma static_fields x1 x : static x1 = static x →
  in_priority x1 = in_priority x ∧ in_period x1 = in_period x ∧
  ∀ f, has_flag f x1 = has_flag f x.
Proof.
  unfold static. intros E. simplify_eq E. intros.
  split_and!; [congruence..|]. intros f. unfold has_flag.
  by replace (in_type x1) with (in_type x) by congruence.
Qed.

Section round_facts.
Context (d d1 : Daemon) (s : ScheduleInstance) (q : list ScheduleInstance).
Context (Hpre : sched_pre d) (Hperm : d_schedule d ≡ₚ s :: q) (Hs : due d s = true).
Context (Hround : round_done d s q d1).
Context (Hnd : NoDup (map si_instance (due_entries d))).

Lemma round_due y : due d1 y = due d y.
Proof. destruct Hround as (Ht & _). unfold due. by rewrite Ht. Qed.

Lemma round_static i x : d_heap d !! i = Some x →
  ∃ x1, d_heap d1 !! i = Some x1 ∧ static x1 = static x.
Proof. destruct Hround as (_ & _ & Hst & _). by apply static_lookup. Qed.

Lemma round_resched_later e : reschedule d s = Some e → due d e = false.
Proof.
  unfold reschedule. destruct (d_heap d !! si_instance s) as [x|] eqn:Hx; [|done]. simpl.
  destruct (in_enabled x && negb _) eqn:Hb; [|done]. intros [= <-].
  apply andb_true_iff in Hb as [_ Hro]. apply negb_true_iff in Hro.
  unfold due. simpl. apply bool_decide_eq_false.
  assert (s ∈ d_schedule d) as Hin by (rewrite Hperm; by left).
  destruct (sp_periodic d Hpre s Hin Hs x Hx) as [?|[? _]]; [congruence|lia].
Qed.

Lemma due_entries_perm : due_entries d ≡ₚ s :: filter (λ y, due d y = true) q.
Proof. unfold due_entries. rewrite Hperm, filter_cons_True by done. done. Qed.

Lemma round_due_entries : due_entries d1 = filter (λ y, due d y = true) q.
Proof.
  unfold due_entries. destruct Hround as (_ & _ & _ & _ & -> & _).
  rewrite list.filter_app. replace (filter _ (option_list _)) with (@nil ScheduleInstance).
  - rewrite app_nil_r. apply list_filter_iff. intros y. by rewrite round_due.
  - destruct (reschedule d s) as [e|] eqn:E; simpl; [|done].
    rewrite filter_cons_False; [done|]. rewrite round_due, (round_resched_later e) by done. done.
Qed.

Lemma round_later_entries : later_entries d1 ≡ₚ later_entries d ++ option_list (reschedule d s).
Proof.
  unfold later_entries. rewrite Hperm, filter_cons_False by (by rewrite Hs).
  destruct Hround as (_ & _ & _ & _ & -> & _). rewrite list.filter_app.
  rewrite (list_filter_iff (λ y, due d1 y = false) (λ y, due d y = false) q)
    by (intros y; by rewrite round_due).
  f_equiv. destruct (reschedule d s) as [e|] eqn:E; simpl; [|done].
  rewrite filter_cons_True; [done|]. by rewrite round_due, (round_resched_later e).
Qed.

Lemma round_other y : y ∈ filter (λ y, due d y = true) q → si_instance y ≠ si_instance s.
Proof.
  intros Hy E. rewrite due_entries_perm in Hnd. simpl in Hnd.
  apply list.NoDup_cons in Hnd as [Hn _]. apply Hn. rewrite <-E.
  apply list_elem_of_fmap. by exists y.
Qed.

Lemma round_nodup : NoDup (map si_instance (due_entries d1)).
Proof.
  rewrite round_due_entries. rewrite due_entries_perm in Hnd. simpl in Hnd.
  by apply list.NoDup_cons in Hnd as [_ ?].
Qed.

Lemma round_reschedule y : y ∈ due_entries d1 → reschedule d1 y = reschedule d y.
Proof.
  intros Hy. rewrite round_due_entries in Hy. pose proof (round_other y Hy) as Hne.
  assert (y ∈ d_schedule d) as Hin.
  { rewrite Hperm. right. by apply list_elem_of_filter in Hy as [_ ?]. }
  destruct (sp_sched d Hpre y Hin) as [x Hx].
  destruct (round_static _ x Hx) as (x1 & Hx1 & Es).
  destruct Hround as (Ht & _ & _ & Hen & _). specialize (Hen _ Hne).
  unfold is_enabled in Hen. rewrite Hx, Hx1 in Hen.
  unfold reschedule. rewrite Hx, Hx1. simpl. rewrite Hen, Ht.
  apply static_fields in Es as (_ & Hp & Hf). by rewrite Hp, Hf.
Qed.

Lemma round_pre : sched_pre d1.
Proof.
  pose proof Hpre as [Hso Hto Ht0 Hfut Hper]. pose proof Hround as (Ht & Hto1 & Hst & _ & Hsch & _).
  assert (∀ y, y ∈ q → y ∈ d_schedule d) as Hq by (intros y Hy; rewrite Hperm; by right).
  assert (∀ e, e ∈ option_list (reschedule d s) → reschedule d s = Some e) as Hopt.
  { intros e. destruct (reschedule d s); simpl; [|by intros ?%not_elem_of_nil].
    by intros ->%list_elem_of_singleton. }
  split; [|done|by rewrite Ht| |].
  - intros y. rewrite Hsch, elem_of_app. intros [Hy|Hy%Hopt].
    + destruct (Hso y (Hq y Hy)) as [x Hx]. destruct (round_static _ x Hx) as (x1 & ? & _). by exists x1.
    + unfold reschedule in Hy. destruct (d_heap d !! si_instance s) as [x|] eqn:Hx; [|done].
      simpl in Hy. destruct (_ && _); [|done]. injection Hy as <-. simpl.
      destruct (round_static _ x Hx) as (x1 & ? & _). by exists x1.
  - intros y. rewrite Hsch, Ht, elem_of_app. intros [Hy|Hy%Hopt]; [by apply Hfut, Hq|].
    unfold reschedule in Hy. destruct (d_heap d !! si_instance s) as [x|] eqn:Hx; [|done].
    simpl in Hy. destruct (in_enabled x && negb _) eqn:Hb; [|done]. injection Hy as <-. simpl.
    apply andb_true_iff in Hb as [_ Hro]. apply negb_true_iff in Hro.
    assert (s ∈ d_schedule d) as Hin by (rewrite Hperm; by left).
    destruct (Hper s Hin Hs x Hx) as [?|[? _]]; [congruence|lia].
  - intros y Hy Hdy x1 Hx1. rewrite round_due in Hdy.
    assert (y ∈ d_schedule d) as Hin.
    { rewrite Hsch, elem_of_app in Hy. destruct Hy as [Hy|Hy%Hopt]; [by apply Hq|].
      apply round_resched_later in Hy. congruence. }
    destruct (Hso y Hin) as [x Hx]. destruct (round_static _ x Hx) as (x1' & Hx1' & Es).
    rewrite Hx1 in Hx1'. injection Hx1' as <-. rewrite Ht.
    apply static_fields in Es as (_ & Hp & Hf). rewrite Hp, Hf.
    exact (Hper y Hin Hdy x Hx).
Qed.

Lemma round_runnable :
  runnable d ≡ₚ (if is_enabled d (si_instance s) then [s] else []) ++ runnable d1.
Proof.
  unfold runnable. rewrite Hperm.
  assert (filter (λ y, due d1 y = true ∧ is_enabled d1 (si_instance y) = true) (d_schedule d1) =
          filter (λ y, due d y = true ∧ is_enabled d (si_instance y) = true) q) as ->.
  { destruct Hround as (_ & _ & _ & Hen & -> & _). rewrite list.filter_app.
    replace (filter _ (option_list _)) with (@nil ScheduleInstance).
    2:{ destruct (reschedule d s) as [e|] eqn:E; simpl; [|done].
        rewrite filter_cons_False; [done|]. rewrite round_due, (round_resched_later e) by done.
        by intros [? _]. }
    rewrite app_nil_r. apply filter_elem_iff. intros y Hy. rewrite round_due.
    split; intros [Hd Hi]; (split; [done|]); revert Hi; rewrite Hen; try done;
      apply round_other; by apply list_elem_of_filter. }
  destruct (is_enabled d (si_instance s)) eqn:E.
  - by rewrite filter_cons_True.
  - rewrite filter_cons_False; [done|]. intros [_ ?]. congruence.
Qed.
End round_facts.

Section schedule.
Context `{PC : PluginCode} `{HO : HashOrder} `{PQ : PriorityQueue}.

Lemma priority_static d d1 i :
  static <$> d_heap d1 = static <$> d_heap d →
  priority_of (d_heap d1) i = priority_of (d_heap d) i.
Proof.
  intros E. unfold priority_of. apply (f_equal (lookup i)) in E. rewrite !lookup_fmap in E.
  destruct (d_heap d !! i) as [x|], (d_heap d1 !! i) as [x1|]; simpl in E; try done.
  injection E. intros. by destruct (static_fields x1 x) as (? & _); [unfold static; congruence|].
Qed.

Lemma no_due d : (∀ s, s ∈ d_schedule d → due d s = false) →
  due_entries d = [] ∧ later_entries d = d_schedule d ∧ runnable d = [].
Proof.
  intros Hnd. unfold due_entries, later_entries, runnable.
  induction (d_schedule d) as [|s q IH]; [done|].
  destruct IH as (IH1 & IH2 & IH3); [intros; apply Hnd; by right|].
  pose proof (Hnd s (list_elem_of_here _ _)) as Hs.
  rewrite !filter_cons, IH1, IH2, IH3. rewrite decide_False by congruence.
  rewrite decide_True by done. rewrite decide_False by (intros [? _]; congruence). done.
Qed.

Lemma Schedule_twp fuel d :
  sched_pre d → NoDup (map si_instance (due_entries d)) →
  (length (due_entries d) < fuel)%nat →
  twp (Schedule fuel) (λ fin d', fin = true ∧ schedule_done d d') d.
Proof.
  revert d. induction fuel as [|fuel IH]; intros d Hpre Hnd Hf; [lia|].
  cbn [Schedule]. apply twp_bind.
  destruct (due_entries d) as [|e es] eqn:Edue.
  { assert (∀ s, s ∈ d_schedule d → due d s = false) as Hno.
    { intros s Hs. destruct (due d s) eqn:E; [|done].
      assert (s ∈ due_entries d) as Hin by (by apply list_elem_of_filter).
      rewrite Edue in Hin. by apply not_elem_of_nil in Hin. }
    unfold twp at 1. rewrite (ScheduleRound_idle d Hpre Hno). apply twp_ret. split; [done|].
    destruct (no_due d Hno) as (E1 & E2 & E3). split_and!; [done| |].
    - exists []. rewrite E3, app_nil_r. split_and!; [done|done|constructor].
    - rewrite E1, E2. simpl. by rewrite app_nil_r. }
  eapply twp_mono; [apply ScheduleRound_due; [done|]|].
  { assert (e ∈ due_entries d) as Hin by (rewrite Edue; by left).
    apply list_elem_of_filter in Hin as [? ?]. by exists e. }
  rewrite <-Edue in *. clear e es Edue.
  intros more d1 (-> & s & q & Hperm & Hs & Hprio & Hround). cbn beta iota.
  pose proof (due_entries_perm d s q Hperm Hs) as Hde.
  pose proof (round_due_entries d d1 s q Hpre Hperm Hs Hround) as Hde1.
  eapply twp_mono; [apply IH|].
  - by eapply round_pre.
  - by eapply round_nodup.
  - rewrite Hde1. rewrite Hde in Hf. simpl in Hf. lia.
  - intros fin d' (-> & Ht & (L & Hr & HL & Hsort) & Hsch). split; [done|].
    pose proof Hround as (Ht1 & _ & Hst & Hen & _ & Hr1).
    split_and!; [congruence| |].
    + exists ((if is_enabled d (si_instance s) then [s] else []) ++ L). split_and!.
      * rewrite Hr, Hr1, map_app, app_assoc. by destruct (is_enabled d _).
      * rewrite HL. symmetry. by eapply round_runnable.
      * assert (StronglySorted (by_priority (d_heap d)) L) as HsL.
        { revert Hsort. clear -Hst. induction 1 as [|a l _ IHl Ha]; constructor; [done|].
          eapply list.Forall_impl; [exact Ha|]. intros b. unfold by_priority.
          by rewrite !(priority_static d d1) by done. }
        destruct (is_enabled d _); [|done]. constructor; [done|].
        apply list.Forall_forall. intros y Hy. rewrite HL in Hy.
        unfold runnable in Hy. apply list_elem_of_filter in Hy as [[Hdy _] Hy].
        assert (y ∈ due_entries d1) as Hin by (by apply list_elem_of_filter).
        rewrite Hde1 in Hin. apply list_elem_of_filter in Hin as [? ?]. by apply Hprio.
    + rewrite Hsch, Hde. rewrite round_later_entries by done. rewrite <-app_assoc. f_equiv.
      assert (omap (reschedule d1) (due_entries d1) =
              omap (reschedule d) (filter (λ y, due d y = true) q)) as ->.
      { rewrite <-Hde1. assert (∀ y, y ∈ due_entries d1 → reschedule d1 y = reschedule d y) as He
          by (intros y; by eapply round_reschedule).
        revert He. generalize (due_entries d1). clear. intros l He.
        induction l as [|y l IHl]; [done|]. csimpl. rewrite He by (by left).
        rewrite IHl; [done|]. intros z Hz. apply He. by right. }
      simpl. by destruct (reschedule d s).
Qed.
End schedule.
