(* ===== verification/SchedulerSafety.v ===== *)
(** * The scheduler thread never goes wrong

    [keeps P m]: whatever [m] returns, it leaves [P] true.  The rules follow
    the structure of the code, so that a property that only plugin calls could
    break is proved of every operation by one tactic.  With it, the loop of
    [InstanceRunHandler::Start] is shown to run without undefined behaviour
    and to keep the invariant of the subscriptions, for ever. *)

From Stdlib Require Import ZArith Lia Strings.Byte.
From stdpp Require Import base list strings gmap numbers.
From S2P Require Import Prelude Bytes Serialize StdString Utils DataTypes SecureC DataRegister.
From S2P Require Import Registry MessageProtocol Daemon InstanceRun InstanceRunLemmas.
From S2P Require Import Subscriptions ScheduleProps.

Definition keeps {S A} (P : S → Prop) (m : St S A) : Prop :=
  ∀ s a s', P s → m s = Ret (a, s') → P s'.

Create HintDb keeps discriminated.

Section keeps.
Context {S : Type} (P : S → Prop).

Lemma keeps_ret {A} (a : A) : keeps P (mret a).
Proof. intros s a' s' Hs [= <- <-]. done. Qed.
Lemma keeps_bind {A B} (m : St S A) (f : A → St S B) :
  keeps P m → (∀ a, keeps P (f a)) → keeps P (m ≫= f).
Proof.
  intros Hm Hf s b s' Hs. unfold mbind, St_bind.
  destruct (m s) as [[a s1]| |] eqn:E; [|done|done]. intros E2.
  eapply Hf; [|done]. by eapply Hm.
Qed.
Lemma keeps_get : keeps P get.
Proof. intros s a s' Hs [= <- <-]. done. Qed.
Lemma keeps_gets {A} (f : S → A) : keeps P (gets f).
Proof. intros s a s' Hs [= <- <-]. done. Qed.
Lemma keeps_deref {A} (o : option A) : keeps P (deref o).
Proof. destruct o; [apply keeps_ret|]. by intros s a s' _. Qed.
Lemma keeps_undef {A} : keeps P (undef (A:=A)).
Proof. by intros s a s' _. Qed.
Lemma keeps_modify (f : S → S) : (∀ s, P s → P (f s)) → keeps P (modify f).
Proof. intros Hf s a s' Hs [= _ <-]. by apply Hf. Qed.
Lemma keeps_for_each {A} (l : list A) (body : A → St S unit) :
  (∀ x, keeps P (body x)) → keeps P (for_each l body).
Proof.
  intros Hb. induction l as [|x l IH]; simpl; [apply keeps_ret|]. by apply keeps_bind.
Qed.
Lemma keeps_sum_each {A} (l : list A) (body : A → St S Z) :
  (∀ x, keeps P (body x)) → keeps P (sum_each l body).
Proof.
  intros Hb. induction l as [|x l IH]; simpl; [apply keeps_ret|].
  apply keeps_bind; [done|]. intros n. apply keeps_bind; [done|]. intros m. apply keeps_ret.
Qed.
Lemma keeps_on_string {A} (m : St InStream A) bs : keeps P (on_string m bs).
Proof.
  intros s a s' Hs. unfold on_string. destruct (m _) as [[? ?]| |]; [|done|done].
  by intros [= _ <-].
Qed.
Lemma keeps_twp {A} (m : St S A) (Q : A → S → Prop) s :
  keeps P m → P s → twp m Q s → twp m (λ a s', Q a s' ∧ P s') s.
Proof.
  unfold twp. intros Hk Hs. destruct (m s) as [[a s']| |] eqn:E; [|done|done].
  intros HQ. split; [done|]. by eapply Hk.
Qed.
End keeps.

#[export] Hint Resolve keeps_ret keeps_get keeps_gets keeps_deref keeps_undef
  keeps_on_string : keeps.

(** Walks an operation down to its calls and its writes. *)
Ltac keeps_step :=
  match goal with
  | |- keeps _ (mbind _ _) => apply keeps_bind; [|intros ?]
  | |- keeps _ (modify _) => apply keeps_modify; intros ? ?
  | |- keeps _ (for_each _ _) => apply keeps_for_each; intros ?
  | |- keeps _ (sum_each _ _) => apply keeps_sum_each; intros ?
  | |- keeps _ (match ?x with _ => _ end) => destruct x
  | |- keeps _ _ => solve [auto with keeps]
  end.
Ltac keeps := repeat keeps_step; try done.

(** What a scheduler's state may hold in its queue: nothing but plugins puts
    messages there. *)
Section queue.
Context `{PF : Platform} `{SC : SecureC} `{KP : Kperf} `{PC : PluginCode} `{HO : HashOrder}
  `{PQ : PriorityQueue}.
Context (reg : registry).

(** [message_ok] looks at the table of instances only. *)
Definition sane (ms : gmap string nat) (msg : RunMessage) : Prop :=
  message_ok reg (set_store ms ∅ daemon0) msg.

Definition sane_queue (ms : gmap string nat) (d : Daemon) : Prop :=
  d_instances d = ms ∧ Forall (sane ms) (d_queue d).

Lemma sane_message_ok d msg : sane (d_instances d) msg → message_ok reg d msg.
Proof.
  unfold sane, message_ok. destruct (rm_type msg), (rm_payload msg) as [|? [|? [|]]]; try done.
Qed.

(** A property of the table of instances and the queue that the plugins'
    posts keep. *)
Context (P : gmap string nat → list RunMessage → Prop).
Context (HP : ∀ ms q l, P ms q → P ms (q ++ call_posts l)).

Definition queue_inv (d : Daemon) : Prop := P (d_instances d) (d_queue d).

Lemma keeps_call c : keeps queue_inv (call c).
Proof.
  unfold call. apply keeps_bind; [apply keeps_modify|].
  { intros d Hd. by apply HP. }
  intros ?. apply keeps_bind; [auto with keeps|]. intros d.
  destruct (call_result _). auto with keeps.
Qed.
Hint Resolve keeps_call : keeps.

Lemma keeps_load i : keeps queue_inv (load i).
Proof. unfold load. keeps. Qed.
Lemma keeps_update i f : keeps queue_inv (update i f).
Proof. unfold update, load. keeps. Qed.
Lemma keeps_schedule_push i t : keeps queue_inv (schedule_push i t).
Proof. unfold schedule_push. keeps. Qed.
Lemma keeps_set_topic i t p b : keeps queue_inv (set_topic i t p b).
Proof. unfold set_topic. keeps. Qed.
Lemma keeps_code_negative r : keeps queue_inv (code_negative r).
Proof. unfold code_negative. keeps. Qed.
Hint Resolve keeps_load keeps_update keeps_schedule_push keeps_set_topic
  keeps_code_negative : keeps.

Lemma keeps_OpenTopic i t : keeps queue_inv (OpenTopic i t).
Proof. unfold OpenTopic. keeps. Qed.
Lemma keeps_CloseTopic i t : keeps queue_inv (CloseTopic i t).
Proof. unfold CloseTopic. keeps. Qed.
Lemma keeps_Disable i : keeps queue_inv (Disable i).
Proof. unfold Disable. keeps. Qed.
Hint Resolve keeps_OpenTopic keeps_CloseTopic keeps_Disable : keeps.

Lemma keeps_EnableInstance n p : keeps queue_inv (EnableInstance n p).
Proof. unfold EnableInstance. keeps. Qed.
Lemma keeps_DisableInstance n : keeps queue_inv (DisableInstance n).
Proof. unfold DisableInstance. keeps. Qed.
Lemma keeps_CloseInstance n : keeps queue_inv (CloseInstance n).
Proof. unfold CloseInstance. keeps. Qed.
Hint Resolve keeps_EnableInstance keeps_DisableInstance keeps_CloseInstance : keeps.

Lemma keeps_UpdateInstance : keeps queue_inv UpdateInstance.
Proof. unfold UpdateInstance, UpdateEntry, UpdateTopics, UpdateTopic. keeps. Qed.
Hint Resolve keeps_UpdateInstance : keeps.

Lemma keeps_std_string p : keeps queue_inv (std_string p).
Proof. unfold std_string. keeps. Qed.
Hint Resolve keeps_std_string : keeps.

Lemma keeps_DeliverData ty dl s : keeps queue_inv (DeliverData reg ty dl s).
Proof.
  unfold DeliverData. destruct (is_sdk s); [|keeps]. apply keeps_bind; [|intros ?; keeps].
  intros d a d' Hd. destruct (DataListSerialize _ _ _) as [[? ?]| |]; [|done|done].
  by intros [= _ <-].
Qed.
Hint Resolve keeps_DeliverData : keeps.

Lemma keeps_handle msg : keeps queue_inv (handle reg msg).
Proof.
  unfold handle, Subscribe, Unsubscribe, UnsubscribeSdk, Publish, PublishData. keeps.
Qed.

Lemma keeps_ScheduleRound : keeps queue_inv ScheduleRound.
Proof. unfold ScheduleRound. keeps. Qed.
End queue.

Section sane.
Context `{PF : Platform} `{SC : SecureC} `{KP : Kperf} `{PC : PluginCode} `{HO : HashOrder}
  `{PQ : PriorityQueue}.
Context (reg : registry) (ms : gmap string nat).
Context (Hposts : ∀ l, Forall (sane reg ms) (call_posts l)).

Lemma sane_grows ms' q l :
  ms' = ms ∧ Forall (sane reg ms) q → ms' = ms ∧ Forall (sane reg ms) (q ++ call_posts l).
Proof. intros [-> Hq]. split; [done|]. apply list.Forall_app. by split. Qed.

Lemma keeps_handle_sane msg : keeps (sane_queue reg ms) (handle reg msg).
Proof. apply (keeps_handle reg (λ ms' q, ms' = ms ∧ Forall (sane reg ms) q) sane_grows). Qed.

Lemma keeps_ScheduleRound_sane : keeps (sane_queue reg ms) ScheduleRound.
Proof. apply (keeps_ScheduleRound (λ ms' q, ms' = ms ∧ Forall (sane reg ms) q) sane_grows). Qed.

(** The messages in front are still in front. *)
Lemma keeps_handle_prefix q msg :
  keeps (λ d, d_instances d = ms ∧ q `prefix_of` d_queue d) (handle reg msg).
Proof.
  apply (keeps_handle reg (λ ms' q', ms' = ms ∧ q `prefix_of` q')).
  intros ms' q' l [-> Hq]. split; [done|]. by apply prefix_app_r.
Qed.
End sane.

(** ** The loop *)

Section loop.
Context `{PF : Platform} `{SC : SecureC} `{KP : Kperf} `{PC : PluginCode} `{HO : HashOrder}
  `{PQ : PriorityQueue}.
Context (reg : registry) (ms : gmap string nat).
Context (Hposts : ∀ l, Forall (sane reg ms) (call_posts l)).

Definition safe (d : Daemon) : Prop := sub_inv d ∧ sane_queue reg ms d.

Lemma sub_inv_queue q d : sub_inv d → sub_inv (set_queue q d).
Proof. apply sub_inv_same; try done; [by left|by apply same_topics_eq]. Qed.

Lemma sub_inv_time t d : sub_inv d → sub_inv (set_time t d).
Proof. done. Qed.

Lemma sub_inv_schedule q d :
  (∀ s, s ∈ q → s ∈ d_schedule d) → sub_inv d → sub_inv (set_schedule q d).
Proof.
  intros Hq. apply sub_inv_same; try done; [|by left|by apply same_topics_eq].
  intros Hs s Hin. by apply Hs, Hq.
Qed.

Lemma HandleMessage_safe fuel d :
  safe d → twp (HandleMessage reg fuel) (λ _ d', safe d') d.
Proof.
  revert d. induction fuel as [|fuel IH]; intros d [Hinv Hq]; cbn [HandleMessage];
    apply twp_bind, twp_get; (destruct (d_queue d) as [|msg queue] eqn:Eq; [by apply twp_ret|]).
  { by apply twp_ret. }
  destruct Hq as [Hi Hq]. rewrite Eq in Hq. apply list.Forall_cons in Hq as [Hmsg Hq].
  apply twp_bind, twp_modify. set (d1 := set_queue queue d).
  assert (sub_inv d1) as Hinv1 by (by apply sub_inv_queue).
  apply twp_bind. eapply twp_mono.
  { apply (keeps_twp (sane_queue reg ms)); [by apply keeps_handle_sane|by split|].
    apply handle_twp; [done|]. apply sane_message_ok. by rewrite <-Hi in Hmsg. }
  intros r d2 [[Hinv2 _] Hq2]. cbn beta.
  destruct (rm_type msg); solve [by apply IH|by apply twp_ret].
Qed.

Lemma ScheduleRound_sub_inv d : sub_inv d → twp ScheduleRound (λ _ d', sub_inv d') d.
Proof.
  intros Hinv. pose proof Hinv as ((_ & Hso & _ & Hto) & _). unfold ScheduleRound.
  apply twp_bind, twp_get. destruct (d_schedule d) as [|e q0] eqn:Eq; [by apply twp_ret|].
  rewrite <-Eq. destruct (pq_top_max (d_heap d) (d_schedule d)) as (s & Hs & _).
  { by rewrite Eq. }
  pose proof (list_elem_of_lookup_2 _ _ _ Hs) as Hin. destruct (Hso s Hin) as [x Hx].
  rewrite Hs. apply twp_bind, twp_ret. cbn beta. case_decide; [by apply twp_ret|].
  apply twp_bind, twp_modify. set (d1 := set_schedule _ d).
  assert (sub_inv d1) as Hinv1.
  { apply sub_inv_schedule; [|done]. intros y Hy.
    rewrite (remove_at_perm _ _ _ Hs). by right. }
  apply twp_bind, (load_twp _ x); [done|]. destruct (negb (in_enabled x)); [by apply twp_ret|].
  apply twp_bind. eapply twp_mono; [apply call_quiet|]. intros r d2 (Hq & Hh & _). cbn beta.
  assert (d_heap d2 !! si_instance s = Some x) as Hx2 by (by rewrite Hh).
  apply quiet_evolves in Hq. pose proof (evolves_inv _ _ Hq Hinv1) as Hinv2. apply twp_bind.
  destruct (has_flag _ x).
  - eapply twp_mono; [eapply CloseInstance_switches; [apply Hinv2|done]|].
    intros ? d3 Hsw. apply switches_evolves in Hsw. apply twp_ret. by eapply evolves_inv.
  - eapply twp_mono; [by eapply schedule_push_evolves|].
    intros ? d3 [He _]. apply twp_ret. by eapply evolves_inv.
Qed.

Lemma Schedule_safe fuel d : safe d → twp (Schedule fuel) (λ _ d', safe d') d.
Proof.
  revert d. induction fuel as [|fuel IH]; intros d Hd; cbn [Schedule]; [by apply twp_ret|].
  apply twp_bind. eapply twp_mono.
  { apply (keeps_twp (sane_queue reg ms)); [by apply keeps_ScheduleRound_sane|apply Hd|].
    apply ScheduleRound_sub_inv, Hd. }
  intros more d1 Hd1. cbn beta. destruct more; [by apply IH|by apply twp_ret].
Qed.

Lemma StartRound_safe fuel d : safe d → twp (StartRound reg fuel) (λ _ d', safe d') d.
Proof.
  intros Hd. unfold StartRound. apply twp_bind. eapply twp_mono; [by apply HandleMessage_safe|].
  intros [[|]|] d1 Hd1; cbn beta iota; [|by apply twp_ret..].
  apply twp_bind. eapply twp_mono; [by apply Schedule_safe|]. intros fin d2 Hd2. cbn beta.
  destruct fin; [|by apply twp_ret]. apply twp_bind, twp_modify, twp_ret. done.
Qed.

Lemma Start_twp rounds fuel d : safe d → twp (Start reg rounds fuel) (λ _ d', safe d') d.
Proof.
  revert d. induction rounds as [|n IH]; intros d Hd; cbn [Start]; [by apply twp_ret|].
  apply twp_bind. eapply twp_mono; [by apply StartRound_safe|].
  intros [[|]|] d1 Hd1; cbn beta iota; [by apply IH|by apply twp_ret..].
Qed.
End loop.
