(* ===== verification/World.v ===== *)
(** * A concrete daemon

    Instances of the interfaces that stand for the C++ library's containers
    and for the plugins, and a small daemon, for the examples that run the
    code. *)

From Stdlib Require Import ZArith Lia Strings.Byte Sorting.Sorted.
From stdpp Require Import base list strings gmap numbers sorting.
From S2P Require Import Prelude Bytes Serialize StdString Utils DataTypes SecureC DataRegister.
From S2P Require Import RoundTrip Registry MessageProtocol Daemon InstanceRun.
From S2P Require Import InstanceRunLemmas Subscriptions ScheduleProps.
From S2P Require Import SchedulerSafety.

(** ** A concrete world *)

(** Containers visited in the order [elements] lists them. *)
Definition hash_ref : HashOrder.
Proof. refine {| hash_order := elements |}. done. Defined.

Definition order_ref (K : Type) `{Countable K} : HashOrderOf K.
Proof. refine {| order_of := elements |}. done. Defined.

(** Plugins whose every call succeeds and posts nothing. *)
Definition plugins_ok : PluginCode := {|
  call_result := λ _, (0, EmptyString);
  call_posts := λ _, [];
|}.

(** The first greatest entry. *)
Fixpoint first_max (h : gmap nat Instance) (k bk : nat) (b : ScheduleInstance)
    (q : list ScheduleInstance) : nat :=
  match q with
  | [] => bk
  | y :: q => if sched_lt h b y then first_max h (S k) k y q else first_max h (S k) bk b q
  end.
Definition top_ref (h : gmap nat Instance) (q : list ScheduleInstance) : nat :=
  match q with [] => 0%nat | x :: q => first_max h 1 0 x q end.

Lemma sched_lt_trans h a b c : sched_lt h a b = true → sched_lt h b c = true → sched_lt h a c = true.
Proof.
  unfold sched_lt. rewrite !orb_true_iff, !andb_true_iff, !bool_decide_eq_true. lia.
Qed.
Lemma sched_lt_irrefl h a : sched_lt h a a = false.
Proof.
  unfold sched_lt. apply orb_false_iff. rewrite andb_false_iff, !bool_decide_eq_false. lia.
Qed.

Lemma first_max_spec h (l : list ScheduleInstance) k bk b (q : list ScheduleInstance) :
  l !! bk = Some b → (∀ i y, q !! i = Some y → l !! (k + i)%nat = Some y) →
  ∃ x, l !! first_max h k bk b q = Some x ∧
    (sched_lt h x b = false) ∧ (∀ y, y ∈ q → sched_lt h x y = false) ∧
    (x = b ∨ sched_lt h b x = true).
Proof.
  revert k bk b. induction q as [|y q IH]; intros k bk b Hb Hq; simpl.
  { exists b. split_and!; [done|apply sched_lt_irrefl|by intros ? ?%not_elem_of_nil|by left]. }
  assert (l !! k = Some y) as Hy by (rewrite <-(Nat.add_0_r k); by apply (Hq 0%nat)).
  assert (∀ i z, q !! i = Some z → l !! (S k + i)%nat = Some z) as Hq'.
  { intros i z Hz. replace (S k + i)%nat with (k + S i)%nat by lia. by apply Hq. }
  destruct (sched_lt h b y) eqn:E.
  - destruct (IH (S k) k y Hy Hq') as (x & Hx & Hxy & Hall & Hor). exists x.
    assert (sched_lt h b x = true) as Hbx.
    { destruct Hor as [->|]; [done|]. by eapply sched_lt_trans. }
    split_and!; [done| | |by right].
    + destruct (sched_lt h x b) eqn:E2; [|done].
      pose proof (sched_lt_trans h _ _ _ E2 Hbx) as E3. by rewrite sched_lt_irrefl in E3.
    + intros z [->|Hz]%elem_of_cons; [done|by apply Hall].
  - destruct (IH (S k) bk b Hb Hq') as (x & Hx & Hxb & Hall & Hor). exists x.
    split_and!; [done|done| |done]. intros z [->|Hz]%elem_of_cons; [|by apply Hall].
    destruct Hor as [->|Hbx]; [done|]. destruct (sched_lt h x y) eqn:E2; [|done].
    pose proof (sched_lt_trans h _ _ _ Hbx E2). congruence.
Qed.

Definition queue_ref : PriorityQueue.
Proof.
  refine {| pq_top := top_ref |}. intros h [|x q] Hq; [done|]. simpl.
  destruct (first_max_spec h (x :: q) 1 0 x q) as (z & Hz & Hzx & Hall & _); [done|done|].
  exists z. split; [done|]. intros y [->|Hy]%elem_of_cons; [done|by apply Hall].
Defined.

(** Two collectors, one tuning instance and one that runs once, all loaded. *)
Definition world_instance (name : string) (type priority period : Z) : Instance :=
  mkInstance name "p.so" true false 0 {["t"%string]} ∅ type priority period.

Definition world : Daemon := mkDaemon
  (list_to_map [(0%nat, world_instance "collector" 0 0 100);
                (1%nat, world_instance "scenario" 8 1 100);
                (2%nat, world_instance "tune" 16 2 100);
                (3%nat, world_instance "once" 2 0 100)])
  (list_to_map [("collector", 0%nat); ("scenario", 1%nat); ("tune", 2%nat); ("once", 3%nat)]%string)
  ∅ [] [] ∅ ∅ [] 0 [] [].

Lemma world_lookup i x : d_heap world !! i = Some x →
  x ∈ [world_instance "collector" 0 0 100; world_instance "scenario" 8 1 100;
       world_instance "tune" 16 2 100; world_instance "once" 2 0 100].
Proof.
  intros Hx. apply elem_of_list_to_map_2 in Hx. set_solver.
Qed.

Lemma world_inv : sub_inv world.
Proof.
  split_and!.
  - split_and!.
    + intros n i Hi. apply elem_of_list_to_map_2 in Hi.
      repeat (apply elem_of_cons in Hi as [[= -> ->]|Hi]; [by eexists|]).
      by apply not_elem_of_nil in Hi.
    + intros s Hs. by apply not_elem_of_nil in Hs.
    + done.
    + intros i x ty Hx Hty. apply world_lookup in Hx.
      repeat (apply elem_of_cons in Hx as [->|Hx]; [set_solver|]). by apply not_elem_of_nil in Hx.
  - intros i x Hx. apply world_lookup in Hx.
    repeat (apply elem_of_cons in Hx as [->|Hx]; [by_decide|]). by apply not_elem_of_nil in Hx.
  - set_solver.
  - intros ty s (X & HX & _). done.
  - intros topic. split; [done|]. intros [_ (s & X & HX & _)]. done.
Qed.

Lemma world_safe reg :
  @safe platform_ref secure_c_ref kperf_ref reg (d_instances world) world.
Proof. split; [apply world_inv|]. split; [done|constructor]. Qed.

(** Runs a closed state computation. *)
Definition run_state {A} (m : St Daemon A) (d : Daemon) : Daemon :=
  match m d with Ret (_, d') => d' | _ => d end.

