(* ===== verification/SchedulerTheorems.v ===== *)
(** * The properties of the scheduler

    The theorems about [InstanceRunHandler], each with a run of the code on a
    concrete daemon. *)

From Stdlib Require Import ZArith Lia Strings.Byte Sorting.Sorted.
From stdpp Require Import base list strings gmap numbers sorting.
From S2P Require Import Prelude Bytes Serialize StdString Utils DataTypes SecureC DataRegister.
From S2P Require Import RoundTrip Registry MessageProtocol Daemon InstanceRun.
From S2P Require Import InstanceRunLemmas Subscriptions ScheduleProps.
From S2P Require Import SchedulerSafety World.

(** ** Subscriptions *)

(** C1. The scheduler implements subscriptions: from a state of the
    invariant, handling any well-formed message returns, changes the relation
    between types and subscribers as the specification of the message says
    (a successful subscription adds one pair, an unsubscription removes one,
    the departure of an SDK client removes all of its pairs, and nothing else
    changes any), and re-establishes the invariant, so that after every
    message a topic is open exactly when somebody is subscribed to it. *)
Theorem handle_refines_spec {PF : Platform} {SC : SecureC} {KP : Kperf} {PC : PluginCode}
    {HO : HashOrder} (reg : registry) (d : Daemon) (msg : RunMessage)
    (Hinv : sub_inv d) (Hmsg : message_ok reg d msg) :
  ∃ r d', handle reg msg d = Ret (r, d') ∧ sub_inv d' ∧
    ∀ ty s, subscribed d' ty s ↔ spec msg r (subscribed d) ty s.
Proof. apply twp_alt, handle_twp; done. Qed.

Definition subscribe_msg : RunMessage :=
  run_message RT_SUBSCRIBE ["collector::t::"; "scenario"]%string.

Lemma handle_refines_spec_witness :
  ∃ r d', @handle platform_ref secure_c_ref kperf_ref plugins_ok hash_ref
            (InitRegisterData Arm ∅) subscribe_msg world = Ret (r, d') ∧ sub_inv d' ∧
    ∀ ty s, subscribed d' ty s ↔ spec subscribe_msg r (subscribed world) ty s.
Proof.
  apply (@handle_refines_spec platform_ref secure_c_ref kperf_ref plugins_ok hash_ref).
  - apply world_inv.
  - split; [by eexists|]. right. by_decide.
Defined.

(** [UpdateInstance] closes exactly what nobody is subscribed to: it
    returns; a topic is open afterwards when it was open and its type has an
    entry among the subscribers; an instance of the topic table none of whose
    topics is open afterwards is disabled, and every other object keeps its
    state; the tables of instances, plugins and subscribers and the run queue
    are untouched. *)
Theorem UpdateInstance_correct {PC : PluginCode} {HO : HashOrder} (d : Daemon)
    (Hok : daemon_ok d) :
  ∃ d', UpdateInstance d = Ret (tt, d') ∧ daemon_ok d' ∧ rest d' = rest d ∧
    (∀ i t p, topic_on (d_topicState d') i t p =
       topic_on (d_topicState d) i t p && has_entry (d_subscibers d) i t p) ∧
    (∀ n j, d_instances d !! n = Some j → n ∈ dom (d_topicState d) →
       (∀ t p, topic_on (d_topicState d') n t p = false) → enabled_map d' !! j = Some false) ∧
    (∀ j, (∀ n, d_instances d !! n = Some j → n ∈ dom (d_topicState d) →
            ∃ t p, topic_on (d_topicState d') n t p = true) →
       enabled_map d' !! j = enabled_map d !! j).
Proof.
  destruct (proj1 (twp_alt _ _ _) (UpdateInstance_twp d Hok)) as ([] & d' & E & Hdone).
  exists d'. pose proof (entries_done_ok _ _ _ Hdone Hok).
  destruct Hdone as (Hr & _ & _ & Hon & Hoff & Hsame).
  setoid_rewrite elem_of_hash_order in Hoff. setoid_rewrite elem_of_hash_order in Hsame.
  split_and!; try done. intros i t p. rewrite Hon.
  destruct (topic_on (d_topicState d) i t p) eqn:Et; [|done].
  apply topic_on_dom in Et as (Hi & _). simpl.
  by rewrite bool_decide_false, orb_false_r by (rewrite elem_of_hash_order; auto).
Qed.

(** The collector runs and its topic is open, but the subscriber has left. *)
Definition world_open : Daemon :=
  set_heap (<[0%nat := set_openTopics (λ _, {["collector::t::"%string]})
                         (set_enabled true (world_instance "collector" 0 0 100))]> (d_heap world))
    (set_topicState (put_topic "collector" "t" "" true ∅) world).

Lemma world_open_ok : daemon_ok world_open.
Proof.
  split_and!.
  - intros n i Hi. destruct world_inv as ((Hs & _) & _).
    destruct (Hs n i Hi) as (x & Hx & Hn). destruct (decide (i = 0%nat)) as [->|].
    + eexists. split; [apply lookup_insert_eq|]. vm_compute in Hx. by injection Hx as <-.
    + exists x. split; [|done]. simpl. by rewrite lookup_insert_ne.
  - intros s Hs. by apply not_elem_of_nil in Hs.
  - unfold known_ok. apply (bool_decide_unpack _). by vm_compute.
  - intros i x ty Hx Hty. unfold world_open in Hx. cbn [d_heap set_heap] in Hx.
    apply lookup_insert_Some in Hx as [[<- <-]|[_ Hx]].
    + assert (ty = "collector::t::"%string) as -> by set_solver. by eexists.
    + destruct world_inv as ((_ & _ & _ & Ht) & _). by apply (Ht i x ty).
Qed.

Lemma UpdateInstance_correct_witness :
  ∃ d', @UpdateInstance plugins_ok hash_ref world_open = Ret (tt, d') ∧
    topic_on (d_topicState d') "collector" "t" "" = false ∧
    enabled_map d' !! 0%nat = Some false.
Proof.
  destruct (@UpdateInstance_correct plugins_ok hash_ref world_open world_open_ok)
    as (d' & E & _ & _ & _ & _). exists d'. split; [done|].
  vm_compute in E. injection E as <-. by vm_compute.
Defined.



(** ** The run queue *)

(** C17. [Schedule] terminates, and runs what is due: with no entry of the
    queue in the past, no instance queued twice for the present, and positive
    periods for the instances that do not run once, it returns after fewer
    than [fuel] rounds; the [Run] calls it made are those of the due and
    enabled instances, each exactly once, in order of priority; the entries
    that were not due stay, and each instance that ran and is periodic is
    queued again one period later. *)
Theorem Schedule_runs_due {PC : PluginCode} {HO : HashOrder} {PQ : PriorityQueue} (d : Daemon)
    (fuel : nat) (Hpre : sched_pre d) (Hnd : NoDup (map si_instance (due_entries d)))
    (Hfuel : (length (due_entries d) < fuel)%nat) :
  ∃ d', Schedule fuel d = Ret (true, d') ∧ d_time d' = d_time d ∧
    (∃ L, runs d' = runs d ++ map si_instance L ∧ L ≡ₚ runnable d ∧
          StronglySorted (by_priority (d_heap d)) L) ∧
    d_schedule d' ≡ₚ later_entries d ++ omap (reschedule d) (due_entries d).
Proof.
  destruct (proj1 (twp_alt _ _ _) (Schedule_twp fuel d Hpre Hnd Hfuel))
    as (fin & d' & E & -> & H). by exists d'.
Qed.

(** Four instances enabled at time 0: two are due now, two later. *)
Definition world_enabled : Daemon :=
  run_state (@EnableInstance plugins_ok "scenario" "" ;;
             @EnableInstance plugins_ok "once" "" ;;
             @EnableInstance plugins_ok "tune" "" ;;
             @EnableInstance plugins_ok "collector" "")%string world.

Lemma world_enabled_pre : sched_pre world_enabled.
Proof.
  assert (∀ s, s ∈ d_schedule world_enabled → s ∈ [mkSchedule 1 100; mkSchedule 3 0;
    mkSchedule 2 200; mkSchedule 0 0]) as Hs by done.
  split.
  - intros s Hin%Hs. repeat (apply elem_of_cons in Hin as [->|Hin]; [by eexists|]).
    by apply not_elem_of_nil in Hin.
  - intros i x ty Hx Hty.
    assert (map_Forall (λ _ x, in_openTopics x = ∅) (d_heap world_enabled)) as Hall by by_decide.
    rewrite (Hall i x Hx) in Hty. by apply not_elem_of_empty in Hty.
  - done.
  - intros s Hin%Hs. change (d_time world_enabled) with 0.
    repeat (apply elem_of_cons in Hin as [->|Hin]; [simpl; lia|]). by apply not_elem_of_nil in Hin.
  - intros s Hin%Hs _ x Hx.
    repeat (apply elem_of_cons in Hin as [->|Hin];
      [vm_compute in Hx; injection Hx as <-; first [left; vm_compute; reflexivity|right; split; by_decide]|]).
    by apply not_elem_of_nil in Hin.
Qed.

Lemma Schedule_runs_due_witness :
  ∃ d', @Schedule plugins_ok hash_ref queue_ref 3 world_enabled = Ret (true, d') ∧
    runs d' = [3; 0]%nat.
Proof.
  destruct (@Schedule_runs_due plugins_ok hash_ref queue_ref world_enabled 3 world_enabled_pre)
    as (d' & E & _).
  - by_decide.
  - vm_compute. lia.
  - exists d'. split; [done|]. vm_compute in E. injection E as <-. by vm_compute.
Defined.

(** ** Behaviours at the edges *)

Section blocked.
Context `{PC : PluginCode} `{HO : HashOrder} `{PQ : PriorityQueue}.

(** [n] rounds of running what is due and advancing the clock. *)
Fixpoint ticks (n fuel : nat) : St Daemon unit :=
  match n with
  | O => mret tt
  | S n => Schedule fuel ;; AddTime defaultCycleSize ;; ticks n fuel
  end.

Lemma ScheduleRound_blocked d s :
  s ∈ d_schedule d → si_time s < d_time d → ScheduleRound d = Ret (false, d).
Proof.
  intros Hs Ht. unfold ScheduleRound, mbind, St_bind, get.
  destruct (d_schedule d) as [|e q0] eqn:Eq; [done|]. rewrite <-Eq in *.
  destruct (pq_top_max (d_heap d) (d_schedule d)) as (x & Hx & Hmax); [by rewrite Eq|].
  rewrite Hx. simpl. rewrite decide_True; [done|].
  pose proof (sched_lt_time _ _ _ (Hmax s Hs)). lia.
Qed.

Lemma Schedule_idle d fuel :
  ScheduleRound d = Ret (false, d) → Schedule (S fuel) d = Ret (true, d).
Proof. intros E. cbn [Schedule]. unfold mbind, St_bind. by rewrite E. Qed.
End blocked.

(** An entry of the past blocks the queue: the loop stops at a top entry
    whose time differs from the present, and an overdue entry stays on top, so
    that from then on no instance is ever run, whatever is due, until the
    64-bit clock overflows. *)
Theorem Schedule_blocked {PC : PluginCode} {HO : HashOrder} {PQ : PriorityQueue} (d : Daemon)
    (s : ScheduleInstance) (n fuel : nat)
    (Hs : s ∈ d_schedule d) (Hlate : 0 ≤ si_time s < d_time d)
    (Hclock : d_time d + 10 * Z.of_nat n < 18446744073709551616) :
  ticks n (S fuel) d = Ret (tt, set_time (d_time d + 10 * Z.of_nat n) d).
Proof.
  revert d Hs Hlate Hclock. induction n as [|n IH]; intros d Hs Hlate Hclock.
  { simpl. rewrite Z.add_0_r. by destruct d. }
  cbn [ticks]. unfold mbind, St_bind.
  rewrite (Schedule_idle d fuel) by (eapply ScheduleRound_blocked; [done|lia]).
  unfold AddTime, modify, defaultCycleSize. rewrite wrap_id by (apply in_range_ulong; lia).
  rewrite IH; [|done|simpl; lia|simpl; lia]. cbn [d_time set_time].
  replace (d_time d + 10 + 10 * Z.of_nat n) with (d_time d + 10 * Z.of_nat (S n)) by lia. done.
Qed.

(** Periods that are not multiples of the 10 ms cycle get there: a collector
    with a period of 15 runs once at 0, is queued for 15, and at 20 blocks
    the queue. *)
Definition world_odd : Daemon :=
  run_state (@EnableInstance plugins_ok "odd" "" ;;
             @ticks plugins_ok hash_ref queue_ref 2 3)%string
    (set_heap {[0%nat := world_instance "odd" 0 0 15]}
      (set_store {["odd"%string := 0%nat]} ∅ world)).

Lemma Schedule_blocked_witness :
  runs world_odd = [0%nat] ∧ d_time world_odd = 20 ∧
  d_schedule world_odd = [mkSchedule 0 15] ∧
  @ticks plugins_ok hash_ref queue_ref 4 1 world_odd = Ret (tt, set_time (20 + 10 * 4) world_odd).
Proof.
  split_and!; [by vm_compute..|].
  apply (@Schedule_blocked plugins_ok hash_ref queue_ref world_odd (mkSchedule 0 15) 4 0).
  - vm_compute. left.
  - vm_compute. intuition congruence.
  - by vm_compute.
Defined.

(** Disabling and enabling again leaves two entries in the run queue: a
    periodic instance that is restarted before its time comes is then run
    twice each period. *)
Theorem reenable_runs_twice :
  let d := run_state (@EnableInstance plugins_ok "scenario" "" ;;
                      @DisableInstance plugins_ok hash_ref "scenario" ;;
                      @EnableInstance plugins_ok "scenario" "" ;;
                      @ticks plugins_ok hash_ref queue_ref 21 5)%string world in
  d_schedule d = [mkSchedule 1 300; mkSchedule 1 300] ∧ runs d = [1; 1; 1; 1]%nat.
Proof. by vm_compute. Qed.

(** A topic survives its instance: after the instance of an open topic
    was disabled, the scheduler still holds the topic for open, so the next
    subscriber is accepted and the instance enabled again, but its topic is
    not opened: of the calls made, only the first subscription's opened it. *)
Theorem resubscribe_does_not_reopen :
  let sub s := @handle platform_ref secure_c_ref kperf_ref plugins_ok hash_ref ∅
                 (run_message RT_SUBSCRIBE ["collector::t::"; s]%string) in
  let d := run_state (sub "scenario" ;;
             @DisableInstance plugins_ok hash_ref "collector" ;; sub "tune")%string world in
  is_enabled d 0 = true ∧ topic_on (d_topicState d) "collector" "t" "" = true ∧
  subscribed d "collector::t::" "tune" ∧
  d_calls d = [CallEnable 0 ""; CallOpenTopic 0 (mkTopic "collector" "t" "");
               CallCloseTopic 0 (mkTopic "collector" "t" ""); CallDisable 0;
               CallEnable 0 ""]%string.
Proof.
  vm_compute. split_and!; [done|done| |done]. eexists. split; [done|]. by_decide.
Qed.

(** The answer to a second subscription is not initialised: subscribing
    to a topic that is already open, of an instance that is enabled, succeeds
    with a [Result] whose code nothing has set, and that code is what the
    client is sent. *)
Theorem Subscribe_open_uninitialised {PC : PluginCode} {HO : HashOrder} (d : Daemon)
    (ty s : string) (topic : Topic) (i : nat) (x : Instance)
    (Ht : GetTopicFromType ty = Some topic)
    (Hi : d_instances d !! instanceName topic = Some i) (Hx : d_heap d !! i = Some x)
    (Hen : in_enabled x = true) (Hopen : is_open d topic) :
  ∃ d', Subscribe [ty; s] d = Ret (Result0, d') ∧ subscribed d' ty s ∧ r_code Result0 = None.
Proof.
  unfold is_open in Hopen. unfold Subscribe, mbind, St_bind. simpl. rewrite Ht. simpl.
  unfold GetInstance. rewrite Hi. unfold load, mbind, St_bind, get. rewrite Hx. simpl.
  rewrite Hen. simpl. rewrite Hopen. simpl.
  destruct (has_flag INSTANCE_RUN_ONCE x); eexists; (split; [reflexivity|]); (split; [|done]);
    unfold subscribed; simpl; eexists; (split; [apply lookup_insert_eq|]); set_solver.
Qed.

Lemma Subscribe_open_uninitialised_witness :
  ∃ d', @Subscribe plugins_ok hash_ref ["collector::t::"; "7"]%string world_open = Ret (Result0, d') ∧
    subscribed d' "collector::t::" "7" ∧ r_code Result0 = None.
Proof.
  apply (@Subscribe_open_uninitialised plugins_ok hash_ref world_open "collector::t::" "7"
    (mkTopic "collector" "t" "") 0 (set_openTopics (λ _, {["collector::t::"%string]})
      (set_enabled true (world_instance "collector" 0 0 100)))); reflexivity.
Defined.
