(* ===== verification/Config.v ===== *)
(** * Configuration and log levels (src/plugin_mgr/config.h, config.cpp,
      logger.h, logger.cpp)

    The configuration file is a YAML tree, which the library parses; the code
    under verification walks it. *)

From Stdlib Require Import ZArith Lia Strings.Byte.
From stdpp Require Import base list strings gmap numbers.
From S2P Require Import Prelude Bytes StdString.

(** ** The library's trees *)

(** [YAML::Node]: a missing key is undefined, an empty value null. *)
Inductive Node :=
| NUndefined
| NNull
| NScalar (s : string)
| NSequence (l : list Node)
| NMap (l : list (string * Node)).

(** [node[key]]: a scalar has no keys, and asking for one throws. *)
Fixpoint find_key (key : string) (l : list (string * Node)) : Node :=
  match l with
  | [] => NUndefined
  | (k, v) :: l => if decide (k = key) then v else find_key key l
  end.

Definition node_at (n : Node) (key : string) : option Node :=
  match n with
  | NMap l => Some (find_key key l)
  | NScalar _ => None
  | _ => Some NUndefined
  end.

(** Conversions; [None] is a [YAML::Exception].  Whether a null converts to a
    string depends on the library's version. *)
Class YamlConversions := { yaml_int : string → option Z; yaml_null : option string }.
Definition as_string `{YamlConversions} (n : Node) : option string :=
  match n with NScalar s => Some s | NNull => yaml_null | _ => None end.
Definition as_int `{YamlConversions} (n : Node) : option Z :=
  match n with NScalar s => yaml_int s | _ => None end.

Definition IsNull (n : Node) : bool := match n with NNull => true | _ => false end.
Definition IsDefined (n : Node) : bool := match n with NUndefined => false | _ => true end.
Definition IsMap (n : Node) : bool := match n with NMap _ => true | _ => false end.

(** ** Log levels *)

(** [LOG_LEVELS]: log4cplus's numbers for the six levels. *)
Definition INFO_LOG_LEVEL : Z := 20000.
Definition LOG_LEVELS : list Z := [0; 10000; INFO_LOG_LEVEL; 30000; 40000; 50000].
Definition OE_MAX_LOG_LEVELS : Z := 6.

Record Logger := mkLogger { lg_loggers : gmap string Z; lg_logPath : string; lg_logLevel : Z }.

(** [Logger::Init]. *)
Definition LoggerInit (path : string) (level : Z) (lg : Logger) : Z * Logger :=
  let len := Z.of_nat (length LOG_LEVELS) in
  if decide (level < 0 ∨ level >= len) then (-1, lg)
  else (0, mkLogger (lg_loggers lg) path (default 0 (LOG_LEVELS !! Z.to_nat level))).

(** [Logger::Register]: a logger that exists keeps its level. *)
Definition LoggerRegister (name : string) (lg : Logger) : Logger :=
  match lg_loggers lg !! name with
  | Some _ => lg
  | None => mkLogger (<[name := lg_logLevel lg]> (lg_loggers lg)) (lg_logPath lg) (lg_logLevel lg)
  end.

(** [Logger::ChangeAllLogLevel]: every logger but [Main] follows. *)
Definition ChangeAllLogLevel (level : Z) (lg : Logger) : bool * Logger :=
  let len := Z.of_nat (length LOG_LEVELS) in
  if decide (level < 0 ∨ level >= len) then (false, lg) else
  let log4Level := default 0 (LOG_LEVELS !! Z.to_nat level) in
  (true, mkLogger
     (map_imap (λ name l, Some (if decide (name = "Main"%string) then l else log4Level))
               (lg_loggers lg)) (lg_logPath lg) log4Level).

Definition LogText (text : string) : string :=
  if decide (text = EmptyString) then "nullptr"%string else text.

(** ** The configuration *)

Record PluginInfo := mkPluginInfo { pi_name : string; pi_description : string; pi_url : string }.
Record EnableItem := mkEnableItem {
  ei_instance : list string; ei_name : string; ei_enabled : bool }.
Record Config := mkConfig {
  c_logLevel : Z; c_logPath : string; c_pluginList : gmap string PluginInfo;
  c_enableList : list EnableItem }.

(** The constructor: the level is the library's number for [INFO]. *)
Definition Config0 : Config := mkConfig INFO_LOG_LEVEL EmptyString ∅ [].

Section config.
Context `{YamlConversions}.

Definition CheckPluginList (item : Node) : option bool :=
  name ← node_at item "name";
  if IsNull name then Some false else
  url ← node_at item "url";
  Some (negb (IsNull url)).

(** One round of [SetPluginList]: the first entry of a name counts. *)
Definition AddPluginItem (ps : gmap string PluginInfo) (item : Node) :
    option (gmap string PluginInfo) :=
  ok ← CheckPluginList item;
  if negb ok then Some ps else
  name ← node_at item "name" ≫= as_string;
  description ← node_at item "description" ≫= as_string;
  url ← node_at item "url" ≫= as_string;
  match ps !! name with
  | Some _ => Some ps
  | None => Some (<[name := mkPluginInfo name description url]> ps)
  end.

Fixpoint fold_items {A} (f : A → Node → option A) (a : A) (l : list Node) : option A :=
  match l with
  | [] => Some a
  | n :: l => a ← f a n; fold_items f a l
  end.

Definition SetPluginList (node : Node) (c : Config) : option Config :=
  pluginList ← node_at node "plugin_list";
  match pluginList with
  | NSequence l =>
    ps ← fold_items AddPluginItem (c_pluginList c) l;
    Some (mkConfig (c_logLevel c) (c_logPath c) ps (c_enableList c))
  | _ => Some c
  end.

(** One round of [SetEnableList]. *)
Definition AddEnableItem (items : list EnableItem) (item : Node) : option (list EnableItem) :=
  pluginName ← node_at item "name" ≫= as_string;
  instances ← node_at item "instances";
  if negb (IsDefined instances) || IsNull instances then
    Some (items ++ [mkEnableItem [] pluginName true])
  else
    match instances with
    | NSequence l =>
      names ← mapM as_string l;
      Some (items ++ [mkEnableItem names pluginName false])
    | _ => Some items
    end.

Definition SetEnableList (node : Node) (c : Config) : option Config :=
  enableList ← node_at node "enable_list";
  match enableList with
  | NSequence l =>
    items ← fold_items AddEnableItem (c_enableList c) l;
    Some (mkConfig (c_logLevel c) (c_logPath c) (c_pluginList c) items)
  | _ => Some c
  end.

(** The [try] block of [Config::Load], where the root is a map. *)
Definition LoadNode (node : Node) (c : Config) : option Config :=
  path ← node_at node "log_path";
  c ← (if IsNull path then Some c else
       s ← as_string path;
       Some (mkConfig (c_logLevel c) s (c_pluginList c) (c_enableList c)));
  level ← node_at node "log_level";
  c ← (if IsNull level then Some c else
       z ← as_int level;
       Some (mkConfig z (c_logPath c) (c_pluginList c) (c_enableList c)));
  plugins ← node_at node "plugin_list";
  c ← (if IsNull plugins then Some c else SetPluginList node c);
  enables ← node_at node "enable_list";
  if IsNull enables then Some c else SetEnableList node c.

(** [Config::Load]: [file] is what the library reads from the path, [None]
    when there is no such file or it does not parse.  A failed load ends the
    daemon, so what it had changed does not matter. *)
Definition Load (file : option Node) (c : Config) : bool * Config :=
  match file with
  | Some node =>
    if negb (IsMap node) then (false, c) else
    match LoadNode node c with Some c' => (true, c') | None => (false, c) end
  | None => (false, c)
  end.

Inductive ReloadError := NotFound | BadFormat | LevelRange.

(** [Config::Reload]: [stat] tells whether the file exists. *)
Definition Reload (stat : bool) (file : option Node) (c : Config) : option ReloadError * Config :=
  if negb stat then (Some NotFound, c) else
  match file with
  | None => (Some BadFormat, c)
  | Some node =>
    if negb (IsMap node) then (Some BadFormat, c) else
    match node_at node "log_level" with
    | None => (Some BadFormat, c)
    | Some n =>
      if IsNull n then (Some BadFormat, c) else
      match as_int n with
      | None => (Some BadFormat, c)
      | Some level =>
        if decide (level < 0 ∨ level >= OE_MAX_LOG_LEVELS) then (Some LevelRange, c)
        else (None, mkConfig level (c_logPath c) (c_pluginList c) (c_enableList c))
      end
    end
  end.

Definition reload_text (path : string) (e : ReloadError) : string :=
  match e with
  | NotFound => path +:+ " config file not found"
  | BadFormat => "config file format error"
  | LevelRange => "log level is out of range, must be in [0, " +:+
                  str_of (to_string (OE_MAX_LOG_LEVELS - 1)) +:+ "]"
  end%string.
End config.

(** ** Properties *)

Section facts.
Context `{YamlConversions}.

(** Reloading changes the log level or nothing: a reload that succeeds
    sets a level that [ChangeAllLogLevel] accepts, one that fails leaves the
    configuration as it was, and neither touches the lists of plugins. *)
Theorem Reload_valid (stat : bool) (file : option Node) (c : Config) :
  let '(err, c') := Reload stat file c in
  c_pluginList c' = c_pluginList c ∧ c_enableList c' = c_enableList c ∧
  c_logPath c' = c_logPath c ∧
  match err with
  | Some _ => c' = c
  | None => 0 ≤ c_logLevel c' < OE_MAX_LOG_LEVELS ∧
            ∀ lg, fst (ChangeAllLogLevel (c_logLevel c') lg) = true
  end.
Proof.
  unfold Reload. destruct stat; simpl; [|done]. destruct file as [node|]; [|done].
  destruct (IsMap node); simpl; [|done]. destruct (node_at node "log_level") as [n|]; [|done].
  destruct (IsNull n); [done|]. destruct (as_int n) as [level|]; [|done].
  case_decide as Hl; [done|]. simpl. split_and!; try done; try (unfold OE_MAX_LOG_LEVELS in *; lia).
  intros lg. unfold ChangeAllLogLevel. rewrite decide_False; [done|].
  unfold OE_MAX_LOG_LEVELS in Hl. simpl. lia.
Qed.

(** The default log level is not a level: a configuration file that
    leaves [log_level] empty keeps the constructor's level, which is the
    logging library's number for [INFO] rather than an index, and
    [Logger::Init] then refuses it, so that the daemon does not start. *)
Theorem Load_default_level (l : list (string * Node)) (lg : Logger) (path : string)
    (Hpath : find_key "log_path" l = NScalar path)
    (Hlevel : find_key "log_level" l = NNull)
    (Hplugins : find_key "plugin_list" l = NNull)
    (Henable : find_key "enable_list" l = NNull) :
  ∃ c, Load (Some (NMap l)) Config0 = (true, c) ∧ c_logLevel c = INFO_LOG_LEVEL ∧
       LoggerInit (c_logPath c) (c_logLevel c) lg = (-1, lg).
Proof.
  unfold Load, LoadNode, node_at. simpl. rewrite Hpath. simpl. rewrite Hlevel. simpl.
  rewrite Hplugins. simpl. rewrite Henable. simpl.
  eexists. split; [reflexivity|]. split; [done|]. done.
Qed.
End facts.

(** No scalar is a number. *)
Definition yaml_none : YamlConversions := {| yaml_int := λ _, None; yaml_null := None |}.

Lemma Load_default_level_witness :
  ∃ c, @Load yaml_none (Some (NMap [("log_path", NScalar "/var/log/oeAware");
         ("log_level", NNull); ("plugin_list", NNull); ("enable_list", NNull)]%string)) Config0
       = (true, c) ∧ c_logLevel c = INFO_LOG_LEVEL ∧
       LoggerInit (c_logPath c) (c_logLevel c) (mkLogger ∅ "" 0) = (-1, mkLogger ∅ "" 0).
Proof.
  apply (@Load_default_level yaml_none) with (path := "/var/log/oeAware"%string); reflexivity.
Defined.
