(* ===== verification/Handlers.v ===== *)
(** * The event handlers of the plugin manager (src/plugin_mgr/event,
      plugin.cpp, config.h)

    Each handler turns an event of a client into an [EventResult].  The ones
    that change the scheduler's state post a message and wait for it, which
    here runs the scheduler on the messages in front of it and then on it. *)

From Stdlib Require Import ZArith Lia Strings.Byte.
From stdpp Require Import base list strings gmap numbers.
From S2P Require Import Prelude Bytes Serialize StdString Utils DataTypes SecureC DataRegister.
From S2P Require Import Registry MessageProtocol Daemon InstanceRun Config.

(** ** Results *)

(** [EventResult]: the default constructor leaves [opt] uninitialised. *)
Record EventResult := mkEventResult { er_opt : option Opt; er_payload : list string }.

Inductive ErrorCode :=
| ENABLE_INSTANCE_NOT_LOAD | ENABLE_INSTANCE_UNAVAILABLE | ENABLE_INSTANCE_ALREADY_ENABLED
| ENABLE_INSTANCE_ENV | DISABLE_INSTANCE_NOT_LOAD | DISABLE_INSTANCE_UNAVAILABLE
| DISABLE_INSTANCE_ALREADY_DISABLED | REMOVE_PLUGIN_NOT_EXIST | REMOVE_INSTANCE_IS_RUNNING
| REMOVE_INSTANCE_HAVE_DEP | LOAD_PLUGIN_FILE_NOT_EXIST | LOAD_PLUGIN_FILE_PERMISSION_DEFINED
| LOAD_PLUGIN_FILE_IS_NOT_SO | LOAD_PLUGIN_EXIST | LOAD_PLUGIN_DLOPEN_FAILED
| LOAD_PLUGIN_DLSYM_FAILED | QUERY_PLUGIN_NOT_EXIST | QUERY_DEP_NOT_EXIST
| DOWNLOAD_NOT_FOUND | EC_OK.

#[export] Instance ErrorCode_eq_dec : EqDecision ErrorCode.
Proof. solve_decision. Defined.

(** [ErrorText::GetErrorText]. *)
Definition GetErrorText (code : ErrorCode) : string :=
  match code with
  | ENABLE_INSTANCE_NOT_LOAD => "instance is not loaded"
  | ENABLE_INSTANCE_UNAVAILABLE => "instance is unavailable"
  | ENABLE_INSTANCE_ALREADY_ENABLED => "instance is already enabled"
  | ENABLE_INSTANCE_ENV => "instance init environment failed"
  | DISABLE_INSTANCE_NOT_LOAD => "instance is not loaded"
  | DISABLE_INSTANCE_UNAVAILABLE => "instance is unavailable"
  | DISABLE_INSTANCE_ALREADY_DISABLED => "instance is already disabled"
  | REMOVE_PLUGIN_NOT_EXIST => "plugin does not exist"
  | REMOVE_INSTANCE_IS_RUNNING => "instance is running"
  | REMOVE_INSTANCE_HAVE_DEP => "instance with pre-dependency"
  | LOAD_PLUGIN_FILE_NOT_EXIST => "plugin file does not exist"
  | LOAD_PLUGIN_FILE_IS_NOT_SO => "file is not a plugin file"
  | LOAD_PLUGIN_FILE_PERMISSION_DEFINED =>
      "plugin file permission is not the specified permission"
  | LOAD_PLUGIN_EXIST => "plugin already loaded"
  | LOAD_PLUGIN_DLOPEN_FAILED => "plugin dlopen failed"
  | LOAD_PLUGIN_DLSYM_FAILED => "plugin dlsym failed"
  | QUERY_PLUGIN_NOT_EXIST => "plugin does not exist"
  | QUERY_DEP_NOT_EXIST => "instance does not exist"
  | DOWNLOAD_NOT_FOUND => "unable to find a match"
  | EC_OK => "unknown error."
  end%string.

Definition result_ok (payload : list string) : EventResult :=
  mkEventResult (Some RESPONSE_OK) payload.
Definition result_error (text : string) : EventResult :=
  mkEventResult (Some RESPONSE_ERROR) [text].

(** ** The environment a plugin is loaded from *)

(** The description of the [Interface] objects a library creates. *)
Record InterfaceDesc := mkInterfaceDesc {
  id_name : string; id_topics : list string; id_type : Z; id_priority : Z; id_period : Z
}.

Class Host := {
  file_exist : string → bool;                         (* std::ifstream(path).good() *)
  file_stat : string → option stat;                   (* lstat *)
  dl_load : string → option (list InterfaceDesc);     (* dlopen, then GetInstance *)
}.

Definition DEFAULT_PLUGIN_PATH : string := "/usr/lib64/oeAware-plugin".
Definition so_suffix : list byte := bytes_of ".so".
(** [S_IRUSR | S_IRGRP]. *)
Definition plugin_mode : Z := 288.

Section handlers.
Context `{PF : Platform} `{SC : SecureC} `{KP : Kperf} `{PC : PluginCode} `{HO : HashOrder}
  `{PQ : PriorityQueue} `{HS : Host}.
Context (reg : registry).

(** [RecvQueuePush(msg); msg->Wait();]: the scheduler pops the messages in
    front of [msg], then [msg]. *)
Fixpoint serve (n : nat) : St Daemon unit :=
  match n with
  | O => mret tt
  | S n =>
    d ← get;
    match d_queue d with
    | [] => mret tt
    | msg :: queue => modify (set_queue queue) ;; handle reg msg ;; serve n
    end
  end.

Definition post_and_wait (msg : RunMessage) : St Daemon Result :=
  d ← get;
  modify (set_queue (d_queue d ++ [msg])) ;;
  serve (length (d_queue d)) ;;
  d ← get;
  match d_queue d with
  | [] => undef
  | msg :: queue => modify (set_queue queue) ;; handle reg msg
  end.

(** ** Enabling and disabling *)

Definition InstanceEnabled (name param : string) : St Daemon (ErrorCode * string) :=
  d ← get;
  match GetInstance name d with
  | None => mret (ENABLE_INSTANCE_NOT_LOAD, EmptyString)
  | Some i =>
    instance ← load i;
    if negb (in_state instance) then mret (ENABLE_INSTANCE_UNAVAILABLE, EmptyString) else
    if in_enabled instance then mret (ENABLE_INSTANCE_ALREADY_ENABLED, EmptyString) else
    result ← post_and_wait (run_message RT_ENABLED [in_name instance; param]);
    failed ← code_negative result;
    mret (if failed : bool then ENABLE_INSTANCE_ENV else EC_OK, r_payload result)
  end.

Definition EnableHandle (event : Event) : St Daemon EventResult :=
  match ev_payload event with
  | [] => mret (result_error "enable event error")
  | name :: more =>
    let param := default EmptyString (head more) in
    '(retCode, err) ← InstanceEnabled name param;
    if decide (retCode = EC_OK) then mret (result_ok [])
    else mret (result_error (if decide (err = EmptyString) then GetErrorText retCode else err))
  end.

Definition InstanceDisabled (name : string) : St Daemon ErrorCode :=
  d ← get;
  match GetInstance name d with
  | None => mret DISABLE_INSTANCE_NOT_LOAD
  | Some i =>
    instance ← load i;
    if negb (in_state instance) then mret DISABLE_INSTANCE_UNAVAILABLE else
    if negb (in_enabled instance) then mret DISABLE_INSTANCE_ALREADY_DISABLED else
    post_and_wait (run_message RT_DISABLED [in_name instance]) ;;
    mret EC_OK
  end.

Definition DisableHandle (event : Event) : St Daemon EventResult :=
  match ev_payload event with
  | [] => mret (result_error "disable event error")
  | name :: _ =>
    retCode ← InstanceDisabled name;
    mret (if decide (retCode = EC_OK) then result_ok [] else result_error (GetErrorText retCode))
  end.

(** ** Loading and removing plugins *)

(** The body of the loop of [Plugin::SaveInstance]: a new object. *)
Definition SaveInstance (plugin : string) (x : InterfaceDesc) : St Daemon nat :=
  d ← get;
  let i := fresh (dom (d_heap d)) in
  modify (set_heap (<[i := mkInstance (id_name x) plugin true false 0
    (list_to_set (id_topics x)) ∅ (id_type x) (id_priority x) (id_period x)]> (d_heap d))) ;;
  mret i.

Fixpoint SaveInstances (plugin : string) (l : list InterfaceDesc) : St Daemon (list nat) :=
  match l with
  | [] => mret []
  | x :: l => i ← SaveInstance plugin x; ids ← SaveInstances plugin l; mret (i :: ids)
  end.

Definition LoadPlugin (name : string) : St Daemon ErrorCode :=
  let plugin_path := (DEFAULT_PLUGIN_PATH +:+ "/" +:+ name)%string in
  if negb (file_exist plugin_path) then mret LOAD_PLUGIN_FILE_NOT_EXIST else
  if negb (Utils.EndWith (bytes_of name) so_suffix) then mret LOAD_PLUGIN_FILE_IS_NOT_SO else
  match CheckPermission (file_stat plugin_path) plugin_mode with
  | Ret false => mret LOAD_PLUGIN_FILE_PERMISSION_DEFINED
  | Ret true =>
    d ← get;
    if IsPluginExist name d then mret LOAD_PLUGIN_EXIST else
    match dl_load plugin_path with
    | None => mret LOAD_PLUGIN_DLOPEN_FAILED
    | Some descs =>
      ids ← SaveInstances name descs;
      modify (AddPlugin name (mkPlugin name ids)) ;;
      for_each ids AddInstance ;;
      mret EC_OK
    end
  | Throw e => throw e
  | Undef => undef
  end.

Definition LoadHandle (event : Event) : St Daemon EventResult :=
  match ev_payload event with
  | [] => mret (result_error "load event error")
  | name :: _ =>
    retCode ← LoadPlugin name;
    mret (if decide (retCode = EC_OK) then result_ok [] else result_error (GetErrorText retCode))
  end.

(** The loop that collects the names, or stops at a running instance. *)
Fixpoint removable (ids : list nat) : St Daemon (option (list string)) :=
  match ids with
  | [] => mret (Some [])
  | i :: ids =>
    instance ← load i;
    if in_enabled instance then mret None else
    names ← removable ids;
    mret (cons (in_name instance) <$> names)
  end.

Definition Remove (name : string) : St Daemon ErrorCode :=
  d ← get;
  match GetPlugin name d with
  | None => mret REMOVE_PLUGIN_NOT_EXIST
  | Some plugin =>
    instanceNames ← removable (pl_instances plugin);
    match instanceNames with
    | None => mret REMOVE_INSTANCE_IS_RUNNING
    | Some instanceNames =>
      for_each instanceNames (λ iname, modify (DeleteInstance iname)) ;;
      modify (DeletePlugin name) ;;
      mret EC_OK
    end
  end.

Definition RemoveHandle (event : Event) : St Daemon EventResult :=
  match ev_payload event with
  | [] => mret (result_error "remove event error")
  | name :: _ =>
    retCode ← Remove name;
    mret (if decide (retCode = EC_OK) then result_ok [] else result_error (GetErrorText retCode))
  end.

(** ** Queries *)

Definition newline : string := String (Ascii.ascii_of_nat 10) EmptyString.
Definition tab : string := String (Ascii.ascii_of_nat 9) EmptyString.

Fixpoint plugin_text (ids : list nat) (res : string) : St Daemon string :=
  match ids with
  | [] => mret res
  | i :: ids =>
    x ← load i;
    plugin_text ids (res +:+ tab +:+ GetInfo x +:+ newline)%string
  end.

Fixpoint plugins_text (ps : list Plugin) (res : string) : St Daemon string :=
  match ps with
  | [] => mret res
  | p :: ps =>
    res ← plugin_text (pl_instances p) (res +:+ pl_name p +:+ newline)%string;
    plugins_text ps res
  end.

Definition QueryAllPlugins : St Daemon string :=
  d ← get; plugins_text (GetAllPlugins d) EmptyString.

Definition QueryPlugin (name : string) : St Daemon (ErrorCode * string) :=
  d ← get;
  match GetPlugin name d with
  | None => mret (QUERY_PLUGIN_NOT_EXIST, EmptyString)
  | Some p => res ← plugin_text (pl_instances p) (name +:+ newline)%string; mret (EC_OK, res)
  end.

Definition QueryHandle (event : Event) : St Daemon EventResult :=
  if decide (ev_opt event = QUERY_ALL) then
    resText ← QueryAllPlugins; mret (result_ok [resText])
  else
    match ev_payload event with
    | [] => mret (result_error "query event error")
    | name :: _ =>
      '(retCode, resText) ← QueryPlugin name;
      mret (if decide (retCode = EC_OK) then result_ok [resText]
            else result_error (GetErrorText retCode))
    end.

(** The edges of the subscription graph of one instance. *)
Definition QuerySubGraph (name : string) (graph : list (string * string)) :
    St Daemon (ErrorCode * list (string * string)) :=
  d ← get;
  match GetInstance name d with
  | None => mret (QUERY_DEP_NOT_EXIST, graph)
  | Some _ =>
    mret (EC_OK, graph ++ omap (λ type : string,
      X ← (d_subscibers d !! type : option (gset string));
      if decide (name ∈ X) then Some (name, type) else None)
      (hash_order (dom (d_subscibers d))))
  end.

Definition quote : string := String (Ascii.ascii_of_nat 34) EmptyString.

Definition GenerateDot (graph : list (string * string)) : string :=
  ("digraph G {" +:+ newline +:+ "    rankdir = TB" +:+ newline +:+ "    ranksep = 1" +:+
   newline +:+
   foldr (λ p res, "    " +:+ fst p +:+ "->" +:+ quote +:+ snd p +:+ quote +:+ ";" +:+
                   newline +:+ res) "}" graph)%string.

Fixpoint graph_of_names (ids : list nat) (graph : list (string * string)) :
    St Daemon (list (string * string)) :=
  match ids with
  | [] => mret graph
  | i :: ids =>
    x ← load i;
    '(_, graph) ← QuerySubGraph (in_name x) graph;
    graph_of_names ids graph
  end.

Definition QuerySubscribeGraphHandle (event : Event) : St Daemon EventResult :=
  if decide (ev_opt event = QUERY_ALL_SUB_GRAPH) then
    d ← get;
    graph ← graph_of_names (concat (map pl_instances (GetAllPlugins d))) [];
    mret (result_ok [GenerateDot graph])
  else
    match ev_payload event with
    | [] => mret (result_error "query subscribe graph event error")
    | name :: _ =>
      '(retCode, graph) ← QuerySubGraph name [];
      mret (if decide (retCode = EC_OK) then result_ok [GenerateDot graph]
            else result_error (GetErrorText retCode))
    end.

(** ** Subscriptions and data *)

(** [Encode(result)]: an uninitialised code is sent as whatever it holds. *)
Definition EncodeResult (r : Result) : string :=
  match (Serialize CInt (default stack_int (r_code r)) ;; SerializeString (r_payload r)) [] with
  | Ret (_, out) => str_of out
  | _ => EmptyString
  end.

Definition TopicRead : St InStream Topic :=
  i ← DeserializeString EmptyString;
  t ← DeserializeString EmptyString;
  p ← DeserializeString EmptyString;
  mret (mkTopic i t p).

Definition HandlerSubscribe (name : string) (topic : Topic) : St Daemon Result :=
  d ← get;
  match GetInstance (instanceName topic) d with
  | None => mret (mkResult (Some FAILED) "instance does not exist.")
  | Some i =>
    instance ← load i;
    if decide (topicName topic ∉ in_supportTopics instance)
    then mret (mkResult (Some FAILED) "topic does not exist.")
    else post_and_wait (run_message RT_SUBSCRIBE [GetType topic; name])
  end.

Definition SubscribeHandle (event : Event) : St Daemon EventResult :=
  match ev_payload event with
  | [bytes; name] =>
    topic ← on_string TopicRead (bytes_of bytes);
    result ← HandlerSubscribe name topic;
    mret (mkEventResult (Some SUBSCRIBE) [EncodeResult result])
  | _ => mret (result_error "subscribe event error")
  end.

Definition UnsubscribeHandle (event : Event) : St Daemon EventResult :=
  match ev_payload event with
  | [fd] =>
    post_and_wait (run_message RT_UNSUBSCRIBE_SDK [fd]) ;; mret (mkEventResult None [])
  | [bytes; name] =>
    topic ← on_string TopicRead (bytes_of bytes);
    result ← post_and_wait (run_message RT_UNSUBSCRIBE [GetType topic; name]);
    mret (mkEventResult (Some UNSUBSCRIBE) [EncodeResult result])
  | _ => mret (result_error "unsubscribe event error")
  end.

Definition PublishHandle (event : Event) : St Daemon EventResult :=
  result ← post_and_wait (run_message RT_PUBLISH (ev_payload event));
  mret (mkEventResult (Some PUBLISH) [EncodeResult result]).

(** ** The configuration's handlers *)

Definition Download (cfg : Config) (name res : string) : ErrorCode * string :=
  match c_pluginList cfg !! name with
  | None => (DOWNLOAD_NOT_FOUND, res)
  | Some info => (EC_OK, (res +:+ pi_url info)%string)
  end.

Definition DownloadHandle (cfg : Config) (event : Event) : EventResult :=
  match ev_payload event with
  | [] => result_error "download event error"
  | name :: _ =>
    let '(retCode, resText) := Download cfg name EmptyString in
    if decide (retCode = EC_OK) then result_ok [resText]
    else result_error (GetErrorText retCode)
  end.
End handlers.
