(* ===== verification/InfoCmd.v ===== *)
(** * The [info] command's table (src/plugin_mgr/event/info_cmd_handler.cpp)

    Three columns of wrapped text per instance of the tuning plugins. *)

From Stdlib Require Import ZArith Lia Strings.Byte.
From stdpp Require Import base list strings gmap numbers.
From S2P Require Import Prelude Bytes Serialize StdString Utils DataTypes SecureC DataRegister.
From S2P Require Import Registry MessageProtocol Daemon InstanceRun Handlers.

Definition space : byte := x20.

(** [text.find_first_of(" ", start)]. *)
Definition find_first (text : list byte) (start : nat) : option nat :=
  (λ k, (start + k)%nat) <$> find_byte space (drop start text).

(** [text.find_last_of(" ", pos)]: the last space at [pos] or before. *)
Fixpoint find_last (text : list byte) (pos : nat) : option nat :=
  if decide (text !! pos = Some space) then Some pos
  else match pos with O => None | S pos => find_last text pos end.

Fixpoint skip_spaces (text : list byte) (fuel start : nat) : nat :=
  match fuel with
  | O => start
  | S fuel =>
    if decide (text !! start = Some space) then skip_spaces text fuel (S start) else start
  end.

(** The loop of [wrapText]: each round moves [start] forward, so the length of
    the text bounds the rounds. *)
Fixpoint wrap_loop (text : list byte) (width fuel start : nat) : list (list byte) :=
  match fuel with
  | O => []
  | S fuel =>
    if decide (start < length text)%nat then
      if decide (length text - start ≤ width)%nat then [drop start text] else
      let cut stop :=
        take (stop - start) (drop start text) ::
        wrap_loop text width fuel (skip_spaces text (length text) (S stop)) in
      let first :=
        match find_first text start with
        | None => [drop start text]
        | Some stop => cut stop
        end in
      match find_last text (start + width) with
      | None => first
      | Some stop => if decide (stop < start)%nat then first else cut stop
      end
    else []
  end.

Definition wrapText (text : list byte) (width : nat) : list (list byte) :=
  wrap_loop text width (S (length text)) 0.

(** [std::left << std::setw(width) << s]. *)
Definition pad (width : nat) (s : list byte) : list byte :=
  s ++ replicate (width - length s) space.

Definition instanceWidth : nat := 26.
Definition descriptionWidth : nat := 40.
Definition effectWidth : nat := 40.
Definition bar : byte := x7c.
Definition nl : byte := x0a.

Definition rule : list byte :=
  replicate (instanceWidth + 1 + descriptionWidth + 1 + effectWidth) dash ++ [nl].

Definition cell (lines : list (list byte)) (j : nat) : list byte := default [] (lines !! j).

(** One line of the table; a column that has run out of text is left blank. *)
Definition row (instanceNames descriptions effects : list (list byte)) (j : nat) : list byte :=
  pad instanceWidth (cell instanceNames j) ++ [bar] ++
  pad descriptionWidth (cell descriptions j) ++ [bar] ++
  pad effectWidth (cell effects j) ++ [nl].

(** The number of lines does not depend on the first column. *)
Definition FormatAndPrint (instanceName description effect : list byte) : list byte :=
  let instanceNames := wrapText instanceName instanceWidth in
  let descriptions := wrapText description descriptionWidth in
  let effects := wrapText effect effectWidth in
  let maxLines := Nat.max (Nat.max (length descriptions) (length effects)) 1 in
  concat (map (row instanceNames descriptions effects) (seq 0 maxLines)) ++ rule.

Record InfoCmd := mkInfoCmd { ic_instance : string; ic_description : string; ic_effect : string }.

(** The first entry for the instance, or blanks. *)
Fixpoint GetInfoOf (infoCmd : list InfoCmd) (name : string) : InfoCmd :=
  match infoCmd with
  | [] => mkInfoCmd name "" ""
  | x :: l => if decide (ic_instance x = name) then x else GetInfoOf l name
  end.

(** ** Properties of the wrapping *)

Definition visible (l : list byte) : list byte := filter (λ b, b ≠ space) l.

Section wrapping.
Lemma visible_app l1 l2 : visible (l1 ++ l2) = visible l1 ++ visible l2.
Proof. apply list.filter_app. Qed.

Lemma find_byte_spec c l k : find_byte c l = Some k → l !! k = Some c.
Proof.
  revert k. induction l as [|b l IH]; intros k; simpl; [done|].
  case_decide as E; [by intros [= <-]; subst|].
  destruct (find_byte c l) as [j|]; simpl; [|done]. intros [= <-]. by apply IH.
Qed.

Lemma find_byte_take c l k : find_byte c l = Some k → c ∉ take k l.
Proof.
  revert k. induction l as [|b l IH]; intros k; simpl; [done|].
  case_decide as Hb; [intros [= <-]; set_solver|].
  destruct (find_byte c l) as [j|]; simpl; [|done]. intros [= <-].
  specialize (IH j eq_refl). set_solver.
Qed.

Lemma find_byte_None c l : find_byte c l = None → c ∉ l.
Proof.
  induction l as [|b l IH]; simpl; [set_solver|]. case_decide; [done|].
  destruct (find_byte c l); simpl; [done|]. intros _. specialize (IH eq_refl). set_solver.
Qed.

Lemma find_first_spec text start stop :
  find_first text start = Some stop → (start ≤ stop)%nat ∧ text !! stop = Some space.
Proof.
  unfold find_first. destruct (find_byte _ _) as [k|] eqn:E; simpl; [|done].
  intros [= <-]. apply find_byte_spec in E. rewrite lookup_drop in E. split; [lia|done].
Qed.

Lemma find_last_spec text pos stop :
  find_last text pos = Some stop → (stop ≤ pos)%nat ∧ text !! stop = Some space.
Proof.
  induction pos as [|pos IH]; simpl; case_decide; try done.
  - by intros [= <-].
  - by intros [= <-].
  - intros H1. apply IH in H1 as [? ?]. split; [lia|done].
Qed.

Lemma skip_spaces_spec text fuel start :
  (start ≤ skip_spaces text fuel start)%nat ∧
  visible (drop start text) = visible (drop (skip_spaces text fuel start) text).
Proof.
  revert start. induction fuel as [|fuel IH]; intros start; simpl; [done|].
  case_decide as E; [|done]. destruct (IH (S start)) as [H1 H2]. split; [lia|].
  rewrite <-H2, (drop_S _ _ _ E). unfold visible. by rewrite filter_cons_False by tauto.
Qed.

(** A cut at a space loses the space and nothing else. *)
Lemma cut_visible text start stop :
  (start ≤ stop)%nat → text !! stop = Some space →
  visible (drop start text) =
  visible (take (stop - start) (drop start text)) ++ visible (drop (S stop) text).
Proof.
  intros Hle Hsp. rewrite <-(take_drop (stop - start) (drop start text)) at 1.
  rewrite visible_app, drop_drop. f_equal.
  replace (start + (stop - start))%nat with stop by lia.
  rewrite (drop_S _ _ _ Hsp). unfold visible. by rewrite filter_cons_False by tauto.
Qed.

Lemma wrap_loop_visible text width fuel start :
  (length text - start < fuel)%nat →
  visible (concat (wrap_loop text width fuel start)) = visible (drop start text).
Proof.
  revert start. induction fuel as [|fuel IH]; intros start Hf; [lia|]. cbn [wrap_loop].
  case_decide as Hs; [|by rewrite drop_ge by lia].
  case_decide; [simpl; by rewrite app_nil_r|].
  assert (∀ stop, (start ≤ stop)%nat → text !! stop = Some space →
    visible (concat (take (stop - start) (drop start text) ::
      wrap_loop text width fuel (skip_spaces text (length text) (S stop)))) =
    visible (drop start text)) as Hcut.
  { intros stop Hle Hsp. simpl. rewrite visible_app.
    destruct (skip_spaces_spec text (length text) (S stop)) as [Hge Hsk].
    rewrite IH by lia. rewrite <-Hsk. symmetry. by apply cut_visible. }
  assert (visible (concat (match find_first text start with
      | None => [drop start text]
      | Some stop => take (stop - start) (drop start text) ::
          wrap_loop text width fuel (skip_spaces text (length text) (S stop)) end)) =
    visible (drop start text)) as Hfirst.
  { destruct (find_first text start) as [stop|] eqn:E.
    - apply find_first_spec in E as [? ?]. by apply Hcut.
    - simpl. by rewrite app_nil_r. }
  destruct (find_last text (start + width)) as [stop|] eqn:E; [|done].
  case_decide; [done|]. apply find_last_spec in E as [_ ?]. apply Hcut; [lia|done].
Qed.

Lemma wrap_loop_width text width fuel start line :
  line ∈ wrap_loop text width fuel start → (length line ≤ width)%nat ∨ space ∉ line.
Proof.
  revert start. induction fuel as [|fuel IH]; intros start; cbn [wrap_loop]; [set_solver|].
  case_decide; [|set_solver]. case_decide as Hfit.
  { intros ->%list_elem_of_singleton. left. rewrite length_drop. lia. }
  assert (line ∈ (match find_first text start with
      | None => [drop start text]
      | Some stop => take (stop - start) (drop start text) ::
          wrap_loop text width fuel (skip_spaces text (length text) (S stop)) end) →
    (length line ≤ width)%nat ∨ space ∉ line) as Hfirst.
  { unfold find_first. destruct (find_byte space (drop start text)) as [k|] eqn:E; simpl.
    - intros [->|Hin]%elem_of_cons; [|by eapply IH]. right.
      replace (start + k - start)%nat with k by lia. by apply find_byte_take.
    - intros ->%list_elem_of_singleton. right. by apply find_byte_None. }
  destruct (find_last text (start + width)) as [stop|] eqn:E; [|done].
  case_decide; [done|]. intros [->|Hin]%elem_of_cons; [|by eapply IH].
  left. apply find_last_spec in E as [? _]. rewrite length_take. lia.
Qed.
End wrapping.

(** Wrapping loses no text and respects the width: the lines of
    [wrapText] hold the characters of the text, spaces apart, in order, and a
    line longer than the width is a single word. *)
Theorem wrapText_correct (text : list byte) (width : nat) :
  visible (concat (wrapText text width)) = visible text ∧
  ∀ line, line ∈ wrapText text width → (length line ≤ width)%nat ∨ space ∉ line.
Proof.
  split.
  - unfold wrapText. rewrite wrap_loop_visible by lia. by rewrite drop_0.
  - intros line. apply wrap_loop_width.
Qed.
