(* ===== verification/PluginManager.v ===== *)
(** * The plugin manager (src/plugin_mgr/plugin_manager.h, plugin_manager.cpp)

    The main thread: it loads the installed plugins, enables what the
    configuration asks for, and then serves events one at a time. *)

From Stdlib Require Import ZArith Lia Strings.Byte.
From stdpp Require Import base list strings gmap numbers.
From S2P Require Import Prelude Bytes Serialize StdString Utils DataTypes SecureC DataRegister.
From S2P Require Import Registry MessageProtocol Daemon InstanceRun Config Handlers InfoCmd.

(** What the configuration and information handlers read from disk. *)
Class Disk := {
  plugin_dir : option (list string);          (* readdir of DEFAULT_PLUGIN_PATH *)
  conf_exists : bool;                         (* stat of /etc/oeAware/config.yaml *)
  conf_yaml : option Node;                    (* its tree *)
  info_exists : bool;                         (* stat of /etc/oeAware/info_cmd.yaml *)
  info_yaml : option Node;                    (* its tree *)
}.

Record Manager := mkManager {
  pm_daemon : Daemon;
  pm_config : Config;
  pm_logger : Logger;
  pm_infoCmd : list InfoCmd;                  (* InfoCmdHandler::infoCmd *)
  pm_recv : list Event;                       (* recvMessage *)
  pm_send : list EventResult                  (* sendMessage *)
}.

(** Runs code of the daemon's part of the state. *)
Definition on_daemon {A} (m : St Daemon A) : St Manager A := λ s,
  match m (pm_daemon s) with
  | Ret (a, d) => Ret (a, mkManager d (pm_config s) (pm_logger s) (pm_infoCmd s) (pm_recv s)
                            (pm_send s))
  | Throw e => Throw e
  | Undef => Undef
  end.

Definition set_recv (l : list Event) (s : Manager) : Manager :=
  mkManager (pm_daemon s) (pm_config s) (pm_logger s) (pm_infoCmd s) l (pm_send s).
Definition set_send (l : list EventResult) (s : Manager) : Manager :=
  mkManager (pm_daemon s) (pm_config s) (pm_logger s) (pm_infoCmd s) (pm_recv s) l.
Definition set_config (c : Config) (lg : Logger) (s : Manager) : Manager :=
  mkManager (pm_daemon s) c lg (pm_infoCmd s) (pm_recv s) (pm_send s).
Definition set_infoCmd (l : list InfoCmd) (s : Manager) : Manager :=
  mkManager (pm_daemon s) (pm_config s) (pm_logger s) l (pm_recv s) (pm_send s).

(** [SendMsg]. *)
Definition SendMsg (e : Event) : St Manager unit := modify (λ s, set_recv (pm_recv s ++ [e]) s).

Section manager.
Context `{PF : Platform} `{SC : SecureC} `{KP : Kperf} `{PC : PluginCode} `{HO : HashOrder}
  `{PQ : PriorityQueue} `{HS : Host} `{YC : YamlConversions} `{DK : Disk}.
Context (reg : registry).

(** ** The handlers that read the disk *)

(** The entries of [readdir] that are plugins, as lines. *)
Definition GetPluginInDir : string :=
  foldr (λ name res, if Utils.EndWith (bytes_of name) so_suffix
                     then name +:+ newline +:+ res else res)%string EmptyString
    (default [] plugin_dir).

Definition ListText (c : Config) : string :=
  ("Supported Packages:" +:+ newline +:+
   foldr (λ name res, name +:+ newline +:+ res) EmptyString
     (hash_order (dom (c_pluginList c))) +:+
   "Installed Plugins:" +:+ newline +:+ GetPluginInDir)%string.

Definition ListHandle : St Manager EventResult :=
  s ← get; mret (result_ok [ListText (pm_config s)]).

(** The loop of [CreateInfoCmdInstances]: entries before a bad one stay. *)
Fixpoint read_infos (l : list Node) (acc : list InfoCmd) : bool * list InfoCmd :=
  match l with
  | [] => (true, acc)
  | n :: l =>
    match node_at n "instance", node_at n "description", node_at n "effect" with
    | Some i, Some d, Some e =>
      if IsDefined i && IsDefined d && IsDefined e then
        match as_string i, as_string d, as_string e with
        | Some i, Some d, Some e => read_infos l (acc ++ [mkInfoCmd i d e])
        | _, _, _ => (false, acc)
        end
      else (false, acc)
    | _, _, _ => (false, acc)
    end
  end.

(** The entries are added to those of the earlier calls. *)
Definition CreateInfoCmdInstances (infoCmds : list InfoCmd) : bool * list InfoCmd :=
  if negb info_exists then (false, infoCmds) else
  match info_yaml with
  | None => (false, infoCmds)
  | Some node =>
    if IsNull node then (true, infoCmds) else
    match node_at node "InfoCmd" with
    | Some (NSequence l) => read_infos l infoCmds
    | _ => (false, infoCmds)
    end
  end.

Fixpoint info_rows (ids : list nat) (infos : list InfoCmd) (res : list byte) :
    St Daemon (list byte) :=
  match ids with
  | [] => mret res
  | i :: ids =>
    x ← load i;
    let infoPartner := GetInfoOf infos (in_name x) in
    info_rows ids infos (res ++ FormatAndPrint (bytes_of (GetRun x))
      (bytes_of (ic_description infoPartner)) (bytes_of (ic_effect infoPartner)))
  end.

Definition info_header : list byte :=
  pad instanceWidth (bytes_of "Instance") ++ [bar] ++
  pad descriptionWidth (bytes_of "Description") ++ [bar] ++
  pad effectWidth (bytes_of "Effect") ++ [nl] ++ rule.

Definition InfoHandle : St Manager EventResult :=
  s ← get;
  let '(ok, infos) := CreateInfoCmdInstances (pm_infoCmd s) in
  modify (set_infoCmd infos) ;;
  if negb ok then mret (result_error (GetErrorText LOAD_PLUGIN_FILE_NOT_EXIST)) else
  d ← on_daemon get;
  let tunePlugins :=
    filter (λ p, occurs (bytes_of "_tune") (bytes_of (pl_name p)) = true) (GetAllPlugins d) in
  res ← on_daemon (info_rows (concat (map pl_instances tunePlugins)) infos info_header);
  mret (result_ok [str_of res]).

Definition config_path : string := "/etc/oeAware/config.yaml".

Definition ReloadConfHandle : St Manager EventResult :=
  s ← get;
  let levelBefore := c_logLevel (pm_config s) in
  let '(err, c) := Reload conf_exists conf_yaml (pm_config s) in
  match err with
  | Some e => mret (result_error (reload_text config_path e))
  | None =>
    let '(ok, lg) := ChangeAllLogLevel (c_logLevel c) (pm_logger s) in
    modify (set_config c lg) ;;
    if negb ok then mret (result_error "reload log level error") else
    mret (result_ok [("log level changed from " +:+ str_of (to_string levelBefore) +:+ " to " +:+
      str_of (to_string (c_logLevel c)) +:+ ".")%string])
  end.

(** ** Dispatch *)

(** [InitEventHandler], and the call of the handler found: an option that
    has none is a null pointer. *)
Definition dispatch (event : Event) : St Manager EventResult :=
  match ev_opt event with
  | LOAD => on_daemon (LoadHandle event)
  | REMOVE => on_daemon (RemoveHandle event)
  | QUERY | QUERY_ALL => on_daemon (QueryHandle event)
  | QUERY_SUB_GRAPH | QUERY_ALL_SUB_GRAPH => on_daemon (QuerySubscribeGraphHandle event)
  | ENABLED => on_daemon (EnableHandle reg event)
  | DISABLED => on_daemon (DisableHandle reg event)
  | LIST => ListHandle
  | INFO => InfoHandle
  | DOWNLOAD => s ← get; mret (DownloadHandle (pm_config s) event)
  | SUBSCRIBE => on_daemon (SubscribeHandle reg event)
  | UNSUBSCRIBE => on_daemon (UnsubscribeHandle reg event)
  | PUBLISH => on_daemon (PublishHandle reg event)
  | RELOAD_CONF => ReloadConfHandle
  | DATA | RESPONSE_OK | RESPONSE_ERROR | SHUTDOWN | OtherOpt _ => undef
  end.

(** One round of the loop of [Run] with an event in the queue: [false] ends
    it. *)
Definition RunRound : St Manager bool :=
  s ← get;
  match pm_recv s with
  | [] => mret true
  | event :: l =>
    modify (set_recv l) ;;
    if decide (ev_opt event = SHUTDOWN) then mret false else
    eventResult ← dispatch event;
    match ev_type event with
    | EXTERNAL => modify (λ s, set_send (pm_send s ++ [eventResult]) s)
    | INTERNAL => mret tt
    end ;;
    mret true
  end.

(** ** Start and end *)

Fixpoint EnableNames (names : list string) : St Manager unit :=
  match names with
  | [] => mret tt
  | name :: names => SendMsg (mkEvent ENABLED INTERNAL [name]) ;; EnableNames names
  end.

Definition EnablePlugin (pluginName : string) : St Manager unit :=
  d ← on_daemon get;
  plugin ← deref (GetPlugin pluginName d);
  for_each (pl_instances plugin) (λ i,
    x ← on_daemon (load i); SendMsg (mkEvent ENABLED INTERNAL [in_name x])).

Definition PreEnable : St Manager unit :=
  s ← get;
  for_each (c_enableList (pm_config s)) (λ item,
    s ← get;
    if negb (IsPluginExist (ei_name item) (pm_daemon s)) then mret tt else
    if ei_enabled item then EnablePlugin (ei_name item) else EnableNames (ei_instance item)).

Definition PreLoadPlugin : St Manager unit :=
  for_each (default [] plugin_dir) (λ name,
    if Utils.EndWith (bytes_of name) so_suffix
    then on_daemon (LoadHandle (mkEvent LOAD INTERNAL [name])) ;; mret tt
    else mret tt).

Definition PreLoad : St Manager unit := PreLoadPlugin ;; PreEnable.

(** [Exit]: the scheduler has answered the shutdown message before the
    instances that still run are disabled. *)
Definition Exit : St Manager unit :=
  allPlugins ← on_daemon (gets GetAllPlugins);
  on_daemon (post_and_wait reg (run_message RT_SHUTDOWN [])) ;;
  for_each (concat (map pl_instances allPlugins)) (λ i,
    x ← on_daemon (load i);
    if negb (in_enabled x) then mret tt else on_daemon (Disable i)).
End manager.
