(* ===== verification/HandlerTheorems.v ===== *)
(** * The properties of the event handlers *)

From Stdlib Require Import ZArith Lia Strings.Byte.
From stdpp Require Import base list strings gmap numbers.
From S2P Require Import Prelude Bytes Serialize StdString Utils DataTypes SecureC DataRegister.
From S2P Require Import RoundTrip Registry MessageProtocol Daemon InstanceRun.
From S2P Require Import InstanceRunLemmas Subscriptions ScheduleProps.
From S2P Require Import SchedulerSafety World Config Handlers InfoCmd PluginManager.

(** ** Waiting for the scheduler *)

Section waiting.
Context `{PF : Platform} `{SC : SecureC} `{KP : Kperf} `{PC : PluginCode} `{HO : HashOrder}
  `{PQ : PriorityQueue}.
Context (reg : registry) (ms : gmap string nat).
Context (Hposts : ∀ l, Forall (sane reg ms) (call_posts l)).

Lemma handle_safe d msg :
  safe reg ms d → sane reg ms msg → twp (handle reg msg) (λ _ d', safe reg ms d') d.
Proof.
  intros [Hinv Hq] Hmsg. eapply twp_mono.
  { apply (keeps_twp (sane_queue reg ms)); [by apply keeps_handle_sane|done|].
    apply handle_twp; [done|]. apply sane_message_ok. by rewrite (proj1 Hq). }
  by intros r d' [[? _] ?].
Qed.

Lemma set_queue_safe q d :
  safe reg ms d → Forall (sane reg ms) q → safe reg ms (set_queue q d).
Proof. intros [Hinv [Hi _]] Hq. split; [by apply sub_inv_queue|]. by split. Qed.

Lemma serve_twp l msg more d :
  safe reg ms d → d_queue d = l ++ msg :: more →
  twp (serve reg (length l)) (λ _ d', safe reg ms d' ∧ ∃ more', d_queue d' = msg :: more') d.
Proof.
  revert more d. induction l as [|m l IH]; intros more d Hsafe Hq; cbn [length serve].
  { apply twp_ret. split; [done|]. by exists more. }
  apply twp_bind, twp_get. rewrite Hq. simpl. apply twp_bind, twp_modify.
  pose proof Hsafe as [_ [Hi Hsane]]. rewrite Hq in Hsane.
  apply list.Forall_cons in Hsane as [Hm Hsane].
  set (d1 := set_queue _ d). assert (safe reg ms d1) as Hsafe1 by (by apply set_queue_safe).
  apply twp_bind. eapply twp_mono.
  { apply (keeps_twp (λ d, d_instances d = ms ∧ (l ++ [msg]) `prefix_of` d_queue d)).
    - by apply keeps_handle_prefix.
    - split; [done|]. exists more. by rewrite <-app_assoc.
    - by apply handle_safe. }
  intros r d2 [Hsafe2 [_ [more2 Hq2]]]. cbn beta.
  apply (IH more2); [done|]. by rewrite Hq2, <-app_assoc.
Qed.

(** What holds when a message has been handled, whatever was in front. *)
Lemma post_and_wait_twp msg (Q : Result → Daemon → Prop) d :
  safe reg ms d → sane reg ms msg →
  (∀ d1, safe reg ms d1 → twp (handle reg msg) Q d1) →
  twp (post_and_wait reg msg) (λ r d', safe reg ms d' ∧ Q r d') d.
Proof.
  intros Hsafe Hmsg HQ. unfold post_and_wait. apply twp_bind, twp_get, twp_bind, twp_modify.
  set (d0 := set_queue _ d). assert (safe reg ms d0) as Hsafe0.
  { apply set_queue_safe; [done|]. apply list.Forall_app. split; [apply Hsafe|by constructor]. }
  apply twp_bind. eapply twp_mono; [by apply (serve_twp (d_queue d) msg [])|].
  intros _ d1 [Hsafe1 [more Hq1]]. cbn beta. apply twp_bind, twp_get. rewrite Hq1.
  apply twp_bind, twp_modify. set (d2 := set_queue more d1).
  assert (safe reg ms d2) as Hsafe2.
  { apply set_queue_safe; [done|]. destruct Hsafe1 as [_ [_ Hs]]. rewrite Hq1 in Hs.
    by apply list.Forall_cons in Hs as [_ ?]. }
  apply twp_and; [by apply handle_safe|by apply HQ].
Qed.

Lemma safe_instances d : safe reg ms d → d_instances d = ms.
Proof. by intros [_ [? _]]. Qed.

(** ** Enabling and disabling *)

Lemma handle_enabled n i p d :
  ms !! n = Some i → safe reg ms d →
  twp (handle reg (run_message RT_ENABLED [n; p])) (λ r d', is_Some (r_code r) ∧
    (failed r = false → enabled_map d' !! i = Some true)) d.
Proof.
  intros Hi [Hinv [Hms _]]. pose proof Hinv as (Hok & Hp & _). unfold handle. simpl.
  eapply twp_mono; [eapply EnableInstance_twp; [done|done|by rewrite Hms]|].
  intros r d' (_ & Hc & He). split; [done|]. intros Hf. rewrite He, Hf.
  apply lookup_insert_eq.
Qed.

Lemma handle_disabled n i d :
  ms !! n = Some i → safe reg ms d →
  twp (handle reg (run_message RT_DISABLED [n]))
    (λ _ d', enabled_map d' !! i = Some false) d.
Proof.
  intros Hi [Hinv [Hms _]]. pose proof Hinv as (Hok & _). unfold handle. simpl.
  apply twp_bind, twp_ret, twp_bind. eapply twp_mono; [eapply DisableInstance_switches; [done|by rewrite Hms]|].
  intros ? d' (_ & He & _). apply twp_ret. rewrite He. apply lookup_insert_eq.
Qed.

Definition answers (er : EventResult) : Prop :=
  er = result_ok [] ∨ ∃ text, er = result_error text.

Lemma EnableHandle_twp d name more ev :
  safe reg ms d → ev_payload ev = name :: more →
  twp (EnableHandle reg ev) (λ er d', safe reg ms d' ∧ answers er ∧
    (er = result_ok [] → ∃ i, ms !! name = Some i ∧ enabled_map d' !! i = Some true)) d.
Proof.
  intros Hsafe Hev. pose proof Hsafe as [Hinv [Hms _]]. pose proof Hinv as ((Hst & _) & _).
  unfold EnableHandle. rewrite Hev. apply twp_bind. unfold InstanceEnabled.
  apply twp_bind, twp_get. unfold GetInstance. rewrite Hms.
  assert (∀ code err d', safe reg ms d' → (code = EC_OK → ∃ i, ms !! name = Some i ∧
      enabled_map d' !! i = Some true) →
    twp (if decide (code = EC_OK) then mret (result_ok [])
         else mret (result_error (if decide (err = EmptyString) then GetErrorText code else err)))
      (λ er d', safe reg ms d' ∧ answers er ∧
        (er = result_ok [] → ∃ i, ms !! name = Some i ∧ enabled_map d' !! i = Some true)) d')
    as Hfin.
  { intros code err d' Hs Hc. case_decide as Ec; apply twp_ret; (split; [done|]).
    - split; [by left|]. intros _. by apply Hc.
    - split; [right; by eexists|]. done. }
  destruct (ms !! name) as [i|] eqn:Hi; [|apply twp_ret; by apply Hfin].
  destruct (Hst name i) as (x & Hx & Hn); [by rewrite Hms|].
  apply twp_bind, (load_twp _ x); [done|].
  destruct (negb (in_state x)); [apply twp_ret; by apply Hfin|].
  destruct (in_enabled x) eqn:Ex; [apply twp_ret; by apply Hfin|].
  apply twp_bind. rewrite Hn. eapply twp_mono.
  { apply post_and_wait_twp; [done|done|]. intros d1 Hs1. by apply handle_enabled. }
  intros r d' (Hs' & [c Hc] & Hen). unfold code_negative. rewrite Hc.
  apply twp_bind, twp_bind, twp_ret, twp_ret, twp_ret. apply Hfin; [done|].
  intros Hok. exists i. split; [done|]. apply Hen. unfold failed. rewrite Hc.
  by destruct (bool_decide (c < 0)).
Qed.

Lemma DisableHandle_twp d name more ev :
  safe reg ms d → ev_payload ev = name :: more →
  twp (DisableHandle reg ev) (λ er d', safe reg ms d' ∧ answers er ∧
    (er = result_ok [] → ∃ i, ms !! name = Some i ∧ enabled_map d' !! i = Some false)) d.
Proof.
  intros Hsafe Hev. pose proof Hsafe as [Hinv [Hms _]]. pose proof Hinv as ((Hst & _) & _).
  unfold DisableHandle. rewrite Hev. apply twp_bind. unfold InstanceDisabled.
  apply twp_bind, twp_get. unfold GetInstance. rewrite Hms.
  assert (∀ code d', safe reg ms d' → (code = EC_OK → ∃ i, ms !! name = Some i ∧
      enabled_map d' !! i = Some false) →
    twp (mret (if decide (code = EC_OK) then result_ok [] else result_error (GetErrorText code)))
      (λ er d', safe reg ms d' ∧ answers er ∧
        (er = result_ok [] → ∃ i, ms !! name = Some i ∧ enabled_map d' !! i = Some false)) d')
    as Hfin.
  { intros code d' Hs Hc. apply twp_ret. split; [done|]. case_decide as Ec.
    - split; [by left|]. intros _. by apply Hc.
    - split; [right; by eexists|]. done. }
  destruct (ms !! name) as [i|] eqn:Hi; [|apply twp_ret; by apply Hfin].
  destruct (Hst name i) as (x & Hx & Hn); [by rewrite Hms|].
  apply twp_bind, (load_twp _ x); [done|].
  destruct (negb (in_state x)); [apply twp_ret; by apply Hfin|].
  destruct (negb (in_enabled x)); [apply twp_ret; by apply Hfin|].
  apply twp_bind. rewrite Hn. eapply twp_mono.
  { apply post_and_wait_twp; [done|done|]. intros d1 Hs1. by apply handle_disabled. }
  intros r d' (Hs' & Hen). apply twp_ret, Hfin; [done|]. intros _. by exists i.
Qed.
End waiting.

(** ** Loading and removing *)

Section load_remove.
Context `{HS : Host}.

Definition new_instance (plugin : string) (x : InterfaceDesc) : Instance :=
  mkInstance (id_name x) plugin true false 0 (list_to_set (id_topics x)) ∅
    (id_type x) (id_priority x) (id_period x).

(** The objects of [ids] are those of the descriptions [l]. *)
Definition objects (plugin : string) (l : list InterfaceDesc) (ids : list nat) (d : Daemon) :=
  Forall2 (λ x i, d_heap d !! i = Some (new_instance plugin x)) l ids.

Definition same_store (d d' : Daemon) : Prop :=
  d_instances d' = d_instances d ∧ d_plugins d' = d_plugins d.

Lemma SaveInstances_twp plugin l d :
  twp (SaveInstances plugin l) (λ ids d', objects plugin l ids d' ∧ same_store d d' ∧
    ∀ i x, d_heap d !! i = Some x → d_heap d' !! i = Some x) d.
Proof.
  revert d. induction l as [|x l IH]; intros d; cbn [SaveInstances].
  { apply twp_ret. split_and!; [constructor|done|done]. }
  apply twp_bind. unfold SaveInstance. apply twp_bind, twp_get, twp_bind, twp_modify, twp_ret.
  set (i := fresh (dom (d_heap d))). set (d1 := set_heap _ d).
  assert (i ∉ dom (d_heap d)) as Hi by apply is_fresh.
  apply twp_bind. eapply twp_mono; [apply IH|].
  intros ids d' (Hobj & Hst & Hkeep). apply twp_ret. split_and!.
  - constructor; [|done]. apply Hkeep. simpl. apply lookup_insert_eq.
  - done.
  - intros j y Hj. apply Hkeep. simpl. rewrite lookup_insert_ne; [done|].
    intros <-. apply Hi. by apply elem_of_dom_2 in Hj.
Qed.

(** Registering objects whose names are new. *)
Lemma AddInstances_twp plugin l ids d :
  objects plugin l ids d → NoDup (map id_name l) →
  (∀ x, x ∈ l → d_instances d !! id_name x = None) →
  twp (for_each ids AddInstance) (λ _ d', d_heap d' = d_heap d ∧ d_plugins d' = d_plugins d ∧
    ∀ n, n ∉ map id_name l → d_instances d' !! n = d_instances d !! n) d.
Proof.
  intros Hobj. revert ids d Hobj. induction l as [|x l IH]; intros ids d Hobj Hnd Hnew;
    inversion Hobj as [|? i ? ids' Hx Hl]; subst; cbn [for_each]; [by apply twp_ret|].
  simpl in Hnd. apply list.NoDup_cons in Hnd as [Hnin Hnd].
  apply twp_bind. unfold AddInstance at 1. apply twp_bind, twp_get, twp_bind. rewrite Hx.
  apply twp_ret. simpl in_name. rewrite (Hnew x) by (by left). apply twp_modify. set (d1 := set_store _ _ d).
  eapply twp_mono; [apply (IH ids' d1); [done|done|]|].
  { intros y Hy. simpl. rewrite lookup_insert_ne; [apply Hnew; by right|].
    intros E. apply Hnin. rewrite E. by apply list_elem_of_fmap_2. }
  intros _ d' (Hh & Hp & Hi). cbn beta. split_and!; [done|done|].
  intros n Hn. simpl in Hn. apply not_elem_of_cons in Hn as [Hne Hn].
  rewrite Hi by done. simpl. by rewrite lookup_insert_ne.
Qed.

Lemma removable_new plugin l ids d :
  objects plugin l ids d → removable ids d = Ret (Some (map id_name l), d).
Proof.
  induction 1 as [|x i l ids Hx _ IH]; [done|]. cbn [removable].
  unfold mbind at 1, St_bind, load at 1. unfold mbind at 1, St_bind, get. rewrite Hx. simpl.
  unfold mbind, St_bind in *. by rewrite IH.
Qed.

Lemma delete_names names d :
  ∃ d', for_each names (λ n, modify (DeleteInstance n)) d = Ret (tt, d') ∧
    d_plugins d' = d_plugins d ∧
    ∀ n, d_instances d' !! n = if decide (n ∈ names) then None else d_instances d !! n.
Proof.
  revert d. induction names as [|m names IH]; intros d; cbn [for_each].
  { exists d. split_and!; [done|done|]. intros n. by rewrite decide_False by set_solver. }
  destruct (IH (DeleteInstance m d)) as (d' & E & Hp & Hi). exists d'. split_and!; [done|done|].
  intros n. rewrite Hi. simpl. destruct (decide (n = m)) as [->|Hne].
  - rewrite lookup_delete_eq. rewrite (decide_True (P := m ∈ m :: names)) by set_solver.
    by case_decide.
  - rewrite lookup_delete_ne by done. do 2 case_decide; set_solver.
Qed.
End load_remove.

(** ** Properties *)

(** What the client is told about [enable] is true: from a state of the
    invariant, whatever messages are in front, the handler answers with either
    a bare OK or an error text, and after an OK the named instance is loaded
    and enabled. *)
Theorem EnableHandle_contract {PF : Platform} {SC : SecureC} {KP : Kperf} {PC : PluginCode}
    {HO : HashOrder} (reg : registry) (d : Daemon) (ev : Event) (name : string)
    (more : list string)
    (Hposts : ∀ l, Forall (sane reg (d_instances d)) (call_posts l))
    (Hsafe : safe reg (d_instances d) d) (Hev : ev_payload ev = name :: more) :
  ∃ er d', EnableHandle reg ev d = Ret (er, d') ∧ safe reg (d_instances d) d' ∧ answers er ∧
    (er = result_ok [] → ∃ i, d_instances d !! name = Some i ∧ enabled_map d' !! i = Some true).
Proof. apply twp_alt. by eapply EnableHandle_twp. Qed.

Lemma EnableHandle_contract_witness :
  ∃ er d', @EnableHandle platform_ref secure_c_ref kperf_ref plugins_ok hash_ref
      (InitRegisterData Arm ∅) (mkEvent ENABLED EXTERNAL ["tune"]%string) world = Ret (er, d') ∧
    er = result_ok [] ∧ enabled_map d' !! 2%nat = Some true.
Proof.
  destruct (@EnableHandle_contract platform_ref secure_c_ref kperf_ref plugins_ok hash_ref
    (InitRegisterData Arm ∅) world (mkEvent ENABLED EXTERNAL ["tune"]%string) "tune" [])
    as (er & d' & E & _ & _ & _).
  - intros l. constructor.
  - apply world_safe.
  - done.
  - exists er, d'. split; [done|]. vm_compute in E. injection E as <- <-. by vm_compute.
Defined.

(** Likewise for [disable]: after an OK the instance is not enabled. *)
Theorem DisableHandle_contract {PF : Platform} {SC : SecureC} {KP : Kperf} {PC : PluginCode}
    {HO : HashOrder} (reg : registry) (d : Daemon) (ev : Event) (name : string)
    (more : list string)
    (Hposts : ∀ l, Forall (sane reg (d_instances d)) (call_posts l))
    (Hsafe : safe reg (d_instances d) d) (Hev : ev_payload ev = name :: more) :
  ∃ er d', DisableHandle reg ev d = Ret (er, d') ∧ safe reg (d_instances d) d' ∧ answers er ∧
    (er = result_ok [] → ∃ i, d_instances d !! name = Some i ∧ enabled_map d' !! i = Some false).
Proof. apply twp_alt. by eapply DisableHandle_twp. Qed.

Lemma DisableHandle_contract_witness :
  ∃ er d', @DisableHandle platform_ref secure_c_ref kperf_ref plugins_ok hash_ref
      (InitRegisterData Arm ∅) (mkEvent DISABLED EXTERNAL ["tune"]%string) world = Ret (er, d') ∧
    er = result_error "instance is already disabled".
Proof.
  destruct (@DisableHandle_contract platform_ref secure_c_ref kperf_ref plugins_ok hash_ref
    (InitRegisterData Arm ∅) world (mkEvent DISABLED EXTERNAL ["tune"]%string) "tune" [])
    as (er & d' & E & _ & _ & _).
  - intros l. constructor.
  - apply world_safe.
  - done.
  - exists er, d'. split; [done|]. vm_compute in E. by injection E as <- <-.
Defined.

(** Removing undoes loading: after [LoadPlugin] of a plugin whose instance
    names are all new, [Remove] succeeds and the tables of plugins and of
    instances are what they were. *)
Theorem Remove_LoadPlugin {HS : Host} (name : string) (d d1 : Daemon)
    (descs : list InterfaceDesc)
    (Hload : LoadPlugin name d = Ret (EC_OK, d1))
    (Hdl : dl_load (DEFAULT_PLUGIN_PATH +:+ "/" +:+ name)%string = Some descs)
    (Hnd : NoDup (map id_name descs))
    (Hnew : ∀ x, x ∈ descs → d_instances d !! id_name x = None) :
  ∃ d2, Remove name d1 = Ret (EC_OK, d2) ∧
    d_instances d2 = d_instances d ∧ d_plugins d2 = d_plugins d.
Proof.
  unfold LoadPlugin in Hload. rewrite Hdl in Hload. revert Hload.
  destruct (negb (file_exist _)); [done|]. destruct (negb (Utils.EndWith _ _)); [done|].
  destruct (CheckPermission _ _) as [[|]| |]; [|done..].
  unfold mbind at 1, St_bind, get. unfold IsPluginExist. case_bool_decide as Hex; [done|].
  assert (d_plugins d !! name = None) as Hnone by (by apply eq_None_not_Some).
  unfold mbind at 1, St_bind.
  destruct (proj1 (twp_alt _ _ _) (SaveInstances_twp name descs d))
    as (ids & da & Es & Hobj & [Hia Hpa] & _). rewrite Es.
  unfold mbind at 1, St_bind, modify. unfold AddPlugin. rewrite Hpa, Hnone.
  set (db := set_store _ _ da).
  assert (objects name descs ids db) as Hobjb by done.
  destruct (proj1 (twp_alt _ _ _) (AddInstances_twp name descs ids db Hobjb Hnd
    ltac:(intros x Hx; simpl; rewrite Hia; by apply Hnew))) as ([] & dc & Ec & Hh & Hp & Hi).
  unfold mbind, St_bind. rewrite Ec. intros [= <-].
  unfold Remove, GetPlugin. unfold mbind at 1, St_bind, get. rewrite Hp. simpl.
  rewrite lookup_insert_eq. simpl. unfold mbind at 1, St_bind.
  rewrite (removable_new name descs ids dc) by (unfold objects; by rewrite Hh).
  destruct (delete_names (map id_name descs) dc) as (dd & Ed & Hpd & Hid).
  unfold mbind at 1, St_bind. rewrite Ed. eexists. split; [reflexivity|]. simpl. split.
  - apply map_eq. intros n. rewrite Hid. case_decide as Hin.
    + apply list_elem_of_fmap in Hin as (x & -> & Hx). symmetry. by apply Hnew.
    + rewrite Hi by done. simpl. by rewrite Hia.
  - rewrite Hpd, Hp. simpl. rewrite <- Hpa. apply delete_insert_id. by rewrite Hpa.
Qed.

(** A root-owned library with two instances. *)
Definition host_ref : Host := {|
  file_exist := λ _, true;
  file_stat := λ _, Some {| st_mode := 33056; st_uid := 0; st_gid := 0 |};
  dl_load := λ path,
    if decide (path = "/usr/lib64/oeAware-plugin/liba.so"%string)
    then Some [mkInterfaceDesc "a1" ["t"] 0 0 100; mkInterfaceDesc "a2" ["t"] 0 0 100]%string
    else Some [mkInterfaceDesc "b1" ["t"] 0 0 100; mkInterfaceDesc "a1" ["t"] 0 0 100]%string;
|}.

Definition loaded_a : Daemon := run_state (@LoadPlugin host_ref "liba.so") world.

Lemma Remove_LoadPlugin_witness :
  ∃ d2, Remove "liba.so" loaded_a = Ret (EC_OK, d2) ∧
    d_instances d2 = d_instances world ∧ d_plugins d2 = d_plugins world.
Proof.
  apply (@Remove_LoadPlugin host_ref "liba.so" world loaded_a
    [mkInterfaceDesc "a1" ["t"] 0 0 100; mkInterfaceDesc "a2" ["t"] 0 0 100]%string).
  - reflexivity.
  - reflexivity.
  - by_decide.
  - intros x [->|[->|[]%not_elem_of_nil]%elem_of_cons]%elem_of_cons; reflexivity.
Defined.

(** Instance names are not owned: a second plugin that brings an instance
    of a name already loaded does not replace it, but removing that second
    plugin deletes the first plugin's instance from the table, although its
    plugin is still loaded. *)
Theorem Remove_takes_foreign_instance :
  let d := run_state (@LoadPlugin host_ref "libb.so") loaded_a in
  let d' := run_state (Remove "libb.so") d in
  d_instances d !! "a1"%string = d_instances loaded_a !! "a1"%string ∧
  is_Some (d_plugins d' !! "liba.so"%string) ∧ d_instances d' !! "a1"%string = None.
Proof. vm_compute. split_and!; [done|by eexists|done]. Qed.

(** Removing a plugin leaves its topics in the scheduler's table: subscribe
    to a topic, disable its instance, remove its plugin; when the subscriber
    leaves, [UpdateInstance] dereferences the missing instance. *)
Theorem Unsubscribe_after_remove_undef :
  let send t p := @handle platform_ref secure_c_ref kperf_ref plugins_ok hash_ref ∅
                    (run_message t p) in
  let d := run_state (send RT_SUBSCRIBE ["a1::t::"; "scenario"]%string ;;
                      send RT_DISABLED ["a1"%string]) loaded_a in
  let d' := run_state (Remove "liba.so") d in
  Remove "liba.so" d = Ret (EC_OK, d') ∧
  send RT_UNSUBSCRIBE ["a1::t::"; "scenario"]%string d' = Undef.
Proof. by vm_compute. Qed.

(** ** The manager's loop *)

(** The options [InitEventHandler] registers nothing for. *)
Definition unhandled (o : Opt) : Prop :=
  o = DATA ∨ o = RESPONSE_OK ∨ o = RESPONSE_ERROR ∨ ∃ z, o = OtherOpt z.

(** Any client can crash the daemon: an event whose option has no handler
    (one of the response options, or any integer that is not an option, which
    the protocol does not check) reaches the loop and is dispatched through a
    null pointer. *)
Theorem RunRound_unhandled_undef {PF : Platform} {SC : SecureC} {KP : Kperf} {PC : PluginCode}
    {HO : HashOrder} {HS : Host} {YC : YamlConversions} {DK : Disk}
    (reg : registry) (s : Manager) (ev : Event) (more : list Event)
    (Hq : pm_recv s = ev :: more) (Hopt : unhandled (ev_opt ev)) :
  RunRound reg s = Undef.
Proof.
  unfold RunRound, mbind, St_bind, get. rewrite Hq. simpl.
  destruct ev as [o t p]. simpl in *.
  destruct Hopt as [->|[->|[->|[z ->]]]]; (rewrite decide_False by done); done.
Qed.

Definition disk_none : Disk := {|
  plugin_dir := None; conf_exists := false; conf_yaml := None;
  info_exists := false; info_yaml := None;
|}.

Lemma RunRound_unhandled_undef_witness :
  @RunRound platform_ref secure_c_ref kperf_ref plugins_ok hash_ref host_ref yaml_none
    disk_none ∅ (mkManager world Config0 (mkLogger ∅ EmptyString 0) [] [mkEvent (OtherOpt 77) EXTERNAL []] [])
  = Undef.
Proof.
  eapply RunRound_unhandled_undef; [reflexivity|]. right; right; right. by exists 77%Z.
Defined.
