(* ===== verification/MessageManager.v ===== *)
(** * The message manager (src/plugin_mgr/message_manager.h,
      message_manager.cpp, src/common/domain_socket.cpp)

    The thread that serves the Unix socket: it accepts clients, turns their
    messages into events for the plugin manager, waits for the answer and
    sends it back.  A second thread sends the data that instances publish.
    The kernel's part of a connection is a [Peer]: the segments the client's
    bytes will arrive as, what [send] will return, and what was sent. *)

From Stdlib Require Import ZArith Lia Strings.Byte.
From stdpp Require Import base list strings gmap numbers.
From S2P Require Import Prelude Bytes Serialize StdString Utils DataTypes SecureC DataRegister.
From S2P Require Import Registry MessageProtocol Daemon InstanceRun Config Handlers InfoCmd.
From S2P Require Import PluginManager.

Definition CMD_CONN : Z := 1.
Definition SDK_CONN : Z := 2.
Definition DISCONNECTED : Z := -1.
(** [TcpSocket::maxNameLength], the size of the buffer for a client's name. *)
Definition maxNameLength : Z := 108.

(** ** Users and groups *)

Class Accounts := {
  etc_group : option (list (list byte));      (* the lines of /etc/group *)
  getgrnam : string → option Z;               (* gr_gid *)
  getpwnam : string → option Z;               (* pw_uid *)
}.

Section accounts.
Context `{AC : Accounts}.

Definition GetGidByGroupName (groupName : string) : Z :=
  match getgrnam groupName with None => -1 | Some gid => wrap CInt gid end.

Definition GetUid (name : string) : Z :=
  match getpwnam name with None => -1 | Some uid => wrap CInt uid end.

(** The loop over the lines stops at the group's first. *)
Fixpoint users_of_lines (lines : list (list byte)) (groupName : list byte) :
    list (list byte) :=
  match lines with
  | [] => []
  | line :: lines =>
    let parts := SplitString line [colon] in
    match parts !! 3%nat, parts !! 0%nat with
    | Some users, Some name =>
      if decide (name = groupName) then SplitString users [comma]
      else users_of_lines lines groupName
    | _, _ => users_of_lines lines groupName
    end
  end.

Definition GetUserFromGroup (groupName : string) : list (list byte) :=
  match etc_group with
  | None => []
  | Some lines => users_of_lines lines (bytes_of groupName)
  end.

(** [groups[gid].emplace_back(uid)]. *)
Definition add_uid (gid uid : Z) (groups : gmap Z (list Z)) : gmap Z (list Z) :=
  <[gid := default [] (groups !! gid) ++ [uid]]> groups.

Fixpoint add_users (gid : Z) (users : list (list byte)) (groups : gmap Z (list Z)) :
    gmap Z (list Z) :=
  match users with
  | [] => groups
  | user :: users =>
    let uid := GetUid (str_of user) in
    add_users gid users (if decide (uid < 0) then groups else add_uid gid uid groups)
  end.

Fixpoint add_groups (groupNames : list string) (groups : gmap Z (list Z)) :
    gmap Z (list Z) :=
  match groupNames with
  | [] => groups
  | groupName :: groupNames =>
    let gid := GetGidByGroupName groupName in
    add_groups groupNames
      (if decide (gid < 0) then groups
       else add_users gid (GetUserFromGroup groupName) groups)
  end.

(** [TcpSocket::InitGroups]. *)
Definition InitGroups : gmap Z (list Z) :=
  add_groups ["oeaware"; "root"]%string (add_uid 0 0 ∅).
End accounts.

(** ** The server's state *)

Record Peer := mkPeer { p_in : list Segment; p_send : list Z; p_sent : list byte }.

(** What [recv] and [send] meet on a descriptor that is not open. *)
Definition no_peer : Peer := mkPeer [RecvError] [-1] [].

Record Server := mkServer {
  sv_manager : Manager;
  sv_conns : gmap Z Z;              (* TcpMessageHandler::conns *)
  sv_shutdown : bool;               (* TcpMessageHandler::shutdown *)
  sv_groups : gmap Z (list Z);      (* TcpSocket::groups *)
  sv_epoll : gset Z;                (* the descriptors epoll watches *)
  sv_peers : gmap Z Peer            (* the open descriptors of clients *)
}.

Definition set_manager (m : Manager) (s : Server) : Server :=
  mkServer m (sv_conns s) (sv_shutdown s) (sv_groups s) (sv_epoll s) (sv_peers s).
Definition set_conns (c : gmap Z Z) (s : Server) : Server :=
  mkServer (sv_manager s) c (sv_shutdown s) (sv_groups s) (sv_epoll s) (sv_peers s).
Definition set_shutdown (b : bool) (s : Server) : Server :=
  mkServer (sv_manager s) (sv_conns s) b (sv_groups s) (sv_epoll s) (sv_peers s).
Definition set_epoll (e : gset Z) (s : Server) : Server :=
  mkServer (sv_manager s) (sv_conns s) (sv_shutdown s) (sv_groups s) e (sv_peers s).
Definition set_peers (p : gmap Z Peer) (s : Server) : Server :=
  mkServer (sv_manager s) (sv_conns s) (sv_shutdown s) (sv_groups s) (sv_epoll s) p.

(** [recvData->Push]. *)
Definition push_data (e : Event) (s : Server) : Server :=
  let m := sv_manager s in
  let d := pm_daemon m in
  set_manager (mkManager (set_recvData (d_recvData d ++ [e]) d) (pm_config m) (pm_logger m)
    (pm_infoCmd m) (pm_recv m) (pm_send m)) s.

(** Runs code of the plugin manager's part of the state. *)
Definition on_manager {A} (m : St Manager A) : St Server A := λ s,
  match m (sv_manager s) with
  | Ret (a, m') => Ret (a, set_manager m' s)
  | Throw e => Throw e
  | Undef => Undef
  end.

(** [conns[fd]]: the subscript inserts 0 where there is no entry. *)
Definition conn_at (fd : Z) : St Server Z :=
  s ← get;
  match sv_conns s !! fd with
  | Some t => mret t
  | None => modify (set_conns (<[fd := 0]> (sv_conns s))) ;; mret 0
  end.

(** [conns[fd] & SDK_CONN]. *)
Definition is_sdk_conn (t : Z) : bool := bool_decide (Z.land t SDK_CONN ≠ 0).

(** ** Messages to and from a client *)

(** [SocketStream stream(fd)]: empty buffers over the descriptor. *)
Definition SocketStreamOf (fd : Z) (s : Server) : SocketStream :=
  let p := default no_peer (sv_peers s !! fd) in mkSS (p_in p) (p_send p) (p_sent p) [] 0 0.

(** A call on [stream], whose descriptor is [fd]. *)
Definition on_stream {A} (fd : Z) (stream : SocketStream) (m : St SocketStream A) :
    St Server (A * SocketStream) := λ s,
  match m stream with
  | Ret (a, t) =>
    Ret ((a, t), set_peers (alter (λ _, mkPeer (ss_in t) (ss_send t) (ss_sent t)) fd
                              (sv_peers s)) s)
  | Throw e => Throw e
  | Undef => Undef
  end.

Section server.
Context `{PF : Platform} `{SC : SecureC} `{KP : Kperf} `{PC : PluginCode} `{HO : HashOrder}
  `{HS : Host} `{YC : YamlConversions} `{DK : Disk}.
Context (reg : registry).

Definition GetMessageFromRemote : St SocketStream (option Message) :=
  '(ok, msgProtocol) ← RecvMessage (mkProtocol REQUEST (mkMessage LOAD []));
  mret (if ok : bool then Some (mp_message msgProtocol) else None).

Definition SendMessageToRemote (message : Message) : St SocketStream bool :=
  SendMessage (mkProtocol RESPONSE message).

Definition PushEvent (msg : Message) (extras : list string) : St Server unit :=
  on_manager (SendMsg (mkEvent (msg_opt msg) EXTERNAL (msg_payload msg ++ extras))).

(** [sendMessage->WaitAndPop]: the plugin manager's thread works through its
    queue until it has sent a result; [None] when it never does. *)
Fixpoint WaitAndPop (rounds : nat) : St Manager (option EventResult) :=
  s ← get;
  match pm_send s with
  | r :: l => modify (set_send l) ;; mret (Some r)
  | [] =>
    match rounds with
    | O => mret None
    | S rounds => go ← RunRound reg; if go : bool then WaitAndPop rounds else mret None
    end
  end.

(** [GetEventResult]: one round per event in the queue is enough, no handler
    posts an event.  An uninitialised [opt] holds whatever it holds. *)
Definition GetEventResult : St Server (option Message) :=
  s ← get;
  res ← on_manager (WaitAndPop (length (pm_recv (sv_manager s))));
  mret ((λ r, mkMessage (default (opt_of stack_int) (er_opt r)) (er_payload r)) <$> res).

End server.

Module TcpMessageHandler.
Section handler.
Context `{PF : Platform} `{SC : SecureC} `{KP : Kperf} `{PC : PluginCode} `{HO : HashOrder}
  `{HS : Host} `{YC : YamlConversions} `{DK : Disk}.
Context (reg : registry).

Definition AddConn (conn type : Z) : St Server unit :=
  s ← get;
  match sv_conns s !! conn with
  | Some t => if decide (t > 0) then mret tt
              else modify (set_conns (<[conn := type]> (sv_conns s)))
  | None => modify (set_conns (<[conn := type]> (sv_conns s)))
  end.

Definition IsConn (fd : Z) : St Server bool :=
  t ← conn_at fd; mret (bool_decide (t > 0)).

Definition CloseConn (fd : Z) : St Server unit :=
  t ← conn_at fd;
  (if is_sdk_conn t
   then on_manager (SendMsg (mkEvent UNSUBSCRIBE INTERNAL [str_of (to_string fd)]))
   else mret tt) ;;
  modify (λ s, set_conns (<[fd := DISCONNECTED]> (sv_conns s)) s).

(** The result of [HandleMessage]; [None] when the answer never comes. *)
Definition HandleMessage (fd : Z) : St Server (option bool) :=
  s ← get;
  '(clientMsg, stream) ← on_stream fd (SocketStreamOf fd s) GetMessageFromRemote;
  match clientMsg with
  | None => mret (Some false)
  | Some clientMsg =>
    t ← conn_at fd;
    PushEvent clientMsg (if is_sdk_conn t then [str_of (to_string fd)] else []) ;;
    internalMsg ← GetEventResult reg;
    match internalMsg with
    | None => mret None
    | Some internalMsg =>
      (if decide (msg_opt internalMsg = SHUTDOWN) then
         modify (set_shutdown true) ;; modify (push_data (mkEvent SHUTDOWN INTERNAL []))
       else mret tt) ;;
      '(ok, _) ← on_stream fd stream (SendMessageToRemote internalMsg);
      mret (Some ok)
    end
  end.

Definition GetMessageFromDataEvent (event : Event) : St Server Message :=
  data ← deref (ev_payload event !! 1%nat);
  mret (mkMessage DATA [data]).

(** One round of [Start] with an event in the queue: [true] ends it. *)
Definition StartRound : St Server bool :=
  s ← get;
  let d := pm_daemon (sv_manager s) in
  match d_recvData d with
  | [] => mret false
  | event :: l =>
    on_manager (on_daemon (modify (set_recvData l))) ;;
    if decide (ev_opt event = SHUTDOWN) then mret true else
    if decide (ev_opt event ≠ DATA) then mret false else
    name ← deref (ev_payload event !! 0%nat);
    fd ← (λ s, match atoi (bytes_of name) with
               | Ret fd => Ret (fd, s) | Throw e => Throw e | Undef => Undef end);
    s ← get;
    match sv_conns s !! fd with
    | None => mret false
    | Some t =>
      if decide (t = DISCONNECTED) then mret false else
      msg ← GetMessageFromDataEvent event;
      on_stream fd (SocketStreamOf fd s) (SendMessageToRemote msg) ;; mret false
    end
  end.

(** [close] of every descriptor in the table. *)
Definition Close : St Server unit :=
  modify (push_data (mkEvent SHUTDOWN INTERNAL [])) ;;
  modify (λ s, set_peers (filter (λ p, p.1 ∉ dom (sv_conns s)) (sv_peers s)) s).
End handler.
End TcpMessageHandler.

(** ** The listening socket *)

(** What the kernel gives for a client: the descriptor, the name the client
    is bound to, the result of [epoll_ctl], the connection. *)
Record Accepted := mkAccepted {
  ac_conn : Z; ac_path : list byte; ac_ctl : bool; ac_peer : Peer
}.

(** An event of [epoll_wait]: the listening socket or a client's. *)
Inductive EpollEvent := OnListen (a : Accepted) | OnFd (fd : Z).

Module TcpSocket.
Section tcp_socket.
Context `{PF : Platform} `{SC : SecureC} `{KP : Kperf} `{PC : PluginCode} `{HO : HashOrder}
  `{HS : Host} `{YC : YamlConversions} `{DK : Disk}.
Context (reg : registry).

Definition CheckFileGroups (path : string) (groups : gmap Z (list Z)) : bool :=
  match file_stat path with
  | None => false
  | Some st =>
    existsb (λ p : Z * list Z, existsb (λ uid, bool_decide (uid = st_uid st)) p.2)
      (map_to_list groups)
  end.

(** [name[len] = 0] is outside of [name] for a name that fills it. *)
Definition SaveConnection (a : Accepted) : St Server unit :=
  let conn := ac_conn a in
  if decide (conn < 0) then mret tt else
  modify (λ s, set_peers (<[conn := ac_peer a]> (sv_peers s)) s) ;;
  let len := Z.of_nat (length (ac_path a)) in
  if decide (maxNameLength ≤ len) then undef else
  let name := c_str (str_of (ac_path a)) in
  let isSdk := bool_decide (0 < len) in
  s ← get;
  if isSdk && negb (CheckFileGroups name (sv_groups s)) then mret tt else
  if negb (ac_ctl a) then mret tt else
  modify (set_epoll (sv_epoll s ∪ {[conn]})) ;;
  TcpMessageHandler.AddConn conn (Z.lor 0 (if isSdk then SDK_CONN else CMD_CONN)).

(** [false] when the thread waits for ever. *)
Definition HandleMessage (fd : Z) : St Server bool :=
  conn ← TcpMessageHandler.IsConn fd;
  if negb conn then mret true else
  ok ← TcpMessageHandler.HandleMessage reg fd;
  match ok with
  | None => mret false
  | Some true => mret true
  | Some false =>
    TcpMessageHandler.CloseConn fd ;;
    modify (λ s, set_epoll (sv_epoll s ∖ {[fd]}) s) ;;
    modify (λ s, set_peers (delete fd (sv_peers s)) s) ;;
    mret true
  end.

Fixpoint HandleEvents (events : list EpollEvent) : St Server bool :=
  match events with
  | [] => mret true
  | OnListen a :: events => SaveConnection a ;; HandleEvents events
  | OnFd fd :: events =>
    go ← HandleMessage fd; if go : bool then HandleEvents events else mret false
  end.

(** A round of [ServeAccept]: [true] ends it.  The flag is read before the
    events. *)
Definition ServeRound (events : list EpollEvent) : St Server bool :=
  s ← get;
  if bool_decide (events = []) || sv_shutdown s then mret true
  else go ← HandleEvents events; mret (negb go).

Definition Close : St Server unit :=
  modify (set_epoll ∅) ;; TcpMessageHandler.Close.
End tcp_socket.
End TcpSocket.
