(* ===== verification/MessageTheorems.v ===== *)
(** * The properties of the message manager *)

From Stdlib Require Import ZArith Lia Strings.Byte.
From stdpp Require Import base list strings gmap numbers.
From S2P Require Import Prelude Bytes Serialize Codec StdString Utils DataTypes SecureC.
From S2P Require Import DataRegister RoundTrip Registry MessageProtocol Daemon.
From S2P Require Import InstanceRun SchedulerSafety World Config Handlers InfoCmd PluginManager.
From S2P Require Import HandlerTheorems MessageManager.

(** ** Who may connect *)

Section accounts.
Context `{AC : Accounts}.

Definition has_uid (groups : gmap Z (list Z)) (uid : Z) : Prop :=
  ∃ gid uids, groups !! gid = Some uids ∧ uid ∈ uids.

(** Root, and the users that /etc/group lists for the two groups. *)
Definition member (groupName : string) (uid : Z) : Prop :=
  0 ≤ GetGidByGroupName groupName ∧ 0 ≤ uid ∧
  ∃ user, user ∈ GetUserFromGroup groupName ∧ GetUid (str_of user) = uid.

Definition authorised (uid : Z) : Prop :=
  uid = 0 ∨ member "oeaware" uid ∨ member "root" uid.

Lemma has_uid_add gid uid groups u :
  has_uid (add_uid gid uid groups) u ↔ u = uid ∨ has_uid groups u.
Proof.
  unfold has_uid, add_uid. split.
  - intros (g & us & [[-> <-]|[Hne Hg]]%lookup_insert_Some & Hu).
    + apply elem_of_app in Hu as [Hu|Hu%list_elem_of_singleton]; [|by left].
      right. destruct (groups !! g) as [us|] eqn:E; simpl in Hu; [by eauto|set_solver].
    + right. by eauto.
  - intros [->|(g & us & Hg & Hu)].
    + eexists gid, _. split; [apply lookup_insert_eq|]. set_solver.
    + destruct (decide (g = gid)) as [->|Hne].
      * eexists gid, _. split; [apply lookup_insert_eq|]. rewrite Hg. set_solver.
      * exists g, us. by rewrite lookup_insert_ne.
Qed.

Lemma has_uid_add_users gid users groups u :
  has_uid (add_users gid users groups) u ↔
  has_uid groups u ∨ (0 ≤ u ∧ ∃ user, user ∈ users ∧ GetUid (str_of user) = u).
Proof.
  revert groups. induction users as [|x users IH]; intros groups; simpl.
  { split; [by left|]. intros [?|(_ & ? & []%not_elem_of_nil & _)]; done. }
  rewrite IH. case_decide as Hx.
  - split; [intros [?|(? & y & ? & ?)]; [by left|right]; set_solver|].
    intros [?|(H0 & y & [->|Hy]%elem_of_cons & <-)]; [by left|lia|right]. set_solver.
  - rewrite has_uid_add. split.
    + intros [[->|?]|(? & y & ? & ?)]; [right; split; [lia|]; set_solver|by left|right].
      set_solver.
    + intros [?|(H0 & y & [->|Hy]%elem_of_cons & <-)]; [by left; right|by left; left|right].
      set_solver.
Qed.

Lemma has_uid_InitGroups u : has_uid InitGroups u ↔ authorised u.
Proof.
  assert (∀ name gs, has_uid (if decide (GetGidByGroupName name < 0) then gs
      else add_users (GetGidByGroupName name) (GetUserFromGroup name) gs) u ↔
    has_uid gs u ∨ member name u) as Hstep.
  { intros name gs. unfold member. case_decide.
    - split; [by left|]. intros [?|[? _]]; [done|lia].
    - rewrite has_uid_add_users. split; (intros [?|?]; [by left|right]); [|naive_solver].
      split; [lia|done]. }
  unfold InitGroups. cbn [add_groups]. rewrite !Hstep, has_uid_add. unfold authorised.
  split; [|naive_solver]. intros [[[->|(g & us & Hg & _)]|?]|?]; [by left|done|naive_solver..].
Qed.

Lemma CheckFileGroups_has_uid `{HS : Host} path groups :
  TcpSocket.CheckFileGroups path groups = true ↔
  ∃ st, file_stat path = Some st ∧ has_uid groups (st_uid st).
Proof.
  unfold TcpSocket.CheckFileGroups. destruct (file_stat path) as [st|]; [|naive_solver].
  rewrite existsb_exists. split.
  - intros ([g us] & Hin & (u & Hu & E%bool_decide_eq_true)%existsb_exists). simpl in *.
    subst u. exists st. split; [done|]. exists g, us. split; [|by apply list_elem_of_In].
    by apply elem_of_map_to_list, list_elem_of_In.
  - intros (st' & [= <-] & g & us & Hg & Hu). exists (g, us). split.
    + by apply list_elem_of_In, elem_of_map_to_list.
    + apply existsb_exists. exists (st_uid st). split; [by apply list_elem_of_In|].
      by apply bool_decide_eq_true.
Qed.
End accounts.

Lemma AddConn_new conn type s :
  (∀ t, sv_conns s !! conn = Some t → ¬ t > 0) →
  TcpMessageHandler.AddConn conn type s = Ret (tt, set_conns (<[conn := type]> (sv_conns s)) s).
Proof.
  intros Hs. unfold TcpMessageHandler.AddConn, mbind, St_bind, get.
  destruct (sv_conns s !! conn) as [t|]; [|done]. by rewrite decide_False by (by apply Hs).
Qed.

(** C29. Who may use the SDK: a client bound to a name of fewer than 108 bytes
    is accepted as an SDK client exactly when the file of that name exists and
    belongs to root or to a user that /etc/group lists for the groups oeaware
    or root; a client that is refused leaves the table and epoll alone. *)
Theorem SaveConnection_authorises {HS : Host} {AC : Accounts} (a : Accepted) (s : Server)
    (Hgroups : sv_groups s = InitGroups) (Hconn : 0 ≤ ac_conn a)
    (Hnew : sv_conns s !! ac_conn a = None ∨ sv_conns s !! ac_conn a = Some DISCONNECTED)
    (Hctl : ac_ctl a = true) (Hlen : (0 < length (ac_path a) < 108)%nat) :
  ∃ s', TcpSocket.SaveConnection a s = Ret (tt, s') ∧
    (sv_conns s' !! ac_conn a = Some SDK_CONN ↔
     ∃ st, file_stat (c_str (str_of (ac_path a))) = Some st ∧ authorised (st_uid st)) ∧
    (sv_conns s' !! ac_conn a ≠ Some SDK_CONN →
     sv_conns s' = sv_conns s ∧ sv_epoll s' = sv_epoll s).
Proof.
  pose proof (CheckFileGroups_has_uid (c_str (str_of (ac_path a))) InitGroups) as Hc.
  setoid_rewrite has_uid_InitGroups in Hc. setoid_rewrite <-Hc.
  unfold TcpSocket.SaveConnection. rewrite decide_False by lia.
  unfold mbind at 1, St_bind, modify. rewrite decide_False by (unfold maxNameLength; lia).
  unfold mbind at 1, St_bind, get. simpl.
  rewrite (bool_decide_true (0 < _)) by lia. simpl. rewrite Hctl, Hgroups.
  destruct (TcpSocket.CheckFileGroups _ _) eqn:E; simpl.
  - unfold mbind at 1, St_bind. simpl. rewrite AddConn_new.
    2:{ simpl. destruct Hnew as [-> | ->]; [done|]. by intros ? [= <-]. }
    eexists. split; [reflexivity|]. simpl. rewrite lookup_insert_eq. naive_solver.
  - eexists. split; [reflexivity|]. simpl. split; [|done]. destruct Hnew as [->| ->]; naive_solver.
Qed.

Definition accounts_ref : Accounts := {|
  etc_group := Some [bytes_of "root:x:0:"; bytes_of "oeaware:x:990:alice,bob"];
  getgrnam := λ g, if decide (g = "oeaware"%string) then Some 990 else
                   if decide (g = "root"%string) then Some 0 else None;
  getpwnam := λ u, if decide (u = "bob"%string) then Some 1001 else None;
|}.

(** The files of clients: everything belongs to user 1001. *)
Definition host_bob : Host := {|
  file_exist := λ _, true;
  file_stat := λ _, Some {| st_mode := 49645; st_uid := 1001; st_gid := 100 |};
  dl_load := λ _, None;
|}.

Definition manager_ref : Manager := mkManager world Config0 (mkLogger ∅ EmptyString 0) [] [] [].
Definition server_ref : Server :=
  mkServer manager_ref ∅ false (@InitGroups accounts_ref) ∅ ∅.
Definition sdk_path : list byte := bytes_of "/var/run/oeAware/oeaware-sdk.1.2.sock" ++ [x00].
Definition sdk_client (fd : Z) (ins : list Segment) : Accepted :=
  mkAccepted fd sdk_path true (mkPeer ins [] []).

(** The state after a call; the state before it when there is none. *)
Definition server_after {A} (m : St Server A) (s : Server) : Server :=
  match m s with Ret (_, s') => s' | _ => s end.

Lemma SaveConnection_authorises_witness :
  ∃ s', @TcpSocket.SaveConnection host_bob (sdk_client 7 []) server_ref = Ret (tt, s') ∧
    sv_conns s' !! 7 = Some SDK_CONN.
Proof.
  destruct (@SaveConnection_authorises host_bob accounts_ref (sdk_client 7 []) server_ref)
    as (s' & E & [_ Hiff] & _).
  - done.
  - by vm_compute.
  - by left.
  - done.
  - simpl. split; by apply Nat.ltb_lt.
  - exists s'. split; [done|]. apply Hiff. eexists. split; [reflexivity|].
    apply has_uid_InitGroups. exists 990, [1001]. split; [by vm_compute|]. by_decide.
Defined.

(** A client whose socket has a name of 107 characters or more (its
    length, with the terminating zero, is then 108) makes the server write
    past the end of the buffer for that name. *)
Theorem SaveConnection_long_name_undef {HS : Host} (a : Accepted) (s : Server)
    (Hconn : 0 ≤ ac_conn a) (Hlen : (108 ≤ length (ac_path a))%nat) :
  TcpSocket.SaveConnection a s = Undef.
Proof.
  unfold TcpSocket.SaveConnection. rewrite decide_False by lia.
  unfold mbind, St_bind, modify. by rewrite decide_True by (unfold maxNameLength; lia).
Qed.

Lemma SaveConnection_long_name_undef_witness :
  @TcpSocket.SaveConnection host_bob
    (mkAccepted 7 (repeat x61 107 ++ [x00]) true no_peer) server_ref = Undef.
Proof. apply SaveConnection_long_name_undef; [by vm_compute|]. simpl. lia. Defined.

(** ** One answer for each message *)

(** A manager with other queues, and an operation's outcome moved there. *)
Definition with_queues (recv : list Event) (send : list EventResult) (m : Manager) : Manager :=
  set_recv recv (set_send send m).

Definition map_state {A S} (f : S → S) (o : outcome (A * S)) : outcome (A * S) :=
  match o with Ret (a, s) => Ret (a, f s) | Throw e => Throw e | Undef => Undef end.

Lemma with_queues_id m : with_queues (pm_recv m) (pm_send m) m = m.
Proof. by destruct m. Qed.

Section answering.
Context `{PF : Platform} `{SC : SecureC} `{KP : Kperf} `{PC : PluginCode} `{HO : HashOrder}
  `{HS : Host} `{YC : YamlConversions} `{DK : Disk}.
Context (reg : registry).

Lemma on_daemon_frame {A} (f : St Daemon A) l1 l2 m :
  on_daemon f (with_queues l1 l2 m) = map_state (with_queues l1 l2) (on_daemon f m).
Proof. unfold on_daemon. simpl. by destruct (f (pm_daemon m)) as [[a d]| |]. Qed.

(** No handler looks at the queues of events, or changes them. *)
Lemma dispatch_frame ev l1 l2 m :
  dispatch reg ev (with_queues l1 l2 m) = map_state (with_queues l1 l2) (dispatch reg ev m).
Proof.
  unfold dispatch. destruct (ev_opt ev); try done; try apply on_daemon_frame.
  - unfold InfoHandle, mbind, St_bind, get. simpl.
    destruct (CreateInfoCmdInstances _) as [[] infos]; [|done]. simpl.
    unfold on_daemon, modify. simpl. by destruct (info_rows _ _ _ _) as [[? ?]| |].
  - unfold ReloadConfHandle, mbind, St_bind, get. simpl.
    destruct (Reload _ _ _) as [[err|] c]; [done|].
    destruct (ChangeAllLogLevel _ _) as [[] lg]; done.
Qed.

Lemma dispatch_queues ev m er m' :
  dispatch reg ev m = Ret (er, m') → pm_recv m' = pm_recv m ∧ pm_send m' = pm_send m.
Proof.
  intros E. pose proof (dispatch_frame ev (pm_recv m) (pm_send m) m) as F.
  rewrite with_queues_id, E in F. simpl in F. injection F as F. rewrite F. by destruct m'.
Qed.

(** Handling events whose results nobody waits for. *)
Definition dispatch_all (l : list Event) : St Manager unit :=
  for_each l (λ ev, dispatch reg ev ;; mret tt).

Definition internal (ev : Event) : Prop := ev_type ev = INTERNAL ∧ ev_opt ev ≠ SHUTDOWN.

Lemma dispatch_all_cons x l m :
  dispatch_all (x :: l) m = match dispatch reg x m with
                            | Ret (_, m') => dispatch_all l m' | Throw e => Throw e
                            | Undef => Undef end.
Proof.
  unfold dispatch_all. cbn [for_each]. rewrite !run_bind.
  by destruct (dispatch reg x m) as [[? ?]| |].
Qed.

Lemma dispatch_all_frame l l1 l2 m :
  dispatch_all l (with_queues l1 l2 m) = map_state (with_queues l1 l2) (dispatch_all l m).
Proof.
  revert m. induction l as [|x l IH]; intros m; [done|].
  rewrite !dispatch_all_cons, dispatch_frame.
  destruct (dispatch reg x m) as [[r mx]| |]; [|done|done]. simpl. apply IH.
Qed.

(** A round handles the event at the head, and sends a result for it exactly
    when it came from a client. *)
Lemma RunRound_event ev l m r m' :
  pm_recv m = ev :: l → ev_opt ev ≠ SHUTDOWN → dispatch reg ev m = Ret (r, m') →
  RunRound reg m = Ret (true, with_queues l
    (pm_send m ++ match ev_type ev with EXTERNAL => [r] | INTERNAL => [] end) m').
Proof.
  intros Hr Ho Ed. unfold RunRound, mbind, St_bind, get, modify.
  rewrite Hr, decide_False by done. simpl.
  change (set_recv l m) with (with_queues l (pm_send m) m). rewrite dispatch_frame, Ed. simpl.
  destruct (ev_type ev); simpl; [by rewrite app_nil_r|done].
Qed.

Lemma WaitAndPop_answers l ev m m1 m2 er :
  Forall internal l → ev_type ev = EXTERNAL → ev_opt ev ≠ SHUTDOWN → pm_send m = [] →
  pm_recv m = l ++ [ev] → dispatch_all l m = Ret (tt, m1) → dispatch reg ev m1 = Ret (er, m2) →
  WaitAndPop reg (length (pm_recv m)) m = Ret (Some er, with_queues [] [] m2).
Proof.
  intros Hl He Ho Hs Hr. rewrite Hr, length_app, Nat.add_comm. simpl.
  revert m m1 m2 Hs Hr. induction Hl as [|x l [Hx Hxo] Hl IH]; intros m m1 m2 Hs Hr Ed Ev.
  - apply Ret_inj in Ed. injection Ed as <-. simpl in Hr.
    rewrite run_bind. simpl. rewrite Hs, run_bind, (RunRound_event ev [] m er m2) by done.
    by rewrite Hs, He.
  - revert Ed. rewrite dispatch_all_cons.
    destruct (dispatch reg x m) as [[r mx]| |] eqn:Ex; [|done|done]. simpl. intros Ed.
    rewrite run_bind. simpl. rewrite Hs, run_bind, (RunRound_event x (l ++ [ev]) m r mx) by done.
    rewrite Hs, Hx. simpl.
    change (with_queues [] [] m2) with (with_queues [] [] (with_queues (l ++ [ev]) [] m2)).
    apply (IH (with_queues (l ++ [ev]) [] mx) (with_queues (l ++ [ev]) [] m1)); [done|done| |].
    + by rewrite dispatch_all_frame, Ed.
    + by rewrite dispatch_frame, Ev.
Qed.

(** *** A client's message *)

Definition extras (t fd : Z) : list string :=
  if is_sdk_conn t then [str_of (to_string fd)] else [].

Lemma conn_at_known fd t s : sv_conns s !! fd = Some t → conn_at fd s = Ret (t, s).
Proof. intros E. unfold conn_at. rewrite run_bind. simpl. by rewrite E. Qed.

Lemma on_manager_run {A} (f : St Manager A) a m s :
  f (sv_manager s) = Ret (a, m) → on_manager f s = Ret (a, set_manager m s).
Proof. intros E. unfold on_manager. by rewrite E. Qed.

Lemma GetProtocolStr_length p bs : GetProtocolStr p = Ret bs → ∃ b bs', bs = b :: bs'.
Proof.
  unfold GetProtocolStr. destruct (HeaderSerialize _ _) as [[? head]| |]; [|done|done].
  destruct (MessageSerialize _ _) as [[? body]| |]; [|done|done]. intros <-%Ret_inj.
  pose proof (length_to_bytes CUlong (PROTOCOL_LENGTH_SIZE + HEADER_LENGTH_SIZE +
    Z.of_nat (length body))) as Hl.
  destruct (to_bytes _ _) as [|b bs']; [done|]. by eexists b, _.
Qed.

(** [send] of a whole message, when the socket takes it. *)
Lemma SendMessageToRemote_all msg bs ss :
  GetProtocolStr (mkProtocol RESPONSE msg) = Ret bs → bs ≠ [] → ss_send ss = [] →
  SendMessageToRemote msg ss = Ret (true, mkSS (ss_in ss) [] (ss_sent ss ++ bs) (readBuff ss)
                                            (readBuffOff ss) (readBuffContentSize ss)).
Proof.
  intros E Hne Hs. unfold SendMessageToRemote, SendMessage. rewrite E, run_bind.
  unfold Write, send. rewrite Hs, Nat2Z.id, firstn_all. simpl. unfold mret, St_ret.
  rewrite bool_decide_true; [done|]. destruct bs; simpl; [done|lia].
Qed.

Lemma PushEvent_run msg x s :
  PushEvent msg x s = Ret (tt, set_manager (set_recv (pm_recv (sv_manager s) ++
    [mkEvent (msg_opt msg) EXTERNAL (msg_payload msg ++ x)]) (sv_manager s)) s).
Proof. done. Qed.

Lemma GetEventResult_run l ev s m m1 m2 o payload :
  sv_manager s = set_recv (l ++ [ev]) m → pm_send m = [] → pm_recv m = l →
  Forall internal l → ev_type ev = EXTERNAL → ev_opt ev ≠ SHUTDOWN →
  dispatch_all l m = Ret (tt, m1) →
  dispatch reg ev m1 = Ret (mkEventResult (Some o) payload, m2) →
  GetEventResult reg s =
    Ret (Some (mkMessage o payload), set_manager (with_queues [] [] m2) s).
Proof.
  intros Em Hs Hr Hl He Ho Hb Hev. unfold GetEventResult. rewrite run_bind. simpl.
  rewrite run_bind.
  rewrite (on_manager_run _ (Some (mkEventResult (Some o) payload)) (with_queues [] [] m2)); [done|].
  change (with_queues [] [] m2) with (with_queues [] [] (with_queues (l ++ [ev]) [] m2)).
  assert (sv_manager s = with_queues (l ++ [ev]) [] m) as Em'.
  { rewrite Em, <-Hs. by destruct m. }
  rewrite Em'. apply (WaitAndPop_answers l ev _ (with_queues (l ++ [ev]) [] m1)); try done.
  - by rewrite dispatch_all_frame, Hb.
  - by rewrite dispatch_frame, Hev.
Qed.

(** *** Reading leaves the sending side alone *)

Definition out_is (sends : list Z) (sent : list byte) (ss : SocketStream) : Prop :=
  ss_send ss = sends ∧ ss_sent ss = sent.

Lemma keeps_recv a b size : keeps (out_is a b) (recv size).
Proof.
  intros ss r ss' [Ha Hb]. unfold recv.
  destruct (ss_in ss) as [|[bs|] ins]; intros E; by injection E as _ <-.
Qed.

Lemma keeps_Read a b size : keeps (out_is a b) (Read size).
Proof.
  pose proof (keeps_recv a b) as Hr.
  assert (∀ off n, keeps (out_is a b) (copy_out off n)) as Hc.
  { intros off n. unfold copy_out. keeps. }
  assert (∀ x y, keeps (out_is a b) (set_off x y)) as Hs by (intros x y; unfold set_off; keeps).
  assert (∀ x, keeps (out_is a b) (set_buff x)) as Hb by (intros x; unfold set_buff; keeps).
  unfold Read. repeat (first [apply Hr | apply Hc | apply Hs | apply Hb | keeps_step]).
Qed.

Lemma keeps_ReadBuf a b x y : keeps (out_is a b) (ReadBuf x y).
Proof.
  unfold ReadBuf. generalize (Z.to_nat (wrap CInt y - wrap CInt x)) as n.
  generalize (@nil byte) as msg, (wrap CInt x) as z. intros msg z n. revert z msg.
  induction n as [|n IH]; intros z msg; simpl; [keeps|].
  repeat (first [apply keeps_Read | apply IH | keeps_step]).
Qed.

Lemma keeps_RecvMessage a b p : keeps (out_is a b) (RecvMessage p).
Proof.
  unfold RecvMessage. repeat (first [apply keeps_Read | apply keeps_ReadBuf | keeps_step]).
Qed.
End answering.

(** The client's side of a call: the message [msg] is what its bytes frame,
    whatever segments they come in. *)
Definition client_sends `{PF : Platform} (msg : Message) (peer : Peer) : Prop :=
  Protocol_ok (mkProtocol REQUEST msg) ∧ p_send peer = [] ∧
  stream_ok (mkSS (p_in peer) (p_send peer) (p_sent peer) [] 0 0) ∧
  ready 16 (mkSS (p_in peer) (p_send peer) (p_sent peer) [] 0 0) ∧
  ∃ bs rest, GetProtocolStr (mkProtocol REQUEST msg) = Ret bs ∧
    Z.of_nat (length bs) ≤ 2147483647 ∧ concat (map segment_bytes (p_in peer)) = bs ++ rest.

(** C3. One answer for each message, and it is the answer to that message: the
    server reads the client's message, puts it at the end of the plugin
    manager's queue (an SDK client's with its descriptor added), lets the
    manager work through what is in front of it, and sends the client the
    result of its own event, framed; both queues are empty afterwards, no
    connection is opened or closed, and the manager is in the state that
    handling the events in that order leads to. *)
Theorem HandleMessage_answers {PF : Platform} {SC : SecureC} {SL : SecureCLaws SC} {KP : Kperf}
    {PC : PluginCode} {HO : HashOrder} {HS : Host} {YC : YamlConversions} {DK : Disk}
    (reg : registry) (fd t : Z) (msg : Message) (peer : Peer) (l : list Event) (s : Server)
    (m1 m2 : Manager) (o : Opt) (payload : list string) (out : list byte)
    (Hmax : MAX_RECV_BUFF_SIZE ≤ rsize_max)
    (Hconn : sv_conns s !! fd = Some t) (Hpeer : sv_peers s !! fd = Some peer)
    (Hmsg : client_sends msg peer) (Hopt : msg_opt msg ≠ SHUTDOWN)
    (Hrecv : pm_recv (sv_manager s) = l) (Hsend : pm_send (sv_manager s) = [])
    (Hl : Forall internal l)
    (Hbefore : dispatch_all reg l (sv_manager s) = Ret (tt, m1))
    (Hev : dispatch reg (mkEvent (msg_opt msg) EXTERNAL (msg_payload msg ++ extras t fd)) m1
           = Ret (mkEventResult (Some o) payload, m2))
    (Ho : o ≠ SHUTDOWN)
    (Hout : GetProtocolStr (mkProtocol RESPONSE (mkMessage o payload)) = Ret out) :
  ∃ s', TcpMessageHandler.HandleMessage reg fd s = Ret (Some true, s') ∧
    p_sent <$> sv_peers s' !! fd = Some (p_sent peer ++ out) ∧
    sv_manager s' = with_queues [] [] m2 ∧
    sv_conns s' = sv_conns s ∧ sv_epoll s' = sv_epoll s.
Proof.
  destruct Hmsg as (Hp & Hps & Hok & Hready & bs & rest & Hbs & Hlen & Hin).
  set (ss := mkSS (p_in peer) (p_send peer) (p_sent peer) [] 0 0) in *.
  set (p0 := mkProtocol REQUEST (mkMessage LOAD [])).
  assert (twp (RecvMessage p0) (λ r ss', r = (true, mkProtocol REQUEST msg) ∧
    out_is [] (p_sent peer) ss') ss) as Hrd.
  { eapply twp_mono.
    - apply (keeps_twp (out_is [] (p_sent peer))); [apply keeps_RecvMessage|by split|].
      by eapply (RecvMessage_frame Hmax p0 _ ss bs rest).
    - by intros r ss' [(-> & _) ?]. }
  apply twp_alt in Hrd as (r & ss1 & Erd & -> & Hss1 & Hss1').
  unfold TcpMessageHandler.HandleMessage. rewrite run_bind. simpl. rewrite run_bind.
  unfold on_stream at 1, SocketStreamOf. rewrite Hpeer. simpl. fold ss.
  unfold GetMessageFromRemote. rewrite run_bind. fold p0. rewrite Erd. simpl.
  set (s1 := set_peers _ s). rewrite run_bind, (conn_at_known fd t s1 Hconn), run_bind.
  fold (extras t fd). set (ev := mkEvent _ _ _) in Hev.
  rewrite PushEvent_run, run_bind. fold ev.
  erewrite GetEventResult_run; [|simpl; by rewrite Hrecv|done..]. simpl.
  rewrite run_bind, decide_False by done. simpl. rewrite run_bind. unfold on_stream.
  erewrite SendMessageToRemote_all; [|done| |done].
  2:{ destruct (GetProtocolStr_length _ _ Hout) as (b & out' & ->). done. }
  simpl. eexists. split; [reflexivity|]. simpl. split_and!; [|done..].
  rewrite !lookup_alter_eq, Hpeer. simpl. by rewrite Hss1'.
Qed.

Definition disable_tune : Message := mkMessage DISABLED ["tune"]%string.
Definition enable_first : Manager :=
  set_recv [mkEvent ENABLED INTERNAL ["tune"]%string] manager_ref.
Definition disable_peer : Peer :=
  let bs := frame_of (mkProtocol REQUEST disable_tune) in
  mkPeer [Bytes (take 17 bs); Bytes (drop 17 bs)] [] [].
Definition server_two : Server :=
  mkServer enable_first {[7 := CMD_CONN]} false ∅ {[7]} {[7 := disable_peer]}.

(** The manager's events, with the reference parameters. *)
Definition dispatch_ref (ev : Event) : St Manager EventResult :=
  @dispatch platform_ref secure_c_ref kperf_ref plugins_ok hash_ref host_ref yaml_none disk_none
    (InitRegisterData Arm ∅) ev.
Definition manager_after {A} (m : St Manager A) (s : Manager) : Manager :=
  match m s with Ret (_, s') => s' | _ => s end.

Lemma HandleMessage_answers_witness :
  let m1 := manager_after (dispatch_ref (mkEvent ENABLED INTERNAL ["tune"]%string)) enable_first in
  let m2 := manager_after (dispatch_ref (mkEvent DISABLED EXTERNAL ["tune"]%string)) m1 in
  ∃ s', @TcpMessageHandler.HandleMessage platform_ref secure_c_ref kperf_ref plugins_ok hash_ref
      host_ref yaml_none disk_none (InitRegisterData Arm ∅) 7 server_two = Ret (Some true, s') ∧
    p_sent <$> sv_peers s' !! 7 =
      Some (frame_of (mkProtocol RESPONSE (mkMessage RESPONSE_OK []))) ∧
    sv_manager s' = with_queues [] [] m2.
Proof.
  intros m1 m2.
  destruct (@HandleMessage_answers platform_ref secure_c_ref secure_c_ref_laws kperf_ref plugins_ok
    hash_ref host_ref yaml_none disk_none (InitRegisterData Arm ∅) 7 CMD_CONN disable_tune
    disable_peer (pm_recv enable_first) server_two m1 m2 RESPONSE_OK []
    (frame_of (mkProtocol RESPONSE (mkMessage RESPONSE_OK [])))) as (s' & E & Hs & Hm & _).
  - by vm_compute.
  - reflexivity.
  - reflexivity.
  - split; [repeat split; by_decide|]. split; [done|]. split.
    { split_and!; [by_decide..|]. repeat constructor; discriminate. }
    split; [right; split; [done|]; eexists _, _; split; [done|]; by_decide|].
    exists (frame_of (mkProtocol REQUEST disable_tune)), []. split_and!; by vm_compute.
  - done.
  - reflexivity.
  - reflexivity.
  - by repeat constructor.
  - by vm_compute.
  - by vm_compute.
  - done.
  - by vm_compute.
  - exists s'. exact (conj E (conj Hs Hm)).
Defined.

(** ** Connections *)

(** A client that hangs up: reading its descriptor finds the end of the
    stream; the server forgets the descriptor (table, epoll, [close]) and, for
    an SDK client and no other, posts exactly one event, which unsubscribes
    everything under that descriptor.  Further events on the descriptor do
    nothing until it is used again. *)
Theorem HandleMessage_disconnects {PF : Platform} {SC : SecureC} {KP : Kperf} {PC : PluginCode}
    {HO : HashOrder} {HS : Host} {YC : YamlConversions} {DK : Disk}
    (reg : registry) (fd t : Z) (peer : Peer) (s : Server)
    (Hconn : sv_conns s !! fd = Some t) (Ht : t = CMD_CONN ∨ t = SDK_CONN)
    (Hpeer : sv_peers s !! fd = Some peer) (Hclosed : p_in peer = []) :
  ∃ s', TcpSocket.HandleMessage reg fd s = Ret (true, s') ∧
    sv_conns s' = <[fd := DISCONNECTED]> (sv_conns s) ∧
    sv_epoll s' = sv_epoll s ∖ {[fd]} ∧ sv_peers s' = delete fd (sv_peers s) ∧
    sv_manager s' = set_recv (pm_recv (sv_manager s) ++
      (if decide (t = SDK_CONN) then [mkEvent UNSUBSCRIBE INTERNAL [str_of (to_string fd)]]
       else [])) (sv_manager s) ∧
    TcpSocket.HandleMessage reg fd s' = Ret (true, s').
Proof.
  destruct peer as [ins sends sent]. simpl in Hclosed. subst ins.
  assert (0 < t) as Hpos by (by destruct Ht as [-> | ->]).
  unfold TcpSocket.HandleMessage at 1. rewrite run_bind. unfold TcpMessageHandler.IsConn at 1.
  rewrite run_bind, (conn_at_known fd t s Hconn). simpl. rewrite bool_decide_true by lia. simpl.
  rewrite run_bind. unfold TcpMessageHandler.HandleMessage. rewrite run_bind. simpl.
  rewrite run_bind. unfold on_stream, SocketStreamOf. rewrite Hpeer. simpl.
  set (s1 := set_peers _ s). rewrite run_bind. unfold TcpMessageHandler.CloseConn.
  rewrite run_bind, (conn_at_known fd t s1 Hconn), run_bind.
  assert (∀ s2, sv_conns s2 !! fd = Some DISCONNECTED →
    TcpSocket.HandleMessage reg fd s2 = Ret (true, s2)) as Hagain.
  { intros s2 Hs2. unfold TcpSocket.HandleMessage. rewrite run_bind.
    unfold TcpMessageHandler.IsConn. by rewrite run_bind, (conn_at_known fd DISCONNECTED). }
  destruct Ht as [-> | ->]; (eexists; split_and!; [reflexivity|reflexivity|reflexivity| | |]);
    try (apply Hagain, lookup_insert_eq); simpl; try apply delete_alter_eq; [|done].
  rewrite app_nil_r. by destruct (sv_manager s).
Qed.

Lemma HandleMessage_disconnects_witness :
  let s := server_after (@TcpSocket.SaveConnection host_bob (sdk_client 7 [])) server_ref in
  ∃ s', @TcpSocket.HandleMessage platform_ref secure_c_ref kperf_ref plugins_ok hash_ref
      host_bob yaml_none disk_none ∅ 7 s = Ret (true, s') ∧
    pm_recv (sv_manager s') = [mkEvent UNSUBSCRIBE INTERNAL ["7"]%string].
Proof.
  intros s.
  destruct (@HandleMessage_disconnects platform_ref secure_c_ref kperf_ref plugins_ok hash_ref
    host_bob yaml_none disk_none ∅ 7 SDK_CONN (mkPeer [] [] []) s)
    as (s' & E & _ & _ & _ & Hm & _).
  - by vm_compute.
  - by right.
  - by vm_compute.
  - done.
  - exists s'. split; [exact E|]. rewrite Hm. by vm_compute.
Defined.

(** What the kernel guarantees of a new descriptor: it is not in use. *)
Definition fresh_fd (a : Accepted) (s : Server) : Prop :=
  0 ≤ ac_conn a → sv_peers s !! ac_conn a = None.

(** The steps of the two threads. *)
Inductive server_step `{PF : Platform} `{SC : SecureC} `{KP : Kperf} `{PC : PluginCode}
    `{HO : HashOrder} `{HS : Host} `{YC : YamlConversions} `{DK : Disk} (reg : registry) :
    Server → Server → Prop :=
| step_accept a s s' : fresh_fd a s →
    TcpSocket.SaveConnection a s = Ret (tt, s') → server_step reg s s'
| step_message fd b s s' :
    TcpSocket.HandleMessage reg fd s = Ret (b, s') → server_step reg s s'
| step_data b s s' :
    TcpMessageHandler.StartRound s = Ret (b, s') → server_step reg s s'.

(** The table, epoll and the open descriptors agree. *)
Definition server_inv (s : Server) : Prop :=
  (∀ fd t, sv_conns s !! fd = Some t → t ∈ [DISCONNECTED; 0; CMD_CONN; SDK_CONN]) ∧
  (∀ fd, fd ∈ sv_epoll s ↔ ∃ t, sv_conns s !! fd = Some t ∧ 0 < t) ∧
  (∀ fd, fd ∈ sv_epoll s → is_Some (sv_peers s !! fd)).

Section invariant.
Context `{PF : Platform} `{SC : SecureC} `{KP : Kperf} `{PC : PluginCode} `{HO : HashOrder}
  `{HS : Host} `{YC : YamlConversions} `{DK : Disk}.
Context (reg : registry).

Lemma keeps_on_manager {A} (f : St Manager A) : keeps server_inv (on_manager f).
Proof.
  intros s a s' Hs. unfold on_manager. destruct (f _) as [[? ?]| |]; [|done|done].
  by intros [= _ <-].
Qed.

Lemma keeps_on_stream {A} fd ss (f : St SocketStream A) :
  keeps server_inv (on_stream fd ss f).
Proof.
  intros s a s' (Ht & He & Ho). unfold on_stream. destruct (f _) as [[? ?]| |]; [|done|done].
  intros [= _ <-]. split_and!; [done..|]. intros fd' Hin%Ho. simpl.
  destruct (decide (fd' = fd)) as [->|Hne].
  - rewrite lookup_alter_eq. by destruct (sv_peers s !! fd); [|by destruct Hin].
  - by rewrite lookup_alter_ne.
Qed.

Lemma keeps_conn_at fd : keeps server_inv (conn_at fd).
Proof.
  intros s t s' (Ht & He & Ho). unfold conn_at. rewrite run_bind. simpl.
  destruct (sv_conns s !! fd) as [t'|] eqn:E; intros [= <- <-]; [done|]. split_and!; simpl.
  - intros fd' t' [[<- <-]|[_ H']]%lookup_insert_Some; [set_solver|by eapply Ht].
  - intros fd'. rewrite He. destruct (decide (fd' = fd)) as [->|Hne].
    + rewrite lookup_insert_eq, E. naive_solver lia.
    + by rewrite lookup_insert_ne.
  - done.
Qed.

Lemma keeps_push_data ev : keeps server_inv (modify (push_data ev)).
Proof. by intros s a s' Hs [= _ <-]. Qed.
Lemma keeps_set_shutdown b : keeps server_inv (modify (set_shutdown b)).
Proof. by intros s a s' Hs [= _ <-]. Qed.
End invariant.

#[export] Hint Resolve keeps_on_manager keeps_on_stream keeps_conn_at keeps_push_data
  keeps_set_shutdown : keeps.

Section steps.
Context `{PF : Platform} `{SC : SecureC} `{KP : Kperf} `{PC : PluginCode} `{HO : HashOrder}
  `{HS : Host} `{YC : YamlConversions} `{DK : Disk}.
Context (reg : registry).

Lemma keeps_handler fd : keeps server_inv (TcpMessageHandler.HandleMessage reg fd).
Proof.
  unfold TcpMessageHandler.HandleMessage, PushEvent, GetEventResult.
  repeat (first [solve [auto with keeps] | keeps_step]); done.
Qed.

Lemma keeps_StartRound : keeps server_inv TcpMessageHandler.StartRound.
Proof.
  assert (∀ bs, keeps server_inv (λ s, match atoi bs with
    | Ret fd => Ret (fd, s) | Throw e => Throw e | Undef => Undef end)) as Ha.
  { intros bs s a s' Hs. destruct (atoi bs); by intros [= <- <-]. }
  unfold TcpMessageHandler.StartRound, TcpMessageHandler.GetMessageFromDataEvent.
  repeat (first [apply Ha | solve [auto with keeps] | keeps_step]); done.
Qed.

(** Forgetting a descriptor in the table, in epoll and in the kernel. *)
Lemma inv_forget fd s :
  server_inv s →
  server_inv (set_peers (delete fd (sv_peers s)) (set_epoll (sv_epoll s ∖ {[fd]})
    (set_conns (<[fd := DISCONNECTED]> (sv_conns s)) s))).
Proof.
  intros (Ht & He & Ho). split_and!; simpl.
  - intros fd' t [[<- <-]|[_ H']]%lookup_insert_Some; [set_solver|by eapply Ht].
  - intros fd'. rewrite elem_of_difference, elem_of_singleton, He.
    destruct (decide (fd' = fd)) as [->|Hne].
    + rewrite lookup_insert_eq. unfold DISCONNECTED. naive_solver lia.
    + rewrite lookup_insert_ne by done. naive_solver.
  - intros fd' [Hin Hne]%elem_of_difference. rewrite lookup_delete_ne by set_solver. by apply Ho.
Qed.

Lemma keeps_forget fd : keeps server_inv (
  TcpMessageHandler.CloseConn fd ;; modify (λ s, set_epoll (sv_epoll s ∖ {[fd]}) s) ;;
  modify (λ s, set_peers (delete fd (sv_peers s)) s) ;; mret true).
Proof.
  intros s b s' Hs. unfold TcpMessageHandler.CloseConn. rewrite !run_bind.
  destruct (conn_at fd s) as [[t s1]| |] eqn:E1; [|done|done]. rewrite run_bind.
  apply (keeps_conn_at fd) in E1; [|done].
  assert (keeps server_inv (if is_sdk_conn t
    then on_manager (SendMsg (mkEvent UNSUBSCRIBE INTERNAL [str_of (to_string fd)]))
    else mret tt)) as Hk by keeps.
  match type of Hk with keeps _ ?m => destruct (m s1) as [[[] s2]| |] eqn:E2 end; [|done|done].
  apply Hk in E2; [|done]. intros [= _ <-]. by apply inv_forget.
Qed.

Lemma keeps_HandleMessage fd : keeps server_inv (TcpSocket.HandleMessage reg fd).
Proof.
  unfold TcpSocket.HandleMessage, TcpMessageHandler.IsConn.
  repeat (first [apply keeps_handler | apply keeps_forget | keeps_step]).
Qed.

Lemma inv_accept conn peer type s :
  server_inv s → sv_peers s !! conn = None → type = CMD_CONN ∨ type = SDK_CONN →
  server_inv (set_conns (<[conn := type]> (sv_conns s))
    (set_epoll (sv_epoll s ∪ {[conn]}) (set_peers (<[conn := peer]> (sv_peers s)) s))).
Proof.
  intros (Ht & He & Ho) Hn Htype. split_and!; simpl.
  - intros fd t [[<- <-]|[_ H']]%lookup_insert_Some; [set_solver|by eapply Ht].
  - intros fd. rewrite elem_of_union, elem_of_singleton, He.
    destruct (decide (fd = conn)) as [->|Hne].
    + rewrite lookup_insert_eq. split; [|by right]. intros _. exists type.
      split; [done|]. by destruct Htype as [-> | ->].
    + rewrite lookup_insert_ne by done. naive_solver.
  - intros fd [Hin| ->%elem_of_singleton]%elem_of_union.
    + destruct (decide (fd = conn)) as [->|Hne]; [by rewrite lookup_insert_eq|].
      rewrite lookup_insert_ne by done. by apply Ho.
    + by rewrite lookup_insert_eq.
Qed.

Lemma inv_open conn peer s :
  server_inv s → server_inv (set_peers (<[conn := peer]> (sv_peers s)) s).
Proof.
  intros (Ht & He & Ho). split_and!; [done..|]. simpl. intros fd Hin%Ho.
  destruct (decide (fd = conn)) as [->|Hne]; [by rewrite lookup_insert_eq|].
  by rewrite lookup_insert_ne.
Qed.

Lemma inv_SaveConnection a s s' :
  server_inv s → fresh_fd a s → TcpSocket.SaveConnection a s = Ret (tt, s') → server_inv s'.
Proof.
  intros Hs Hf. unfold TcpSocket.SaveConnection. case_decide as Hc; [by intros [= <-]|].
  rewrite run_bind. simpl. case_decide; [done|]. rewrite run_bind. simpl.
  pose proof (inv_open (ac_conn a) (ac_peer a) s Hs) as Hs1.
  destruct (_ && _); [by intros [= <-]|]. destruct (negb _); [by intros [= <-]|].
  rewrite run_bind. simpl.
  assert (sv_peers s !! ac_conn a = None) as Hn by (apply Hf; lia).
  rewrite AddConn_new.
  - intros [= <-]. simpl. apply inv_accept; [done|done|]. case_bool_decide; [by right|by left].
  - simpl. destruct Hs as (_ & He & Ho). intros t E Hpos.
    destruct (Ho (ac_conn a)) as [p Hp]; [|by rewrite Hn in Hp].
    apply He. exists t. split; [done|lia].
Qed.

Lemma inv_step s s' : server_inv s → server_step reg s s' → server_inv s'.
Proof.
  intros Hs Hstep. destruct Hstep as [a s s' Hf E|fd b s s' E|b s s' E].
  - by eapply inv_SaveConnection.
  - by eapply keeps_HandleMessage in E.
  - by eapply keeps_StartRound in E.
Qed.
End steps.

(** C28. The server's three views of a connection agree in every state it can
    reach, whatever clients, handlers and instances do: epoll watches exactly
    the descriptors that the table has as connected, each of them is open, and
    the table holds nothing but the four states of a connection. *)
Theorem server_connections_agree {PF : Platform} {SC : SecureC} {KP : Kperf} {PC : PluginCode}
    {HO : HashOrder} {HS : Host} {YC : YamlConversions} {DK : Disk} {AC : Accounts}
    (reg : registry) (m : Manager) (s : Server)
    (Hreach : rtc (server_step reg) (mkServer m ∅ false InitGroups ∅ ∅) s) :
  server_inv s.
Proof.
  assert (server_inv (mkServer m ∅ false InitGroups ∅ ∅)) as H0.
  { split_and!; simpl; [by intros ? ? ?%lookup_empty_Some| |set_solver].
    intros fd. split; [set_solver|]. by intros (t & ?%lookup_empty_Some & _). }
  induction Hreach as [|s1 s2 s3 Hstep _ IH]; [done|]. apply IH. by eapply inv_step.
Qed.

Lemma server_connections_agree_witness :
  let s1 := server_after (@TcpSocket.SaveConnection host_bob (sdk_client 7 [])) server_ref in
  server_inv s1 ∧ sv_epoll s1 = {[7]}.
Proof.
  intros s1. split; [|by_decide].
  apply (@server_connections_agree platform_ref secure_c_ref kperf_ref plugins_ok hash_ref
    host_bob yaml_none disk_none accounts_ref ∅ manager_ref s1).
  apply rtc_once. apply (step_accept _ (sdk_client 7 [])); [done|]. by vm_compute.
Defined.

Definition serve_ref (fd : Z) : St Server bool :=
  @TcpSocket.HandleMessage platform_ref secure_c_ref kperf_ref plugins_ok hash_ref host_bob
    yaml_none disk_none (InitRegisterData Arm ∅) fd.

(** A server with one connection, and data for it that was not sent yet. *)
Definition server_with (t : Z) (ins : list Segment) (data : list Event) : Server :=
  mkServer (mkManager (set_recvData data world) Config0 (mkLogger ∅ EmptyString 0) [] [] [])
    {[7 := t]} false (@InitGroups accounts_ref) {[7]} {[7 := mkPeer ins [] []]}.

(** Published data is addressed to a descriptor, not to a connection: data
    queued for an SDK client that hangs up is sent to the next client that the
    kernel gives the same descriptor. *)
Theorem stale_data_reaches_next_client :
  let s := server_with SDK_CONN [] [mkEvent DATA INTERNAL ["7"; "for the first"]%string] in
  let s' := server_after (serve_ref 7 ;;
              @TcpSocket.SaveConnection host_bob (sdk_client 7 [Bytes [x00]]) ;;
              TcpMessageHandler.StartRound) s in
  sv_peers s' !! 7 = Some (mkPeer [Bytes [x00]] []
    (frame_of (mkProtocol RESPONSE (mkMessage DATA ["for the first"%string])))).
Proof. by vm_compute. Qed.

(** The buffer of a stream lasts for one message: of two requests that
    arrive together the second is read into it, and dropped with it. *)
Theorem second_request_is_dropped :
  let bs := frame_of (mkProtocol REQUEST disable_tune) in
  let s' := server_after (serve_ref 7) (server_with CMD_CONN [Bytes (bs ++ bs)] []) in
  sv_peers s' !! 7 = Some (mkPeer [] []
    (frame_of (mkProtocol RESPONSE
       (mkMessage RESPONSE_ERROR ["instance is already disabled"%string])))) ∧
  sv_conns s' !! 7 = Some CMD_CONN.
Proof. by vm_compute. Qed.
