(* ===== verification/SmcAcc.v ===== *)
(** * The SMC acceleration kernel module
      (src/plugin/tune/system/network/smc_tune/kprobe/smc_acc.c)

    Probes on the kernel's socket functions switch TCP sockets to SMC, for the
    ports that the module's parameters allow, and stop doing so while most
    connections are short: two sets of counters, one while the switch is on
    and one while it is off, decide that. *)

From Stdlib Require Import ZArith Lia Strings.Byte.
From stdpp Require Import base list strings gmap numbers.
From S2P Require Import Prelude Bytes StdString Utils.

(** ** The kernel's part *)

(** An idr, which maps identifiers to pointers; the module stores the same
    pointer under every identifier. *)
Class Idr := {
  idr : Type;
  idr_new : idr;
  idr_alloc : idr → Z → Z → Z * idr;           (* the identifier or an error, the idr *)
  idr_find : idr → Z → bool;                   (* not null *)
  idr_is_empty : idr → bool;
}.

(** What the kernel documents of it, for a range of one identifier: an end
    that is not positive stands for no end. *)
Class IdrLaws (I : Idr) := {
  idr_find_new i : idr_find idr_new i = false;
  idr_is_empty_spec m : idr_is_empty m = true ↔ ∀ i, idr_find m i = false;
  idr_alloc_ok m p r m' : in_range CInt p →
    idr_alloc m p (wrap CInt (p + 1)) = (r, m') → 0 ≤ r →
    0 ≤ p ∧ idr_find m p = false ∧ ∀ i, idr_find m' i = bool_decide (i = p) || idr_find m i;
}.

Class SmcKernel := {
  kstrtoint : list byte → option Z;            (* base 10; [None] on an error *)
  kprobe_addr : string → option Z;             (* register_kprobe, then probe.addr *)
  kallsyms : Z → string → Z;                   (* a call of the function at an address *)
}.

Class SmcKernelLaws (K : SmcKernel) := {
  kstrtoint_range token z : kstrtoint token = Some z → in_range CInt z
}.

Record Sock := mkSock { sk_protocol : Z; sk_family : Z; sk_type : Z; sk_num : Z }.

(** [sockaddr_storage]: the family, and the two bytes of the port as a number. *)
Record SockAddr := mkSockAddr { ss_family : Z; sin_port : Z }.

Definition AF_INET : Z := 2.
Definition AF_INET6 : Z := 10.
Definition SOCK_STREAM : Z := 1.
Definition IPPROTO_IP : Z := 0.
Definition IPPROTO_TCP : Z := 6.
Definition EINVAL : Z := 22.
Definition ENOMEM : Z := 12.
Definition ENOENT : Z := 2.
Definition VALID_VALUE : Z := 1.

(** On a little-endian machine. *)
Definition ntohs (x : Z) : Z := Z.lor (Z.shiftl (Z.land x 255) 8) (Z.shiftr x 8).

(** ** The module's state *)

Record Counters := mkCounters { conn_count : Z; send_count : Z; release_count : Z }.

Record Smc `{Idr} := mkSmc {
  count_smc : Counters;
  count_tcp : Counters;
  net_tcp2smc : Z;
  NET_TCP2SMC_THRESHOLD : Z;
  black_port_map : idr;
  white_port_map : idr;
  blackPortList : list byte;
  whitePortList : list byte;
  short_connection : Z;
  is_smc_loaded : Z;
  kallsyms_lookup_name_sym : Z
}.

Definition SMC_LOADED : Z := 0.
Definition SMC_UNLOADED : Z := 1.

Definition zero_counters : Counters := mkCounters 0 0 0.

Section smc.
Context `{ID : Idr} `{SK : SmcKernel}.

(** The module's variables when it is loaded with the given parameters. *)
Definition smc_initial (black white : list byte) (short : Z) : Smc :=
  mkSmc _ zero_counters zero_counters 1 1024 idr_new idr_new black white short SMC_LOADED 0.

Definition set_counts (smc tcp : Counters) (on : Z) (s : Smc) : Smc :=
  mkSmc _ smc tcp on (NET_TCP2SMC_THRESHOLD s) (black_port_map s) (white_port_map s)
    (blackPortList s) (whitePortList s) (short_connection s) (is_smc_loaded s)
    (kallsyms_lookup_name_sym s).
Definition set_threshold (t : Z) (s : Smc) : Smc :=
  mkSmc _ (count_smc s) (count_tcp s) (net_tcp2smc s) t (black_port_map s) (white_port_map s)
    (blackPortList s) (whitePortList s) (short_connection s) (is_smc_loaded s)
    (kallsyms_lookup_name_sym s).
Definition set_black (m : idr) (buf : list byte) (s : Smc) : Smc :=
  mkSmc _ (count_smc s) (count_tcp s) (net_tcp2smc s) (NET_TCP2SMC_THRESHOLD s) m
    (white_port_map s) buf (whitePortList s) (short_connection s) (is_smc_loaded s)
    (kallsyms_lookup_name_sym s).
Definition set_white (m : idr) (buf : list byte) (s : Smc) : Smc :=
  mkSmc _ (count_smc s) (count_tcp s) (net_tcp2smc s) (NET_TCP2SMC_THRESHOLD s)
    (black_port_map s) m (blackPortList s) buf (short_connection s) (is_smc_loaded s)
    (kallsyms_lookup_name_sym s).
Definition set_loaded (l sym : Z) (s : Smc) : Smc :=
  mkSmc _ (count_smc s) (count_tcp s) (net_tcp2smc s) (NET_TCP2SMC_THRESHOLD s)
    (black_port_map s) (white_port_map s) (blackPortList s) (whitePortList s)
    (short_connection s) l sym.

(** ** Ports *)

(** [strsep(&buf, ",")], and the rest of the buffer after the separator. *)
Fixpoint strsep (buf : list byte) : list byte * option (list byte) :=
  match buf with
  | [] => ([], None)
  | b :: buf =>
    if decide (b = comma) then ([], Some buf)
    else let '(token, rest) := strsep buf in (b :: token, rest)
  end.

(** The result, the map, and the text of the buffer, whose separators are
    overwritten as they are found; a token for each byte is enough. *)
Fixpoint parse_ports_loop (fuel : nat) (buf : option (list byte)) (port_map : idr)
    (done : list byte) : Z * idr * list byte :=
  match fuel, buf with
  | S fuel, Some text =>
    let '(token, rest) := strsep text in
    let done := done ++ token ++ (match rest with Some _ => [x00] | None => [] end) in
    let left := default [] rest in
    if decide (token = []) then parse_ports_loop fuel rest port_map done else
    match kstrtoint token with
    | None => (- EINVAL, port_map, done ++ left)
    | Some port =>
      let '(id, port_map) := idr_alloc port_map port (wrap CInt (port + 1)) in
      if decide (id < 0) then (- ENOMEM, port_map, done ++ left)
      else parse_ports_loop fuel rest port_map done
    end
  | _, _ => (0, port_map, done)
  end.

Definition parse_and_store_ports (port_list : list byte) (port_map : idr) :
    Z * idr * list byte :=
  parse_ports_loop (S (length port_list)) (Some port_list) port_map [].

Definition is_port_in_map (port_map : idr) (port : Z) : bool := idr_find port_map port.

Definition check_port (port : Z) (s : Smc) : bool :=
  if negb (idr_is_empty (black_port_map s)) then negb (is_port_in_map (black_port_map s) port)
  else if negb (idr_is_empty (white_port_map s)) then is_port_in_map (white_port_map s) port
  else true.

(** ** Switching a socket *)

(** A TCP socket, by its family, type and protocol. *)
Definition is_tcp (sk : Sock) : bool :=
  (bool_decide (sk_family sk = AF_INET) || bool_decide (sk_family sk = AF_INET6)) &&
  bool_decide (Z.land (sk_type sk) 15 = SOCK_STREAM) &&
  (bool_decide (sk_protocol sk = IPPROTO_TCP) || bool_decide (sk_protocol sk = IPPROTO_IP)).

(** Whether the handler calls [tcp_setsockopt(sk, SOL_TCP, TCP_ULP, "smc")]:
    [f] is the socket of the descriptor, if it is one. *)
Definition handler_smc (f : option Sock) (s : Smc) : bool :=
  match f with
  | None => false
  | Some sk => if is_tcp sk then check_port (sk_num sk) s else false
  end.

Definition handler_sys_listen (p : bool) (f : option Sock) (s : Smc) : bool :=
  if negb p then false else handler_smc f s.

(** Null pointers are [None]; an address of another family leaves [dst_port]
    uninitialised. *)
Definition handler_connect_file (file : option (option Sock)) (address : option SockAddr)
    (s : Smc) : outcome bool :=
  if decide (net_tcp2smc s = 0) then Ret false else
  match file, address with
  | Some (Some sk), Some a =>
    if is_tcp sk then
      if decide (ss_family a = AF_INET) then Ret (check_port (ntohs (sin_port a)) s)
      else if decide (ss_family a = AF_INET6) then Ret (check_port (ntohs (sin_port a)) s)
      else Undef
    else Ret false
  | _, _ => Ret false
  end.

(** ** Counting *)

Definition u64 (z : Z) : Z := wrap CUllong z.

Definition handle_smc_connect (s : Smc) : Smc :=
  if decide (net_tcp2smc s = 0) then s else
  let c := count_smc s in
  set_counts (mkCounters (u64 (conn_count c + 1)) (send_count c) (release_count c))
    (count_tcp s) (net_tcp2smc s) s.

Definition handle_smc_sendmsg (s : Smc) : Smc :=
  if decide (net_tcp2smc s = 0) then s else
  let c := count_smc s in
  set_counts (mkCounters (conn_count c) (u64 (send_count c + 1)) (release_count c))
    (count_tcp s) (net_tcp2smc s) s.

Definition handle_smc_release (s : Smc) : Smc :=
  if decide (net_tcp2smc s = 0) then s else
  let c := count_smc s in
  let c := mkCounters (conn_count c) (send_count c) (u64 (release_count c + 1)) in
  if decide (NET_TCP2SMC_THRESHOLD s < conn_count c ∧
             NET_TCP2SMC_THRESHOLD s ≤ release_count c) then
    let real_send_count := send_count c / 2 in
    set_counts zero_counters (count_tcp s)
      (if decide (real_send_count < u64 (conn_count c * 80)) then 0 else net_tcp2smc s) s
  else set_counts c (count_tcp s) (net_tcp2smc s) s.

Definition handle_tcp_conn (s : Smc) : Smc :=
  if decide (net_tcp2smc s ≠ 0) then s else
  let c := count_tcp s in
  set_counts (count_smc s) (mkCounters (u64 (conn_count c + 1)) (send_count c)
    (release_count c)) (net_tcp2smc s) s.

Definition handle_tcp_recv (s : Smc) : Smc :=
  if decide (net_tcp2smc s ≠ 0) then s else
  let c := count_tcp s in
  set_counts (count_smc s) (mkCounters (conn_count c) (u64 (send_count c + 1))
    (release_count c)) (net_tcp2smc s) s.

Definition handle_tcp_fin (s : Smc) : Smc :=
  if decide (net_tcp2smc s ≠ 0) then s else
  let c := count_tcp s in
  let c := mkCounters (conn_count c) (send_count c) (u64 (release_count c + 1)) in
  if decide (NET_TCP2SMC_THRESHOLD s < conn_count c ∧
             NET_TCP2SMC_THRESHOLD s ≤ release_count c) then
    let real_send_count := send_count c / 2 in
    set_counts (count_smc s) zero_counters
      (if decide (u64 (conn_count c * 80) < real_send_count) then 1 else net_tcp2smc s) s
  else set_counts (count_smc s) c (net_tcp2smc s) s.

(** ** Loading and unloading *)

Definition get_kallsyms_func (func_name : string) : Z := default 0 (kprobe_addr func_name).

Definition generic_kallsyms_lookup_name (name : string) (s : Smc) : Z * Smc :=
  let sym := if decide (kallsyms_lookup_name_sym s = 0)
             then get_kallsyms_func "kallsyms_lookup_name" else kallsyms_lookup_name_sym s in
  let s := set_loaded (is_smc_loaded s) sym s in
  if decide (sym = 0) then (0, s) else (kallsyms sym name, s).

Definition check_smc_module (s : Smc) : Z * Smc :=
  let '(addr, s) := generic_kallsyms_lookup_name "smc_ism_init" s in
  (if decide (addr = 0) then 1 else 0, s).

(** [idr_destroy] of both maps. *)
Definition destroy_maps (s : Smc) : Smc :=
  set_black idr_new (blackPortList s) (set_white idr_new (whitePortList s) s).

Definition kprobe_init (s : Smc) : Z * Smc :=
  let '(rc, s) := check_smc_module s in
  if decide (rc ≠ 0) then
    (- ENOENT, destroy_maps (set_loaded SMC_UNLOADED (kallsyms_lookup_name_sym s) s))
  else
    let '(rc, m, buf) := parse_and_store_ports (blackPortList s) (black_port_map s) in
    let s := set_black m buf s in
    if decide (rc ≠ 0) then (rc, destroy_maps s) else
    let '(rc, m, buf) := parse_and_store_ports (whitePortList s) (white_port_map s) in
    let s := set_white m buf s in
    if decide (rc ≠ 0) then (rc, destroy_maps s) else
    (0, if decide (short_connection s = 0) then set_threshold (u64 (Z.lnot 0)) s else s).

Definition kprobe_exit (s : Smc) : Smc := destroy_maps s.
End smc.

(** ** The ports *)

(** The texts between commas, and the ports they name. *)
Fixpoint fields (l : list byte) : list (list byte) :=
  match l with
  | [] => [[]]
  | b :: l => if decide (b = comma) then [] :: fields l
              else match fields l with f :: fs => (b :: f) :: fs | [] => [[b]] end
  end.

Definition port_tokens (l : list byte) : list (list byte) := filter (λ t, t ≠ []) (fields l).
Definition ports_of `{SmcKernel} (l : list byte) : option (list Z) :=
  mapM kstrtoint (port_tokens l).

Lemma fields_not_nil l : fields l ≠ [].
Proof. destruct l; simpl; [done|]. case_decide; [done|]. by destruct (fields l). Qed.

Lemma strsep_fields l t r : strsep l = (t, r) →
  match r with
  | None => fields l = [t]
  | Some l' => fields l = t :: fields l' ∧ (length l' < length l)%nat
  end.
Proof.
  revert t r. induction l as [|b l IH]; intros t r; simpl; [by intros [= <- <-]|].
  case_decide as Hb; [intros [= <- <-]; split; [done|lia]|].
  destruct (strsep l) as [t' r'] eqn:E. intros [= <- <-]. specialize (IH t' r' eq_refl).
  destruct r' as [l'|]; [destruct IH as [-> ?]; split; [done|lia]|by rewrite IH].
Qed.

Section ports.
Context `{ID : Idr} `{SK : SmcKernel} `{!IdrLaws ID} `{!SmcKernelLaws SK}.

Lemma parse_ports_loop_spec fuel text m done m' buf :
  (length text < fuel)%nat →
  parse_ports_loop fuel (Some text) m done = (0, m', buf) →
  ∃ ports, ports_of text = Some ports ∧ NoDup ports ∧
    (∀ p, p ∈ ports → idr_find m p = false) ∧
    ∀ i, idr_find m' i = bool_decide (i ∈ ports) || idr_find m i.
Proof.
  revert text m done. induction fuel as [|fuel IH]; intros text m done Hf; [lia|].
  cbn [parse_ports_loop]. destruct (strsep text) as [t r] eqn:E. pose proof (strsep_fields _ _ _ E) as Hfields.
  (* the ports of the text after the token *)
  assert (∀ m1 done, parse_ports_loop fuel r m1 done = (0, m', buf) →
    ∃ ports, mapM kstrtoint (match r with Some l => port_tokens l | None => [] end) = Some ports ∧
      NoDup ports ∧ (∀ p, p ∈ ports → idr_find m1 p = false) ∧
      ∀ i, idr_find m' i = bool_decide (i ∈ ports) || idr_find m1 i) as Hrest.
  { intros m1 done1 E1. destruct r as [l|].
    - apply IH in E1; [done|lia].
    - exists []. split_and!; [done|constructor|set_solver|]. intros i.
      rewrite bool_decide_false by set_solver.
      by destruct fuel; simpl in E1; injection E1 as <- <-. }
  assert (port_tokens text = filter (λ t, t ≠ []) [t] ++
    match r with Some l => port_tokens l | None => [] end) as Htok.
  { unfold port_tokens. destruct r as [l|]; [destruct Hfields as [-> _]|rewrite Hfields].
    - by rewrite <-list.filter_app.
    - by rewrite app_nil_r. }
  unfold ports_of. rewrite Htok. case_decide as Ht.
  { intros E1. subst t. simpl. by eapply Hrest. }
  rewrite filter_cons_True by done. simpl.
  destruct (kstrtoint t) as [p|] eqn:Ek; [|done].
  destruct (idr_alloc m p _) as [id m1] eqn:Ea. case_decide as Hid; [done|]. intros E1.
  destruct (idr_alloc_ok m p id m1) as (Hp & Hnew & Hm1);
    [by eapply kstrtoint_range|done|lia|].
  destruct (Hrest _ _ E1) as (ports & -> & Hnd & Hfree & Hfind). simpl.
  exists (p :: ports). split_and!; [done| | |].
  - constructor; [|done]. intros Hin%Hfree. rewrite Hm1, bool_decide_true in Hin by done. done.
  - intros q [->|Hq]%elem_of_cons; [done|]. apply Hfree in Hq. rewrite Hm1 in Hq.
    by apply orb_false_iff in Hq as [_ ?].
  - intros i. rewrite Hfind, Hm1, orb_assoc. f_equal.
    destruct (decide (i = p)) as [->|Hne].
    + rewrite (bool_decide_true (p = p)), orb_true_r by done. symmetry.
      apply bool_decide_true. set_solver.
    + rewrite (bool_decide_false (i = p)), orb_false_r by done. apply bool_decide_ext. set_solver.
Qed.

Lemma parse_spec text m' buf :
  parse_and_store_ports text idr_new = (0, m', buf) →
  ∃ ports, ports_of text = Some ports ∧ NoDup ports ∧
    (∀ i, idr_find m' i = bool_decide (i ∈ ports)) ∧ idr_is_empty m' = bool_decide (ports = []).
Proof.
  intros E. apply parse_ports_loop_spec in E as (ports & E & Hnd & _ & Hf); [|lia].
  assert (∀ i, idr_find m' i = bool_decide (i ∈ ports)) as Hf'.
  { intros i. by rewrite Hf, idr_find_new, orb_false_r. }
  exists ports. split_and!; [done..|]. apply eq_bool_prop_intro.
  rewrite bool_decide_spec, Is_true_true, idr_is_empty_spec. split.
  - intros Hall. destruct ports as [|p ports]; [done|]. specialize (Hall p).
    rewrite Hf', bool_decide_true in Hall by set_solver. done.
  - intros -> i. by rewrite Hf'.
Qed.
End ports.

Lemma check_smc_module_shape `{ID : Idr} `{SK : SmcKernel} s :
  ∃ rc sym, check_smc_module s = (rc, set_loaded (is_smc_loaded s) sym s).
Proof.
  unfold check_smc_module, generic_kallsyms_lookup_name.
  generalize (if decide (kallsyms_lookup_name_sym s = 0) then
    get_kallsyms_func "kallsyms_lookup_name" else kallsyms_lookup_name_sym s).
  intros sym. case_decide; by eexists _, _.
Qed.

Lemma kprobe_init_state `{ID : Idr} `{SK : SmcKernel} black white short s :
  kprobe_init (smc_initial black white short) = (0, s) →
  NET_TCP2SMC_THRESHOLD s = (if decide (short = 0) then 2 ^ 64 - 1 else 1024) ∧
  net_tcp2smc s = 1 ∧ count_smc s = zero_counters ∧ count_tcp s = zero_counters ∧
  ∃ bb bw, parse_and_store_ports black idr_new = (0, black_port_map s, bb) ∧
    parse_and_store_ports white idr_new = (0, white_port_map s, bw).
Proof.
  unfold kprobe_init.
  destruct (check_smc_module_shape (smc_initial black white short)) as (rc & sym & ->).
  case_decide as Hrc; [by intros [= _ _]|]. simpl.
  destruct (parse_and_store_ports black idr_new) as [[rb mb] bb] eqn:Eb.
  case_decide as Hrb; [intros [= -> _]; by destruct Hrb|]. subst rb.
  destruct (parse_and_store_ports white idr_new) as [[rw mw] bw] eqn:Ew.
  case_decide as Hrw; [intros [= -> _]; by destruct Hrw|]. subst rw.
  intros [= <-]. case_decide; simpl; (split_and!; [done..|]; by eexists _, _).
Qed.

(** What the parameters mean: when the module loads, each of the two texts
    is a list of distinct numbers between commas, and afterwards a port is
    switched exactly as the parameters' documentation says: with a black list,
    unless it is on it; without one but with a white list, if it is on it; and
    with neither, always. *)
Theorem kprobe_init_ports {I : Idr} {K : SmcKernel} {IL : IdrLaws I} {KL : SmcKernelLaws K}
    (black white : list byte) (short : Z) (s : Smc)
    (Hinit : kprobe_init (smc_initial black white short) = (0, s)) :
  ∃ blacks whites, ports_of black = Some blacks ∧ ports_of white = Some whites ∧
    NoDup blacks ∧ NoDup whites ∧
    (∀ port, check_port port s =
      if decide (blacks ≠ []) then bool_decide (port ∉ blacks)
      else if decide (whites ≠ []) then bool_decide (port ∈ whites) else true) ∧
    NET_TCP2SMC_THRESHOLD s = (if decide (short = 0) then 2 ^ 64 - 1 else 1024) ∧
    net_tcp2smc s = 1 ∧ count_smc s = zero_counters ∧ count_tcp s = zero_counters.
Proof.
  destruct (kprobe_init_state _ _ _ _ Hinit) as (HT & Hn & Hs & Ht & bb & bw & Eb & Ew).
  apply parse_spec in Eb as (bl & Ebl & Hbl & Hfb & Heb).
  apply parse_spec in Ew as (wl & Ewl & Hwl & Hfw & Hew).
  exists bl, wl. split_and!; [done..| | | | |]; [|done..]. intros port.
  unfold check_port, is_port_in_map. rewrite Heb, Hew, Hfb, Hfw, <-!bool_decide_not.
  repeat case_bool_decide; repeat case_decide; naive_solver.
Qed.

(** Reference parameters: an idr as a set, and decimal numbers. *)
Definition idr_ref : Idr := {|
  idr := gset Z; idr_new := ∅;
  idr_alloc := λ m p _, if decide (0 ≤ p ∧ p ∉ m) then (p, {[p]} ∪ m) else (-28, m);
  idr_find := λ m i, bool_decide (i ∈ m);
  idr_is_empty := λ m, bool_decide (m = ∅);
|}.

#[export] Instance idr_ref_laws : IdrLaws idr_ref.
Proof.
  split; simpl.
  - done.
  - intros m. rewrite bool_decide_eq_true. split; [by intros ->|].
    intros Hm. apply set_eq. intros i. specialize (Hm i). apply bool_decide_eq_false in Hm.
    set_solver.
  - intros m p r m' _. case_decide as Hd; intros [= <- <-] Hr; [|lia].
    split_and!; [apply Hd|apply bool_decide_eq_false, Hd|]. intros i.
    destruct (decide (i = p)) as [->|Hne].
    + rewrite (bool_decide_true (p = p)) by done. apply bool_decide_true. set_solver.
    + rewrite (bool_decide_false (i = p)) by done. apply bool_decide_ext. set_solver.
Qed.

Definition smc_kernel_ref : SmcKernel := {|
  kstrtoint := λ t, if forallb is_digit t && negb (bool_decide (t = []))
    then (if decide (in_range CInt (digits_val t)) then Some (digits_val t) else None) else None;
  kprobe_addr := λ _, Some 4096;
  kallsyms := λ _ _, 8192;
|}.

#[export] Instance smc_kernel_ref_laws : SmcKernelLaws smc_kernel_ref.
Proof. split. intros t z. simpl. destruct (_ && _); [|done]. case_decide; [|done]. by intros [= <-]. Qed.

Definition smc_loaded : Smc :=
  snd (@kprobe_init idr_ref smc_kernel_ref (smc_initial (bytes_of "80,,8448") (bytes_of "22") 1)).

Lemma pair_fst {A B} (x : A * B) a : fst x = a → x = (a, snd x).
Proof. destruct x. by intros <-. Qed.

Lemma kprobe_init_ports_witness :
  @check_port idr_ref 8448 smc_loaded = false ∧ @check_port idr_ref 22 smc_loaded = true ∧
  @NET_TCP2SMC_THRESHOLD idr_ref smc_loaded = 1024.
Proof.
  destruct (@kprobe_init_ports idr_ref smc_kernel_ref idr_ref_laws smc_kernel_ref_laws
    (bytes_of "80,,8448") (bytes_of "22") 1 smc_loaded)
    as (bl & wl & Eb & Ew & _ & _ & Hc & Ht & _).
  { apply pair_fst. vm_compute. reflexivity. }
  assert (bl = [80; 8448]) as -> by (vm_compute in Eb; congruence). clear Eb Ew.
  split; [rewrite Hc; reflexivity|]. split; [rewrite Hc; reflexivity|exact Ht].
Defined.

(** ** Suppression of short connections *)

Inductive Probe := SmcConnect | SmcSend | SmcRelease | TcpConn | TcpRecv | TcpFin.
#[export] Instance Probe_eq_dec : EqDecision Probe.
Proof. solve_decision. Defined.

Definition on_probe `{Idr} (s : Smc) (p : Probe) : Smc :=
  match p with
  | SmcConnect => handle_smc_connect s
  | SmcSend => handle_smc_sendmsg s
  | SmcRelease => handle_smc_release s
  | TcpConn => handle_tcp_conn s
  | TcpRecv => handle_tcp_recv s
  | TcpFin => handle_tcp_fin s
  end.

(** The specification: whether the switch is on, and the probes of its kind
    since the last decision. *)
Definition occurrences (q : Probe) (l : list Probe) : Z :=
  Z.of_nat (length (filter (λ p, p = q) l)).
Definition counts (on : bool) (l : list Probe) : Counters :=
  if on then mkCounters (occurrences SmcConnect l) (occurrences SmcSend l)
               (occurrences SmcRelease l)
  else mkCounters (occurrences TcpConn l) (occurrences TcpRecv l) (occurrences TcpFin l).

Definition of_kind (on : bool) (p : Probe) : bool :=
  match p with SmcConnect | SmcSend | SmcRelease => on | _ => negb on end.
Definition is_release (p : Probe) : bool :=
  match p with SmcRelease | TcpFin => true | _ => false end.

(** A decision is due at a release after more than [T] connections and at
    least [T] releases; it compares half of the calls with 80 for each
    connection. *)
Definition window_step (T : Z) (w : bool * list Probe) (p : Probe) : bool * list Probe :=
  let '(on, l) := w in
  if negb (of_kind on p) then w else
  let c := counts on (p :: l) in
  if is_release p && bool_decide (T < conn_count c ∧ T ≤ release_count c) then
    (if on then bool_decide (80 * conn_count c ≤ send_count c / 2)
     else bool_decide (80 * conn_count c < send_count c / 2), [])
  else (on, p :: l).

Lemma occurrences_cons q p l : occurrences q (p :: l) =
  (if decide (p = q) then 1 else 0) + occurrences q l.
Proof.
  unfold occurrences. rewrite filter_cons. case_decide; simpl; lia.
Qed.

Lemma occurrences_range q l : 0 ≤ occurrences q l ≤ Z.of_nat (length l).
Proof.
  unfold occurrences. pose proof (length_filter (λ p, p = q) l). lia.
Qed.

Lemma window_step_length T w p : (length (window_step T w p).2 ≤ S (length w.2))%nat.
Proof.
  destruct w as [on l]. simpl. destruct (negb _); simpl; [lia|]. destruct (_ && _); simpl; lia.
Qed.

Section suppression.
Context `{ID : Idr}.

(** The module's state for a state of the specification. *)
Definition implements (w : bool * list Probe) (s : Smc) : Prop :=
  net_tcp2smc s = (if w.1 then 1 else 0) ∧
  count_smc s = (if w.1 then counts true w.2 else zero_counters) ∧
  count_tcp s = (if w.1 then zero_counters else counts false w.2).

Lemma u64_small z : 0 ≤ z < 2 ^ 64 → u64 z = z.
Proof. intros Hz. unfold u64. by apply wrap_id. Qed.

(** Counting one more probe. *)
Definition bump (p : Probe) (c : Counters) : Counters :=
  match p with
  | SmcConnect | TcpConn => mkCounters (conn_count c + 1) (send_count c) (release_count c)
  | SmcSend | TcpRecv => mkCounters (conn_count c) (send_count c + 1) (release_count c)
  | SmcRelease | TcpFin => mkCounters (conn_count c) (send_count c) (release_count c + 1)
  end.

Lemma counts_cons on p l : of_kind on p = true → counts on (p :: l) = bump p (counts on l).
Proof.
  destruct on, p; intros H; try done; unfold counts; rewrite !occurrences_cons; simpl;
    f_equal; lia.
Qed.

Lemma counts_range on l : let c := counts on l in
  0 ≤ conn_count c ≤ Z.of_nat (length l) ∧ 0 ≤ send_count c ≤ Z.of_nat (length l) ∧
  0 ≤ release_count c ≤ Z.of_nat (length l).
Proof. destruct on; simpl; split_and!; apply occurrences_range. Qed.

(** A handler of the other kind does nothing. *)
Lemma on_probe_other on s p :
  net_tcp2smc s = (if on : bool then 1 else 0) → of_kind on p = false → on_probe s p = s.
Proof.
  intros Hn Hk. destruct on, p; try done; simpl;
    unfold handle_smc_connect, handle_smc_sendmsg, handle_smc_release, handle_tcp_conn,
      handle_tcp_recv, handle_tcp_fin; by rewrite Hn.
Qed.

(** What a handler does with its counters [c] after it has counted. *)
Definition settle (on : bool) (p : Probe) (c : Counters) (s : Smc) : Smc :=
  let due := is_release p && bool_decide (NET_TCP2SMC_THRESHOLD s < conn_count c ∧
                                          NET_TCP2SMC_THRESHOLD s ≤ release_count c) in
  let c' := if due then zero_counters else c in
  let on' := if due then (if on then bool_decide (80 * conn_count c ≤ send_count c / 2)
                          else bool_decide (80 * conn_count c < send_count c / 2)) else on in
  set_counts (if on then c' else count_smc s) (if on then count_tcp s else c')
    (if on' then 1 else 0) s.

Lemma on_probe_settle on s p c :
  net_tcp2smc s = (if on : bool then 1 else 0) → of_kind on p = true →
  c = (if on then count_smc s else count_tcp s) →
  0 ≤ conn_count c < 2 ^ 56 ∧ 0 ≤ send_count c < 2 ^ 56 ∧ 0 ≤ release_count c < 2 ^ 56 →
  on_probe s p = settle on p (bump p c) s.
Proof.
  intros Hn Hk -> Hr.
  destruct on, p; try done; simpl in *;
    unfold settle, handle_smc_connect, handle_smc_sendmsg, handle_smc_release, handle_tcp_conn,
      handle_tcp_recv, handle_tcp_fin; rewrite Hn; simpl; rewrite !u64_small by lia; try done.
  all: repeat case_decide; repeat case_bool_decide; simpl; (done || lia || exfalso; tauto || lia).
Qed.

Lemma implements_step T w s p :
  NET_TCP2SMC_THRESHOLD s = T → Z.of_nat (length w.2) < 2 ^ 56 → implements w s →
  implements (window_step T w p) (on_probe s p) ∧ NET_TCP2SMC_THRESHOLD (on_probe s p) = T.
Proof.
  destruct w as [on l]. simpl. intros HT Hl (Hnet & Hsmc & Htcp). simpl in *.
  destruct (of_kind on p) eqn:Hk; simpl; [|by rewrite (on_probe_other on)].
  rewrite (on_probe_settle on s p (counts on l)); [|done..| |].
  2:{ by destruct on. }
  2:{ pose proof (counts_range on l). simpl in *. lia. }
  rewrite <-counts_cons by done. split; [|done]. unfold settle. rewrite HT.
  destruct (is_release p && _); destruct on; repeat split; simpl; try done;
    by case_bool_decide.
Qed.
End suppression.

(** C18. The counters implement the specification of suppression: after any
    sequence of fewer than 2^56 probes, in either phase, the switch is what
    the specification says, the counters of its phase are the numbers of
    probes since the last decision, and those of the other phase are 0; so
    SMC is switched off exactly when, over a window of more than T connections
    and at least T releases, half the sends were fewer than 80 for each
    connection, and on again exactly when, over such a window of plain TCP,
    half the receives were more than 80 for each. *)
Theorem suppression_refines {I : Idr} (black white : list byte) (short T : Z) (ps : list Probe)
    (Hlen : Z.of_nat (length ps) < 2 ^ 56) :
  let w := foldl (window_step T) (true, []) ps in
  let s := foldl on_probe (set_threshold T (smc_initial black white short)) ps in
  net_tcp2smc s = (if w.1 then 1 else 0) ∧
  count_smc s = (if w.1 then counts true w.2 else zero_counters) ∧
  count_tcp s = (if w.1 then zero_counters else counts false w.2).
Proof.
  assert (∀ ps w s, Z.of_nat (length w.2 + length ps) < 2 ^ 56 → NET_TCP2SMC_THRESHOLD s = T →
    implements w s → implements (foldl (window_step T) w ps) (foldl on_probe s ps)) as H.
  { clear. induction ps as [|p ps IH]; intros w s Hl HT Hi; simpl in *; [done|].
    destruct (implements_step T w s p) as [Hi' HT']; [done|lia|done|].
    apply IH; [|done..]. pose proof (window_step_length T w p). lia. }
  by apply H.
Qed.

Lemma suppression_refines_witness :
  let ps := replicate 3 SmcConnect ++ replicate 2 SmcRelease ++ [TcpConn; SmcSend] in
  let s := foldl on_probe (set_threshold 2 (@smc_initial idr_ref [] [] 1)) ps in
  net_tcp2smc s = 0 ∧ count_tcp s = mkCounters 1 0 0.
Proof.
  intros ps s.
  destruct (@suppression_refines idr_ref [] [] 1 2 ps ltac:(done)) as (Hn & _ & Ht).
  exact (conj Hn Ht).
Defined.

(** The documented way to turn suppression off works: loaded with
    [short_connection] 0, the module never switches SMC off, for any sequence
    of probes of any length, because no 64-bit counter exceeds the threshold. *)
Theorem short_connection_off {I : Idr} {K : SmcKernel} (black white : list byte) (s : Smc)
    (ps : list Probe) (Hinit : kprobe_init (smc_initial black white 0) = (0, s)) :
  net_tcp2smc (foldl on_probe s ps) = 1.
Proof.
  destruct (kprobe_init_state black white 0 s Hinit) as (HT & Hnet & Hc & _).
  rewrite decide_True in HT by done.
  assert (∀ s, NET_TCP2SMC_THRESHOLD s = 2 ^ 64 - 1 → net_tcp2smc s = 1 →
    conn_count (count_smc s) < 2 ^ 64 →
    net_tcp2smc (foldl on_probe s ps) = 1) as H; [|by apply H; [..|rewrite Hc]].
  clear. induction ps as [|p ps IH]; intros s HT Hn Hc; [done|]. simpl.
  assert (∀ z, u64 z < 2 ^ 64) as Hu by (intros z; apply (wrap_in_range CUllong z)).
  destruct p; simpl;
    unfold handle_smc_connect, handle_smc_sendmsg, handle_smc_release, handle_tcp_conn,
      handle_tcp_recv, handle_tcp_fin; rewrite Hn; simpl; try (apply IH; done || apply Hu).
  rewrite decide_False; [by apply IH|]. simpl. rewrite HT. lia.
Qed.

Lemma short_connection_off_witness :
  net_tcp2smc (foldl on_probe (snd (@kprobe_init idr_ref smc_kernel_ref
    (smc_initial (bytes_of "80") [] 0))) (replicate 2000 SmcConnect ++ replicate 2000 SmcRelease)) = 1.
Proof.
  apply (@short_connection_off idr_ref smc_kernel_ref (bytes_of "80") []).
  apply pair_fst. vm_compute. reflexivity.
Defined.
