(* ===== verification/ZbbStrlen.v ===== *)
(** * The word-at-a-time [strlen] of the zbb tuning library
      (src/plugin/tune/hwprobe/ext/hwprobe_ext_zbb_tune/src/zbb_tune.c)

    The library replaces the C library's [strlen] in every process of a RISC-V
    machine with the zbb extension.  It reads eight bytes at a time, from
    addresses that are multiples of eight, and looks for a zero byte with the
    instruction [orc.b]. *)

From Stdlib Require Import ZArith Lia Strings.Byte.
From stdpp Require Import base list numbers.
From S2P Require Import Prelude Bytes.

(** ** The code *)

Definition CHAR_BIT : Z := 8.
Definition sizeof_op_t : Z := 8.

(** [base & -size] on [uintptr_t]. *)
Definition ALIGN_DOWN (base size : Z) : Z := Z.land base (wrap CUlong (- size)).

(** The instruction [orc.b]: every byte that is not zero becomes [0xff]. *)
Definition orc_b (x : Z) : Z :=
  le_val (map (λ b, if decide (b = x00) then x00 else xff) (le_bytes 8 x)).

Definition find_zero_all (x : Z) : Z := wrap CUlong (Z.lnot (orc_b x)).

Definition shift_find (word s : Z) : Z := Z.shiftr word (CHAR_BIT * (s `mod` sizeof_op_t)).

(** [__builtin_ctzl], undefined at zero. *)
Fixpoint pos_ctz (p : positive) : Z :=
  match p with xO p => 1 + pos_ctz p | _ => 0 end.
Definition ctz (c : Z) : outcome Z :=
  match c with Zpos p => Ret (pos_ctz p) | _ => Undef end.

Definition index_first (c : Z) : outcome Z :=
  match ctz c with Ret r => Ret (r / CHAR_BIT) | Throw e => Throw e | Undef => Undef end.

Definition has_zero (x : Z) : bool := bool_decide (find_zero_all x ≠ 0).

Definition index_first_zero (x : Z) : outcome Z := index_first (find_zero_all x).

(** The process's memory: [None] where nothing is mapped. *)
Definition memory := Z → option byte.

(** [*word_ptr]. *)
Definition read_word (mem : memory) (a : Z) : option Z :=
  le_val <$> mapM mem (seqZ a sizeof_op_t).

(** The loop, a word in each round. *)
Fixpoint strlen_loop (fuel : nat) (mem : memory) (str word_ptr : Z) : outcome Z :=
  match fuel with
  | O => Undef
  | S fuel =>
    let word_ptr := wrap CUlong (word_ptr + sizeof_op_t) in
    match read_word mem word_ptr with
    | None => Undef
    | Some word =>
      if negb (has_zero word) then strlen_loop fuel mem str word_ptr else
      match index_first_zero word with
      | Ret i => Ret (wrap CUlong (word_ptr + i - str))
      | Throw e => Throw e
      | Undef => Undef
      end
    end
  end.

Definition strlen (fuel : nat) (mem : memory) (str : Z) : outcome Z :=
  let s_int := str in
  let word_ptr := ALIGN_DOWN str sizeof_op_t in
  match read_word mem word_ptr with
  | None => Undef
  | Some word =>
    let mask := shift_find (find_zero_all word) s_int in
    if decide (mask ≠ 0) then index_first mask else strlen_loop fuel mem str word_ptr
  end.

(** ** Words of bytes *)

Definition zero_mask (b : byte) : byte := if decide (b = x00) then xff else x00.

Lemma masks_add_up bs :
  le_val (map zero_mask bs) + le_val (map (λ b, if decide (b = x00) then x00 else xff) bs) =
  256 ^ Z.of_nat (length bs) - 1.
Proof.
  induction bs as [|b bs IH]; [done|]. cbn [map le_val length].
  rewrite Nat2Z.inj_succ, Z.pow_succ_r by lia. unfold zero_mask at 1.
  case_decide; change (byte_val xff) with 255; change (byte_val x00) with 0; lia.
Qed.

Lemma find_zero_all_word bs : length bs = 8%nat →
  find_zero_all (le_val bs) = le_val (map zero_mask bs).
Proof.
  intros Hl. unfold find_zero_all, orc_b. rewrite <-Hl, le_bytes_val.
  pose proof (masks_add_up bs) as Hm. pose proof (le_val_range (map zero_mask bs)) as Hr.
  rewrite length_map in Hr. rewrite Hl in Hm, Hr.
  change (256 ^ Z.of_nat 8) with 18446744073709551616 in Hm, Hr.
  unfold Z.lnot. replace (Z.pred _) with (le_val (map zero_mask bs) + (-1) * modulus CUlong).
  2:{ change (modulus CUlong) with 18446744073709551616. lia. }
  unfold wrap. simpl is_signed. cbn [andb]. rewrite Z_mod_plus_full.
  apply Z.mod_small. exact Hr.
Qed.

Lemma le_val_div b bs : le_val (b :: bs) / 256 = le_val bs.
Proof.
  cbn [le_val]. pose proof (byte_val_range b). rewrite Z.mul_comm, Z.div_add by lia.
  by rewrite Z.div_small.
Qed.

Lemma shift_find_drop bs s : shift_find (le_val bs) s = le_val (drop (Z.to_nat (s `mod` 8)) bs).
Proof.
  unfold shift_find, CHAR_BIT, sizeof_op_t.
  pose proof (Z.mod_pos_bound s 8 ltac:(lia)) as Hs.
  rewrite <-(Z2Nat.id (s `mod` 8)) at 1 by lia. generalize (Z.to_nat (s `mod` 8)) as k.
  clear Hs. intros k. revert bs. induction k as [|k IH]; intros bs; [done|].
  rewrite Nat2Z.inj_succ, Z.mul_succ_r, Z.add_comm, <-Z.shiftr_shiftr by lia.
  destruct bs as [|b bs]; [simpl; by rewrite !Z.shiftr_0_l|].
  replace (Z.shiftr (le_val (b :: bs)) 8) with (le_val bs); [apply IH|].
  rewrite Z.shiftr_div_pow2 by lia. symmetry. apply le_val_div.
Qed.

Lemma ctz_odd z : 0 < z → Z.odd z = true → ctz z = Ret 0.
Proof. by destruct z as [|[p|p|]|]. Qed.

Lemma ctz_pow2 n z : 0 < z → Z.odd z = true → ctz (2 ^ Z.of_nat n * z) = Ret (Z.of_nat n).
Proof.
  intros Hz Ho. induction n as [|n IH]; [rewrite Z.mul_1_l; by apply ctz_odd|].
  rewrite Nat2Z.inj_succ, Z.pow_succ_r, <-Z.mul_assoc by lia.
  assert (0 < 2 ^ Z.of_nat n * z) as Hp by (apply Z.mul_pos_pos; lia).
  destruct (2 ^ Z.of_nat n * z) as [|p|p]; [lia| |lia].
  change (ctz (2 * Z.pos p)) with (Ret (1 + pos_ctz p)).
  apply Ret_inj in IH. rewrite IH. f_equal. lia.
Qed.

(** The index of the first zero byte, given where it is. *)
Lemma index_first_mask bs j :
  bs !! j = Some x00 → (∀ i, (i < j)%nat → bs !! i ≠ Some x00) →
  le_val (map zero_mask bs) ≠ 0 ∧ index_first (le_val (map zero_mask bs)) = Ret (Z.of_nat j).
Proof.
  intros Hj Hi.
  assert (∃ z, 0 < z ∧ Z.odd z = true ∧ le_val (map zero_mask bs) = 2 ^ Z.of_nat (8 * j) * z)
    as (z & Hz & Ho & E).
  { revert bs Hj Hi. induction j as [|j IH]; intros [|b bs] Hj Hi; [done| |done|].
    - injection Hj as ->. exists (le_val (map zero_mask (x00 :: bs))). cbn [map le_val].
      change (byte_val (zero_mask x00)) with 255. split_and!.
      + pose proof (le_val_range (map zero_mask bs)). lia.
      + replace (255 + 256 * le_val (map zero_mask bs))
          with (1 + 2 * (127 + 128 * le_val (map zero_mask bs))) by lia.
        by rewrite Z.odd_add_mul_2.
      + cbn [map le_val]. change (byte_val (zero_mask x00)) with 255. simpl. lia.
    - destruct (IH bs) as (z & Hz & Ho & E); [done|intros i Hlt; apply (Hi (S i)); lia|].
      exists z. split_and!; [done..|]. cbn [map le_val]. rewrite E. unfold zero_mask.
      rewrite decide_False by (intros ->; by apply (Hi 0%nat); [lia|]).
      change (byte_val x00) with 0. replace (8 * S j)%nat with (8 + 8 * j)%nat by lia.
      rewrite Nat2Z.inj_add, Z.pow_add_r by lia. change (2 ^ Z.of_nat 8) with 256. lia. }
  rewrite E. split.
  - assert (0 < 2 ^ Z.of_nat (8 * j) * z); [|lia]. apply Z.mul_pos_pos; [|lia].
    apply Z.pow_pos_nonneg; lia.
  - unfold index_first. rewrite ctz_pow2 by done. f_equal.
    rewrite Nat2Z.inj_mul, Z.mul_comm. by apply Z.div_mul.
Qed.

Lemma no_mask bs : x00 ∉ bs → le_val (map zero_mask bs) = 0.
Proof.
  induction bs as [|b bs IH]; intros Hn; [done|]. apply not_elem_of_cons in Hn as [Hb Hn].
  cbn [map le_val]. rewrite IH by done. unfold zero_mask. rewrite decide_False by done. done.
Qed.

(** ** Memory and strings *)

(** The string at [str]: its bytes, none of them zero, and the zero. *)
Definition holds_string (mem : memory) (str : Z) (s : list byte) : Prop :=
  x00 ∉ s ∧ (∀ i b, s !! i = Some b → mem (str + Z.of_nat i) = Some b) ∧
  mem (str + Z.of_nat (length s)) = Some x00.

(** Memory is mapped in units that are multiples of a word (pages are). *)
Definition mapped_by_words (mem : memory) : Prop :=
  ∀ a b, a / 8 = b / 8 → is_Some (mem a) → is_Some (mem b).

Lemma read_word_mapped mem a c :
  mapped_by_words mem → a `mod` 8 = 0 → a ≤ c < a + 8 → is_Some (mem c) →
  ∃ bs, length bs = 8%nat ∧ read_word mem a = Some (le_val bs) ∧
    ∀ i, (i < 8)%nat → bs !! i = mem (a + Z.of_nat i).
Proof.
  intros Hm Ha Hc Hs.
  assert (∀ x, x ∈ seqZ a 8 → is_Some (mem x)) as Hall.
  { intros x Hx%elem_of_seqZ. apply (Hm c); [|done].
    pose proof (Z.div_mod a 8 ltac:(lia)).
    rewrite <-(Z.div_unique c 8 (a / 8) (c - a)), <-(Z.div_unique x 8 (a / 8) (x - a)) by lia.
    done. }
  destruct (proj2 (mapM_is_Some mem (seqZ a 8))) as [bs Hbs].
  { apply list.Forall_forall. exact Hall. }
  exists bs. pose proof (length_mapM _ _ _ Hbs) as Hl. rewrite length_seqZ in Hl.
  split; [done|]. unfold read_word, sizeof_op_t. rewrite Hbs. split; [done|].
  intros i Hi. apply mapM_Some in Hbs.
  destruct (lookup_lt_is_Some_2 bs i) as [b Hb]; [lia|]. rewrite Hb.
  destruct (Forall2_lookup_r _ _ _ i b Hbs Hb) as (x & Hx & E).
  apply lookup_seqZ in Hx as [-> _]. done.
Qed.

Section strlen.
Context (mem : memory) (str : Z) (s : list byte).
Context (Hm : mapped_by_words mem) (Hs : holds_string mem str s).
Context (Hstr : 0 ≤ str) (Hend : str + Z.of_nat (length s) < modulus CUlong).

Let stop : Z := str + Z.of_nat (length s).

Lemma string_mapped c : str ≤ c ≤ stop → ∃ b, mem c = Some b ∧ (b = x00 ↔ c = stop).
Proof.
  intros Hc. destruct Hs as (Hn & Hb & Hz).
  destruct (decide (c = stop)) as [->|Hne]; [by eexists|].
  destruct (lookup_lt_is_Some_2 s (Z.to_nat (c - str))) as [b E]; [unfold stop in *; lia|].
  exists b. pose proof (Hb _ _ E) as Hmem. rewrite Z2Nat.id in Hmem by lia.
  replace (str + (c - str)) with c in Hmem by lia. split; [done|].
  split; [|done]. intros ->. by apply list_elem_of_lookup_2 in E.
Qed.

(** A word of the string before its last, from an offset on. *)
Lemma word_before a bs k :
  (∀ i, (i < 8)%nat → bs !! i = mem (a + Z.of_nat i)) → length bs = 8%nat →
  str ≤ a + Z.of_nat k → a + 8 ≤ stop → x00 ∉ drop k bs.
Proof.
  intros Hbs Hl Ha Hst [i Hi]%list_elem_of_lookup. rewrite lookup_drop in Hi.
  pose proof (lookup_lt_Some _ _ _ Hi). rewrite Hbs in Hi by lia.
  destruct (string_mapped (a + Z.of_nat (k + i))) as (b & E & Hb); [lia|].
  rewrite Hi in E. injection E as <-. assert (a + Z.of_nat (k + i) = stop) by (by apply Hb). lia.
Qed.

(** The word that holds the zero. *)
Lemma word_last a bs k :
  (∀ i, (i < 8)%nat → bs !! i = mem (a + Z.of_nat i)) → length bs = 8%nat →
  str ≤ a + Z.of_nat k → a + Z.of_nat k ≤ stop < a + 8 →
  le_val (map zero_mask (drop k bs)) ≠ 0 ∧
  index_first (le_val (map zero_mask (drop k bs))) = Ret (stop - a - Z.of_nat k).
Proof.
  intros Hbs Hl Ha Hst.
  replace (stop - a - Z.of_nat k) with (Z.of_nat (Z.to_nat (stop - a) - k)) by lia.
  apply index_first_mask.
  - rewrite lookup_drop, Hbs by lia.
    replace (a + _) with stop by lia. apply Hs.
  - intros i Hi. rewrite lookup_drop, Hbs by lia. intros E.
    destruct (string_mapped (a + Z.of_nat (k + i))) as (b & E' & Hb); [lia|].
    rewrite E in E'. injection E' as <-. assert (a + Z.of_nat (k + i) = stop) by (by apply Hb).
    lia.
Qed.

Lemma strlen_loop_spec fuel a :
  a `mod` 8 = 0 → 0 ≤ a → str ≤ a + 8 → a + 8 ≤ stop → stop - a < 8 * Z.of_nat (S fuel) →
  strlen_loop fuel mem str a = Ret (Z.of_nat (length s)).
Proof.
  revert a. induction fuel as [|fuel IH]; intros a Hal H0 Hlo Hhi Hfuel; [lia|].
  cbn [strlen_loop]. unfold sizeof_op_t.
  rewrite wrap_id by (apply in_range_ulong; unfold stop in *;
    change (modulus CUlong) with 18446744073709551616 in Hend; lia).
  set (p := a + 8) in *. assert (p `mod` 8 = 0) as Hp.
  { unfold p. rewrite <-Z.add_mod_idemp_l, Hal by lia. done. }
  destruct (decide (stop < p + 8)) as [Hlast|Hmore].
  - destruct (string_mapped stop) as (b & Eb & _); [unfold stop; lia|].
    destruct (read_word_mapped mem p stop) as (bs & Hl & Er & Hbs); [done|done|lia|by eexists|].
    rewrite Er. destruct (word_last p bs 0 Hbs Hl) as [Hne Hix]; [lia|lia|].
    rewrite drop_0 in Hne, Hix. unfold has_zero, index_first_zero.
    rewrite find_zero_all_word by done. rewrite bool_decide_true by done. simpl. rewrite Hix.
    f_equal. rewrite wrap_id; [unfold stop; lia|].
    apply in_range_ulong. change (modulus CUlong) with 18446744073709551616 in Hend.
    unfold stop. lia.
  - destruct (string_mapped p) as (b & Eb & _); [lia|].
    destruct (read_word_mapped mem p p) as (bs & Hl & Er & Hbs); [done|done|lia|by eexists|].
    rewrite Er. unfold has_zero. rewrite find_zero_all_word by done.
    rewrite no_mask. 2:{ apply (word_before p bs 0 Hbs Hl); lia. }
    simpl. apply IH; unfold p in *; (done || lia).
Qed.

Lemma ALIGN_DOWN_spec : ALIGN_DOWN str 8 = str - str `mod` 8.
Proof.
  change (modulus CUlong) with (2 ^ 64) in Hend.
  unfold ALIGN_DOWN. replace (wrap CUlong (Z.opp 8)) with (Z.ldiff (Z.ones 64) (Z.ones 3)) by done.
  assert (∀ x y z, Z.land x (Z.ldiff y z) = Z.ldiff (Z.land x y) z) as ->.
  { intros x y z. apply Z.bits_inj'. intros n Hn.
    rewrite Z.land_spec, !Z.ldiff_spec, Z.land_spec. apply andb_assoc. }
  rewrite Z.land_ones, Z.mod_small, Z.ldiff_ones_r by lia.
  rewrite Z.shiftl_mul_pow2, Z.shiftr_div_pow2 by lia. change (2 ^ 3) with 8.
  pose proof (Z.div_mod str 8 ltac:(lia)). lia.
Qed.
End strlen.

(** C19. The optimised routine is the reference one: on a string of any length
    at any address, in memory mapped by words, [strlen] reads only mapped
    words and returns the number of bytes before the first zero; a round of
    its loop for each eight bytes is enough. *)
Theorem strlen_correct (mem : memory) (str : Z) (s : list byte) (fuel : nat)
    (Hmem : mapped_by_words mem) (Hs : holds_string mem str s)
    (Hstr : 0 ≤ str) (Hend : str + Z.of_nat (length s) < 2 ^ 64)
    (Hfuel : (length s < 8 * fuel)%nat) :
  strlen fuel mem str = Ret (Z.of_nat (length s)).
Proof.
  unfold strlen, sizeof_op_t. rewrite (ALIGN_DOWN_spec str s) by done.
  pose proof (Z.mod_pos_bound str 8 ltac:(lia)) as Hk. set (k := str `mod` 8) in *.
  set (a := str - k). assert (a `mod` 8 = 0) as Ha.
  { unfold a, k. pose proof (Z.div_mod str 8 ltac:(lia)) as E.
    replace (str - str `mod` 8) with (str / 8 * 8) by lia. apply Z.mod_mul. lia. }
  assert (0 ≤ a) by (unfold a, k; pose proof (Z.mod_le str 8 ltac:(lia) ltac:(lia)); lia).
  destruct (string_mapped mem str s Hs str) as (b & Eb & _); [lia|].
  destruct (read_word_mapped mem a str) as (bs & Hl & -> & Hbs);
    [done|done|unfold a; lia|by eexists|].
  rewrite find_zero_all_word by done. rewrite shift_find_drop, skipn_map. fold k.
  set (stop := str + Z.of_nat (length s)).
  destruct (decide (stop < a + 8)) as [Hlast|Hmore].
  - destruct (word_last mem str s Hs a bs (Z.to_nat k) Hbs Hl) as [Hne Hix];
      [unfold a; lia|fold stop; unfold a in *; lia|].
    rewrite decide_True by done. rewrite Hix. f_equal. unfold a in *. lia.
  - rewrite no_mask. 2:{ apply (word_before mem str s Hs a bs (Z.to_nat k) Hbs Hl);
      [unfold a; lia|fold stop; lia]. }
    rewrite decide_False by (intros Hne; by apply Hne).
    apply strlen_loop_spec; try done; fold stop; unfold a, stop in *; lia.
Qed.

(** "zbb strlen" at an address that is not a multiple of eight. *)
Definition example_memory : memory := λ a,
  if decide (16 ≤ a < 40) then
    Some (default xff ((replicate 5 x00 ++ repeat x61 10 ++ [x00]) !! Z.to_nat (a - 16)))
  else None.

Lemma strlen_correct_witness :
  strlen 2 example_memory 21 = Ret 10 ∧ (∀ a, is_Some (example_memory a) ↔ 16 ≤ a < 40).
Proof.
  assert (∀ a, is_Some (example_memory a) ↔ 16 ≤ a < 40) as Hmap.
  { intros a. unfold example_memory. case_decide; [by split|]. split; [by intros []|lia]. }
  split; [|done]. apply (strlen_correct example_memory 21 (repeat x61 10)).
  - intros a b E Ha%Hmap. apply Hmap. pose proof (Z.div_mod a 8 ltac:(lia)).
    pose proof (Z.div_mod b 8 ltac:(lia)). pose proof (Z.mod_pos_bound a 8 ltac:(lia)).
    pose proof (Z.mod_pos_bound b 8 ltac:(lia)). lia.
  - split; [apply (bool_decide_unpack _); by vm_compute|]. split; [|done]. intros i b E.
    do 10 (destruct i as [|i]; [by injection E as <-|]). done.
  - lia.
  - done.
  - simpl. lia.
Defined.
