(* ===== verification/NetFlow.v ===== *)
(** * Network flows (src/plugin/collect/system/net_interface/ebpf/
      net_flow_kernel.c, net_flow_comm.h)

    eBPF programs that run in the kernel: probes on TCP connections enter the
    two ends' threads of local connections in one map and the threads that
    accept connections in another; a program on the ingress of an interface
    parses packets and adds them to the entries of their connection. *)

From Stdlib Require Import ZArith Lia Strings.Byte.
From stdpp Require Import base list strings gmap numbers.
From S2P Require Import Prelude Bytes.

(** ** Data *)

Record SockKey := mkSockKey { localIp : Z; remoteIp : Z; localPort : Z; remotePort : Z }.

#[export] Instance SockKey_eq_dec : EqDecision SockKey.
Proof. solve_decision. Defined.
#[export] Instance SockKey_countable : Countable SockKey.
Proof.
  refine (inj_countable'
    (λ k, (localIp k, remoteIp k, localPort k, remotePort k))
    (λ '(a, b, c, d), mkSockKey a b c d) _). by intros [].
Defined.

Record ThreadData := mkThreadData { td_pid : Z; td_tid : Z; td_comm : list byte }.
Record SockInfo := mkSockInfo { client : ThreadData; server : ThreadData; flow : Z }.
Record QueueInfo := mkQueueInfo {
  qi_td : ThreadData; queueId : Z; ifIdx : Z; times : Z; qi_len : Z
}.

(** [= {}]. *)
Definition no_thread : ThreadData := mkThreadData 0 0 (repeat x00 16).
Definition no_info : SockInfo := mkSockInfo no_thread no_thread 0.

(** [struct sock]: what the programs read of it.  A read through a bad pointer
    gives zeros, as [inet_csk_accept] that returns NULL does. *)
Record Sock := mkSock {
  skc_rcv_saddr : Z; skc_daddr : Z; skc_num : Z; skc_dport : Z; skc_state : Z
}.

(** The thread a probe runs on. *)
Record Current := mkCurrent { pid_tgid : Z; comm : list byte }.

(** [struct __sk_buff], and the bytes between [data] and [data_end]. *)
Record SkBuff := mkSkBuff { skb_data : list byte; skb_len : Z; ifindex : Z; queue_mapping : Z }.

(** The kernel's maps.  An update of a hash map that is full fails for a new
    key; one of an LRU map may drop other entries. *)
Class BpfMaps := {
  hash_update : gmap SockKey SockInfo → SockKey → SockInfo → gmap SockKey SockInfo;
  lru_update : gmap SockKey QueueInfo → SockKey → QueueInfo → gmap SockKey QueueInfo;
}.
Class BpfMapsLaws (B : BpfMaps) := {
  hash_update_cases m k v : hash_update m k v = <[k := v]> m ∨ hash_update m k v = m;
  lru_update_subset m k v : lru_update m k v ⊆ <[k := v]> m;
}.

Record NetFlow := mkNetFlow {
  flowStats : gmap SockKey SockInfo;
  rcvQueStatus : gmap SockKey QueueInfo
}.

Definition set_flows (m : gmap SockKey SockInfo) (s : NetFlow) : NetFlow :=
  mkNetFlow m (rcvQueStatus s).
Definition set_queues (m : gmap SockKey QueueInfo) (s : NetFlow) : NetFlow :=
  mkNetFlow (flowStats s) m.

(** ** Helpers *)

(** [bpf_ntohs] and [bpf_htons] on a little-endian machine. *)
Definition bpf_ntohs (x : Z) : Z := Z.lor (Z.shiftl (Z.land x 255) 8) (Z.shiftr x 8).

Definition UpdateThreadData (cur : Current) : ThreadData :=
  mkThreadData (Z.shiftr (pid_tgid cur) 32) (wrap CUint (pid_tgid cur)) (comm cur).

Definition reversed (key : SockKey) : SockKey :=
  mkSockKey (remoteIp key) (localIp key) (remotePort key) (localPort key).

(** [key] and [keyReversed]. *)
Definition ReadIpAndPort (sk : Sock) : SockKey * SockKey :=
  let key := mkSockKey (skc_rcv_saddr sk) (skc_daddr sk) (skc_num sk) (bpf_ntohs (skc_dport sk)) in
  (key, reversed key).

(** Both arrays are longer than the [n] that the programs pass (16 and 10
    bytes for 9), so the last case is not met. *)
Fixpoint Strncmp (s1 s2 : list byte) (n : nat) : Z :=
  match n with
  | O => 0
  | S n =>
    match s1, s2 with
    | c1 :: s1, c2 :: s2 =>
      if decide (c1 ≠ c2) then (if decide (byte_val c1 < byte_val c2) then -1 else 1)
      else if decide (c1 = x00) then 0 else Strncmp s1 s2 n
    | _, _ => 0
    end
  end.

Definition target : list byte := bytes_of "ksoftirqd".

Definition IsValidData (td : ThreadData) : bool :=
  if decide (td_pid td = 0) then false
  else if decide (Strncmp (td_comm td) target (length target) = 0) then false
  else true.

Definition TCP_ESTABLISHED : Z := 1.
Definition TCP_SYN_SENT : Z := 2.
Definition TCP_SYN_RECV : Z := 3.
Definition TCP_FIN_WAIT1 : Z := 4.
Definition TCP_CLOSE : Z := 7.

Section programs.
Context `{BM : BpfMaps}.

(** The entry a new connection gets, for a thread that counts. *)
Definition new_flow (key : SockKey) (cur : Current) (s : NetFlow) : NetFlow :=
  let info := mkSockInfo (UpdateThreadData cur) no_thread 0 in
  if IsValidData (client info) then set_flows (hash_update (flowStats s) key info) s else s.

Definition tcp_connect (sk : Sock) (cur : Current) (s : NetFlow) : NetFlow :=
  let '(key, _) := ReadIpAndPort sk in new_flow key cur s.

Definition inet_csk_accept_exit (sk : Sock) (cur : Current) (s : NetFlow) : NetFlow :=
  let '(_, keyReversed) := ReadIpAndPort sk in
  let td := UpdateThreadData cur in
  let s := match flowStats s !! keyReversed with
           | None => s
           | Some info =>
             let s := set_flows (<[keyReversed := mkSockInfo (client info) td (flow info)]>
                                   (flowStats s)) s in
             if negb (IsValidData td) then set_flows (delete keyReversed (flowStats s)) s else s
           end in
  if IsValidData td
  then set_queues (lru_update (rcvQueStatus s) keyReversed (mkQueueInfo td 0 0 0 0)) s
  else s.

(** The four deletions. *)
Definition forget (sk : Sock) (s : NetFlow) : NetFlow :=
  let '(key, keyReversed) := ReadIpAndPort sk in
  mkNetFlow (delete keyReversed (delete key (flowStats s)))
            (delete keyReversed (delete key (rcvQueStatus s))).

Definition tcp_close (sk : Sock) (s : NetFlow) : NetFlow := forget sk s.

Definition tcp_set_state (sk : Sock) (state : Z) (cur : Current) (s : NetFlow) : NetFlow :=
  let '(key, keyReversed) := ReadIpAndPort sk in
  let oldState := skc_state sk in
  let newState := state in
  if decide (oldState = TCP_SYN_SENT ∧ newState = TCP_ESTABLISHED) then new_flow key cur s
  else if decide (oldState = TCP_SYN_RECV ∧ newState = TCP_ESTABLISHED)
  then new_flow keyReversed cur s
  else if decide ((oldState = TCP_ESTABLISHED ∧ newState = TCP_FIN_WAIT1) ∨ newState = TCP_CLOSE)
  then forget sk s
  else s.
End programs.

(** ** Packets *)

Definition sizeof_ethhdr : nat := 14.
Definition sizeof_iphdr : nat := 20.
Definition sizeof_tcphdr : nat := 20.
Definition ETH_P_IP : Z := 2048.
Definition IPPROTO_TCP : Z := 6.
Definition IPPROTO_UDP : Z := 17.

(** A load of [n] bytes of the packet; a load past [data_end] is refused. *)
Definition load_field (data : list byte) (off n : nat) : outcome Z :=
  if decide (off + n ≤ length data)%nat then Ret (le_val (take n (drop off data))) else Undef.

(** A packet's connection: [None] for a packet that is let through without
    being counted. *)
Definition parse_packet (data : list byte) : outcome (option SockKey) :=
  let out x (f : Z → outcome (option SockKey)) :=
    match x with Ret v => f v | Throw e => Throw e | Undef => Undef end in
  if decide (length data < sizeof_ethhdr)%nat then Ret None else
  out (load_field data 12 2) (λ h_proto,
  if decide (h_proto ≠ bpf_ntohs ETH_P_IP) then Ret None else
  let ip := sizeof_ethhdr in
  if decide (length data < ip + sizeof_iphdr)%nat then Ret None else
  out (load_field data (ip + 9) 1) (λ protocol,
  if decide (protocol ≠ IPPROTO_TCP ∧ protocol ≠ IPPROTO_UDP) then Ret None else
  out (load_field data ip 1) (λ first,
  let hdr_len := Z.land first 15 * 4 in
  let tcp := (ip + Z.to_nat hdr_len)%nat in
  if decide (protocol = IPPROTO_TCP) then
    if decide (length data < tcp + sizeof_tcphdr)%nat then Ret None else
    out (load_field data tcp 2) (λ source,
    out (load_field data (tcp + 2) 2) (λ dest,
    out (load_field data (ip + 12) 4) (λ saddr,
    out (load_field data (ip + 16) 4) (λ daddr,
    Ret (Some (mkSockKey saddr daddr (bpf_ntohs source) (bpf_ntohs dest)))))))
  else Ret None))).

Definition add_flow (n : Z) (info : SockInfo) : SockInfo :=
  mkSockInfo (client info) (server info) (wrap CUllong (flow info + n)).

Definition add_queue (skb : SkBuff) (q : QueueInfo) : QueueInfo :=
  mkQueueInfo (qi_td q) (wrap CInt (queue_mapping skb)) (wrap CInt (ifindex skb))
    (wrap CUllong (times q + 1)) (wrap CUllong (qi_len q + skb_len skb)).

(** [tc_ingress]: every path lets the packet through. *)
Definition tc_ingress (skb : SkBuff) (s : NetFlow) : outcome NetFlow :=
  match parse_packet (skb_data skb) with
  | Ret None => Ret s
  | Ret (Some key) =>
    let flows := alter (add_flow (skb_len skb)) key (flowStats s) in
    let flows := alter (add_flow (skb_len skb)) (reversed key) flows in
    let s := set_flows flows s in
    if decide (ifindex skb ≤ 0) then Ret s
    else Ret (set_queues (alter (add_queue skb) key (rcvQueStatus s)) s)
  | Throw e => Throw e
  | Undef => Undef
  end.

(** ** Sequences of events *)

Inductive net_event :=
| EvConnect (sk : Sock) (cur : Current)
| EvAccept (sk : Sock) (cur : Current)
| EvClose (sk : Sock)
| EvSetState (sk : Sock) (state : Z) (cur : Current)
| EvIngress (skb : SkBuff).

Section events.
Context `{BM : BpfMaps}.

Definition net_step (e : net_event) (s : NetFlow) : outcome NetFlow :=
  match e with
  | EvConnect sk cur => Ret (tcp_connect sk cur s)
  | EvAccept sk cur => Ret (inet_csk_accept_exit sk cur s)
  | EvClose sk => Ret (tcp_close sk s)
  | EvSetState sk state cur => Ret (tcp_set_state sk state cur s)
  | EvIngress skb => tc_ingress skb s
  end.

Fixpoint net_run (es : list net_event) (s : NetFlow) : outcome NetFlow :=
  match es with
  | [] => Ret s
  | e :: es =>
    match net_step e s with
    | Ret s => net_run es s
    | Throw e => Throw e
    | Undef => Undef
    end
  end.
End events.

(** ** What the maps hold *)

Definition flow_ok (i : SockInfo) : Prop :=
  IsValidData (client i) = true ∧ (server i = no_thread ∨ IsValidData (server i) = true) ∧
  in_range CUllong (flow i).

Definition queue_ok (q : QueueInfo) : Prop :=
  IsValidData (qi_td q) = true ∧ in_range CInt (queueId q) ∧ in_range CInt (ifIdx q) ∧
  in_range CUllong (times q) ∧ in_range CUllong (qi_len q).

Definition net_inv (s : NetFlow) : Prop :=
  map_Forall (λ _, flow_ok) (flowStats s) ∧ map_Forall (λ _, queue_ok) (rcvQueStatus s).

(** ** A reference for the traffic of a connection *)

(** How often the program adds a packet's length to the entry of [k]: twice
    when a connection is its own reverse. *)
Definition hits (k : SockKey) (data : list byte) : Z :=
  match parse_packet data with
  | Ret (Some key) =>
    (if decide (key = k) then 1 else 0) + (if decide (reversed key = k) then 1 else 0)
  | _ => 0
  end.

Definition traffic (k : SockKey) (skbs : list SkBuff) : Z :=
  foldr (λ skb n, hits k (skb_data skb) * skb_len skb + n) 0 skbs.

(** An Ethernet frame that holds a TCP segment over IPv4: the addresses as
    they are in the header, the ports as numbers. *)
Definition be16 (z : Z) : list byte := [byte_of (z / 256); byte_of z].

Definition tcp_frame (macs : list byte) (version ihl : Z) (ip_mid checksum : list byte)
    (key : SockKey) (options rest : list byte) : list byte :=
  macs ++ be16 ETH_P_IP ++
  [byte_of (version * 16 + ihl)] ++ ip_mid ++ [byte_of IPPROTO_TCP] ++ checksum ++
  le_bytes 4 (localIp key) ++ le_bytes 4 (remoteIp key) ++ options ++
  be16 (localPort key) ++ be16 (remotePort key) ++ rest.

Definition key_ok (k : SockKey) : Prop :=
  in_range CUint (localIp k) ∧ in_range CUint (remoteIp k) ∧
  in_range CUshort (localPort k) ∧ in_range CUshort (remotePort k).

(** ** Lemmas *)

Lemma load_field_ret data off n :
  (off + n ≤ length data)%nat → load_field data off n = Ret (le_val (take n (drop off data))).
Proof. intros. unfold load_field. by rewrite decide_True. Qed.

Lemma parse_packet_total data : ∃ o, parse_packet data = Ret o.
Proof.
  unfold parse_packet, sizeof_ethhdr, sizeof_iphdr, sizeof_tcphdr.
  repeat first [ case_decide; [by eexists|] | rewrite load_field_ret by lia ].
  case_decide; [|by eexists]. case_decide; [by eexists|].
  rewrite !load_field_ret by lia. by eexists.
Qed.

Lemma reversed_involutive k : reversed (reversed k) = k.
Proof. by destruct k. Qed.

Lemma wrap_add_wrap a b : wrap CUllong (wrap CUllong a + b) = wrap CUllong (a + b).
Proof.
  unfold wrap. simpl. by rewrite Zplus_mod_idemp_l.
Qed.

Lemma tc_ingress_total skb s : ∃ s', tc_ingress skb s = Ret s'.
Proof.
  unfold tc_ingress. destruct (parse_packet_total (skb_data skb)) as [[key|] ->]; [|by eexists].
  case_decide; by eexists.
Qed.

(** One packet and the flow of one entry. *)
Lemma tc_ingress_flow skb s s' k :
  tc_ingress skb s = Ret s' →
  flowStats s' !! k = (λ i, mkSockInfo (client i) (server i)
    (if decide (hits k (skb_data skb) = 0) then flow i
     else wrap CUllong (flow i + hits k (skb_data skb) * skb_len skb))) <$> flowStats s !! k.
Proof.
  unfold tc_ingress, hits. destruct (parse_packet_total (skb_data skb)) as [[key|] ->].
  - intros E. replace (flowStats s') with (alter (add_flow (skb_len skb)) (reversed key)
      (alter (add_flow (skb_len skb)) key (flowStats s)))
      by (case_decide; apply Ret_inj in E; by rewrite <-E).
    clear E. destruct (decide (reversed key = k)) as [Er|Er], (decide (key = k)) as [Ek|Ek].
    + rewrite Er, Ek, !lookup_alter_eq. destruct (flowStats s !! k); [|done]. simpl.
      unfold add_flow. simpl. rewrite wrap_add_wrap. do 3 f_equal. lia.
    + rewrite Er, lookup_alter_eq, lookup_alter_ne by done.
      destruct (flowStats s !! k); [|done]. simpl. unfold add_flow. do 3 f_equal. lia.
    + subst k. rewrite lookup_alter_ne, lookup_alter_eq by done.
      destruct (flowStats s !! key); [|done]. simpl. unfold add_flow. do 3 f_equal. lia.
    + rewrite !lookup_alter_ne by done. by destruct (flowStats s !! k) as [[]|].
  - intros E. apply Ret_inj in E as <-. by destruct (flowStats s !! k) as [[]|].
Qed.

Lemma hits_nonneg k data : 0 ≤ hits k data.
Proof. unfold hits. repeat case_match; lia. Qed.

Arguments IsValidData : simpl never.
Arguments UpdateThreadData : simpl never.
Arguments ReadIpAndPort : simpl never.

Section theorems.
Context `{BL : !BpfMapsLaws BM}.

Lemma net_step_total e s : ∃ s', net_step e s = Ret s'.
Proof. destruct e; simpl; try by eexists. apply tc_ingress_total. Qed.

Lemma net_run_app es1 es2 s s1 :
  net_run es1 s = Ret s1 → net_run (es1 ++ es2) s = net_run es2 s1.
Proof.
  revert s. induction es1 as [|e es1 IH]; intros s E; simpl in *; [congruence|].
  destruct (net_step e s); [by apply IH|done..].
Qed.

Lemma net_run_packets skbs s k :
  ∃ s', net_run (map EvIngress skbs) s = Ret s' ∧ ∀ i, flowStats s !! k = Some i →
    in_range CUllong (flow i) →
    flowStats s' !! k = Some (mkSockInfo (client i) (server i)
      (wrap CUllong (flow i + traffic k skbs))).
Proof.
  revert s. induction skbs as [|skb skbs IH]; intros s; cbn [map net_run net_step].
  { exists s. split; [done|]. intros [c sv f] Hi Hf. rewrite Hi. simpl in *.
    by rewrite Z.add_0_r, wrap_id. }
  destruct (tc_ingress_total skb s) as [s1 E]. rewrite E.
  destruct (IH s1) as (s' & E' & Hs'). exists s'. split; [done|]. intros i Hi Hf.
  assert (wrap CUllong (flow i + hits k (skb_data skb) * skb_len skb) =
    if decide (hits k (skb_data skb) = 0) then flow i
    else wrap CUllong (flow i + hits k (skb_data skb) * skb_len skb)) as Hw.
  { case_decide as Hz; [|done]. by rewrite Hz, Z.mul_0_l, Z.add_0_r, wrap_id. }
  pose proof (tc_ingress_flow skb s s1 k E) as Hl. rewrite Hi in Hl.
  cbn [fmap option_fmap option_map] in Hl. rewrite <-Hw in Hl.
  rewrite (Hs' _ Hl) by apply wrap_in_range. simpl. do 2 f_equal.
  rewrite wrap_add_wrap. f_equal. unfold traffic. simpl. lia.
Qed.

Lemma lookup_delete_all {V} (P : V → Prop) (m : gmap SockKey V) k :
  map_Forall (λ _, P) m → map_Forall (λ _, P) (delete k m).
Proof. intros H. by apply map_Forall_delete. Qed.

Lemma alter_all {V} (P : V → Prop) f (m : gmap SockKey V) k :
  (∀ v, P v → P (f v)) → map_Forall (λ _, P) m → map_Forall (λ _, P) (alter f k m).
Proof.
  intros Hf H j v. destruct (decide (k = j)) as [->|]; [|rewrite lookup_alter_ne by done; apply H].
  rewrite lookup_alter_eq. intros (w & Hw & ->)%fmap_Some. apply Hf. by eapply H.
Qed.

Lemma hash_update_all m k i :
  map_Forall (λ _, flow_ok) m → flow_ok i → map_Forall (λ _, flow_ok) (hash_update m k i).
Proof.
  intros Hm Hi. destruct (hash_update_cases m k i) as [-> | ->]; [|done].
  by apply map_Forall_insert_2.
Qed.

Lemma lru_update_all m k q :
  map_Forall (λ _, queue_ok) m → queue_ok q → map_Forall (λ _, queue_ok) (lru_update m k q).
Proof.
  intros Hm Hq j v Hv. pose proof (lookup_weaken _ _ _ _ Hv (lru_update_subset m k q)) as Hv'.
  assert (map_Forall (λ _, queue_ok) (<[k := q]> m)) as H by (by apply map_Forall_insert_2).
  by apply (H j).
Qed.

Lemma new_flow_inv key cur s : net_inv s → net_inv (new_flow key cur s).
Proof.
  intros [Hf Hq]. unfold new_flow. destruct (IsValidData _) eqn:Ev; [|done].
  split; [|done]. apply hash_update_all; [done|]. split_and!; [done|by left|done].
Qed.

Lemma forget_inv sk s : net_inv s → net_inv (forget sk s).
Proof. intros [Hf Hq]. by split; simpl; do 2 apply lookup_delete_all. Qed.

Lemma accept_inv sk cur s : net_inv s → net_inv (inet_csk_accept_exit sk cur s).
Proof.
  intros Hs. unfold inet_csk_accept_exit, ReadIpAndPort. set (k := reversed _).
  set (td := UpdateThreadData cur).
  set (s1 := match flowStats s !! k with Some _ => _ | None => _ end).
  assert (net_inv s1) as [Hf1 Hq1].
  { subst s1. destruct Hs as [Hf Hq]. destruct (flowStats s !! k) as [i|] eqn:Hi; [|by split].
    destruct (IsValidData _) eqn:Ev; simpl; (split; [|done]); simpl.
    - apply map_Forall_insert_2; [|done]. destruct (Hf k i Hi) as (Hc & _ & Hr).
      split_and!; [done|by right|done].
    - rewrite delete_insert_eq. by apply lookup_delete_all. }
  destruct (IsValidData _) eqn:Ev; [|done]. split; [done|]. simpl.
  by apply lru_update_all.
Qed.

Lemma ingress_inv skb s s' : net_inv s → tc_ingress skb s = Ret s' → net_inv s'.
Proof.
  intros [Hf Hq]. unfold tc_ingress.
  destruct (parse_packet _) as [[key|]| |]; [|by intros [= <-]|done..].
  assert (∀ i, flow_ok i → flow_ok (add_flow (skb_len skb) i)) as Hadd.
  { intros i (? & ? & ?). split_and!; [done|done|apply (wrap_in_range CUllong)]. }
  case_decide; intros <-%Ret_inj; (split; simpl; [by apply alter_all; [|apply alter_all]|]); [done|].
  apply alter_all; [|done]. intros q (? & _). split_and!; [done|apply wrap_in_range..].
Qed.

Lemma net_step_inv e s s' : net_inv s → net_step e s = Ret s' → net_inv s'.
Proof.
  intros Hs. destruct e; simpl; [..|by apply ingress_inv]; intros <-%Ret_inj.
  - by apply new_flow_inv.
  - by apply accept_inv.
  - by apply forget_inv.
  - unfold tcp_set_state. simpl.
    repeat case_decide; [by apply new_flow_inv..|by apply forget_inv|done].
Qed.
End theorems.

Lemma land_shifted a b n : 0 ≤ n → 0 ≤ b < 2 ^ n → Z.land (Z.shiftl a n) b = 0.
Proof.
  intros Hn Hb. apply Z.bits_inj'. intros i Hi. rewrite Z.land_spec, Z.bits_0.
  destruct (decide (i < n)).
  - by rewrite Z.shiftl_spec_low.
  - destruct (decide (b = 0)) as [->|]; [by rewrite Z.bits_0, andb_false_r|].
    rewrite (Z.bits_above_log2 b), andb_false_r; [done|lia|].
    apply Z.lt_le_trans with n; [|lia]. apply Z.log2_lt_pow2; lia.
Qed.

Lemma bpf_ntohs_be16 z : in_range CUshort z → bpf_ntohs (le_val (be16 z)) = z.
Proof.
  intros Hz. change (0 ≤ z < 65536) in Hz. unfold be16. cbn [le_val].
  rewrite !byte_val_of, Z.mul_0_r, Z.add_0_r.
  pose proof (Z.mod_pos_bound z 256 ltac:(lia)).
  pose proof (Z.div_mod z 256 ltac:(lia)).
  rewrite (Z.mod_small (z / 256) 256) by lia. unfold bpf_ntohs.
  change 255 with (Z.ones 8). rewrite Z.land_ones, Z.shiftr_div_pow2 by lia.
  change (2 ^ 8) with 256.
  replace ((z / 256 + 256 * (z `mod` 256)) `mod` 256) with (z / 256)
    by (rewrite Z.mul_comm, Z_mod_plus_full, Z.mod_small; lia).
  replace ((z / 256 + 256 * (z `mod` 256)) / 256) with (z `mod` 256)
    by (rewrite Z.mul_comm, Z.div_add, Z.div_small; lia).
  rewrite <-Z.add_nocarry_lor by (by apply land_shifted).
  rewrite Z.shiftl_mul_pow2 by lia. lia.
Qed.

Lemma load_field_at data pre x post off n :
  data = pre ++ x ++ post → length pre = off → length x = n →
  load_field data off n = Ret (le_val x).
Proof.
  intros -> <- <-. rewrite load_field_ret by (rewrite !length_app; lia).
  by rewrite drop_app_length, take_app_length.
Qed.

Lemma header_length ihl version :
  5 ≤ ihl < 16 → 0 ≤ version < 16 →
  Z.land (le_val [byte_of (version * 16 + ihl)]) 15 = ihl.
Proof.
  intros Hi Hv. cbn [le_val]. rewrite byte_val_of, Z.mul_0_r, Z.add_0_r.
  rewrite (Z.mod_small _ 256) by lia. change 15 with (Z.ones 4).
  rewrite Z.land_ones by lia. change (2 ^ 4) with 16.
  rewrite Z.add_comm, Z_mod_plus_full. apply Z.mod_small. lia.
Qed.

Section accounting.
Context `{BM : BpfMaps}.

Lemma tcp_connect_enters sk cur s :
  let key := (ReadIpAndPort sk).1 in
  IsValidData (UpdateThreadData cur) = true →
  (∀ i, hash_update (flowStats s) key i = <[key := i]> (flowStats s)) →
  flowStats (tcp_connect sk cur s) !! key = Some (mkSockInfo (UpdateThreadData cur) no_thread 0).
Proof.
  intros key Hv Hr. unfold tcp_connect, new_flow.
  rewrite (surjective_pairing (ReadIpAndPort sk)). fold key. cbn [client].
  rewrite Hv. cbn [flowStats set_flows]. rewrite Hr. apply lookup_insert_eq.
Qed.

Lemma accept_enters sk cur s i :
  let key := (ReadIpAndPort sk).2 in
  IsValidData (UpdateThreadData cur) = true → flowStats s !! key = Some i →
  flowStats (inet_csk_accept_exit sk cur s) !! key =
    Some (mkSockInfo (client i) (UpdateThreadData cur) (flow i)).
Proof.
  intros key Hv Hi. unfold inet_csk_accept_exit. rewrite (surjective_pairing (ReadIpAndPort sk)).
  fold key. rewrite Hi, Hv. cbn [negb set_queues flowStats set_flows].
  apply lookup_insert_eq.
Qed.

Lemma traffic_app k l1 l2 : traffic k (l1 ++ l2) = traffic k l1 + traffic k l2.
Proof. unfold traffic. induction l1 as [|x l1 IH]; simpl; [done|]. rewrite IH. lia. Qed.
End accounting.

(** Loads the field [x] that follows [pre] in the frame [f]. *)
Ltac load_at f pre x :=
  erewrite (load_field_at f pre x);
  [ | repeat match goal with y := _ |- _ => subst y end;
      unfold tcp_frame; rewrite <-?app_assoc; reflexivity
    | repeat match goal with y := _ |- _ => subst y end; rewrite ?length_app, ?length_le_bytes; cbn [length be16]; lia
    | first [done | apply length_le_bytes] ].

(** ** Properties *)

(** The parser of the ingress program finds the connection of every TCP
    packet over IPv4: for a frame with any IP options the key holds the
    header's addresses and the segment's ports in host order. *)
Theorem parse_packet_frame (macs ip_mid checksum options rest : list byte) (version ihl : Z)
    (key : SockKey)
    (Hm : length macs = 12%nat) (Hi : length ip_mid = 8%nat) (Hc : length checksum = 2%nat)
    (Hv : 0 ≤ version < 16) (Hihl : 5 ≤ ihl < 16)
    (Ho : length options = Z.to_nat ((ihl - 5) * 4)) (Hr : (16 ≤ length rest)%nat)
    (Hk : key_ok key) :
  parse_packet (tcp_frame macs version ihl ip_mid checksum key options rest) = Ret (Some key).
Proof.
  destruct Hk as (Hla & Hra & Hlp & Hrp).
  set (f := tcp_frame _ _ _ _ _ _ _ _). set (first := [byte_of (version * 16 + ihl)]).
  assert (length f = (54 - 16 + length options + length rest)%nat) as Hlen.
  { subst f. unfold tcp_frame. rewrite !length_app, !length_le_bytes. cbn [length be16]. lia. }
  set (eth := macs ++ be16 ETH_P_IP).
  set (ip := eth ++ first ++ ip_mid ++ [byte_of IPPROTO_TCP] ++ checksum).
  set (addrs := le_bytes 4 (localIp key) ++ le_bytes 4 (remoteIp key)).
  unfold parse_packet, sizeof_ethhdr, sizeof_iphdr, sizeof_tcphdr.
  rewrite decide_False by lia. load_at f macs (be16 ETH_P_IP).
  rewrite decide_False by (intros H; by apply H). rewrite decide_False by lia.
  load_at f (eth ++ first ++ ip_mid) [byte_of IPPROTO_TCP].
  change (le_val [byte_of IPPROTO_TCP]) with IPPROTO_TCP.
  rewrite decide_False by (intros [H _]; by apply H).
  load_at f eth first. change (le_val first) with (le_val [byte_of (version * 16 + ihl)]).
  rewrite header_length by done.
  rewrite decide_True by done. rewrite decide_False by lia.
  load_at f (ip ++ addrs ++ options) (be16 (localPort key)).
  load_at f (ip ++ addrs ++ options ++ be16 (localPort key)) (be16 (remotePort key)).
  load_at f ip (le_bytes 4 (localIp key)).
  load_at f (ip ++ le_bytes 4 (localIp key)) (le_bytes 4 (remoteIp key)).
  rewrite !bpf_ntohs_be16, !le_val_bytes by done.
  change (256 ^ Z.of_nat 4) with 4294967296.
  apply in_range_uint_inv in Hla, Hra. rewrite !Z.mod_small by done. by destruct key.
Qed.

Lemma parse_packet_frame_witness :
  let key := mkSockKey 16777343 33554559 50000 443 in
  parse_packet (tcp_frame (repeat x00 12) 4 6 (repeat x00 8) [x00; x00] key (repeat x01 4)
    (repeat x00 16)) = Ret (Some key).
Proof. apply parse_packet_frame; first [done | simpl; lia | repeat split; done]. Defined.


(** A kernel whose maps have room. *)
Definition maps_ref : BpfMaps :=
  {| hash_update m k v := <[k := v]> m; lru_update m k v := <[k := v]> m |}.

#[export] Instance maps_ref_laws : BpfMapsLaws maps_ref.
Proof. split; [by left|done]. Qed.

Definition thread_ref (pid : Z) (name : string) : Current :=
  mkCurrent (Z.shiftl pid 32 + pid) (bytes_of name ++ repeat x00 (16 - length (bytes_of name))).

(** A packet of [n] bytes of a connection. *)
Definition packet_ref (key : SockKey) (n : Z) : SkBuff :=
  mkSkBuff (tcp_frame (repeat x00 12) 4 5 (repeat x00 8) [x00; x00] key [] (repeat x00 16)) n 1 0.


(** C21. No packet makes the programs read outside it, and whatever events and
    packets come, an entry of the flow map has a client that counts (it is
    not a kernel thread of the softirqs and has a pid) and a server that
    counts or none, and an entry of the queue map has a thread that counts. *)
Theorem net_run_inv {BM : BpfMaps} {BL : BpfMapsLaws BM} (es : list net_event) (s : NetFlow)
    (Hs : net_inv s) :
  ∃ s', net_run es s = Ret s' ∧ net_inv s'.
Proof.
  revert s Hs. induction es as [|e es IH]; intros s Hs; simpl; [by eexists|].
  destruct (net_step_total e s) as [s1 E]. rewrite E.
  apply IH. by eapply net_step_inv.
Qed.

Lemma net_run_inv_witness :
  ∃ s', @net_run maps_ref [EvConnect (mkSock 1 2 3 1024 TCP_SYN_SENT) (thread_ref 7 "curl");
      EvIngress (mkSkBuff [x00; x01] 2 1 0); EvClose (mkSock 1 2 3 1024 TCP_ESTABLISHED)]
      (mkNetFlow ∅ ∅) = Ret s' ∧ net_inv s'.
Proof. apply net_run_inv. split; by apply map_Forall_empty. Defined.
