(* ===== verification/Sdk.v ===== *)
(** * The client library (src/sdk/oe_client.cpp)

    [Impl] keeps the callbacks of each topic; a thread of its own receives the
    server's messages, queues the results of requests and hands published data
    to the callbacks.  A request is sent and then waits for the queue; the
    receiving thread runs meanwhile, so a call takes the number of rounds that
    the thread makes before the wait ends, by a result or by its timeout.  A
    callback is a number, and calling it is an entry of a log. *)

From Stdlib Require Import ZArith Lia Strings.Byte.
From stdpp Require Import base list strings gmap numbers.
From S2P Require Import Prelude Bytes Serialize Utils DataTypes SecureC DataRegister.
From S2P Require Import Registry MessageProtocol.

Definition Callback := nat.

Record Client := mkClient {
  cl_domainSocket : bool;                          (* not null *)
  cl_socketStream : option SocketStream;
  cl_topicHandle : gmap string (list Callback);
  cl_resultQueue : option (list (Z * charp));
  cl_isQuit : bool;
  cl_finished : bool;
  cl_threads : nat;                                (* threads in HandleRecv *)
  cl_calls : list (Callback * DataList)
}.

(** The static object: its constructor sets the pointers, the rest is zero. *)
Definition Impl0 : Client := mkClient false None ∅ None false false 0 [].

Definition set_stream (x : option SocketStream) (c : Client) : Client :=
  mkClient (cl_domainSocket c) x (cl_topicHandle c) (cl_resultQueue c) (cl_isQuit c)
    (cl_finished c) (cl_threads c) (cl_calls c).
Definition set_handles (h : gmap string (list Callback)) (c : Client) : Client :=
  mkClient (cl_domainSocket c) (cl_socketStream c) h (cl_resultQueue c) (cl_isQuit c)
    (cl_finished c) (cl_threads c) (cl_calls c).
Definition set_results (q : option (list (Z * charp))) (c : Client) : Client :=
  mkClient (cl_domainSocket c) (cl_socketStream c) (cl_topicHandle c) q (cl_isQuit c)
    (cl_finished c) (cl_threads c) (cl_calls c).
Definition set_thread (quit finished : bool) (n : nat) (c : Client) : Client :=
  mkClient (cl_domainSocket c) (cl_socketStream c) (cl_topicHandle c) (cl_resultQueue c)
    quit finished n (cl_calls c).
Definition set_domain (b : bool) (c : Client) : Client :=
  mkClient b (cl_socketStream c) (cl_topicHandle c) (cl_resultQueue c) (cl_isQuit c)
    (cl_finished c) (cl_threads c) (cl_calls c).
Definition log_calls (l : list (Callback * DataList)) (c : Client) : Client :=
  mkClient (cl_domainSocket c) (cl_socketStream c) (cl_topicHandle c) (cl_resultQueue c)
    (cl_isQuit c) (cl_finished c) (cl_threads c) (cl_calls c ++ l).

(** What the socket calls of [Init] return, and what will come in. *)
Record Connection := mkConnection {
  cn_sock : Z; cn_bind : Z; cn_connect : Z; cn_in : list Segment; cn_send : list Z
}.

Section client.
Context `{PF : Platform} `{SC : SecureC} `{KP : Kperf}.
Context (reg : registry).

(** A call on [*socketStream]. *)
Definition on_socket {A} (m : St SocketStream A) : St Client A := λ c,
  match cl_socketStream c with
  | None => Undef
  | Some s =>
    match m s with
    | Ret (a, s') => Ret (a, set_stream (Some s') c)
    | Throw e => Throw e
    | Undef => Undef
    end
  end.

(** What a writer puts in an [OutStream] of its own. *)
Definition on_out {A} (m : St OutStream A) : St Client string := λ c,
  match m [] with
  | Ret (_, out) => Ret (str_of out, c)
  | Throw e => Throw e
  | Undef => Undef
  end.

(** [Concat({topic.instanceName, topic.topicName, topic.params}, "::")]. *)
Definition topic_key (topic : CTopic) : St Client string :=
  i ← std_string (ct_instanceName topic);
  t ← std_string (ct_topicName topic);
  p ← std_string (ct_params topic);
  mret (ConcatS [i; t; p]).

(** [topicHandle[key]]: the subscript inserts an empty vector. *)
Definition handles_at (key : string) : St Client (list Callback) :=
  c ← get;
  let l := default [] (cl_topicHandle c !! key) in
  modify (set_handles (<[key := l]> (cl_topicHandle c))) ;;
  mret l.

Definition HandleData (data : string) : St Client unit :=
  '(ret, dataList) ← on_string (DataListDeserialize reg) (bytes_of data);
  if decide (ret < 0) then mret tt else
  key ← topic_key (dl_topic dataList);
  l ← handles_at key;
  modify (log_calls (map (λ handle, (handle, dataList)) l)).

(** The [switch] of [HandleRecv]. *)
Definition HandleReceived (message : Message) : St Client unit :=
  match msg_opt message with
  | SUBSCRIBE | UNSUBSCRIBE | PUBLISH =>
    data ← deref (msg_payload message !! 0%nat);
    '(_, result) ← on_string (ResultDeserialize stack_int) (bytes_of data);
    c ← get;
    q ← deref (cl_resultQueue c);
    modify (set_results (Some (q ++ [result])))
  | DATA =>
    data ← deref (msg_payload message !! 0%nat);
    HandleData data
  | _ => mret tt
  end.

(** One turn of the loop of [HandleRecv], or its end. *)
Definition HandleRecv : St Client unit :=
  c ← get;
  if cl_finished c then modify (set_thread true true (pred (cl_threads c))) else
  '(ok, protocol) ← on_socket (RecvMessage (mkProtocol REQUEST (mkMessage LOAD [])));
  if (ok : bool) then HandleReceived (mp_message protocol) else mret tt.

Fixpoint RecvRounds (rounds : nat) : St Client unit :=
  match rounds with
  | O => mret tt
  | S rounds => HandleRecv ;; RecvRounds rounds
  end.

Definition Init (cn : Connection) : St Client Z :=
  c ← get;
  modify (set_thread false false (cl_threads c)) ;;
  modify (set_domain true) ;;
  modify (set_results (Some [])) ;;
  if decide (cn_sock cn < 0) then mret (-1) else
  modify (set_stream (Some (new_stream (cn_in cn) (cn_send cn)))) ;;
  if decide (cn_bind cn < 0) then mret (-1) else
  if decide (cn_connect cn < 0) then mret (-1) else
  c ← get;
  modify (set_thread (cl_isQuit c) (cl_finished c) (S (cl_threads c))) ;;
  mret 0.

(** [resultQueue->WaitTimeAndPop(result)] after [rounds] of the thread. *)
Definition WaitTimeAndPop (rounds : nat) : St Client (option (Z * charp)) :=
  RecvRounds rounds ;;
  c ← get;
  q ← deref (cl_resultQueue c);
  match q with
  | [] => mret None
  | result :: q => modify (set_results (Some q)) ;; mret (Some result)
  end.

Definition HandleRequest (opt : Opt) (payload : list string) (rounds : nat) : St Client Z :=
  c ← get;
  match cl_socketStream c with
  | None => mret (-1)
  | Some _ =>
    on_socket (SendMessage (mkProtocol REQUEST (mkMessage opt payload))) ;;
    result ← WaitTimeAndPop rounds;
    mret (match result with None => -1 | Some (code, _) => code end)
  end.

(** [topicHandle[key].pop_back()]. *)
Definition pop_handle (key : string) : St Client unit :=
  l ← handles_at key;
  match l with
  | [] => undef
  | _ => c ← get; modify (set_handles (<[key := removelast l]> (cl_topicHandle c)))
  end.

Definition Subscribe (topic : CTopic) (callback : Callback) (rounds : nat) : St Client Z :=
  out ← on_out (TopicSerialize topic);
  key ← topic_key topic;
  l ← handles_at key;
  c ← get;
  modify (set_handles (<[key := l ++ [callback]]> (cl_topicHandle c))) ;;
  ret ← HandleRequest SUBSCRIBE [out] rounds;
  if decide (ret < 0) then pop_handle key ;; mret (-1) else mret 0.

Definition Unsubscribe (topic : CTopic) (rounds : nat) : St Client Z :=
  out ← on_out (TopicSerialize topic);
  ret ← HandleRequest UNSUBSCRIBE [out] rounds;
  if decide (ret < 0) then mret (-1) else
  key ← topic_key topic;
  modify (λ c, set_handles (delete key (cl_topicHandle c)) c) ;;
  mret 0.

Definition Publish (dataList : DataList) (rounds : nat) : St Client Z :=
  out ← on_out (DataListSerialize reg dataList);
  HandleRequest PUBLISH [out] rounds.

(** [None] when the wait for the thread has no end.  A turn that the thread is
    in the middle of comes before. *)
Definition Close : St Client (option unit) :=
  c ← get;
  modify (set_thread (cl_isQuit c) true (cl_threads c)) ;;
  c ← get;
  if negb (cl_isQuit c) && bool_decide (cl_threads c = O) then mret None else
  (if negb (cl_isQuit c) then HandleRecv else mret tt) ;;
  c ← get;
  if negb (cl_domainSocket c) then undef else
  modify (set_domain false) ;;
  modify (set_results None) ;;
  modify (set_stream None) ;;
  modify (set_handles ∅) ;;
  mret (Some tt).
End client.
