(* ===== verification/SdkTheorems.v ===== *)
(** * The client library against the server

    A subscription from the client's call to the scheduler and back, and the
    delivery of published data to the callbacks. *)

From Stdlib Require Import ZArith Lia Strings.Byte.
From stdpp Require Import base list strings gmap numbers.
From S2P Require Import Prelude Bytes Serialize Codec StdString Utils DataTypes SecureC.
From S2P Require Import DataRegister RoundTrip Registry MessageProtocol Daemon.
From S2P Require Import InstanceRun InstanceRunLemmas Subscriptions SchedulerSafety World.
From S2P Require Import Handlers PluginManager HandlerTheorems MessageManager MessageTheorems Sdk.

(** ** What a computation can return *)

Definition yields {S A} (P : A → Prop) (m : St S A) : Prop :=
  ∀ s a s', m s = Ret (a, s') → P a.

Create HintDb yields discriminated.

Section yields.
Context {S : Type}.

Lemma yields_ret {A} (P : A → Prop) a : P a → yields (S:=S) P (mret a).
Proof. intros Ha s a' s' [= <- <-]. done. Qed.
Lemma yields_bind {A B} (Q : A → Prop) (P : B → Prop) (m : St S A) (f : A → St S B) :
  yields Q m → (∀ a, Q a → yields P (f a)) → yields P (m ≫= f).
Proof.
  intros Hm Hf s b s'. unfold mbind, St_bind. destruct (m s) as [[a s1]| |] eqn:E; [|done..].
  intros E2. by eapply Hf; [by eapply Hm|].
Qed.
Lemma yields_any {A} (m : St S A) : yields (λ _, True) m.
Proof. done. Qed.
Lemma yields_skip {A B} (P : B → Prop) (m : St S A) (f : A → St S B) :
  (∀ a, yields P (f a)) → yields P (m ≫= f).
Proof. intros Hf. eapply yields_bind; [apply yields_any|auto]. Qed.
Lemma yields_undef {A} (P : A → Prop) : yields P (undef (S:=S)).
Proof. by intros s a s'. Qed.
Lemma yields_twp {A} (P : A → Prop) (m : St S A) (Q : A → S → Prop) s :
  yields P m → twp m Q s → twp m (λ a s', Q a s' ∧ P a) s.
Proof.
  unfold twp. intros Hy. destruct (m s) as [[a s']| |] eqn:E; [|done..].
  intros HQ. split; [done|]. by eapply Hy.
Qed.
End yields.

(** Walks to the results that the code returns. *)
Ltac yields_step :=
  match goal with
  | |- yields _ (mret _) => apply yields_ret
  | |- yields _ undef => apply yields_undef
  | |- yields _ (match ?x with _ => _ end) => destruct x eqn:?
  | |- yields _ _ => solve [auto with yields]
  end.

(** ** The codes of results *)

Definition code_ok (r : Result) : Prop := ∀ c, r_code r = Some c → in_range CInt c.

Section codes.
Context `{PF : Platform} `{SC : SecureC} `{KP : Kperf} `{PC : PluginCode} `{HO : HashOrder}
  `{PQ : PriorityQueue}.
Context (reg : registry) (Hcodes : ∀ l, in_range CInt (call_result l).1).

Lemma code_ok_some c p : in_range CInt c → code_ok (mkResult (Some c) p).
Proof. by intros ? ? [= <-]. Qed.
Lemma code_ok_none : code_ok Result0.
Proof. done. Qed.
Hint Resolve code_ok_some code_ok_none : yields.

Lemma yields_call c : yields code_ok (call c).
Proof.
  unfold call. apply yields_skip. intros _. apply yields_skip. intros d.
  pose proof (Hcodes (d_calls d)). destruct (call_result _). by apply yields_ret, code_ok_some.
Qed.
Hint Resolve yields_call : yields.

Lemma yields_OpenTopic i t : yields code_ok (OpenTopic i t).
Proof.
  unfold OpenTopic. eapply yields_bind; [apply yields_call|]. intros r Hr.
  apply yields_skip. intros _. by apply yields_ret.
Qed.

Lemma yields_EnableInstance n p : yields code_ok (EnableInstance n p).
Proof.
  unfold EnableInstance. apply yields_skip. intros d. yields_step; [|by apply yields_ret, code_ok_some].
  eapply yields_bind; [apply yields_call|]. intros r Hr. apply yields_skip. intros b.
  destruct b; [by apply yields_ret|]. do 5 (apply yields_skip; intros ?). by apply yields_ret.
Qed.

Definition second_ok (x : bool * Result) : Prop := code_ok x.2.

Lemma yields_Subscribe payload : yields code_ok (InstanceRun.Subscribe payload).
Proof.
  unfold InstanceRun.Subscribe. do 3 (apply yields_skip; intros ?).
  yields_step; [|by apply yields_ret, code_ok_some]. apply yields_skip. intros x.
  eapply (yields_bind second_ok).
  { destruct (in_enabled x); [by apply yields_ret|].
    eapply yields_bind; [apply yields_EnableInstance|]. intros r Hr. apply yields_skip.
    intros b. by apply yields_ret. }
  intros [f r] Hr. destruct f; [by apply yields_ret|]. apply yields_skip. intros ts.
  apply yields_skip. intros _. eapply (yields_bind second_ok).
  { destruct (topic_on _ _ _ _); [by apply yields_ret|].
    eapply yields_bind; [apply yields_OpenTopic|]. intros r' Hr'. apply yields_skip.
    intros b. destruct b; apply yields_skip; intros _; by apply yields_ret. }
  intros [f' r'] Hr'. destruct f'; [by apply yields_ret|].
  do 3 (apply yields_skip; intros ?). by apply yields_ret.
Qed.
End codes.

(** ** The server's side of a subscription *)

Section server_side.
Context `{PF : Platform} `{SC : SecureC} `{!SecureCLaws SC} `{KP : Kperf} `{PC : PluginCode}
  `{HO : HashOrder} `{PQ : PriorityQueue}.
Context (reg : registry) (ms : gmap string nat).
Context (Hposts : ∀ l, Forall (sane reg ms) (call_posts l)).
Context (Hcodes : ∀ l, in_range CInt (call_result l).1).

(** What the result says of the table. *)
Definition subscribe_answer (d : Daemon) (ty s : string) (r : Result) (d' : Daemon) : Prop :=
  code_ok r ∧ (failed r = false → subscribed d' ty s) ∧
  (d_queue d = [] → ∀ ty' s', subscribed d' ty' s' ↔
    subscribed d ty' s' ∨ (failed r = false ∧ ty' = ty ∧ s' = s)).

Lemma post_and_wait_idle msg d :
  d_queue d = [] → post_and_wait reg msg d = handle reg msg d.
Proof. destruct d; simpl. by intros ->. Qed.

Lemma handle_subscribe_twp ty s d :
  safe reg ms d → canonical ty → is_sdk s = true →
  twp (handle reg (run_message RT_SUBSCRIBE [ty; s])) (λ r d', code_ok r ∧
    ∀ ty' s', subscribed d' ty' s' ↔ subscribed d ty' s' ∨
      (failed r = false ∧ ty' = ty ∧ s' = s)) d.
Proof.
  intros [Hinv _] Hc Hs. eapply twp_mono.
  { apply (yields_twp code_ok); [by apply (yields_Subscribe Hcodes)|].
    apply handle_twp; [done|]. split; [done|by left]. }
  by intros r d' [[_ H] ?].
Qed.

Lemma post_subscribe_twp ty s d :
  safe reg ms d → canonical ty → is_sdk s = true →
  twp (post_and_wait reg (run_message RT_SUBSCRIBE [ty; s]))
    (λ r d', safe reg ms d' ∧ subscribe_answer d ty s r d') d.
Proof.
  intros Hsafe Hc Hs.
  assert (sane reg ms (run_message RT_SUBSCRIBE [ty; s])) as Hsane by (split; [done|by left]).
  destruct (d_queue d) as [|m q] eqn:Eq.
  - unfold twp. rewrite post_and_wait_idle by done.
    pose proof (twp_and _ _ _ _ (handle_safe reg ms Hposts d _ Hsafe Hsane)
      (handle_subscribe_twp ty s d Hsafe Hc Hs)) as H. unfold twp in H.
    destruct (handle _ _ d) as [[r d']| |]; [|done..]. destruct H as (? & ? & H).
    split; [done|]. split; [done|]. split; [|done]. intros Hf. apply H. naive_solver.
  - eapply twp_mono.
    { apply (post_and_wait_twp reg ms Hposts _ (λ r d', code_ok r ∧
        (failed r = false → subscribed d' ty s)) d Hsafe Hsane).
      intros d1 Hd1. eapply twp_mono; [by apply handle_subscribe_twp|].
      intros r d' [? H]. split; [done|]. intros Hf. apply H. naive_solver. }
    intros r d' (? & ? & ?). split; [done|]. split; [done|]. split; [done|]. by rewrite Eq.
Qed.

Lemma HandlerSubscribe_twp topic s d :
  safe reg ms d → canonical (GetType topic) → is_sdk s = true →
  twp (HandlerSubscribe reg s topic)
    (λ r d', safe reg ms d' ∧ subscribe_answer d (GetType topic) s r d') d.
Proof.
  intros Hsafe Hc Hs. pose proof Hsafe as [((Hst & _) & _) _].
  assert (∀ text, subscribe_answer d (GetType topic) s (mkResult (Some FAILED) text) d) as Hf.
  { intros text. split; [by apply code_ok_some|]. split; [done|]. naive_solver. }
  unfold HandlerSubscribe. apply twp_bind, twp_get. unfold GetInstance.
  destruct (d_instances d !! instanceName topic) as [i|] eqn:Hi; [|by apply twp_ret].
  destruct (Hst _ _ Hi) as (x & Hx & _). apply twp_bind, (load_twp _ x); [done|].
  case_decide; [by apply twp_ret|]. by apply post_subscribe_twp.
Qed.

(** A topic in the client's form and in the server's. *)
Definition ctopic (topic : Topic) : CTopic :=
  mkCTopic (Some (instanceName topic)) (Some (topicName topic)) (Some (Utils.params topic)).

Definition request_ok (topic : Topic) : Prop := CTopic_ok (ctopic topic) ∧ topic_ok topic = true.

Lemma TopicRead_Codec topic :
  CTopic_ok (ctopic topic) → Codec (TopicSerialize (ctopic topic)) 0 TopicRead topic.
Proof.
  intros (Hi & Ht & Hp). unfold TopicSerialize, TopicRead. simpl in *.
  rewrite !std_string_some by done. do 3 apply Codec_pure_w.
  do 3 (eapply Codec_bind; [by apply Codec_cstr_string|]). destruct topic. apply Codec_ret.
Qed.

Lemma canonical_ok topic : topic_ok topic = true → canonical (GetType topic).
Proof.
  intros H. exists topic. split; [|done]. by apply type_roundtrip.
Qed.
End server_side.

(** ** The client's side *)

Section client_side.
Context `{PF : Platform} `{SC : SecureC} `{!SecureCLaws SC} `{KP : Kperf}.
Context (reg : registry).

(** The reading half of a stream. *)
Definition same_input (s s' : SocketStream) : Prop :=
  ss_in s' = ss_in s ∧ readBuff s' = readBuff s ∧ readBuffOff s' = readBuffOff s ∧
  readBuffContentSize s' = readBuffContentSize s.

(** The next message that the thread will read. *)
Definition arrives (msg : Message) (s : SocketStream) : Prop :=
  Protocol_ok (mkProtocol RESPONSE msg) ∧ stream_ok s ∧ ready 16 s ∧
  ∃ bs rest, GetProtocolStr (mkProtocol RESPONSE msg) = Ret bs ∧
    Z.of_nat (length bs) ≤ 2147483647 ∧ pending s = bs ++ rest.

Lemma arrives_same msg s s' : same_input s s' → arrives msg s → arrives msg s'.
Proof.
  destruct s, s'. unfold same_input, arrives, stream_ok, ready, pending, unread. simpl.
  by intros (-> & -> & -> & ->).
Qed.

Lemma Writes_string s :
  Writes (SerializeString s) tt (to_bytes CUlong (slen s) ++ bytes_of s).
Proof. eapply Writes_bind; [apply Writes_Serialize|apply Writes_Append]. Qed.

Lemma for_each_writes (l : list string) : ∃ bs, Writes (for_each l SerializeString) tt bs.
Proof.
  induction l as [|x l [bs IH]]; [exists []; apply Writes_ret|]. eexists. cbn [for_each].
  eapply Writes_bind; [apply Writes_string|exact IH].
Qed.

Lemma GetProtocolStr_total p : ∃ bs, GetProtocolStr p = Ret bs.
Proof.
  unfold GetProtocolStr. destruct p as [h [o l]]. simpl.
  destruct (for_each_writes l) as [bs W].
  assert (∃ b, Writes (MessageSerialize (mkMessage o l)) tt b) as [b W'].
  { eexists. eapply Writes_bind; [apply Writes_Serialize|].
    eapply Writes_bind; [apply Writes_Serialize|exact W]. }
  rewrite W'. by eexists.
Qed.

Lemma SendMessage_run p s : ∃ b s', SendMessage p s = Ret (b, s') ∧ same_input s s'.
Proof.
  unfold SendMessage. destruct (GetProtocolStr_total p) as [bs ->].
  unfold Write, mbind, St_bind, send. destruct (ss_send s) as [|n l]; eexists _, _; by split.
Qed.

Lemma HandleRecv_message msg c s :
  MAX_RECV_BUFF_SIZE ≤ rsize_max → cl_finished c = false → cl_socketStream c = Some s →
  arrives msg s →
  ∃ s', HandleRecv reg c = HandleReceived reg msg (set_stream (Some s') c).
Proof.
  intros Hmax Hf Hs (Hp & Hok & Hr & bs & rest & Hbs & Hl & Hin).
  pose proof (RecvMessage_frame Hmax (mkProtocol REQUEST (mkMessage LOAD [])) _ s bs rest Hp
    eq_refl Hbs Hl Hok Hr Hin) as H.
  apply twp_alt in H as (r & s' & E & -> & _). exists s'.
  unfold HandleRecv. unfold mbind, St_bind, get. rewrite Hf. unfold on_socket. by rewrite Hs, E.
Qed.

(** *** The result of a request *)

Lemma EncodeResult_bytes r :
  bytes_of (EncodeResult r) = to_bytes CInt (default stack_int (r_code r)) ++
    to_bytes CUlong (slen (r_payload r)) ++ bytes_of (r_payload r).
Proof.
  unfold EncodeResult. set (v := default _ _).
  assert (Writes (Serialize CInt v ;; SerializeString (r_payload r)) tt (to_bytes CInt v ++
    to_bytes CUlong (slen (r_payload r)) ++ bytes_of (r_payload r))) as W.
  { eapply Writes_bind; [apply Writes_Serialize|apply Writes_string]. }
  by rewrite (W []), bytes_of_str_of.
Qed.

Lemma fits_le s s' : slen s' ≤ slen s → fits s → fits s'.
Proof.
  intros Hle (? & ? & Hr). apply in_range_ulong_inv in Hr. pose proof (slen_nonneg s').
  split_and!; [lia|lia|]. apply in_range_ulong. lia.
Qed.

Lemma ResultDeserialize_encoded r c (Q : Z * (Z * charp) → Client → Prop) :
  in_range CInt (default stack_int (r_code r)) → fits (EncodeResult r) →
  (∀ st p, Q (st, (default stack_int (r_code r), p)) c) →
  twp (on_string (ResultDeserialize stack_int) (bytes_of (EncodeResult r))) Q c.
Proof.
  intros Hr Hf HQ. assert (slen (r_payload r) + 12 = slen (EncodeResult r)) as Hlen.
  { unfold slen. rewrite EncodeResult_bytes, !length_app, !length_to_bytes. simpl. lia. }
  unfold twp, on_string. rewrite EncodeResult_bytes. unfold ResultDeserialize.
  unfold mbind at 1, St_bind. rewrite Reads_Deserialize by done. cbn beta iota.
  assert (fits (r_payload r)) as Hfp by (eapply fits_le; [|exact Hf]; lia).
  destruct (Codec_string EmptyString (r_payload r) Hfp) as (bs & W & R).
  assert (bs = to_bytes CUlong (slen (r_payload r)) ++ bytes_of (r_payload r)) as ->.
  { pose proof (W []) as E. rewrite (Writes_string (r_payload r) []) in E. by injection E as <-. }
  unfold in_cstr. specialize (R []). rewrite app_nil_r in R.
  unfold mbind, St_bind. rewrite R. unfold new_cstr, mbind, St_bind.
  destruct Hf as (? & ? & _). pose proof (slen_nonneg (r_payload r)).
  rewrite new_array_ok by lia. destruct (strcpy_s _ _). apply HQ.
Qed.

(** A result is queued. *)
Lemma HandleReceived_result o r c q :
  (o = SUBSCRIBE ∨ o = UNSUBSCRIBE ∨ o = PUBLISH) → cl_resultQueue c = Some q →
  in_range CInt (default stack_int (r_code r)) → fits (EncodeResult r) →
  ∃ p, HandleReceived reg (mkMessage o [EncodeResult r]) c =
    Ret (tt, set_results (Some (q ++ [(default stack_int (r_code r), p)])) c).
Proof.
  intros Ho Hq Hr Hf.
  assert (twp (HandleReceived reg (mkMessage o [EncodeResult r])) (λ _ c', ∃ p,
    c' = set_results (Some (q ++ [(default stack_int (r_code r), p)])) c) c) as H.
  { unfold HandleReceived. destruct Ho as [-> | [-> | ->]]; simpl;
      apply twp_bind, twp_ret, twp_bind, ResultDeserialize_encoded; try done; intros st p;
      apply twp_bind, twp_get, twp_bind; rewrite Hq; apply twp_ret, twp_modify; by exists p. }
  apply twp_alt in H as ([] & c' & E & p & ->). by exists p.
Qed.

(** A request whose answer arrives in time, and nothing before it. *)
Lemma HandleRequest_answered o payload o' r c s :
  MAX_RECV_BUFF_SIZE ≤ rsize_max → (o' = SUBSCRIBE ∨ o' = UNSUBSCRIBE ∨ o' = PUBLISH) →
  cl_finished c = false → cl_socketStream c = Some s → cl_resultQueue c = Some [] →
  in_range CInt (default stack_int (r_code r)) → arrives (mkMessage o' [EncodeResult r]) s →
  ∃ s', HandleRequest reg o payload 1 c =
    Ret (default stack_int (r_code r), set_results (Some []) (set_stream (Some s') c)).
Proof.
  intros Hmax Ho Hf Hs Hq Hr Ha. unfold HandleRequest. unfold mbind at 1, St_bind, get.
  rewrite Hs. unfold mbind at 1, St_bind, on_socket. rewrite Hs.
  destruct (SendMessage_run (mkProtocol REQUEST (mkMessage o payload)) s) as (b & s1 & -> & Hsame).
  set (c1 := set_stream (Some s1) c).
  assert (fits (EncodeResult r)) as Hfit.
  { destruct Ha as ((_ & _ & _ & _ & Hl & _) & _). by apply list.Forall_cons in Hl as [? _]. }
  destruct (HandleRecv_message (mkMessage o' [EncodeResult r]) c1 s1) as [s2 E2];
    [done|done|done|by eapply arrives_same|].
  destruct (HandleReceived_result o' r (set_stream (Some s2) c1) []) as [p E3]; [done..|].
  exists s2. unfold WaitTimeAndPop. cbn [RecvRounds]. unfold mbind, St_bind.
  rewrite E2, E3. simpl. done.
Qed.

(** *** The topic in the client *)

Lemma topic_key_run topic c :
  CTopic_ok (ctopic topic) → topic_key (ctopic topic) c = Ret (GetType topic, c).
Proof.
  intros (Hi & Ht & Hp). unfold topic_key, ctopic. simpl in *. by rewrite !std_string_some by done.
Qed.

Lemma on_out_topic topic c : CTopic_ok (ctopic topic) →
  ∃ bs, on_out (TopicSerialize (ctopic topic)) c = Ret (str_of bs, c) ∧ Reads TopicRead bs topic.
Proof.
  intros Ht. destruct (TopicRead_Codec topic Ht) as (bs & W & R). exists bs. split; [|done].
  unfold on_out. by rewrite W.
Qed.
End client_side.

Section subscribe_call.
Context `{PF : Platform} `{SC : SecureC} `{!SecureCLaws SC} `{KP : Kperf}.
Context (reg : registry).

Definition handles (c : Client) (key : string) : list Callback :=
  default [] (cl_topicHandle c !! key).

(** [Subscribe] when the answer [r] arrives in time. *)
Lemma Subscribe_answered topic cb r c s :
  MAX_RECV_BUFF_SIZE ≤ rsize_max → CTopic_ok (ctopic topic) →
  cl_finished c = false → cl_socketStream c = Some s → cl_resultQueue c = Some [] →
  in_range CInt (default stack_int (r_code r)) →
  arrives (mkMessage SUBSCRIBE [EncodeResult r]) s →
  ∃ c', Subscribe reg (ctopic topic) cb 1 c =
      Ret (if decide (default stack_int (r_code r) < 0) then -1 else 0, c') ∧
    ∀ key, handles c' key = handles c key ++
      (if decide (key = GetType topic ∧ 0 ≤ default stack_int (r_code r)) then [cb] else []).
Proof.
  intros Hmax Ht Hf Hs Hq Hr Ha. unfold Subscribe.
  destruct (on_out_topic topic c Ht) as (bs & E & _).
  unfold mbind at 1, St_bind. rewrite E. unfold mbind at 1, St_bind. rewrite topic_key_run by done.
  unfold handles_at. unfold mbind, St_bind, get, modify, mret, St_ret. simpl.
  set (key := GetType topic). fold (handles c key).
  set (c1 := set_handles _ _).
  destruct (HandleRequest_answered reg SUBSCRIBE [str_of bs] SUBSCRIBE r c1 s) as [s' ->];
    [done|by left|done..|]. set (code := default stack_int (r_code r)) in *.
  set (c2 := set_results _ _).
  assert (∀ k, handles c2 k = if decide (k = key) then handles c key ++ [cb] else handles c k) as H2.
  { intros k. unfold handles, c2, c1. simpl. case_decide as Ek; [subst k|].
    - by rewrite lookup_insert_eq.
    - by rewrite !lookup_insert_ne by done. }
  case_decide as Hc.
  - unfold pop_handle, handles_at. unfold mbind, St_bind, get, modify, mret, St_ret.
    fold (handles c2 key). rewrite H2, decide_True by done. cbn [cl_topicHandle set_handles].
    destruct (handles c key ++ [cb]) as [|x l] eqn:El; [by destruct (handles c key)|].
    eexists. split; [reflexivity|]. intros k. unfold handles at 1. cbn [cl_topicHandle set_handles].
    rewrite (decide_False (P := _ ∧ _)) by lia. rewrite app_nil_r.
    destruct (decide (k = key)) as [->|Hk].
    + rewrite lookup_insert_eq, <-El. simpl. by rewrite removelast_last.
    + rewrite !lookup_insert_ne by done. fold (handles c2 k). by rewrite H2, decide_False.
  - exists c2. split; [done|]. intros k. rewrite H2. case_decide as Hk.
    + subst k. by rewrite decide_True by (split; [done|lia]).
    + rewrite decide_False by naive_solver. by rewrite app_nil_r.
Qed.
End subscribe_call.

(** *** Published data *)

Section data.
Context `{PF : Platform} `{SC : SecureC} `{!SecureCLaws SC} `{KP : Kperf}.
Context (reg : registry).

Definition topic_of (t : CTopic) : Topic :=
  mkTopic (default EmptyString (ct_instanceName t)) (default EmptyString (ct_topicName t))
    (default EmptyString (ct_params t)).

Lemma topic_key_of t c : CTopic_ok t → topic_key t c = Ret (GetType (topic_of t), c).
Proof.
  destruct t as [[i|] [n|] [p|]]; try (by intros (? & ? & ?)). intros H.
  by apply (topic_key_run (mkTopic i n p)).
Qed.

Lemma handles_at_run key c : ∃ c', handles_at key c = Ret (handles c key, c') ∧
  cl_calls c' = cl_calls c ∧ ∀ k, handles c' k = handles c k.
Proof.
  unfold handles_at, mbind, St_bind, get, modify, mret, St_ret. fold (handles c key).
  eexists. split; [reflexivity|]. split; [done|]. intros k. unfold handles at 1. simpl.
  destruct (decide (k = key)) as [->|Hk]; [by rewrite lookup_insert_eq|].
  by rewrite lookup_insert_ne.
Qed.

Lemma HandleData_delivers dl out c :
  DataList_ok reg dl → DataListSerialize reg dl [] = Ret (0, out) →
  ∃ c', HandleData reg (str_of out) c = Ret (tt, c') ∧
    cl_calls c' = cl_calls c ++ map (λ h, (h, dl)) (handles c (GetType (topic_of (dl_topic dl)))) ∧
    ∀ k, handles c' k = handles c k.
Proof.
  intros Hok E. destruct (DataList_Codec reg dl Hok) as (bs & W & R).
  rewrite (W []) in E. injection E as <-.
  unfold HandleData. unfold mbind at 1, St_bind, on_string. rewrite bytes_of_str_of.
  specialize (R []). rewrite app_nil_r in R. rewrite R. rewrite decide_False by done.
  unfold mbind at 1, St_bind. rewrite topic_key_of by apply Hok.
  unfold mbind, St_bind.
  destruct (handles_at_run (GetType (topic_of (dl_topic dl))) c) as (c' & -> & Hc & Hh).
  eexists. split; [reflexivity|]. simpl. rewrite Hc. by split.
Qed.
End data.

(** *** The callbacks after any calls *)

Inductive api_call :=
| ApiSubscribe (topic : Topic) (cb : Callback) (rounds : nat)
| ApiUnsubscribe (topic : Topic) (rounds : nat)
| ApiPublish (dl : DataList) (rounds : nat)
| ApiRecv (rounds : nat).

(** The key of a topic as the client's strings give it. *)
Definition client_key (topic : Topic) : string :=
  ConcatS [c_str (instanceName topic); c_str (topicName topic); c_str (Utils.params topic)].

(** What a call that returned [ret] does to the callbacks of each key. *)
Definition handles_spec (call : api_call) (ret : Z) (h : string → list Callback) :
    string → list Callback :=
  match call with
  | ApiSubscribe topic cb _ =>
    λ key, if decide (key = client_key topic ∧ ret = 0) then h key ++ [cb] else h key
  | ApiUnsubscribe topic _ => λ key, if decide (key = client_key topic ∧ ret = 0) then [] else h key
  | _ => h
  end.

Section api.
Context `{PF : Platform} `{SC : SecureC} `{KP : Kperf}.
Context (reg : registry).

Definition run_call (call : api_call) : St Client Z :=
  match call with
  | ApiSubscribe topic cb rounds => Subscribe reg (ctopic topic) cb rounds
  | ApiUnsubscribe topic rounds => Unsubscribe reg (ctopic topic) rounds
  | ApiPublish dl rounds => Publish reg dl rounds
  | ApiRecv rounds => RecvRounds reg rounds ;; mret 0
  end.

Fixpoint run_calls (calls : list api_call) : St Client (list Z) :=
  match calls with
  | [] => mret []
  | call :: calls => ret ← run_call call; rets ← run_calls calls; mret (ret :: rets)
  end.

Fixpoint handles_after (calls : list api_call) (rets : list Z) (h : string → list Callback) :
    string → list Callback :=
  match calls, rets with
  | call :: calls, ret :: rets => handles_after calls rets (handles_spec call ret h)
  | _, _ => h
  end.

(** The callbacks are [h]. *)
Definition has_handles (h : string → list Callback) (c : Client) : Prop :=
  ∀ key, handles c key = h key.

Lemma keeps_on_socket {A} h (m : St SocketStream A) : keeps (has_handles h) (on_socket m).
Proof.
  intros c a c' Hc. unfold on_socket. destruct (cl_socketStream c); [|done].
  destruct (m s) as [[? ?]| |]; [|done..]. intros [= _ <-]. exact Hc.
Qed.
Lemma keeps_on_out {A} h (m : St OutStream A) : keeps (has_handles h) (on_out m).
Proof.
  intros c a c' Hc. unfold on_out. destruct (m []) as [[? ?]| |]; [|done..].
  by intros [= _ <-].
Qed.
Lemma keeps_handles_at h key : keeps (has_handles h) (handles_at key).
Proof.
  intros c a c' Hc. destruct (handles_at_run key c) as (c1 & -> & _ & Hh). intros [= _ <-] k.
  by rewrite Hh.
Qed.
Lemma keeps_topic_key h t : keeps (has_handles h) (topic_key t).
Proof. unfold topic_key, std_string. keeps. Qed.

Lemma keeps_HandleRecv h : keeps (has_handles h) (HandleRecv reg).
Proof.
  unfold HandleRecv, HandleReceived, HandleData.
  repeat first [apply keeps_on_socket | apply keeps_handles_at | apply keeps_topic_key
               | apply keeps_on_string | keeps_step]; done.
Qed.
Lemma keeps_RecvRounds h rounds : keeps (has_handles h) (RecvRounds reg rounds).
Proof.
  induction rounds as [|n IH]; simpl; [apply keeps_ret|].
  apply keeps_bind; [apply keeps_HandleRecv|done].
Qed.
Lemma keeps_HandleRequest h opt payload rounds :
  keeps (has_handles h) (HandleRequest reg opt payload rounds).
Proof.
  unfold HandleRequest, WaitTimeAndPop.
  repeat first [apply keeps_on_socket | apply keeps_RecvRounds | keeps_step]; done.
Qed.

Lemma topic_key_state topic c :
  topic_key (ctopic topic) c = Ret (client_key topic, c).
Proof. done. Qed.

Lemma handles_insert c key l k :
  handles (set_handles (<[key := l]> (cl_topicHandle c)) c) k =
  if decide (k = key) then l else handles c k.
Proof.
  unfold handles. simpl. case_decide as Hk; [subst; by rewrite lookup_insert_eq|].
  by rewrite lookup_insert_ne.
Qed.

Lemma pop_handle_run key c c' u :
  pop_handle key c = Ret (u, c') →
  ∀ k, handles c' k = if decide (k = key) then removelast (handles c key) else handles c k.
Proof.
  unfold pop_handle. rewrite run_bind.
  destruct (handles_at_run key c) as (c1 & -> & _ & Hh).
  destruct (handles c key) as [|x l] eqn:El; [done|]. rewrite run_bind. simpl.
  intros [= _ <-] k. rewrite handles_insert. by case_decide.
Qed.

Lemma Subscribe_handles topic cb rounds h c ret c' :
  has_handles h c → Subscribe reg (ctopic topic) cb rounds c = Ret (ret, c') →
  has_handles (handles_spec (ApiSubscribe topic cb rounds) ret h) c'.
Proof.
  intros Hc. unfold Subscribe. rewrite run_bind.
  destruct (on_out _ c) as [[out c0]| |] eqn:Eo; [|done..].
  apply (keeps_on_out h _ c out c0 Hc) in Eo as H0. rewrite run_bind, topic_key_state, run_bind.
  set (key := client_key topic).
  destruct (handles_at_run key c0) as (c1 & -> & _ & Hh). rewrite run_bind. simpl.
  rewrite run_bind. simpl. set (c2 := set_handles _ c1).
  set (h2 := λ k, if decide (k = key) then h key ++ [cb] else h k).
  assert (has_handles h2 c2) as H2.
  { intros k. unfold c2, h2. rewrite handles_insert, Hh. by rewrite !H0. }
  rewrite run_bind. destruct (HandleRequest _ _ _ _ c2) as [[r c3]| |] eqn:Er; [|done..].
  apply (keeps_HandleRequest h2 _ _ _ c2 r c3 H2) in Er as H3.
  destruct (decide (r < 0)).
  - rewrite run_bind. destruct (pop_handle key c3) as [[u c4]| |] eqn:Ep; [|done..].
    intros [= <- <-] k. rewrite (pop_handle_run _ _ _ _ Ep), !H3. unfold h2.
    rewrite (decide_False (P := _ ∧ _)) by (by intros []).
    case_decide as Hk; [subst k|done]. rewrite decide_True by done. apply removelast_last.
  - intros [= <- <-] k. rewrite H3. unfold h2. fold key. case_decide as Hk.
    + by rewrite decide_True, Hk.
    + by rewrite decide_False by (by intros []).
Qed.

Lemma Unsubscribe_handles topic rounds h c ret c' :
  has_handles h c → Unsubscribe reg (ctopic topic) rounds c = Ret (ret, c') →
  has_handles (handles_spec (ApiUnsubscribe topic rounds) ret h) c'.
Proof.
  intros Hc. unfold Unsubscribe. rewrite run_bind.
  destruct (on_out _ c) as [[out c0]| |] eqn:Eo; [|done..].
  apply (keeps_on_out h _ c out c0 Hc) in Eo as H0. rewrite run_bind.
  destruct (HandleRequest _ _ _ _ c0) as [[r c1]| |] eqn:Er; [|done..].
  apply (keeps_HandleRequest h _ _ _ c0 r c1 H0) in Er as H1.
  destruct (decide (r < 0)).
  - intros [= <- <-] k. simpl. rewrite decide_False by (by intros []). apply H1.
  - rewrite run_bind, topic_key_state, run_bind. simpl. intros [= <- <-] k.
    unfold handles. simpl. case_decide as Hk.
    + destruct Hk as [-> _]. by rewrite lookup_delete_eq.
    + rewrite lookup_delete_ne; [apply H1|]. intros <-. by apply Hk.
Qed.

Lemma run_call_handles call h c ret c' :
  has_handles h c → run_call call c = Ret (ret, c') → has_handles (handles_spec call ret h) c'.
Proof.
  intros Hc. destruct call as [topic cb n|topic n|dl n|n]; simpl.
  - by apply Subscribe_handles.
  - by apply Unsubscribe_handles.
  - apply (keeps_bind (has_handles h)); [apply keeps_on_out| |done].
    intros out. apply keeps_HandleRequest.
  - apply (keeps_bind (has_handles h)); [apply keeps_RecvRounds| |done].
    intros u. apply keeps_ret.
Qed.
End api.

(** ** Properties *)


(** The answer of the server to the example's request, as it comes in. *)
Definition answer_ref : list byte := frame_of (mkProtocol RESPONSE
  (mkMessage SUBSCRIBE [@EncodeResult platform_ref (mkResult (Some 0) EmptyString)])).
Definition client_ref (ins : list Segment) : Client :=
  mkClient true (Some (new_stream ins [])) ∅ (Some []) false false 1 [].
Definition topic_ref : Topic := mkTopic "collector" "t" "".


(** C27. Published data reach the callbacks: when a message with a serialised
    data list of a registered type arrives, the receiving thread calls every
    callback under the list's topic, in the order of the subscriptions, with
    that very list, calls no other, and leaves the callbacks as they are. *)
Theorem HandleRecv_delivers {PF : Platform} {SC : SecureC} {SL : SecureCLaws SC} {KP : Kperf}
    (reg : registry) (c : Client) (s : SocketStream) (dl : DataList) (out : list byte)
    (Hmax : MAX_RECV_BUFF_SIZE ≤ rsize_max) (Hok : DataList_ok reg dl)
    (Hout : DataListSerialize reg dl [] = Ret (0, out))
    (Hrun : cl_finished c = false) (Hstream : cl_socketStream c = Some s)
    (Harr : arrives (mkMessage DATA [str_of out]) s) :
  ∃ c', HandleRecv reg c = Ret (tt, c') ∧
    cl_calls c' = cl_calls c ++
      map (λ handle, (handle, dl)) (handles c (GetType (topic_of (dl_topic dl)))) ∧
    (∀ key, handles c' key = handles c key).
Proof.
  destruct (HandleRecv_message reg _ c s Hmax Hrun Hstream Harr) as [s' ->].
  by apply (HandleData_delivers reg dl out (set_stream (Some s') c)).
Qed.

(** A stream that holds one frame of a message. *)
Definition one_message (msg : Message) : list Segment :=
  [Bytes (frame_of (mkProtocol RESPONSE msg))].
Definition datalist_bytes : list byte :=
  match @DataListSerialize kperf_ref (InitRegisterData Arm ∅) datalist_example [] with
  | Ret (_, out) => out | _ => []
  end.

Lemma HandleRecv_delivers_witness :
  let ins := one_message (mkMessage DATA [str_of datalist_bytes]) in
  let c := set_handles {["thread_scenario::thread_scenario::p"%string := [3%nat; 4%nat]]}
             (client_ref ins) in
  ∃ c', @HandleRecv platform_ref secure_c_ref kperf_ref (InitRegisterData Arm ∅) c = Ret (tt, c') ∧
    cl_calls c' = [(3%nat, datalist_example); (4%nat, datalist_example)].
Proof.
  intros ins c.
  destruct (@HandleRecv_delivers platform_ref secure_c_ref secure_c_ref_laws kperf_ref
    (InitRegisterData Arm ∅) c (new_stream ins []) datalist_example datalist_bytes)
    as (c' & E & Hc & _).
  - by vm_compute.
  - repeat split; try by_decide. exists EThreadInfo. split.
    + exists "thread_scenario"%string, "thread_scenario"%string. repeat split.
    + repeat constructor; by_decide.
  - by vm_compute.
  - done.
  - done.
  - split; [repeat split; by_decide|]. split.
    { split_and!; [by_decide..|]. repeat constructor; discriminate. }
    split; [right; split; [done|]; eexists _, _; split; [done|]; by_decide|].
    eexists _, []. split_and!; [by vm_compute..|]. by vm_compute.
  - exists c'. split; [exact E|]. rewrite Hc. by vm_compute.
Defined.

(** Whatever the server sends and however the receiving thread's turns
    fall between and into the calls, the callbacks under each key are those of
    the subscriptions that returned 0, in order, since the last
    unsubscription of the key that returned 0. *)
Theorem run_calls_handles {PF : Platform} {SC : SecureC} {KP : Kperf} (reg : registry)
    (calls : list api_call) (c c' : Client) (rets : list Z)
    (Hrun : run_calls reg calls c = Ret (rets, c')) :
  ∀ key, handles c' key = handles_after calls rets (handles c) key.
Proof.
  assert (∀ h, has_handles h c → has_handles (handles_after calls rets h) c') as H;
    [|by apply H].
  revert c rets Hrun. induction calls as [|call calls IH]; intros c rets; simpl.
  { by intros [= <- <-]. }
  rewrite run_bind. destruct (run_call reg call c) as [[ret c1]| |] eqn:E; [|done..].
  rewrite run_bind. destruct (run_calls reg calls c1) as [[rs c2]| |] eqn:E2; [|done..].
  intros [= <- <-] h Hh. simpl. eapply IH; [exact E2|]. by eapply run_call_handles.
Qed.

(** What the server answers to a subscription. *)
Definition answer_of (code : Z) : Segment :=
  Bytes (frame_of (mkProtocol RESPONSE
    (mkMessage SUBSCRIBE [@EncodeResult platform_ref (mkResult (Some code) EmptyString)]))).
Definition run_calls_ref (calls : list api_call) (c : Client) : outcome (list Z * Client) :=
  @run_calls platform_ref secure_c_ref kperf_ref (InitRegisterData Arm ∅) calls c.

Definition calls_ref : list api_call :=
  [ApiSubscribe topic_ref 5%nat 1; ApiSubscribe topic_ref 6%nat 0; ApiRecv 1].
Definition client_after : Client :=
  match run_calls_ref calls_ref (client_ref [answer_of 0; answer_of (-1)]) with
  | Ret (_, c) => c | _ => Impl0
  end.

Lemma run_calls_handles_witness :
  @run_calls platform_ref secure_c_ref kperf_ref (InitRegisterData Arm ∅) calls_ref
    (client_ref [answer_of 0; answer_of (-1)]) = Ret ([0; -1; 0], client_after) ∧
  handles client_after (client_key topic_ref) = [5%nat].
Proof.
  assert (@run_calls platform_ref secure_c_ref kperf_ref (InitRegisterData Arm ∅) calls_ref
    (client_ref [answer_of 0; answer_of (-1)]) = Ret ([0; -1; 0], client_after)) as E
    by (vm_compute; reflexivity).
  split; [exact E|].
  etransitivity; [exact (@run_calls_handles platform_ref secure_c_ref kperf_ref
    (InitRegisterData Arm ∅) calls_ref (client_ref [answer_of 0; answer_of (-1)]) client_after
    [0; -1; 0] E (client_key topic_ref))|].
  vm_compute. reflexivity.
Defined.

(** A request that timed out is answered by the next one's wait: the late
    result stays in the queue, so a subscription the server refused returns 0
    and its callback is kept, and so on for every later request. *)
Theorem late_result_answers_next :
  ∃ c', run_calls_ref
      [ApiSubscribe topic_ref 5%nat 0; ApiSubscribe (mkTopic "absent" "t" "") 6%nat 2]
      (client_ref [answer_of 0; answer_of (-1)]) = Ret ([-1; 0], c') ∧
    handles c' "collector::t::" = [] ∧ handles c' "absent::t::" = [6%nat] ∧
    map fst (default [] (cl_resultQueue c')) = [-1].
Proof. eexists. split; [vm_compute; reflexivity|]. by split_and!. Qed.

(** [Close] after an [Init] that failed waits for a thread that was never
    started, and a second [Close] goes through a null pointer. *)
Lemma Close_after_failed_Init {PF : Platform} {SC : SecureC} {KP : Kperf} (reg : registry) :
  (∃ c, Init (mkConnection 3 0 (-1) [] []) Impl0 = Ret (-1, c) ∧
    ∃ c', Close reg c = Ret (None, c')) ∧
  (Init (mkConnection 3 0 0 [] []) ≫= (λ _, Close reg ≫= (λ _, Close reg))) Impl0 = Undef.
Proof. split; [|done]. eexists. split; [reflexivity|]. by eexists. Qed.
