(* ===== verification/Doubles.v ===== *)
(** * Floating-point numbers

    The [double] of the tuning plugins: binary64 as the Standard Library's
    executable specification of IEEE 754 gives it, with the conversions and
    the functions of <cmath> and <string> that the code uses. *)

From Stdlib Require Import ZArith Lia Strings.Byte Floats.SpecFloat.
From stdpp Require Import base list strings numbers.
From S2P Require Import Prelude Bytes StdString.

Definition double := spec_float.

(** [double(z)], rounded to nearest even. *)
Definition d_of_Z (z : Z) : double := binary_normalize 53 1024 z 0 false.
Definition d_add : double → double → double := SFadd 53 1024.
Definition d_sub : double → double → double := SFsub 53 1024.
Definition d_mul : double → double → double := SFmul 53 1024.
Definition d_div : double → double → double := SFdiv 53 1024.

(** Comparisons: false when a side is not a number. *)
Definition d_lt (x y : double) : bool := SFltb x y.
Definition d_le (x y : double) : bool := SFleb x y.

(** A literal [n / 10 ^ k], rounded once. *)
Definition d_lit (n k : Z) : double := d_div (d_of_Z n) (d_of_Z (10 ^ k)).

Definition d_zero : double := S754_zero false.
(** [DBL_MAX]. *)
Definition DBL_MAX : double := S754_finite false (2 ^ 53 - 1)%positive 971.

Definition d_signed (s : bool) (m : positive) : Z := if s then Z.neg m else Z.pos m.

(** [std::ceil]. *)
Definition ceil_Z (v e : Z) : Z := if decide (0 ≤ e) then v * 2 ^ e else - (- v / 2 ^ (- e)).
Definition d_ceil (x : double) : double :=
  match x with
  | S754_finite s m e =>
    let z := ceil_Z (d_signed s m) e in
    if decide (z = 0) then S754_zero s else d_of_Z z
  | _ => x
  end.

(** [static_cast<T>(x)]: truncation towards zero; what does not fit is
    undefined. *)
Definition d_trunc (x : double) : option Z :=
  match x with
  | S754_zero _ => Some 0
  | S754_finite s m e =>
    Some (if decide (0 ≤ e) then d_signed s m * 2 ^ e else Z.quot (d_signed s m) (2 ^ (- e)))
  | _ => None
  end.
Definition d_to_int (t : ctype) (x : double) : outcome Z :=
  match d_trunc x with
  | Some z => if decide (in_range t z) then Ret z else Undef
  | None => Undef
  end.

(** [std::min(x, y)]. *)
Definition d_min (x y : double) : double := if d_lt y x then y else x.

(** The quotient by [2 ^ k], rounded to nearest, ties to even. *)
Definition round_half_even (n d : Z) : Z :=
  let q := n / d in
  let r := n `mod` d in
  if decide (2 * r < d) then q
  else if decide (d < 2 * r) then q + 1
  else if Z.even q then q else q + 1.

(** [std::to_string(double)]: ["%f"], six digits after the point. *)
Definition pad6 (z : Z) : list byte :=
  let l := digits z in repeat (digit 0) (6 - length l) ++ l.
Definition d_to_string (x : double) : list byte :=
  let sign (s : bool) := if s then [x2d] else [] in
  let fixed s (z : Z) :=
    sign s ++ digits (z / 10 ^ 6) ++ x2e :: pad6 (z `mod` 10 ^ 6) in
  match x with
  | S754_zero s => fixed s 0
  | S754_infinity s => sign s ++ bytes_of "inf"
  | S754_nan => bytes_of "nan"
  | S754_finite s m e =>
    fixed s (if decide (0 ≤ e) then Z.pos m * 2 ^ e * 10 ^ 6
             else round_half_even (Z.pos m * 10 ^ 6) (2 ^ (- e)))
  end.

Example to_string_half : d_to_string (d_lit 25 1) = bytes_of "2.500000".
Proof. by vm_compute. Qed.
Example ceil_half : d_ceil (d_lit 25 1) = d_of_Z 3.
Proof. by vm_compute. Qed.
Example trunc_half : d_to_int CUlong (d_lit (-5) 1) = Ret 0.
Proof. by vm_compute. Qed.
