(* ===== verification/ClusterSelector.v ===== *)
(** * Choosing idle nodes, clusters and processors
      (src/plugin/tune/docker/cluster_affinity: topology.cpp,
      cluster_selector.cpp) *)

From Stdlib Require Import ZArith Lia Strings.Byte.
From stdpp Require Import base list strings gmap numbers.
From S2P Require Import Prelude Bytes StdString Utils Doubles.

(** ** The topology *)

Record Topology := mkTopology {
  numaNodeNum : Z;
  clusterNum : Z;
  oneClusterCpuNum : Z;
  cpuTopology : list (list Z);
  isSystemOfflineCpu : bool
}.

(** The files that [ProcessCpuTopology] reads: the first word of each, empty
    for a file that has none, [None] for one that cannot be opened. *)
Record TopologyFiles := mkTopologyFiles {
  tf_nodes : Z;                                 (* numa_num_configured_nodes() *)
  tf_clusterCpus : option (list byte);          (* cluster_cpus_list *)
  tf_offline : option (list byte);              (* cpu/offline *)
  tf_nodeCpus : nat → option (list byte)        (* node<i>/cpulist *)
}.

(** [find('-')], and the numbers on both sides of it; without a dash both
    [substr] calls take the whole text. *)
Definition first_last (l : list byte) : outcome (Z * Z) :=
  let '(a, b) := match find_byte dash l with
                 | Some k => (take k l, drop (k + 1) l)
                 | None => (l, l)
                 end in
  match stoi a, stoi b with
  | Ret x, Ret y => Ret (x, y)
  | Ret _, o => match o with Throw e => Throw e | _ => Undef end
  | Throw e, _ => Throw e
  | Undef, _ => Undef
  end.

(** [cpuNum += n] on an [int]. *)
Definition count_cpus (cpuNum n : Z) : outcome Z :=
  if decide (in_range CInt n ∧ in_range CInt (cpuNum + n)) then Ret (cpuNum + n) else Undef.

(** One node's list: the tokens between the commas.  A descending range adds
    no processor, but is counted. *)
Fixpoint node_cpus (tokens : list (list byte)) (cpuNum : Z) (acc : list Z) :
    outcome (Z * list Z) :=
  match tokens with
  | [] => Ret (cpuNum, acc)
  | range :: tokens =>
    match find_byte dash range with
    | None =>
      match stoi range with
      | Ret n =>
        match count_cpus cpuNum 1 with
        | Ret cpuNum => node_cpus tokens cpuNum (acc ++ [n])
        | Throw e => Throw e
        | Undef => Undef
        end
      | Throw e => Throw e
      | Undef => Undef
      end
    | Some _ =>
      match first_last range with
      | Ret (a, b) =>
        if decide (¬ in_range CInt (b - a)) then Undef else
        match count_cpus cpuNum (b - a + 1), int_range a b with
        | Ret cpuNum, Ret l => node_cpus tokens cpuNum (acc ++ l)
        | _, _ => Undef
        end
      | Throw e => Throw e
      | Undef => Undef
      end
    end
  end.

(** The loop over the nodes; [false] when a file cannot be opened, which ends
    the function before [clusterNum] is set.  A file without a word leaves
    [cpuListStr] as the node before left it. *)
Fixpoint read_nodes (files : nat → option (list byte)) (i n : nat) (cpuListStr : list byte)
    (cpuNum : Z) (acc : list (list Z)) : outcome (bool * Z * list (list Z)) :=
  match n with
  | O => Ret (true, cpuNum, acc)
  | S n =>
    match files i with
    | None => Ret (false, cpuNum, acc ++ repeat [] (S n))
    | Some text =>
      let cpuListStr := match text with [] => cpuListStr | _ => text end in
      match node_cpus (getline_all comma cpuListStr) cpuNum [] with
      | Ret (cpuNum, cpus) => read_nodes files (S i) n cpuListStr cpuNum (acc ++ [cpus])
      | Throw e => Throw e
      | Undef => Undef
      end
    end
  end.

(** The constructor. *)
Definition ProcessCpuTopology (f : TopologyFiles) : outcome Topology :=
  let cluster := match tf_clusterCpus f with
                 | None => Ret 0
                 | Some text =>
                   match first_last text with
                   | Ret (start, end_) =>
                     if decide (in_range CInt (end_ - start) ∧ in_range CInt (end_ - start + 1))
                     then Ret (end_ - start + 1) else Undef
                   | Throw e => Throw e
                   | Undef => Undef
                   end
                 end in
  let offline := match tf_offline f with
                 | Some (_ :: _) => true
                 | _ => false
                 end in
  match cluster with
  | Ret one =>
    match read_nodes (tf_nodeCpus f) 0 (Z.to_nat (tf_nodes f)) [] 0 [] with
    | Ret (all, cpuNum, cpus) =>
      Ret (mkTopology (tf_nodes f)
        (if all then if decide (one = 0) then 0 else Z.quot cpuNum one else 0) one cpus offline)
    | Throw e => Throw e
    | Undef => Undef
    end
  | Throw e => Throw e
  | Undef => Undef
  end.

Definition GetCpuTopology (node : Z) (t : Topology) : list Z :=
  if decide (node < 0 ∨ numaNodeNum t ≤ node) then []
  else default [] (cpuTopology t !! Z.to_nat node).

(** ** The selector *)

Record CpuStats := mkCpuStats {
  st_user : Z; st_nice : Z; st_system : Z; st_idle : Z; st_iowait : Z; st_irq : Z; st_softirq : Z
}.
Definition no_stats : CpuStats := mkCpuStats 0 0 0 0 0 0 0.

Record Selector := mkSelector {
  l3cNameList : list string;
  clusterToL3c : gmap Z string;
  scclL3c : gmap string (list Z);
  scclL3cSum : gmap string Z;
  cpuLoadMap : gmap Z double;
  prevCpuStatsMap : gmap Z CpuStats
}.
Definition Selector0 : Selector := mkSelector [] ∅ ∅ ∅ ∅ ∅.

Definition L3C_HIT_QUEUE_LENGTH : nat := 10.

(** [cpuLoadMap[cpu]] and [scclL3cSum[clusterToL3c[i]]]: the subscript of a
    missing key gives zero, or the empty name. *)
Definition cpu_load (s : Selector) (cpu : Z) : double := default d_zero (cpuLoadMap s !! cpu).
Definition l3c_sum (s : Selector) (cluster : Z) : Z :=
  default 0 (scclL3cSum s !! default EmptyString (clusterToL3c s !! cluster)).

(** [used[i]] of a vector of flags. *)
Definition used_at (used : list bool) (i : nat) : outcome bool :=
  match used !! i with Some b => Ret b | None => Undef end.

(** *** Nodes *)

Fixpoint node_loads (t : Topology) (s : Selector) (used : list bool) (i n : nat) :
    outcome (list double) :=
  match n with
  | O => Ret []
  | S n =>
    match used_at used i, node_loads t s used (S i) n with
    | Ret u, Ret l =>
      Ret ((if u : bool then d_zero
            else foldl (λ x cpu, d_add x (cpu_load s cpu)) d_zero
                   (GetCpuTopology (Z.of_nat i) t)) :: l)
    | _, _ => Undef
    end
  end.

Definition pick_node (acc : double * Z) (x : Z * (double * bool)) : double * Z :=
  let '(minVal, node) := acc in
  let '(i, (d, u)) := x in
  if d_lt d minVal && negb u then (d, i) else (minVal, node).

Definition numbered {A} (l : list A) : list (Z * A) := imap (λ i x, (Z.of_nat i, x)) l.

Definition SelectIdleNode (t : Topology) (used : list bool) (s : Selector) : outcome Z :=
  match node_loads t s used 0 (Z.to_nat (numaNodeNum t)) with
  | Ret dataVec => Ret (foldl pick_node (DBL_MAX, -1) (numbered (zip dataVec used))).2
  | Throw e => Throw e
  | Undef => Undef
  end.

(** *** Clusters *)

Definition UINT64_MAX : Z := 18446744073709551615.

Definition pick_cluster (s : Selector) (clusterIndexBegin clusterIndexEnd : Z)
    (acc : Z * Z) (x : Z * bool) : Z * Z :=
  let '(minVal, cluster) := acc in
  let i := wrap CUint (clusterIndexBegin + x.1) in
  if decide (clusterIndexEnd < i) then acc else
  if decide (l3c_sum s i < minVal ∧ x.2 = false) then (l3c_sum s i, wrap CInt i)
  else (minVal, cluster).

Definition SelectIdleCluster (t : Topology) (node : Z) (used : list bool) (s : Selector) : Z :=
  let nodeNum := numaNodeNum t in
  if decide (node < 0 ∨ nodeNum ≤ node) then -1 else
  if decide (nodeNum ≤ 0) then -1 else
  let numaClusterNum := wrap CUint (Z.quot (clusterNum t) nodeNum) in
  let clusterIndexBegin := wrap CUint (numaClusterNum * node) in
  let clusterIndexEnd := wrap CUint (clusterIndexBegin + numaClusterNum - 1) in
  (foldl (pick_cluster s clusterIndexBegin clusterIndexEnd) (UINT64_MAX, -1) (numbered used)).2.

(** *** Processors *)

Definition pick_cpu (s : Selector) (clusterCpuStart : Z) (acc : double * Z) (x : Z * bool) :
    double * Z :=
  let '(minVal, selectCpu) := acc in
  if x.2 : bool then acc else
  let load := cpu_load s (clusterCpuStart + x.1) in
  if d_lt load minVal then (load, clusterCpuStart + x.1) else acc.

Definition SelectIdleCpuFromCluster (t : Topology) (clusterId : Z) (used : list bool)
    (s : Selector) : Z :=
  let clusterCpuStart := wrap CInt (clusterId * oneClusterCpuNum t) in
  (foldl (pick_cpu s clusterCpuStart) (d_of_Z 100, clusterCpuStart) (numbered used)).2.

(** *** Updates *)

(** [SetL3cCount]: a window of the last ten counts and its sum. *)
Definition SetL3cCount (count : Z) (index : nat) (s : Selector) : outcome Selector :=
  match l3cNameList s !! index with
  | None => Undef
  | Some name =>
    let q := default [] (scclL3c s !! name) ++ [count] in
    let sum := wrap CUlong (default 0 (scclL3cSum s !! name) + count) in
    let '(q, sum) :=
      match q with
      | x :: q' => if decide (L3C_HIT_QUEUE_LENGTH < length q)%nat
                   then (q', wrap CUlong (sum - x)) else (q, sum)
      | [] => (q, sum)
      end in
    Ret (mkSelector (l3cNameList s) (clusterToL3c s) (<[name := q]> (scclL3c s))
           (<[name := sum]> (scclL3cSum s)) (cpuLoadMap s) (prevCpuStatsMap s))
  end.

Fixpoint SetL3cCounts (counts : list Z) (index : nat) (s : Selector) : outcome Selector :=
  match counts with
  | [] => Ret s
  | count :: counts =>
    match SetL3cCount count index s with
    | Ret s => SetL3cCounts counts (S index) s
    | Throw e => Throw e
    | Undef => Undef
    end
  end.

Definition CalculateCpuLoad (prev curr : CpuStats) : double :=
  let total s := wrap CUlong (st_user s + st_nice s + st_system s + st_idle s + st_iowait s +
                              st_irq s + st_softirq s) in
  let idle s := wrap CUlong (st_idle s + st_iowait s) in
  let totalDelta := d_of_Z (wrap CUlong (total curr - total prev)) in
  let idleDelta := d_of_Z (wrap CUlong (idle curr - idle prev)) in
  d_mul (d_sub (d_of_Z 1) (d_div idleDelta totalDelta)) (d_of_Z 100).

(** [stats]: what [ReadCpuStats] makes of /proc/stat.  The subscript gives a
    processor that is gone zeros, and an entry in the next round. *)
Definition UpdateCpuLoad (stats : gmap Z CpuStats) (s : Selector) : Selector :=
  let load := map_imap (λ cpu prev, Some (CalculateCpuLoad prev (default no_stats (stats !! cpu))))
                (prevCpuStatsMap s) in
  let stats := stats ∪ (const no_stats <$> prevCpuStatsMap s) in
  mkSelector (l3cNameList s) (clusterToL3c s) (scclL3c s) (scclL3cSum s)
    (load ∪ cpuLoadMap s) stats.

(** [ClusterSelector::Update] with the counts of the collector's data. *)
Definition SelectorUpdate (counts : list Z) (stats : gmap Z CpuStats) (s : Selector) :
    outcome Selector :=
  match SetL3cCounts counts 0 s with
  | Ret s => Ret (UpdateCpuLoad stats s)
  | Throw e => Throw e
  | Undef => Undef
  end.

(** [Init]: the names that hold "l3c", sorted, and the first processor of
    each one's mask; a file that cannot be read leaves the last number. *)
Fixpoint map_clusters (one : Z) (names : list string) (mask : string → option Z) (last : option Z)
    (m : gmap Z string) : outcome (gmap Z string) :=
  match names with
  | [] => Ret m
  | name :: names =>
    match (match mask name with Some z => Some z | None => last end) with
    | None => Undef
    | Some z =>
      if decide (one = 0) then Undef else
      let clusterId := Z.quot z one in
      map_clusters one names mask (Some clusterId) (<[clusterId := name]> m)
    end
  end.

Definition SelectorInit (t : Topology) (names : list string) (mask : string → option Z)
    (s : Selector) : outcome (bool * Selector) :=
  let names := l3cNameList s ++ names in
  match names with
  | [] => Ret (false, s)
  | _ =>
    match map_clusters (oneClusterCpuNum t) names mask None (clusterToL3c s) with
    | Ret m => Ret (true, mkSelector names m (scclL3c s) (scclL3cSum s) (cpuLoadMap s)
                            (prevCpuStatsMap s))
    | Throw e => Throw e
    | Undef => Undef
    end
  end.
