(* ===== verification/ClusterAffinity.v ===== *)
(** * Placement of containers
      (src/plugin/tune/docker/cluster_affinity/cluster_affinity_adapt.cpp)

    Containers are bound to whole clusters of processors of one NUMA node, and
    idle containers lend part of their processors to busy ones.  The tables of
    free and occupied clusters and processors are the state; the docker
    commands are a log. *)

From Stdlib Require Import ZArith Lia Strings.Byte.
From stdpp Require Import base list strings gmap numbers.
From S2P Require Import Prelude Bytes StdString Utils Doubles ClusterSelector.
From S2P Require Import Config Daemon.

(** ** State *)

Record DockerResourceInfo := mkDocker {
  dk_inited : bool;
  optimizeBinded : bool;
  dockerLended : bool;
  dockerId : string;
  cpuUsageQueue : list double;
  cpuUsageSum : double;
  cpuCores : Z;
  initialCpuSet : list Z;
  initialMemSet : list Z;
  currentCpuSet : list Z;
  currentMemSet : list Z;
  borrowDockerMap : gmap string double;
  initialCpuLimit : double;
  lendCpuLimit : double;
  currentCpuLimit : double;
  bindClusters : list Z
}.

(** What the subscript of a map creates. *)
Definition docker0 : DockerResourceInfo :=
  mkDocker false false false EmptyString [] d_zero 0 [] [] [] [] ∅ d_zero d_zero d_zero [].

Record Cluster := mkCluster {
  cl_id : Z; logicalCpuCores : list Z; freeCpuCores : list Z; occupiedCpuCores : list Z
}.
Definition cluster0 : Cluster := mkCluster 0 [] [] [].

Record NumaClusterInfo := mkNuma { numaId : Z; freeInfoVec : list Z; occupiedInfoVec : list Z }.
Definition numa0 : NumaClusterInfo := mkNuma 0 [] [].

Record Container := mkContainer {
  co_id : string; cfs_period_us : Z; cfs_quota_us : Z; co_cpu_usage : Z; co_cpus : string;
  co_mems : string; co_system_cpu_usage : Z
}.

Record Affinity := mkAffinity {
  clusterTopology : Topology;
  clusterSelector : Selector;
  dockerBorrowSwitch : bool;
  isFirstUpdate : bool;
  isSelectorInited : bool;
  systemCpuCount : Z;
  collectorPre : gmap string Container;
  dockerInfos : gmap string DockerResourceInfo;
  systemClusterInfo : gmap Z Cluster;
  numaClusterInfo : gmap Z NumaClusterInfo;
  af_cmds : list string
}.

(** The constructor. *)
Definition ClusterAffinityAdapt (t : Topology) : Affinity :=
  mkAffinity t Selector0 false true false (Z.of_nat (length (concat (cpuTopology t)))) ∅ ∅ ∅ ∅ [].

Definition set_dockers (m : gmap string DockerResourceInfo) (s : Affinity) : Affinity :=
  mkAffinity (clusterTopology s) (clusterSelector s) (dockerBorrowSwitch s) (isFirstUpdate s)
    (isSelectorInited s) (systemCpuCount s) (collectorPre s) m (systemClusterInfo s)
    (numaClusterInfo s) (af_cmds s).
Definition set_clusters (m : gmap Z Cluster) (s : Affinity) : Affinity :=
  mkAffinity (clusterTopology s) (clusterSelector s) (dockerBorrowSwitch s) (isFirstUpdate s)
    (isSelectorInited s) (systemCpuCount s) (collectorPre s) (dockerInfos s) m
    (numaClusterInfo s) (af_cmds s).
Definition set_numas (m : gmap Z NumaClusterInfo) (s : Affinity) : Affinity :=
  mkAffinity (clusterTopology s) (clusterSelector s) (dockerBorrowSwitch s) (isFirstUpdate s)
    (isSelectorInited s) (systemCpuCount s) (collectorPre s) (dockerInfos s) (systemClusterInfo s)
    m (af_cmds s).
Definition set_cmds (l : list string) (s : Affinity) : Affinity :=
  mkAffinity (clusterTopology s) (clusterSelector s) (dockerBorrowSwitch s) (isFirstUpdate s)
    (isSelectorInited s) (systemCpuCount s) (collectorPre s) (dockerInfos s) (systemClusterInfo s)
    (numaClusterInfo s) l.
Definition set_collector (first : bool) (m : gmap string Container) (s : Affinity) : Affinity :=
  mkAffinity (clusterTopology s) (clusterSelector s) (dockerBorrowSwitch s) first
    (isSelectorInited s) (systemCpuCount s) m (dockerInfos s) (systemClusterInfo s)
    (numaClusterInfo s) (af_cmds s).
Definition set_selector (inited : bool) (x : Selector) (s : Affinity) : Affinity :=
  mkAffinity (clusterTopology s) x (dockerBorrowSwitch s) (isFirstUpdate s) inited
    (systemCpuCount s) (collectorPre s) (dockerInfos s) (systemClusterInfo s)
    (numaClusterInfo s) (af_cmds s).
Definition set_switch (b : bool) (s : Affinity) : Affinity :=
  mkAffinity (clusterTopology s) (clusterSelector s) b (isFirstUpdate s) (isSelectorInited s)
    (systemCpuCount s) (collectorPre s) (dockerInfos s) (systemClusterInfo s)
    (numaClusterInfo s) (af_cmds s).

(** [map[key]] of the three tables: a missing entry is created. *)
Definition docker_at (id : string) : St Affinity DockerResourceInfo :=
  s ← get;
  match dockerInfos s !! id with
  | Some d => mret d
  | None => modify (set_dockers (<[id := docker0]> (dockerInfos s))) ;; mret docker0
  end.
Definition cluster_at (i : Z) : St Affinity Cluster :=
  s ← get;
  match systemClusterInfo s !! i with
  | Some c => mret c
  | None => modify (set_clusters (<[i := cluster0]> (systemClusterInfo s))) ;; mret cluster0
  end.
Definition numa_at (i : Z) : St Affinity NumaClusterInfo :=
  s ← get;
  match numaClusterInfo s !! i with
  | Some n => mret n
  | None => modify (set_numas (<[i := numa0]> (numaClusterInfo s))) ;; mret numa0
  end.

Definition put_docker (id : string) (d : DockerResourceInfo) : St Affinity unit :=
  modify (λ s, set_dockers (<[id := d]> (dockerInfos s)) s).
Definition put_cluster (i : Z) (free occupied : list Z) : St Affinity unit :=
  c ← cluster_at i;
  modify (λ s, set_clusters (<[i := mkCluster (cl_id c) (logicalCpuCores c) free occupied]>
    (systemClusterInfo s)) s).
Definition put_numa (i : Z) (free occupied : list Z) : St Affinity unit :=
  n ← numa_at i;
  modify (λ s, set_numas (<[i := mkNuma (numaId n) free occupied]> (numaClusterInfo s)) s).

(** Fields of an entry. *)
Definition with_sets (cpus mems : list Z) (d : DockerResourceInfo) : DockerResourceInfo :=
  mkDocker (dk_inited d) (optimizeBinded d) (dockerLended d) (dockerId d) (cpuUsageQueue d)
    (cpuUsageSum d) (cpuCores d) (initialCpuSet d) (initialMemSet d) cpus mems
    (borrowDockerMap d) (initialCpuLimit d) (lendCpuLimit d) (currentCpuLimit d)
    (bindClusters d).
Definition with_clusters (l : list Z) (d : DockerResourceInfo) : DockerResourceInfo :=
  mkDocker (dk_inited d) (optimizeBinded d) (dockerLended d) (dockerId d) (cpuUsageQueue d)
    (cpuUsageSum d) (cpuCores d) (initialCpuSet d) (initialMemSet d) (currentCpuSet d)
    (currentMemSet d) (borrowDockerMap d) (initialCpuLimit d) (lendCpuLimit d)
    (currentCpuLimit d) l.
Definition with_limit (x : double) (d : DockerResourceInfo) : DockerResourceInfo :=
  mkDocker (dk_inited d) (optimizeBinded d) (dockerLended d) (dockerId d) (cpuUsageQueue d)
    (cpuUsageSum d) (cpuCores d) (initialCpuSet d) (initialMemSet d) (currentCpuSet d)
    (currentMemSet d) (borrowDockerMap d) (initialCpuLimit d) (lendCpuLimit d) x
    (bindClusters d).
Definition with_lending (binded lended : bool) (lend : double) (m : gmap string double)
    (d : DockerResourceInfo) : DockerResourceInfo :=
  mkDocker (dk_inited d) binded lended (dockerId d) (cpuUsageQueue d) (cpuUsageSum d)
    (cpuCores d) (initialCpuSet d) (initialMemSet d) (currentCpuSet d) (currentMemSet d) m
    (initialCpuLimit d) lend (currentCpuLimit d) (bindClusters d).
Definition with_usage (q : list double) (sum : double) (cores : Z) (d : DockerResourceInfo) :
    DockerResourceInfo :=
  mkDocker (dk_inited d) (optimizeBinded d) (dockerLended d) (dockerId d) q sum cores
    (initialCpuSet d) (initialMemSet d) (currentCpuSet d) (currentMemSet d) (borrowDockerMap d)
    (initialCpuLimit d) (lendCpuLimit d) (currentCpuLimit d) (bindClusters d).

(** ** Lists of processors as text *)

(** [nums[i] == end + 1] on an [int] at its maximum. *)
Fixpoint convert_loop (nums : list Z) (start end_ : Z) (result : list byte) :
    outcome (list byte) :=
  let item := if decide (start = end_) then to_string start
              else to_string start ++ dash :: to_string end_ in
  match nums with
  | [] => Ret (result ++ item)
  | n :: nums =>
    if decide (end_ = 2147483647) then Undef else
    if decide (n = end_ + 1) then convert_loop nums start n result
    else convert_loop nums n n (result ++ item ++ [comma])
  end.

Definition ConvertCpusetToString (nums : list Z) : outcome (list byte) :=
  match nums with
  | [] => Ret []
  | n :: nums => convert_loop nums n n []
  end.

Fixpoint TransformStrToVec_loop (tokens : list (list byte)) (resultSet : list Z) :
    outcome (list Z) :=
  match tokens with
  | [] => Ret resultSet
  | range :: tokens =>
    match find_byte dash range with
    | None =>
      match stoi range with
      | Ret n => TransformStrToVec_loop tokens (resultSet ++ [n])
      | Throw e => Throw e
      | Undef => Undef
      end
    | Some _ =>
      match first_last range with
      | Ret (start, end_) =>
        match int_range start end_ with
        | Ret l => TransformStrToVec_loop tokens (resultSet ++ l)
        | Throw e => Throw e
        | Undef => Undef
        end
      | Throw e => Throw e
      | Undef => Undef
      end
    end
  end.

Definition TransformStrToVec (resourceListStr : list byte) : outcome (list Z) :=
  TransformStrToVec_loop (getline_all comma resourceListStr) [].

(** A vector of flags; an index outside of it is undefined. *)
Definition set_used (i : Z) (b : bool) (used : list bool) : outcome (list bool) :=
  if decide (0 ≤ i < Z.of_nat (length used)) then Ret (<[Z.to_nat i := b]> used) else Undef.
Fixpoint set_all_used (l : list Z) (b : bool) (used : list bool) : outcome (list bool) :=
  match l with
  | [] => Ret used
  | i :: l =>
    match set_used i b used with
    | Ret used => set_all_used l b used
    | Throw e => Throw e
    | Undef => Undef
    end
  end.

(** [x] less the elements of [l]. *)
Definition without (l x : list Z) : list Z := filter (λ n, n ∉ l) x.

(** What popen makes of a command, after those before it. *)
Class Shell := { popen_ok : list string → string → bool }.

(** [oeaware::IsSmtEnable()], and the files that [Init] and [UpdateCpuLoad]
    read, are arguments. *)
Section affinity.
Context `{SH : Shell} `{HO : HashOrder}.
Context (smt : bool).

Definition CMD_RESULT_BUF_SIZE : Z := 512.

Definition ExecuteCMD (cmd : string) : St Affinity Z :=
  s ← get;
  if decide (CMD_RESULT_BUF_SIZE < slen cmd ∨ slen cmd = 0) then mret (-1) else
  modify (set_cmds (af_cmds s ++ [cmd])) ;;
  mret (if popen_ok (af_cmds s) cmd then 0 else -1).

(** [a < 0 || b < 0] of commands: those after a failure are not run. *)
Fixpoint run_commands (cmds : list string) : St Affinity bool :=
  match cmds with
  | [] => mret true
  | cmd :: cmds =>
    r ← ExecuteCMD cmd;
    if decide (r < 0) then mret false else run_commands cmds
  end.

Definition cpus_cmd (limit : double) (id : string) : string :=
  ("docker update --cpus=" +:+ str_of (d_to_string limit) +:+ " " +:+ id)%string.
Definition cpuset_cmd (cpus : list byte) (id : string) : string :=
  ("docker update --cpuset-cpus=" +:+ str_of cpus +:+ " " +:+ id)%string.
Definition mems_cmd (mems : list byte) (id : string) : string :=
  ("docker update --cpuset-mems=" +:+ str_of mems +:+ " " +:+ id)%string.

(** ** Taking processors and clusters *)

(** [std::vector<int> used(clusterCpuNum, 1)] with zeros for the free
    processors of the cluster. *)
Definition free_flags (clusterId : Z) : St Affinity (list bool) :=
  s ← get;
  c ← cluster_at clusterId;
  let n := oneClusterCpuNum (clusterTopology s) in
  let start := wrap CInt (clusterId * n) in
  lift (set_all_used (map (λ cpu, cpu - start) (freeCpuCores c)) false
          (repeat true (Z.to_nat n))).

(** The loop that selects [n] processors of a cluster, one after the other. *)
Fixpoint take_cpus (clusterId : Z) (n : nat) (used : list bool) (taken : list Z) :
    St Affinity (list Z) :=
  match n with
  | O => mret taken
  | S n =>
    s ← get;
    let t := clusterTopology s in
    let cpu := SelectIdleCpuFromCluster t clusterId used (clusterSelector s) in
    used ← lift (set_used (cpu - wrap CInt (clusterId * oneClusterCpuNum t)) true used);
    c ← cluster_at clusterId;
    put_cluster clusterId (freeCpuCores c) (occupiedCpuCores c ++ [cpu]) ;;
    take_cpus clusterId n used (taken ++ [cpu])
  end.

(** The processors taken leave the free list. *)
Definition drop_free (clusterId : Z) (taken : list Z) : St Affinity unit :=
  c ← cluster_at clusterId;
  put_cluster clusterId (without taken (freeCpuCores c)) (occupiedCpuCores c).

(** [n] processors of a cluster, with the lists brought up to date. *)
Definition take_some (clusterId : Z) (n : nat) (taken : list Z) : St Affinity (list Z) :=
  used ← free_flags clusterId;
  taken ← take_cpus clusterId n used taken;
  drop_free clusterId taken ;;
  mret taken.

(** All the free processors of a cluster become occupied. *)
Definition take_all (clusterId : Z) : St Affinity (list Z) :=
  c ← cluster_at clusterId;
  put_cluster clusterId [] (occupiedCpuCores c ++ freeCpuCores c) ;;
  mret (freeCpuCores c).

(** The loop over every cluster but the last; [need] is a [size_t]. *)
Fixpoint take_clusters (l : list Z) (need : Z) (taken : list Z) : St Affinity (Z * list Z) :=
  match l with
  | [] => mret (need, taken)
  | i :: l =>
    free ← take_all i;
    take_clusters l (wrap CUlong (need - Z.of_nat (length free))) (taken ++ free)
  end.

(** The loop that selects [n] clusters of a node. *)
Fixpoint select_clusters (nid begin : Z) (n : nat) (used : list bool) (l : list Z) :
    St Affinity (list Z) :=
  match n with
  | O => mret l
  | S n =>
    s ← get;
    let clusterId := SelectIdleCluster (clusterTopology s) nid used (clusterSelector s) in
    used ← lift (set_used (clusterId - begin) true used);
    x ← numa_at nid;
    put_numa nid (freeInfoVec x) (occupiedInfoVec x ++ [clusterId]) ;;
    select_clusters nid begin n used (l ++ [clusterId])
  end.

(** The first processor's cluster, and the flags of the occupied clusters of a
    node. *)
Definition node_flags (nid : Z) : St Affinity (Z * list bool) :=
  s ← get;
  let t := clusterTopology s in
  cpus ← deref (if decide (nid < 0) then None else cpuTopology t !! Z.to_nat nid);
  first ← deref (head cpus);
  let begin := Z.quot first (oneClusterCpuNum t) in
  let numaClusterNum := Z.quot (Z.of_nat (length cpus)) (oneClusterCpuNum t) in
  x ← numa_at nid;
  used ← lift (set_all_used (map (λ i, i - begin) (occupiedInfoVec x)) true
                 (repeat false (Z.to_nat numaClusterNum)));
  mret (begin, used).

(** The occupied clusters leave the free list. *)
Definition refresh_free (nid : Z) : St Affinity unit :=
  x ← numa_at nid;
  put_numa nid (without (occupiedInfoVec x) (freeInfoVec x)) (occupiedInfoVec x).

(** [n] clusters of a node, and [need] processors of them: all of each but the
    last. *)
Definition take_from_clusters (l : list Z) (need : Z) (taken : list Z) : St Affinity (list Z) :=
  clusterId ← deref (list.last l);
  '(need, taken) ← take_clusters (removelast l) need taken;
  take_some clusterId (Z.to_nat need) taken.

(** ** Binding *)

Definition BindCpusAndMems (id : string) (cSet mSet : list Z) : St Affinity bool :=
  cpusetStr ← lift (ConvertCpusetToString cSet);
  memorysetStr ← lift (ConvertCpusetToString mSet);
  ok ← run_commands [cpuset_cmd cpusetStr id; mems_cmd memorysetStr id];
  if negb ok then mret false else
  d ← docker_at id;
  put_docker id (with_sets cSet mSet d) ;;
  mret true.

(** The selected clusters are added to [bindClusters] one at a time. *)
Definition DockerBindClusters (id : string) (nid clusterNum : Z) : St Affinity bool :=
  s ← get;
  if decide (oneClusterCpuNum (clusterTopology s) = 0) then mret false else
  '(begin, used) ← node_flags nid;
  l ← select_clusters nid begin (Z.to_nat clusterNum) used [];
  d ← docker_at id;
  put_docker id (with_clusters (bindClusters d ++ l) d) ;;
  refresh_free nid ;;
  need ← lift (d_to_int CUlong (d_ceil (initialCpuLimit d)));
  cpus ← take_from_clusters l need [];
  BindCpusAndMems id cpus [nid].

Definition in_node (cpus : list Z) (first_ last_ : Z) : option bool :=
  a ← head cpus; b ← list.last cpus; Some (bool_decide (a ≤ first_) && bool_decide (last_ ≤ b)).

Fixpoint find_node (i : Z) (nodes : list (list Z)) (first_ last_ : Z) : outcome (option Z) :=
  match nodes with
  | [] => Ret None
  | cpus :: nodes =>
    match in_node cpus first_ last_ with
    | None => Undef
    | Some true => Ret (Some i)
    | Some false => find_node (i + 1) nodes first_ last_
    end
  end.

Definition SelectBindingNuma (id : string) : St Affinity Z :=
  d ← docker_at id;
  s ← get;
  match currentMemSet d with
  | [nid] => mret nid
  | _ =>
    let nodes := cpuTopology (clusterTopology s) in
    found ← (match nodes with
             | [] => mret None
             | _ => first_ ← deref (head (currentCpuSet d));
                    last_ ← deref (list.last (currentCpuSet d));
                    lift (find_node 0 nodes first_ last_)
             end);
    match found with
    | Some i => mret i
    | None => lift (SelectIdleNode (clusterTopology s) (repeat false (length nodes))
                      (clusterSelector s))
    end
  end.

(** One container of the loop of [DockerOptimizeBindSchedule]; [true] is its
    [return]. *)
Definition bind_one (id : string) : St Affinity bool :=
  p ← docker_at id;
  if optimizeBinded p then mret false else
  if d_le (initialCpuLimit p) d_zero then mret false else
  s ← get;
  let one := oneClusterCpuNum (clusterTopology s) in
  if decide (one = 0) then mret true else
  let clusterCpuNum := if smt then Z.quot one 2 else one in
  need ← lift (d_to_int CUlong (d_ceil (d_div (initialCpuLimit p) (d_of_Z clusterCpuNum))));
  bindNuma ← SelectBindingNuma id;
  x ← numa_at bindNuma;
  if decide (Z.of_nat (length (freeInfoVec x)) < need) then mret true else
  DockerBindClusters id bindNuma (wrap CInt need) ;;
  p ← docker_at id;
  put_docker id (with_lending true (dockerLended p) (lendCpuLimit p) (borrowDockerMap p) p) ;;
  mret false.

Fixpoint bind_all (ids : list string) : St Affinity unit :=
  match ids with
  | [] => mret tt
  | id :: ids => stop ← bind_one id; if (stop : bool) then mret tt else bind_all ids
  end.

Definition DockerOptimizeBindSchedule : St Affinity unit :=
  s ← get; bind_all (hash_order (dom (dockerInfos s))).

(** ** Changing the limit *)

(** The update of the container at the end of both functions. *)
Definition update_limit (id : string) (limit : double) : St Affinity bool :=
  d ← docker_at id;
  cpusetStr ← lift (ConvertCpusetToString (currentCpuSet d));
  put_docker id (with_limit limit d) ;;
  run_commands [cpus_cmd limit id; cpuset_cmd cpusetStr id].

(** The clusters that are added when the last one is not enough. *)
Definition add_clusters (nid need : Z) (addCpuSet : list Z) : St Affinity (list Z * list Z) :=
  s ← get;
  let one := oneClusterCpuNum (clusterTopology s) in
  let sep := if smt then 2 else 1 in
  needClusterNum ← lift (d_to_int CUlong
    (d_ceil (d_div (d_of_Z need) (d_of_Z (Z.quot one sep)))));
  '(begin, used) ← node_flags nid;
  l ← select_clusters nid begin (Z.to_nat needClusterNum) used [];
  refresh_free nid ;;
  cpus ← take_from_clusters l need addCpuSet;
  mret (cpus, l).

(** The processors and clusters that are added: of the last cluster when it has
    enough, or all that it has and more clusters. *)
Definition take_extra (nid clusterId need remain : Z) : St Affinity (list Z * list Z) :=
  if decide (need ≤ remain) then
    cpus ← take_some clusterId (Z.to_nat need) [];
    mret (cpus, [])
  else
    cpus ← take_all clusterId;
    add_clusters nid (need - remain) cpus.

Definition DockerAddCpuLimitComm (id : string) (limit : double) : St Affinity bool :=
  d ← docker_at id;
  nid ← deref (head (currentMemSet d));
  need ← lift (d_to_int CUlong (d_sub (d_ceil (d_add (currentCpuLimit d) limit))
                                      (d_ceil (currentCpuLimit d))));
  clusterId ← deref (list.last (bindClusters d));
  c ← cluster_at clusterId;
  s ← get;
  if decide (oneClusterCpuNum (clusterTopology s) = 0) then mret false else
  let remain := Z.of_nat (length (freeCpuCores c)) in
  '(addCpuSet, addBindCluster) ← take_extra nid clusterId need remain;
  d ← docker_at id;
  put_docker id (with_clusters (bindClusters d ++ addBindCluster)
    (with_sets (currentCpuSet d ++ addCpuSet) (currentMemSet d) d)) ;;
  update_limit id (d_add (currentCpuLimit d) limit).

(** [n] processors of a cluster go back, the last one first. *)
Fixpoint give_cpus (clusterId : Z) (n : nat) (minus : list Z) : St Affinity (list Z) :=
  match n with
  | O => mret minus
  | S n =>
    c ← cluster_at clusterId;
    cpu ← deref (list.last (occupiedCpuCores c));
    put_cluster clusterId (freeCpuCores c ++ [cpu]) (removelast (occupiedCpuCores c)) ;;
    give_cpus clusterId n (minus ++ [cpu])
  end.

(** The [while] loop: clusters that have none left are given up.  Each turn
    gives a processor back or shortens [bindClusters], so
    [n + length bindClusters] turns are enough. *)
Fixpoint give_clusters (id : string) (nid : Z) (fuel : nat) (n : nat) (minus : list Z) :
    St Affinity (list Z) :=
  match n, fuel with
  | O, _ => mret minus
  | _, O => undef
  | S n', S fuel =>
    d ← docker_at id;
    clusterId ← deref (list.last (bindClusters d));
    c ← cluster_at clusterId;
    match list.last (occupiedCpuCores c) with
    | None =>
      x ← numa_at nid;
      put_numa nid (freeInfoVec x ++ [clusterId])
        (filter (λ i, i ≠ clusterId) (occupiedInfoVec x)) ;;
      put_docker id (with_clusters (removelast (bindClusters d)) d) ;;
      give_clusters id nid fuel n minus
    | Some cpu =>
      put_cluster clusterId (freeCpuCores c ++ [cpu]) (removelast (occupiedCpuCores c)) ;;
      give_clusters id nid fuel n' (minus ++ [cpu])
    end
  end.

Definition DockerMinusCpuLimitComm (id : string) (limit : double) : St Affinity bool :=
  d ← docker_at id;
  nid ← deref (head (currentMemSet d));
  need ← lift (d_to_int CUlong (d_sub (d_ceil (currentCpuLimit d))
                                      (d_ceil (d_sub (currentCpuLimit d) limit))));
  clusterId ← deref (list.last (bindClusters d));
  c ← cluster_at clusterId;
  minus ← (if decide (need ≤ Z.of_nat (length (occupiedCpuCores c)))
           then give_cpus clusterId (Z.to_nat need) []
           else give_clusters id nid (Z.to_nat need + length (bindClusters d)) (Z.to_nat need) []);
  d ← docker_at id;
  put_docker id (with_sets (without minus (currentCpuSet d)) (currentMemSet d) d) ;;
  update_limit id (d_sub (currentCpuLimit d) limit).

(** ** Recovering *)

(** The occupied clusters of a node that the container was bound to. *)
Fixpoint free_nodes (nids : list Z) (bound : list Z) : St Affinity unit :=
  match nids with
  | [] => mret tt
  | nid :: nids =>
    x ← numa_at nid;
    put_numa nid (freeInfoVec x ++ filter (λ i, i ∈ bound) (occupiedInfoVec x))
      (without bound (occupiedInfoVec x)) ;;
    free_nodes nids bound
  end.

(** The first loop: every processor is pushed on the free list of its
    cluster. *)
Fixpoint push_free (cpus : list Z) (one : Z) : St Affinity unit :=
  match cpus with
  | [] => mret tt
  | cpu :: cpus =>
    let clusterId := Z.quot cpu one in
    c ← cluster_at clusterId;
    put_cluster clusterId (freeCpuCores c ++ [cpu]) (occupiedCpuCores c) ;;
    push_free cpus one
  end.

(** The second loop, over the keys of [freeCores]: as written it keeps the
    processors that were just freed. *)
Fixpoint keep_freed (one : Z) (ids cpus : list Z) : St Affinity unit :=
  match ids with
  | [] => mret tt
  | clusterId :: ids =>
    c ← cluster_at clusterId;
    put_cluster clusterId (freeCpuCores c) 
      (filter (λ cpu, cpu ∈ cpus ∧ Z.quot cpu one = clusterId) (occupiedCpuCores c)) ;;
    keep_freed one ids cpus
  end.

(** The borrowers give back what they borrowed. *)
Fixpoint return_from (ids : list string) (id : string) : St Affinity unit :=
  match ids with
  | [] => mret tt
  | borrower :: ids =>
    p ← docker_at borrower;
    match borrowDockerMap p !! id with
    | None => mret tt
    | Some limit => DockerMinusCpuLimitComm borrower limit ;; mret tt
    end ;;
    return_from ids id
  end.

Definition RecoverInitialBindStatus (id : string) : St Affinity bool :=
  d ← docker_at id;
  if negb (optimizeBinded d) then mret true else
  cpusetStr ← lift (ConvertCpusetToString (initialCpuSet d));
  memorysetStr ← lift (ConvertCpusetToString (initialMemSet d));
  ok ← run_commands [cpus_cmd (initialCpuLimit d) id; cpuset_cmd cpusetStr id;
                     mems_cmd memorysetStr id];
  if negb ok then mret false else
  free_nodes (currentMemSet d) (bindClusters d) ;;
  s ← get;
  let one := oneClusterCpuNum (clusterTopology s) in
  if decide (one = 0) then mret false else
  push_free (currentCpuSet d) one ;;
  keep_freed one (remove_dups (map (λ cpu, Z.quot cpu one) (currentCpuSet d)))
    (currentCpuSet d) ;;
  s ← get;
  return_from (hash_order (dom (dockerInfos s))) id ;;
  mret true.

(** ** Lending *)

Definition CPU_USAGE_QUEUE_LENGTH : Z := 30.
Definition d_30 : double := d_of_Z CPU_USAGE_QUEUE_LENGTH.

(** The first loop of [TryBorrowCpuFromIdleDocker]. *)
Fixpoint find_lenders (ids : list string) (couldBorrowLimit : double) (l : list string) :
    St Affinity (double * list string) :=
  match ids with
  | [] => mret (couldBorrowLimit, l)
  | id :: ids =>
    p ← docker_at id;
    if dockerLended p || bool_decide (borrowDockerMap p ≠ ∅) then
      find_lenders ids couldBorrowLimit l
    else
    let average := d_div (cpuUsageSum p) d_30 in
    let half := d_mul (d_mul (initialCpuLimit p) (d_of_Z 100)) (d_lit 5 1) in
    if bool_decide (Z.of_nat (length (cpuUsageQueue p)) = CPU_USAGE_QUEUE_LENGTH) &&
       d_le average half then
      let lend := d_min (d_sub (initialCpuLimit p) (d_div average (d_of_Z 100)))
                        (d_mul (initialCpuLimit p) (d_lit 5 1)) in
      put_docker id (with_lending (optimizeBinded p) (dockerLended p) lend (borrowDockerMap p) p) ;;
      find_lenders ids (d_add couldBorrowLimit lend) (l ++ [id])
    else find_lenders ids couldBorrowLimit l
  end.

(** [cpuUsageSum / cpuUsageQueue.size()]. *)
Definition usage (p : DockerResourceInfo) : double :=
  d_div (cpuUsageSum p) (d_of_Z (Z.of_nat (length (cpuUsageQueue p)))).

Fixpoint find_borrowers (ids lenders l : list string) : St Affinity (list string) :=
  match ids with
  | [] => mret l
  | id :: ids =>
    if decide (id ∈ lenders) then find_borrowers ids lenders l else
    p ← docker_at id;
    let busy := d_mul (d_mul (initialCpuLimit p) (d_of_Z 100)) (d_lit 90 2) in
    find_borrowers ids lenders (if d_le busy (usage p) then l ++ [id] else l)
  end.

(** [dockerInfos[dockerId].borrowDockerMap[lender] = ...] for every lender. *)
Fixpoint note_borrowed (id : string) (lenders : list string) (n : Z) : St Affinity unit :=
  match lenders with
  | [] => mret tt
  | lender :: lenders =>
    x ← docker_at lender;
    d ← docker_at id;
    put_docker id (with_lending (optimizeBinded d) (dockerLended d) (lendCpuLimit d)
      (<[lender := d_div (lendCpuLimit x) (d_of_Z n)]> (borrowDockerMap d)) d) ;;
    note_borrowed id lenders n
  end.

Definition set_lended (b : bool) (id : string) : St Affinity unit :=
  d ← docker_at id;
  put_docker id (with_lending (optimizeBinded d) b (lendCpuLimit d) (borrowDockerMap d) d).

Definition TryBorrowCpuFromIdleDocker : St Affinity unit :=
  s ← get;
  let ids := hash_order (dom (dockerInfos s)) in
  '(couldBorrowLimit, couldLendDockers) ← find_lenders ids d_zero [];
  if d_lt couldBorrowLimit (d_lit 1 2) then mret tt else
  needBorrowDockers ← find_borrowers ids couldLendDockers [];
  match needBorrowDockers with
  | [] => mret tt
  | _ =>
    let n := Z.of_nat (length needBorrowDockers) in
    let borrowLimitPerDocker := d_div couldBorrowLimit (d_of_Z n) in
    for_each needBorrowDockers (λ id,
      DockerAddCpuLimitComm id borrowLimitPerDocker ;;
      note_borrowed id couldLendDockers n) ;;
    for_each couldLendDockers (λ id,
      d ← docker_at id;
      ok ← DockerMinusCpuLimitComm id (lendCpuLimit d);
      if (ok : bool) then set_lended true id else mret tt)
  end.

Fixpoint find_returners (ids l : list string) : St Affinity (list string) :=
  match ids with
  | [] => mret l
  | id :: ids =>
    p ← docker_at id;
    let busy := d_mul (d_mul (currentCpuLimit p) (d_of_Z 100)) (d_lit 95 2) in
    find_returners ids (if dockerLended p && d_le busy (usage p) then l ++ [id] else l)
  end.

(** What every container gives back to [lender], added up in [m]. *)
Fixpoint collect_returns (lender : string) (ids : list string) (m : gmap string double) :
    St Affinity (gmap string double) :=
  match ids with
  | [] => mret m
  | id :: ids =>
    p ← docker_at id;
    match borrowDockerMap p !! lender with
    | None => collect_returns lender ids m
    | Some x =>
      put_docker id (with_lending (optimizeBinded p) (dockerLended p) (lendCpuLimit p)
        (delete lender (borrowDockerMap p)) p) ;;
      collect_returns lender ids (<[id := d_add (default d_zero (m !! id)) x]> m)
    end
  end.
Fixpoint collect_all (lenders ids : list string) (m : gmap string double) :
    St Affinity (gmap string double) :=
  match lenders with
  | [] => mret m
  | lender :: lenders => m ← collect_returns lender ids m; collect_all lenders ids m
  end.

Definition TryReturnCpuToIdleDocker : St Affinity unit :=
  s ← get;
  let ids := hash_order (dom (dockerInfos s)) in
  needReturnDocker ← find_returners ids [];
  match needReturnDocker with
  | [] => mret tt
  | _ =>
    returnDockerCpus ← collect_all needReturnDocker ids ∅;
    for_each needReturnDocker (λ id,
      d ← docker_at id;
      DockerAddCpuLimitComm id (lendCpuLimit d) ;;
      set_lended false id) ;;
    for_each (hash_order (dom returnDockerCpus)) (λ id,
      DockerMinusCpuLimitComm id (default d_zero (returnDockerCpus !! id)) ;; mret tt)
  end.

(** ** The interface *)

Definition Tune : St Affinity unit :=
  DockerOptimizeBindSchedule ;;
  s ← get;
  if dockerBorrowSwitch s
  then TryBorrowCpuFromIdleDocker ;; TryReturnCpuToIdleDocker else mret tt.

(** What a container's entry is when it is first seen. *)
Definition init_docker (c : Container) (d : DockerResourceInfo) : St Affinity DockerResourceInfo :=
  limit ← (if decide (0 < cfs_period_us c)
           then if decide (in_range CLlong (Z.quot (cfs_quota_us c) (cfs_period_us c)))
                then mret (d_of_Z (Z.quot (cfs_quota_us c) (cfs_period_us c))) else undef
           else mret d_zero);
  cpus ← lift (TransformStrToVec (bytes_of (co_cpus c)));
  mems ← lift (TransformStrToVec (bytes_of (co_mems c)));
  mret (mkDocker true false false (co_id c) (cpuUsageQueue d) d_zero (cpuCores d) cpus mems
          cpus mems (borrowDockerMap d) limit d_zero limit (bindClusters d)).

(** The usage since the last update is added to the window of thirty. *)
Definition count_usage (cpus : Z) (pre c : Container) (d : DockerResourceInfo) :
    outcome DockerResourceInfo :=
  if decide (¬ in_range CLlong (co_cpu_usage c - co_cpu_usage pre)) then Undef else
  let dockerCpuUsedNs := wrap CUlong (co_cpu_usage c - co_cpu_usage pre) in
  let systemCpuUsedNs :=
    wrap CUlong ((co_system_cpu_usage c - co_system_cpu_usage pre) * 10000000) in
  let cpuUtilization :=
    d_mul (d_mul (d_div (d_of_Z dockerCpuUsedNs) (d_of_Z systemCpuUsedNs)) (d_of_Z cpus))
      (d_of_Z 100) in
  let q := cpuUsageQueue d ++ [cpuUtilization] in
  let sum := d_add (cpuUsageSum d) cpuUtilization in
  let '(q, sum) := match q with
                   | x :: q' => if decide (CPU_USAGE_QUEUE_LENGTH < Z.of_nat (length q))
                                then (q', d_sub sum x) else (q, sum)
                   | [] => (q, sum)
                   end in
  match d_to_int CInt (d_ceil (d_div cpuUtilization (d_of_Z 100))) with
  | Ret n => Ret (with_usage q sum (Z.max 1 n) d)
  | Throw e => Throw e
  | Undef => Undef
  end.

Definition update_one (collector : gmap string Container) (id : string) : St Affinity unit :=
  s ← get;
  match collectorPre s !! id, collector !! id with
  | Some pre, Some c =>
    d ← docker_at id;
    d ← (if dk_inited d then mret d else init_docker c d);
    d ← lift (count_usage (systemCpuCount s) pre c d);
    put_docker id d
  | _, _ => mret tt
  end.

(** [Update] with the collector's containers; of two with one id the later
    counts. *)
Definition Update (datalist : list Container) : St Affinity unit :=
  let collector := list_to_map (reverse (map (λ c, (co_id c, c)) datalist)) in
  s ← get;
  if isFirstUpdate s then modify (set_collector false collector) else
  for_each (hash_order (dom (dockerInfos s))) (λ id,
    match collector !! id : option Container with
    | Some _ => mret tt
    | None => RecoverInitialBindStatus id ;;
              modify (λ s, set_dockers (delete id (dockerInfos s)) s)
    end) ;;
  for_each (hash_order (dom (collector : gmap string Container))) (update_one collector) ;;
  modify (set_collector false collector).

(** The two topics of [UpdateData]. *)
Definition UpdateL3c (counts : list Z) (stats : gmap Z CpuStats) : St Affinity unit :=
  s ← get;
  x ← lift (SelectorUpdate counts stats (clusterSelector s));
  modify (set_selector (isSelectorInited s) x).

Definition Exit : St Affinity unit :=
  s ← get;
  for_each (hash_order (dom (dockerInfos s))) (λ id, RecoverInitialBindStatus id ;; mret tt) ;;
  modify (λ s, set_collector true ∅ (set_dockers ∅ (set_clusters ∅ (set_numas ∅ s)))).

(** The processors of one cluster: with SMT every second one is free. *)
Fixpoint every_second (l : list Z) : list Z :=
  match l with
  | x :: _ :: l => x :: every_second l
  | l => l
  end.

Definition init_cluster (i one j : Z) (cpus : list Z) : St Affinity unit :=
  let part := take (Z.to_nat one) (drop (Z.to_nat (j * one)) cpus) in
  first ← deref (head part);
  let clusterId := Z.quot first one in
  let free := if smt then every_second part else part in
  modify (λ s, set_clusters
    (<[clusterId := mkCluster clusterId (without free part) free []]> (systemClusterInfo s)) s) ;;
  x ← numa_at i;
  put_numa i (freeInfoVec x ++ [clusterId]) (occupiedInfoVec x).

Definition init_node (one : Z) (x : Z * list Z) : St Affinity unit :=
  let '(i, cpus) := x in
  n ← numa_at i;
  modify (λ s, set_numas (<[i := mkNuma i (freeInfoVec n) (occupiedInfoVec n)]>
    (numaClusterInfo s)) s) ;;
  for_each (seqZ 0 (Z.quot (Z.of_nat (length cpus)) one)) (λ j, init_cluster i one j cpus).

Definition InitSystemClusters : St Affinity bool :=
  s ← get;
  let one := oneClusterCpuNum (clusterTopology s) in
  if decide (one = 0) then mret false else
  for_each (numbered (cpuTopology (clusterTopology s))) (init_node one) ;;
  mret true.

(** [names] and [mask]: the devices whose name holds "l3c". *)
Definition Init (names : list string) (mask : string → option Z) : St Affinity bool :=
  ok ← InitSystemClusters;
  if negb ok then mret false else
  s ← get;
  if isSystemOfflineCpu (clusterTopology s) then mret false else
  if isSelectorInited s then mret true else
  '(ok, x) ← lift (SelectorInit (clusterTopology s) names mask (clusterSelector s));
  modify (set_selector ok x) ;;
  mret ok.

(** The configuration: [None] when the file does not exist, [Some None] when it
    is no YAML. *)
Definition ReadConfig `{YamlConversions} (file : option (option Node)) : St Affinity bool :=
  match file with
  | None | Some None => mret false
  | Some (Some node) =>
    match node_at node "docker_borrow_switch" with
    | None => mret false
    | Some v =>
      if negb (IsDefined v) then mret true else
      match as_string v with
      | None => mret false
      | Some switchStr =>
        modify (set_switch (bool_decide (switchStr = "on"%string))) ;; mret true
      end
    end
  end.

(** [Enable] up to the subscriptions that follow a success. *)
Definition Enable `{YamlConversions} (file : option (option Node)) (names : list string)
    (mask : string → option Z) : St Affinity bool :=
  ok ← ReadConfig file;
  if negb ok then mret false else Init names mask.
End affinity.
