(* ===== verification/ClusterTheorems.v ===== *)
(** * The properties of the placement of containers *)

From Stdlib Require Import ZArith Lia Strings.Byte.
From stdpp Require Import base list strings gmap numbers.
From S2P Require Import Prelude Bytes StdString Utils Doubles ClusterSelector.
From S2P Require Import Config Daemon ClusterAffinity.

(** ** Lists of processors as text *)

Section cpusets.
Lemma TransformStrToVec_ParseRange tokens acc :
  TransformStrToVec_loop tokens acc = ParseRange_loop tokens acc.
Proof.
  revert acc. induction tokens as [|r tokens IH]; intros acc; [done|].
  cbn [TransformStrToVec_loop ParseRange_loop]. unfold first_last.
  destruct (find_byte dash r) as [p|].
  - destruct (stoi (take p r)); [|done..]. destruct (stoi (drop (p + 1) r)); [|done..].
    destruct (int_range _ _); [apply IH|done..].
  - destruct (stoi r); [apply IH|done..].
Qed.

Lemma parse_items items acc :
  Forall item_ok items →
  TransformStrToVec_loop (map print_item items) acc = Ret (acc ++ concat (map item_values items)).
Proof.
  rewrite TransformStrToVec_ParseRange. intros H. revert acc.
  induction H as [|i l Hi Hl IH]; intros acc; simpl map; simpl concat.
  - by rewrite app_nil_r.
  - rewrite ParseRange_loop_item by done. by rewrite IH, app_assoc.
Qed.

(** The run from [start] to [end_] as an item of a list of ranges. *)
Definition run_item (start end_ : Z) : range_item :=
  if decide (start = end_) then Single start else Range start end_.

Lemma run_item_ok start end_ : 0 ≤ start ≤ end_ → end_ < 2147483647 → item_ok (run_item start end_).
Proof. unfold run_item. case_decide; simpl; lia. Qed.

Lemma run_item_values start end_ :
  start ≤ end_ → item_values (run_item start end_) = seqZ start (end_ - start + 1).
Proof.
  intros Hle. unfold run_item. case_decide as E; [|done]. subst end_. simpl.
  replace (start - start + 1) with 1 by lia. unfold seqZ. done.
Qed.

Lemma convert_loop_items nums start end_ result :
  0 ≤ start ≤ end_ → end_ < 2147483647 → Forall (λ n, 0 ≤ n < 2147483647) nums →
  ∃ items, items ≠ [] ∧ Forall item_ok items ∧
    convert_loop nums start end_ result = Ret (result ++ print_range items) ∧
    concat (map item_values items) = seqZ start (end_ - start + 1) ++ nums.
Proof.
  revert start end_ result. induction nums as [|n nums IH]; intros start end_ result Hs He Hn.
  { exists [run_item start end_]. split; [done|]. split; [by constructor; [apply run_item_ok|]|].
    simpl. rewrite run_item_values by lia. split; [|done].
    unfold run_item. by case_decide. }
  apply list.Forall_cons in Hn as [Hn Hnums]. cbn [convert_loop].
  rewrite decide_False by lia. destruct (decide (n = end_ + 1)) as [->|Hne].
  - destruct (IH start (end_ + 1) result) as (items & ? & ? & -> & E); [lia|lia|done|].
    exists items. split_and!; [done..|]. rewrite E.
    replace (end_ + 1 - start + 1) with ((end_ - start + 1) + 1) by lia.
    rewrite seqZ_app by lia. rewrite <-app_assoc. do 2 f_equal.
    unfold seqZ. simpl. f_equal; lia.
  - destruct (IH n n (result ++ (if decide (start = end_) then to_string start
      else to_string start ++ dash :: to_string end_) ++ [comma])) as (items & Hne' & Hok & -> & E);
      [lia|lia|done|].
    exists (run_item start end_ :: items). split; [done|]. split.
    { constructor; [by apply run_item_ok|done]. }
    destruct items as [|i items]; [done|]. split.
    + f_equal. rewrite <-!app_assoc. f_equal.
      change (print_range (run_item start end_ :: i :: items))
        with (print_item (run_item start end_) ++ comma :: print_range (i :: items)).
      unfold run_item. by case_decide.
    + cbn [map concat] in *. rewrite E, run_item_values by lia. f_equal.
      replace (n - n + 1) with 1 by lia. unfold seqZ. simpl. do 2 f_equal; lia.
Qed.

Lemma ConvertCpusetToString_items nums :
  Forall (λ n, 0 ≤ n < 2147483647) nums →
  ∃ items, Forall item_ok items ∧ ConvertCpusetToString nums = Ret (print_range items) ∧
    concat (map item_values items) = nums.
Proof.
  destruct nums as [|n nums]; intros Hn; [by exists []|].
  apply list.Forall_cons in Hn as [Hn Hnums].
  destruct (convert_loop_items nums n n []) as (items & _ & Hok & E & Ev); [lia|lia|done|].
  exists items. split; [done|]. split; [exact E|]. rewrite Ev.
  replace (n - n + 1) with 1 by lia. unfold seqZ. simpl. f_equal; lia.
Qed.
End cpusets.

(** A list of processors written for a docker command reads back as it was:
    [TransformStrToVec] inverts [ConvertCpusetToString] on every list, in the
    same order and with its repetitions. *)
Theorem ConvertCpusetToString_roundtrip nums :
  Forall (λ n, 0 ≤ n < 2147483647) nums →
  ∃ text, ConvertCpusetToString nums = Ret text ∧ TransformStrToVec text = Ret nums.
Proof.
  intros Hn. destruct (ConvertCpusetToString_items nums Hn) as (items & Hok & E & Ev).
  exists (print_range items). split; [done|]. unfold TransformStrToVec.
  by rewrite getline_print_range, parse_items, Ev.
Qed.

Lemma ConvertCpusetToString_roundtrip_witness :
  ∃ text, ConvertCpusetToString [4; 5; 6; 2; 9; 9] = Ret text ∧
    TransformStrToVec text = Ret [4; 5; 6; 2; 9; 9].
Proof. apply (ConvertCpusetToString_roundtrip [4; 5; 6; 2; 9; 9]). repeat constructor; lia. Defined.

(** ** The selectors *)

(** Every processor has idle time, and no count has reached the sentinel. *)
Definition selector_ok (s : Selector) : Prop :=
  (∀ cpu, d_lt (cpu_load s cpu) (d_of_Z 100) = true) ∧
  (∀ cluster, 0 ≤ l3c_sum s cluster < UINT64_MAX).

Section selectors.
Lemma numbered_snoc {A} (l : list A) x : numbered (l ++ [x]) = numbered l ++ [(Z.of_nat (length l), x)].
Proof. unfold numbered. rewrite imap_app. simpl. by rewrite Nat.add_0_r. Qed.

Lemma lookup_snoc_false (l : list bool) u i :
  (l ++ [u]) !! i = Some false ↔ l !! i = Some false ∨ (i = length l ∧ u = false).
Proof.
  rewrite lookup_app. destruct (l !! i) as [b|] eqn:E.
  - apply lookup_lt_Some in E as ?. naive_solver lia.
  - apply lookup_ge_None in E. split.
    + intros H. right. destruct (decide (i = length l)) as [->|Hne].
      * rewrite Nat.sub_diag in H. simpl in H. by injection H as ->.
      * apply lookup_lt_Some in H. simpl in H. lia.
    + intros [?|[-> ->]]; [done|]. by rewrite Nat.sub_diag.
Qed.

Lemma pick_cpu_spec s start used :
  selector_ok s →
  let r := foldl (pick_cpu s start) (d_of_Z 100, start) (numbered used) in
  (r = (d_of_Z 100, start) ∧ ∀ i, used !! i ≠ Some false) ∨
  (∃ i : nat, used !! i = Some false ∧ r.2 = start + Z.of_nat i).
Proof.
  intros [Hl _]. induction used as [|u used IH] using rev_ind; [by left|].
  cbv zeta in *. rewrite numbered_snoc, foldl_snoc.
  setoid_rewrite lookup_snoc_false. destruct (foldl _ _ _) as [m sel]. unfold pick_cpu. simpl in *.
  destruct u; simpl.
  - destruct IH as [[-> Hn]|(i & Hi & E)]; [left|right].
    + split; [done|]. intros i [?|[_ ?]]; [by eapply Hn|done].
    + exists i. naive_solver.
  - right. destruct IH as [[[= -> ->] Hn]|(i & Hi & E)].
    + rewrite Hl. exists (length used). naive_solver.
    + destruct (d_lt _ m); [exists (length used); naive_solver|exists i; naive_solver].
Qed.

Lemma pick_cluster_spec s begin end_ used :
  selector_ok s → (∀ j : nat, (j < length used)%nat → 0 ≤ begin + Z.of_nat j ≤ end_) →
  end_ < 2147483648 →
  let r := foldl (pick_cluster s begin end_) (UINT64_MAX, -1) (numbered used) in
  (r = (UINT64_MAX, -1) ∧ ∀ i, used !! i ≠ Some false) ∨
  (∃ i : nat, used !! i = Some false ∧ r.2 = begin + Z.of_nat i).
Proof.
  intros [_ Hl]. induction used as [|u used IH] using rev_ind; [by left|].
  intros Hj He. cbv zeta in *. rewrite numbered_snoc, foldl_snoc.
  setoid_rewrite lookup_snoc_false.
  destruct (Hj (length used)) as [H0 H1]; [rewrite length_app; simpl; lia|].
  specialize (IH ltac:(intros j ?; apply Hj; rewrite length_app; lia) He).
  destruct (foldl _ _ _) as [m sel]. unfold pick_cluster. simpl in *.
  rewrite (wrap_id CUint) by (apply in_range_uint; lia).
  rewrite (decide_False (P := end_ < _)) by lia.
  rewrite (wrap_id CInt) by (apply in_range_int; lia).
  destruct u; simpl.
  - rewrite decide_False by (by intros []). destruct IH as [[-> Hn]|(i & Hi & E)]; [left|right].
    + split; [done|]. intros i [?|[_ ?]]; [by eapply Hn|done].
    + exists i. naive_solver.
  - right. destruct IH as [[[= -> ->] Hn]|(i & Hi & E)].
    + rewrite decide_True by (split; [apply Hl|done]). exists (length used). naive_solver.
    + case_decide; [exists (length used); naive_solver|exists i; naive_solver].
Qed.
End selectors.

(** ** Lists *)

Section lists.
Lemma elem_of_without l x n : n ∈ without l x ↔ n ∈ x ∧ n ∉ l.
Proof. unfold without. rewrite list_elem_of_filter. naive_solver. Qed.

Lemma without_perm (l x : list Z) :
  NoDup l → NoDup x → l ⊆ x → x ≡ₚ l ++ without l x.
Proof.
  intros Hl Hx Hs. apply NoDup_Permutation; [done| |].
  - apply list.NoDup_app. split_and!; [done| |by apply list.NoDup_filter].
    intros n ? [_ ?]%elem_of_without. done.
  - intros n. rewrite elem_of_app, elem_of_without.
    destruct (decide (n ∈ l)); naive_solver.
Qed.

Lemma without_disjoint (l x : list Z) : (∀ n, n ∈ l → n ∉ x) → without l x = x.
Proof.
  intros H. unfold without. induction x as [|n x IH]; [done|].
  rewrite filter_cons_True by (intros Hn; apply (H n Hn); left).
  f_equal. apply IH. intros m Hm Hx. apply (H m Hm). by right.
Qed.

Lemma without_app (l1 l2 x : list Z) :
  (∀ n, n ∈ l1 → n ∉ x) → without (l1 ++ l2) x = without l2 x.
Proof.
  intros H. unfold without. induction x as [|n x IH]; [done|].
  rewrite !filter_cons, IH by (intros m Hm Hx; apply (H m Hm); by right).
  assert (n ∉ l1) by (intros Hn; apply (H n Hn); left).
  destruct (decide (n ∈ l2)).
  - rewrite !decide_False; [done|set_solver..].
  - rewrite !decide_True; [done|set_solver..].
Qed.

Lemma every_second_sublist l : every_second l `sublist_of` l.
Proof.
  enough (∀ n l, (length l ≤ n)%nat → every_second l `sublist_of` l) as H by by eapply H.
  clear l. induction n as [|n IH]; intros [|x [|y l]] Hl; simpl in *; try lia; try done.
  apply sublist_skip, sublist_cons, IH. lia.
Qed.

Lemma removelast_snoc {A} (l : list A) x : removelast (l ++ [x]) = l.
Proof. apply removelast_last. Qed.
End lists.

(** ** Flags of free processors or clusters *)

(** [used] has a flag for each of the [n] numbers from [start], and it is
    [false] for those in [free]. *)
Definition flags (used : list bool) (start n : Z) (free : list Z) : Prop :=
  Z.of_nat (length used) = n ∧
  ∀ i, 0 ≤ i < n → used !! Z.to_nat i = Some (bool_decide (start + i ∉ free)).

Section flags.
Lemma repeat_replicate {A} (x : A) n : repeat x n = replicate n x.
Proof. by induction n as [|n IH]; simpl; [|rewrite IH]. Qed.

Lemma set_used_run i b used :
  0 ≤ i < Z.of_nat (length used) → set_used i b used = Ret (<[Z.to_nat i := b]> used).
Proof. intros. unfold set_used. by rewrite decide_True. Qed.

Lemma flags_set_true used start n free x :
  flags used start n free → start ≤ x < start + n →
  ∃ used', set_used (x - start) true used = Ret used' ∧ flags used' start n (without [x] free).
Proof.
  intros [Hn Hf] Hx. eexists. split; [apply set_used_run; lia|].
  split; [by rewrite length_insert|]. intros i Hi.
  destruct (decide (i = x - start)) as [->|Hne].
  - rewrite list_lookup_insert_eq by lia. f_equal. symmetry. apply bool_decide_eq_true.
    rewrite elem_of_without. replace (start + (x - start)) with x by lia. set_solver.
  - rewrite list_lookup_insert_ne by lia. rewrite Hf by done. f_equal.
    apply bool_decide_ext. rewrite elem_of_without.
    split; [naive_solver|]. intros H ?. apply H. split; [done|].
    rewrite list_elem_of_singleton. lia.
Qed.

(** The vector with all flags set, then cleared for the members of [free]. *)
Lemma set_all_false start n free :
  0 ≤ n → (∀ x, x ∈ free → start ≤ x < start + n) →
  ∃ used, set_all_used (map (λ x, x - start) free) false (repeat true (Z.to_nat n)) = Ret used ∧
    flags used start n free.
Proof.
  intros Hn Hr.
  assert (∀ l used done, flags used start n done → (∀ x, x ∈ l → start ≤ x < start + n) →
    ∃ used', set_all_used (map (λ x, x - start) l) false used = Ret used' ∧
      flags used' start n (done ++ l)) as H.
  { induction l as [|x l IH]; intros used dn Hf Hl; simpl.
    { exists used. by rewrite app_nil_r. }
    rewrite set_used_run by (destruct Hf as [-> _]; specialize (Hl x); set_solver by lia).
    destruct (IH (<[Z.to_nat (x - start) := false]> used) (dn ++ [x])) as (u & E & Hu).
    - destruct Hf as [Hlen Hf]. assert (start ≤ x < start + n) by (apply Hl; left).
      split; [by rewrite length_insert|]. intros i Hi.
      destruct (decide (i = x - start)) as [->|Hne].
      + rewrite list_lookup_insert_eq by lia. f_equal. symmetry. apply bool_decide_eq_false.
        replace (start + (x - start)) with x by lia. intros Hx. apply Hx. set_solver.
      + rewrite list_lookup_insert_ne by lia. rewrite Hf by done. f_equal.
        apply bool_decide_ext. rewrite elem_of_app, list_elem_of_singleton.
        split; [|naive_solver]. intros Hi2 [?|?]; [done|lia].
    - intros y ?. apply Hl. by right.
    - exists u. split; [done|]. by rewrite <-app_assoc in Hu. }
  destruct (H free (repeat true (Z.to_nat n)) []) as (u & E & Hu); [|done|by exists u].
  rewrite repeat_replicate. split; [rewrite length_replicate; lia|]. intros i Hi.
  by rewrite lookup_replicate_2 by lia.
Qed.

(** All flags cleared, then set for the members of [busy]. *)
Lemma set_all_true start n busy free :
  0 ≤ n → (∀ x, x ∈ busy → start ≤ x < start + n) →
  (∀ x, start ≤ x < start + n → x ∈ free ↔ x ∉ busy) →
  ∃ used, set_all_used (map (λ x, x - start) busy) true (repeat false (Z.to_nat n)) = Ret used ∧
    flags used start n free.
Proof.
  intros Hn Hr Hfree.
  assert (∀ l used rem, flags used start n rem → (∀ x, x ∈ l → start ≤ x < start + n) →
    ∃ used', set_all_used (map (λ x, x - start) l) true used = Ret used' ∧
      flags used' start n (without l rem)) as H.
  { induction l as [|x l IH]; intros used rem Hf Hl; simpl.
    { exists used. split; [done|]. by rewrite without_disjoint by set_solver. }
    destruct (flags_set_true used start n rem x Hf) as (u & -> & Hu); [apply Hl; left|].
    destruct (IH u (without [x] rem) Hu) as (u' & E & Hu'); [intros y ?; apply Hl; by right|].
    exists u'. split; [done|]. destruct Hu' as [Hlen Hu']. split; [done|].
    intros i Hi. rewrite Hu' by done. f_equal. apply bool_decide_ext.
    rewrite !elem_of_without. set_solver. }
  destruct (H busy (repeat false (Z.to_nat n)) (seqZ start n)) as (u & E & Hlen & Hu); [|done|].
  { rewrite repeat_replicate. split; [rewrite length_replicate; lia|]. intros i Hi.
    rewrite lookup_replicate_2 by lia. f_equal. symmetry. apply bool_decide_eq_false.
    rewrite elem_of_seqZ. lia. }
  exists u. split; [done|]. split; [done|]. intros i Hi. rewrite Hu by done. f_equal.
  apply bool_decide_ext. rewrite elem_of_without, elem_of_seqZ, Hfree by lia. naive_solver lia.
Qed.
End flags.

(** ** A machine with uniform nodes and clusters *)

Section machine.
Context `{SH : Shell} `{HO : HashOrder}.
Context (smt : bool) (nodes k one : Z).

(** [nodes] nodes of [k] clusters of [one] processors, numbered in order. *)
Definition topo_ok (t : Topology) : Prop :=
  0 < nodes ∧ 0 < k ∧ 0 < one ∧ nodes * k * one < 2147483648 ∧
  oneClusterCpuNum t = one ∧ numaNodeNum t = nodes ∧ clusterNum t = nodes * k ∧
  ∀ nid, 0 ≤ nid < nodes →
    cpuTopology t !! Z.to_nat nid = Some (seqZ (nid * k * one) (k * one)).

(** The processors of a cluster that are handed out. *)
Definition usable (cl : Z) : list Z :=
  let l := seqZ (cl * one) one in if smt then every_second l else l.

Lemma usable_range cl x : x ∈ usable cl → cl * one ≤ x < cl * one + one.
Proof.
  unfold usable. intros Hx. assert (x ∈ seqZ (cl * one) one) as H; [|by apply elem_of_seqZ in H; lia].
  destruct smt; [|done]. eapply sublist_subseteq; [apply every_second_sublist|done].
Qed.

Lemma usable_NoDup cl : NoDup (usable cl).
Proof.
  unfold usable. destruct smt; [|apply NoDup_seqZ].
  eapply sublist_NoDup; [|apply every_second_sublist]. apply NoDup_seqZ.
Qed.

Definition cluster_ok (cl : Z) (c : Cluster) : Prop :=
  freeCpuCores c ++ occupiedCpuCores c ≡ₚ usable cl.

Definition numa_ok (nid : Z) (x : NumaClusterInfo) : Prop :=
  freeInfoVec x ++ occupiedInfoVec x ≡ₚ seqZ (nid * k) k.

(** The tables account for every cluster and every processor once, and a free
    cluster has no occupied processor. *)
Definition pool_ok (s : Affinity) : Prop :=
  topo_ok (clusterTopology s) ∧ selector_ok (clusterSelector s) ∧
  (∀ nid, 0 ≤ nid < nodes → ∃ x, numaClusterInfo s !! nid = Some x ∧ numa_ok nid x) ∧
  (∀ cl, 0 ≤ cl < nodes * k → ∃ c, systemClusterInfo s !! cl = Some c ∧ cluster_ok cl c) ∧
  (∀ nid x cl c, 0 ≤ nid < nodes → numaClusterInfo s !! nid = Some x → cl ∈ freeInfoVec x →
     systemClusterInfo s !! cl = Some c → occupiedCpuCores c = []).

Lemma cluster_ok_NoDup cl c : cluster_ok cl c →
  NoDup (freeCpuCores c) ∧ NoDup (occupiedCpuCores c) ∧
  (∀ x, x ∈ freeCpuCores c → x ∉ occupiedCpuCores c) ∧
  (∀ x, x ∈ freeCpuCores c ∨ x ∈ occupiedCpuCores c → cl * one ≤ x < cl * one + one).
Proof.
  unfold cluster_ok. intros H. pose proof (usable_NoDup cl) as Hn. rewrite <-H in Hn.
  apply list.NoDup_app in Hn as (? & ? & ?). split_and!; try done.
  intros x Hx. apply usable_range. rewrite <-H. by apply elem_of_app.
Qed.

Lemma SelectIdleCpu_free t s cl used free :
  topo_ok t → selector_ok s → 0 ≤ cl < nodes * k → flags used (cl * one) one free →
  (∀ x, x ∈ free → cl * one ≤ x < cl * one + one) → free ≠ [] →
  SelectIdleCpuFromCluster t cl used s ∈ free.
Proof.
  intros (? & ? & Hone & Hmax & E1 & _) Hs Hcl [Hlen Hf] Hr Hne.
  unfold SelectIdleCpuFromCluster. rewrite E1, (wrap_id CInt) by (apply in_range_int; nia).
  destruct (pick_cpu_spec s (cl * one) used Hs) as [[_ Hn]|(i & Hi & ->)].
  - destruct free as [|x free]; [done|]. exfalso.
    assert (cl * one ≤ x < cl * one + one) by (apply Hr; left).
    apply (Hn (Z.to_nat (x - cl * one))). rewrite Hf by lia. f_equal.
    apply bool_decide_eq_false. replace (cl * one + (x - cl * one)) with x by lia.
    intros Hx. apply Hx. left.
  - apply lookup_lt_Some in Hi as Hlt. specialize (Hf (Z.of_nat i) ltac:(lia)).
    rewrite Nat2Z.id, Hi in Hf. injection Hf as Hf. symmetry in Hf.
    apply bool_decide_eq_false in Hf. by apply dec_stable.
Qed.

Lemma SelectIdleCluster_free t s nid used free :
  topo_ok t → selector_ok s → 0 ≤ nid < nodes → flags used (nid * k) k free →
  (∀ x, x ∈ free → nid * k ≤ x < nid * k + k) → free ≠ [] →
  SelectIdleCluster t nid used s ∈ free.
Proof.
  intros (? & ? & Hone & Hmax & E1 & E2 & E3 & _) Hs Hcl [Hlen Hf] Hr Hne.
  unfold SelectIdleCluster. rewrite E2, E3, decide_False, decide_False by lia.
  rewrite (Z.mul_comm nodes k), Z.quot_mul by lia.
  assert (nid * k + k ≤ nodes * k ∧ nodes * k ≤ nodes * k * one ∧ 0 ≤ nid * k) as (? & ? & ?) by nia.
  rewrite (wrap_id CUint k) by (apply in_range_uint; lia). rewrite (Z.mul_comm k nid).
  rewrite (wrap_id CUint (nid * k)) by (apply in_range_uint; lia).
  rewrite (wrap_id CUint (nid * k + k - 1)) by (apply in_range_uint; lia).
  destruct (pick_cluster_spec s (nid * k) (nid * k + k - 1) used Hs) as [[_ Hn]|(i & Hi & ->)].
  - intros j Hj. lia.
  - lia.
  - destruct free as [|x free]; [done|]. exfalso.
    assert (nid * k ≤ x < nid * k + k) by (apply Hr; left).
    apply (Hn (Z.to_nat (x - nid * k))). rewrite Hf by lia. f_equal.
    apply bool_decide_eq_false. replace (nid * k + (x - nid * k)) with x by lia.
    intros Hx. apply Hx. left.
  - apply lookup_lt_Some in Hi as Hlt. specialize (Hf (Z.of_nat i) ltac:(lia)).
    rewrite Nat2Z.id, Hi in Hf. injection Hf as Hf. symmetry in Hf.
    apply bool_decide_eq_false in Hf. by apply dec_stable.
Qed.

(** *** One cluster *)

Definition with_cores (c : Cluster) (free occupied : list Z) : Cluster :=
  mkCluster (cl_id c) (logicalCpuCores c) free occupied.

Lemma set_clusters_id s : set_clusters (systemClusterInfo s) s = s.
Proof. by destruct s. Qed.
Lemma set_clusters_insert_id s cl c :
  systemClusterInfo s !! cl = Some c → set_clusters (<[cl := c]> (systemClusterInfo s)) s = s.
Proof. intros H. rewrite insert_id by done. apply set_clusters_id. Qed.
Lemma set_numas_insert_id s nid x :
  numaClusterInfo s !! nid = Some x → set_numas (<[nid := x]> (numaClusterInfo s)) s = s.
Proof. intros H. rewrite insert_id by done. by destruct s. Qed.

Lemma cluster_at_run cl c s : systemClusterInfo s !! cl = Some c → cluster_at cl s = Ret (c, s).
Proof. intros H. unfold cluster_at. rewrite run_bind. simpl. by rewrite H. Qed.
Lemma numa_at_run nid x s : numaClusterInfo s !! nid = Some x → numa_at nid s = Ret (x, s).
Proof. intros H. unfold numa_at. rewrite run_bind. simpl. by rewrite H. Qed.
Lemma docker_at_run id d s : dockerInfos s !! id = Some d → docker_at id s = Ret (d, s).
Proof. intros H. unfold docker_at. rewrite run_bind. simpl. by rewrite H. Qed.
Lemma put_cluster_run cl c f o s : systemClusterInfo s !! cl = Some c →
  put_cluster cl f o s = Ret (tt, set_clusters (<[cl := with_cores c f o]> (systemClusterInfo s)) s).
Proof. intros H. unfold put_cluster. by rewrite run_bind, (cluster_at_run cl c s H). Qed.
Lemma put_numa_run nid x f o s : numaClusterInfo s !! nid = Some x →
  put_numa nid f o s = Ret (tt, set_numas (<[nid := mkNuma (numaId x) f o]> (numaClusterInfo s)) s).
Proof. intros H. unfold put_numa. by rewrite run_bind, (numa_at_run nid x s H). Qed.

Lemma take_cpus_run cl n used taken free s c :
  topo_ok (clusterTopology s) → selector_ok (clusterSelector s) → 0 ≤ cl < nodes * k →
  systemClusterInfo s !! cl = Some c → flags used (cl * one) one free → NoDup free →
  (∀ x, x ∈ free → cl * one ≤ x < cl * one + one) → (n ≤ length free)%nat →
  ∃ l, NoDup l ∧ l ⊆ free ∧ length l = n ∧
    take_cpus cl n used taken s = Ret (taken ++ l, set_clusters (<[cl :=
      with_cores c (freeCpuCores c) (occupiedCpuCores c ++ l)]> (systemClusterInfo s)) s).
Proof.
  revert used taken free s c. induction n as [|n IH];
    intros used taken free s c Ht Hs Hcl Hc Hf Hn Hr Hlen.
  { exists []. split_and!; [constructor|set_solver|done|]. cbn [take_cpus].
    rewrite !app_nil_r. rewrite set_clusters_insert_id; [done|]. rewrite Hc. by destruct c. }
  assert (free ≠ []) as Hne by (by destruct free; [simpl in Hlen; lia|]).
  pose proof (SelectIdleCpu_free _ _ cl used free Ht Hs Hcl Hf Hr Hne) as Hin.
  cbn [take_cpus]. rewrite run_bind. simpl. set (cpu := SelectIdleCpuFromCluster _ _ _ _) in *.
  pose proof Ht as (? & ? & ? & Hmax & E1 & _). rewrite E1.
  rewrite (wrap_id CInt) by (apply in_range_int; nia).
  destruct (flags_set_true used (cl * one) one free cpu Hf (Hr _ Hin)) as (u & Eu & Hu).
  rewrite run_bind. unfold lift. rewrite Eu, run_bind, (cluster_at_run cl c s Hc), run_bind.
  rewrite (put_cluster_run cl c) by done. set (s1 := set_clusters _ s).
  pose proof (without_perm [cpu] free (NoDup_singleton _) Hn ltac:(set_solver)) as Hp.
  edestruct (IH u (taken ++ [cpu]) (without [cpu] free) s1) as (l & Hl & Hsub & Hll & E);
    [done|done|done|by apply lookup_insert_eq|done|by apply list.NoDup_filter| | |].
  - intros x [? _]%elem_of_without. by apply Hr.
  - apply Permutation_length in Hp. rewrite length_app in Hp. simpl in Hp. lia.
  - exists (cpu :: l). split_and!.
    + apply list.NoDup_cons. split; [|done]. intros [_ Hx]%Hsub%elem_of_without. set_solver.
    + intros x [->|Hx]%elem_of_cons; [done|]. by apply Hsub, elem_of_without in Hx as [? _].
    + by rewrite <-Hll.
    + rewrite E. unfold s1. simpl. rewrite insert_insert_eq, <-!app_assoc. done.
Qed.

Lemma free_flags_run cl s c :
  topo_ok (clusterTopology s) → 0 ≤ cl < nodes * k → systemClusterInfo s !! cl = Some c →
  cluster_ok cl c →
  ∃ used, free_flags cl s = Ret (used, s) ∧ flags used (cl * one) one (freeCpuCores c).
Proof.
  intros (? & ? & ? & Hmax & E1 & _) Hcl Hc Hok.
  destruct (cluster_ok_NoDup cl c Hok) as (_ & _ & _ & Hr).
  destruct (set_all_false (cl * one) one (freeCpuCores c)) as (u & E & Hu); [lia|by auto|].
  exists u. split; [|done]. unfold free_flags. rewrite run_bind. simpl.
  rewrite run_bind, (cluster_at_run cl c s Hc). unfold lift.
  by rewrite E1, (wrap_id CInt), E by (apply in_range_int; nia).
Qed.

(** Some of the processors of a cluster. *)
Lemma take_some_run cl n taken s c :
  topo_ok (clusterTopology s) → selector_ok (clusterSelector s) → 0 ≤ cl < nodes * k →
  systemClusterInfo s !! cl = Some c → cluster_ok cl c → (∀ x, x ∈ taken → x ∉ freeCpuCores c) →
  (n ≤ length (freeCpuCores c))%nat →
  ∃ l f, length l = n ∧ cluster_ok cl (with_cores c f (occupiedCpuCores c ++ l)) ∧
    take_some cl n taken s = Ret (taken ++ l, set_clusters (<[cl :=
      with_cores c f (occupiedCpuCores c ++ l)]> (systemClusterInfo s)) s).
Proof.
  intros Ht Hs Hcl Hc Hok Htk Hn.
  destruct (cluster_ok_NoDup cl c Hok) as (Hnf & _ & _ & Hr).
  destruct (free_flags_run cl s c) as (u & Eu & Hu); [done..|].
  destruct (take_cpus_run cl n u taken (freeCpuCores c) s c) as (l & Hl & Hsub & Hll & E);
    [done..|by auto|done|].
  exists l, (without l (freeCpuCores c)). split; [done|]. split.
  { unfold cluster_ok in *. simpl. rewrite <-Hok.
    rewrite (without_perm l (freeCpuCores c)) at 2 by done.
    rewrite (Permutation_app_comm (occupiedCpuCores c) l).
    rewrite !app_assoc. f_equiv. apply Permutation_app_comm. }
  unfold take_some. rewrite run_bind, Eu, run_bind, E, run_bind.
  unfold drop_free. rewrite run_bind.
  erewrite cluster_at_run by (simpl; apply lookup_insert_eq).
  erewrite put_cluster_run by (simpl; apply lookup_insert_eq). simpl.
  unfold mret, St_ret. rewrite insert_insert_eq. unfold with_cores. simpl.
  rewrite without_app by done. done.
Qed.

(** *** Several clusters *)

(** The processors occupied of a cluster. *)
Definition held (m : gmap Z Cluster) (cl : Z) : list Z :=
  match m !! cl with Some c => occupiedCpuCores c | None => [] end.

(** How many processors a cluster hands out. *)
Definition cores : Z := Z.of_nat (length (usable 0)).

Lemma length_every_second (l1 l2 : list Z) :
  length l1 = length l2 → length (every_second l1) = length (every_second l2).
Proof.
  enough (∀ n l1 l2, (length l1 ≤ n)%nat → length l1 = length l2 →
    length (every_second l1) = length (every_second l2)) as H by by apply (H (length l1)).
  clear l1 l2. induction n as [|n IH];
    intros [|x [|y l1]] [|x' [|y' l2]] Hn Hl; simpl in *; try lia.
  f_equal. apply IH; lia.
Qed.

Lemma length_usable cl : Z.of_nat (length (usable cl)) = cores.
Proof.
  unfold cores, usable. f_equal. destruct smt; [apply length_every_second|]; by rewrite !length_seqZ.
Qed.

(** A cluster nobody holds. *)
Definition untouched (m : gmap Z Cluster) (cl : Z) : Prop :=
  ∃ c, m !! cl = Some c ∧ cluster_ok cl c ∧ occupiedCpuCores c = [].

Lemma untouched_length m cl c :
  untouched m cl → m !! cl = Some c → Z.of_nat (length (freeCpuCores c)) = cores.
Proof.
  intros (c' & Hc & Hok & Ho) Hc'. rewrite Hc in Hc'. injection Hc' as <-.
  unfold cluster_ok in Hok. rewrite Ho, app_nil_r in Hok.
  by rewrite Hok, length_usable.
Qed.

(** What changes when [l] is taken from the clusters [cls]. *)
Definition taken_from (cls l : list Z) (m m' : gmap Z Cluster) : Prop :=
  (∀ cl, cl ∉ cls → m' !! cl = m !! cl) ∧
  (∀ cl, cl ∈ cls → ∃ c, m' !! cl = Some c ∧ cluster_ok cl c) ∧
  l ≡ₚ concat (map (held m') cls).

Lemma take_all_run cl s c : systemClusterInfo s !! cl = Some c →
  take_all cl s = Ret (freeCpuCores c, set_clusters (<[cl :=
    with_cores c [] (occupiedCpuCores c ++ freeCpuCores c)]> (systemClusterInfo s)) s).
Proof.
  intros H. unfold take_all. by rewrite run_bind, (cluster_at_run cl c s H), run_bind,
    (put_cluster_run cl c _ _ s H).
Qed.

Lemma held_insert m cl c cls :
  cl ∉ cls → map (held (<[cl := c]> m)) cls = map (held m) cls.
Proof.
  intros H. apply list_fmap_ext. intros i x Hx. unfold held.
  rewrite lookup_insert_ne; [done|]. intros ->. by apply H, list_elem_of_lookup_2 with i.
Qed.

Lemma held_ext m m' cls : (∀ cl, cl ∈ cls → m' !! cl = m !! cl) → map (held m') cls = map (held m) cls.
Proof.
  intros H. apply list_fmap_ext. intros i x Hx. unfold held.
  by rewrite H by (by apply list_elem_of_lookup_2 with i).
Qed.

Lemma take_clusters_run cls need taken s :
  NoDup cls → (∀ cl, cl ∈ cls → untouched (systemClusterInfo s) cl) →
  Z.of_nat (length cls) * cores ≤ need → in_range CUlong need →
  ∃ l m', take_clusters cls need taken s =
      Ret ((need - Z.of_nat (length cls) * cores, taken ++ l), set_clusters m' s) ∧
    taken_from cls l (systemClusterInfo s) m' ∧
    Z.of_nat (length l) = Z.of_nat (length cls) * cores.
Proof.
  revert need taken s. induction cls as [|cl cls IH]; intros need taken s Hnd Hun Hneed Hr.
  { exists [], (systemClusterInfo s). rewrite set_clusters_id, app_nil_r. simpl.
    split; [by rewrite Z.sub_0_r|]. split; [|done]. split_and!; [done|set_solver|done]. }
  apply list.NoDup_cons in Hnd as [Hcl Hnd].
  destruct (Hun cl) as (c & Hc & Hok & Ho); [left|].
  pose proof (untouched_length _ cl c (Hun cl ltac:(left)) Hc) as Hlen.
  cbn [take_clusters]. rewrite run_bind, (take_all_run cl s c Hc). rewrite Ho. simpl app.
  set (s1 := set_clusters _ s). rewrite Hlen.
  assert (0 ≤ cores) by (unfold cores; lia). cbn [length] in Hneed.
  apply in_range_ulong_inv in Hr as Hr'.
  rewrite (wrap_id CUlong) by (apply in_range_ulong; nia).
  destruct (IH (need - cores) (taken ++ freeCpuCores c) s1) as (l & m' & E & (Hout & Hin & Hl) & Hll);
    [done| |nia|apply in_range_ulong; nia|].
  { intros x Hx. destruct (Hun x) as (cx & Hcx & ?); [by right|]. exists cx. simpl.
    rewrite lookup_insert_ne by (intros ->; done). done. }
  exists (freeCpuCores c ++ l), m'. split.
  { rewrite E, <-app_assoc. cbn [length]. f_equal. f_equal. f_equal. lia. }
  assert (m' !! cl = Some (with_cores c [] (freeCpuCores c))) as Hm.
  { rewrite Hout by done. apply lookup_insert_eq. }
  split; [|rewrite length_app, Nat2Z.inj_add, Hlen, Hll; cbn [length]; lia].
  split_and!.
  - intros x [Hx1 Hx2]%not_elem_of_cons. rewrite Hout by done. simpl. by rewrite lookup_insert_ne.
  - intros x [->|Hx]%elem_of_cons; [|by apply Hin]. eexists. split; [exact Hm|].
    unfold cluster_ok in *. simpl. by rewrite Ho, app_nil_r in Hok.
  - cbn [map concat]. unfold held at 1. rewrite Hm. simpl. by rewrite <-Hl.
Qed.

(** All of each cluster but the last, and what is needed of the last. *)
Lemma take_from_clusters_run cls need taken s :
  topo_ok (clusterTopology s) → selector_ok (clusterSelector s) → cls ≠ [] → NoDup cls →
  (∀ cl, cl ∈ cls → 0 ≤ cl < nodes * k ∧ untouched (systemClusterInfo s) cl) →
  (∀ x cl, x ∈ taken → cl ∈ cls → x ∉ usable cl) →
  (Z.of_nat (length cls) - 1) * cores < need ≤ Z.of_nat (length cls) * cores →
  in_range CUlong need →
  ∃ l m', take_from_clusters cls need taken s = Ret (taken ++ l, set_clusters m' s) ∧
    taken_from cls l (systemClusterInfo s) m' ∧ Z.of_nat (length l) = need.
Proof.
  intros Ht Hs Hne Hnd Hun Htk Hneed Hr. destruct cls as [|x0 cls0 _] using rev_ind; [done|].
  apply list.NoDup_app in Hnd as (Hnd & Hdis & _).
  assert (Z.of_nat (length cls0) * cores < need ≤ Z.of_nat (length cls0) * cores + cores) as Hneed'.
  { rewrite length_app in Hneed. simpl in Hneed. lia. }
  clear Hneed. unfold take_from_clusters. rewrite last_snoc. unfold deref. rewrite removelast_last.
  rewrite run_bind. simpl.
  destruct (take_clusters_run cls0 need taken s) as (l1 & m1 & E1 & (Hout & Hin & Hl1) & Hll1);
    [done|intros cl ?; apply Hun; set_solver|lia|done|].
  rewrite run_bind, E1. simpl. set (s1 := set_clusters m1 s).
  assert (x0 ∉ cls0) as Hx0 by (intros Hx; by apply (Hdis x0 Hx); left).
  destruct (Hun x0) as [Hrange (c & Hc & Hok & Ho)]; [set_solver|].
  assert (systemClusterInfo s1 !! x0 = Some c) as Hc1 by (simpl; by rewrite Hout).
  pose proof (untouched_length _ x0 c (proj2 (Hun x0 ltac:(set_solver))) Hc) as Hlen.
  destruct (take_some_run x0 (Z.to_nat (need - Z.of_nat (length cls0) * cores)) (taken ++ l1) s1 c)
    as (l2 & f & Hl2 & Hok2 & E2); [done|done|done|done|done| |lia|].
  { intros x [Hx|Hx]%elem_of_app Hf.
    - apply (Htk x x0 Hx); [set_solver|]. rewrite <-Hok. apply elem_of_app. by left.
    - rewrite Hl1 in Hx. apply list_elem_of_In, in_concat in Hx as (h & Hh & Hx).
      apply list_elem_of_In, list_elem_of_fmap in Hh as (cl & -> & Hcl).
      apply list_elem_of_In in Hx. destruct (Hin cl Hcl) as (c' & Hc' & Hok').
      unfold held in Hx. rewrite Hc' in Hx.
      destruct (cluster_ok_NoDup _ _ Hok) as (_ & _ & _ & Hra).
      destruct (cluster_ok_NoDup _ _ Hok') as (_ & _ & _ & Hrb).
      specialize (Hra x (or_introl Hf)). specialize (Hrb x (or_intror Hx)).
      assert (cl ≠ x0) by (intros ->; done). destruct Ht as (? & ? & ? & _). nia. }
  rewrite E2. unfold s1. simpl. rewrite Ho. simpl app.
  eexists (l1 ++ l2), _. split; [by rewrite app_assoc|].
  split; [|rewrite length_app, Nat2Z.inj_add, Hll1, Hl2; lia].
  split_and!.
  - intros cl Hcl. rewrite lookup_insert_ne by set_solver. apply Hout. set_solver.
  - intros cl [Hcl|Hcl%list_elem_of_singleton]%elem_of_app.
    + rewrite lookup_insert_ne by (intros ->; done). by apply Hin.
    + subst cl. eexists. split; [apply lookup_insert_eq|]. by rewrite Ho in Hok2.
  - rewrite map_app, concat_app, held_insert by done. rewrite <-Hl1. f_equiv.
    simpl. unfold held. rewrite lookup_insert_eq. simpl. by rewrite app_nil_r.
Qed.

(** *** Clusters of a node *)

Lemma numa_ok_facts nid x : numa_ok nid x →
  NoDup (freeInfoVec x) ∧ NoDup (occupiedInfoVec x) ∧
  (∀ c, c ∈ freeInfoVec x → c ∉ occupiedInfoVec x) ∧
  (∀ c, nid * k ≤ c < nid * k + k ↔ c ∈ freeInfoVec x ∨ c ∈ occupiedInfoVec x).
Proof.
  unfold numa_ok. intros H. pose proof (NoDup_seqZ (nid * k) k) as Hn. rewrite <-H in Hn.
  apply list.NoDup_app in Hn as (? & ? & ?). split_and!; try done.
  intros c. rewrite <-elem_of_app, H, elem_of_seqZ. lia.
Qed.

Lemma node_flags_run s nid x :
  topo_ok (clusterTopology s) → 0 ≤ nid < nodes → numaClusterInfo s !! nid = Some x →
  numa_ok nid x →
  ∃ used, node_flags nid s = Ret ((nid * k, used), s) ∧ flags used (nid * k) k (freeInfoVec x).
Proof.
  intros (? & ? & ? & Hmax & E1 & E2 & E3 & Hcpus) Hnid Hx Hok.
  destruct (numa_ok_facts nid x Hok) as (_ & _ & Hdis & Hall).
  destruct (set_all_true (nid * k) k (occupiedInfoVec x) (freeInfoVec x)) as (u & Eu & Hu); [lia| | |].
  { intros c Hc. apply Hall. by right. }
  { intros c Hc. apply Hall in Hc. split; [by apply Hdis|]. naive_solver. }
  exists u. split; [|done]. unfold node_flags. rewrite run_bind. simpl.
  rewrite decide_False, Hcpus by lia. unfold deref at 1. rewrite run_bind. simpl.
  assert (seqZ (nid * k * one) (k * one) =
    nid * k * one :: seqZ (Z.succ (nid * k * one)) (Z.pred (k * one))) as Hseq
    by (apply seqZ_cons; nia).
  rewrite Hseq at 1. simpl. rewrite run_bind. simpl.
  rewrite length_seqZ, Z2Nat.id by nia. rewrite E1.
  rewrite run_bind, (numa_at_run nid x s Hx). rewrite !Z.quot_mul by lia. unfold lift.
  by rewrite run_bind, Eu.
Qed.

Lemma select_clusters_run nid n used free l s x :
  topo_ok (clusterTopology s) → selector_ok (clusterSelector s) → 0 ≤ nid < nodes →
  numaClusterInfo s !! nid = Some x → flags used (nid * k) k free → NoDup free →
  (∀ c, c ∈ free → nid * k ≤ c < nid * k + k) → (n ≤ length free)%nat →
  ∃ cls, NoDup cls ∧ cls ⊆ free ∧ length cls = n ∧
    select_clusters nid (nid * k) n used l s = Ret (l ++ cls, set_numas (<[nid :=
      mkNuma (numaId x) (freeInfoVec x) (occupiedInfoVec x ++ cls)]> (numaClusterInfo s)) s).
Proof.
  revert used free l s x. induction n as [|n IH];
    intros used free l s x Ht Hs Hnid Hx Hf Hn Hr Hlen.
  { exists []. split_and!; [constructor|set_solver|done|]. cbn [select_clusters].
    rewrite !app_nil_r, set_numas_insert_id; [done|]. rewrite Hx. by destruct x. }
  assert (free ≠ []) as Hne by (by destruct free; [simpl in Hlen; lia|]).
  pose proof (SelectIdleCluster_free _ _ nid used free Ht Hs Hnid Hf Hr Hne) as Hin.
  cbn [select_clusters]. rewrite run_bind. simpl. set (c := SelectIdleCluster _ _ _ _) in *.
  destruct (flags_set_true used (nid * k) k free c Hf (Hr _ Hin)) as (u & Eu & Hu).
  rewrite run_bind. unfold lift. rewrite Eu, run_bind, (numa_at_run nid x s Hx), run_bind.
  rewrite (put_numa_run nid x) by done. set (s1 := set_numas _ s).
  pose proof (without_perm [c] free (NoDup_singleton _) Hn ltac:(set_solver)) as Hp.
  edestruct (IH u (without [c] free) (l ++ [c]) s1) as (cls & Hl & Hsub & Hll & E);
    [done|done|done|by apply lookup_insert_eq|done|by apply list.NoDup_filter| | |].
  - intros y [? _]%elem_of_without. by apply Hr.
  - apply Permutation_length in Hp. rewrite length_app in Hp. simpl in Hp. lia.
  - exists (c :: cls). split_and!.
    + apply list.NoDup_cons. split; [|done]. intros [_ Hy]%Hsub%elem_of_without. set_solver.
    + intros y [->|Hy]%elem_of_cons; [done|]. by apply Hsub, elem_of_without in Hy as [? _].
    + by rewrite <-Hll.
    + rewrite E. unfold s1. simpl. rewrite insert_insert_eq, <-!app_assoc. done.
Qed.

(** The clusters selected for a container. *)
Lemma select_refresh_run nid n s x :
  topo_ok (clusterTopology s) → selector_ok (clusterSelector s) → 0 ≤ nid < nodes →
  numaClusterInfo s !! nid = Some x → numa_ok nid x → (n ≤ length (freeInfoVec x))%nat →
  ∃ used cls f, node_flags nid s = Ret ((nid * k, used), s) ∧
    NoDup cls ∧ cls ⊆ freeInfoVec x ∧ length cls = n ∧
    select_clusters nid (nid * k) n used [] s = Ret (cls, set_numas (<[nid :=
      mkNuma (numaId x) (freeInfoVec x) (occupiedInfoVec x ++ cls)]> (numaClusterInfo s)) s) ∧
    numa_ok nid (mkNuma (numaId x) f (occupiedInfoVec x ++ cls)) ∧
    f = without (occupiedInfoVec x ++ cls) (freeInfoVec x) ∧ f ⊆ freeInfoVec x ∧
    (∀ c, c ∈ f → c ∉ cls).
Proof.
  intros Ht Hs Hnid Hx Hok Hn.
  destruct (numa_ok_facts nid x Hok) as (Hnf & Hno & Hdis & Hall).
  destruct (node_flags_run s nid x) as (u & Eu & Hu); [done..|].
  destruct (select_clusters_run nid n u (freeInfoVec x) [] s x) as (cls & Hnd & Hsub & Hll & E);
    [done..| |done|].
  { intros c Hc. apply Hall. by left. }
  exists u, cls, (without (occupiedInfoVec x ++ cls) (freeInfoVec x)). split_and!; try done.
  - unfold numa_ok in *. simpl. rewrite without_app by (intros c ? ?; by eapply Hdis).
    rewrite <-Hok. rewrite (without_perm cls (freeInfoVec x)) at 2 by done.
    rewrite (Permutation_app_comm (occupiedInfoVec x) cls), !app_assoc. f_equiv.
    apply Permutation_app_comm.
  - by intros c [? _]%elem_of_without.
  - intros c [_ Hc]%elem_of_without. set_solver.
Qed.

Lemma refresh_free_run nid s x : numaClusterInfo s !! nid = Some x →
  refresh_free nid s = Ret (tt, set_numas (<[nid := mkNuma (numaId x)
    (without (occupiedInfoVec x) (freeInfoVec x)) (occupiedInfoVec x)]> (numaClusterInfo s)) s).
Proof.
  intros H. unfold refresh_free. by rewrite run_bind, (numa_at_run nid x s H), (put_numa_run nid x).
Qed.
End machine.
