(* ===== verification/ClusterPlacement.v ===== *)
(** * Containers placed on clusters

    The invariant of the tables of [ClusterAffinity] with the containers that
    hold clusters, and what binding, lending and returning processors do to
    it. *)

From Stdlib Require Import ZArith Lia Strings.Byte.
From stdpp Require Import base list strings gmap numbers.
From S2P Require Import Prelude Bytes StdString Utils Doubles ClusterSelector.
From S2P Require Import Config Daemon ClusterAffinity ClusterTheorems.

Section placement.
Context `{SH : Shell} `{HO : HashOrder}.
Context (smt : bool) (nodes k one : Z).

#[local] Notation topo_ok := (topo_ok nodes k one).
#[local] Notation usable := (usable smt one).
#[local] Notation cores := (cores smt one).
#[local] Notation cluster_ok := (cluster_ok smt one).
#[local] Notation numa_ok := (numa_ok k).
#[local] Notation pool_ok := (pool_ok smt nodes k one).
#[local] Notation taken_from := (taken_from smt one).
#[local] Notation untouched := (untouched smt one).

(** ** The invariant *)

(** A container holds its clusters, all of one node, alone. *)
Definition bound_to (s : Affinity) (nid : Z) (d : DockerResourceInfo) : Prop :=
  0 ≤ nid < nodes ∧ bindClusters d ≠ [] ∧ NoDup (bindClusters d) ∧
  ∃ x, numaClusterInfo s !! nid = Some x ∧ bindClusters d ⊆ occupiedInfoVec x.

Definition placed (s : Affinity) : Prop :=
  pool_ok s ∧
  (∀ id d, dockerInfos s !! id = Some d → bindClusters d ≠ [] → ∃ nid, bound_to s nid d) ∧
  (∀ id d id' d', dockerInfos s !! id = Some d → dockerInfos s !! id' = Some d' → id ≠ id' →
     ∀ cl, cl ∈ bindClusters d → cl ∉ bindClusters d').

(** The processors on record for a container are those occupied of its
    clusters. *)
Definition settled (s : Affinity) (nid : Z) (d : DockerResourceInfo) : Prop :=
  bound_to s nid d ∧ currentMemSet d = [nid] ∧
  currentCpuSet d ≡ₚ concat (map (held (systemClusterInfo s)) (bindClusters d)).

(** ** Changing the tables *)

Lemma elem_of_held m cls n :
  n ∈ concat (map (held m) cls) ↔ ∃ cl, cl ∈ cls ∧ n ∈ held m cl.
Proof.
  induction cls as [|cl cls IH]; simpl; [set_solver|].
  rewrite elem_of_app, IH. set_solver.
Qed.

Lemma elem_not_nil {A} (a : A) l : a ∈ l → l ≠ [].
Proof. by intros Ha ->; apply not_elem_of_nil in Ha. Qed.

(** The clusters of a node are in its range. *)
Lemma pool_numa s nid x : pool_ok s → 0 ≤ nid < nodes → numaClusterInfo s !! nid = Some x → numa_ok nid x.
Proof. intros (_ & _ & Hn & _) Hnid Hx. destruct (Hn nid Hnid) as (y & Hy & ?). congruence. Qed.

Lemma numa_range nid x cl : 0 < k → 0 ≤ nid < nodes → numa_ok nid x →
  cl ∈ freeInfoVec x ∨ cl ∈ occupiedInfoVec x → nid * k ≤ cl < nid * k + k ∧ 0 ≤ cl < nodes * k.
Proof.
  intros ? Hnid Hok Hcl. destruct (numa_ok_facts k nid x Hok) as (_ & _ & _ & Hall).
  apply Hall in Hcl. nia.
Qed.

Lemma pool_ok_same s s' : pool_ok s →
  clusterTopology s' = clusterTopology s → clusterSelector s' = clusterSelector s →
  numaClusterInfo s' = numaClusterInfo s → systemClusterInfo s' = systemClusterInfo s → pool_ok s'.
Proof. unfold ClusterTheorems.pool_ok. by intros Hp -> -> -> ->. Qed.

(** A cluster that is not free changes. *)
Lemma pool_ok_cluster s cl c :
  pool_ok s → cluster_ok cl c →
  (∀ nid x, 0 ≤ nid < nodes → numaClusterInfo s !! nid = Some x → cl ∉ freeInfoVec x) →
  pool_ok (set_clusters (<[cl := c]> (systemClusterInfo s)) s).
Proof.
  intros (Ht & Hs & Hn & Hc & Hf) Hok Hnf. split_and!; [done|done|done| |]; simpl.
  - intros cl' Hcl'. destruct (decide (cl = cl')) as [<-|Hne].
    + exists c. by rewrite lookup_insert_eq.
    + rewrite lookup_insert_ne by done. by apply Hc.
  - intros nid x cl' c' Hnid Hx Hcl'. rewrite lookup_insert_ne; [by eapply Hf|].
    intros <-. by eapply Hnf.
Qed.

(** Free clusters [cls] of a node become occupied, and [l] of their processors
    are taken. *)
Lemma pool_ok_assign s s' nid x f cls l m' :
  pool_ok s → 0 ≤ nid < nodes → numaClusterInfo s !! nid = Some x →
  numa_ok nid (mkNuma (numaId x) f (occupiedInfoVec x ++ cls)) →
  f ⊆ freeInfoVec x → (∀ c, c ∈ f → c ∉ cls) → cls ⊆ freeInfoVec x →
  taken_from cls l (systemClusterInfo s) m' →
  clusterTopology s' = clusterTopology s → clusterSelector s' = clusterSelector s →
  numaClusterInfo s' = <[nid := mkNuma (numaId x) f (occupiedInfoVec x ++ cls)]> (numaClusterInfo s) →
  systemClusterInfo s' = m' → pool_ok s'.
Proof.
  intros Hp Hnid Hx Hok Hf Hfc Hcls (Hout & Hin & _) Et Es En Ec.
  pose proof Hp as (Ht & Hs & Hn & Hc & Hfree). pose proof Ht as (_ & Hk & _).
  unfold ClusterTheorems.pool_ok. rewrite Et, Es, En, Ec. split_and!; [done|done| | |].
  - intros n Hn'. destruct (decide (nid = n)) as [<-|Hne].
    + eexists. by rewrite lookup_insert_eq.
    + rewrite lookup_insert_ne by done. by apply Hn.
  - intros cl Hcl. destruct (decide (cl ∈ cls)) as [Hi|Hi]; [by apply Hin|].
    rewrite Hout by done. by apply Hc.
  - intros n y cl c Hn' Hy Hcl. destruct (decide (nid = n)) as [<-|Hne].
    + rewrite lookup_insert_eq in Hy. injection Hy as <-. simpl in Hcl.
      rewrite Hout by (by apply Hfc). eapply (Hfree nid x); [done|done|by apply Hf].
    + rewrite lookup_insert_ne in Hy by done. rewrite Hout; [by eapply Hfree|].
      intros Hi. apply Hcls in Hi.
      destruct (numa_range nid x cl) as [? _]; [done|done|by eapply pool_numa|by left|].
      destruct (numa_range n y cl) as [? _]; [done|done|by eapply pool_numa|by left|]. nia.
Qed.

(** A container that keeps its clusters stays bound when the node's occupied
    list only grows, and settled when its clusters do not change. *)
Lemma bound_to_mono s s' nid d :
  bound_to s nid d →
  (∀ n x, numaClusterInfo s !! n = Some x →
     ∃ x', numaClusterInfo s' !! n = Some x' ∧ occupiedInfoVec x ⊆ occupiedInfoVec x') →
  bound_to s' nid d.
Proof.
  intros (? & ? & ? & x & Hx & ?) Hm. do 3 (split; [done|]).
  destruct (Hm nid x Hx) as (x' & ? & ?). exists x'. set_solver.
Qed.

Lemma settled_mono s s' nid d :
  settled s nid d → bound_to s' nid d →
  (∀ cl, cl ∈ bindClusters d → systemClusterInfo s' !! cl = systemClusterInfo s !! cl) →
  settled s' nid d.
Proof.
  intros (_ & ? & He) Hb Hm. do 2 (split; [done|]). by rewrite (held_ext _ _ _ Hm).
Qed.

(** No two settled containers share a processor. *)
Lemma settled_disjoint s id d nid id' d' nid' :
  placed s → dockerInfos s !! id = Some d → dockerInfos s !! id' = Some d' → id ≠ id' →
  settled s nid d → settled s nid' d' → ∀ cpu, cpu ∈ currentCpuSet d → cpu ∉ currentCpuSet d'.
Proof.
  intros (Hp & _ & Hdis) Hd Hd' Hne (Hb & _ & E) (Hb' & _ & E') cpu Hc Hc'.
  rewrite E in Hc. rewrite E' in Hc'.
  apply elem_of_held in Hc as (cl & Hcl & Hc). apply elem_of_held in Hc' as (cl' & Hcl' & Hc').
  assert (∀ nid d cl, bound_to s nid d → cl ∈ bindClusters d → cpu ∈ held (systemClusterInfo s) cl →
    cl * one ≤ cpu < cl * one + one) as Hr.
  { intros n e c (Hn & _ & _ & x & Hx & Hsub) Hin Hh.
    pose proof Hp as ((_ & Hk & _) & _ & _ & Hcs & _).
    destruct (numa_range n x c) as [_ Hrange]; [done|done|by eapply pool_numa|right; by apply Hsub|].
    destruct (Hcs c Hrange) as (cc & Hcc & Hok). unfold held in Hh. rewrite Hcc in Hh.
    destruct (cluster_ok_NoDup smt one c cc Hok) as (_ & _ & _ & Hall). apply Hall. by right. }
  pose proof (Hr _ _ _ Hb Hcl Hc). pose proof (Hr _ _ _ Hb' Hcl' Hc').
  assert (cl = cl') as <- by (pose proof Hp as ((? & ? & ? & _) & _); nia).
  by eapply (Hdis id d id' d').
Qed.

(** ** The docker commands *)

Lemma set_cmds_id s : set_cmds (af_cmds s) s = s.
Proof. by destruct s. Qed.
Lemma set_dockers_insert_id s id d :
  dockerInfos s !! id = Some d → set_dockers (<[id := d]> (dockerInfos s)) s = s.
Proof. intros Hd. rewrite insert_id by done. by destruct s. Qed.

Lemma put_docker_run id d s :
  put_docker id d s = Ret (tt, set_dockers (<[id := d]> (dockerInfos s)) s).
Proof. done. Qed.

Lemma run_commands_run cmds s :
  ∃ ok log, run_commands cmds s = Ret (ok, set_cmds log s).
Proof.
  revert s. induction cmds as [|cmd cmds IH]; intros s; cbn [run_commands].
  { exists true, (af_cmds s). by rewrite set_cmds_id. }
  assert (∃ r log, ExecuteCMD cmd s = Ret (r, set_cmds log s)) as (r & log & E).
  { unfold ExecuteCMD. rewrite run_bind. simpl. case_decide.
    - exists (-1), (af_cmds s). by rewrite set_cmds_id.
    - by do 2 eexists. }
  rewrite run_bind, E. case_decide; [by exists false, log|]. destruct (IH (set_cmds log s)) as (ok & l & ->).
  by exists ok, l.
Qed.

Lemma Convert_run l : Forall (λ n, 0 ≤ n < 2147483647) l → ∃ text, ConvertCpusetToString l = Ret text.
Proof. intros Hl. destruct (ConvertCpusetToString_items l Hl) as (items & _ & E & _). by eexists. Qed.

Lemma BindCpusAndMems_run id cpus mems s d :
  dockerInfos s !! id = Some d → Forall (λ n, 0 ≤ n < 2147483647) cpus →
  Forall (λ n, 0 ≤ n < 2147483647) mems →
  ∃ ok log, BindCpusAndMems id cpus mems s = Ret (ok, set_dockers (<[id :=
    if ok : bool then with_sets cpus mems d else d]> (dockerInfos s)) (set_cmds log s)).
Proof.
  intros Hd Hc Hm. unfold BindCpusAndMems. destruct (Convert_run _ Hc) as (t1 & E1).
  destruct (Convert_run _ Hm) as (t2 & E2). rewrite run_bind. unfold lift. rewrite E1, run_bind, E2.
  destruct (run_commands_run [cpuset_cmd t1 id; mems_cmd t2 id] s) as (ok & log & E).
  rewrite run_bind, E. exists ok, log. destruct ok; simpl.
  - by rewrite run_bind, (docker_at_run id d) by done.
  - unfold mret, St_ret. do 2 f_equal. symmetry. by apply (set_dockers_insert_id (set_cmds log s)).
Qed.

(** ** Binding a container *)

(** Processors of clusters have small numbers. *)
Lemma taken_small cls l m m' : 0 < k → 0 < one → nodes * k * one < 2147483648 →
  (∀ cl, cl ∈ cls → 0 ≤ cl < nodes * k) → taken_from cls l m m' →
  Forall (λ n, 0 ≤ n < 2147483647) l.
Proof.
  intros Hk Ho Hmax Hcls (_ & Hin & Hl). apply list.Forall_forall. intros n Hn. rewrite Hl in Hn.
  apply elem_of_held in Hn as (cl & Hcl & Hn). destruct (Hin cl Hcl) as (c & Hc & Hok).
  unfold held in Hn. rewrite Hc in Hn.
  destruct (cluster_ok_NoDup smt one cl c Hok) as (_ & _ & _ & Hr).
  specialize (Hr n (or_intror Hn)). specialize (Hcls cl Hcl). nia.
Qed.

(** What [DockerBindClusters] does to the tables: [cls] are free clusters of the
    node, and [l] are [need] of their processors. *)
Lemma DockerBindClusters_run id nid n need s x d :
  pool_ok s → 0 ≤ nid < nodes → numaClusterInfo s !! nid = Some x → dockerInfos s !! id = Some d →
  0 < n ≤ Z.of_nat (length (freeInfoVec x)) →
  d_to_int CUlong (d_ceil (initialCpuLimit d)) = Ret need → (n - 1) * cores < need ≤ n * cores →
  ∃ ok s' cls l f, DockerBindClusters id nid n s = Ret (ok, s') ∧ pool_ok s' ∧
    NoDup cls ∧ cls ⊆ freeInfoVec x ∧ Z.of_nat (length cls) = n ∧ Z.of_nat (length l) = need ∧
    clusterTopology s' = clusterTopology s ∧ clusterSelector s' = clusterSelector s ∧
    taken_from cls l (systemClusterInfo s) (systemClusterInfo s') ∧
    numaClusterInfo s' =
      <[nid := mkNuma (numaId x) f (occupiedInfoVec x ++ cls)]> (numaClusterInfo s) ∧
    let d' := with_clusters (bindClusters d ++ cls) d in
    dockerInfos s' = <[id := if ok then with_sets l [nid] d' else d']> (dockerInfos s).
Proof.
  intros Hp Hnid Hx Hd Hn Hneed Hfit.
  pose proof Hp as (Ht & Hs & _ & Hc & Hfree). pose proof Ht as (_ & Hk & Hone & Hmax & E1 & _).
  pose proof (pool_numa s nid x Hp Hnid Hx) as Hok.
  destruct (select_refresh_run nodes k one nid (Z.to_nat n) s x)
    as (used & cls & f & Eflags & Hnd & Hsub & Hlen & Esel & Hok' & Ef & Hff & Hfc);
    [done..|lia|].
  set (s1 := set_numas (<[nid := mkNuma (numaId x) f (occupiedInfoVec x ++ cls)]> (numaClusterInfo s))
    (set_dockers (<[id := with_clusters (bindClusters d ++ cls) d]> (dockerInfos s)) s)).
  assert (∀ cl, cl ∈ cls → 0 ≤ cl < nodes * k) as Hr.
  { intros cl Hcl. eapply (numa_range nid x); [done|done|done|left; by apply Hsub]. }
  destruct (take_from_clusters_run smt nodes k one cls need [] s1) as (l & m' & Et & Htk & Hl);
    [done|done| |done| |set_solver|by rewrite Hlen, Z2Nat.id by lia| |].
  { intros ->. simpl in Hlen. lia. }
  { intros cl Hcl. split; [by apply Hr|]. destruct (Hc cl (Hr cl Hcl)) as (c & Hcc & Hcok).
    exists c. split_and!; [done|done|]. eapply (Hfree nid x); [done|done|by apply Hsub|done]. }
  { unfold d_to_int in Hneed. destruct (d_trunc _); [|done]. by case_decide; simplify_eq. }
  destruct (BindCpusAndMems_run id l [nid] (set_clusters m' s1)
    (with_clusters (bindClusters d ++ cls) d)) as (ok & log & Eb).
  { simpl. apply lookup_insert_eq. }
  { by eapply taken_small. }
  { constructor; [|done]. assert (1 ≤ k * one) by nia. assert (nodes * 1 ≤ nodes * (k * one)) by nia. lia. }
  exists ok, (set_dockers (<[id := if ok then with_sets l [nid] (with_clusters (bindClusters d ++ cls) d)
    else with_clusters (bindClusters d ++ cls) d]> (dockerInfos s)) (set_cmds log (set_clusters m' s1))).
  exists cls, l, f. split.
  { unfold DockerBindClusters. rewrite run_bind. simpl. rewrite decide_False by lia.
    rewrite run_bind, Eflags, run_bind, Esel, run_bind. erewrite docker_at_run by done.
    rewrite run_bind, put_docker_run, run_bind.
    erewrite refresh_free_run by (simpl; apply lookup_insert_eq). simpl.
    rewrite run_bind. unfold lift at 1. rewrite Hneed, run_bind, insert_insert_eq.
    unfold set_numas at 1. simpl. rewrite <-Ef. change (mkAffinity _ _ _ _ _ _ _ _ _ _ _) with s1.
    rewrite Et. simpl app. rewrite Eb. simpl. by rewrite insert_insert_eq. }
  split_and!; try done; [|lia].
  eapply (pool_ok_assign s _ nid x f cls l m'); done.
Qed.

(** What a container is bound to is not free. *)
Lemma bound_not_free s nid d cl n x :
  pool_ok s → bound_to s nid d → cl ∈ bindClusters d → 0 ≤ n < nodes →
  numaClusterInfo s !! n = Some x → cl ∉ freeInfoVec x.
Proof.
  intros Hp (Hnid & _ & _ & y & Hy & Hsub) Hcl Hn Hx Hf. pose proof Hp as ((_ & Hk & _) & _).
  pose proof (pool_numa s n x Hp Hn Hx) as Hok. pose proof (pool_numa s nid y Hp Hnid Hy) as Hok'.
  destruct (numa_range n x cl) as [? _]; [done..|by left|].
  destruct (numa_range nid y cl) as [? _]; [done..|right; by apply Hsub|].
  assert (n = nid) as -> by nia. simplify_eq.
  destruct (numa_ok_facts k nid y Hok) as (_ & _ & Hdis & _). eapply Hdis; [done|by apply Hsub].
Qed.

Lemma settled_NoDup s nid d : pool_ok s → settled s nid d → NoDup (currentCpuSet d).
Proof.
  intros Hp ((Hnid & _ & Hnd & x & Hx & Hsub) & _ & ->).
  pose proof Hp as ((_ & Hk & Hone & _) & _ & _ & Hc & _).
  assert (∀ cl, cl ∈ bindClusters d → ∃ c, systemClusterInfo s !! cl = Some c ∧ cluster_ok cl c) as Hcs.
  { intros cl Hcl. apply Hc. eapply (numa_range nid x); [done|done|by eapply pool_numa|].
    right. by apply Hsub. }
  clear Hsub. induction (bindClusters d) as [|cl cls IH]; [constructor|].
  apply list.NoDup_cons in Hnd as [Hcl Hnd]. simpl. apply list.NoDup_app.
  destruct (Hcs cl) as (c & Ec & Hok); [left|].
  destruct (cluster_ok_NoDup smt one cl c Hok) as (_ & Ho & _ & Hr).
  split_and!.
  - unfold held. by rewrite Ec.
  - intros n Hn (cl' & Hcl' & Hn')%elem_of_held. destruct (Hcs cl') as (c' & Ec' & Hok'); [by right|].
    destruct (cluster_ok_NoDup smt one cl' c' Hok') as (_ & _ & _ & Hr').
    unfold held in *. rewrite Ec in Hn. rewrite Ec' in Hn'.
    specialize (Hr n (or_intror Hn)). specialize (Hr' n (or_intror Hn')).
    assert (cl = cl') as <- by nia. done.
  - apply IH; [done|]. intros y Hy. apply Hcs. by right.
Qed.

(** When a container's entry changes and the tables grow, the others stay as
    they were, and the invariant holds when it holds of the new entry. *)
Lemma placed_update s s' id d' :
  placed s → pool_ok s' → dockerInfos s' = <[id := d']> (dockerInfos s) →
  (∀ i e n, i ≠ id → dockerInfos s !! i = Some e → bound_to s n e → bound_to s' n e) →
  (bindClusters d' ≠ [] → ∃ nid, bound_to s' nid d') →
  (∀ id' e cl, id' ≠ id → dockerInfos s !! id' = Some e → cl ∈ bindClusters e → cl ∉ bindClusters d') →
  placed s'.
Proof.
  intros (Hp & Hb & Hd) Hp' E Hkeep Hnew Hdis. split_and!; [done| |].
  - intros i e. rewrite E. destruct (decide (id = i)) as [<-|Hne].
    + rewrite lookup_insert_eq. intros [= <-]. done.
    + rewrite lookup_insert_ne by done. intros He Hn. destruct (Hb i e He Hn) as (nid & Hbe).
      exists nid. by eapply Hkeep.
  - intros i e i' e'. rewrite E. intros He He' Hne cl.
    destruct (decide (id = i)) as [<-|Hi], (decide (id = i')) as [<-|Hi']; [done|..].
    + rewrite lookup_insert_eq in He. rewrite lookup_insert_ne in He' by done. simplify_eq.
      intros Hcl Hcl'. by eapply (Hdis i' e' cl).
    + rewrite lookup_insert_eq in He'. rewrite lookup_insert_ne in He by done. simplify_eq.
      by eapply Hdis.
    + rewrite lookup_insert_ne in He, He' by done. by eapply (Hd i e i' e').
Qed.

(** The other containers stay settled. *)
Definition others_kept (id : string) (s s' : Affinity) : Prop :=
  ∀ id' e nid, id' ≠ id → dockerInfos s !! id' = Some e → settled s nid e →
    dockerInfos s' !! id' = Some e ∧ settled s' nid e.

Lemma others_kept_intro s s' id d' (touched : list Z) :
  dockerInfos s' = <[id := d']> (dockerInfos s) →
  (∀ i e n, i ≠ id → dockerInfos s !! i = Some e → bound_to s n e → bound_to s' n e) →
  (∀ cl, cl ∉ touched → systemClusterInfo s' !! cl = systemClusterInfo s !! cl) →
  (∀ id' e nid cl, id' ≠ id → dockerInfos s !! id' = Some e → settled s nid e →
     cl ∈ bindClusters e → cl ∉ touched) →
  others_kept id s s'.
Proof.
  intros E Hkeep Hout Hdis id' e nid Hne He Hset. split; [by rewrite E, lookup_insert_ne|].
  eapply settled_mono; [done|destruct Hset as [? _]; by eapply Hkeep|].
  intros cl Hcl. by eapply Hout, Hdis.
Qed.

Lemma grow_insert s nid x f cls :
  numaClusterInfo s !! nid = Some x →
  ∀ n y, numaClusterInfo s !! n = Some y →
    ∃ y', <[nid := mkNuma (numaId x) f (occupiedInfoVec x ++ cls)]> (numaClusterInfo s) !! n = Some y' ∧
      occupiedInfoVec y ⊆ occupiedInfoVec y'.
Proof.
  intros Hx n y Hy. destruct (decide (nid = n)) as [<-|Hne].
  - eexists. split; [apply lookup_insert_eq|]. simpl. simplify_eq. set_solver.
  - exists y. by rewrite lookup_insert_ne.
Qed.

(** The two outcomes of binding: the docker commands succeed and the container
    is settled with [need] processors, or its record stays as it was. *)
Definition bind_result (s' : Affinity) (ok : bool) (nid need : Z) (d d' : DockerResourceInfo) : Prop :=
  if ok then settled s' nid d' ∧ Z.of_nat (length (currentCpuSet d')) = need
  else currentCpuSet d' = currentCpuSet d ∧ currentMemSet d' = currentMemSet d.

Lemma bind_places id nid n need s x d :
  placed s → dockerInfos s !! id = Some d → bindClusters d = [] → 0 ≤ nid < nodes →
  numaClusterInfo s !! nid = Some x → 0 < n ≤ Z.of_nat (length (freeInfoVec x)) →
  d_to_int CUlong (d_ceil (initialCpuLimit d)) = Ret need → (n - 1) * cores < need ≤ n * cores →
  ∃ ok s' d', DockerBindClusters id nid n s = Ret (ok, s') ∧ placed s' ∧
    dockerInfos s' = <[id := d']> (dockerInfos s) ∧ optimizeBinded d' = optimizeBinded d ∧
    Z.of_nat (length (bindClusters d')) = n ∧ bindClusters d' ⊆ freeInfoVec x ∧
    bind_result s' ok nid need d d' ∧ others_kept id s s' ∧
    clusterTopology s' = clusterTopology s ∧ clusterSelector s' = clusterSelector s.
Proof.
  intros Hpl Hd Hnil Hnid Hx Hn Hneed Hfit. pose proof Hpl as (Hp & Hb & Hdis).
  destruct (DockerBindClusters_run id nid n need s x d) as (ok & s' & cls & l & f & E & Hp' & Hnd & Hsub &
    Hlen & Hl & Et & Es & Htk & En & Ed); [done..|]. cbv zeta in Ed. rewrite Hnil in Ed. simpl app in Ed.
  pose proof (grow_insert s nid x f cls Hx) as Hgrow. rewrite <-En in Hgrow.
  set (d' := if ok then with_sets l [nid] (with_clusters cls d) else with_clusters cls d) in *.
  assert (bindClusters d' = cls) as Ecls by (by destruct ok).
  assert (bound_to s' nid d') as Hbound.
  { split; [done|]. rewrite Ecls. split; [by intros ->; simpl in Hlen; lia|]. split; [done|].
    eexists. split; [rewrite En; apply lookup_insert_eq|]. simpl. set_solver. }
  assert (∀ id' e cl, id' ≠ id → dockerInfos s !! id' = Some e → cl ∈ bindClusters e → cl ∉ cls) as Hother.
  { intros id' e cl Hne He Hcl Hin. destruct (Hb id' e He) as (n' & Hbe); [by eapply elem_not_nil|].
    by eapply (bound_not_free s n' e cl nid x), Hsub. }
  exists ok, s', d'. rewrite Ecls. split_and!; try done.
  - eapply placed_update; [done|done|exact Ed|by eauto using bound_to_mono|by eexists|by rewrite Ecls].
  - by destruct ok.
  - unfold bind_result. destruct ok; [|done]. split; [|done]. split_and!; [done|done|].
    destruct Htk as (_ & _ & Hl'). by rewrite Ecls.
  - eapply others_kept_intro; [done|by eauto using bound_to_mono|apply Htk|]. intros i e m cl Hne He _ Hcl. by eapply Hother.
Qed.

(** ** Binding every container *)

(** The node selected, as a function of the container's entry. *)
Definition selected_node (t : Topology) (x : Selector) (d : DockerResourceInfo) : outcome Z :=
  let idle := SelectIdleNode t (repeat false (length (cpuTopology t))) x in
  match currentMemSet d, cpuTopology t, head (currentCpuSet d), list.last (currentCpuSet d) with
  | [nid], _, _, _ => Ret nid
  | _, [], _, _ => idle
  | _, cpus, Some a, Some b =>
    match find_node 0 cpus a b with
    | Ret (Some i) => Ret i
    | Ret None => idle
    | Throw e => Throw e
    | Undef => Undef
    end
  | _, _, _, _ => Undef
  end.

#[local] Arguments find_node : simpl never.
Lemma SelectBindingNuma_run s id d :
  dockerInfos s !! id = Some d →
  SelectBindingNuma id s = lift (selected_node (clusterTopology s) (clusterSelector s) d) s.
Proof.
  intros Hd. unfold SelectBindingNuma, selected_node.
  rewrite run_bind, (docker_at_run id d s Hd), run_bind. simpl.
  destruct (currentMemSet d) as [|x1 [|x2 xs]]; [|done|];
    (rewrite run_bind; destruct (cpuTopology _) as [|cpus rest]; [done|];
     rewrite run_bind; destruct (head (currentCpuSet d)); simpl; [|done];
     rewrite run_bind; destruct (list.last (currentCpuSet d)); simpl; [|done];
     unfold lift; by destruct (find_node _ _ _ _) as [[?|]|?|]).
Qed.

Lemma SelectBindingNuma_same s s' id d nid :
  dockerInfos s !! id = Some d → dockerInfos s' !! id = Some d →
  clusterTopology s' = clusterTopology s → clusterSelector s' = clusterSelector s →
  SelectBindingNuma id s = Ret (nid, s) → SelectBindingNuma id s' = Ret (nid, s').
Proof.
  intros Hd Hd' Et Es. rewrite (SelectBindingNuma_run s id d), (SelectBindingNuma_run s' id d) by done.
  rewrite Et, Es. unfold lift. destruct (selected_node _ _ _); congruence.
Qed.

(** The processors of a cluster as the code counts them. *)
Definition clusterCpuNum : Z := if smt then Z.quot one 2 else one.

(** A container with nothing to bind, or whose limit needs [n] clusters of the
    node that is selected. *)
Definition needs (s : Affinity) (id : string) (d : DockerResourceInfo) (nid n need : Z) : Prop :=
  bindClusters d = [] ∧ 0 ≤ nid < nodes ∧ SelectBindingNuma id s = Ret (nid, s) ∧
  d_to_int CUlong (d_ceil (d_div (initialCpuLimit d) (d_of_Z clusterCpuNum))) = Ret n ∧
  0 < n < 2147483648 ∧
  d_to_int CUlong (d_ceil (initialCpuLimit d)) = Ret need ∧ (n - 1) * cores < need ≤ n * cores.

Definition skipped (d : DockerResourceInfo) : Prop :=
  optimizeBinded d = true ∨ d_le (initialCpuLimit d) d_zero = true.

#[local] Instance skipped_dec d : Decision (skipped d).
Proof. unfold skipped. apply _. Defined.

Definition bindable (s : Affinity) (id : string) (d : DockerResourceInfo) : Prop :=
  skipped d ∨ ∃ nid n need, needs s id d nid n need.

(** A container that does not fit in the free clusters of its node. *)
Definition stuck (s : Affinity) (id : string) (d : DockerResourceInfo) : Prop :=
  ∃ nid n need x, needs s id d nid n need ∧ numaClusterInfo s !! nid = Some x ∧
    Z.of_nat (length (freeInfoVec x)) < n.

Lemma needs_same s s' id d nid n need :
  dockerInfos s !! id = Some d → dockerInfos s' !! id = Some d →
  clusterTopology s' = clusterTopology s → clusterSelector s' = clusterSelector s →
  needs s id d nid n need → needs s' id d nid n need.
Proof.
  intros ???? (? & ? & ? & ?). split; [done|]. split; [done|].
  split; [by apply (SelectBindingNuma_same s s' id d)|done].
Qed.

(** What binding makes of a container. *)
Definition bound_now (s' : Affinity) (d d' : DockerResourceInfo) : Prop :=
  ¬ skipped d ∧ optimizeBinded d' = true ∧
  ∃ ok nid need, d_to_int CUlong (d_ceil (initialCpuLimit d)) = Ret need ∧
    bind_result s' ok nid need d d'.

Lemma settled_with_lending s nid b l x m d :
  settled s nid (with_lending b l x m d) ↔ settled s nid d.
Proof. done. Qed.

(** The state after another change of the container's entry. *)
Lemma touch_places s1 s s' id d d1 d2 :
  placed s1 → dockerInfos s1 = <[id := d1]> (dockerInfos s) → others_kept id s s1 →
  dockerInfos s !! id = Some d → bindClusters d2 = bindClusters d1 →
  dockerInfos s' = <[id := d2]> (dockerInfos s1) →
  clusterTopology s' = clusterTopology s1 → clusterSelector s' = clusterSelector s1 →
  numaClusterInfo s' = numaClusterInfo s1 → systemClusterInfo s' = systemClusterInfo s1 →
  placed s' ∧ others_kept id s s' ∧ dockerInfos s' = <[id := d2]> (dockerInfos s).
Proof.
  intros (Hp & Hb & Hdis) Ed Ho Hd Eb Ed' Et Es En Ec.
  pose proof (lookup_insert_eq (dockerInfos s) id d1) as Hl. rewrite <-Ed in Hl.
  assert (∀ e n, bound_to s1 n e → bound_to s' n e) as Hkeep.
  { intros e n. unfold bound_to. by rewrite En. }
  split_and!.
  - eapply (placed_update s1 s' id d2); [done|by eapply pool_ok_same|done|by intros i e n _ _ ?; apply Hkeep| |].
    + rewrite Eb. intros Hn. destruct (Hb id d1 Hl Hn) as (nid & H1). exists nid.
      apply Hkeep in H1. unfold bound_to in *. by rewrite Eb.
    + intros i e cl Hne He Hcl. rewrite Eb. by eapply (Hdis i e id d1).
  - intros i e nid Hne He Hs. destruct (Ho i e nid Hne He Hs) as [He1 Hs1].
    split; [by rewrite Ed', lookup_insert_ne|].
    destruct Hs1 as (Hb1 & ? & E). split; [by apply Hkeep|]. by rewrite Ec.
  - by rewrite Ed', Ed, insert_insert_eq.
Qed.

Lemma bind_one_places s id d :
  placed s → dockerInfos s !! id = Some d → bindable s id d →
  (skipped d ∧ bind_one smt id s = Ret (false, s)) ∨
  (¬ skipped d ∧ stuck s id d ∧ bind_one smt id s = Ret (true, s)) ∨
  ∃ s' d', bind_one smt id s = Ret (false, s') ∧ placed s' ∧
    dockerInfos s' = <[id := d']> (dockerInfos s) ∧ bound_now s' d d' ∧ others_kept id s s' ∧
    clusterTopology s' = clusterTopology s ∧ clusterSelector s' = clusterSelector s.
Proof.
  intros Hpl Hd Hbind. pose proof Hpl as (((_ & _ & Hone & _ & E1 & _) & _ & Hn & _) & _).
  destruct (decide (skipped d)) as [Hk|Hk].
  { left. split; [done|]. unfold bind_one. rewrite run_bind, (docker_at_run id d) by done.
    destruct Hk as [Ho|Hl]; [by rewrite Ho|]. rewrite Hl. by destruct (optimizeBinded d). }
  right. destruct Hbind as [?|(nid & n & need & Hneeds)]; [done|].
  pose proof Hneeds as (Hnil & Hnid & Hsel & En & Hnr & Eneed & Hfit).
  destruct (Hn nid Hnid) as (x & Hx & _).
  assert (bind_one smt id s = if decide (Z.of_nat (length (freeInfoVec x)) < n) then Ret (true, s) else
    (DockerBindClusters id nid n ;; p ← docker_at id;
     put_docker id (with_lending true (dockerLended p) (lendCpuLimit p) (borrowDockerMap p) p) ;;
     mret false) s) as E.
  { unfold bind_one. rewrite run_bind, (docker_at_run id d) by done.
    destruct (optimizeBinded d) eqn:Eo; [by destruct Hk; left|].
    destruct (d_le _ _) eqn:El; [by destruct Hk; right|].
    rewrite run_bind. simpl. rewrite E1, decide_False by lia. unfold clusterCpuNum in En.
    rewrite run_bind. unfold lift. rewrite En, run_bind, Hsel, run_bind, (numa_at_run nid x) by done.
    rewrite (wrap_id CInt) by (apply in_range_int; lia). by case_decide. }
  rewrite E. case_decide as Hlt; [left|right].
  { split; [done|]. split; [|done]. by exists nid, n, need, x. }
  destruct (bind_places id nid n need s x d) as (ok & s1 & d1 & Eb & Hpl1 & Ed1 & _ & _ & _ & Hres & Hoth &
    Et & Es); [done..|lia|done|done|].
  set (d2 := with_lending true (dockerLended d1) (lendCpuLimit d1) (borrowDockerMap d1) d1).
  destruct (touch_places s1 s (set_dockers (<[id := d2]> (dockerInfos s1)) s1) id d d1 d2)
    as (Hpl2 & Hoth2 & Ed2); [done..|].
  eexists _, _. split.
  { rewrite run_bind, Eb, run_bind. erewrite docker_at_run by (rewrite Ed1; apply lookup_insert_eq).
    by rewrite run_bind, put_docker_run. }
  split_and!; [exact Hpl2|exact Ed2| |done..]. split; [done|]. split; [done|].
  exists ok, nid, need. split; [done|]. destruct ok; exact Hres.
Qed.

(** What a round leaves of a container: nothing new, or its binding. *)
Definition round_result (s s' : Affinity) (d d' : DockerResourceInfo) : Prop :=
  (d' = d ∧ ∀ nid, settled s nid d → settled s' nid d) ∨ bound_now s' d d'.

(** The round ends with every container considered, or at the first one that
    does not fit. *)
Definition round_done (ids : list string) (s s' : Affinity) : Prop :=
  (∀ id d, id ∈ ids → dockerInfos s !! id = Some d → ¬ skipped d →
     ∃ d', dockerInfos s' !! id = Some d' ∧ optimizeBinded d' = true) ∨
  (∃ id d, id ∈ ids ∧ dockerInfos s' !! id = Some d ∧ ¬ skipped d ∧ stuck s' id d).

Lemma bind_all_places ids s :
  placed s → NoDup ids →
  (∀ id, id ∈ ids → ∃ d, dockerInfos s !! id = Some d ∧ bindable s id d) →
  ∃ s', bind_all smt ids s = Ret (tt, s') ∧ placed s' ∧ round_done ids s s' ∧
    (∀ id d, dockerInfos s !! id = Some d → ∃ d', dockerInfos s' !! id = Some d' ∧
       round_result s s' d d' ∧ (id ∉ ids → d' = d)).
Proof.
  revert s. induction ids as [|id ids IH]; intros s Hpl Hnd Hids.
  { exists s. split_and!; [done|done|left; by intros ?? ?%not_elem_of_nil|].
    intros i d Hd. exists d. split; [done|]. split; [by left|done]. }
  apply list.NoDup_cons in Hnd as [Hid Hnd]. destruct (Hids id) as (d & Hd & Hb); [left|].
  cbn [bind_all]. rewrite run_bind.
  destruct (bind_one_places s id d Hpl Hd Hb)
    as [[Hk ->]|[(Hk & Hst & ->)|(s1 & d1 & -> & Hpl1 & Ed & Hnow & Hoth & Et & Es)]].
  - destruct (IH s) as (s' & E & Hpl' & Hdone & Hall); [done|done|intros i Hi; apply Hids; by right|].
    exists s'. split_and!; [exact E|done| |].
    + destruct Hdone as [Hdone|(i & e & ? & ?)]; [left|right; exists i, e; split; [by right|done]].
      intros i e [->|Hi]%elem_of_cons He Hne; [congruence|by eapply Hdone].
    + intros i e He. destruct (Hall i e He) as (e' & ? & ? & Hout). exists e'. split_and!; [done|done|].
      intros Hni. apply Hout. intros ?. apply Hni. by right.
  - exists s. split_and!; [done|done| |].
    + right. exists id, d. split; [left|done].
    + intros i e He. exists e. split; [done|]. split; [by left|done].
  - assert (∀ i, i ≠ id → dockerInfos s1 !! i = dockerInfos s !! i) as Hsame.
    { intros i Hne. by rewrite Ed, lookup_insert_ne. }
    destruct (IH s1) as (s' & E & Hpl' & Hdone & Hall); [done|done| |].
    { intros i Hi. destruct (Hids i) as (e & He & Hbe); [by right|]. exists e.
      assert (i ≠ id) as Hne by (by intros ->). split; [by rewrite Hsame|].
      destruct Hbe as [?|(nid & n & need & ?)]; [by left|]. right. exists nid, n, need.
      eapply needs_same; [exact He|by rewrite Hsame|done..]. }
    assert (dockerInfos s1 !! id = Some d1) as Hd1 by (by rewrite Ed, lookup_insert_eq).
    destruct (Hall id d1 Hd1) as (d' & Hd' & Hres & Hout). specialize (Hout Hid) as ->.
    exists s'. split_and!; [exact E|done| |].
    + destruct Hdone as [Hdone|(i & e & ? & ?)]; [left|right; exists i, e; split; [by right|done]].
      intros i e [->|Hi]%elem_of_cons He Hne.
      * exists d1. split; [done|]. apply Hnow.
      * eapply Hdone; [done| |done]. rewrite Hsame; [done|by intros ->].
    + intros i e He. destruct (decide (i = id)) as [->|Hne].
      * simplify_eq. exists d1. split; [done|]. split; [right|by intros []%not_elem_of_cons].
        destruct Hnow as (? & Hob & ok & nid & need & En & Hr). split; [done|]. split; [done|].
        exists ok, nid, need. split; [done|]. destruct ok; [|done]. destruct Hr as [Hset ?].
        split; [|done]. destruct Hres as [[_ Hkeep]|(Hns & _)]; [by apply Hkeep|].
        destruct Hns. by left.
      * destruct (Hall i e) as (e' & He' & Hre & Hoe); [by rewrite Hsame|]. exists e'.
        split; [done|]. split; [|intros Hni; apply Hoe; intros ?; apply Hni; by right].
        destruct Hre as [[-> Hkeep]|Hn]; [left|by right]. split; [done|]. intros nid Hset.
        apply Hkeep. by apply (Hoth i e nid).
Qed.
End placement.
