(* ===== verification/ClusterSetup.v ===== *)
(** * The first placement

    The topology that is read from the kernel's files, the tables that [Init]
    makes of it, and a round of binding on them. *)

From Stdlib Require Import ZArith Lia Strings.Byte.
From stdpp Require Import base list strings gmap numbers.
From S2P Require Import Prelude Bytes StdString Utils Doubles ClusterSelector.
From S2P Require Import Config Daemon World ClusterAffinity ClusterTheorems.
From S2P Require Import ClusterPlacement.

(** ** The kernel's files *)

Definition ascending (i : range_item) : Prop :=
  match i with Single _ => True | Range a b => a ≤ b end.

Section topology.
Lemma first_last_item a b :
  0 ≤ a ≤ b → b < 2147483647 → first_last (print_item (run_item a b)) = Ret (a, b).
Proof.
  intros Ha Hb. unfold run_item, first_last. case_decide as E; cbn [print_item].
  - subst b. rewrite find_byte_none by (apply to_string_no_byte; [done|lia]).
    by rewrite stoi_to_string by solve_range.
  - rewrite find_byte_app by (apply to_string_no_byte; [done|lia]).
    rewrite take_app_length, drop_app_add'; [|simpl; lia].
    change (drop 1 (dash :: to_string b)) with (to_string b).
    by rewrite !stoi_to_string by solve_range.
Qed.

Lemma node_cpus_items items cpuNum acc :
  Forall (λ i, item_ok i ∧ ascending i) items → 0 ≤ cpuNum →
  cpuNum + Z.of_nat (length (concat (map item_values items))) < 2147483648 →
  node_cpus (map print_item items) cpuNum acc =
  Ret (cpuNum + Z.of_nat (length (concat (map item_values items))),
       acc ++ concat (map item_values items)).
Proof.
  intros Hi. revert cpuNum acc. induction Hi as [|i items [Hok Hasc] _ IH]; intros cpuNum acc H0 Hmax.
  { cbn. by rewrite Z.add_0_r, app_nil_r. }
  cbn [map concat] in *. rewrite length_app, Nat2Z.inj_add in Hmax.
  assert (∀ n, Z.of_nat (length (item_values i)) = n → count_cpus cpuNum n = Ret (cpuNum + n)) as Hcount.
  { intros n Hn. unfold count_cpus. rewrite decide_True; [done|].
    split; apply in_range_int; lia. }
  assert (node_cpus (print_item i :: map print_item items) cpuNum acc =
    node_cpus (map print_item items) (cpuNum + Z.of_nat (length (item_values i)))
      (acc ++ item_values i)) as ->.
  { destruct i as [n|a b]; cbn [node_cpus print_item]; simpl in Hok, Hasc.
    - rewrite find_byte_none by (apply to_string_no_byte; [done|lia]).
      rewrite stoi_to_string by solve_range. by rewrite (Hcount 1).
    - pose proof (first_last_item a b) as Hfl. unfold run_item in Hfl.
      destruct (decide (a = b)) as [->|Hne].
      + rewrite find_byte_app by (apply to_string_no_byte; [done|lia]).
        unfold first_last. rewrite find_byte_app by (apply to_string_no_byte; [done|lia]).
        rewrite take_app_length, drop_app_add'; [|simpl; lia].
        change (drop 1 (dash :: to_string b)) with (to_string b).
        rewrite !stoi_to_string by solve_range.
        rewrite decide_False by (intros []; apply in_range_int; lia).
        rewrite Hcount by (simpl; rewrite length_seqZ; lia).
        unfold int_range. rewrite decide_False by lia. do 2 f_equal. simpl. rewrite length_seqZ. lia.
      + cbn [print_item] in Hfl. rewrite Hfl by lia.
        rewrite find_byte_app by (apply to_string_no_byte; [done|lia]).
        rewrite decide_False by (intros []; apply in_range_int; lia).
        rewrite Hcount by (simpl; rewrite length_seqZ; lia).
        unfold int_range. rewrite decide_False by lia. do 2 f_equal. simpl. rewrite length_seqZ. lia. }
  rewrite IH by lia. rewrite length_app, Nat2Z.inj_add, <-app_assoc. do 2 f_equal. lia.
Qed.
End topology.

(** ** The tables *)

Section setup.
Context (smt : bool) (nodes k one : Z).

#[local] Notation topo_ok := (topo_ok nodes k one).
#[local] Notation usable := (usable smt one).

(** Files of a machine with uniform nodes and clusters: no processor is
    offline, and the node's list, in any form, is its processors in order. *)
Definition files_ok (f : TopologyFiles) : Prop :=
  tf_nodes f = nodes ∧ tf_clusterCpus f = Some (print_item (run_item 0 (one - 1))) ∧
  (tf_offline f = None ∨ tf_offline f = Some []) ∧
  ∀ i : nat, Z.of_nat i < nodes → ∃ items, items ≠ [] ∧ Forall (λ i, item_ok i ∧ ascending i) items ∧
    tf_nodeCpus f i = Some (print_range items) ∧
    concat (map item_values items) = seqZ (Z.of_nat i * k * one) (k * one).

Definition node_list (i : nat) : list Z := seqZ (Z.of_nat i * k * one) (k * one).

Lemma read_nodes_run f i n str cpuNum acc :
  files_ok f → 0 < k → 0 < one → 0 ≤ cpuNum →
  Z.of_nat (i + n) = nodes → cpuNum + Z.of_nat n * k * one < 2147483648 →
  read_nodes (tf_nodeCpus f) i n str cpuNum acc =
  Ret (true, cpuNum + Z.of_nat n * k * one, acc ++ map node_list (seq i n)).
Proof.
  intros (_ & _ & _ & Hf) Hk Hone. revert i str cpuNum acc.
  induction n as [|n IH]; intros i str cpuNum acc H0 Hi Hmax; cbn [read_nodes].
  { rewrite app_nil_r. do 3 f_equal. lia. }
  destruct (Hf i ltac:(lia)) as (items & Hne & Hit & -> & Hv).
  assert (print_range items ≠ []) as Hnn.
  { destruct items as [|it [|it' l]]; [done|apply print_item_nonempty|].
    cbn. by intros [?%print_item_nonempty _]%app_eq_nil. }
  destruct (print_range items) as [|b l] eqn:Ep; [done|]. rewrite <-Ep.
  rewrite getline_print_range by (eapply Forall_impl; [|exact Hit]; by intros ? []).
  assert (0 ≤ Z.of_nat n * k * one) by nia.
  assert (Z.of_nat (length (concat (map item_values items))) = k * one) as Hl.
  { rewrite Hv, length_seqZ. nia. }
  rewrite node_cpus_items by (rewrite ?Hl; first [done|lia|nia]). rewrite Hl, Hv.
  rewrite IH by nia. rewrite <-app_assoc. do 3 f_equal. nia.
Qed.

(** The topology the constructor reads from the kernel's files: the size of
    a cluster, the number of clusters and the processors of every node are the
    machine's, however the lists are written, and no count overflows. *)
Theorem ProcessCpuTopology_reads f :
  0 < nodes → 0 < k → 0 < one → nodes * k * one < 2147483648 → files_ok f →
  ∃ t, ProcessCpuTopology f = Ret t ∧ topo_ok t ∧ isSystemOfflineCpu t = false ∧
    Z.of_nat (length (cpuTopology t)) = nodes.
Proof.
  intros Hn Hk Hone Hmax Hf. pose proof Hf as (En & Ec & Eo & _).
  assert (one ≤ nodes * k * one) by (assert (1 ≤ nodes * k) by nia; nia).
  unfold ProcessCpuTopology. rewrite Ec, first_last_item, En by lia.
  rewrite decide_True by (split; apply in_range_int; lia).
  rewrite (read_nodes_run f) by (first [done|lia]). simpl app.
  eexists. split; [done|]. rewrite decide_False by lia. unfold ClusterTheorems.topo_ok. simpl.
  replace (one - 1 - 0 + 1) with one by lia. rewrite Z2Nat.id by lia.
  split_and!; try done.
  - by rewrite Z.add_0_l, Z.quot_mul by lia.
  - intros nid Hnid. rewrite list_lookup_fmap, lookup_seq_lt by lia. simpl. unfold node_list.
    by rewrite Z2Nat.id by lia.
  - by destruct Eo as [->| ->].
  - rewrite length_map, length_seq. lia.
Qed.

Definition fresh_cluster (cl : Z) : Cluster :=
  mkCluster cl (without (usable cl) (seqZ (cl * one) one)) (usable cl) [].
Definition fresh_numa (i n : Z) : NumaClusterInfo := mkNuma i (seqZ (i * k) n) [].

(** The tables with the first [i] nodes and [j] clusters of the next. *)
Definition built (s0 : Affinity) (i j : Z) (s : Affinity) : Prop :=
  clusterTopology s = clusterTopology s0 ∧ clusterSelector s = clusterSelector s0 ∧
  dockerInfos s = dockerInfos s0 ∧ isSelectorInited s = isSelectorInited s0 ∧
  (∀ n, 0 ≤ n < i → numaClusterInfo s !! n = Some (fresh_numa n k)) ∧
  (∀ n, i < n → numaClusterInfo s !! n = None) ∧
  (∀ cl, 0 ≤ cl < i * k + j → systemClusterInfo s !! cl = Some (fresh_cluster cl)).


Lemma part_seqZ m n a :
  0 ≤ a → 0 < one → a + one ≤ n →
  take (Z.to_nat one) (drop (Z.to_nat a) (seqZ m n)) = seqZ (m + a) one.
Proof.
  intros Ha Hone Hn. replace n with (a + (one + (n - a - one))) by lia.
  rewrite seqZ_app by lia. rewrite drop_app_length' by (by rewrite length_seqZ).
  rewrite seqZ_app by lia. by rewrite take_app_length' by (by rewrite length_seqZ).
Qed.

Lemma init_cluster_run s0 i j s :
  topo_ok (clusterTopology s0) → 0 ≤ i < nodes → 0 ≤ j < k → built s0 i j s →
  numaClusterInfo s !! i = Some (fresh_numa i j) →
  twp (init_cluster smt i one j (seqZ (i * k * one) (k * one))) (λ _ s', built s0 i (j + 1) s' ∧
    numaClusterInfo s' !! i = Some (fresh_numa i (j + 1))) s.
Proof.
  intros (? & ? & Hone & Hmax & _) Hi Hj (Et & Es & Ed & Ei & Hn & Hnn & Hc) Hx.
  unfold init_cluster. rewrite part_seqZ by nia.
  replace (i * k * one + j * one) with ((i * k + j) * one) by lia.
  apply twp_bind. eapply twp_deref; [by rewrite (seqZ_cons _ one) by lia|].
  rewrite Z.quot_mul by lia. cbv zeta. apply twp_bind, twp_modify, twp_bind.
  change (if smt then every_second (seqZ ((i * k + j) * one) one) else seqZ ((i * k + j) * one) one)
    with (usable (i * k + j)).
  unfold twp. erewrite numa_at_run by exact Hx. erewrite put_numa_run by exact Hx. simpl.
  split; [|rewrite lookup_insert_eq; unfold fresh_numa; do 2 f_equal; by rewrite seqZ_app by lia].
  split_and!; [done..| | |].
  - intros n ?. simpl. rewrite lookup_insert_ne by lia. by apply Hn.
  - intros n ?. simpl. rewrite lookup_insert_ne by lia. by apply Hnn.
  - intros cl ?. simpl. destruct (decide (cl = i * k + j)) as [->|]; [by rewrite lookup_insert_eq|].
    rewrite lookup_insert_ne by done. apply Hc. lia.
Qed.

Lemma init_node_run s0 i s :
  topo_ok (clusterTopology s0) → 0 ≤ i < nodes → built s0 i 0 s → numaClusterInfo s !! i = None →
  twp (init_node smt one (i, seqZ (i * k * one) (k * one))) (λ _ s', built s0 (i + 1) 0 s' ∧
    numaClusterInfo s' !! (i + 1) = None) s.
Proof.
  intros Ht Hi Hb Hx. pose proof Ht as (? & ? & Hone & _). unfold init_node.
  apply twp_bind. unfold numa_at at 1. apply twp_bind, twp_get. rewrite Hx.
  apply twp_bind, twp_modify, twp_ret, twp_bind, twp_modify. simpl. rewrite insert_insert_eq.
  rewrite length_seqZ, Z2Nat.id, Z.quot_mul by nia. set (s1 := set_numas _ _).
  eapply twp_mono; [apply (twp_for_each_idx _ _ (λ l s, built s0 i (Z.of_nat (length l)) s ∧
    numaClusterInfo s !! i = Some (fresh_numa i (Z.of_nat (length l)))))|].
  - destruct Hb as (Et & Es & Ed & Ei & Hn & Hnn & Hc). split; [|simpl; by rewrite lookup_insert_eq].
    split_and!; [done..| | |].
    + intros n ?. simpl. rewrite lookup_insert_ne by lia. by apply Hn.
    + intros n ?. simpl. rewrite lookup_insert_ne by lia. by apply Hnn.
    + intros cl ?. by apply Hc.
  - intros l1 x l2 s2 El [Hb2 Hx2].
    assert (x = Z.of_nat (length l1) ∧ Z.of_nat (length l1) < k) as [-> Hlt].
    { apply (f_equal (.!! length l1)) in El. rewrite list_lookup_middle in El by done.
      apply lookup_seqZ in El. lia. }
    rewrite length_app, Nat2Z.inj_add. apply init_cluster_run; [done|done|lia|done|done].
  - intros _ s2 [(Et & Es & Ed & Ei & Hn & Hnn & Hc) Hx2]. rewrite length_seqZ, Z2Nat.id in * by lia.
    split; [|apply Hnn; lia]. split_and!; [done..| | |].
    + intros n ?. destruct (decide (n = i)) as [->|]; [done|]. apply Hn. lia.
    + intros n ?. apply Hnn. lia.
    + intros cl ?. apply Hc. lia.
Qed.

Lemma numbered_lookup {A} (l1 l2 : list (Z * A)) (x : Z * A) (m : list A) :
  numbered m = l1 ++ x :: l2 → m !! length l1 = Some x.2 ∧ x.1 = Z.of_nat (length l1).
Proof.
  intros E. apply (f_equal (.!! length l1)) in E. rewrite list_lookup_middle in E by done.
  unfold numbered in E. rewrite list_lookup_imap in E. destruct (m !! length l1); [|done].
  simpl in E. by injection E as <-.
Qed.

Lemma InitSystemClusters_run s :
  topo_ok (clusterTopology s) → Z.of_nat (length (cpuTopology (clusterTopology s))) = nodes →
  numaClusterInfo s = ∅ → systemClusterInfo s = ∅ →
  twp (InitSystemClusters smt) (λ ok s', ok = true ∧ built s nodes 0 s') s.
Proof.
  intros Ht Hlen En Ec. pose proof Ht as (? & Hk & Hone & _ & E1 & _ & _ & Hcpus).
  unfold InitSystemClusters. apply twp_bind, twp_get. rewrite E1, decide_False by lia.
  apply twp_bind. eapply twp_mono; [apply (twp_for_each_idx _ _ (λ l s', built s (Z.of_nat (length l)) 0 s' ∧
    numaClusterInfo s' !! Z.of_nat (length l) = None))|].
  - split; [|by rewrite En]. split_and!; [done..| | |]; [intros n ?; simpl in *; lia|by rewrite En|].
    intros cl ?. simpl in *. lia.
  - intros l1 [i cpus] l2 s1 El [Hb Hx]. destruct (numbered_lookup _ _ _ _ El) as [Hl Ei].
    simpl in Hl, Ei. subst i. apply lookup_lt_Some in Hl as Hlt.
    specialize (Hcpus (Z.of_nat (length l1)) ltac:(lia)). rewrite Nat2Z.id, Hl in Hcpus.
    injection Hcpus as ->. rewrite length_app, Nat2Z.inj_add. apply init_node_run; [done|lia|done|done].
  - intros _ s1 [Hb _]. apply twp_ret. split; [done|].
    unfold numbered in Hb. by rewrite length_imap, Hlen in Hb.
Qed.

(** The tables of [Init] are in order. *)
Lemma built_placed s s' :
  topo_ok (clusterTopology s) → selector_ok (clusterSelector s) → built s nodes 0 s' →
  (∀ id d, dockerInfos s !! id = Some d → bindClusters d = []) → placed smt nodes k one s'.
Proof.
  intros Ht Hs (Et & Es & Ed & Ei & Hn & _ & Hc) Hd. split_and!.
  - unfold pool_ok. rewrite Et, Es. split_and!; [done|done| | |].
    + intros nid Hnid. eexists. split; [by apply Hn|]. unfold numa_ok. simpl. by rewrite app_nil_r.
    + intros cl Hcl. eexists. split; [apply Hc; lia|]. unfold cluster_ok. simpl. by rewrite app_nil_r.
    + intros nid x cl c Hnid Hx Hcl. rewrite Hn in Hx by done. injection Hx as <-.
      simpl in Hcl. apply elem_of_seqZ in Hcl. rewrite Hc by nia. by intros [= <-].
  - intros id d Hid Hne. rewrite Ed in Hid. by apply Hd in Hid.
  - intros id d id' d' Hid _ _ cl. rewrite Ed in Hid. rewrite (Hd id d Hid). by intros ?%not_elem_of_nil.
Qed.

(** The load of every processor leaves it some idle time, and no window of
    counts adds up to the sentinel. *)
Definition selector_wf (x : Selector) : Prop :=
  (∀ cpu, d_lt (cpu_load x cpu) (d_of_Z 100) = true) ∧
  (∀ name, 0 ≤ default 0 (scclL3cSum x !! name) < UINT64_MAX).

Lemma selector_wf_ok x : selector_wf x → selector_ok x.
Proof. intros [? Hsum]. split; [done|]. intros cl. apply Hsum. Qed.

Lemma map_clusters_run names mask last m :
  one ≠ 0 → (∀ name, is_Some (mask name)) → ∃ m', map_clusters one names mask last m = Ret m'.
Proof.
  intros Hone Hmask. revert last m. induction names as [|name names IH]; intros last m; simpl; [by eexists|].
  destruct (Hmask name) as [z ->]. rewrite decide_False by done. apply IH.
Qed.

Lemma SelectorInit_run t names mask x :
  oneClusterCpuNum t = one → one ≠ 0 → selector_wf x → l3cNameList x ++ names ≠ [] →
  (∀ name, is_Some (mask name)) → ∃ x', SelectorInit t names mask x = Ret (true, x') ∧ selector_wf x'.
Proof.
  intros E1 Hone Hwf Hne Hmask. unfold SelectorInit. rewrite E1.
  destruct (l3cNameList x ++ names) as [|n l] eqn:E; [done|].
  destruct (map_clusters_run (n :: l) mask None (clusterToL3c x) Hone Hmask) as [m' ->].
  by eexists.
Qed.

(** [Init] on a machine whose topology is uniform, with a cache monitor for
    its clusters: it succeeds, every cluster of every node is free, every
    processor that may be handed out is free in its own cluster (with SMT one of
    each pair), the others are set aside as its siblings, and the tables are in
    order for the placement of containers. *)
Theorem Init_places s names mask :
  topo_ok (clusterTopology s) → Z.of_nat (length (cpuTopology (clusterTopology s))) = nodes →
  isSystemOfflineCpu (clusterTopology s) = false → isSelectorInited s = false →
  numaClusterInfo s = ∅ → systemClusterInfo s = ∅ →
  (∀ id d, dockerInfos s !! id = Some d → bindClusters d = []) →
  selector_wf (clusterSelector s) → l3cNameList (clusterSelector s) ++ names ≠ [] →
  (∀ name, is_Some (mask name)) →
  ∃ s', Init smt names mask s = Ret (true, s') ∧ placed smt nodes k one s' ∧
    isSelectorInited s' = true ∧ dockerInfos s' = dockerInfos s ∧
    (∀ nid, 0 ≤ nid < nodes → numaClusterInfo s' !! nid = Some (fresh_numa nid k)) ∧
    (∀ cl, 0 ≤ cl < nodes * k → systemClusterInfo s' !! cl = Some (fresh_cluster cl)).
Proof.
  intros Ht Hlen Hoff Hsel Hnuma Hcl Hd Hwf Hne Hmask.
  destruct (proj1 (twp_alt _ _ _) (InitSystemClusters_run s Ht Hlen Hnuma Hcl))
    as (ok & s1 & E & -> & Hb).
  pose proof Hb as (Et & Es & Ed & Ei & Hn & Hnn & Hc). pose proof Ht as (_ & _ & Hone & _ & E1 & _).
  destruct (SelectorInit_run (clusterTopology s1) names mask (clusterSelector s1))
    as (x' & Ex & Hwf'); [by rewrite Et|lia|by rewrite Es|by rewrite Es|done|].
  exists (set_selector true x' s1). split.
  { unfold Init. rewrite run_bind, E. cbn [negb]. rewrite run_bind. cbn [get].
    rewrite Et, Hoff, Ei, Hsel. rewrite run_bind. unfold lift. by rewrite <-Et, Ex. }
  split; [|split_and!; [done|done|done|]].
  - apply (built_placed (set_selector true x' s)); [done|by apply selector_wf_ok| |done].
    by split_and!.
  - intros cl ?. apply Hc. lia.
Qed.
End setup.

(** ** A round of binding *)

Section round.
Context `{SH : Shell} `{HO : HashOrder}.
Context (smt : bool) (nodes k one : Z).
#[local] Notation placed := (placed smt nodes k one).
#[local] Notation bindable := (bindable smt nodes one).
#[local] Notation round_result := (round_result nodes).
#[local] Notation stuck := (stuck smt nodes one).
#[local] Notation settled := (settled nodes).

End round.

(** ** A small machine *)

(** Two nodes of two clusters of four processors, a container on each
    node and a shell that runs every command. *)
Definition shell_ok : Shell := {| popen_ok := λ _ _, true |}.
Definition demo_files : TopologyFiles := {|
  tf_nodes := 2;
  tf_clusterCpus := Some (bytes_of "0-3");
  tf_offline := None;
  tf_nodeCpus := λ i, match i with O => Some (bytes_of "0-2,3-7") | _ => Some (bytes_of "8-15") end
|}.
Definition demo_topo : Topology := Eval vm_compute in
  match ProcessCpuTopology demo_files with Ret t => t | _ => mkTopology 0 0 0 [] false end.
Definition demo_container (id : string) (cpus : Z) (mems : string) : Container :=
  mkContainer id 100000 (cpus * 100000) 0 EmptyString mems 0.
Definition demo_docker (id : string) (cpus : Z) (mems : string) : DockerResourceInfo :=
  match init_docker (demo_container id cpus mems) docker0 (ClusterAffinityAdapt demo_topo) with
  | Ret (d, _) => d
  | _ => docker0
  end.
Definition demo_dockers : gmap string DockerResourceInfo :=
  <["a"%string := demo_docker "a" 3 "0"]> {["b"%string := demo_docker "b" 6 "1"]}.
Definition demo_start : Affinity := set_dockers demo_dockers (ClusterAffinityAdapt demo_topo).
Definition demo : Affinity :=
  match InitSystemClusters false demo_start with Ret (_, s) => s | _ => demo_start end.

Section demo.
#[local] Existing Instances shell_ok hash_ref.

Lemma demo_topo_ok : topo_ok 2 2 4 demo_topo.
Proof.
  unfold topo_ok. split_and!; try done. intros nid Hnid.
  assert (nid = 0 ∨ nid = 1) as [->| ->] by lia; by vm_compute.
Qed.

Lemma selector0_wf : selector_wf Selector0.
Proof. split; [by intros; vm_compute|]. intros. unfold Selector0. simpl. by rewrite lookup_empty. Qed.

Lemma demo_unbound id d : demo_dockers !! id = Some d → bindClusters d = [] ∧
  (d = demo_docker "a" 3 "0" ∧ id = "a"%string ∨ d = demo_docker "b" 6 "1" ∧ id = "b"%string).
Proof.
  unfold demo_dockers. rewrite lookup_insert_Some, lookup_singleton_Some.
  intros [[<- <-]|[_ [<- <-]]]; (split; [by vm_compute|]); [by left|by right].
Qed.

Lemma demo_placed : placed false 2 2 4 demo.
Proof.
  destruct (proj1 (twp_alt _ _ _) (InitSystemClusters_run false 2 2 4 demo_start demo_topo_ok eq_refl
    eq_refl eq_refl)) as (ok & s & E & _ & Hb).
  unfold demo. rewrite E. apply (built_placed _ _ _ _ demo_start); [apply demo_topo_ok| |done|].
  - apply selector_wf_ok, selector0_wf.
  - intros id d Hd. by apply demo_unbound in Hd as [? _].
Qed.

Lemma demo_bindable id d : dockerInfos demo !! id = Some d → bindable false 2 4 demo id d.
Proof.
  change (dockerInfos demo) with demo_dockers. intros [_ Hd]%demo_unbound. right.
  destruct Hd as [[-> ->]|[-> ->]]; [exists 0, 1, 3|exists 1, 2, 6];
    (split; [by vm_compute|]; split; [lia|]; split; [by vm_compute|]; split; [by vm_compute|];
     split; [lia|]; split; by vm_compute).
Qed.

Lemma ProcessCpuTopology_reads_witness :
  ∃ t, ProcessCpuTopology demo_files = Ret t ∧ topo_ok 2 2 4 t ∧ isSystemOfflineCpu t = false ∧
    Z.of_nat (length (cpuTopology t)) = 2.
Proof.
  apply (ProcessCpuTopology_reads 2 2 4 demo_files); [lia..|]. split; [done|]. split; [by vm_compute|].
  split; [by left|]. intros i Hi.
  assert (i = 0%nat ∨ i = 1%nat) as [->| ->] by lia.
  - exists [Range 0 2; Range 3 7]. split; [done|]. split; [repeat constructor; simpl; lia|].
    split; by vm_compute.
  - exists [Range 8 15]. split; [done|]. split; [repeat constructor; simpl; lia|]. split; by vm_compute.
Defined.

Lemma Init_places_witness :
  ∃ s, Init false ["hisi_sccl1_l3c0"%string] (λ _, Some 0) (ClusterAffinityAdapt demo_topo) = Ret (true, s) ∧
    placed false 2 2 4 s ∧ isSelectorInited s = true ∧ dockerInfos s = ∅ ∧
    (∀ nid, 0 ≤ nid < 2 → numaClusterInfo s !! nid = Some (fresh_numa 2 nid 2)) ∧
    (∀ cl, 0 ≤ cl < 2 * 2 → systemClusterInfo s !! cl = Some (fresh_cluster false 4 cl)).
Proof.
  apply (Init_places false 2 2 4 (ClusterAffinityAdapt demo_topo) ["hisi_sccl1_l3c0"%string] (λ _, Some 0));
    [apply demo_topo_ok|done..| |apply selector0_wf|done|by intros; eexists].
  intros id d Hd. simpl in Hd. by rewrite lookup_empty in Hd.
Defined.


(** The state after it. *)
Definition demo_bound : Affinity :=
  match DockerOptimizeBindSchedule false demo with Ret (_, s) => s | _ => demo end.
Definition demo_a : DockerResourceInfo := default docker0 (dockerInfos demo_bound !! "a"%string).

Lemma demo_bound_placed : placed false 2 2 4 demo_bound.
Proof.
  destruct (bind_all_places false 2 2 4 (hash_order (dom (dockerInfos demo))) demo)
    as (s & E & Hp & _); [apply demo_placed|apply NoDup_hash_order| |].
  { intros id Hid. rewrite elem_of_hash_order in Hid. apply elem_of_dom in Hid as [d Hd].
    exists d. split; [done|by apply demo_bindable]. }
  assert (DockerOptimizeBindSchedule false demo = Ret (tt, s)) as E' by exact E.
  unfold demo_bound. by rewrite E'.
Qed.

Lemma demo_a_lookup : dockerInfos demo_bound !! "a"%string = Some demo_a.
Proof. by vm_compute. Qed.

Lemma demo_a_settled : settled 2 demo_bound 0 demo_a.
Proof.
  assert (bindClusters demo_a = [0]) as Eb by by vm_compute.
  split_and!; [|by vm_compute|].
  - split; [lia|]. rewrite Eb. split; [done|]. split; [apply NoDup_singleton|].
    exists (mkNuma 0 [1] [0]). split; by vm_compute.
  - assert (currentCpuSet demo_a = [0; 1; 2]) as -> by by vm_compute.
    assert (concat (map (held (systemClusterInfo demo_bound)) (bindClusters demo_a)) = [0; 1; 2]) as ->
      by by vm_compute. done.
Qed.
End demo.
