(* ===== verification/ClusterLending.v ===== *)
(** * Lending and returning processors

    What [DockerAddCpuLimitComm] and [DockerMinusCpuLimitComm] do to the tables
    and to the container, and what [RecoverInitialBindStatus] leaves of them. *)

From Stdlib Require Import ZArith Lia Strings.Byte.
From stdpp Require Import base list strings gmap numbers.
From S2P Require Import Prelude Bytes StdString Utils Doubles ClusterSelector.
From S2P Require Import Config Daemon World ClusterAffinity ClusterTheorems.
From S2P Require Import ClusterPlacement ClusterSetup.

Section lending.
Context `{SH : Shell} `{HO : HashOrder}.
Context (smt : bool) (nodes k one : Z).

#[local] Notation topo_ok := (topo_ok nodes k one).
#[local] Notation usable := (usable smt one).
#[local] Notation cores := (cores smt one).
#[local] Notation cluster_ok := (cluster_ok smt one).
#[local] Notation pool_ok := (pool_ok smt nodes k one).
#[local] Notation placed := (placed smt nodes k one).
#[local] Notation settled := (settled nodes).
#[local] Notation bound_to := (bound_to nodes).

(** ** A container's record *)

Lemma bound_cluster s nid d cl :
  pool_ok s → bound_to s nid d → cl ∈ bindClusters d →
  0 ≤ cl < nodes * k ∧ ∃ c, systemClusterInfo s !! cl = Some c ∧ cluster_ok cl c.
Proof.
  intros Hp (Hnid & _ & _ & x & Hx & Hsub) Hcl. pose proof Hp as ((_ & Hk & _) & _ & _ & Hc & _).
  assert (0 ≤ cl < nodes * k) as Hr; [|split; [done|by apply Hc]].
  eapply (numa_range nodes k nid x); [done|done|by eapply pool_numa|]. right. by apply Hsub.
Qed.

Lemma settled_small s nid d :
  pool_ok s → settled s nid d → Forall (λ n, 0 ≤ n < 2147483647) (currentCpuSet d).
Proof.
  intros Hp (Hb & _ & E). pose proof Hp as ((_ & Hk & Hone & Hmax & _) & _).
  apply list.Forall_forall. intros n Hn. rewrite E in Hn.
  apply elem_of_held in Hn as (cl & Hcl & Hn).
  destruct (bound_cluster s nid d cl Hp Hb Hcl) as (Hr & c & Hc & Hok).
  unfold held in Hn. rewrite Hc in Hn.
  destruct (cluster_ok_NoDup smt one cl c Hok) as (_ & _ & _ & Hrange).
  specialize (Hrange n (or_intror Hn)). nia.
Qed.

Lemma update_limit_run id d limit s :
  dockerInfos s !! id = Some d → Forall (λ n, 0 ≤ n < 2147483647) (currentCpuSet d) →
  ∃ ok log, update_limit id limit s =
    Ret (ok, set_cmds log (set_dockers (<[id := with_limit limit d]> (dockerInfos s)) s)).
Proof.
  intros Hd Hs. unfold update_limit. rewrite run_bind, (docker_at_run id d) by done.
  destruct (Convert_run _ Hs) as (t & E). rewrite run_bind. unfold lift. rewrite E, run_bind.
  rewrite put_docker_run. apply run_commands_run.
Qed.

(** The record and the tables agree after a change: the last step of both
    functions. *)
Lemma settle s s' id d d' (touched : list Z) nid :
  placed s → dockerInfos s !! id = Some d → pool_ok s' →
  dockerInfos s' = <[id := d']> (dockerInfos s) →
  (∀ i e n, i ≠ id → dockerInfos s !! i = Some e → bound_to s n e → bound_to s' n e) →
  (∀ cl, cl ∉ touched → systemClusterInfo s' !! cl = systemClusterInfo s !! cl) →
  (∀ i e cl, i ≠ id → dockerInfos s !! i = Some e → cl ∈ bindClusters e →
     cl ∉ touched ∧ cl ∉ bindClusters d') →
  settled s' nid d' → placed s' ∧ others_kept nodes id s s'.
Proof.
  intros Hpl Hd Hp' Ed Hkeep Hout Hdis (Hb & _). split.
  - eapply placed_update; [done|done|exact Ed|done|by eexists|].
    intros i e cl Hne He Hcl. by eapply Hdis.
  - eapply others_kept_intro; [done|done|exact Hout|].
    intros i e m cl Hne He _ Hcl. by eapply Hdis.
Qed.

(** ** Borrowing *)

(** There is room for [need] more processors: in the container's last cluster,
    or in free clusters of its node. *)
Definition room (s : Affinity) (nid clusterId need : Z) : Prop :=
  ∃ c x, systemClusterInfo s !! clusterId = Some c ∧ numaClusterInfo s !! nid = Some x ∧
    let rest := need - Z.of_nat (length (freeCpuCores c)) in
    rest ≤ 0 ∨ ∃ n, 0 < n ≤ Z.of_nat (length (freeInfoVec x)) ∧ (n - 1) * cores < rest ≤ n * cores ∧
      d_to_int CUlong (d_ceil (d_div (d_of_Z rest) (d_of_Z (Z.quot one (if smt then 2 else 1))))) = Ret n.

(** What taking [l] from the last cluster and from the free clusters [cls] does
    to the tables. *)
Record extended (s : Affinity) (nid clusterId : Z) (l cls : list Z) (s' : Affinity) : Prop := {
  ext_pool : pool_ok s';
  ext_dockers : dockerInfos s' = dockerInfos s;
  ext_numas : ∃ x f, numaClusterInfo s !! nid = Some x ∧ cls ⊆ freeInfoVec x ∧
    numaClusterInfo s' = <[nid := mkNuma (numaId x) f (occupiedInfoVec x ++ cls)]> (numaClusterInfo s);
  ext_NoDup : NoDup cls;
  ext_clusters : ∀ cl, cl ∉ clusterId :: cls → systemClusterInfo s' !! cl = systemClusterInfo s !! cl;
  ext_held : concat (map (held (systemClusterInfo s')) (clusterId :: cls)) ≡ₚ
    held (systemClusterInfo s) clusterId ++ l
}.

Lemma take_some_extends s nid d clusterId n :
  pool_ok s → bound_to s nid d → clusterId ∈ bindClusters d →
  (∃ c, systemClusterInfo s !! clusterId = Some c ∧ n ≤ length (freeCpuCores c))%nat →
  ∃ l s', take_some clusterId n [] s = Ret (l, s') ∧ length l = n ∧ extended s nid clusterId l [] s'.
Proof.
  intros Hp Hb Hcl (c & Hc & Hn). pose proof Hp as (Ht & Hs & _).
  destruct (bound_cluster s nid d clusterId Hp Hb Hcl) as (Hr & c' & Hc' & Hok). simplify_eq.
  destruct (take_some_run smt nodes k one clusterId n [] s c) as (l & f & Hl & Hok' & E);
    [done..|by intros ? ?%not_elem_of_nil|done|].
  eexists l, _. split; [exact E|]. split; [done|]. split.
  - apply pool_ok_cluster; [done|done|]. intros m x Hm Hx. by eapply (bound_not_free smt nodes k one s nid d).
  - done.
  - destruct Hb as (_ & _ & _ & x & Hx & _). exists x, (freeInfoVec x). split; [done|].
    split; [apply list_subseteq_nil|]. simpl. rewrite app_nil_r, insert_id; [done|]. rewrite Hx. by destruct x.
  - constructor.
  - intros cl Hne. simpl. rewrite lookup_insert_ne; [done|]. set_solver.
  - simpl. unfold held. rewrite lookup_insert_eq, Hc. simpl. by rewrite app_nil_r.
Qed.

(** All the processors that the last cluster has left. *)
Lemma take_all_extends s nid d clusterId c :
  pool_ok s → bound_to s nid d → clusterId ∈ bindClusters d → systemClusterInfo s !! clusterId = Some c →
  ∃ s', take_all clusterId s = Ret (freeCpuCores c, s') ∧ extended s nid clusterId (freeCpuCores c) [] s' ∧
    clusterTopology s' = clusterTopology s ∧ clusterSelector s' = clusterSelector s ∧
    numaClusterInfo s' = numaClusterInfo s.
Proof.
  intros Hp Hb Hcl Hc. destruct (bound_cluster s nid d clusterId Hp Hb Hcl) as (Hr & c' & Hc' & Hok).
  simplify_eq. eexists. split; [by apply take_all_run|]. split; [|done]. split.
  - apply pool_ok_cluster; [done| |].
    + unfold ClusterTheorems.cluster_ok in *. simpl. by rewrite (Permutation_app_comm (occupiedCpuCores c)).
    + intros m x Hm Hx. by eapply (bound_not_free smt nodes k one s nid d).
  - done.
  - destruct Hb as (_ & _ & _ & x & Hx & _). exists x, (freeInfoVec x). split; [done|].
    split; [apply list_subseteq_nil|]. simpl. rewrite app_nil_r, insert_id; [done|]. rewrite Hx. by destruct x.
  - constructor.
  - intros cl Hne. simpl. rewrite lookup_insert_ne; [done|]. set_solver.
  - simpl. unfold held. rewrite lookup_insert_eq, Hc. simpl. by rewrite app_nil_r.
Qed.

(** Clusters of the node, and [rest] of their processors. *)
Lemma add_clusters_run s nid x n rest taken :
  pool_ok s → 0 ≤ nid < nodes → numaClusterInfo s !! nid = Some x →
  0 < n ≤ Z.of_nat (length (freeInfoVec x)) → (n - 1) * cores < rest ≤ n * cores → in_range CUlong rest →
  d_to_int CUlong (d_ceil (d_div (d_of_Z rest) (d_of_Z (Z.quot one (if smt then 2 else 1))))) = Ret n →
  (∀ cpu cl, cpu ∈ taken → cl ∈ freeInfoVec x → cpu ∉ usable cl) →
  ∃ l cls f s', add_clusters smt nid rest taken s = Ret ((taken ++ l, cls), s') ∧ pool_ok s' ∧
    dockerInfos s' = dockerInfos s ∧ NoDup cls ∧ cls ⊆ freeInfoVec x ∧
    numaClusterInfo s' =
      <[nid := mkNuma (numaId x) f (occupiedInfoVec x ++ cls)]> (numaClusterInfo s) ∧
    taken_from smt one cls l (systemClusterInfo s) (systemClusterInfo s') ∧
    Z.of_nat (length l) = rest.
Proof.
  intros Hp Hnid Hx Hn Hfit Hrest Eneed Htk.
  pose proof Hp as (Ht & Hs & _ & Hc & Hfree). pose proof Ht as (_ & Hk & Hone & Hmax & E1 & _).
  pose proof (pool_numa smt nodes k one s nid x Hp Hnid Hx) as Hok.
  destruct (select_refresh_run nodes k one nid (Z.to_nat n) s x)
    as (used & cls & f & Eflags & Hnd & Hsub & Hlen & Esel & Hok' & Ef & Hff & Hfc);
    [done..|lia|].
  set (s1 := set_numas (<[nid := mkNuma (numaId x) f (occupiedInfoVec x ++ cls)]> (numaClusterInfo s)) s).
  assert (∀ cl, cl ∈ cls → 0 ≤ cl < nodes * k) as Hr.
  { intros cl Hcl. eapply (numa_range nodes k nid x); [done|done|done|left; by apply Hsub]. }
  destruct (take_from_clusters_run smt nodes k one cls rest taken s1) as (l & m' & Et & Htaken & Hl);
    [done|done| |done| | |by rewrite Hlen, Z2Nat.id by lia|done|].
  { intros ->. simpl in Hlen. lia. }
  { intros cl Hcl. split; [by apply Hr|]. destruct (Hc cl (Hr cl Hcl)) as (c & Hcc & Hcok).
    exists c. split_and!; [done|done|]. eapply (Hfree nid x); [done|done|by apply Hsub|done]. }
  { intros cpu cl ? Hcl. apply Htk; [done|by apply Hsub]. }
  exists l, cls, f, (set_clusters m' s1). split.
  { unfold add_clusters. rewrite run_bind. simpl. rewrite E1, run_bind. unfold lift at 1.
    rewrite Eneed, run_bind, Eflags, run_bind, Esel, run_bind.
    erewrite refresh_free_run by (simpl; apply lookup_insert_eq). simpl.
    rewrite insert_insert_eq, run_bind. unfold set_numas at 1. simpl. rewrite <-Ef.
    change (mkAffinity _ _ _ _ _ _ _ _ _ _ _) with s1. by rewrite Et. }
  split_and!; try done; [by eapply (pool_ok_assign smt nodes k one s _ nid x f cls l m')|apply Htaken..].
Qed.

Lemma take_extra_run s nid d clusterId need :
  pool_ok s → bound_to s nid d → clusterId ∈ bindClusters d → in_range CUlong need →
  room s nid clusterId need →
  ∃ c l cls s', systemClusterInfo s !! clusterId = Some c ∧
    take_extra smt nid clusterId need (Z.of_nat (length (freeCpuCores c))) s = Ret ((l, cls), s') ∧
    Z.of_nat (length l) = need ∧ extended s nid clusterId l cls s'.
Proof.
  intros Hp Hb Hcl Hneed (c & x & Hc & Hx & Hroom). apply in_range_ulong_inv in Hneed as Hr.
  exists c. unfold take_extra. case_decide as Hle.
  { destruct (take_some_extends s nid d clusterId (Z.to_nat need)) as (l & s' & E & Hl & Hext);
      [done..|exists c; split; [done|lia]|].
    exists l, [], s'. rewrite run_bind, E. split; [done|]. split; [done|]. split; [lia|done]. }
  destruct Hroom as [?|(n & Hn & Hfit & En)]; [lia|].
  destruct (take_all_extends s nid d clusterId c) as (s1 & E1 & Hext & Et & Es & Enu); [done..|].
  rewrite run_bind, E1. destruct Hb as (Hnid & Hb). pose proof (ext_pool _ _ _ _ _ _ Hext) as Hp1.
  destruct (bound_cluster s nid d clusterId Hp (conj Hnid Hb) Hcl) as (Hr0 & c' & Hc' & Hok). simplify_eq.
  assert (clusterId ∉ freeInfoVec x) as Hnf by (by eapply (bound_not_free smt nodes k one s nid d)).
  destruct (add_clusters_run s1 nid x n (need - Z.of_nat (length (freeCpuCores c))) (freeCpuCores c))
    as (l & cls & f & s2 & E2 & Hp2 & Ed2 & Hnd & Hsub & En2 & (Hout & _ & Hl) & Hlen);
    [done|done|by rewrite Enu|done|done|apply in_range_ulong; lia|done| |].
  { intros cpu cl Hcpu Hf Hu. apply usable_range in Hu.
    destruct (cluster_ok_NoDup smt one clusterId c Hok) as (_ & _ & _ & Hrange).
    specialize (Hrange cpu (or_introl Hcpu)). pose proof Hp as ((_ & _ & Hone & _) & _).
    assert (cl = clusterId) as -> by nia. done. }
  eexists _, cls, s2. split; [done|]. split; [exact E2|]. split; [rewrite length_app; lia|].
  assert (clusterId ∉ cls) as Hncls by (intros ?; by apply Hnf, Hsub).
  destruct Hext as [_ Ed1 _ _ Hc1 Hh1]. split; [done|congruence| |done| |].
  - exists x, f. split; [done|]. split; [done|]. by rewrite En2, Enu.
  - intros cl [? ?]%not_elem_of_cons. rewrite Hout by done. apply Hc1. by intros ?%list_elem_of_singleton.
  - cbn [map concat] in *. rewrite app_nil_r in Hh1. rewrite app_assoc, <-Hh1, <-Hl.
    unfold held at 1. rewrite Hout by done. done.
Qed.

(** The container with what it was given. *)
Lemma extended_settled s s' s2 nid id d d' clusterId l cls :
  placed s → dockerInfos s !! id = Some d → settled s nid d →
  list.last (bindClusters d) = Some clusterId → extended s nid clusterId l cls s' →
  pool_ok s2 → numaClusterInfo s2 = numaClusterInfo s' → systemClusterInfo s2 = systemClusterInfo s' →
  dockerInfos s2 = <[id := d']> (dockerInfos s) →
  bindClusters d' = bindClusters d ++ cls → currentCpuSet d' = currentCpuSet d ++ l →
  currentMemSet d' = currentMemSet d →
  placed s2 ∧ settled s2 nid d' ∧ others_kept nodes id s s2.
Proof.
  intros Hpl Hd Hset Hlast [Hp' _ (x & f & Hx & Hsub & En) Hnd Hout Hheld] Hp2 En2 Ec2 Ed2 Eb Ecpu Em.
  pose proof Hset as ((Hnid & Hne & Hndb & y & Hy & Hsuby) & Hm & Hcur). simplify_eq.
  pose proof Hpl as (Hp & Hbound & Hdis).
  apply last_Some in Hlast as (bs & Ebs). rewrite Ebs in Hndb, Hcur, Hsuby.
  assert (∀ cl, cl ∈ bs ++ [clusterId] → cl ∉ cls) as Hold.
  { intros cl Hcl Hin. eapply (bound_not_free smt nodes k one s nid d cl nid x);
      [done|by destruct Hset|by rewrite Ebs|done|done|by apply Hsub]. }
  assert (∀ i e n, i ≠ id → dockerInfos s !! i = Some e → bound_to s n e → bound_to s2 n e) as Hkeep.
  { intros i e n _ _ Hb. eapply bound_to_mono; [done|]. rewrite En2, En. by apply grow_insert. }
  assert (settled s2 nid d') as Hset2.
  { split_and!; [|by rewrite Em|].
    - split; [done|]. rewrite Eb, Ebs. split; [by destruct bs|]. split.
      { apply list.NoDup_app. split_and!; [done|exact Hold|done]. }
      eexists. split; [rewrite En2, En; apply lookup_insert_eq|]. simpl. set_solver.
    - rewrite Ecpu, Eb, Ebs, Hcur, <-app_assoc, !map_app, !concat_app, Ec2.
      rewrite (held_ext (systemClusterInfo s) (systemClusterInfo s') bs).
      + simpl. rewrite !app_nil_r, <-app_assoc. f_equiv. symmetry. exact Hheld.
      + intros cl Hcl. apply Hout. intros [->|Hin]%elem_of_cons.
        * apply list.NoDup_app in Hndb as (_ & Hb & _). by apply (Hb clusterId Hcl); left.
        * eapply Hold; [|exact Hin]. apply elem_of_app. by left. }
  destruct (settle s s2 id d d' (clusterId :: cls) nid) as [? ?]; [done..| | |done|done].
  - intros cl Hcl. rewrite Ec2. by apply Hout.
  - intros i e cl Hne' He Hcl. assert (cl ∉ bindClusters d ++ cls) as Hall.
    2:{ rewrite Eb. split; [|done]. rewrite Ebs in Hall. set_solver. }
    intros [Hin|Hin]%elem_of_app.
    + by apply (Hdis i e id d He Hd Hne' cl).
    + destruct (Hbound i e He) as (n & Hb); [by eapply elem_not_nil|].
      eapply (bound_not_free smt nodes k one s n e cl nid x); [done|done|done|done|done|by apply Hsub].
Qed.


(** ** Lending *)

(** A container gives back the processors [g], and the clusters that are empty
    by then, down to [d']. *)
Record shrunk (s : Affinity) (nid : Z) (id : string) (d : DockerResourceInfo)
    (s' : Affinity) (d' : DockerResourceInfo) (g : list Z) : Prop := {
  shr_pool : pool_ok s';
  shr_bound : bound_to s' nid d';
  shr_entry : d' = with_clusters (bindClusters d') d;
  shr_sub : bindClusters d' ⊆ bindClusters d;
  shr_dockers : dockerInfos s' = <[id := d']> (dockerInfos s);
  shr_clusters : ∀ cl, cl ∉ bindClusters d → systemClusterInfo s' !! cl = systemClusterInfo s !! cl;
  shr_numas : ∀ n x, numaClusterInfo s !! n = Some x → ∃ x', numaClusterInfo s' !! n = Some x' ∧
    ∀ c, c ∈ occupiedInfoVec x → c ∉ bindClusters d ∨ c ∈ bindClusters d' → c ∈ occupiedInfoVec x';
  shr_held : concat (map (held (systemClusterInfo s)) (bindClusters d)) ≡ₚ
    g ++ concat (map (held (systemClusterInfo s')) (bindClusters d'))
}.

Lemma with_clusters_id d : with_clusters (bindClusters d) d = d.
Proof. by destruct d. Qed.

Lemma shrunk_refl s nid id d :
  pool_ok s → bound_to s nid d → dockerInfos s !! id = Some d → shrunk s nid id d s d [].
Proof.
  intros Hp Hb Hd. split; try done; [by rewrite with_clusters_id|by rewrite insert_id|].
  intros n x Hx. by exists x; eauto.
Qed.

Lemma shrunk_trans s nid id d s1 d1 g1 s2 d2 g2 :
  shrunk s nid id d s1 d1 g1 → shrunk s1 nid id d1 s2 d2 g2 → shrunk s nid id d s2 d2 (g1 ++ g2).
Proof.
  intros [Hp1 Hb1 He1 Hs1 Hd1 Hc1 Hn1 Hh1] [Hp2 Hb2 He2 Hs2 Hd2 Hc2 Hn2 Hh2].
  split; [done|done| |by etrans| | | |].
  - rewrite He2, He1 at 1. done.
  - by rewrite Hd2, Hd1, insert_insert_eq.
  - intros cl Hcl. rewrite Hc2; [by apply Hc1|]. intros ?. by apply Hcl, Hs1.
  - intros n x Hx. destruct (Hn1 n x Hx) as (x1 & Hx1 & Ho1). destruct (Hn2 n x1 Hx1) as (x2 & Hx2 & Ho2).
    exists x2. split; [done|]. intros c Hc [Hni|Hin].
    + apply Ho2; [apply Ho1; [done|by left]|]. left. intros ?. by apply Hni, Hs1.
    + apply Ho2; [|by right]. apply Ho1; [done|right; by apply Hs2].
  - by rewrite Hh1, Hh2, app_assoc.
Qed.

(** One processor of the last cluster. *)
Lemma give_cpu_step s nid id d bs cl c cpu o :
  pool_ok s → bound_to s nid d → dockerInfos s !! id = Some d → bindClusters d = bs ++ [cl] →
  systemClusterInfo s !! cl = Some c → occupiedCpuCores c = o ++ [cpu] →
  shrunk s nid id d (set_clusters (<[cl := with_cores c (freeCpuCores c ++ [cpu]) o]>
    (systemClusterInfo s)) s) d [cpu].
Proof.
  intros Hp Hb Hd Ebs Hc Ho.
  assert (cl ∈ bindClusters d) as Hcl by (rewrite Ebs; apply elem_of_app; right; left).
  destruct (bound_cluster s nid d cl Hp Hb Hcl) as (_ & c' & Hc' & Hok). simplify_eq.
  assert (cl ∉ bs) as Hni.
  { destruct Hb as (_ & _ & Hnd & _). rewrite Ebs in Hnd. apply list.NoDup_app in Hnd as (_ & Hx & _).
    intros Hin. apply (Hx cl Hin). left. }
  split; [|done|by rewrite with_clusters_id|done|by simpl; rewrite insert_id| | |].
  - apply pool_ok_cluster; [done| |].
    + unfold ClusterTheorems.cluster_ok in *. simpl. rewrite <-Hok, Ho, <-app_assoc. f_equiv.
      apply Permutation_app_comm.
    + intros m x Hm Hx. by eapply (bound_not_free smt nodes k one s nid d).
  - intros cl' Hcl'. simpl. rewrite lookup_insert_ne; [done|]. by intros <-.
  - intros n x Hx. by exists x; eauto.
  - rewrite Ebs, !map_app, !concat_app. simpl. rewrite held_insert, !app_nil_r by done.
    unfold held at 2 4. rewrite Hc, lookup_insert_eq, Ho. simpl.
    rewrite app_assoc. apply Permutation_app_comm.
Qed.

Lemma numa_ok_give nid x cl :
  numa_ok k nid x → cl ∈ occupiedInfoVec x →
  numa_ok k nid (mkNuma (numaId x) (freeInfoVec x ++ [cl]) (filter (λ i, i ≠ cl) (occupiedInfoVec x))).
Proof.
  intros Hok Hcl. destruct (numa_ok_facts k nid x Hok) as (_ & Hno & _).
  unfold numa_ok in *. simpl. rewrite <-Hok, <-app_assoc. f_equiv.
  assert (filter (λ i, i ≠ cl) (occupiedInfoVec x) = without [cl] (occupiedInfoVec x)) as ->.
  { unfold without. apply list_filter_iff. intros n. by rewrite list_elem_of_singleton. }
  symmetry. apply without_perm; [apply NoDup_singleton|done|]. intros n ?%list_elem_of_singleton. by subst.
Qed.

(** The last cluster, which is empty. *)
Lemma give_cluster_step s nid id d bs cl c x :
  pool_ok s → bound_to s nid d → dockerInfos s !! id = Some d → bindClusters d = bs ++ [cl] → bs ≠ [] →
  systemClusterInfo s !! cl = Some c → occupiedCpuCores c = [] → numaClusterInfo s !! nid = Some x →
  shrunk s nid id d
    (set_dockers (<[id := with_clusters bs d]> (dockerInfos s)) (set_numas (<[nid := mkNuma (numaId x)
      (freeInfoVec x ++ [cl]) (filter (λ i, i ≠ cl) (occupiedInfoVec x))]> (numaClusterInfo s)) s))
    (with_clusters bs d) [].
Proof.
  intros Hp Hb Hd Ebs Hne Hc Ho Hx. pose proof Hb as (Hnid & _ & Hnd & y & Hy & Hsub). simplify_eq.
  rewrite Ebs in Hnd, Hsub. apply list.NoDup_app in Hnd as (Hnd & Hni & _).
  assert (cl ∈ occupiedInfoVec x) as Hcl by (apply Hsub; set_solver).
  pose proof (pool_numa smt nodes k one s nid x Hp Hnid Hx) as Hok.
  assert (∀ i, i ∈ bs → i ≠ cl) as Hdiff by (intros i Hi ->; apply (Hni cl Hi); left).
  split.
  - destruct Hp as (Ht & Hs & Hn & Hcs & Hf). split_and!; [done|done| |done|]; simpl.
    + intros m Hm. destruct (decide (nid = m)) as [<-|?].
      * rewrite lookup_insert_eq. eexists. split; [done|]. by apply numa_ok_give.
      * rewrite lookup_insert_ne by done. by apply Hn.
    + intros m z i ci Hm Hz Hi Hci. destruct (decide (nid = m)) as [<-|?].
      * rewrite lookup_insert_eq in Hz. injection Hz as <-. simpl in Hi.
        apply elem_of_app in Hi as [Hi|Hi%list_elem_of_singleton]; [by eapply Hf|]. by simplify_eq.
      * rewrite lookup_insert_ne in Hz by done. by eapply Hf.
  - split; [done|]. split; [done|]. split; [done|]. eexists. simpl. split; [apply lookup_insert_eq|].
    simpl. intros i Hi. apply list_elem_of_filter. split; [by apply Hdiff|]. apply Hsub. set_solver.
  - done.
  - simpl. rewrite Ebs. set_solver.
  - done.
  - done.
  - intros n z Hz. simpl. destruct (decide (nid = n)) as [<-|?].
    + eexists. split; [apply lookup_insert_eq|]. simplify_eq. simpl. intros i Hi Hor.
      apply list_elem_of_filter. split; [|done]. destruct Hor as [Hn|Hn]; [|by apply Hdiff].
      intros ->. apply Hn. rewrite Ebs. set_solver.
    + exists z. rewrite lookup_insert_ne by done. by eauto.
  - simpl. rewrite Ebs, map_app, concat_app. simpl. unfold held at 2. by rewrite Hc, Ho, !app_nil_r.
Qed.

(** The number of processors of a list of clusters. *)
Definition holding (s : Affinity) (d : DockerResourceInfo) : nat :=
  length (concat (map (held (systemClusterInfo s)) (bindClusters d))).

Lemma bound_last s nid d : pool_ok s → bound_to s nid d →
  ∃ bs cl c, bindClusters d = bs ++ [cl] ∧ systemClusterInfo s !! cl = Some c.
Proof.
  intros Hp Hb. pose proof Hb as (_ & Hne & _). destruct (bindClusters d) as [|x l _] eqn:E using rev_ind; [done|].
  destruct (bound_cluster s nid d x Hp Hb) as (_ & c & Hc & _); [rewrite E; set_solver|]. by exists l, x, c.
Qed.

Lemma give_clusters_run fuel n minus s nid id d :
  pool_ok s → bound_to s nid d → dockerInfos s !! id = Some d →
  (n ≤ holding s d)%nat → (n + length (bindClusters d) ≤ fuel)%nat →
  ∃ g s' d', give_clusters id nid fuel n minus s = Ret (minus ++ g, s') ∧ length g = n ∧
    shrunk s nid id d s' d' g.
Proof.
  revert n minus s d. induction fuel as [|fuel IH]; intros n minus s d Hp Hb Hd Hn Hfuel;
    (destruct n as [|n];
      [exists [], s, d; rewrite app_nil_r; split_and!; [done|done|by apply shrunk_refl]|]); [lia|].
  destruct (bound_last s nid d Hp Hb) as (bs & cl & c & Ebs & Hc). cbn [give_clusters].
  rewrite run_bind, (docker_at_run id d) by done. rewrite run_bind, Ebs, last_snoc.
  rewrite (deref_run _ cl) by done. rewrite run_bind, (cluster_at_run cl c) by done.
  destruct (list.last (occupiedCpuCores c)) as [cpu|] eqn:El.
  - apply last_Some in El as (o & Ho). rewrite run_bind, (put_cluster_run cl c) by done.
    rewrite Ho, removelast_last. pose proof (give_cpu_step s nid id d bs cl c cpu o Hp Hb Hd Ebs Hc Ho) as Hst.
    destruct (IH n (minus ++ [cpu]) _ d (shr_pool _ _ _ _ _ _ _ Hst) (shr_bound _ _ _ _ _ _ _ Hst))
      as (g & s' & d' & E & Hl & Hs'); [done| |lia|].
    { unfold holding in *. rewrite (Permutation_length (shr_held _ _ _ _ _ _ _ Hst)), length_app in Hn.
      change (length [cpu]) with 1%nat in Hn. lia. }
    exists (cpu :: g), s', d'. rewrite E, <-app_assoc. split; [done|]. split; [by simpl; rewrite Hl|].
    by eapply (shrunk_trans _ _ _ _ _ _ [cpu]).
  - apply last_None in El. pose proof Hb as (Hnid & _ & _ & x & Hx & _).
    assert (bs ≠ []) as Hne.
    { intros ->. unfold holding in Hn. rewrite Ebs in Hn. simpl in Hn. unfold held in Hn.
      rewrite Hc, El in Hn. simpl in Hn. lia. }
    rewrite run_bind, (numa_at_run nid x) by done. rewrite run_bind, (put_numa_run nid x) by done.
    rewrite run_bind, put_docker_run, removelast_last. simpl dockerInfos.
    pose proof (give_cluster_step s nid id d bs cl c x Hp Hb Hd Ebs Hne Hc El Hx) as Hst.
    destruct (IH (S n) minus _ (with_clusters bs d) (shr_pool _ _ _ _ _ _ _ Hst) (shr_bound _ _ _ _ _ _ _ Hst))
      as (g & s' & d' & E & Hl & Hs').
    { simpl. apply lookup_insert_eq. }
    { unfold holding in *. by rewrite (Permutation_length (shr_held _ _ _ _ _ _ _ Hst)) in Hn. }
    { rewrite Ebs, length_app in Hfuel. simpl in *. lia. }
    exists g, s', d'. split; [exact E|]. split; [done|]. by eapply (shrunk_trans _ _ _ _ _ _ []).
Qed.

Lemma give_cpus_run n minus s nid id d cl c :
  pool_ok s → bound_to s nid d → dockerInfos s !! id = Some d → list.last (bindClusters d) = Some cl →
  systemClusterInfo s !! cl = Some c → (n ≤ length (occupiedCpuCores c))%nat →
  ∃ g s', give_cpus cl n minus s = Ret (minus ++ g, s') ∧ length g = n ∧ shrunk s nid id d s' d g.
Proof.
  intros Hp Hb Hd Hlast. apply last_Some in Hlast as (bs & Ebs).
  revert minus s c Hp Hb Hd. induction n as [|n IH]; intros minus s c Hp Hb Hd Hc Hn.
  { exists [], s. rewrite app_nil_r. split_and!; [done|done|by apply shrunk_refl]. }
  cbn [give_cpus]. rewrite run_bind, (cluster_at_run cl c) by done.
  destruct (occupiedCpuCores c) as [|cpu o _] eqn:Ho using rev_ind; [simpl in Hn; lia|].
  rewrite run_bind, last_snoc, (deref_run _ cpu) by done.
  rewrite run_bind, (put_cluster_run cl c), removelast_last by done.
  pose proof (give_cpu_step s nid id d bs cl c cpu o Hp Hb Hd Ebs Hc Ho) as Hst.
  destruct (IH (minus ++ [cpu]) _ (with_cores c (freeCpuCores c ++ [cpu]) o) (shr_pool _ _ _ _ _ _ _ Hst) (shr_bound _ _ _ _ _ _ _ Hst))
    as (g & s' & E & Hl & Hs'); [done|apply lookup_insert_eq| |].
  { rewrite length_app in Hn. simpl in *. lia. }
  exists (cpu :: g), s'. rewrite E, <-app_assoc. split; [done|]. split; [by simpl; rewrite Hl|].
  by eapply (shrunk_trans _ _ _ _ _ _ [cpu]).
Qed.

Lemma shrunk_settled s nid id d s1 d1 g s2 d2 :
  placed s → dockerInfos s !! id = Some d → settled s nid d → shrunk s nid id d s1 d1 g →
  pool_ok s2 → numaClusterInfo s2 = numaClusterInfo s1 → systemClusterInfo s2 = systemClusterInfo s1 →
  dockerInfos s2 = <[id := d2]> (dockerInfos s) → bindClusters d2 = bindClusters d1 →
  currentCpuSet d2 = without g (currentCpuSet d) → currentMemSet d2 = currentMemSet d →
  placed s2 ∧ settled s2 nid d2 ∧ others_kept nodes id s s2 ∧
  length (currentCpuSet d) = (length g + length (currentCpuSet d2))%nat.
Proof.
  intros Hpl Hd Hset [Hp1 Hb1 _ Hsub _ Hout Hnum Hheld] Hp2 En2 Ec2 Ed2 Eb Ecpu Em.
  pose proof Hset as (Hb & Hm & Hcur). pose proof Hpl as (Hp & Hbound & Hdis).
  pose proof (settled_NoDup smt nodes k one s nid d Hp Hset) as Hnd.
  assert (currentCpuSet d ≡ₚ g ++ without g (currentCpuSet d)) as Hsplit.
  { rewrite Hheld in Hcur. pose proof Hnd as Hnd2. rewrite Hcur in Hnd2. apply list.NoDup_app in Hnd2 as (Hg & _).
    apply without_perm; [done|done|]. intros n Hn. rewrite Hcur. apply elem_of_app. by left. }
  assert (settled s2 nid d2) as Hset2.
  { split_and!; [|by rewrite Em|].
    - unfold ClusterPlacement.bound_to. rewrite Eb, En2. exact Hb1.
    - rewrite Ecpu, Eb, Ec2. apply (Permutation_app_inv_l g). by rewrite <-Hsplit, Hcur. }
  destruct (settle s s2 id d d2 (bindClusters d) nid) as [? ?]; try done.
  - intros i e n Hne He (? & ? & ? & x & Hx & Hin). do 3 (split; [done|]).
    destruct (Hnum n x Hx) as (x' & Hx' & Hkeep). exists x'. rewrite En2. split; [done|].
    intros c Hc. apply Hkeep; [by apply Hin|]. left. by eapply (Hdis i e id d).
  - intros cl Hcl. rewrite Ec2. by apply Hout.
  - intros i e cl Hne He Hcl. assert (cl ∉ bindClusters d) as Hni by (by eapply (Hdis i e id d)).
    split; [done|]. rewrite Eb. intros Hin. by apply Hni, Hsub.
  - split_and!; [done|apply Hset2..|done|]. by rewrite (Permutation_length Hsplit), length_app, Ecpu.
Qed.

(** C24. A container lends or returns: while it has the processors that the lower
    limit sets free, [DockerMinusCpuLimitComm] returns, takes exactly that many
    from it, gives up clusters only when they are empty, brings the tables up to
    date, leaves the other containers alone and lowers the recorded limit; its
    loop ends within the turns it is given. *)
Theorem DockerMinusCpuLimitComm_gives s id d nid limit need :
  placed s → dockerInfos s !! id = Some d → settled s nid d →
  d_to_int CUlong (d_sub (d_ceil (currentCpuLimit d)) (d_ceil (d_sub (currentCpuLimit d) limit))) =
    Ret need →
  need ≤ Z.of_nat (length (currentCpuSet d)) →
  ∃ ok s' d', DockerMinusCpuLimitComm id limit s = Ret (ok, s') ∧ placed s' ∧
    dockerInfos s' = <[id := d']> (dockerInfos s) ∧ settled s' nid d' ∧ others_kept nodes id s s' ∧
    currentCpuSet d' ⊆ currentCpuSet d ∧
    Z.of_nat (length (currentCpuSet d)) = need + Z.of_nat (length (currentCpuSet d')) ∧
    bindClusters d' ≠ [] ∧ currentCpuLimit d' = d_sub (currentCpuLimit d) limit.
Proof.
  intros Hpl Hd Hset Eneed Hle. pose proof Hpl as (Hp & _). pose proof Hset as (Hb & Em & Hcur).
  assert (0 ≤ need) as H0.
  { unfold d_to_int in Eneed. destruct (d_trunc _); [|done]. case_decide as Hr; [|done].
    simplify_eq. apply in_range_ulong_inv in Hr. lia. }
  destruct (bound_last s nid d Hp Hb) as (bs & cl & c & Ebs & Hc).
  assert (list.last (bindClusters d) = Some cl) as Hlast by (by rewrite Ebs, last_snoc).
  assert (∃ g s1 d1, (if decide (need ≤ Z.of_nat (length (occupiedCpuCores c)))
           then give_cpus cl (Z.to_nat need) []
           else give_clusters id nid (Z.to_nat need + length (bindClusters d)) (Z.to_nat need) []) s =
      Ret (g, s1) ∧ length g = Z.to_nat need ∧ shrunk s nid id d s1 d1 g) as (g & s1 & d1 & E & Hl & Hs).
  { case_decide.
    - destruct (give_cpus_run (Z.to_nat need) [] s nid id d cl c) as (g & s1 & ? & ? & ?); [done..|lia|].
      by exists g, s1, d.
    - apply (give_clusters_run _ _ []); [done|done|done| |lia].
      unfold holding. rewrite <-(Permutation_length Hcur). lia. }
  set (d2 := with_sets (without g (currentCpuSet d1)) (currentMemSet d1) d1).
  set (s2 := set_dockers (<[id := d2]> (dockerInfos s1)) s1).
  assert (dockerInfos s1 !! id = Some d1) as Hd1 by (rewrite (shr_dockers _ _ _ _ _ _ _ Hs); apply lookup_insert_eq).
  assert (dockerInfos s2 = <[id := d2]> (dockerInfos s)) as Ed2.
  { simpl. by rewrite (shr_dockers _ _ _ _ _ _ _ Hs), insert_insert_eq. }
  pose proof (shr_entry _ _ _ _ _ _ _ Hs) as Ed1.
  assert (currentCpuSet d1 = currentCpuSet d ∧ currentMemSet d1 = currentMemSet d ∧
    currentCpuLimit d1 = currentCpuLimit d) as (Ecpu & Emem & Elim) by (by rewrite Ed1).
  destruct (shrunk_settled s nid id d s1 d1 g s2 d2) as (Hpl2 & Hset2 & Hoth2 & Hlen);
    [done..|apply Hs|done|done|done|done| |done|].
  { simpl. by rewrite Ecpu. }
  set (lim := d_sub (currentCpuLimit d) limit).
  destruct (update_limit_run id d2 lim s2) as (ok & log & Eu);
    [simpl; apply lookup_insert_eq|by eapply settled_small; [apply Hpl2|]|].
  set (s3 := set_cmds log (set_dockers (<[id := with_limit lim d2]> (dockerInfos s2)) s2)) in Eu.
  destruct (touch_places smt nodes k one s2 s s3 id d d2 (with_limit lim d2))
    as (Hpl3 & Hoth3 & Ed3); [done..|].
  exists ok, s3, (with_limit lim d2). split.
  { unfold DockerMinusCpuLimitComm. rewrite run_bind, (docker_at_run id d) by done.
    rewrite run_bind, (deref_run _ nid) by (by rewrite Em).
    rewrite run_bind. unfold lift at 1. rewrite Eneed, run_bind, (deref_run _ cl) by done.
    rewrite run_bind, (cluster_at_run cl c) by done. rewrite run_bind, E.
    rewrite run_bind, (docker_at_run id d1) by done.
    rewrite run_bind, put_docker_run, Elim. exact Eu. }
  split; [done|]. split; [done|]. split; [exact Hset2|]. split; [done|]. split.
  { simpl. rewrite Ecpu. intros n [? _]%elem_of_without. done. }
  split; [simpl in *; lia|]. split; [|done]. by destruct (shr_bound _ _ _ _ _ _ _ Hs) as (_ & ? & _).
Qed.

(** ** Recovering *)

Definition in_cluster (cl : Z) (cpus : list Z) : list Z := filter (λ cpu, Z.quot cpu one = cl) cpus.

Lemma push_free_run cpus s :
  (∀ cpu, cpu ∈ cpus → is_Some (systemClusterInfo s !! Z.quot cpu one)) →
  ∃ m', push_free cpus one s = Ret (tt, set_clusters m' s) ∧
    ∀ cl, m' !! cl = (λ c, with_cores c (freeCpuCores c ++ in_cluster cl cpus) (occupiedCpuCores c))
      <$> (systemClusterInfo s !! cl).
Proof.
  revert s. induction cpus as [|cpu cpus IH]; intros s Hin.
  { exists (systemClusterInfo s). rewrite set_clusters_id. split; [done|]. intros cl.
    destruct (systemClusterInfo s !! cl) as [[]|]; [|done]. simpl. by rewrite app_nil_r. }
  destruct (Hin cpu) as [c Hc]; [left|]. cbn [push_free].
  rewrite run_bind, (cluster_at_run _ c) by done. rewrite run_bind, (put_cluster_run _ c) by done.
  set (s1 := set_clusters _ s). destruct (IH s1) as (m' & E & Hm).
  { intros n Hn. simpl. destruct (decide (Z.quot n one = Z.quot cpu one)) as [->|Hne].
    - by rewrite lookup_insert_eq.
    - rewrite lookup_insert_ne by done. apply Hin. by right. }
  exists m'. split; [exact E|]. intros cl. rewrite Hm. unfold in_cluster. rewrite filter_cons. simpl.
  case_decide as Heq.
  - subst cl. rewrite lookup_insert_eq, Hc. simpl. unfold with_cores. simpl. by rewrite <-app_assoc.
  - by rewrite lookup_insert_ne.
Qed.

Lemma keep_freed_run ids cpus s :
  NoDup ids → (∀ cl, cl ∈ ids → is_Some (systemClusterInfo s !! cl)) →
  ∃ m', keep_freed one ids cpus s = Ret (tt, set_clusters m' s) ∧
    ∀ cl, m' !! cl = (λ c, if decide (cl ∈ ids)
        then with_cores c (freeCpuCores c)
               (filter (λ cpu, cpu ∈ cpus ∧ Z.quot cpu one = cl) (occupiedCpuCores c))
        else c) <$> (systemClusterInfo s !! cl).
Proof.
  revert s. induction ids as [|i ids IH]; intros s Hnd Hin.
  { exists (systemClusterInfo s). rewrite set_clusters_id. split; [done|]. intros cl.
    by destruct (systemClusterInfo s !! cl). }
  apply list.NoDup_cons in Hnd as [Hi Hnd]. destruct (Hin i) as [c Hc]; [left|]. cbn [keep_freed].
  rewrite run_bind, (cluster_at_run _ c) by done. rewrite run_bind, (put_cluster_run _ c) by done.
  set (s1 := set_clusters _ s). destruct (IH s1 Hnd) as (m' & E & Hm).
  { intros cl Hcl. simpl. rewrite lookup_insert_ne by (by intros ->). apply Hin. by right. }
  exists m'. split; [exact E|]. intros cl. rewrite Hm. simpl. destruct (decide (cl = i)) as [->|Hne].
  - rewrite lookup_insert_eq, Hc. simpl. rewrite decide_False by done. by rewrite decide_True by left.
  - rewrite lookup_insert_ne by done. destruct (systemClusterInfo s !! cl); [|done]. simpl. f_equal.
    apply decide_ext. by rewrite elem_of_cons; split; [right|intros [?|?]].
Qed.

Lemma return_from_run ids id s :
  (∀ i, i ∈ ids → ∃ e, dockerInfos s !! i = Some e ∧ borrowDockerMap e !! id = None) →
  return_from ids id s = Ret (tt, s).
Proof.
  induction ids as [|i ids IH]; intros Hin; [done|]. cbn [return_from].
  destruct (Hin i) as (e & He & Hn); [left|]. rewrite run_bind, (docker_at_run i e) by done.
  rewrite Hn. apply IH. intros j ?. apply Hin. by right.
Qed.

Lemma quot_cluster cl cpu : 0 < one → 0 ≤ cl → cl * one ≤ cpu < cl * one + one → Z.quot cpu one = cl.
Proof. intros. symmetry. apply (Z.quot_unique cpu one cl (cpu - cl * one)); nia. Qed.

(** The tables after a recovery: the clusters are free, and every processor
    that was occupied is free and occupied. *)
Definition both_lists (s s' : Affinity) (nid cl : Z) : Prop :=
  ∃ c f x, systemClusterInfo s !! cl = Some c ∧
    systemClusterInfo s' !! cl = Some (with_cores c f (occupiedCpuCores c)) ∧
    f ≡ₚ freeCpuCores c ++ occupiedCpuCores c ∧
    numaClusterInfo s' !! nid = Some x ∧ cl ∈ freeInfoVec x.

Lemma recovered_cluster s nid d (m1 m2 : gmap Z Cluster) cl :
  pool_ok s → settled s nid d → cl ∈ bindClusters d →
  (∀ cl, m1 !! cl = (λ c, with_cores c (freeCpuCores c ++ in_cluster cl (currentCpuSet d))
      (occupiedCpuCores c)) <$> (systemClusterInfo s !! cl)) →
  (∀ cl, m2 !! cl = (λ c, if decide (cl ∈ remove_dups (map (λ cpu, Z.quot cpu one) (currentCpuSet d)))
        then with_cores c (freeCpuCores c)
               (filter (λ cpu, cpu ∈ currentCpuSet d ∧ Z.quot cpu one = cl) (occupiedCpuCores c))
        else c) <$> (m1 !! cl)) →
  ∃ c f, systemClusterInfo s !! cl = Some c ∧ m2 !! cl = Some (with_cores c f (occupiedCpuCores c)) ∧
    f ≡ₚ freeCpuCores c ++ occupiedCpuCores c.
Proof.
  intros Hp Hset Hcl H1 H2. pose proof Hset as (Hb & _ & Hcur).
  destruct (bound_cluster s nid d cl Hp Hb Hcl) as (Hr & c & Hc & Hok).
  pose proof Hp as ((_ & _ & Hone & _) & _).
  destruct (cluster_ok_NoDup smt one cl c Hok) as (_ & Hno & _ & Hrange).
  assert (∀ n, n ∈ occupiedCpuCores c → n ∈ currentCpuSet d ∧ Z.quot n one = cl) as Hocc.
  { intros n Hn. split; [|by apply quot_cluster; [done|lia|apply Hrange; right]].
    rewrite Hcur. apply elem_of_held. exists cl. split; [done|]. unfold held. by rewrite Hc. }
  assert (in_cluster cl (currentCpuSet d) ≡ₚ occupiedCpuCores c) as Hperm.
  { apply NoDup_Permutation; [apply list.NoDup_filter; by eapply settled_NoDup|done|].
    intros n. unfold in_cluster. rewrite list_elem_of_filter. split; [|by intros [? ?]%Hocc].
    intros [Hq Hn]. rewrite Hcur in Hn. apply elem_of_held in Hn as (cl' & Hcl' & Hn).
    destruct (bound_cluster s nid d cl' Hp Hb Hcl') as (Hr' & c' & Hc' & Hok').
    unfold held in Hn. rewrite Hc' in Hn.
    destruct (cluster_ok_NoDup smt one cl' c' Hok') as (_ & _ & _ & Hrange').
    rewrite (quot_cluster cl') in Hq by (first [lia|apply Hrange'; by right]). subst cl'. by simplify_eq. }
  exists c, (freeCpuCores c ++ in_cluster cl (currentCpuSet d)). split; [done|].
  split; [|by rewrite Hperm]. rewrite H2, H1, Hc. simpl. f_equal. case_decide; [|done].
  unfold with_cores. simpl. f_equal. clear -Hocc.
  induction (occupiedCpuCores c) as [|n l IH]; [done|].
  rewrite filter_cons_True by (apply Hocc; left). f_equal. apply IH. intros m Hm. apply Hocc. by right.
Qed.

Lemma in_cluster_known s nid d :
  pool_ok s → settled s nid d → ∀ cpu, cpu ∈ currentCpuSet d →
  is_Some (systemClusterInfo s !! Z.quot cpu one).
Proof.
  intros Hp (Hb & _ & Hcur) cpu Hcpu. rewrite Hcur in Hcpu. apply elem_of_held in Hcpu as (cl & Hcl & Hn).
  destruct (bound_cluster s nid d cl Hp Hb Hcl) as (Hr & c & Hc & Hok). unfold held in Hn. rewrite Hc in Hn.
  destruct (cluster_ok_NoDup smt one cl c Hok) as (_ & _ & _ & Hrange).
  pose proof Hp as ((_ & _ & Hone & _) & _).
  rewrite (quot_cluster cl) by (first [lia|apply Hrange; by right]). by eexists.
Qed.

(** Recovering a container leaves its processors occupied: when the docker
    commands succeed, every cluster of the container is free again and every
    processor of it is on the free list, and all of them stay on the occupied
    list as well, so that the tables are no longer in order and the next
    container on the cluster holds them twice. *)
Theorem RecoverInitialBindStatus_keeps_occupied s id d nid :
  placed s → dockerInfos s !! id = Some d → settled s nid d → optimizeBinded d = true →
  Forall (λ n, 0 ≤ n < 2147483647) (initialCpuSet d) →
  Forall (λ n, 0 ≤ n < 2147483647) (initialMemSet d) →
  (∀ i e, dockerInfos s !! i = Some e → borrowDockerMap e !! id = None) →
  ∃ ok s', RecoverInitialBindStatus id s = Ret (ok, s') ∧
    (ok = true → (∀ cl, cl ∈ bindClusters d → both_lists s s' nid cl) ∧
                 (currentCpuSet d ≠ [] → ¬ pool_ok s')).
Proof.
  intros Hpl Hd Hset Hopt Hic Him Hborrow. pose proof Hpl as (Hp & _).
  pose proof Hset as ((Hnid & _ & _ & x & Hx & Hsub) & Em & Hcur).
  pose proof Hp as ((_ & _ & Hone & _ & E1 & _) & _).
  destruct (Convert_run _ Hic) as (t1 & Et1). destruct (Convert_run _ Him) as (t2 & Et2).
  destruct (run_commands_run [cpus_cmd (initialCpuLimit d) id; cpuset_cmd t1 id; mems_cmd t2 id] s)
    as (ok & log & Ec).
  set (s1 := set_numas (<[nid := mkNuma (numaId x)
    (freeInfoVec x ++ filter (λ i, i ∈ bindClusters d) (occupiedInfoVec x))
    (without (bindClusters d) (occupiedInfoVec x))]> (numaClusterInfo s)) (set_cmds log s)).
  destruct (push_free_run (currentCpuSet d) s1) as (m1 & E2 & H1); [by apply (in_cluster_known s nid d)|].
  destruct (keep_freed_run (remove_dups (map (λ cpu, Z.quot cpu one) (currentCpuSet d)))
    (currentCpuSet d) (set_clusters m1 s1)) as (m2 & E3 & H2); [apply NoDup_remove_dups| |].
  { intros cl Hcl. rewrite elem_of_remove_dups in Hcl. apply list_elem_of_fmap in Hcl as (cpu & -> & Hcpu).
    simpl. rewrite H1. apply fmap_is_Some. by apply (in_cluster_known s nid d). }
  exists ok, (if ok then set_clusters m2 s1 else set_cmds log s). split.
  { unfold RecoverInitialBindStatus. rewrite run_bind, (docker_at_run id d) by done. rewrite Hopt. cbn [negb].
    rewrite run_bind. unfold lift at 1. rewrite Et1, run_bind. unfold lift at 1. rewrite Et2, run_bind, Ec.
    destruct ok; [|done]. cbn [negb]. rewrite Em. cbn [free_nodes]. rewrite run_bind.
    rewrite run_bind, (numa_at_run nid x) by done. rewrite run_bind, (put_numa_run nid x) by done.
    change (set_numas _ _) with s1. unfold mret at 1, St_ret at 1. rewrite run_bind. cbn [get].
    change (oneClusterCpuNum (clusterTopology s1)) with (oneClusterCpuNum (clusterTopology s)).
    rewrite E1, decide_False by lia. rewrite run_bind, E2, run_bind, E3, run_bind. cbn [get].
    rewrite run_bind, return_from_run; [done|]. intros i Hi. rewrite elem_of_hash_order in Hi.
    apply elem_of_dom in Hi as [e He]. exists e. split; [done|]. by eapply Hborrow. }
  intros ->. assert (∀ cl, cl ∈ bindClusters d → both_lists s (set_clusters m2 s1) nid cl) as Hboth.
  { intros cl Hcl. destruct (recovered_cluster s nid d m1 m2 cl) as (c & f & Hc & Hc2 & Hf); [done..|].
    do 3 eexists. split; [done|]. split; [exact Hc2|]. split; [done|]. split; [apply lookup_insert_eq|].
    simpl. apply elem_of_app. right. apply list_elem_of_filter. split; [done|by apply Hsub]. }
  split; [done|]. intros Hne (_ & _ & _ & _ & Hfree). destruct (currentCpuSet d) as [|cpu l] eqn:Ecpu; [done|].
  assert (cpu ∈ cpu :: l) as Hcpu by left. rewrite Hcur in Hcpu. apply elem_of_held in Hcpu as (cl & Hcl & Hn).
  destruct (Hboth cl Hcl) as (c & f & y & Hc & Hc' & _ & Hy & Hin).
  specialize (Hfree nid y cl _ Hnid Hy Hin Hc'). simpl in Hfree. unfold held in Hn.
  rewrite Hc, Hfree in Hn. by apply not_elem_of_nil in Hn.
Qed.

(** A container without a processor limit is busy by definition and bound
    never: no round binds it, [TryBorrowCpuFromIdleDocker] counts it among the
    borrowers whatever its usage, and raising its limit then reads the last
    cluster of a container that has none, which is undefined. *)
Theorem unlimited_container_undef s id d :
  dockerInfos s !! id = Some d → initialCpuLimit d = d_zero → bindClusters d = [] →
  d_le d_zero (usage d) = true →
  bind_one smt id s = Ret (false, s) ∧
  (∀ lenders l, id ∉ lenders → find_borrowers [id] lenders l s = Ret (l ++ [id], s)) ∧
  (∀ limit, DockerAddCpuLimitComm smt id limit s = Undef).
Proof.
  intros Hd Hlim Hnil Hus. split_and!.
  - unfold bind_one. rewrite run_bind, (docker_at_run id d) by done. rewrite Hlim.
    by destruct (optimizeBinded d).
  - intros lenders l Hni. cbn [find_borrowers]. rewrite decide_False by done.
    rewrite run_bind, (docker_at_run id d) by done. rewrite Hlim.
    assert (d_mul (d_mul d_zero (d_of_Z 100)) (d_lit 90 2) = d_zero) as -> by by vm_compute.
    by rewrite Hus.
  - intros limit. unfold DockerAddCpuLimitComm. rewrite run_bind, (docker_at_run id d) by done.
    rewrite run_bind. destruct (head (currentMemSet d)) as [nid|]; [|done].
    rewrite (deref_run _ nid) by done. rewrite run_bind. unfold lift at 1.
    destruct (d_to_int _ _) as [need|e|] eqn:E; [by rewrite run_bind, Hnil| |done].
    unfold d_to_int in E. destruct (d_trunc _); [by case_decide|done].
Qed.
End lending.

(** ** On the small machine *)

Section demo.
#[local] Existing Instances shell_ok hash_ref.


Lemma DockerMinusCpuLimitComm_gives_witness :
  ∃ ok s' d', DockerMinusCpuLimitComm "a" (d_lit 15 1) demo_bound = Ret (ok, s') ∧
    placed false 2 2 4 s' ∧ Z.of_nat (length (currentCpuSet demo_a)) =
      1 + Z.of_nat (length (currentCpuSet d')).
Proof.
  destruct (DockerMinusCpuLimitComm_gives false 2 2 4 demo_bound "a" demo_a 0 (d_lit 15 1) 1)
    as (ok & s' & d' & E & Hp & _ & _ & _ & _ & Hl & _);
    [apply demo_bound_placed|apply demo_a_lookup|apply demo_a_settled|by vm_compute|by vm_compute|].
  exists ok, s', d'. exact (conj E (conj Hp Hl)).
Defined.

Lemma RecoverInitialBindStatus_keeps_occupied_witness :
  ∃ ok s', RecoverInitialBindStatus "a" demo_bound = Ret (ok, s') ∧
    (ok = true → both_lists demo_bound s' 0 0).
Proof.
  destruct (RecoverInitialBindStatus_keeps_occupied false 2 2 4 demo_bound "a" demo_a 0)
    as (ok & s' & E & H); [apply demo_bound_placed|apply demo_a_lookup|apply demo_a_settled|by vm_compute| | | |].
  - assert (initialCpuSet demo_a = []) as -> by by vm_compute. constructor.
  - assert (initialMemSet demo_a = [0]) as -> by by vm_compute. constructor; [lia|constructor].
  - assert (map_Forall (λ _ e, borrowDockerMap e !! "a"%string = None) (dockerInfos demo_bound)) as Ha.
    { apply (bool_decide_unpack _). by vm_compute. }
    exact Ha.
  - exists ok, s'. split; [exact E|]. intros Hok. apply (H Hok). by vm_compute; left.
Defined.

Lemma unlimited_container_undef_witness :
  let d := with_usage [d_of_Z 1] (d_of_Z 1) 1 (demo_docker "c" 0 "0") in
  let s := set_dockers (<["c"%string := d]> (dockerInfos demo_bound)) demo_bound in
  find_borrowers ["c"%string] [] [] s = Ret (["c"%string], s) ∧
  DockerAddCpuLimitComm false "c" (d_of_Z 1) s = Undef.
Proof.
  intros d s. assert (dockerInfos s !! "c"%string = Some d) as Hd by apply lookup_insert_eq.
  assert (initialCpuLimit d = d_zero) as Hl by by vm_compute.
  assert (bindClusters d = []) as Hb by by vm_compute.
  assert (d_le d_zero (usage d) = true) as Hu by by vm_compute.
  destruct (unlimited_container_undef false s "c" d Hd Hl Hb Hu) as (_ & Hf & Ha).
  split; [apply (Hf [] []), not_elem_of_nil|apply Ha].
Defined.
End demo.
