(* ===== verification/Ctl.v ===== *)
(** * The command-line client (src/client: main.cpp, client.cpp, arg_parse.cpp,
      cmd_handler.cpp, tcp_socket.cpp)

    [oeawarectl] turns its arguments into one command, sends the command's
    message to the daemon and prints what the answer says.  getopt_long, files
    and libcurl are parameters; what the program prints, runs and writes is a
    log. *)

From Stdlib Require Import ZArith Lia Strings.Byte Strings.Ascii.
From stdpp Require Import base list strings gmap numbers.
From S2P Require Import Prelude Bytes Serialize Utils DataTypes SecureC DataRegister.
From S2P Require Import MessageProtocol Daemon.

(** ** State *)

Inductive Effect :=
| Out (text : string)               (* to stdout *)
| Err (text : string)               (* to stderr *)
| System (command : string)
| WriteFile (name text : string).

(** [struct option]: a name, whether it requires an argument, its value. *)
Record Option := mkOption { op_name : string; op_required : bool; op_val : Z }.

(** What one call of getopt_long returns and leaves in its variables. *)
Record GetOptResult (G : Set) := mkGetOpt {
  gr_opt : Z; gr_optarg : option string; gr_optopt : Z; gr_argv : list string; gr_optind : Z;
  gr_state : G
}.
Arguments mkGetOpt {G}. Arguments gr_opt {G}. Arguments gr_optarg {G}. Arguments gr_optopt {G}.
Arguments gr_argv {G}. Arguments gr_optind {G}. Arguments gr_state {G}.

(** getopt_long, with the state it keeps between calls. *)
Class GetOpt := {
  go_state : Set;
  go_start : go_state;
  getopt_long : string → list Option → list string → Z → go_state → GetOptResult go_state
}.

(** It may permute the arguments, stays inside of them, and goes forward; a
    caller that skips arguments leaves less to do. *)
Class GetOptLaws `(GO : GetOpt) := {
  go_left : list string → Z → go_state → nat;
  getopt_stays opts longs argv i st : 1 ≤ i ≤ Z.of_nat (length argv) →
    let r := getopt_long opts longs argv i st in
    length (gr_argv r) = length argv ∧ 1 ≤ gr_optind r ≤ Z.of_nat (length argv);
  getopt_forward opts longs argv i st : 1 ≤ i ≤ Z.of_nat (length argv) →
    let r := getopt_long opts longs argv i st in
    gr_opt r ≠ -1 → (go_left (gr_argv r) (gr_optind r) (gr_state r) < go_left argv i st)%nat;
  getopt_skip argv i j st : i ≤ j → (go_left argv j st ≤ go_left argv i st)%nat
}.

Definition ch (c : ascii) : Z := Z.of_N (N_of_ascii c).

Definition START : Z := 0.
Definition STOP : Z := 1.

Inductive CmdHandler :=
| LoadHandler | QueryHandler | RemoveHandler | QueryTopHandler | EnabledHandler
| DisabledHandler | ListHandler | InfoCmdHandler | InstallHandler | StartHandler
| StopHandler | ReloadConfHandler.

(** What the socket calls of [TcpSocket::Init] return, and what comes in. *)
Record Connection := mkConnection {
  cn_socket : Z; cn_connect : Z; cn_in : list Segment; cn_send : list Z
}.

(** Files and libcurl: whether a file opens for writing and closes, whether
    [curl_easy_init] returns an object, the result and the HTTP code of
    [curl_easy_perform] on a URL. *)
Class ClientHost := {
  file_opens : string → bool;
  file_closes : string → bool;
  curl_inits : bool;
  curl_performs : string → Z * Z
}.

Section ctl.
Context `{PF : Platform} `{SC : SecureC} `{HO : HashOrder} `{GO : GetOpt}
  `{CH : ClientHost}.

Record Ctl := mkCtl {
  argValue : list string;
  arg : string;
  enableParams : gmap string string;
  optind : Z;
  ct_getopt : go_state;
  cmd : Z;
  ct_stream : option SocketStream;
  ct_log : list Effect
}.

(** The program's end: [exit], undefined behaviour, or turns that ran out. *)
Inductive result (A : Type) :=
| Ran (a : A) (s : Ctl)
| Exited (code : Z) (s : Ctl)
| Crash
| Starved.
#[global] Arguments Ran {A}. #[global] Arguments Exited {A}.
#[global] Arguments Crash {A}. #[global] Arguments Starved {A}.

Definition Cli (A : Type) : Type := Ctl → result A.
#[export] Instance Cli_ret : MRet Cli := λ A a s, Ran a s.
#[export] Instance Cli_bind : MBind Cli := λ A B f m s,
  match m s with
  | Ran a s => f a s
  | Exited code s => Exited code s
  | Crash => Crash
  | Starved => Starved
  end.

Definition state : Cli Ctl := λ s, Ran s s.
Definition exit {A} (code : Z) : Cli A := λ s, Exited code s.
Definition crash {A} : Cli A := λ _, Crash.
Definition starved {A} : Cli A := λ _, Starved.
Definition known {A} (o : option A) : Cli A :=
  match o with Some a => mret a | None => crash end.

Definition log (l : list Effect) : Cli unit := λ s,
  Ran tt (mkCtl (argValue s) (arg s) (enableParams s) (optind s) (ct_getopt s) (cmd s)
            (ct_stream s) (ct_log s ++ l)).
Definition set_opts (argv : list string) (i : Z) (st : go_state) : Cli unit := λ s,
  Ran tt (mkCtl argv (arg s) (enableParams s) i st (cmd s) (ct_stream s) (ct_log s)).
Definition SetArg (newArg : string) : Cli unit := λ s,
  Ran tt (mkCtl (argValue s) newArg (enableParams s) (optind s) (ct_getopt s) (cmd s)
            (ct_stream s) (ct_log s)).
Definition set_params (m : gmap string string) : Cli unit := λ s,
  Ran tt (mkCtl (argValue s) (arg s) m (optind s) (ct_getopt s) (cmd s) (ct_stream s) (ct_log s)).
Definition set_cmd (z : Z) : Cli unit := λ s,
  Ran tt (mkCtl (argValue s) (arg s) (enableParams s) (optind s) (ct_getopt s) z
            (ct_stream s) (ct_log s)).
Definition set_stream (x : option SocketStream) : Cli unit := λ s,
  Ran tt (mkCtl (argValue s) (arg s) (enableParams s) (optind s) (ct_getopt s) (cmd s)
            x (ct_log s)).

(** The program when it starts. *)
Definition Ctl0 (argv : list string) : Ctl :=
  mkCtl argv EmptyString ∅ 1 go_start 0 None [].

(** ** Arguments *)

Definition endl : string := String (ascii_of_nat 10) EmptyString.

Definition help_text : string :=
  ("usage: oeawarectl [options]..." +:+ endl +:+
   "  options" +:+ endl +:+
   "    analysis                run analysis mode." +:+ endl +:+
   "    -l|--load [plugin]      load plugin and need plugin type." +:+ endl +:+
   "    -r|--remove [plugin]    remove plugin from system." +:+ endl +:+
   "    -e|--enable [instance]  enable the plugin instance." +:+ endl +:+
   "    -d|--disable [instance] disable the plugin instance." +:+ endl +:+
   "    -q                      query all plugins information." +:+ endl +:+
   "    --query [plugin]        query the plugin information." +:+ endl +:+
   "    -Q                      query all instances dependencies." +:+ endl +:+
   "    --query-dep [instance]  query the instance dependency." +:+ endl +:+
   "    --list                  the list of supported plugins." +:+ endl +:+
   "    --info                  the list of InfoCmd plugins." +:+ endl +:+
   "    -i|--install [plugin]   install plugin from the list." +:+ endl +:+
   "    --reload-conf           reload config file(now only support log level)." +:+ endl +:+
   "    --help                  show this help message." +:+ endl)%string.

Definition PrintHelp : Cli unit := log [Out help_text].

Definition EXIT_FAILURE : Z := 1.
Definition EXIT_SUCCESS : Z := 0.

Definition ArgError {A} (msg : string) : Cli A :=
  log [Err ("oeawarectl: " +:+ msg +:+ endl)%string] ;;
  PrintHelp ;;
  exit EXIT_FAILURE.

Definition optString : string := "Qqd:l:r:e:i:".
Definition opts : list Z :=
  map ch ["l"%char; "r"%char; "q"%char; "Q"%char; "e"%char; "d"%char; "i"%char].
Definition longOptions : list Option := [
  mkOption "help" false (ch "h"); mkOption "load" true (ch "l"); mkOption "remove" true (ch "r");
  mkOption "query" true (ch "q"); mkOption "query-dep" true (ch "Q");
  mkOption "enable" true (ch "e"); mkOption "disable" true (ch "d");
  mkOption "install" true (ch "i"); mkOption "list" false (ch "L");
  mkOption "info" false (ch "I"); mkOption "reload-conf" false (ch "Z")].

(** The options that are commands. *)
Definition commands : list Z :=
  map ch ["l"%char; "r"%char; "q"%char; "Q"%char; "e"%char; "d"%char; "L"%char; "i"%char;
          "I"%char; "Z"%char].

(** [argValue[i]]. *)
Definition arg_at (i : Z) : Cli string :=
  s ← state;
  known (if decide (i < 0) then None else argValue s !! Z.to_nat i).
Definition argCnt : Cli Z := s ← state; mret (Z.of_nat (length (argValue s))).

Definition skip_arg : Cli unit :=
  s ← state; set_opts (argValue s) (optind s + 1) (ct_getopt s).

(** The [while] loop of the parameters of an instance; each turn takes two
    arguments, so as many turns as there are arguments are enough. *)
Fixpoint take_params (fuel : nat) : Cli unit :=
  s ← state;
  argc ← argCnt;
  if decide (argc ≤ optind s) then mret tt else
  match fuel with
  | O => starved
  | S fuel =>
    text ← arg_at (optind s);
    match text with
    | EmptyString => ArgError "invalid enable params."
    | String c key =>
      if decide (c ≠ "-"%char) then ArgError "invalid enable params." else
      skip_arg ;;
      s ← state;
      if decide (argc ≤ optind s) then ArgError "invalid enable params." else
      value ← arg_at (optind s);
      set_params (<[key := value]> (enableParams s)) ;;
      skip_arg ;;
      take_params fuel
    end
  end.

(** [None] is the return of -1; the result is the command. *)
Definition InitCmd (command opt : Z) (optarg : option string) : Cli (option Z) :=
  if decide (opt ∉ commands) then mret None else
  if decide (command ≠ -1) then ArgError "invalid option." else
  match optarg with Some text => SetArg text | None => mret tt end ;;
  (if decide (opt = ch "e") then s ← state; take_params (length (argValue s)) else mret tt) ;;
  mret (Some opt).

(** The branch of '?'. *)
Definition unknown_option {A} (optopt : Z) : Cli A :=
  s ← state;
  argc ← argCnt;
  errOpt ← arg_at (if decide (optind s = argc) then optind s - 1 else optind s);
  if decide (optopt ∉ opts) then ArgError ("unknown option '" +:+ errOpt +:+ "'.")%string
  else ArgError ("option " +:+ errOpt +:+ " requires an argument.")%string.

Definition next_option : Cli (GetOptResult go_state) :=
  s ← state;
  let r := getopt_long optString longOptions (argValue s) (optind s) (ct_getopt s) in
  set_opts (gr_argv r) (gr_optind r) (gr_state r) ;;
  mret r.

(** The loop over the options: [None] is the return of -1. *)
Fixpoint read_options (fuel : nat) (command : Z) (help : bool) : Cli (option (Z * bool)) :=
  match fuel with
  | O => starved
  | S fuel =>
    r ← next_option;
    if decide (gr_opt r = -1) then mret (Some (command, help)) else
    if decide (gr_opt r = ch "h") then read_options fuel command true else
    if decide (gr_opt r = ch "?") then unknown_option (gr_optopt r) else
    c ← InitCmd command (gr_opt r) (gr_optarg r);
    match c with
    | None => mret None
    | Some command => read_options fuel command help
    end
  end.

(** The loop over the arguments that are left: its first turn ends it. *)
Definition leftover : Cli unit :=
  s ← state;
  argc ← argCnt;
  if decide (optind s < argc) then
    text ← arg_at (optind s);
    ArgError ("invalid option [" +:+ text +:+ "].")%string
  else mret tt.

Definition ArgInit_options (fuel : nat) : Cli Z :=
  r ← read_options fuel (-1) false;
  match r with
  | None => mret (-1)
  | Some (command, help) =>
    leftover ;;
    if (help : bool) then PrintHelp ;; exit EXIT_SUCCESS else
    if decide (command < 0) then ArgError "option error." else
    mret command
  end.

(** [ArgParse::Init]. *)
Definition ArgInit (fuel : nat) : Cli Z :=
  s ← state;
  match argValue s with
  | [_; text] =>
    if decide (text = "start"%string) then mret START
    else if decide (text = "stop"%string) then mret STOP
    else ArgInit_options fuel
  | _ => ArgInit_options fuel
  end.

(** ** The socket *)

Definition no_server : Effect := Out ("can't connect to server!" +:+ endl)%string.

(** A call on [stream]; an exception is not caught. *)
Definition on_stream {A} (m : St SocketStream A) : Cli A :=
  s ← state;
  x ← known (ct_stream s);
  match m x with
  | Ret (a, x) => set_stream (Some x) ;; mret a
  | Throw _ | Undef => crash
  end.

(** [FileConnect], whose result tells that [connect] did not fail. *)
Definition FileConnect (cn : Connection) : Cli Z :=
  if decide (cn_connect cn < 0) then log [no_server] ;; mret (-1) else mret 0.

(** [TcpSocket::Init]: it returns a [bool], so the -1 of a socket that could
    not be created is [true], and [stream] has no descriptor. *)
Definition SocketInit (cn : Connection) : Cli bool :=
  if decide (cn_socket cn < 0) then
    log [Out ("socket create error!" +:+ endl)%string] ;; mret true
  else
    r ← FileConnect cn;
    if decide (r < 0) then mret false else
    set_stream (Some (new_stream (cn_in cn) (cn_send cn))) ;; mret true.

Definition SendMsg (msg : Message) (header : MessageType) : Cli bool :=
  on_stream (SendMessage (mkProtocol header msg)).

(** The message and the header that were received. *)
Definition RecvMsg : Cli (option (Message * MessageType)) :=
  '(ok, proto) ← on_stream (RecvMessage (mkProtocol (type_of stack_int) (mkMessage LOAD [])));
  if (ok : bool) then mret (Some (mp_message proto, mp_header proto))
  else log [no_server] ;; mret None.

(** ** The commands *)

(** [LoadHandler::Check], which nothing calls. *)
Definition types : list string := ["collector"; "scenario"; "tune"]%string.
Definition Check_type (type : string) : Cli unit :=
  if decide (type ∉ types) then ArgError ("type '" +:+ type +:+ "' is not supported.")%string
  else mret tt.

(** [msg.payload.emplace_back(arg)]. *)
Definition with_arg (msg : Message) (opt : Opt) : Cli Message :=
  s ← state; mret (mkMessage opt (msg_payload msg ++ [arg s])).

(** The parameters as "key:value" with commas between them. *)
Fixpoint params_loop (first : bool) (l : list (string * string)) (param : string) : string :=
  match l with
  | [] => param
  | (key, value) :: l =>
    params_loop false l
      ((if first then param else param +:+ ",") +:+ key +:+ ":" +:+ value)%string
  end.

(** The entries in the order of the table. *)
Definition params_list (m : gmap string string) : list (string * string) :=
  omap (λ key, pair key <$> m !! key) (hash_order (dom m)).

Definition params_text (m : gmap string string) : string :=
  params_loop true (params_list m) EmptyString.

Definition start_command : string := "/bin/oeaware /etc/oeaware/config.yaml &> /dev/null &".

Definition Load_Handler (msg : Message) : Cli Message := with_arg msg LOAD.
Definition Query_Handler (msg : Message) : Cli Message :=
  s ← state;
  if decide (arg s = EmptyString) then mret (mkMessage QUERY_ALL (msg_payload msg))
  else with_arg msg QUERY.
Definition Remove_Handler (msg : Message) : Cli Message := with_arg msg REMOVE.
Definition QueryTop_Handler (msg : Message) : Cli Message :=
  s ← state;
  if decide (arg s = EmptyString) then mret (mkMessage QUERY_ALL_SUB_GRAPH (msg_payload msg))
  else with_arg msg QUERY_SUB_GRAPH.
Definition Enabled_Handler (msg : Message) : Cli Message :=
  s ← state;
  mret (mkMessage ENABLED (msg_payload msg ++ [arg s; params_text (enableParams s)])).
Definition Disabled_Handler (msg : Message) : Cli Message := with_arg msg DISABLED.
Definition List_Handler (msg : Message) : Cli Message := mret (mkMessage LIST (msg_payload msg)).
Definition InfoCmd_Handler (msg : Message) : Cli Message :=
  mret (mkMessage INFO (msg_payload msg)).
Definition Install_Handler (msg : Message) : Cli Message := with_arg msg DOWNLOAD.
Definition Start_Handler (msg : Message) : Cli Message :=
  log [System start_command; Out ("oeaware started." +:+ endl)%string] ;; exit 0.
Definition Stop_Handler (msg : Message) : Cli Message :=
  mret (mkMessage SHUTDOWN (msg_payload msg)).
Definition ReloadConf_Handler (msg : Message) : Cli Message :=
  mret (mkMessage RELOAD_CONF (msg_payload msg)).

(** The virtual call. *)
Definition Handler (h : CmdHandler) : Message → Cli Message :=
  match h with
  | LoadHandler => Load_Handler
  | QueryHandler => Query_Handler
  | RemoveHandler => Remove_Handler
  | QueryTopHandler => QueryTop_Handler
  | EnabledHandler => Enabled_Handler
  | DisabledHandler => Disabled_Handler
  | ListHandler => List_Handler
  | InfoCmdHandler => InfoCmd_Handler
  | InstallHandler => Install_Handler
  | StartHandler => Start_Handler
  | StopHandler => Stop_Handler
  | ReloadConfHandler => ReloadConf_Handler
  end.

(** [msg.payload[0]]. *)
Definition payload0 (msg : Message) : Cli string := known (msg_payload msg !! 0%nat).

Definition say (text : string) : Cli unit := log [Out text].
Definition say_line (text : string) : Cli unit := say (text +:+ endl)%string.

Definition rule : string := "------------------------------------------------------------".

Definition PrintFormat : Cli unit :=
  say ("format:" +:+ endl +:+
       "[plugin]" +:+ endl +:+
       String (ascii_of_nat 9) "[instance]([dependency status], [running status], [enable cnt])"
         +:+ endl +:+
       "dependency status: available means satisfying dependency, otherwise unavailable." +:+ endl
         +:+
       "running status: running means that instance is running, otherwise close." +:+ endl +:+
       "enable cnt: number of instances enabled." +:+ endl)%string.

Definition write_to_file (file_name text : string) : Cli unit :=
  if file_opens file_name then log [WriteFile file_name text] else mret tt.

Definition GeneratePngFromDot (dotFile pngFile : string) : Cli unit :=
  log [System ("dot -Tpng " +:+ dotFile +:+ " -o " +:+ pngFile)%string].

(** The test of [Download]: curl, the file, the transfer, its code. *)
Definition HTTP_OK : Z := 200.
Definition CURLE_OK : Z := 0.
Definition CurlHandle (url path : string) : bool :=
  if negb (file_opens path) then false else
  let '(res, httpCode) := curl_performs url in
  if negb (file_closes path) then false else
  bool_decide (res = CURLE_OK) && bool_decide (httpCode = HTTP_OK).
Definition Download (url path : string) : bool :=
  if curl_inits then CurlHandle url path else false.

(** An answer that is an error has its reason in front. *)
Definition failed_because (text after : string) (msg : Message) : Cli unit :=
  why ← payload0 msg; say_line (text +:+ why +:+ after)%string.

Definition say_all (l : list string) : Cli unit := log (map Out l).

Definition query_failed (msg : Message) : Cli unit :=
  why ← payload0 msg;
  log [Err ("Query list failed, because " +:+ why +:+ "." +:+ endl)%string].

Definition Load_ResHandler (msg : Message) : Cli unit :=
  if decide (msg_opt msg = RESPONSE_OK) then say_line "Plugin loaded successfully."
  else failed_because "Plugin loaded failed, because " "." msg.

Definition Query_ResHandler (msg : Message) : Cli unit :=
  if decide (msg_opt msg = RESPONSE_ERROR)
  then failed_because "Plugin query failed, because " "." msg else
  say_line "Show plugins and instances status." ;; say_line rule ;;
  say_all (msg_payload msg) ;; say_line rule ;; PrintFormat.

Definition Remove_ResHandler (msg : Message) : Cli unit :=
  if decide (msg_opt msg = RESPONSE_OK) then say_line "Plugin remove successfully."
  else failed_because "Plugin remove failed, because " "." msg.

Definition QueryTop_ResHandler (msg : Message) : Cli unit :=
  if decide (msg_opt msg = RESPONSE_ERROR)
  then failed_because "Query instance dependencies failed, because " "." msg else
  text ← payload0 msg;
  write_to_file "dep.dot" text ;;
  GeneratePngFromDot "dep.dot" "dep.png" ;;
  say_line "Generate dependencies graph dep.png.".

Definition Enabled_ResHandler (msg : Message) : Cli unit :=
  if decide (msg_opt msg = RESPONSE_OK) then say_line "Instance enabled successfully."
  else failed_because "Instance enabled failed, because " "" msg.

Definition Disabled_ResHandler (msg : Message) : Cli unit :=
  if decide (msg_opt msg = RESPONSE_OK) then say_line "Instance disabled successfully."
  else failed_because "Instance disabled failed, because " "." msg.

Definition List_ResHandler (msg : Message) : Cli unit :=
  if decide (msg_opt msg = RESPONSE_ERROR) then query_failed msg else
  say_line "Plugin list as follows." ;; say_line rule ;;
  say_all (msg_payload msg) ;; say_line rule.

Definition InfoCmd_ResHandler (msg : Message) : Cli unit :=
  if decide (msg_opt msg = RESPONSE_ERROR) then query_failed msg else
  say_line "The tuned instance plugin table is as follows." ;; say_line rule ;;
  say_line "Use oeawarectl -e [instance] to enable." ;;
  say_line "    oeawarectl -d [instance] to disable." ;; say_line rule ;;
  say_all (msg_payload msg).

Definition Install_ResHandler (msg : Message) : Cli unit :=
  s ← state;
  if decide (msg_opt msg = RESPONSE_ERROR) then
    failed_because "Download failed, because " (": " +:+ arg s)%string msg
  else
    url ← payload0 msg;
    if negb (Download url (arg s)) then
      say_line "Download failed, please check url or your network."
    else
      log [System ("rpm -ivh " +:+ arg s)%string; System ("rm -f " +:+ arg s)%string].

Definition Start_ResHandler (msg : Message) : Cli unit := mret tt.
Definition Stop_ResHandler (msg : Message) : Cli unit := say_line "oeaware stopped.".

Definition ReloadConf_ResHandler (msg : Message) : Cli unit :=
  text ← payload0 msg;
  if decide (msg_opt msg = RESPONSE_OK)
  then say_line ("Reload config successfully." +:+ text)%string
  else say_line ("Reload config failed, because " +:+ text +:+ ".")%string.

Definition ResHandler (h : CmdHandler) : Message → Cli unit :=
  match h with
  | LoadHandler => Load_ResHandler
  | QueryHandler => Query_ResHandler
  | RemoveHandler => Remove_ResHandler
  | QueryTopHandler => QueryTop_ResHandler
  | EnabledHandler => Enabled_ResHandler
  | DisabledHandler => Disabled_ResHandler
  | ListHandler => List_ResHandler
  | InfoCmdHandler => InfoCmd_ResHandler
  | InstallHandler => Install_ResHandler
  | StartHandler => Start_ResHandler
  | StopHandler => Stop_ResHandler
  | ReloadConfHandler => ReloadConf_ResHandler
  end.

(** ** The program *)

(** [cmdHandlerGroups]. *)
Definition cmdHandlerGroups : list (Z * CmdHandler) := [
  (ch "l", LoadHandler); (ch "q", QueryHandler); (ch "r", RemoveHandler);
  (ch "Q", QueryTopHandler); (ch "e", EnabledHandler); (ch "d", DisabledHandler);
  (ch "L", ListHandler); (ch "I", InfoCmdHandler); (ch "i", InstallHandler);
  (ch "Z", ReloadConfHandler); (START, StartHandler); (STOP, StopHandler)].

(** The subscript gives a null pointer for a command without a handler. *)
Definition handler_of (command : Z) : option CmdHandler :=
  snd <$> find (λ p, bool_decide (p.1 = command)) cmdHandlerGroups.

(** [Client::Init]. *)
Definition ClientInit (fuel : nat) (cn : Connection) : Cli bool :=
  command ← ArgInit fuel;
  set_cmd command ;;
  if decide (command < 0) then mret false else
  if decide (command = START) then mret true else
  SocketInit cn.

(** [Client::RunCmd]; the members of [msg] and [header] are not initialised,
    and every [Handler] that returns sets the former. *)
Definition RunCmd : Cli unit :=
  s ← state;
  h ← known (handler_of (cmd s));
  msg ← Handler h (mkMessage (opt_of stack_int) []);
  ok ← SendMsg msg (type_of stack_int);
  if negb ok then mret tt else
  r ← RecvMsg;
  match r with
  | None => mret tt
  | Some (res, _) => ResHandler h res
  end.

(** [main], when the arguments do not ask for an analysis. *)
Definition IsAnalysisMode (argv : list string) : bool :=
  match argv with
  | _ :: text :: _ => bool_decide (text = "analysis"%string)
  | _ => false
  end.

Definition main_client (fuel : nat) (cn : Connection) : Cli Z :=
  ok ← ClientInit fuel cn;
  if negb ok then exit EXIT_FAILURE else
  RunCmd ;; mret 0.
End ctl.
