(* ===== verification/CtlConcrete.v ===== *)
(** * A getopt_long for the examples

    Exact names of long options, clusters of short ones, no permutation of
    the arguments (as GNU's does under POSIXLY_CORRECT), so reading stops at
    the first argument that is no option. *)

From Stdlib Require Import ZArith Lia Strings.Byte Strings.Ascii.
From stdpp Require Import base list strings gmap numbers.
From S2P Require Import Prelude Bytes Serialize Utils DataTypes SecureC DataRegister.
From S2P Require Import MessageProtocol Daemon World Ctl.

(** Whether [optstring] has the option, and whether it takes an argument. *)
Fixpoint short_option (c : ascii) (optstring : string) : option bool :=
  match optstring with
  | EmptyString => None
  | String d rest =>
    if decide (c = d) then
      Some (match rest with String ":" _ => true | _ => false end)
    else short_option c rest
  end.

(** "name" or "name=value". *)
Fixpoint split_equals (s : string) : string * option string :=
  match s with
  | EmptyString => (EmptyString, None)
  | String "=" rest => (EmptyString, Some rest)
  | String c rest => let '(name, value) := split_equals rest in (String c name, value)
  end.

(** The state is what is left of a cluster of short options. *)
Definition bad (opt : Z) (argv : list string) (i : Z) : GetOptResult string :=
  mkGetOpt (ch "?") None opt argv i EmptyString.

(** The argument that follows, if there is one. *)
Definition with_argument (v : Z) (argv : list string) (i : Z) : GetOptResult string :=
  match argv !! Z.to_nat i with
  | Some text => mkGetOpt v (Some text) 0 argv (i + 1) EmptyString
  | None => bad v argv i
  end.

(** The cluster [String c rest] of [argv[i]]. *)
Definition take_short (optstring : string) (argv : list string) (i : Z) (c : ascii)
    (rest : string) : GetOptResult string :=
  let next := match rest with EmptyString => i + 1 | _ => i end in
  match short_option c optstring with
  | None => mkGetOpt (ch "?") None (ch c) argv next rest
  | Some false => mkGetOpt (ch c) None 0 argv next rest
  | Some true =>
    match rest with
    | EmptyString => with_argument (ch c) argv (i + 1)
    | _ => mkGetOpt (ch c) (Some rest) 0 argv (i + 1) EmptyString
    end
  end.

Definition take_long (longs : list Option) (argv : list string) (i : Z) (text : string) :
    GetOptResult string :=
  let '(name, value) := split_equals text in
  match find (λ o, bool_decide (op_name o = name)) longs with
  | None => bad 0 argv (i + 1)
  | Some o =>
    match op_required o, value with
    | true, Some value => mkGetOpt (op_val o) (Some value) 0 argv (i + 1) EmptyString
    | true, None => with_argument (op_val o) argv (i + 1)
    | false, None => mkGetOpt (op_val o) None 0 argv (i + 1) EmptyString
    | false, Some _ => bad (op_val o) argv (i + 1)
    end
  end.

Definition done_at (argv : list string) (i : Z) : GetOptResult string :=
  mkGetOpt (-1) None 0 argv i EmptyString.

Definition getopt_step (optstring : string) (longs : list Option) (argv : list string) (i : Z)
    (st : string) : GetOptResult string :=
  match argv !! Z.to_nat i with
  | None => done_at argv i
  | Some text =>
    match st with
    | String c rest => take_short optstring argv i c rest
    | EmptyString =>
      match text with
      | String c0 (String c1 rest) =>
        if decide (c0 ≠ "-"%char) then done_at argv i
        else if decide (c1 ≠ "-"%char) then take_short optstring argv i c1 rest
        else if decide (rest = EmptyString) then done_at argv (i + 1)
        else take_long longs argv i rest
      | _ => done_at argv i
      end
    end
  end.

#[export] Instance getopt_ref : GetOpt := {|
  go_state := string; go_start := EmptyString; getopt_long := getopt_step
|}.

(** What is left: the arguments, each with its characters. *)
Definition weight (l : list string) : nat := sum_list_with (λ s, S (String.length s)) l.
Definition left_ref (argv : list string) (i : Z) (st : string) : nat :=
  match st with
  | EmptyString => weight (drop (Z.to_nat i) argv)
  | _ => String.length st + weight (drop (S (Z.to_nat i)) argv)
  end.

Lemma weight_drop_le k j l : (k ≤ j)%nat → (weight (drop j l) ≤ weight (drop k l))%nat.
Proof.
  revert k j. induction l as [|x l IH]; intros k j Hk; [by rewrite !drop_nil|].
  destruct j as [|j]; [by replace k with 0%nat by lia|]. destruct k as [|k]; simpl.
  - specialize (IH 0%nat j). rewrite drop_0 in IH. lia.
  - apply IH. lia.
Qed.

Lemma weight_at argv i text : argv !! i = Some text →
  weight (drop i argv) = (S (String.length text) + weight (drop (S i) argv))%nat.
Proof. intros E. by rewrite (drop_S argv text) by done. Qed.

(** A step from a state with [n] left. *)
Definition step_ok (argv : list string) (n : nat) (r : GetOptResult string) : Prop :=
  length (gr_argv r) = length argv ∧ 1 ≤ gr_optind r ≤ Z.of_nat (length argv) ∧
  (gr_opt r ≠ -1 → (left_ref (gr_argv r) (gr_optind r) (gr_state r) < n)%nat).

Lemma step_next argv n v arg opt i j :
  1 ≤ i → i ≤ j ≤ Z.of_nat (length argv) → (weight (drop (Z.to_nat i) argv) < n)%nat →
  step_ok argv n (mkGetOpt v arg opt argv j EmptyString).
Proof.
  intros Hi Hj Hn. split_and!; simpl; [done|lia..|]. intros _.
  pose proof (weight_drop_le (Z.to_nat i) (Z.to_nat j) argv). lia.
Qed.

Lemma with_argument_ok argv n v i :
  1 ≤ i ≤ Z.of_nat (length argv) → (weight (drop (Z.to_nat i) argv) < n)%nat →
  step_ok argv n (with_argument v argv i).
Proof.
  intros Hi Hn. unfold with_argument. destruct (argv !! Z.to_nat i) eqn:E.
  - apply lookup_lt_Some in E. eapply (step_next _ _ _ _ _ i); (done || lia).
  - apply (step_next _ _ _ _ _ i); (done || lia).
Qed.

Lemma take_short_ok optstring argv n i c rest :
  1 ≤ i < Z.of_nat (length argv) →
  (String.length rest + weight (drop (S (Z.to_nat i)) argv) < n)%nat →
  step_ok argv n (take_short optstring argv i c rest).
Proof.
  intros Hi Hn. assert (Z.to_nat (i + 1) = S (Z.to_nat i)) as E by lia.
  assert (∀ v opt, step_ok argv n (mkGetOpt v None opt argv
    (match rest with EmptyString => i + 1 | _ => i end) rest)) as Hstep.
  { intros v opt. destruct rest as [|d rest].
    - apply (step_next _ _ _ _ _ (i + 1)); rewrite ?E; (done || lia).
    - split_and!; simpl; [done|lia..|]. intros _. simpl in Hn. lia. }
  unfold take_short. destruct (short_option c optstring) as [[]|]; [|done..].
  destruct rest; [apply with_argument_ok|apply (step_next _ _ _ _ _ (i + 1))];
    rewrite ?E; (done || lia).
Qed.

Lemma take_long_ok longs argv n i text :
  1 ≤ i < Z.of_nat (length argv) → (weight (drop (S (Z.to_nat i)) argv) < n)%nat →
  step_ok argv n (take_long longs argv i text).
Proof.
  intros Hi Hn. assert (Z.to_nat (i + 1) = S (Z.to_nat i)) as E by lia.
  assert (∀ v a o, step_ok argv n (mkGetOpt v a o argv (i + 1) EmptyString)) as Hstep.
  { intros. apply (step_next _ _ _ _ _ (i + 1)); rewrite ?E; (done || lia). }
  unfold take_long. destruct (split_equals text) as [name value].
  destruct (find _ longs) as [o|]; [|apply Hstep].
  destruct (op_required o), value; try apply Hstep.
  apply with_argument_ok; rewrite ?E; (done || lia).
Qed.

Lemma done_ok argv n i : 1 ≤ i ≤ Z.of_nat (length argv) → step_ok argv n (done_at argv i).
Proof. intros Hi. split_and!; simpl; (done || lia). Qed.

Lemma getopt_step_ok opts longs argv i st :
  1 ≤ i ≤ Z.of_nat (length argv) →
  step_ok argv (left_ref argv i st) (getopt_step opts longs argv i st).
Proof.
  intros Hi. unfold getopt_step. destruct (argv !! Z.to_nat i) as [text|] eqn:E;
    [|by apply done_ok].
  pose proof (lookup_lt_Some _ _ _ E) as Hlt. pose proof (weight_at _ _ _ E) as Hw.
  destruct st as [|c rest]; [|apply take_short_ok; simpl; lia].
  unfold left_ref. rewrite Hw. destruct text as [|c0 [|c1 rest]]; try (apply done_ok; lia).
  simpl. repeat case_decide; (apply done_ok || apply take_short_ok || apply take_long_ok);
    simpl; lia.
Qed.

#[export] Instance getopt_ref_laws : GetOptLaws getopt_ref.
Proof.
  refine {| go_left := left_ref : list string → Z → @go_state getopt_ref → nat |}.
  - intros opts longs argv i st Hi. simpl.
    by destruct (getopt_step_ok opts longs argv i st Hi) as (? & ? & _).
  - intros opts longs argv i st Hi. simpl.
    by destruct (getopt_step_ok opts longs argv i st Hi) as (_ & _ & ?).
  - intros argv i j st Hij. simpl. unfold left_ref. destruct st.
    + apply weight_drop_le. lia.
    + apply Nat.add_le_mono_l, weight_drop_le. lia.
Defined.

(** A machine whose files open and whose downloads succeed. *)
#[export] Instance client_host_ref : ClientHost := {|
  file_opens := λ _, true; file_closes := λ _, true; curl_inits := true;
  curl_performs := λ _, (0, 200)
|}.

(** A daemon that accepts, with what it answers. *)
Definition accepting (ins : list Segment) : Connection := mkConnection 3 0 ins [].
