(* ===== verification/CtlArgs.v ===== *)
(** * The client gets past its arguments

    How a computation of the client can end, and [Init] for any arguments. *)

From Stdlib Require Import ZArith Lia Strings.Byte Strings.Ascii.
From stdpp Require Import base list strings gmap numbers.
From S2P Require Import Prelude Bytes Serialize Utils DataTypes SecureC DataRegister.
From S2P Require Import MessageProtocol Daemon World Ctl CtlConcrete.

(** ** How a computation ends *)

Section ends.
Context `{GO : GetOpt}.

(** It runs to a result of [Q] or exits as [X] says: it does not crash and
    its turns are enough. *)
Definition ends {A} (m : Cli A) (Q : A → Ctl → Prop) (X : Z → Ctl → Prop) (s : Ctl) : Prop :=
  match m s with
  | Ran a s' => Q a s'
  | Exited code s' => X code s'
  | Crash | Starved => False
  end.

Lemma ends_ret {A} (a : A) (Q : A → Ctl → Prop) X s : Q a s → ends (mret a) Q X s.
Proof. done. Qed.
Lemma ends_bind {A B} (m : Cli A) (f : A → Cli B) Q X s :
  ends m (λ a s', ends (f a) Q X s') X s → ends (m ≫= f) Q X s.
Proof. unfold ends, mbind, Cli_bind. by destruct (m s). Qed.
Lemma ends_mono {A} (m : Cli A) (P Q : A → Ctl → Prop) X s :
  ends m P X s → (∀ a s', P a s' → Q a s') → ends m Q X s.
Proof. unfold ends. destruct (m s); auto. Qed.
Lemma ends_state (Q : Ctl → Ctl → Prop) X s : Q s s → ends state Q X s.
Proof. done. Qed.
Lemma ends_exit {A} code (Q : A → Ctl → Prop) (X : Z → Ctl → Prop) s :
  X code s → ends (exit code) Q X s.
Proof. done. Qed.
Lemma ends_known {A} (o : option A) a (Q : A → Ctl → Prop) X s :
  o = Some a → Q a s → ends (known o) Q X s.
Proof. by intros ->. Qed.
Lemma ends_argCnt (Q : Z → Ctl → Prop) X s :
  Q (Z.of_nat (length (argValue s))) s → ends argCnt Q X s.
Proof. done. Qed.

Lemma ends_arg_at i (Q : string → Ctl → Prop) X s :
  0 ≤ i < Z.of_nat (length (argValue s)) → (∀ text, Q text s) → ends (arg_at i) Q X s.
Proof.
  intros Hi HQ. unfold arg_at. apply ends_bind, ends_state. rewrite decide_False by lia.
  destruct (lookup_lt_is_Some_2 (argValue s) (Z.to_nat i)) as [text E]; [lia|].
  by eapply ends_known.
Qed.
End ends.

(** ** Reading the arguments *)

Section arguments.
Context `{PF : Platform} `{SC : SecureC} `{HO : HashOrder} `{GO : GetOpt} `{!GetOptLaws GO}
  `{CH : ClientHost}.
Context (argc : Z).

(** What reading the arguments keeps: there are [argc], [optind] points into
    them or behind the last, and nothing was printed. *)
Definition reading (s : Ctl) : Prop :=
  Z.of_nat (length (argValue s)) = argc ∧ 1 ≤ optind s ≤ argc ∧ ct_log s = [] ∧
  ct_stream s = None.

(** The two ways out: a complaint or the help. *)
Definition complains (code : Z) (s : Ctl) : Prop :=
  code = EXIT_FAILURE ∧ ∃ why,
    ct_log s = [Err ("oeawarectl: " +:+ why +:+ endl)%string; Out help_text].
Definition leaves (code : Z) (s : Ctl) : Prop :=
  complains code s ∨ (code = EXIT_SUCCESS ∧ ct_log s = [Out help_text]).

(** The turns that getopt_long has left. *)
Definition left_of (s : Ctl) : nat := go_left (argValue s) (optind s) (ct_getopt s).

(** Steps that do not go back. *)
Definition advances (s s' : Ctl) : Prop := reading s' ∧ (left_of s' ≤ left_of s)%nat.

Lemma ArgError_ends {A} why (Q : A → Ctl → Prop) s :
  reading s → ends (ArgError why) Q leaves s.
Proof.
  intros (_ & _ & Hl & _). unfold ArgError, PrintHelp. apply ends_bind. unfold ends at 1, log.
  apply ends_bind. unfold ends at 1. apply ends_exit. left. split; [done|]. exists why.
  simpl. by rewrite Hl.
Qed.

Lemma skip_arg_ends (Q : unit → Ctl → Prop) s :
  reading s → optind s < argc →
  (∀ s', reading s' → optind s' = optind s + 1 → (left_of s' ≤ left_of s)%nat → Q tt s') →
  ends skip_arg Q leaves s.
Proof.
  intros (Hc & Ho & Hl & Hs) Hlt HQ. unfold skip_arg. apply ends_bind, ends_state.
  unfold ends, set_opts. apply HQ; [split_and!; simpl; (done || lia)|done|].
  unfold left_of. simpl. apply getopt_skip. lia.
Qed.

Lemma take_params_ends fuel s :
  reading s → argc - optind s ≤ Z.of_nat fuel →
  ends (take_params fuel) (λ _ s', advances s s') leaves s.
Proof.
  revert s. induction fuel as [|fuel IH]; intros s Hr Hf; cbn [take_params];
    apply ends_bind, ends_state, ends_bind, ends_argCnt; pose proof Hr as (Hc & Ho & _);
    rewrite Hc; case_decide; try lia; try by apply ends_ret.
  apply ends_bind, ends_arg_at; [lia|]. intros [|c key]; [by apply ArgError_ends|].
  case_decide; [by apply ArgError_ends|].
  apply ends_bind, skip_arg_ends; [done|lia|]. intros s1 Hr1 Ho1 Hl1.
  apply ends_bind, ends_state. case_decide; [by apply ArgError_ends|].
  pose proof Hr1 as (Hc1 & _). apply ends_bind, ends_arg_at; [lia|]. intros value.
  apply ends_bind. unfold ends at 1, set_params. set (s2 := mkCtl _ _ _ _ _ _ _ _).
  assert (reading s2) as Hr2 by done.
  apply ends_bind, skip_arg_ends; [done|done || simpl; lia|]. intros s3 Hr3 Ho3 Hl3.
  simpl in Ho3. eapply ends_mono; [apply IH; [done|lia]|].
  intros _ s' [Hr' Hl']. split; [done|]. change (left_of s2) with (left_of s1) in Hl3. lia.
Qed.

Lemma InitCmd_ends command opt optarg s :
  reading s →
  ends (InitCmd command opt optarg) (λ r s', advances s s' ∧
    (r = None ∨ (r = Some opt ∧ opt ∈ commands))) leaves s.
Proof.
  intros Hr. unfold InitCmd. case_decide as Hin; [apply ends_ret; split; [done|by left]|].
  case_decide; [by apply ArgError_ends|]. apply ends_bind.
  apply (ends_mono _ (λ _ s', advances s s')).
  { destruct optarg; [|by apply ends_ret]. unfold ends, SetArg. done. }
  intros _ s1 [Hr1 Hl1]. apply ends_bind.
  apply (ends_mono _ (λ _ s', advances s1 s')).
  { case_decide; [|by apply ends_ret]. apply ends_bind, ends_state, take_params_ends; [done|].
    destruct Hr1 as (Hc & ? & _). lia. }
  intros _ s2 [Hr2 Hl2]. apply ends_ret. split; [split; [done|lia]|]. right. done.
Qed.

Lemma unknown_option_ends {A} optopt (Q : A → Ctl → Prop) s :
  reading s → ends (unknown_option optopt) Q leaves s.
Proof.
  intros Hr. unfold unknown_option. pose proof Hr as (Hc & Ho & _).
  apply ends_bind, ends_state, ends_bind, ends_argCnt.
  apply ends_bind, ends_arg_at; [case_decide; lia|]. intros text.
  case_decide; by apply ArgError_ends.
Qed.

(** The command is none, or one of the options that are commands. *)
Definition command_ok (command : Z) : Prop := command = -1 ∨ command ∈ commands.

Lemma next_option_ends (Q : GetOptResult go_state → Ctl → Prop) s :
  reading s →
  (∀ r s', reading s' → (gr_opt r ≠ -1 → (left_of s' < left_of s)%nat) → Q r s') →
  ends next_option Q leaves s.
Proof.
  intros (Hc & Ho & Hl & Hs) HQ. unfold next_option. apply ends_bind, ends_state.
  set (r := getopt_long _ _ _ _ _). apply ends_bind. unfold ends at 1, set_opts. apply ends_ret.
  assert (1 ≤ optind s ≤ Z.of_nat (length (argValue s))) as Hi by lia.
  destruct (getopt_stays optString longOptions (argValue s) (optind s) (ct_getopt s) Hi)
    as [Hlen Hind].
  pose proof (getopt_forward optString longOptions (argValue s) (optind s) (ct_getopt s) Hi)
    as Hfwd.
  fold r in Hlen, Hind, Hfwd. apply HQ; [|done].
  split_and!; simpl; rewrite ?Hlen; (done || lia).
Qed.

Lemma read_options_ends fuel command help s :
  reading s → command_ok command → (left_of s < fuel)%nat →
  ends (read_options fuel command help)
    (λ r s', reading s' ∧ ∀ c h, r = Some (c, h) → command_ok c) leaves s.
Proof.
  revert command help s. induction fuel as [|fuel IH]; intros command help s Hr Hc Hf; [lia|].
  cbn [read_options]. apply ends_bind, next_option_ends; [done|]. intros r s1 Hr1 Hfwd.
  case_decide as H1; [apply ends_ret; split; [done|by intros ? ? [= <- <-]]|].
  specialize (Hfwd H1). case_decide; [apply IH; (done || lia)|].
  case_decide; [by apply unknown_option_ends|].
  apply ends_bind. eapply ends_mono; [by apply InitCmd_ends|].
  intros c s2 [[Hr2 Hl2] [->|[-> Hin]]]; [apply ends_ret; split; [done|done]|].
  apply IH; [done|by right|lia].
Qed.

Lemma ArgInit_options_ends fuel s :
  reading s → (left_of s < fuel)%nat →
  ends (ArgInit_options fuel) (λ c s', reading s' ∧ command_ok c) leaves s.
Proof.
  intros Hr Hf. unfold ArgInit_options. apply ends_bind.
  eapply ends_mono; [apply read_options_ends; [done|by left|done]|].
  intros [[c help]|] s1 [Hr1 Hc]; [|apply ends_ret; split; [done|by left]].
  specialize (Hc _ _ eq_refl). apply ends_bind. unfold leftover.
  apply ends_bind, ends_state, ends_bind, ends_argCnt. case_decide.
  { pose proof Hr1 as (? & ? & _). apply ends_bind, ends_arg_at; [lia|].
    intros text. by apply ArgError_ends. }
  apply ends_ret. destruct help.
  { pose proof Hr1 as (_ & _ & Hl & _). apply ends_bind. unfold PrintHelp, ends at 1, log.
    apply ends_exit. right. simpl. by rewrite Hl. }
  case_decide; [by apply ArgError_ends|]. by apply ends_ret.
Qed.

Lemma ArgInit_ends fuel s :
  reading s → (left_of s < fuel)%nat →
  ends (ArgInit fuel)
    (λ c s', reading s' ∧ (c = START ∨ c = STOP ∨ command_ok c)) leaves s.
Proof.
  intros Hr Hf. unfold ArgInit. apply ends_bind, ends_state.
  assert (ends (ArgInit_options fuel)
    (λ c s', reading s' ∧ (c = START ∨ c = STOP ∨ command_ok c)) leaves s) as Hopt.
  { eapply ends_mono; [by apply ArgInit_options_ends|]. intros c s' [? ?]. eauto. }
  destruct (argValue s) as [|a [|text [|b l]]]; try done.
  case_decide; [apply ends_ret; eauto|]. case_decide; [apply ends_ret; eauto|done].
Qed.

Lemma SocketInit_ends cn s :
  reading s →
  ends (SocketInit cn) (λ b s',
    cmd s' = cmd s ∧
    if (b : bool) then is_Some (ct_stream s') ∨ cn_socket cn < 0
    else cn_connect cn < 0 ∧ ct_log s' = [no_server]) leaves s.
Proof.
  intros (_ & _ & Hl & _). unfold SocketInit. case_decide.
  { apply ends_bind. unfold ends at 1, log. apply ends_ret. auto. }
  apply ends_bind. unfold FileConnect. case_decide.
  - apply ends_bind. unfold ends at 1, log. apply ends_ret. rewrite decide_True by lia.
    apply ends_ret. simpl. by rewrite Hl.
  - apply ends_ret. rewrite decide_False by lia. apply ends_bind. unfold ends at 1, set_stream.
    apply ends_ret. split; [done|]. left. by eexists.
Qed.
End arguments.

Lemma handler_of_command `{GO : GetOpt} c : command_ok c → 0 ≤ c → is_Some (handler_of c).
Proof.
  intros [->|Hin] Hc; [lia|]. unfold commands in Hin. simpl in Hin.
  repeat (apply elem_of_cons in Hin as [->|Hin]; [by eexists|]). by apply not_elem_of_nil in Hin.
Qed.

(** C26. The client always gets past its arguments: whatever they are and
    however getopt_long permutes them, given the turns that getopt_long's own
    progress allows, [Init] does not crash and does not run for ever.  It
    exits with the help, or with one complaint and the help and a failure
    status; it reports that there is no server, or nothing for an option
    getopt_long should not return; or it accepts, and then the command has a
    handler and a connection, but for [start] and for a socket that could not
    be created. *)
Theorem ClientInit_ends {GO : GetOpt} {GL : GetOptLaws GO} (fuel : nat) (cn : Connection)
    (argv : list string) (Hargv : argv ≠ []) (Hfuel : (go_left argv 1%Z go_start < fuel)%nat) :
  match ClientInit fuel cn (Ctl0 argv) with
  | Ran true s => is_Some (handler_of (cmd s)) ∧
      (cmd s = START ∨ is_Some (ct_stream s) ∨ cn_socket cn < 0)
  | Ran false s => cmd s = -1 ∨ (cn_connect cn < 0 ∧ ct_log s = [no_server])
  | Exited code s => leaves code s
  | Crash | Starved => False
  end.
Proof.
  assert (reading (Z.of_nat (length argv)) (Ctl0 argv)) as Hr.
  { destruct argv; [done|]. split_and!; simpl; (done || lia). }
  assert (ends (ClientInit fuel cn) (λ b s, if (b : bool)
    then is_Some (handler_of (cmd s)) ∧
      (cmd s = START ∨ is_Some (ct_stream s) ∨ cn_socket cn < 0)
    else cmd s = -1 ∨ (cn_connect cn < 0 ∧ ct_log s = [no_server])) leaves (Ctl0 argv)) as H.
  { unfold ClientInit. apply ends_bind. eapply ends_mono; [eapply ArgInit_ends; [exact Hr|done]|].
    intros c s1 [Hr1 Hc]. apply ends_bind. unfold ends at 1, set_cmd.
    set (s2 := mkCtl _ _ _ _ _ _ _ _). assert (reading (Z.of_nat (length argv)) s2) as Hr2 by done.
    case_decide as Hneg.
    { apply ends_ret. left. simpl. destruct Hc as [->|[->|[->|Hin]]]; try done.
      unfold commands in Hin. simpl in Hin.
      repeat (apply elem_of_cons in Hin as [->|Hin]; [done|]). by apply not_elem_of_nil in Hin. }
    assert (is_Some (handler_of c)).
    { destruct Hc as [->|[->|Hc]]; [by eexists..|]. by apply handler_of_command; [|lia]. }
    case_decide; [apply ends_ret; auto|].
    eapply ends_mono; [eapply SocketInit_ends; exact Hr2|]. intros [|] s' [Hcmd Hs']; rewrite Hcmd; auto. }
  unfold ends in H. by destruct (ClientInit fuel cn (Ctl0 argv)) as [[] ?| | |].
Qed.

Definition enable_argv : list string := ["oeawarectl"; "-e"; "tune"; "-mode"; "fast"]%string.
Definition enable_ctl : Ctl :=
  match @ClientInit getopt_ref 30 (accepting []) (Ctl0 enable_argv) with
  | Ran _ s => s
  | _ => Ctl0 []
  end.

Lemma ClientInit_ends_witness :
  @ClientInit getopt_ref 30 (accepting []) (Ctl0 enable_argv) = Ran true enable_ctl ∧
  is_Some (handler_of (cmd enable_ctl)) ∧ arg enable_ctl = "tune"%string ∧
  enableParams enable_ctl !! "mode"%string = Some "fast"%string.
Proof.
  assert (@ClientInit getopt_ref 30 (accepting []) (Ctl0 enable_argv) = Ran true enable_ctl)
    as E by (vm_compute; reflexivity).
  pose proof (@ClientInit_ends getopt_ref getopt_ref_laws 30 (accepting []) enable_argv
    ltac:(discriminate) ltac:(vm_compute; lia)) as H.
  rewrite E in H. destruct H as [H _]. split; [exact E|]. split; [exact H|].
  vm_compute. split; reflexivity.
Defined.
