(* ===== verification/CtlParams.v ===== *)
(** * The parameters of an instance, from the command line to the plugin

    [oeawarectl -e name -key value ...] sends "key:value,..." in the order of
    a hash table; the plugin splits it again. *)

From Stdlib Require Import ZArith Lia Strings.Byte Strings.Ascii.
From stdpp Require Import base list strings gmap numbers.
From S2P Require Import Prelude Bytes Serialize StdString Utils DataTypes SecureC.
From S2P Require Import DataRegister Registry MessageProtocol Daemon World.
From S2P Require Import Ctl CtlConcrete.

(** ** The text *)

(** The bytes of one parameter. *)
Definition pair_bytes (p : string * string) : list byte :=
  bytes_of p.1 ++ colon :: bytes_of p.2.

(** Keys and values that the separators do not occur in; a value may hold a
    colon. *)
Definition param_ok (p : string * string) : Prop :=
  colon ∉ bytes_of p.1 ∧ comma ∉ bytes_of p.1 ∧ comma ∉ bytes_of p.2.

#[export] Instance param_ok_dec p : Decision (param_ok p).
Proof. unfold param_ok. apply _. Defined.

Lemma params_loop_bytes l param :
  bytes_of (params_loop false l param) =
  bytes_of param ++ concat (map (λ p, comma :: pair_bytes p) l).
Proof.
  revert param. induction l as [|[k v] l IH]; intros param; simpl; [by rewrite app_nil_r|].
  rewrite IH, !bytes_of_append. unfold pair_bytes. simpl. by rewrite <-!app_assoc.
Qed.

Lemma pair_bytes_comma p : param_ok p → comma ∉ pair_bytes p.
Proof.
  intros (_ & Hk & Hv). unfold pair_bytes. rewrite elem_of_app, elem_of_cons.
  intros [?|[E|?]]; [done| |done]. by vm_compute in E.
Qed.

Lemma pair_bytes_nonempty p : pair_bytes p ≠ [].
Proof. unfold pair_bytes. intros E. by apply app_eq_nil in E as [_ ?]. Qed.

(** [std::getline] finds the parameters again. *)
Lemma params_getline l p :
  Forall param_ok (p :: l) →
  getline_all comma (pair_bytes p ++ concat (map (λ p, comma :: pair_bytes p) l)) =
  map pair_bytes (p :: l).
Proof.
  unfold getline_all. revert p. induction l as [|q l IH]; intros p Hl;
    apply list.Forall_cons in Hl as [Hp Hl]; cbn [map concat].
  - rewrite app_nil_r. apply getline_go_last; [by apply pair_bytes_comma|].
    apply pair_bytes_nonempty.
  - cbn [app]. rewrite getline_go_token by (by apply pair_bytes_comma). f_equal.
    by apply IH.
Qed.

Lemma find_colon p : param_ok p →
  find_byte colon (pair_bytes p) = Some (length (bytes_of p.1)).
Proof. intros (Hk & _). by apply find_byte_app. Qed.

(** One turn of the loop of [GetKeyValueFromString]. *)
Lemma take_pair p : take (length (bytes_of p.1)) (pair_bytes p) = bytes_of p.1.
Proof. apply take_app_length. Qed.
Lemma drop_pair p : drop (length (bytes_of p.1) + 1) (pair_bytes p) = bytes_of p.2.
Proof.
  unfold pair_bytes. rewrite <-drop_drop, drop_app_length. done.
Qed.

Definition insert_pair (m : gmap string string) (p : string * string) : gmap string string :=
  <[p.1 := p.2]> m.

(** A table of strings as a table of bytes. *)
Definition bytes_map (m : gmap string string) : gmap (list byte) (list byte) :=
  kmap bytes_of (bytes_of <$> m).

Lemma bytes_map_insert m p :
  bytes_map (insert_pair m p) = <[bytes_of p.1 := bytes_of p.2]> (bytes_map m).
Proof. unfold bytes_map, insert_pair. by rewrite fmap_insert, (kmap_insert bytes_of). Qed.

Lemma fold_pairs l m : Forall param_ok l →
  foldl (λ result pair,
    match find_byte colon pair with
    | Some pos => <[take pos pair := drop (pos + 1) pair]> result
    | None => result
    end) (bytes_map m) (map pair_bytes l) = bytes_map (foldl insert_pair m l).
Proof.
  revert m. induction l as [|p l IH]; intros m Hl; [done|].
  apply list.Forall_cons in Hl as [Hp Hl]. simpl. rewrite find_colon by done.
  rewrite take_pair, drop_pair, <-bytes_map_insert. by apply IH.
Qed.

Lemma GetKeyValue_params_loop l : Forall param_ok l →
  GetKeyValueFromString (bytes_of (params_loop true l EmptyString)) =
  bytes_map (foldl insert_pair ∅ l).
Proof.
  intros Hl. unfold GetKeyValueFromString.
  assert (∅ = bytes_map ∅) as -> by (unfold bytes_map; by rewrite fmap_empty, kmap_empty).
  destruct l as [|[k v] l]; [done|]. rewrite <-fold_pairs by done. f_equal.
  rewrite <-params_getline by done. cbn [params_loop]. rewrite params_loop_bytes.
  by rewrite !bytes_of_append.
Qed.

(** ** The table *)

Section table.
Context `{HO : HashOrder}.

Lemma elem_of_params_list m k v : (k, v) ∈ params_list m ↔ m !! k = Some v.
Proof.
  unfold params_list. rewrite list_elem_of_omap. split.
  - intros (k' & _ & E). destruct (m !! k') eqn:E'; [|done]. by injection E as <- <-.
  - intros E. exists k. rewrite E. split; [|done]. apply elem_of_hash_order, elem_of_dom.
    by eexists.
Qed.

Lemma params_list_keys (m : gmap string string) (l : list string) : (∀ k, k ∈ l → is_Some (m !! k)) →
  (omap (λ key, pair key <$> m !! key) l).*1 = l.
Proof.
  induction l as [|k l IH]; intros Hl; [done|]. simpl.
  destruct (Hl k) as [v E]; [set_solver|]. rewrite E. simpl. f_equal. apply IH. set_solver.
Qed.

Lemma foldl_insert_pair (l : list (string * string)) (m : gmap string string) :
  foldl insert_pair m l = list_to_map (reverse l) ∪ m.
Proof.
  revert m. induction l as [|[a b] l IH]; intros m.
  { rewrite reverse_nil, list_to_map_nil. by rewrite (left_id_L ∅ (∪)). }
  cbn [foldl]. rewrite IH, reverse_cons, list_to_map_app, <-(assoc_L (∪)). f_equal.
  unfold insert_pair. simpl. by rewrite insert_empty, insert_union_singleton_l.
Qed.

Lemma foldl_params_list m : foldl insert_pair ∅ (params_list m) = m.
Proof.
  rewrite foldl_insert_pair, (right_id_L ∅ (∪)). apply map_eq. intros k.
  apply option_eq. intros v. rewrite <-elem_of_list_to_map.
  - by rewrite elem_of_reverse, elem_of_params_list.
  - rewrite fmap_reverse, reverse_Permutation. unfold params_list. rewrite params_list_keys.
    + apply NoDup_hash_order.
    + intros k'. by rewrite elem_of_hash_order, elem_of_dom.
Qed.

(** What the plugin's parser makes of the text is the table. *)
Lemma params_text_table m : (∀ k v, m !! k = Some v → param_ok (k, v)) →
  GetKeyValueFromString (bytes_of (params_text m)) = bytes_map m.
Proof.
  intros Hm. unfold params_text. rewrite GetKeyValue_params_loop.
  - by rewrite foldl_params_list.
  - apply list.Forall_forall. intros [k v] Hin. by apply Hm, elem_of_params_list.
Qed.
End table.

(** ** Taking the parameters *)

(** "-key value" for each pair. *)
Definition args_of (pairs : list (string * string)) : list string :=
  concat (map (λ p, [String "-" p.1; p.2]) pairs).

Section taking.
Context `{PF : Platform} `{SC : SecureC} `{HO : HashOrder} `{GO : GetOpt}.

(** The loop on the arguments that are left. *)
Lemma take_params_run fuel pairs s :
  0 ≤ optind s ≤ Z.of_nat (length (argValue s)) →
  drop (Z.to_nat (optind s)) (argValue s) = args_of pairs →
  Z.of_nat (length (argValue s)) - optind s ≤ Z.of_nat fuel →
  take_params fuel s = Ran tt (mkCtl (argValue s) (arg s)
    (foldl insert_pair (enableParams s) pairs) (Z.of_nat (length (argValue s))) (ct_getopt s)
    (cmd s) (ct_stream s) (ct_log s)).
Proof.
  revert pairs s. induction fuel as [|fuel IH]; intros pairs [av ar ep oi gs cm st lg];
    simpl; intros Ho Hd Hf; pose proof (length_drop av (Z.to_nat oi)) as Hlen; rewrite Hd in Hlen.
  - assert (oi = Z.of_nat (length av)) as -> by lia. unfold mbind at 1 2, Cli_bind. simpl.
    rewrite decide_True by lia. destruct pairs; [done|]. simpl in Hlen. lia.
  - unfold mbind, Cli_bind. simpl. destruct pairs as [|[k v] pairs]; simpl in Hlen.
    { assert (oi = Z.of_nat (length av)) as -> by lia. by rewrite decide_True by lia. }
    rewrite decide_False by lia. simpl in Hd.
    assert (av !! Z.to_nat oi = Some (String "-" k)) as E1.
    { rewrite <-(Nat.add_0_r (Z.to_nat oi)), <-lookup_drop, Hd. done. }
    assert (av !! Z.to_nat (oi + 1) = Some v) as E2.
    { replace (Z.to_nat (oi + 1)) with (Z.to_nat oi + 1)%nat by lia.
      rewrite <-lookup_drop, Hd. done. }
    unfold arg_at, mbind, Cli_bind. simpl. rewrite decide_False by lia. rewrite E1. simpl.
    rewrite decide_False by lia. simpl. rewrite decide_False by lia. rewrite E2. simpl.
    rewrite (IH pairs); simpl; [done|lia| |lia].
    replace (Z.to_nat (oi + 1 + 1)) with (Z.to_nat oi + 2)%nat by lia.
    by rewrite <-drop_drop, Hd.
Qed.
End taking.

(** The parameters arrive: for arguments "-key value ..." behind the
    option, whose keys hold neither a colon nor a comma and whose values hold
    no comma, the client sends the instance's name and a text that the
    plugins' parser [GetKeyValueFromString] turns into the very table of the
    keys, the last value of each, in whatever order the client's hash table
    lists them. *)
Theorem enable_params_delivered {HO : HashOrder} {GO : GetOpt} {CH : ClientHost}
    {PF : Platform} (pairs : list (string * string)) (s : Ctl) (msg : Message)
    (Hind : 0 ≤ optind s ≤ Z.of_nat (length (argValue s)))
    (Hargs : drop (Z.to_nat (optind s)) (argValue s) = args_of pairs)
    (Hfresh : enableParams s = ∅) (Hok : Forall param_ok pairs) :
  ∃ s' text, take_params (length (argValue s)) s = Ran tt s' ∧
    optind s' = Z.of_nat (length (argValue s)) ∧
    Enabled_Handler msg s' =
      Ran (mkMessage ENABLED (msg_payload msg ++ [arg s; text])) s' ∧
    GetKeyValueFromString (bytes_of text) = bytes_map (list_to_map (reverse pairs)).
Proof.
  pose proof (foldl_insert_pair pairs ∅) as E. rewrite (right_id_L ∅ (∪)) in E.
  eexists _, (params_text (list_to_map (reverse pairs))).
  split; [apply (take_params_run _ pairs); (done || lia)|]. simpl.
  split; [done|]. split; [by rewrite Hfresh, E|]. apply params_text_table.
  intros k v Hkv. apply elem_of_list_to_map_2 in Hkv. rewrite elem_of_reverse in Hkv.
  by eapply list.Forall_forall in Hok.
Qed.

Definition example_pairs : list (string * string) :=
  [("mode", "a:b"); ("cpus", "1"); ("mode", "fast")]%string.
Definition example_ctl : Ctl :=
  @mkCtl getopt_ref (["oeawarectl"; "-e"; "tune"]%string ++ args_of example_pairs) "tune" ∅ 3
    EmptyString (ch "e") None [].

Lemma enable_params_delivered_witness :
  ∃ s' text, @take_params getopt_ref 9 example_ctl = Ran tt s' ∧
    GetKeyValueFromString (bytes_of text) !! bytes_of "mode" = Some (bytes_of "fast").
Proof.
  destruct (@enable_params_delivered hash_ref getopt_ref client_host_ref platform_ref
    example_pairs example_ctl (mkMessage LOAD [])) as (s' & text & E & _ & _ & Ht).
  - vm_compute. split; discriminate.
  - reflexivity.
  - reflexivity.
  - by_decide.
  - exists s', text. split; [exact E|]. rewrite Ht. vm_compute. reflexivity.
Defined.
