(* ===== verification/CtlTheorems.v ===== *)
(** * The command-line client against the daemon

    What the daemon's handlers answer, and what the client prints of it. *)

From Stdlib Require Import ZArith Lia Strings.Byte Strings.Ascii.
From stdpp Require Import base list strings gmap numbers.
From S2P Require Import Prelude Bytes Serialize Utils DataTypes SecureC.
From S2P Require Import DataRegister Registry MessageProtocol Daemon InstanceRun.
From S2P Require Import InstanceRunLemmas Subscriptions SchedulerSafety World.
From S2P Require Import Config Handlers InfoCmd PluginManager HandlerTheorems MessageManager.
From S2P Require Import MessageTheorems SdkTheorems Ctl CtlConcrete.

(** ** What the daemon answers *)

(** It says that it went well, or gives a reason. *)
Definition readable (r : EventResult) : Prop :=
  er_opt r = Some RESPONSE_OK ∨ (er_opt r = Some RESPONSE_ERROR ∧ er_payload r ≠ []).
Definition filled (r : EventResult) : Prop := readable r ∧ er_payload r ≠ [].

Lemma readable_ok l : readable (result_ok l).
Proof. by left. Qed.
Lemma readable_error text : readable (result_error text).
Proof. by right. Qed.
Lemma filled_ok text : filled (result_ok [text]).
Proof. split; [apply readable_ok|done]. Qed.
Lemma filled_error text : filled (result_error text).
Proof. split; [apply readable_error|done]. Qed.
#[export] Hint Resolve readable_ok readable_error filled_ok filled_error : yields.

(** Follows the code to the results it returns. *)
Ltac yields_run :=
  repeat first
    [ progress cbn beta iota
    | apply yields_ret
    | apply yields_undef
    | match goal with |- yields _ (match ?x with _ => _ end) => destruct x eqn:? end
    | apply yields_skip; intros ?
    | match goal with |- context [match ?x with _ => _ end] => destruct x eqn:? end
    | solve [auto with yields] ].

(** The commands that use the payload of any answer. *)
Definition reads_payload (o : Opt) : bool :=
  bool_decide (o ∈ [QUERY_SUB_GRAPH; QUERY_ALL_SUB_GRAPH; DOWNLOAD; RELOAD_CONF]).
Definition asked : list Opt :=
  [LOAD; QUERY; QUERY_ALL; REMOVE; QUERY_SUB_GRAPH; QUERY_ALL_SUB_GRAPH; ENABLED; DISABLED;
   LIST; INFO; DOWNLOAD; RELOAD_CONF].

Section answering.
Context `{PF : Platform} `{SC : SecureC} `{KP : Kperf} `{PC : PluginCode} `{HO : HashOrder}
  `{PQ : PriorityQueue} `{HS : Host} `{YC : YamlConversions} `{DK : Disk}.
Context (reg : registry).

Lemma yields_on_daemon {A} (P : A → Prop) (m : St Daemon A) :
  yields P m → yields P (on_daemon m).
Proof.
  intros Hm s a s'. unfold on_daemon. destruct (m (pm_daemon s)) as [[b d]| |] eqn:E; [|done..].
  intros [= <- <-]. by eapply Hm.
Qed.

Lemma yields_LoadHandle ev : yields readable (LoadHandle ev).
Proof. unfold LoadHandle. yields_run. Qed.
Lemma yields_RemoveHandle ev : yields readable (RemoveHandle ev).
Proof. unfold RemoveHandle. yields_run. Qed.
Lemma yields_QueryHandle ev : yields readable (QueryHandle ev).
Proof. unfold QueryHandle. yields_run. Qed.
Lemma yields_QuerySubscribeGraphHandle ev : yields filled (QuerySubscribeGraphHandle ev).
Proof. unfold QuerySubscribeGraphHandle. yields_run. Qed.
Lemma yields_EnableHandle ev : yields readable (EnableHandle reg ev).
Proof. unfold EnableHandle. yields_run. Qed.
Lemma yields_DisableHandle ev : yields readable (DisableHandle reg ev).
Proof. unfold DisableHandle. yields_run. Qed.
Lemma yields_ListHandle : yields readable ListHandle.
Proof. unfold ListHandle. yields_run. Qed.
Lemma yields_InfoHandle : yields readable InfoHandle.
Proof. unfold InfoHandle. yields_run. Qed.
Lemma yields_ReloadConfHandle : yields filled ReloadConfHandle.
Proof. unfold ReloadConfHandle. yields_run. Qed.
Lemma filled_DownloadHandle c ev : filled (DownloadHandle c ev).
Proof.
  unfold DownloadHandle. destruct (ev_payload ev); [apply filled_error|].
  destruct (Handlers.Download _ _ _) as [code text]. case_decide; [apply filled_ok|].
  apply filled_error.
Qed.

Lemma filled_readable r : filled r → readable r.
Proof. by intros [? _]. Qed.
Lemma yields_filled {S} (m : St S EventResult) : yields filled m → yields readable m.
Proof. intros Hm s a s' E. by eapply filled_readable, Hm. Qed.

Lemma yields_dispatch ev : ev_opt ev ∈ asked →
  yields (λ r, readable r ∧ (reads_payload (ev_opt ev) = true → er_payload r ≠ []))
    (dispatch reg ev).
Proof.
  intros Hin. unfold asked in Hin. unfold dispatch.
  assert (∀ S (m : St S EventResult) (b : bool), b = false → yields readable m →
    yields (λ r, readable r ∧ (b = true → er_payload r ≠ [])) m) as H1.
  { intros S m b -> Hm s a s' E. split; [by eapply Hm|done]. }
  assert (∀ S (m : St S EventResult) (b : bool), yields filled m →
    yields (λ r, readable r ∧ (b = true → er_payload r ≠ [])) m) as H2.
  { intros S m b Hm s a s' E. destruct (Hm _ _ _ E). by split. }
  repeat (apply elem_of_cons in Hin as [->|Hin]); try by apply not_elem_of_nil in Hin.
  - by apply H1, yields_on_daemon, yields_LoadHandle.
  - by apply H1, yields_on_daemon, yields_QueryHandle.
  - by apply H1, yields_on_daemon, yields_QueryHandle.
  - by apply H1, yields_on_daemon, yields_RemoveHandle.
  - by apply H2, yields_on_daemon, yields_QuerySubscribeGraphHandle.
  - by apply H2, yields_on_daemon, yields_QuerySubscribeGraphHandle.
  - by apply H1, yields_on_daemon, yields_EnableHandle.
  - by apply H1, yields_on_daemon, yields_DisableHandle.
  - by apply H1, yields_ListHandle.
  - by apply H1, yields_InfoHandle.
  - apply H2, yields_skip. intros m. apply yields_ret, filled_DownloadHandle.
  - by apply H2, yields_ReloadConfHandle.
Qed.
End answering.

(** ** The answer on the client's side *)

(** The message that [GetEventResult] makes of a result. *)
Definition answer `{Platform} (r : EventResult) : Message :=
  mkMessage (default (opt_of stack_int) (er_opt r)) (er_payload r).

Section printing.
Context `{PF : Platform} `{SC : SecureC} `{!SecureCLaws SC} `{HO : HashOrder} `{GO : GetOpt}
  `{CH : ClientHost}.

Definition fresh_message : Message := mkMessage (opt_of stack_int) [].

(** A request that was made, and the option the daemon's table is asked for. *)
Lemma Handler_asks h s s1 msg :
  Handler h fresh_message s = Ran msg s1 →
  s1 = s ∧ h ≠ StartHandler ∧ (msg_opt msg ∈ asked ∨ (h = StopHandler ∧ msg_opt msg = SHUTDOWN)).
Proof.
  destruct h; simpl; unfold Load_Handler, Remove_Handler, Disabled_Handler, Install_Handler,
    Query_Handler, QueryTop_Handler, Enabled_Handler, with_arg, mbind, Cli_bind; simpl;
    repeat case_decide; try discriminate; intros [= <- <-]; (split; [done|]);
    (split; [discriminate|]); simpl; try (by right); left; by_decide.
Qed.

Lemma Handler_reads_payload h s s1 msg :
  Handler h fresh_message s = Ran msg s1 →
  (h = QueryTopHandler ∨ h = InstallHandler ∨ h = ReloadConfHandler) →
  reads_payload (msg_opt msg) = true.
Proof.
  intros E [-> | [-> | ->]]; revert E; simpl; unfold Install_Handler, QueryTop_Handler, with_arg,
    mbind, Cli_bind; simpl; repeat case_decide; intros [= <- <-]; done.
Qed.

Definition runs (m : Cli unit) (s : Ctl) : Prop := ∃ s', m s = Ran tt s'.

Lemma runs_bind_log l (m : Cli unit) s : (∀ s, runs m s) → runs (log l ;; m) s.
Proof. intros Hm. apply Hm. Qed.
Lemma runs_log l s : runs (log l) s.
Proof. by eexists. Qed.
Lemma runs_payload0 msg (f : string → Cli unit) s :
  msg_payload msg ≠ [] → (∀ text s, runs (f text) s) → runs (payload0 msg ≫= f) s.
Proof.
  intros Hne Hf. unfold payload0. destruct (msg_payload msg) as [|text l]; [done|].
  simpl. apply Hf.
Qed.
Lemma runs_state (f : Ctl → Cli unit) s : (∀ x s, runs (f x) s) → runs (state ≫= f) s.
Proof. intros Hf. apply Hf. Qed.

Lemma runs_ret s : runs (mret tt) s.
Proof. by eexists. Qed.

Lemma runs_bind_ret (m : Cli unit) s : runs m s → runs (mret tt ;; m) s.
Proof. done. Qed.

Ltac runs_step :=
  match goal with
  | |- runs (log _) _ => apply runs_log
  | |- runs (mret _) _ => apply runs_ret
  | |- runs (mbind _ (mret _)) _ => apply runs_bind_ret
  | |- runs (mbind _ state) _ => apply runs_state; intros ? ?
  | |- runs (mbind _ (payload0 _)) _ => apply runs_payload0; [by auto|intros ? ?]
  | |- runs (mbind _ (log _)) _ => apply runs_bind_log; intros ?
  | |- runs (mbind _ (if ?b then _ else _)) _ => destruct b
  | |- runs (if ?b then _ else _) _ => destruct b
  end.

(** Nothing in an answer that reads well stops the client. *)
Lemma ResHandler_runs h r s :
  readable r →
  (h = QueryTopHandler ∨ h = InstallHandler ∨ h = ReloadConfHandler → er_payload r ≠ []) →
  runs (ResHandler h (answer r)) s.
Proof.
  intros Hr Hp.
  assert (msg_opt (answer r) ≠ RESPONSE_OK → msg_payload (answer r) ≠ []) as Hno.
  { unfold answer. simpl. destruct Hr as [->|[-> ?]]; [done|done]. }
  assert (msg_opt (answer r) = RESPONSE_ERROR → msg_payload (answer r) ≠ []) as Herr.
  { intros E. apply Hno. by rewrite E. }
  assert (h = QueryTopHandler ∨ h = InstallHandler ∨ h = ReloadConfHandler →
    msg_payload (answer r) ≠ []) as Hp' by done.
  revert Hno Herr Hp'. generalize (answer r). clear r Hr Hp. intros msg Hno Herr Hp.
  destruct h; cbn [ResHandler]; unfold Load_ResHandler, Query_ResHandler, Remove_ResHandler,
    QueryTop_ResHandler, Enabled_ResHandler, Disabled_ResHandler, List_ResHandler,
    InfoCmd_ResHandler, Install_ResHandler, Start_ResHandler, Stop_ResHandler,
    ReloadConf_ResHandler, PrintFormat, failed_because, query_failed, write_to_file, say_line, say,
    say_all, GeneratePngFromDot; repeat runs_step.
Qed.

Definition with_stream (st : SocketStream) (s : Ctl) : Ctl :=
  mkCtl (argValue s) (arg s) (enableParams s) (optind s) (ct_getopt s) (cmd s) (Some st)
    (ct_log s).

Lemma run_cli {A B} (m : Cli A) (f : A → Cli B) s a s' :
  m s = Ran a s' → (m ≫= f) s = f a s'.
Proof. unfold mbind, Cli_bind. by intros ->. Qed.

Lemma run_on_stream {A} (m : St SocketStream A) st a st' s :
  ct_stream s = Some st → m st = Ret (a, st') → on_stream m s = Ran a (with_stream st' s).
Proof.
  intros Hst Hm. unfold on_stream. rewrite (run_cli state _ s s s) by done.
  rewrite (run_cli (known _) _ s st s) by (by rewrite Hst). by rewrite Hm.
Qed.

Lemma append_empty_r s : (s +:+ EmptyString = s)%string.
Proof. induction s as [|c s IH]; [done|]. change (String c (s +:+ "") = String c s). by rewrite IH. Qed.

(** [send] takes the whole frame when it does not stop early. *)
Lemma SendMessage_whole p st b st' :
  ss_send st = [] → SendMessage p st = Ret (b, st') → b = true.
Proof.
  intros Hs. unfold SendMessage. destruct (GetProtocolStr p) as [bs| |] eqn:E; [|done..].
  unfold Write, mbind, St_bind, send. rewrite Hs. intros [= <- _]. apply bool_decide_eq_true.
  unfold GetProtocolStr in E. destruct (HeaderSerialize _ _) as [[? head]| |]; [|done..].
  destruct (MessageSerialize _ _) as [[? out]| |]; [|done..]. injection E as <-.
  cbn [length]. lia.
Qed.

(** A request that is sent and answered. *)
Lemma RunCmd_answered (s : Ctl) (h : CmdHandler) (st : SocketStream) (msg : Message)
    (r : EventResult) :
  MAX_RECV_BUFF_SIZE ≤ rsize_max → handler_of (cmd s) = Some h → ct_stream s = Some st →
  Handler h fresh_message s = Ran msg s → arrives (answer r) st →
  ∃ st', (ss_send st ≠ [] ∧ RunCmd s = Ran tt (with_stream st' s)) ∨
    RunCmd s = ResHandler h (answer r) (with_stream st' s).
Proof.
  intros Hmax Hh Hst Hmsg Ha.
  destruct (SendMessage_run (mkProtocol (type_of stack_int) msg) st) as (b & st1 & Es & Hsame).
  pose proof (arrives_same _ _ _ Hsame Ha) as (Hp & Hok & Hr & bs & rest & Hbs & Hl & Hin).
  pose proof (RecvMessage_frame Hmax (mkProtocol (type_of stack_int) (mkMessage LOAD [])) _ st1
    bs rest Hp eq_refl Hbs Hl Hok Hr Hin) as H.
  apply twp_alt in H as (x & st2 & Er & -> & _).
  unfold RunCmd. rewrite (run_cli state _ s s s) by done.
  rewrite (run_cli (known _) _ s h s) by (by rewrite Hh).
  rewrite (run_cli (Handler h _) _ s msg s) by done.
  rewrite (run_cli (SendMsg _ _) _ s b (with_stream st1 s)).
  2:{ unfold SendMsg. rewrite (run_on_stream _ st b st1) by done. done. }
  destruct b; cbn [negb].
  2:{ exists st1. left. split; [|done]. intros E. by apply (SendMessage_whole _ _ _ _ E) in Es. }
  unfold RecvMsg. exists st2. right.
  erewrite run_cli; [|erewrite run_cli; [|by apply (run_on_stream _ st1)]; reflexivity].
  done.
Qed.
End printing.

(** A client whose daemon sends the answer [r] in three segments. *)
Definition answer_bytes (r : EventResult) : list byte :=
  frame_of (mkProtocol RESPONSE (@answer platform_ref r)).
Definition answer_stream (r : EventResult) : SocketStream :=
  let bs := answer_bytes r in
  new_stream [Bytes (take 17 bs); Bytes (take 2 (drop 17 bs)); Bytes (drop 19 bs)] [].
Definition ctl_ref (option : ascii) (name : string) (r : EventResult) : Ctl :=
  @mkCtl getopt_ref ["oeawarectl"%string] name ∅ 1 EmptyString (ch option)
    (Some (answer_stream r)) [].

Section examples.
#[local] Existing Instance platform_ref.

Lemma answer_arrives r :
  Protocol_ok (mkProtocol RESPONSE (@answer platform_ref r)) →
  GetProtocolStr (mkProtocol RESPONSE (@answer platform_ref r)) = Ret (answer_bytes r) →
  (19 < length (answer_bytes r) < 4096)%nat →
  @arrives platform_ref (@answer platform_ref r) (answer_stream r).
Proof.
  set (bs := answer_bytes r). intros Hp Hbs Hlen. split; [done|].
  assert (∀ n m, (n < m)%nat → (m ≤ length bs)%nat → drop n (take m bs) ≠ []) as Hne.
  { intros n m Hn Hm E. apply (f_equal length) in E. rewrite length_drop, length_take in E.
    simpl in E. lia. }
  assert (take 17 bs ++ take 2 (drop 17 bs) ++ drop 19 bs = bs) as Hcat.
  { rewrite <-(take_drop 17 bs) at 4. f_equal. rewrite <-(take_drop 2 (drop 17 bs)) at 2.
    by rewrite drop_drop. }
  split; [|split].
  - split_and!; simpl; [lia..|]. rewrite !list.Forall_cons. split_and!; [..|done]; simpl;
      intros E; fold bs in E; apply (f_equal length) in E; rewrite ?length_take, ?length_drop in E; 
      cbn [length] in E; lia.
  - right. split; [done|]. eexists _, _. split; [reflexivity|]. rewrite length_take. fold bs. lia.
  - exists bs, []. split; [done|]. split; [lia|].
    change (take 17 bs ++ take 2 (drop 17 bs) ++ drop 19 bs ++ [] = bs ++ []).
    by rewrite !app_nil_r, Hcat.
Qed.
End examples.

Ltac answer_arrives := apply answer_arrives; [repeat split; by_decide|by vm_compute|by_decide].


Definition enabled_text : string := "Instance enabled successfully.".

Definition dot_ref : EventResult := result_ok [GenerateDot []].



