(* ===== verification/Machine.v ===== *)
(** * The machine that plugins tune (src/common/utils.cpp: ExecCommand,
      ServiceIsActive, ServiceControl, IrqSetSmpAffinity, IrqGetSmpAffinity,
      GetCpuCycles, GetCpuFreqByDmi)

    Files, commands, directories and YAML documents.  What they hold and how
    a write or a command changes them is the kernel's and other programs': a
    class of operations on a state of its own. *)

From Stdlib Require Import ZArith Lia Strings.Byte.
From stdpp Require Import base list strings gmap numbers.
From S2P Require Import Prelude Bytes StdString Utils Config.

(** [sys_write] tells whether the file opens, and whether the kernel takes
    what is written to it. *)
Class Machine := {
  sys : Set;
  sys_read : sys → string → option (list byte);
  sys_write : sys → string → list byte → bool * bool * sys;
  sys_exists : sys → string → bool;
  sys_dir : sys → string → option (list string);
  sys_exec : sys → string → option (list byte) * sys;     (* popen, and its output *)
  sys_system : sys → string → Z * sys;
  sys_yaml : sys → string → option Node;                   (* YAML::LoadFile *)
  sys_emit : sys → string → Node → sys;                    (* ofstream << node *)
  sys_cpus : sys → Z                                       (* sysconf *)
}.

(** [v[z]] of a vector or an array. *)
Definition at_index {A} (l : list A) (z : Z) : option A :=
  if decide (z < 0) then None else l !! Z.to_nat z.
(** The elements that a loop up to [n] reads. *)
Definition array {A} (n : Z) (l : list A) : option (list A) :=
  if decide (Z.to_nat n ≤ length l)%nat then Some (take (Z.to_nat n) l) else None.
Lemma at_index_of_nat {A} (l : list A) n : at_index l (Z.of_nat n) = l !! n.
Proof. unfold at_index. rewrite decide_False by lia. by rewrite Nat2Z.id. Qed.

Definition newline : byte := x0a.

(** What [std::getline] finds first. *)
Definition first_line (content : list byte) : option (list byte) :=
  head (getline_all newline content).

(** [file >> text]: the first word. *)
Fixpoint word (l : list byte) : list byte :=
  match l with
  | b :: l => if is_space b then [] else b :: word l
  | [] => []
  end.
Definition first_word (l : list byte) : list byte := word (skip_space l).

Definition trail (b : byte) : bool :=
  bool_decide (b ∈ [x20; x0a; x0d; x09]).
Fixpoint drop_trail (l : list byte) : list byte :=
  match l with
  | b :: l' => if trail b then drop_trail l' else l
  | [] => []
  end.
(** [erase(find_last_not_of(" \n\r\t") + 1)]. *)
Definition rtrim (l : list byte) : list byte := reverse (drop_trail (reverse l)).

Definition EINVAL : Z := 22.
Definition EIO : Z := 5.

Section machine.
Context `{MA : Machine}.

(** A call that cannot throw on the machine alone. *)
Definition on_file (path : string) (text : list byte) : St sys (bool * bool) := λ m,
  let '(opens, takes, m) := sys_write m path text in Ret ((opens, takes), m).
Definition system (cmd : string) : St sys Z := λ m, Ret (sys_system m cmd).
Definition ExecCommand (cmd : string) : St sys (option (list byte)) := λ m, Ret (sys_exec m cmd).

(** The result, and [isActive]. *)
Definition ServiceIsActive (serviceName : string) : St sys (bool * bool) :=
  ret ← ExecCommand ("systemctl is-active " +:+ serviceName)%string;
  mret (match ret with
        | None => (false, false)
        | Some ret => (true, bool_decide (filter (λ b, b ≠ newline) ret = bytes_of "active"))
        end).

Definition ServiceControl (serviceName action : string) : St sys bool :=
  if decide (action ∉ ["start"; "stop"; "restart"]%string) then mret false else
  r ← system ("systemctl " +:+ action +:+ " " +:+ serviceName)%string;
  mret (bool_decide (r = 0)).

Definition affinity_path (irqNum : Z) : string :=
  ("/proc/irq/" +:+ str_of (to_string irqNum) +:+ "/smp_affinity_list")%string.

(** The stream is flushed, so a value the kernel does not take is an error. *)
Definition IrqSetSmpAffinity (irqNum : Z) (preferredCpu : list byte) : St sys Z :=
  if decide (irqNum < 0) then mret EINVAL else
  '(opens, takes) ← on_file (affinity_path irqNum) (preferredCpu ++ [newline]);
  mret (if (opens : bool) then if (takes : bool) then 0 else EIO else EIO).

Definition IrqGetSmpAffinity (irqNum : Z) : St sys (list byte) :=
  m ← get;
  mret (match sys_read m (affinity_path irqNum) with
        | None => []
        | Some text => first_word text
        end).

(** [file >> freq] for a [uint64_t]. *)
Definition extract_u64 (l : list byte) : option Z :=
  z ← strtol l;
  if decide (- modulus CUlong < z < modulus CUlong) then Some (wrap CUlong z) else None.
Definition freq_path (cpu : Z) : string :=
  ("/sys/devices/system/cpu/cpu" +:+ str_of (to_string cpu) +:+ "/cpufreq/scaling_cur_freq")%string.
Definition GetCpuCycles (m : sys) (cpu : Z) : Z :=
  match sys_read m (freq_path cpu) with
  | None => 0
  | Some text => match extract_u64 text with
                 | None => 0
                 | Some freq => wrap CUlong (freq * 1000)
                 end
  end.

Definition dmi_command : string :=
  "dmidecode -t processor | grep 'Max Speed' | head -n 1 | awk '{print $3}'".
(** [fgets] into 128 bytes. *)
Definition fgets_line (l : list byte) : option (list byte) :=
  line ← first_line l; Some (take 127 line).
Definition GetCpuFreqByDmi : St sys Z :=
  out ← ExecCommand dmi_command;
  match out ≫= fgets_line with
  | None => mret 0
  | Some buffer =>
    let str := rtrim buffer in
    if negb (forallb is_digit str) then mret 0 else
    if decide (str = []) then throw InvalidArgument else
    if decide (digits_val str < modulus CUlong)
    then mret (wrap CUlong (digits_val str * 1000000)) else throw OutOfRange
  end.
End machine.
