(* ===== verification/Steps.v ===== *)
(** * What code does to its object, as a relation

    [always R c]: [c] returns, from any state, in a state related to it.
    [returns R c]: where [c] returns, it is in a related state. *)

From stdpp Require Import base list.
From S2P Require Import Prelude.

Section steps.
Context {S : Type} (R : relation S) `{!PreOrder R}.

Definition always {A} (c : St S A) : Prop := ∀ s, twp c (λ _ s', R s s') s.
Definition returns {A} (c : St S A) : Prop := ∀ s a s', c s = Ret (a, s') → R s s'.

Lemma always_returns {A} (c : St S A) : always c → returns c.
Proof. intros Hc s a s' E. specialize (Hc s). unfold twp in Hc. by rewrite E in Hc. Qed.

Lemma always_from {A} (c : St S A) s0 s : always c → R s0 s → twp c (λ _ s', R s0 s') s.
Proof. intros Hc H. eapply twp_mono; [apply Hc|]. intros ? s' H'. by etransitivity. Qed.

Lemma always_ret {A} (a : A) : always (mret a).
Proof. intros s. by apply twp_ret. Qed.
Lemma always_bind {A B} (c : St S A) (f : A → St S B) :
  always c → (∀ a, always (f a)) → always (c ≫= f).
Proof.
  intros Hc Hf s. apply twp_bind. eapply twp_mono; [apply Hc|]. intros a s' H.
  by apply always_from.
Qed.
Lemma always_get : always get.
Proof. intros s. by apply twp_get. Qed.
Lemma always_modify f : (∀ s, R s (f s)) → always (modify f).
Proof. intros Hf s. by apply twp_modify. Qed.
Lemma always_for_each {A} (l : list A) (f : A → St S unit) :
  (∀ x, always (f x)) → always (for_each l f).
Proof.
  intros Hf s. eapply (twp_for_each _ _ (R s)); [done|]. intros x s1 _ H. by apply always_from.
Qed.

Lemma returns_bind {A B} (c : St S A) (f : A → St S B) :
  returns c → (∀ a, returns (f a)) → returns (c ≫= f).
Proof.
  intros Hc Hf s b s'. rewrite run_bind. destruct (c s) as [[a s1]| |] eqn:E; [|done..].
  intros E'. transitivity s1; [by eapply Hc|by eapply Hf].
Qed.
Lemma returns_ret {A} (a : A) : returns (mret a).
Proof. by intros s b s' [= _ <-]. Qed.
Lemma returns_get : returns get.
Proof. by intros s b s' [= _ <-]. Qed.
Lemma returns_deref {A} (o : option A) : returns (deref o).
Proof. destruct o; [apply returns_ret|by intros s b s']. Qed.
Lemma returns_throw {A} e : returns (throw (A:=A) e).
Proof. by intros s b s'. Qed.
Lemma returns_undef {A} : returns (undef (A:=A)).
Proof. by intros s b s'. Qed.
Lemma returns_modify f : (∀ s, R s (f s)) → returns (modify f).
Proof. by intros Hf s a s' [= _ <-]. Qed.
Lemma returns_for_each {A} (l : list A) (f : A → St S unit) :
  (∀ x, returns (f x)) → returns (for_each l f).
Proof.
  intros Hf. induction l as [|x l IH]; [apply returns_ret|].
  apply returns_bind; [apply Hf|]. by intros [].
Qed.
End steps.

(** [within I c]: from a state in [I], [c] does not throw, and where it
    returns it is still in [I]; [fatal I c]: from there it is undefined. *)
Section within.
Context {S : Type} (I : S → Prop).

Definition within {A} (c : St S A) : Prop := ∀ s, I s →
  match c s with Ret (_, s') => I s' | Throw _ => False | Undef => True end.
Definition fatal {A} (c : St S A) : Prop := ∀ s, I s → c s = Undef.

Lemma within_ret {A} (a : A) : within (mret a).
Proof. by intros s Hs. Qed.
Lemma within_get : within get.
Proof. by intros s Hs. Qed.
Lemma within_deref {A} (o : option A) : within (deref o).
Proof. by intros s Hs; destruct o. Qed.
Lemma within_undef {A} : within (undef (A:=A)).
Proof. by intros s Hs. Qed.
Lemma within_modify f : (∀ s, I s → I (f s)) → within (modify f).
Proof. by intros Hf s Hs; apply Hf. Qed.
Lemma within_bind {A B} (c : St S A) (f : A → St S B) :
  within c → (∀ a, within (f a)) → within (c ≫= f).
Proof.
  intros Hc Hf s Hs. rewrite run_bind. specialize (Hc s Hs). destruct (c s) as [[a s']| |]; [|done..].
  by apply Hf.
Qed.
Lemma within_for_each {A} (l : list A) (f : A → St S unit) :
  (∀ x, within (f x)) → within (for_each l f).
Proof.
  intros Hf. induction l as [|x l IH]; [apply within_ret|]. apply within_bind; [apply Hf|done].
Qed.

Lemma fatal_bind {A B} (c : St S A) (f : A → St S B) :
  within c → (∀ a, fatal (f a)) → fatal (c ≫= f).
Proof.
  intros Hc Hf s Hs. rewrite run_bind. specialize (Hc s Hs). destruct (c s) as [[a s']| |]; [|done..].
  by apply Hf.
Qed.
Lemma fatal_now {A B} (c : St S A) (f : A → St S B) : fatal c → fatal (c ≫= f).
Proof. intros Hc s Hs. by rewrite run_bind, Hc. Qed.
End within.

(** Taking a run apart. *)
Lemma bind_inv {S A B} (m : St S A) (f : A → St S B) s b s' :
  (m ≫= f) s = Ret (b, s') → ∃ a s1, m s = Ret (a, s1) ∧ f a s1 = Ret (b, s').
Proof. rewrite run_bind. destruct (m s) as [[a s1]| |]; [|done..]. eauto. Qed.
Lemma deref_inv {S A} (o : option A) (s : S) a s' :
  deref o s = Ret (a, s') → o = Some a ∧ s' = s.
Proof. destruct o; [|done]. by intros [= -> ->]. Qed.

(** [ends c Q s]: where [c] returns from [s], [Q] holds. *)
Definition ends {S A} (c : St S A) (Q : A → S → Prop) (s : S) : Prop :=
  match c s with Ret (a, s') => Q a s' | _ => True end.

Section ends.
Context {S : Type}.

Lemma ends_twp {A} (c : St S A) Q (s : S) : twp c Q s → ends c Q s.
Proof. unfold twp, ends. by destruct (c s) as [[a s']| |]. Qed.
Lemma ends_value {A} (a : A) (Q : A → S → Prop) s : Q a s → ends (mret a) Q s.
Proof. done. Qed.
Lemma ends_then {A B} (c : St S A) (f : A → St S B) Q s :
  ends c (λ a, ends (f a) Q) s → ends (c ≫= f) Q s.
Proof. unfold ends. rewrite run_bind. by destruct (c s) as [[a s']| |]. Qed.
Lemma ends_weaken {A} (c : St S A) (Q R : A → S → Prop) s :
  ends c Q s → (∀ a s', Q a s' → R a s') → ends c R s.
Proof. unfold ends. destruct (c s) as [[a s']| |]; eauto. Qed.
Lemma ends_get (Q : S → S → Prop) s : Q s s → ends get Q s.
Proof. done. Qed.
Lemma ends_modify (f : S → S) (Q : unit → S → Prop) s : Q tt (f s) → ends (modify f) Q s.
Proof. done. Qed.
Lemma ends_undef {A} (Q : A → S → Prop) s : ends undef Q s.
Proof. done. Qed.
Lemma ends_deref {A} (o : option A) (Q : A → S → Prop) s :
  (∀ a, o = Some a → Q a s) → ends (deref o) Q s.
Proof. destruct o; [|done]. intros H. by apply H. Qed.
Lemma ends_lift {A} (o : outcome A) (Q : A → S → Prop) s :
  (∀ a, o = Ret a → Q a s) → ends (lift o) Q s.
Proof. destruct o; [|done..]. intros H. by apply H. Qed.
Lemma ends_zoom {M A} (part : S → M) (set_part : M → S → S) (c : St M A) (Q : A → S → Prop) s :
  (∀ a m, Q a (set_part m s)) → ends (zoom part set_part c) Q s.
Proof. intros H. unfold ends, zoom. by destruct (c (part s)) as [[a m]| |]. Qed.
Lemma ends_for_each {A} (l : list A) (body : A → St S unit) (I : list A → S → Prop) s :
  I [] s → (∀ l1 x l2 s, l = l1 ++ x :: l2 → I l1 s → ends (body x) (λ _, I (l1 ++ [x])) s) →
  ends (for_each l body) (λ _, I l) s.
Proof.
  intros Hs Hb. assert (∀ l2 l1 s, l = l1 ++ l2 → I l1 s →
    ends (for_each l2 body) (λ _, I l) s) as H; [|by apply (H l [])].
  induction l2 as [|x l2 IH]; intros l1 s' Hl HI; simpl.
  { apply ends_value. by rewrite app_nil_r in Hl; subst. }
  apply ends_then. eapply ends_weaken; [by eapply Hb|]. intros [] s2 H2. cbv beta in H2.
  apply (IH (l1 ++ [x])); [|done]. by rewrite <-app_assoc.
Qed.
End ends.

(** Walking through code; [leaf], which starts with
    [idtac] so as to be run at each step, settles the calls of its own. *)
Ltac always_run leaf :=
  repeat first
    [ leaf
    | lazymatch goal with
      | |- always _ (mret _) => apply always_ret; apply _
      | |- always _ (_ ≫= _) => apply always_bind; [apply _| |intros ?]
      | |- always _ get => apply always_get; apply _
      | |- always _ (for_each _ _) => apply always_for_each; [apply _|intros ?]
      | |- always _ (if ?b then _ else _) => destruct b
      | |- always _ (match ?x with _ => _ end) => destruct x
      end ].
Ltac returns_run leaf :=
  repeat first
    [ leaf
    | lazymatch goal with
      | |- returns _ (mret _) => apply returns_ret; apply _
      | |- returns _ (_ ≫= _) => apply returns_bind; [apply _| |intros ?]
      | |- returns _ get => apply returns_get; apply _
      | |- returns _ (deref _) => apply returns_deref; apply _
      | |- returns _ (throw _) => apply returns_throw
      | |- returns _ undef => apply returns_undef
      | |- returns _ (for_each _ _) => apply returns_for_each; [apply _|intros ?]
      | |- returns _ (if ?b then _ else _) => destruct b
      | |- returns _ (match ?x with _ => _ end) => destruct x
      end ].
Ltac within_run leaf :=
  repeat first
    [ leaf
    | lazymatch goal with
      | |- within _ (mret _) => apply within_ret
      | |- within _ (_ ≫= _) => apply within_bind; [|intros ?]
      | |- within _ get => apply within_get
      | |- within _ (deref _) => apply within_deref
      | |- within _ undef => apply within_undef
      | |- within _ (for_each _ _) => apply within_for_each; intros ?
      | |- within _ (if ?b then _ else _) => destruct b
      | |- within _ (match ?x with _ => _ end) => destruct x
      end ].
