(* ===== verification/Realtime.v ===== *)
(** * Real-time tuning (src/plugin/tune/system/realtime)

    [Enable] reads its configuration, enters the instance in the daemon's
    configuration, sets the kernel's boot parameters with grubby and switches
    a number of kernel settings, whose values it keeps; [Disable] takes all
    that back. *)

From Stdlib Require Import ZArith Lia Strings.Byte.
From stdpp Require Import base list strings gmap numbers.
From S2P Require Import Prelude Bytes StdString Utils DataTypes Registry Daemon Config Machine.

(** ** State *)

(** [RealtimeTuneSwitch]. *)
Record Switch := mkSwitch {
  cpufreqPerformance : bool;
  transparentHugepage : bool;
  numaBalancing : bool;
  ksm : bool;
  swap : bool;
  timerMigration : bool;
  rtRuntimeUs : Z;
  featureSwitches : gmap string bool;
  cpuIsolationRange : list byte
}.
Definition switch0 : Switch := mkSwitch false false false false false false 0 ∅ [].

(** [SysTuneBackup]: -1 and the empty text stand for nothing kept. *)
Record SysTuneBackup := mkBackup {
  bk_ksmRun : Z;
  bk_thpEnabled : list byte;
  bk_numaBalancing : Z;
  bk_timerMigration : Z;
  bk_schedRtRuntime : Z;
  bk_cpuGovs : gmap string (list byte)
}.
Definition backup0 : SysTuneBackup := mkBackup (-1) [] (-1) (-1) (-1) ∅.

Definition timerMigrationPath : string := "/proc/sys/kernel/timer_migration".
Definition schedRuntimePath : string := "/proc/sys/kernel/sched_rt_runtime_us".
Definition ksmRunPath : string := "/sys/kernel/mm/ksm/run".
Definition thpEnabledPath : string := "/sys/kernel/mm/transparent_hugepage/enabled".
Definition numaBalancingPath : string := "/proc/sys/kernel/numa_balancing".
Definition cpuFreqPath : string := "/sys/devices/system/cpu/".
Definition swapoffCmd : string := "swapoff -a".
Definition swaponCmd : string := "swapon -a".
Definition realtime_config : string := "/etc/oeAware/plugin/realtime_tune.yaml".
Definition daemon_config : string := "/etc/oeAware/config.yaml".
Definition KERNEL_PARAM_KEYS : list string :=
  ["isolcpus"; "nohz_full"; "rcu_nocbs"; "irqaffinity"]%string.

(** ** The configuration file

    A check that fails and an exception both end in the [false] of
    [ParseFromSwitchConfig]; what was read before stays in the switches. *)

Definition Parse (A : Type) : Type := Switch → option A * Switch.
#[export] Instance Parse_ret : MRet Parse := λ A a w, (Some a, w).
#[export] Instance Parse_bind : MBind Parse := λ A B f m w,
  match m w with (Some a, w) => f a w | (None, w) => (None, w) end.
Definition refuse {A} : Parse A := λ w, (None, w).
Definition need {A} (o : option A) : Parse A := λ w, (o, w).
Definition set_switch (f : Switch → Switch) : Parse unit := λ w, (Some tt, f w).
(** A check, with the exceptions it may throw. *)
Definition require (b : outcome bool) : Parse unit :=
  match b with Ret true => mret tt | _ => refuse end.

Definition IsValidSwitch (val : string) : bool :=
  bool_decide (val = "on"%string) || bool_decide (val = "off"%string).

(** The characters that the regular expression [^[0-9,\-\s]+$] allows. *)
Definition range_char (b : byte) : bool :=
  is_digit b || bool_decide (b = comma) || bool_decide (b = dash) || is_space b.

Definition blank (b : byte) : bool := bool_decide (b = x20) || bool_decide (b = x09).
Fixpoint trim_front (l : list byte) : list byte :=
  match l with
  | b :: l' => if blank b then trim_front l' else l
  | [] => []
  end.
(** The two calls of [erase]. *)
Definition trim (l : list byte) : list byte := reverse (trim_front (reverse (trim_front l))).

Definition all_digits (l : list byte) : bool := forallb is_digit l.

Section token.
Context (maxCpuId : Z).

Definition ValidateCpuToken (token : list byte) : outcome bool :=
  match find_byte dash token with
  | Some p =>
    let startStr := take p token in
    let endStr := drop (p + 1) token in
    if bool_decide (startStr = []) || bool_decide (endStr = []) ||
       negb (all_digits startStr) || negb (all_digits endStr) then Ret false
    else
      match stoi startStr, stoi endStr with
      | Ret start, Ret stop =>
        Ret (negb (bool_decide (start < 0 ∨ maxCpuId < stop ∨ stop < start)))
      | Throw e, _ | _, Throw e => Throw e
      | _, _ => Undef
      end
  | None =>
    if negb (all_digits token) then Ret false else
    match stoi token with
    | Ret cpuId => Ret (negb (bool_decide (cpuId < 0 ∨ maxCpuId < cpuId)))
    | Throw e => Throw e
    | Undef => Undef
    end
  end.

Fixpoint validate_tokens (tokens : list (list byte)) : outcome bool :=
  match tokens with
  | [] => Ret true
  | token :: tokens =>
    let token := trim token in
    if decide (token = []) then Ret false else
    match ValidateCpuToken token with
    | Ret true => validate_tokens tokens
    | r => r
    end
  end.

Definition ValidateCpuRange (rangeValue : list byte) : outcome bool :=
  if decide (256 < Z.of_nat (length rangeValue)) then Ret false else
  if bool_decide (rangeValue = []) || negb (forallb range_char rangeValue) then Ret false else
  validate_tokens (getline_all comma rangeValue).

(** A key that must be there, and a scalar that must be there. *)
Definition child (n : Node) (key : string) : Parse Node :=
  n ← need (node_at n key); if IsDefined n then mret n else refuse.
Definition scalar (n : Node) (key : string) : Parse string :=
  n ← child n key; match n with NScalar s => mret s | _ => refuse end.
Definition on_off (n : Node) (key : string) : Parse string :=
  val ← scalar n key; if IsValidSwitch val then mret val else refuse.

Definition set_range (r : list byte) (w : Switch) : Switch :=
  mkSwitch (cpufreqPerformance w) (transparentHugepage w) (numaBalancing w) (ksm w) (swap w)
    (timerMigration w) (rtRuntimeUs w) (featureSwitches w) r.
Definition set_feature (key : string) (b : bool) (w : Switch) : Switch :=
  mkSwitch (cpufreqPerformance w) (transparentHugepage w) (numaBalancing w) (ksm w) (swap w)
    (timerMigration w) (rtRuntimeUs w) (<[key := b]> (featureSwitches w)) (cpuIsolationRange w).
Definition set_cpufreq (b : bool) (w : Switch) : Switch :=
  mkSwitch b (transparentHugepage w) (numaBalancing w) (ksm w) (swap w)
    (timerMigration w) (rtRuntimeUs w) (featureSwitches w) (cpuIsolationRange w).
Definition set_thp (b : bool) (w : Switch) : Switch :=
  mkSwitch (cpufreqPerformance w) b (numaBalancing w) (ksm w) (swap w)
    (timerMigration w) (rtRuntimeUs w) (featureSwitches w) (cpuIsolationRange w).
Definition set_numa (b : bool) (w : Switch) : Switch :=
  mkSwitch (cpufreqPerformance w) (transparentHugepage w) b (ksm w) (swap w)
    (timerMigration w) (rtRuntimeUs w) (featureSwitches w) (cpuIsolationRange w).
Definition set_ksm (b : bool) (w : Switch) : Switch :=
  mkSwitch (cpufreqPerformance w) (transparentHugepage w) (numaBalancing w) b (swap w)
    (timerMigration w) (rtRuntimeUs w) (featureSwitches w) (cpuIsolationRange w).
Definition set_swap (b : bool) (w : Switch) : Switch :=
  mkSwitch (cpufreqPerformance w) (transparentHugepage w) (numaBalancing w) (ksm w) b
    (timerMigration w) (rtRuntimeUs w) (featureSwitches w) (cpuIsolationRange w).
Definition set_timer (b : bool) (w : Switch) : Switch :=
  mkSwitch (cpufreqPerformance w) (transparentHugepage w) (numaBalancing w) (ksm w) (swap w)
    b (rtRuntimeUs w) (featureSwitches w) (cpuIsolationRange w).
Definition set_rt (z : Z) (w : Switch) : Switch :=
  mkSwitch (cpufreqPerformance w) (transparentHugepage w) (numaBalancing w) (ksm w) (swap w)
    (timerMigration w) z (featureSwitches w) (cpuIsolationRange w).

Definition ParseCpuIsolationRange (cpuIso : Node) : Parse unit :=
  rangeValue ← scalar cpuIso "range";
  require (ValidateCpuRange (bytes_of rangeValue)) ;;
  set_switch (set_range (bytes_of rangeValue)).

Fixpoint parse_features (features : Node) (keys : list string) : Parse unit :=
  match keys with
  | [] => mret tt
  | key :: keys =>
    val ← on_off features key;
    set_switch (set_feature key (bool_decide (val = "on"%string))) ;;
    parse_features features keys
  end.

Definition ParseCpuIsolationFeatures (cpuIso : Node) : Parse unit :=
  features ← child cpuIso "features";
  if IsMap features then parse_features features KERNEL_PARAM_KEYS else refuse.

Definition ParseCpuIsolationConfig (config : Node) : Parse unit :=
  cpuIso ← child config "cpu_isolation";
  ParseCpuIsolationRange cpuIso ;;
  ParseCpuIsolationFeatures cpuIso.

Definition ParseCpuFreqConfig (config : Node) : Parse unit :=
  val ← on_off config "cpufreq_performance";
  set_switch (set_cpufreq (bool_decide (val = "on"%string))).

(** [target = invert ? (val == "off") : (val == "on")]. *)
Definition ParseMemorySwitch (mem : Node) (key : string) (target : bool → Switch → Switch)
    (invert : bool) : Parse unit :=
  val ← on_off mem key;
  set_switch (target (if invert then bool_decide (val = "off"%string)
                      else bool_decide (val = "on"%string))).

Definition ParseMemoryConfig (config : Node) : Parse unit :=
  mem ← child config "memory";
  ParseMemorySwitch mem "transparent_hugepage" set_thp true ;;
  ParseMemorySwitch mem "numa_balancing" set_numa true ;;
  ParseMemorySwitch mem "ksm" set_ksm true ;;
  ParseMemorySwitch mem "swap" set_swap true.

Definition ParseTimerConfig (config : Node) : Parse unit :=
  timer ← child config "timer";
  mig ← on_off timer "migration";
  set_switch (set_timer (bool_decide (mig = "off"%string))).

Definition ParseSchedConfig (config : Node) : Parse unit :=
  sched ← child config "sched";
  rtStr ← on_off sched "rt_runtime_us";
  set_switch (set_rt (if decide (rtStr = "off"%string) then -1 else 0)).

Definition parse_config (config : Node) : Parse unit :=
  ParseCpuIsolationConfig config ;;
  ParseCpuFreqConfig config ;;
  ParseMemoryConfig config ;;
  ParseTimerConfig config ;;
  ParseSchedConfig config.

(** [file] is what the library makes of the file. *)
Definition ParseFromSwitchConfig (file : option Node) (w : Switch) : bool * Switch :=
  match file with
  | None => (false, w)
  | Some config => let '(r, w) := parse_config config w in (bool_decide (r = Some tt), w)
  end.
End token.

(** ** The daemon's configuration

    The entry of this instance in the list of what the daemon enables. *)

Definition realtime_tune : string := "realtime_tune".
Definition system_tune : string := "libsystem_tune.so".

(** [node[key] = v]: in its place, or behind the others. *)
Fixpoint set_key (key : string) (v : Node) (l : list (string * Node)) : list (string * Node) :=
  match l with
  | [] => [(key, v)]
  | (k, w) :: l => if decide (k = key) then (k, v) :: l else (k, w) :: set_key key v l
  end.

(** The map that the subscript of a node that is not const makes of it. *)
Definition as_map (n : Node) : option (list (string * Node)) :=
  match n with
  | NMap l => Some l
  | NNull | NUndefined => Some []
  | NSequence l => Some (imap (λ i n, (str_of (to_string (Z.of_nat i)), n)) l)
  | NScalar _ => None
  end.

(** Where a loop over the list leads. *)
Inductive walk :=
| Throws
| Returns (b : bool)
| Items (found : bool) (l : list Node).

Definition keep_item (item : Node) (w : walk) : walk :=
  match w with Items found l => Items found (item :: l) | _ => w end.

Section enable_list.
Context `{YC : YamlConversions}.

(** [item["name"] && item["name"].as<std::string>() == "libsystem_tune.so"]. *)
Definition is_system_tune (item : Node) : option bool :=
  n ← node_at item "name";
  if IsDefined n then s ← as_string n; Some (bool_decide (s = system_tune)) else Some false.

(** The instances up to this one: an entry that is no string throws. *)
Fixpoint has_realtime (insts : list Node) : option bool :=
  match insts with
  | [] => Some false
  | inst :: insts =>
    s ← as_string inst; if decide (s = realtime_tune) then Some true else has_realtime insts
  end.

Definition set_instances (insts : list Node) (item : Node) : Node :=
  match item with NMap l => NMap (set_key "instances" (NSequence insts) l) | _ => item end.

(** The loop of [AddRealtimeTuneToConfig]. *)
Fixpoint add_items (items : list Node) : walk :=
  match items with
  | [] => Items false []
  | item :: items =>
    match is_system_tune item with
    | None => Throws
    | Some false => keep_item item (add_items items)
    | Some true =>
      match node_at item "instances" with
      | None => Throws
      | Some instances =>
        if negb (IsDefined instances) || IsNull instances then Returns true else
        match instances with
        | NSequence insts =>
          match has_realtime insts with
          | None => Throws
          | Some true => Items true (item :: items)
          | Some false => Items true (set_instances (insts ++ [NScalar realtime_tune]) item :: items)
          end
        | _ => Returns false
        end
      end
    end
  end.

Definition new_item : Node :=
  NMap [("name", NScalar system_tune); ("instances", NSequence [NScalar realtime_tune])]%string.

Definition list_of (l : list (string * Node)) : list Node :=
  match find_key "enable_list" l with NSequence items => items | _ => [] end.

(** The new document, or the result without one; an exception is [false]. *)
Definition add_realtime (config : Node) : bool * option Node :=
  match as_map config with
  | None => (false, None)
  | Some l =>
    match add_items (list_of l) with
    | Throws => (false, None)
    | Returns b => (b, None)
    | Items found items =>
      let items := if found then items else items ++ [new_item] in
      (true, Some (NMap (set_key "enable_list" (NSequence items) l)))
    end
  end.

(** The instances but this one. *)
Fixpoint other_instances (insts : list Node) : option (list Node) :=
  match insts with
  | [] => Some []
  | inst :: insts =>
    s ← as_string inst;
    rest ← other_instances insts;
    Some (if decide (s = realtime_tune) then rest else inst :: rest)
  end.

(** The loop of [RemoveRealtimeTuneFromConfig]. *)
Fixpoint remove_items (items : list Node) : walk :=
  match items with
  | [] => Items true []
  | item :: items =>
    match (if IsMap item then is_system_tune item else Some false) with
    | None => Throws
    | Some false => keep_item item (remove_items items)
    | Some true =>
      match node_at item "instances" with
      | Some (NSequence insts) =>
        match other_instances insts with
        | None => Throws
        | Some [] => remove_items items
        | Some others => keep_item (set_instances others item) (remove_items items)
        end
      | None => Throws
      | _ => Returns true
      end
    end
  end.

(** What is thrown here is not caught. *)
Definition remove_realtime (config : Node) : outcome (bool * option Node) :=
  match as_map config with
  | None => Throw YamlException
  | Some l =>
    match find_key "enable_list" l with
    | NSequence items =>
      match remove_items items with
      | Throws => Throw YamlException
      | Returns b => Ret (b, None)
      | Items _ items =>
        let newList := match items with [] => NNull | _ => NSequence items end in
        Ret (true, Some (NMap (set_key "enable_list" newList l)))
      end
    | _ => Ret (true, None)
    end
  end.
End enable_list.

(** ** Boot parameters *)

(** The numbers up to [maxCpu] that are not in the set, runs of neighbours
    joined. *)
Fixpoint runs (start stop : Z) (l : list Z) : list range_item :=
  let item := if decide (start = stop) then Single start else Range start stop in
  match l with
  | [] => [item]
  | n :: l => if decide (n = stop + 1) then runs start n l else item :: runs n n l
  end.
Definition join_runs (l : list Z) : list range_item :=
  match l with [] => [] | n :: l => runs n n l end.

Definition GetNotRangeCpus (range : list byte) (maxCpu : Z) : outcome (list byte) :=
  match ParseRange range with
  | Ret includeCpus =>
    let notInRange := filter (λ i, i ∉ includeCpus) (seqZ 0 (maxCpu + 1)) in
    Ret (print_range (join_runs notInRange))
  | Throw e => Throw e
  | Undef => Undef
  end.

(** The parameters in the order of the map's keys. *)
Definition params_in_order (m : gmap string (list byte)) : list (string * list byte) :=
  omap (λ key, pair key <$> (m !! key : option (list byte)))
    ["irqaffinity"; "isolcpus"; "nohz_full"; "rcu_nocbs"]%string.

Fixpoint expected_loop (w : Switch) (maxCpu : Z) (keys : list string)
    (params : gmap string (list byte)) : outcome (gmap string (list byte)) :=
  match keys with
  | [] => Ret params
  | key :: keys =>
    match featureSwitches w !! key with
    | Some true =>
      if decide (key = "irqaffinity"%string) then
        match ParseRange (cpuIsolationRange w) with
        | Ret _ =>
          match GetNotRangeCpus (cpuIsolationRange w) maxCpu with
          | Ret notRange => expected_loop w maxCpu keys (<[key := notRange]> params)
          | Throw e => Throw e
          | Undef => Undef
          end
        | Throw e => Throw e
        | Undef => Undef
        end
      else expected_loop w maxCpu keys (<[key := cpuIsolationRange w]> params)
    | _ => expected_loop w maxCpu keys params
    end
  end.
Definition GenerateExpectedKernelParams (w : Switch) (maxCpu : Z) :
    outcome (gmap string (list byte)) :=
  expected_loop w maxCpu KERNEL_PARAM_KEYS ∅.

Definition dquote : byte := x22.
Definition equals : byte := x3d.

Fixpoint rfind_byte (c : byte) (l : list byte) : option nat :=
  match l with
  | [] => None
  | b :: l =>
    match rfind_byte c l with
    | Some k => Some (S k)
    | None => if decide (b = c) then Some O else None
    end
  end.

(** [stream >> token] until it fails. *)
Fixpoint words_go (cur l : list byte) : list (list byte) :=
  let flush rest := match cur with [] => rest | _ => cur :: rest end in
  match l with
  | [] => flush []
  | b :: l => if is_space b then flush (words_go [] l) else words_go (cur ++ [b]) l
  end.
Definition words (l : list byte) : list (list byte) := words_go [] l.

Definition add_param (m : gmap (list byte) (list byte)) (token : list byte) :
    gmap (list byte) (list byte) :=
  match find_byte equals token with
  | Some eq => <[take eq token := drop (eq + 1) token]> m
  | None => <[token := []]> m
  end.

Fixpoint grubby_line (lines : list (list byte)) : gmap (list byte) (list byte) :=
  match lines with
  | [] => ∅
  | line :: lines =>
    if prefixb (bytes_of "args=") line then
      match find_byte dquote line, rfind_byte dquote line with
      | Some firstQuote, Some lastQuote =>
        if decide (firstQuote < lastQuote)%nat then
          foldl add_param ∅ (words (take (lastQuote - firstQuote - 1)
                                         (drop (firstQuote + 1) line)))
        else ∅
      | _, _ => ∅
      end
    else grubby_line lines
  end.
Definition ParseGrubbyCmdline (grubbyInfo : list byte) : gmap (list byte) (list byte) :=
  grubby_line (getline_all newline grubbyInfo).

(** ** The instance *)

Record RealTime `{Machine} := mkRealTime {
  rt_sys : sys;
  switchConfig : Switch;
  backup : SysTuneBackup;
  isRebooting : bool;
  maxCpuId : Z
}.

Section realtime.
Context `{MA : Machine} `{YC : YamlConversions} `{HO : HashOrder}.

Definition set_sys (m : sys) (s : RealTime) : RealTime :=
  mkRealTime _ m (switchConfig s) (backup s) (isRebooting s) (maxCpuId s).
Definition set_switches (w : Switch) (s : RealTime) : RealTime :=
  mkRealTime _ (rt_sys s) w (backup s) (isRebooting s) (maxCpuId s).
Definition set_backup (b : SysTuneBackup) (s : RealTime) : RealTime :=
  mkRealTime _ (rt_sys s) (switchConfig s) b (isRebooting s) (maxCpuId s).
Definition set_rebooting (b : bool) (s : RealTime) : RealTime :=
  mkRealTime _ (rt_sys s) (switchConfig s) (backup s) b (maxCpuId s).
Definition set_maxCpuId (z : Z) (s : RealTime) : RealTime :=
  mkRealTime _ (rt_sys s) (switchConfig s) (backup s) (isRebooting s) z.

(** The object when it is created. *)
Definition RealTime0 (m : sys) : RealTime := mkRealTime _ m switch0 backup0 false 0.

(** Code that only uses the machine. *)
Definition on_sys {A} (c : St sys A) : St RealTime A := λ s,
  match c (rt_sys s) with
  | Ret (a, m) => Ret (a, set_sys m s)
  | Throw e => Throw e
  | Undef => Undef
  end.

(** *** Files *)

(** [iss >> parsedValue] of the first line. *)
Definition GetInitialValue (path : string) : St RealTime (option Z) :=
  s ← get;
  mret (content ← sys_read (rt_sys s) path;
        line ← first_line content;
        z ← strtol line;
        if decide (in_range CInt z) then Some z else None).

(** The text is still in the stream's buffer when it is tested, so only a file
    that does not open makes this fail. *)
Definition SetStringValue (path : string) (value : list byte) : St RealTime bool :=
  '(opens, _) ← on_sys (on_file path value);
  mret opens.

Definition performance : list byte := bytes_of "performance".

Definition is_cpu_entry (name : string) : bool :=
  prefixb (bytes_of "cpu") (bytes_of name) &&
  match bytes_of name !! 3%nat with Some b => is_digit b | None => false end.

Definition keep_gov (path : string) (gov : list byte) (b : SysTuneBackup) : SysTuneBackup :=
  mkBackup (bk_ksmRun b) (bk_thpEnabled b) (bk_numaBalancing b) (bk_timerMigration b)
    (bk_schedRtRuntime b) (<[path := gov]> (bk_cpuGovs b)).

Definition gov_path (name : string) : string :=
  (cpuFreqPath +:+ name +:+ "/cpufreq/scaling_governor")%string.

(** One turn of the loop over the directory. *)
Definition set_governor (name : string) : St RealTime bool :=
  if negb (is_cpu_entry name) then mret true else
  let govPath := gov_path name in
  s ← get;
  if negb (sys_exists (rt_sys s) govPath) then mret true else
  match sys_read (rt_sys s) govPath with
  | None => mret true
  | Some content =>
    let curGov := default [] (first_line content) in
    modify (set_backup (keep_gov govPath curGov (backup s))) ;;
    if decide (curGov ≠ performance) then SetStringValue govPath performance else mret true
  end.

Fixpoint set_governors (names : list string) (allOk : bool) : St RealTime bool :=
  match names with
  | [] => mret allOk
  | name :: names => ok ← set_governor name; set_governors names (allOk && ok)
  end.

Definition SetCpuFreqPerformance : St RealTime bool :=
  s ← get;
  match sys_dir (rt_sys s) cpuFreqPath with
  | None => mret false
  | Some names => set_governors names true
  end.

Definition lbracket : byte := x5b.
Definition rbracket : byte := x5d.

(** [find('[') + 1] is 0 when there is none. *)
Definition thp_mode (modes : list byte) : list byte :=
  let startPos := match find_byte lbracket modes with Some p => S p | None => O end in
  match find_byte rbracket (drop startPos modes) with
  | Some len => take len (drop startPos modes)
  | None => []
  end.
Definition GetCurrentThpMode : St RealTime (list byte) :=
  s ← get;
  mret (match sys_read (rt_sys s) thpEnabledPath with
        | None => []
        | Some content => thp_mode (default [] (first_line content))
        end).

Definition set_ksmRun (o : option Z) (b : SysTuneBackup) : SysTuneBackup :=
  mkBackup (default (bk_ksmRun b) o) (bk_thpEnabled b) (bk_numaBalancing b) (bk_timerMigration b)
    (bk_schedRtRuntime b) (bk_cpuGovs b).
Definition set_thpEnabled (v : list byte) (b : SysTuneBackup) : SysTuneBackup :=
  mkBackup (bk_ksmRun b) v (bk_numaBalancing b) (bk_timerMigration b) (bk_schedRtRuntime b)
    (bk_cpuGovs b).
Definition set_numaBalancing (o : option Z) (b : SysTuneBackup) : SysTuneBackup :=
  mkBackup (bk_ksmRun b) (bk_thpEnabled b) (default (bk_numaBalancing b) o)
    (bk_timerMigration b) (bk_schedRtRuntime b) (bk_cpuGovs b).
Definition set_timerMigration (o : option Z) (b : SysTuneBackup) : SysTuneBackup :=
  mkBackup (bk_ksmRun b) (bk_thpEnabled b) (bk_numaBalancing b)
    (default (bk_timerMigration b) o) (bk_schedRtRuntime b) (bk_cpuGovs b).
Definition set_schedRtRuntime (o : option Z) (b : SysTuneBackup) : SysTuneBackup :=
  mkBackup (bk_ksmRun b) (bk_thpEnabled b) (bk_numaBalancing b) (bk_timerMigration b)
    (default (bk_schedRtRuntime b) o) (bk_cpuGovs b).

(** [GetInitialValue(path, backup.x)]: a failure leaves what was kept. *)
Definition keep_value (path : string) (f : option Z → SysTuneBackup → SysTuneBackup) :
    St RealTime unit :=
  o ← GetInitialValue path;
  modify (λ s, set_backup (f o (backup s)) s).

(** [if (on) { GetInitialValue(..); ok = SetStringValue(..); }]. *)
Definition switch_value (on : bool) (path : string)
    (f : option Z → SysTuneBackup → SysTuneBackup) (value : string) : St RealTime bool :=
  if on then keep_value path f ;; SetStringValue path (bytes_of value) else mret true.

Definition switch_thp (on : bool) : St RealTime bool :=
  if on then
    mode ← GetCurrentThpMode;
    modify (λ s, set_backup (set_thpEnabled mode (backup s)) s) ;;
    SetStringValue thpEnabledPath (bytes_of "never")
  else mret true.

Definition switch_swap (on : bool) : St RealTime bool :=
  if on then r ← on_sys (ExecCommand swapoffCmd); mret (bool_decide (is_Some r)) else mret true.

Definition OpenProcAndSys : St RealTime bool :=
  s ← get;
  let w := switchConfig s in
  cpuFreqOk ← (if cpufreqPerformance w then SetCpuFreqPerformance else mret true);
  thpOk ← switch_thp (transparentHugepage w);
  numaOk ← switch_value (numaBalancing w) numaBalancingPath set_numaBalancing "0";
  ksmOk ← switch_value (ksm w) ksmRunPath set_ksmRun "0";
  swapoffOk ← switch_swap (swap w);
  timerOk ← switch_value (timerMigration w) timerMigrationPath set_timerMigration "0";
  schedOk ← switch_value (bool_decide (rtRuntimeUs w = -1)) schedRuntimePath
              set_schedRtRuntime "-1";
  mret (cpuFreqOk && thpOk && numaOk && ksmOk && swapoffOk && timerOk && schedOk).

(** [if (on && kept != -1) SetStringValue(path, std::to_string(kept));]. *)
Definition restore_value (on : bool) (path : string) (kept : Z) : St RealTime unit :=
  if on && negb (bool_decide (kept = -1))
  then SetStringValue path (to_string kept) ;; mret tt else mret tt.

Definition restore_governor (kv : string * list byte) : St RealTime unit :=
  if decide (kv.2 ≠ performance) then SetStringValue kv.1 kv.2 ;; mret tt else mret tt.

Definition govs_in_order (m : gmap string (list byte)) : list (string * list byte) :=
  omap (λ path, pair path <$> (m !! path : option (list byte))) (hash_order (dom m)).

Definition DisableProcAndSys : St RealTime unit :=
  s ← get;
  let w := switchConfig s in
  let b := backup s in
  (if swap w then on_sys (ExecCommand swaponCmd) ;; mret tt else mret tt) ;;
  restore_value (ksm w) ksmRunPath (bk_ksmRun b) ;;
  restore_value (numaBalancing w) numaBalancingPath (bk_numaBalancing b) ;;
  restore_value (timerMigration w) timerMigrationPath (bk_timerMigration b) ;;
  restore_value (bool_decide (rtRuntimeUs w = -1)) schedRuntimePath (bk_schedRtRuntime b) ;;
  (if transparentHugepage w && negb (bool_decide (bk_thpEnabled b = []))
   then SetStringValue thpEnabledPath (bk_thpEnabled b) ;; mret tt else mret tt) ;;
  (if cpufreqPerformance w then for_each (govs_in_order (bk_cpuGovs b)) restore_governor
   else mret tt).

(** *** Commands *)

Definition CheckEnv : St RealTime bool :=
  r ← on_sys (ExecCommand "uname -v");
  mret (match r with
        | None => false
        | Some kernel => occurs (bytes_of "PREEMPT_RT") kernel
        end).

Definition quoted (s : string) : string :=
  let q := String (Ascii.ascii_of_nat 34) EmptyString in (q +:+ s +:+ q)%string.
Definition grubby_version : string := "grubby --version > /dev/null 2>&1".
Definition grubby_info : string := "grubby --info=DEFAULT".
Definition mkconfig : string := "grub2-mkconfig -o /boot/grub2/grub.cfg".
Definition grubby_kernel : string := "grubby --update-kernel=/boot/vmlinuz-$(uname -r) ".
Definition update_cmd (key : string) (value : list byte) : string :=
  (grubby_kernel +:+ "--args=" +:+ quoted (key +:+ "=" +:+ str_of value))%string.
Definition remove_cmd (key : string) : string :=
  (grubby_kernel +:+ "--remove-args=" +:+ quoted key)%string.

Definition IsGrubbyAvailable : St RealTime bool :=
  r ← on_sys (system grubby_version); mret (bool_decide (r = 0)).
Definition GetGrubbyInfo : St RealTime (list byte) :=
  r ← on_sys (ExecCommand grubby_info); mret (default [] r).
Definition UpdateKernelParamWithGrubby (key : string) (value : list byte) : St RealTime bool :=
  r ← on_sys (system (update_cmd key value)); mret (bool_decide (r = 0)).
Definition RemoveKernelParamWithGrubby (key : string) : St RealTime bool :=
  r ← on_sys (system (remove_cmd key)); mret (bool_decide (r = 0)).

(** The loop over the expected parameters: the entries of [updatedParams],
    and whether [failedUpdates] has any. *)
Fixpoint update_params (current : gmap (list byte) (list byte))
    (expected : list (string * list byte)) : St RealTime (list (string * list byte) * bool) :=
  match expected with
  | [] => mret ([], false)
  | (key, value) :: expected =>
    let old := current !! bytes_of key in
    if decide (old = Some value) then update_params current expected else
    ok ← UpdateKernelParamWithGrubby key value;
    '(updated, failed) ← update_params current expected;
    mret ((key, default [] old) :: updated, negb ok || failed)
  end.

(** The two loops that take the parameters back. *)
Definition rollback_one (param : string * list byte) : St RealTime unit :=
  (if decide (param.2 = []) then RemoveKernelParamWithGrubby param.1
   else UpdateKernelParamWithGrubby param.1 param.2) ;; mret tt.
Definition rollback (updated : list (string * list byte)) : St RealTime unit :=
  for_each updated rollback_one.

Definition CheckAndUpdateKernelParamsWithGrubby : St RealTime bool :=
  available ← IsGrubbyAvailable;
  if negb available then mret false else
  grubbyInfo ← GetGrubbyInfo;
  if decide (grubbyInfo = []) then mret false else
  s ← get;
  expectedParams ← lift (GenerateExpectedKernelParams (switchConfig s) (maxCpuId s));
  let currentParams := ParseGrubbyCmdline grubbyInfo in
  '(updatedParams, failed) ← update_params currentParams (params_in_order expectedParams);
  if (failed : bool) then rollback updatedParams ;; mret false else
  if decide (updatedParams = []) then mret true else
  modify (set_rebooting true) ;;
  ret ← on_sys (system mkconfig);
  if decide (ret ≠ 0) then rollback updatedParams ;; mret false else mret true.

Fixpoint remove_params (keys : list string) (features : gmap string bool) : St RealTime unit :=
  match keys with
  | [] => mret tt
  | key :: keys =>
    (match features !! key with
     | Some true => RemoveKernelParamWithGrubby key ;; mret tt
     | _ => mret tt
     end) ;; remove_params keys features
  end.
Definition DisableKernelParams : St RealTime unit :=
  s ← get; remove_params KERNEL_PARAM_KEYS (featureSwitches (switchConfig s)).

(** *** The daemon's configuration file *)

Definition emit (path : string) (doc : option Node) : St RealTime unit :=
  match doc with
  | Some n => modify (λ s, set_sys (sys_emit (rt_sys s) path n) s)
  | None => mret tt
  end.

Definition AddRealtimeTuneToConfig (configPath : string) : St RealTime bool :=
  s ← get;
  match sys_yaml (rt_sys s) configPath with
  | None => mret false
  | Some config => let '(r, doc) := add_realtime config in emit configPath doc ;; mret r
  end.

Definition RemoveRealtimeTuneFromConfig (configPath : string) : St RealTime bool :=
  s ← get;
  match sys_yaml (rt_sys s) configPath with
  | None => mret false
  | Some config =>
    '(r, doc) ← lift (remove_realtime config); emit configPath doc ;; mret r
  end.

(** *** Enable and disable *)

Definition UpdateMaxCpuId : St RealTime unit :=
  modify (λ s, set_maxCpuId (sys_cpus (rt_sys s) - 1) s).

(** [ParseFromSwitchConfig] on the instance. *)
Definition read_switches : St RealTime bool :=
  s ← get;
  let '(ok, w) := ParseFromSwitchConfig (maxCpuId s) (sys_yaml (rt_sys s) realtime_config)
                    (switchConfig s) in
  modify (set_switches w) ;; mret ok.

Definition range_is_set (w : Switch) : bool :=
  negb (bool_decide (cpuIsolationRange w = [])) &&
  negb (bool_decide (cpuIsolationRange w = bytes_of "0")).

Definition enable_failed (text : string) : Result := mkResult (Some FAILED) text.

Definition RealTime_Enable : St RealTime Result :=
  env ← CheckEnv;
  if negb env then mret (enable_failed
    "Current kernel is not PREEMPT_RT! yum install kernel-rt first.") else
  UpdateMaxCpuId ;;
  read ← read_switches;
  if negb read then mret (enable_failed "read realtime_tune.yaml failed") else
  added ← AddRealtimeTuneToConfig daemon_config;
  if negb added then mret (enable_failed "add realtime_tune to config failed") else
  s ← get;
  params ← (if range_is_set (switchConfig s) then CheckAndUpdateKernelParamsWithGrubby
            else mret true);
  if negb params then mret (enable_failed "check and update grubby params failed") else
  ok ← OpenProcAndSys;
  added ← AddRealtimeTuneToConfig daemon_config;
  if negb added then mret (enable_failed "add realtime_tune to config failed") else
  mret (mkResult (Some OK)
    (if (ok : bool) then
       "Realtime enabled successfully,all items are enabled,please reboot for changes to take effect"
     else
       "Realtime enabled successfully, but some items skiped,please reboot for changes to take effect")).

Definition RealTime_Disable : St RealTime unit :=
  DisableProcAndSys ;;
  s ← get;
  if isRebooting s then modify (set_rebooting false) else
  let w := switchConfig s in
  let needRemove := bool_decide (map_Exists (λ _ on, on = true) (featureSwitches w)) in
  (if range_is_set w && needRemove
   then DisableKernelParams ;; on_sys (system mkconfig) ;; mret tt
   else mret tt) ;;
  RemoveRealtimeTuneFromConfig daemon_config ;; mret tt.
End realtime.
