(* ===== verification/RealtimeParse.v ===== *)
(** * The processors of real-time tuning

    A range that passes the checks is one that the parser reads, to
    processors the machine has, and the boot parameters made of it name them
    and, for interrupts, exactly the others. *)

From Stdlib Require Import ZArith Lia Strings.Byte.
From stdpp Require Import base list strings gmap numbers.
From S2P Require Import Prelude Bytes StdString Utils DataTypes Registry Daemon Config Machine.
From S2P Require Import SecureC Realtime.

(** ** Numbers between blanks *)

Lemma blank_space b : blank b = true → is_space b = true ∧ is_digit b = false.
Proof.
  unfold blank. rewrite orb_true_iff, !bool_decide_eq_true. by intros [-> | ->].
Qed.

Definition blanks (l : list byte) : Prop := Forall (λ b, blank b = true) l.
Definition digits_only (l : list byte) : Prop := Forall (λ b, is_digit b = true) l.

Lemma all_digits_spec l : all_digits l = true ↔ digits_only l.
Proof.
  unfold all_digits, digits_only. rewrite forallb_forall, list.Forall_forall.
  split; intros H x Hx; apply H; by apply list_elem_of_In.
Qed.

Lemma skip_space_blanks l r : blanks l → skip_space (l ++ r) = skip_space r.
Proof.
  induction 1 as [|b l Hb _ IH]; [done|]. simpl. by destruct (blank_space b Hb) as [-> _].
Qed.

(** What [stoi] makes of a number that stands between blanks. *)
Lemma strtol_digits pre ds post :
  blanks pre → digits_only ds → ds ≠ [] → blanks post →
  strtol (pre ++ ds ++ post) = Some (digits_val ds).
Proof.
  intros Hpre Hds Hne Hpost. unfold strtol. rewrite skip_space_blanks by done.
  destruct ds as [|d ds]; [done|].
  assert (is_digit d = true) as Hd by (by apply list.Forall_cons in Hds as [? _]).
  destruct (is_digit_not_special d Hd) as (Hs & Hm & Hp & _). simpl. rewrite Hs.
  rewrite decide_False by done. rewrite decide_False by done.
  change (d :: ds ++ post) with ((d :: ds) ++ post).
  rewrite span_digits_all; [done|done|]. destruct Hpost as [|b post Hb _]; [done|].
  by destruct (blank_space b Hb).
Qed.

Lemma digits_val_nonneg ds : digits_only ds → 0 ≤ digits_val ds.
Proof.
  unfold digits_val. assert (∀ acc, digits_only ds → 0 ≤ acc →
    0 ≤ foldl (λ acc b, 10 * acc + digit_val b) acc ds) as H; [|intros; by apply H].
  induction ds as [|d ds IH]; intros acc Hds Hacc; [done|]. simpl.
  apply list.Forall_cons in Hds as [Hd Hds]. apply IH; [done|].
  unfold is_digit in Hd. rewrite andb_true_iff, !bool_decide_eq_true in Hd.
  unfold digit_val. lia.
Qed.

Lemma stoi_digits pre ds post n :
  blanks pre → digits_only ds → ds ≠ [] → blanks post → stoi ds = Ret n →
  stoi (pre ++ ds ++ post) = Ret n ∧ 0 ≤ n.
Proof.
  intros Hpre Hds Hne Hpost. unfold stoi. rewrite strtol_digits by done.
  pose proof (strtol_digits [] ds [] (Forall_nil_2 _) Hds Hne (Forall_nil_2 _)) as E.
  simpl in E. rewrite app_nil_r in E. rewrite E. case_decide; [|done]. intros [= <-].
  split; [done|]. by apply digits_val_nonneg.
Qed.

(** ** Trimming *)

Lemma trim_front_blanks l : ∃ pre, blanks pre ∧ l = pre ++ trim_front l.
Proof.
  induction l as [|b l (pre & Hp & E)]; [by exists []; split; [constructor|]|]. simpl.
  destruct (blank b) eqn:Eb; [|by exists []; split; [constructor|]].
  exists (b :: pre). split; [by constructor|]. simpl. by rewrite <-E.
Qed.

Lemma trim_blanks l : ∃ pre post, blanks pre ∧ blanks post ∧ l = pre ++ trim l ++ post.
Proof.
  destruct (trim_front_blanks l) as (pre & Hpre & E).
  destruct (trim_front_blanks (reverse (trim_front l))) as (post & Hpost & E').
  exists pre, (reverse post). split; [done|]. split; [by apply Forall_reverse|].
  assert (trim_front l = trim l ++ reverse post) as Et.
  { unfold trim. by rewrite <-reverse_app, <-E', reverse_involutive. }
  by rewrite <-Et.
Qed.

(** ** Tokens *)

Lemma dash_not_digit l : digits_only l → dash ∉ l.
Proof. intros Hl. by apply digits_no_byte. Qed.
Lemma dash_not_blank l : blanks l → dash ∉ l.
Proof.
  intros Hl Hin. pose proof (proj1 (list.Forall_forall _ _) Hl _ Hin) as H. by vm_compute in H.
Qed.

Lemma find_byte_split c l p : find_byte c l = Some p →
  ∃ a b, l = a ++ c :: b ∧ c ∉ a ∧ p = length a.
Proof.
  revert p. induction l as [|x l IH]; intros p; simpl; [done|]. case_decide as E.
  { intros [= <-]. exists [], l. rewrite E. split_and!; [done|set_solver|done]. }
  destruct (find_byte c l) as [q|]; simpl; [|done]. intros [= <-].
  destruct (IH q eq_refl) as (a & b & -> & Ha & ->). exists (x :: a), b.
  split_and!; [done|set_solver|done].
Qed.

Section tokens.
Context (maxCpuId : Z) (Hmax : maxCpuId < 2147483647).

Definition on_machine (c : Z) : Prop := 0 ≤ c ≤ maxCpuId.

(** A token that passes is read, whatever blanks are around it. *)
Lemma ValidateCpuToken_reads pre token post tokens acc :
  blanks pre → blanks post → token ≠ [] → ValidateCpuToken maxCpuId token = Ret true →
  ∃ l, ParseRange_loop ((pre ++ token ++ post) :: tokens) acc =
         ParseRange_loop tokens (acc ++ l) ∧ Forall on_machine l.
Proof.
  intros Hpre Hpost Hne. unfold ValidateCpuToken. cbn [ParseRange_loop].
  destruct (find_byte dash token) as [p|] eqn:Ep.
  - pose proof (find_byte_split _ _ _ Ep) as (a & b & -> & Ha & ->).
    rewrite take_app_length. rewrite drop_app_add' by (simpl; lia).
    change (drop 1 (dash :: b)) with b.
    destruct (bool_decide (a = [])) eqn:Ea; [done|]. apply bool_decide_eq_false in Ea.
    destruct (bool_decide (b = [])) eqn:Eb; [done|]. apply bool_decide_eq_false in Eb. simpl.
    destruct (all_digits a) eqn:Da; [|done]. apply all_digits_spec in Da.
    destruct (all_digits b) eqn:Db; [|done]. apply all_digits_spec in Db. simpl.
    destruct (stoi a) as [x| |] eqn:Ex; [|by destruct (stoi b)|by destruct (stoi b)].
    destruct (stoi b) as [y| |] eqn:Ey; [|done..]. intros [= Hb].
    apply negb_true_iff, bool_decide_eq_false in Hb.
    replace (pre ++ (a ++ dash :: b) ++ post) with ((pre ++ a) ++ dash :: (b ++ post))
      by (by rewrite <-!app_assoc).
    rewrite find_byte_app by (rewrite elem_of_app; intros [?|?];
      [by apply (dash_not_blank pre)|by apply (dash_not_digit a)]).
    rewrite take_app_length. rewrite drop_app_add' by (simpl; lia).
    change (drop 1 (dash :: b ++ post)) with (b ++ post).
    destruct (stoi_digits pre a [] x Hpre Da Ea (Forall_nil_2 _) Ex) as [E1 ?].
    rewrite app_nil_r in E1. rewrite E1.
    destruct (stoi_digits [] b post y (Forall_nil_2 _) Db Eb Hpost Ey) as [E2 ?].
    simpl in E2. rewrite E2. unfold int_range. rewrite decide_False by lia.
    eexists. split; [done|]. apply list.Forall_forall. intros c Hc%elem_of_seqZ.
    unfold on_machine. lia.
  - destruct (all_digits token) eqn:Dt; [|done]. apply all_digits_spec in Dt. simpl.
    destruct (stoi token) as [x| |] eqn:Ex; [|done..]. intros [= Hb].
    apply negb_true_iff, bool_decide_eq_false in Hb.
    rewrite find_byte_none.
    2:{ rewrite !elem_of_app. intros [?|[?|?]];
          [by apply (dash_not_blank pre)|by apply (dash_not_digit token)|by apply (dash_not_blank post)]. }
    destruct (stoi_digits pre token post x Hpre Dt Hne Hpost Ex) as [-> ?].
    exists [x]. split; [done|]. constructor; [|constructor]. unfold on_machine. lia.
Qed.

Lemma validate_tokens_read tokens acc :
  validate_tokens maxCpuId tokens = Ret true →
  ∃ l, ParseRange_loop tokens acc = Ret (acc ++ l) ∧ Forall on_machine l.
Proof.
  revert acc. induction tokens as [|token tokens IH]; intros acc.
  { exists []. by rewrite app_nil_r. }
  cbn [validate_tokens]. case_decide as Ht; [done|].
  destruct (ValidateCpuToken _ _) as [[|]| |] eqn:Ev; [|done..]. intros Hv.
  destruct (trim_blanks token) as (pre & post & Hpre & Hpost & E).
  destruct (ValidateCpuToken_reads pre (trim token) post tokens acc Hpre Hpost Ht Ev)
    as (l & El & Hl). rewrite <-E in El.
  destruct (IH (acc ++ l) Hv) as (l' & El' & Hl'). exists (l ++ l').
  rewrite El, El', app_assoc. split; [done|]. by apply list.Forall_app.
Qed.

Lemma ValidateCpuRange_reads r :
  ValidateCpuRange maxCpuId r = Ret true →
  ∃ l, ParseRange r = Ret l ∧ Forall on_machine l.
Proof.
  unfold ValidateCpuRange. case_decide; [done|]. destruct (_ || _); [done|]. intros Hv.
  by apply (validate_tokens_read _ []).
Qed.
End tokens.

(** ** The other processors *)

Lemma item_values_run a b :
  a ≤ b → item_values (if decide (a = b) then Single a else Range a b) = seqZ a (b - a + 1).
Proof.
  intros Hab. case_decide as E; [|done]. subst b. simpl.
  by replace (a - a + 1) with 1 by lia.
Qed.

Lemma runs_values a b l :
  a ≤ b → concat (map item_values (runs a b l)) = seqZ a (b - a + 1) ++ l.
Proof.
  revert a b. induction l as [|n l IH]; intros a b Hab; simpl.
  { by rewrite item_values_run. }
  case_decide as E.
  - rewrite IH by lia. subst n. replace (b + 1 - a + 1) with (b - a + 1 + 1) by lia.
    rewrite (seqZ_app a (b - a + 1) 1), <-app_assoc by lia. simpl.
    by replace (a + (b - a + 1)) with (b + 1) by lia.
  - cbn [map concat]. rewrite item_values_run by done. f_equal. rewrite IH by lia.
    by replace (n - n + 1) with 1 by lia.
Qed.

Lemma join_runs_values l : concat (map item_values (join_runs l)) = l.
Proof.
  destruct l as [|n l]; [done|]. simpl. rewrite runs_values by lia.
  by replace (n - n + 1) with 1 by lia.
Qed.

Lemma runs_ok a b l :
  0 ≤ a < 2147483647 → 0 ≤ b < 2147483647 → Forall (λ n, 0 ≤ n < 2147483647) l →
  Forall item_ok (runs a b l).
Proof.
  intros Ha Hb Hl. revert a b Ha Hb. induction Hl as [|n l Hn Hl IH]; intros a b Ha Hb; simpl.
  - constructor; [|constructor]. case_decide; simpl; lia.
  - case_decide; [by apply IH|]. constructor; [case_decide; simpl; lia|by apply IH].
Qed.

(** The text for interrupts denotes the processors that are not isolated. *)
Lemma GetNotRangeCpus_complement r maxCpu l :
  -1 ≤ maxCpu < 2147483647 → ParseRange r = Ret l →
  ∃ text, GetNotRangeCpus r maxCpu = Ret text ∧
    ParseRange text = Ret (filter (λ i, i ∉ l) (seqZ 0 (maxCpu + 1))).
Proof.
  intros Hm El. unfold GetNotRangeCpus. rewrite El. eexists. split; [done|].
  set (others := filter _ _).
  assert (Forall (λ n, 0 ≤ n < 2147483647) others) as Ho.
  { apply list.Forall_forall. intros n [_ Hn%elem_of_seqZ]%list_elem_of_filter. lia. }
  rewrite ParseRange_items; [by rewrite join_runs_values|].
  destruct others as [|n others]; [constructor|]. apply list.Forall_cons in Ho as [Hn Ho].
  by apply runs_ok.
Qed.

(** ** What a configuration that is read guarantees *)

(** Steps that leave the range as it is. *)
Definition keeps_range {A} (m : Parse A) : Prop :=
  ∀ w o w', m w = (o, w') → cpuIsolationRange w' = cpuIsolationRange w.

Lemma keeps_range_ret {A} (a : A) : keeps_range (mret a).
Proof. by intros w o w' [= _ <-]. Qed.
Lemma keeps_range_bind {A B} (m : Parse A) (f : A → Parse B) :
  keeps_range m → (∀ a, keeps_range (f a)) → keeps_range (m ≫= f).
Proof.
  intros Hm Hf w o w'. unfold mbind, Parse_bind. destruct (m w) as [[a|] w1] eqn:E.
  - intros E'. rewrite (Hf a w1 o w' E'). by eapply Hm.
  - intros [= _ <-]. by eapply Hm.
Qed.
Lemma keeps_range_refuse {A} : keeps_range (refuse (A:=A)).
Proof. by intros w o w' [= _ <-]. Qed.
Lemma keeps_range_need {A} (o : option A) : keeps_range (need o).
Proof. by intros w o' w' [= _ <-]. Qed.
Lemma keeps_range_set f :
  (∀ w, cpuIsolationRange (f w) = cpuIsolationRange w) → keeps_range (set_switch f).
Proof. intros Hf w o w' [= _ <-]. apply Hf. Qed.
Lemma keeps_range_require b : keeps_range (require b).
Proof. destruct b as [[|]| |]; [apply keeps_range_ret|apply keeps_range_refuse..]. Qed.

Ltac keeps_range_step :=
  lazymatch goal with
  | |- keeps_range (mret _) => apply keeps_range_ret
  | |- keeps_range refuse => apply keeps_range_refuse
  | |- keeps_range (need _) => apply keeps_range_need
  | |- keeps_range (set_switch _) => apply keeps_range_set; done
  | |- keeps_range (require _) => apply keeps_range_require
  | |- keeps_range (mbind _ _) => apply keeps_range_bind; [|intros ?]
  | |- keeps_range (match ?x with _ => _ end) => destruct x
  end.
Ltac keeps_range_run := repeat keeps_range_step.

Lemma keeps_range_on_off n key : keeps_range (on_off n key).
Proof. unfold on_off, scalar, child. keeps_range_run. Qed.

Lemma keeps_range_features n keys : keeps_range (parse_features n keys).
Proof.
  induction keys as [|key keys IH]; [apply keeps_range_ret|]. cbn [parse_features].
  keeps_range_run; [apply keeps_range_on_off|done].
Qed.

Lemma keeps_range_later (cpuIso config : Node) :
  keeps_range (ParseCpuIsolationFeatures cpuIso) ∧ keeps_range (ParseCpuFreqConfig config) ∧
  keeps_range (ParseMemoryConfig config) ∧ keeps_range (ParseTimerConfig config) ∧
  keeps_range (ParseSchedConfig config).
Proof.
  unfold ParseCpuIsolationFeatures, ParseCpuFreqConfig, ParseMemoryConfig, ParseMemorySwitch,
    ParseTimerConfig, ParseSchedConfig, child.
  split_and!; keeps_range_run; (apply keeps_range_on_off || apply keeps_range_features).
Qed.

(** A step that succeeds. *)
Lemma Parse_bind_inv {A B} (m : Parse A) (f : A → Parse B) w b w' :
  (m ≫= f) w = (Some b, w') → ∃ a w1, m w = (Some a, w1) ∧ f a w1 = (Some b, w').
Proof. unfold mbind, Parse_bind. destruct (m w) as [[a|] w1]; [eauto|done]. Qed.

Lemma ParseFromSwitchConfig_range maxCpuId file w w' :
  ParseFromSwitchConfig maxCpuId file w = (true, w') →
  ValidateCpuRange maxCpuId (cpuIsolationRange w') = Ret true.
Proof.
  unfold ParseFromSwitchConfig. destruct file as [config|]; [|done].
  destruct (parse_config maxCpuId config w) as [r w1] eqn:E. intros [= Hr <-].
  apply bool_decide_eq_true in Hr as ->. unfold parse_config in E.
  apply Parse_bind_inv in E as ([] & w2 & E & E'). rename w2 into wa.
  assert (cpuIsolationRange w1 = cpuIsolationRange wa) as ->.
  { destruct (keeps_range_later config config) as (_ & H1 & H2 & H3 & H4).
    revert E'. apply (keeps_range_bind _ _ H1). intros [].
    apply (keeps_range_bind _ _ H2). intros []. by apply (keeps_range_bind _ _ H3). }
  clear E'. unfold ParseCpuIsolationConfig in E.
  apply Parse_bind_inv in E as (cpuIso & wb & _ & E).
  apply Parse_bind_inv in E as ([] & wc & E & E').
  destruct (keeps_range_later cpuIso config) as (H & _). rewrite (H _ _ _ E'). clear H E'.
  unfold ParseCpuIsolationRange in E. apply Parse_bind_inv in E as (text & wd & _ & E).
  apply Parse_bind_inv in E as ([] & we & E & E'). injection E' as <-. simpl.
  unfold require in E. by destruct (ValidateCpuRange _ _) as [[|]| |].
Qed.

(** ** The parameters *)

Lemma expected_loop_spec w maxCpu l text keys params :
  ParseRange (cpuIsolationRange w) = Ret l →
  GetNotRangeCpus (cpuIsolationRange w) maxCpu = Ret text → NoDup keys →
  ∃ params', expected_loop w maxCpu keys params = Ret params' ∧
    ∀ key, params' !! key =
      if decide (key ∈ keys ∧ featureSwitches w !! key = Some true)
      then Some (if decide (key = "irqaffinity"%string) then text else cpuIsolationRange w)
      else params !! key.
Proof.
  intros El Et. revert params. induction keys as [|k keys IH]; intros params Hnd.
  { exists params. split; [done|]. intros key. rewrite decide_False; [done|].
    intros [H _]. by apply not_elem_of_nil in H. }
  inversion_clear Hnd as [|? ? Hk Hnd2]. rename Hnd2 into Hnd.
  set (v := if decide (k = "irqaffinity"%string) then text else cpuIsolationRange w).
  assert (expected_loop w maxCpu (k :: keys) params = expected_loop w maxCpu keys
    (if decide (featureSwitches w !! k = Some true) then <[k := v]> params else params)) as ->.
  { cbn [expected_loop]. unfold v. destruct (featureSwitches w !! k) as [[|]|]; [|done..].
    rewrite (decide_True (P:=Some true = Some true)) by done.
    case_decide; [by rewrite El, Et|done]. }
  destruct (IH (if decide (featureSwitches w !! k = Some true) then <[k := v]> params
    else params) Hnd) as (params' & -> & H). exists params'. split; [done|].
  intros key. rewrite H. destruct (decide (key = k)) as [->|Hne].
  - rewrite decide_False by naive_solver. destruct (decide (featureSwitches w !! k = Some true)).
    + rewrite lookup_insert_eq, decide_True by set_solver. done.
    + by rewrite decide_False by naive_solver.
  - assert ((if decide (featureSwitches w !! k = Some true) then <[k := v]> params else params)
      !! key = params !! key) as ->.
    { case_decide; [by rewrite lookup_insert_ne|done]. }
    repeat case_decide; set_solver.
Qed.

Lemma GenerateExpected_validated w maxCpu :
  -1 ≤ maxCpu < 2147483647 → ValidateCpuRange maxCpu (cpuIsolationRange w) = Ret true →
  ∃ l text params, ParseRange (cpuIsolationRange w) = Ret l ∧ Forall (on_machine maxCpu) l ∧
    GetNotRangeCpus (cpuIsolationRange w) maxCpu = Ret text ∧
    ParseRange text = Ret (filter (λ i, i ∉ l) (seqZ 0 (maxCpu + 1))) ∧
    GenerateExpectedKernelParams w maxCpu = Ret params ∧
    ∀ key, params !! key =
      if decide (key ∈ KERNEL_PARAM_KEYS ∧ featureSwitches w !! key = Some true)
      then Some (if decide (key = "irqaffinity"%string) then text else cpuIsolationRange w)
      else None.
Proof.
  intros Hm Hv. destruct (ValidateCpuRange_reads maxCpu (proj2 Hm) _ Hv) as (l & El & Hl).
  destruct (GetNotRangeCpus_complement _ maxCpu l Hm El) as (text & Et & Ht).
  destruct (expected_loop_spec w maxCpu l text KERNEL_PARAM_KEYS ∅ El Et) as (params & Ep & H).
  { by_decide. }
  by exists l, text, params.
Qed.

(** C13. The boot parameters name the processors that were asked for: when the
    configuration file is read without an error on a machine whose processors
    are [0 .. maxCpu], its range denotes processors of the machine, making
    the parameters does not throw, a parameter is there for every feature
    that is on and for no other, each is the range itself, and that of the
    interrupts is read as exactly the processors outside of the range. *)
Theorem expected_params_partition (maxCpu : Z) (file : option Node) (w w' : Switch)
    (Hmax : 0 ≤ maxCpu < 2147483647)
    (Hread : ParseFromSwitchConfig maxCpu file w = (true, w')) :
  ∃ l text params, ParseRange (cpuIsolationRange w') = Ret l ∧
    Forall (λ c, 0 ≤ c ≤ maxCpu) l ∧
    ParseRange text = Ret (filter (λ c, c ∉ l) (seqZ 0 (maxCpu + 1))) ∧
    GenerateExpectedKernelParams w' maxCpu = Ret params ∧
    ∀ key, params !! key =
      if decide (key ∈ KERNEL_PARAM_KEYS ∧ featureSwitches w' !! key = Some true)
      then Some (if decide (key = "irqaffinity"%string) then text else cpuIsolationRange w')
      else None.
Proof.
  apply ParseFromSwitchConfig_range in Hread.
  destruct (GenerateExpected_validated w' maxCpu) as (l & text & params & H1 & H2 & _ & H3);
    [lia|done|]. by exists l, text, params.
Qed.

(** A configuration with every switch off but one feature. *)
Definition realtime_yaml : Node :=
  let on := NScalar "on" in
  let off := NScalar "off" in
  NMap [("cpu_isolation", NMap [("range", NScalar "1-2, 5 ,7");
           ("features", NMap [("isolcpus", on); ("nohz_full", on); ("rcu_nocbs", off);
                              ("irqaffinity", on)])]);
        ("cpufreq_performance", on);
        ("memory", NMap [("transparent_hugepage", off); ("numa_balancing", off); ("ksm", off);
                         ("swap", off)]);
        ("timer", NMap [("migration", off)]);
        ("sched", NMap [("rt_runtime_us", off)])]%string.

Lemma expected_params_partition_witness :
  let w' := snd (ParseFromSwitchConfig 7 (Some realtime_yaml) switch0) in
  ∃ params, GenerateExpectedKernelParams w' 7 = Ret params ∧
    params !! "isolcpus"%string = Some (bytes_of "1-2, 5 ,7") ∧
    params !! "rcu_nocbs"%string = None.
Proof.
  intros w'.
  destruct (expected_params_partition 7 (Some realtime_yaml) switch0 w')
    as (l & text & params & _ & _ & _ & E & H).
  - lia.
  - vm_compute. reflexivity.
  - exists params. split; [exact E|]. split; rewrite H; vm_compute; reflexivity.
Defined.
