(* ===== verification/RealtimeSettings.v ===== *)
(** * The kernel's settings under real-time tuning

    What the settings are is described by a function on the machine's state;
    [Disable] puts back every value that [Enable] replaced. *)

From Stdlib Require Import ZArith Lia Strings.Byte.
From stdpp Require Import base list strings gmap numbers.
From S2P Require Import Prelude Bytes StdString Utils DataTypes Registry Daemon Config Machine.
From S2P Require Import SecureC World Realtime RealtimeParse.

(** ** Settings *)

(** Files that hold one value each: [cur m p] is the value of [p], [None] when
    there is no such file.  A write is taken or refused by the value alone,
    and changes only its file; the present value is one that is taken.
    Reading the file of transparent huge pages shows the value in brackets,
    reading another shows it in the first line.  A directory names no file
    twice.  Commands and documents leave the settings alone. *)
Class Settings `(MA : Machine) := {
  cur : sys → string → option (list byte);
  accepts : string → list byte → bool;
  settings_write m p v : cur m p ≠ None →
    let '(opens, _, m') := sys_write m p v in
    opens = true ∧ ∀ q, cur m' q = if decide (q = p ∧ accepts p v = true) then Some v else cur m q;
  settings_absent m p v : cur m p = None →
    let '(opens, _, m') := sys_write m p v in opens = false ∧ ∀ q, cur m' q = cur m q;
  settings_current m p v : cur m p = Some v → accepts p v = true;
  settings_none m p : cur m p = None → sys_read m p = None ∧ sys_exists m p = false;
  settings_read m p v : cur m p = Some v → ∃ content, sys_read m p = Some content ∧
    sys_exists m p = true ∧
    if decide (p = thpEnabledPath)
    then ∃ pre post, default [] (first_line content) = pre ++ lbracket :: v ++ rbracket :: post ∧
         lbracket ∉ pre ∧ rbracket ∉ v
    else default [] (first_line content) = v ∧ (v ≠ [] → first_line content = Some v);
  settings_dir m p l : sys_dir m p = Some l → NoDup l;
  settings_exec m c p : cur (snd (sys_exec m c)) p = cur m p;
  settings_system m c p : cur (snd (sys_system m c)) p = cur m p;
  settings_emit m f n p : cur (sys_emit m f n) p = cur m p
}.

Section settings.
Context `{MA : Machine} `{ST : !Settings MA} `{YC : YamlConversions} `{HO : HashOrder}.

Definition now (s : RealTime) (p : string) : option (list byte) := cur (rt_sys s) p.

(** The parts of the state besides the machine. *)
Definition same_rest (s s' : RealTime) : Prop :=
  switchConfig s' = switchConfig s ∧ isRebooting s' = isRebooting s ∧ maxCpuId s' = maxCpuId s.

#[export] Instance same_rest_equiv : Equivalence same_rest.
Proof. unfold same_rest. split; repeat intro; naive_solver congruence. Qed.

(** Nothing but the value of [p] changes, and a file stays what it is. *)
Definition only_changes (P : string → Prop) (s s' : RealTime) : Prop :=
  ∀ q, (¬ P q → now s' q = now s q) ∧ (now s' q = None ↔ now s q = None).

Lemma SetStringValue_twp path value (Q : bool → RealTime → Prop) s :
  (∀ b m', (∀ q, cur m' q =
      if decide (q = path ∧ now s path ≠ None ∧ accepts path value = true)
      then Some value else now s q) → Q b (set_sys m' s)) →
  twp (SetStringValue path value) Q s.
Proof.
  intros HQ. unfold SetStringValue, on_sys, on_file, twp, mbind, St_bind.
  pose proof (settings_write (rt_sys s) path value) as Hw.
  pose proof (settings_absent (rt_sys s) path value) as Ha.
  destruct (sys_write (rt_sys s) path value) as [[opens takes] m']. apply HQ.
  intros q. unfold now in *. destruct (cur (rt_sys s) path) eqn:E.
  - destruct (Hw ltac:(done)) as [_ H]. rewrite H. by repeat case_decide; naive_solver.
  - destruct (Ha eq_refl) as [_ H]. rewrite H. by rewrite decide_False by naive_solver.
Qed.

(** The number that is read from a setting. *)
Definition number (o : option (list byte)) : option Z :=
  v ← o; z ← strtol v; if decide (in_range CInt z) then Some z else None.

Lemma GetInitialValue_twp path (Q : option Z → RealTime → Prop) s :
  path ≠ thpEnabledPath → Q (number (now s path)) s → twp (GetInitialValue path) Q s.
Proof.
  intros Hp HQ. unfold GetInitialValue, twp, mbind at 1, St_bind, get. cbn -[mbind].
  unfold now in HQ. destruct (cur (rt_sys s) path) as [v|] eqn:E.
  - destruct (settings_read _ _ _ E) as (content & Er & _ & Hc). rewrite decide_False in Hc by done.
    destruct Hc as [Hd Hf]. rewrite Er. simpl. destruct v as [|b v].
    + destruct (first_line content) as [l|]; simpl in *; [|done]. by subst l.
    + rewrite Hf by done. exact HQ.
  - destruct (settings_none _ _ E) as [-> _]. exact HQ.
Qed.

(** ** What is put back *)

(** The writes of [DisableProcAndSys], in order. *)
Definition kept (on : bool) (path : string) (z : Z) : list (string * list byte) :=
  if on && negb (bool_decide (z = -1)) then [(path, to_string z)] else [].

Definition kept_thp (on : bool) (v : list byte) : list (string * list byte) :=
  if on && negb (bool_decide (v = [])) then [(thpEnabledPath, v)] else [].
Definition kept_govs (on : bool) (m : gmap string (list byte)) : list (string * list byte) :=
  if on then filter (λ kv, kv.2 ≠ performance) (govs_in_order m) else [].

Definition restores (w : Switch) (b : SysTuneBackup) : list (string * list byte) :=
  kept (ksm w) ksmRunPath (bk_ksmRun b) ++
  kept (numaBalancing w) numaBalancingPath (bk_numaBalancing b) ++
  kept (timerMigration w) timerMigrationPath (bk_timerMigration b) ++
  kept (bool_decide (rtRuntimeUs w = -1)) schedRuntimePath (bk_schedRtRuntime b) ++
  kept_thp (transparentHugepage w) (bk_thpEnabled b) ++
  kept_govs (cpufreqPerformance w) (bk_cpuGovs b).

(** The values from before, [m0], and the machine with the writes to come. *)
Definition restorable (m0 : sys) (l : list (string * list byte)) (s : RealTime) : Prop :=
  (∀ q, now s q = None ↔ cur m0 q = None) ∧
  (∀ q v, (q, v) ∈ l → cur m0 q = None ∨ cur m0 q = Some v) ∧
  (∀ q, now s q = cur m0 q ∨ q ∈ l.*1).

Lemma restorable_write m0 path value l s :
  restorable m0 ((path, value) :: l) s →
  twp (SetStringValue path value) (λ _ s', restorable m0 l s' ∧ same_rest s s' ∧
    backup s' = backup s) s.
Proof.
  intros (Hex & Hr & Hc). apply SetStringValue_twp. intros b m' Hm'.
  split; [|done]. unfold restorable, now in *. simpl.
  destruct (Hr path value) as [Hn|Hs]; [by left| |].
  - assert (cur (rt_sys s) path = None) as Hp by (by apply Hex).
    assert (∀ q, cur m' q = cur (rt_sys s) q) as Hsame.
    { intros q. rewrite Hm'. by rewrite decide_False by naive_solver. }
    split_and!; intros q; rewrite ?Hsame; [done|by intros v Hv; apply Hr; right|].
    destruct (Hc q) as [?|[Hq|?]%elem_of_cons]; [by left| |by right].
    simpl in Hq. subst q. left. congruence.
  - assert (cur (rt_sys s) path ≠ None) as Hp by (intros E; apply Hex in E; congruence).
    pose proof (settings_current _ _ _ Hs) as Ha.
    split_and!; intros q; rewrite ?Hm'.
    + destruct (decide (q = path)) as [->|Hne].
      * rewrite decide_True by done. by rewrite Hs.
      * rewrite decide_False by naive_solver. apply Hex.
    + intros v Hv. apply Hr. by right.
    + destruct (decide (q = path)) as [->|Hne]; [left; by rewrite decide_True|].
      rewrite decide_False by naive_solver.
      destruct (Hc q) as [?|[Hq|?]%elem_of_cons]; [by left|by simpl in Hq|by right].
Qed.

(** A step that makes the first writes of a list. *)
Definition writes (l : list (string * list byte)) (c : St RealTime unit) : Prop :=
  ∀ m0 more s, restorable m0 (l ++ more) s →
    twp c (λ _ s', restorable m0 more s' ∧ same_rest s s' ∧ backup s' = backup s) s.

Lemma writes_none : writes [] (mret tt).
Proof. by intros m0 more s H. Qed.
Lemma writes_one path value : writes [(path, value)] (SetStringValue path value ;; mret tt).
Proof.
  intros m0 more s H. apply twp_bind. eapply twp_mono; [by apply restorable_write|].
  intros b s' (? & ? & ?). by apply twp_ret.
Qed.
Lemma writes_app l1 l2 (c1 c2 : St RealTime unit) :
  writes l1 c1 → writes l2 c2 → writes (l1 ++ l2) (c1 ;; c2).
Proof.
  intros H1 H2 m0 more s H. rewrite <-app_assoc in H. apply twp_bind.
  eapply twp_mono; [by eapply H1|]. intros [] s1 (Hr & Hs1 & Hb1).
  eapply twp_mono; [by eapply H2|]. intros [] s2 (? & Hs2 & Hb2).
  split; [done|]. split; [by etransitivity|congruence].
Qed.
Lemma writes_kept on path z : writes (kept on path z) (restore_value on path z).
Proof.
  unfold kept, restore_value. destruct (on && _); [apply writes_one|apply writes_none].
Qed.
Lemma writes_governor kv :
  writes (if decide (kv.2 ≠ performance) then [kv] else []) (restore_governor kv).
Proof.
  destruct kv as [p v]. unfold restore_governor. case_decide; [apply writes_one|].
  apply writes_none.
Qed.
Lemma writes_governors l :
  writes (filter (λ kv, kv.2 ≠ performance) l) (for_each l restore_governor).
Proof.
  induction l as [|kv l IH]; [apply writes_none|]. cbn [for_each].
  assert (filter (λ kv, kv.2 ≠ performance) (kv :: l) =
    (if decide (kv.2 ≠ performance) then [kv] else []) ++ filter (λ kv, kv.2 ≠ performance) l)
    as -> by (rewrite filter_cons; by case_decide).
  apply writes_app; [apply writes_governor|done].
Qed.

(** A command leaves the settings as they are. *)
Lemma exec_twp {A} cmd (f : option (list byte) → St RealTime A) (Q : A → RealTime → Prop) s :
  (∀ r m', (∀ q, cur m' q = now s q) → twp (f r) Q (set_sys m' s)) →
  twp (on_sys (ExecCommand cmd) ≫= f) Q s.
Proof.
  intros HQ. apply twp_bind. unfold twp at 1, on_sys, ExecCommand.
  pose proof (settings_exec (rt_sys s) cmd) as H. destruct (sys_exec _ _) as [r m'].
  apply HQ. exact H.
Qed.
Lemma system_twp {A} cmd (f : Z → St RealTime A) (Q : A → RealTime → Prop) s :
  (∀ r m', (∀ q, cur m' q = now s q) → twp (f r) Q (set_sys m' s)) →
  twp (on_sys (system cmd) ≫= f) Q s.
Proof.
  intros HQ. apply twp_bind. unfold twp at 1, on_sys, system.
  pose proof (settings_system (rt_sys s) cmd) as H. destruct (sys_system _ _) as [r m'].
  apply HQ. exact H.
Qed.

Lemma restorable_same m0 l s m' :
  (∀ q, cur m' q = now s q) → restorable m0 l s → restorable m0 l (set_sys m' s).
Proof.
  unfold restorable, now. simpl. intros Hm (H1 & H2 & H3).
  split_and!; intros q; rewrite ?Hm; auto.
Qed.

(** [DisableProcAndSys] brings the values of [m0] back. *)
Lemma DisableProcAndSys_twp m0 s :
  restorable m0 (restores (switchConfig s) (backup s)) s →
  twp DisableProcAndSys (λ _ s', (∀ q, now s' q = cur m0 q) ∧ same_rest s s' ∧
    backup s' = backup s) s.
Proof.
  intros H. unfold DisableProcAndSys. apply twp_bind, twp_get. cbn zeta.
  set (w := switchConfig s) in *. set (b := backup s) in *. apply twp_bind.
  assert (∀ m', (∀ q, cur m' q = now s q) →
    twp (restore_value (ksm w) ksmRunPath (bk_ksmRun b) ;;
      restore_value (numaBalancing w) numaBalancingPath (bk_numaBalancing b) ;;
      restore_value (timerMigration w) timerMigrationPath (bk_timerMigration b) ;;
      restore_value (bool_decide (rtRuntimeUs w = -1)) schedRuntimePath (bk_schedRtRuntime b) ;;
      (if transparentHugepage w && negb (bool_decide (bk_thpEnabled b = []))
       then SetStringValue thpEnabledPath (bk_thpEnabled b) ;; mret tt else mret tt) ;;
      (if cpufreqPerformance w then for_each (govs_in_order (bk_cpuGovs b)) restore_governor
       else mret tt)) (λ _ s', (∀ q, now s' q = cur m0 q) ∧ same_rest s s' ∧
      backup s' = b) (set_sys m' s))
    as Hrest.
  { intros m' Hm'. eapply twp_mono.
    - eapply (writes_app _ _ _ _ (writes_kept _ _ _)); [|by rewrite app_nil_r; apply restorable_same].
      do 3 (eapply (writes_app _ _ _ _ (writes_kept _ _ _))).
      apply writes_app.
      + unfold kept_thp. destruct (transparentHugepage w && _); [apply writes_one|apply writes_none].
      + unfold kept_govs. destruct (cpufreqPerformance w); [apply writes_governors|apply writes_none].
    - intros _ s' ((_ & _ & Hc) & (E1 & E2 & E3) & E4). split; [|done].
      intros q. by destruct (Hc q) as [?|?%elem_of_nil]. }
  destruct (swap w); [|apply twp_ret; pose proof (Hrest (rt_sys s) (λ _, eq_refl)); by destruct s].
  apply exec_twp. intros r m' Hm'. by apply twp_ret, Hrest.
Qed.
End settings.
