(* ===== verification/RealtimeRestore.v ===== *)
(** * Real-time tuning, from [Enable] to [Disable]

    The settings after [Disable] are those before [Enable], and an [Enable]
    that fails leaves them alone. *)

From Stdlib Require Import ZArith Lia Strings.Byte.
From stdpp Require Import base list strings gmap numbers.
From S2P Require Import Prelude Bytes StdString Utils DataTypes Registry Daemon Config Machine.
From S2P Require Import SecureC World Steps Realtime RealtimeParse RealtimeSettings.

(** ** Switching the settings

    Every switch keeps the value it replaces, so what [OpenProcAndSys] has
    kept is enough to bring the settings back. *)

(** The paths of one value each differ from each other and from the governors'. *)
Lemma gov_path_inj n n' : gov_path n = gov_path n' → n = n'.
Proof.
  unfold gov_path. intros E%(f_equal bytes_of). rewrite !bytes_of_append in E.
  by apply app_inv_head, app_inv_tail, (inj bytes_of) in E.
Qed.

Definition value_paths : list string :=
  [thpEnabledPath; numaBalancingPath; ksmRunPath; timerMigrationPath; schedRuntimePath].

Lemma gov_path_not_value n : gov_path n ∉ value_paths.
Proof. unfold value_paths. rewrite !not_elem_of_cons. 
  split_and!; try (intros E; apply (f_equal bytes_of) in E; discriminate E).
  by apply not_elem_of_nil.
Qed.

Lemma value_paths_NoDup : NoDup value_paths.
Proof. by_decide. Qed.

(** The value in brackets. *)
Lemma thp_mode_brackets pre v post :
  lbracket ∉ pre → rbracket ∉ v → thp_mode (pre ++ lbracket :: v ++ rbracket :: post) = v.
Proof.
  assert (∀ c (a b : list byte), c ∉ a → find_byte c (a ++ c :: b) = Some (length a)) as Hf.
  { intros c a b. induction a as [|x a IH]; intros Ha; simpl; [by rewrite decide_True|].
    rewrite decide_False by set_solver. by rewrite IH by set_solver. }
  intros Hp Hv. unfold thp_mode. rewrite Hf by done.
  assert (drop (S (length pre)) (pre ++ lbracket :: v ++ rbracket :: post) = v ++ rbracket :: post)
    as ->.
  { rewrite <-(Nat.add_1_r (length pre)), <-drop_drop, drop_app_length. done. }
  rewrite Hf by done. by rewrite take_app_length.
Qed.

Section open.
Context `{MA : Machine} `{ST : !Settings MA} `{YC : YamlConversions} `{HO : HashOrder}.

Lemma restorable_perm m0 l l' s :
  (∀ x, x ∈ l ↔ x ∈ l') → restorable m0 l s → restorable m0 l' s.
Proof.
  intros Hl (H1 & H2 & H3). split; [done|]. split.
  - intros q v Hq. by apply H2, Hl.
  - intros q. destruct (H3 q) as [?|Hq]; [by left|right].
    apply list_elem_of_fmap in Hq as (x & -> & Hx). apply list_elem_of_fmap. exists x.
    split; [done|]. by apply Hl.
Qed.

(** Writing to a file whose value is kept. *)
Lemma restorable_set m0 l path value v k b s :
  cur m0 path = Some v → now s path = Some v → (k = [(path, v)] ∨ k = [] ∧ v = value) →
  restorable m0 l s →
  twp (SetStringValue path value) (λ _ s', restorable m0 (l ++ k) s' ∧ same_rest s s' ∧
    backup s' = b) (set_backup b s).
Proof.
  intros E0 E Hk (H1 & H2 & H3). apply SetStringValue_twp. intros r m' Hm'.
  split; [|done]. unfold restorable, now in *. simpl in *. split_and!.
  - intros q. rewrite Hm'. destruct (decide _) as [Hq|Hq]; [|apply H1]. destruct Hq as (-> & _).
    by rewrite E0.
  - intros q w [Hq|Hq]%elem_of_app; [by apply H2|]. right.
    destruct Hk as [->|[-> _]]; [|by apply elem_of_nil in Hq].
    apply list_elem_of_singleton in Hq. by simplify_eq.
  - intros q. rewrite Hm', fmap_app, elem_of_app. destruct (decide _) as [Hq|Hq].
    + destruct Hq as (-> & _). destruct Hk as [->|[-> ->]]; [right; right|by left].
      by apply list_elem_of_here.
    + destruct (H3 q) as [?|?]; tauto.
Qed.

(** Nothing is there to write to. *)
Lemma restorable_missing m0 l path value k b s :
  cur m0 path = None → Forall (λ kv, kv.1 = path) k → restorable m0 l s →
  twp (SetStringValue path value) (λ _ s', restorable m0 (l ++ k) s' ∧ same_rest s s' ∧
    backup s' = b) (set_backup b s).
Proof.
  intros E0 Hk (H1 & H2 & H3). apply SetStringValue_twp. intros r m' Hm'.
  split; [|done]. unfold restorable, now in *. simpl in *.
  assert (∀ q, cur m' q = cur (rt_sys s) q) as Hsame.
  { intros q. rewrite Hm'. rewrite decide_False; [done|]. intros (_ & Hn & _). by apply Hn, H1. }
  split_and!.
  - intros q. by rewrite Hsame.
  - intros q w [Hq|Hq]%elem_of_app; [by apply H2|]. left.
    rewrite list.Forall_forall in Hk. pose proof (Hk _ Hq) as Ep. simpl in Ep. by subst q.
  - intros q. rewrite Hsame, fmap_app, elem_of_app. destruct (H3 q); tauto.
Qed.

Lemma restorable_now m0 l s path : restorable m0 l s → path ∉ l.*1 → now s path = cur m0 path.
Proof. intros (_ & _ & H) Hp. by destruct (H path). Qed.

(** A file of one number, in the form that [std::to_string] prints; -1, which
    stands for nothing kept, is no loss if it is what is written. *)
Definition canonical (m0 : sys) (path : string) (value : list byte) : Prop :=
  ∀ v, cur m0 path = Some v → ∃ z, in_range CInt z ∧ v = to_string z ∧ (z = -1 → v = value).

Lemma number_to_string z : in_range CInt z → number (Some (to_string z)) = Some z.
Proof.
  intros Hz. unfold number. simpl. rewrite <-(app_nil_r (to_string z)).
  rewrite strtol_to_string by done. simpl. by rewrite decide_True.
Qed.

Lemma kept_path on path z : Forall (λ kv, kv.1 = path) (kept on path z).
Proof. unfold kept. destruct (_ && _); by repeat constructor. Qed.

(** A switch of one value: [g] is the field that [f] sets. *)
Lemma switch_value_twp m0 l on path f (g : SysTuneBackup → Z) value s :
  path ≠ thpEnabledPath → path ∉ l.*1 → canonical m0 path (bytes_of value) →
  (∀ b, f None b = b) → (∀ o b, g (f o b) = default (g b) o) → restorable m0 l s →
  twp (switch_value on path f value) (λ _ s',
    backup s' = f (if on then number (cur m0 path) else None) (backup s) ∧
    restorable m0 (l ++ kept on path (g (backup s'))) s' ∧ same_rest s s') s.
Proof.
  intros Hp Hl Hcan Hnone Hg Hr. unfold switch_value. destruct on.
  2: { apply twp_ret. rewrite Hnone. unfold kept. simpl. by rewrite app_nil_r. }
  unfold keep_value. apply twp_bind, twp_bind, GetInitialValue_twp; [done|]. apply twp_modify.
  pose proof (restorable_now _ _ _ _ Hr Hl) as Hnow. rewrite Hnow.
  set (b := f (number (cur m0 path)) (backup s)).
  eapply twp_mono with (Q := λ _ s', restorable m0 (l ++ kept true path (g b)) s' ∧
    same_rest s s' ∧ backup s' = b).
  2: { intros _ s' (? & ? & ->). done. }
  destruct (cur m0 path) as [v|] eqn:E.
  - destruct (Hcan v E) as (z & Hz & -> & Hm1). eapply restorable_set; [done|done| |done].
    unfold b. rewrite Hg, number_to_string by done. simpl. unfold kept. simpl.
    case_bool_decide as Ez; simpl; [right|by left]. split; [done|]. by apply Hm1.
  - apply restorable_missing; [done|apply kept_path|done].
Qed.

(** The switch of transparent huge pages. *)
Lemma GetCurrentThpMode_twp (Q : list byte → RealTime → Prop) s :
  Q (default [] (now s thpEnabledPath)) s → twp GetCurrentThpMode Q s.
Proof.
  intros HQ. unfold GetCurrentThpMode. apply twp_bind, twp_get, twp_ret. unfold now in HQ.
  destruct (cur (rt_sys s) thpEnabledPath) as [v|] eqn:E.
  - destruct (settings_read _ _ _ E) as (content & -> & _ & Hc).
    rewrite decide_True in Hc by done. destruct Hc as (pre & post & -> & Hp & Hv).
    by rewrite thp_mode_brackets.
  - destruct (settings_none _ _ E) as [-> _]. exact HQ.
Qed.

Lemma switch_thp_twp m0 l on s :
  thpEnabledPath ∉ l.*1 → cur m0 thpEnabledPath ≠ Some [] → restorable m0 l s →
  twp (switch_thp on) (λ _ s',
    backup s' = set_thpEnabled (if on then default [] (cur m0 thpEnabledPath)
                                else bk_thpEnabled (backup s)) (backup s) ∧
    restorable m0 (l ++ kept_thp on (bk_thpEnabled (backup s'))) s' ∧ same_rest s s') s.
Proof.
  intros Hl Hne Hr. unfold switch_thp. destruct on.
  2: { apply twp_ret. unfold kept_thp. simpl. rewrite app_nil_r. by destruct (backup s). }
  apply twp_bind, GetCurrentThpMode_twp, twp_bind, twp_modify.
  rewrite (restorable_now _ _ _ _ Hr Hl).
  set (b := set_thpEnabled (default [] (cur m0 thpEnabledPath)) (backup s)).
  eapply twp_mono with (Q := λ _ s', restorable m0 (l ++ kept_thp true (bk_thpEnabled b)) s' ∧
    same_rest s s' ∧ backup s' = b).
  2: { intros _ s' (? & ? & ->). done. }
  unfold kept_thp, b. simpl. destruct (cur m0 thpEnabledPath) as [v|] eqn:E; simpl.
  - rewrite bool_decide_false by congruence. simpl.
    eapply restorable_set; [done| |by left|done]. by rewrite (restorable_now _ _ _ _ Hr Hl).
  - apply restorable_missing; [done|by constructor|done].
Qed.

(** The governors: [b] is what is kept of the other values. *)
Definition set_govs (govs : gmap string (list byte)) (b : SysTuneBackup) : SysTuneBackup :=
  mkBackup (bk_ksmRun b) (bk_thpEnabled b) (bk_numaBalancing b) (bk_timerMigration b)
    (bk_schedRtRuntime b) govs.

Definition govs_current (m0 : sys) (govs : gmap string (list byte)) : Prop :=
  ∀ p g, govs !! p = Some g →
    (∃ n, p = gov_path n) ∧ (cur m0 p = None ∨ cur m0 p = Some g).

Definition governing (m0 : sys) (b : SysTuneBackup) (names : list string) (s : RealTime) : Prop :=
  let govs := bk_cpuGovs (backup s) in
  (∀ q, now s q = None ↔ cur m0 q = None) ∧
  govs_current m0 govs ∧
  (∀ q, now s q = cur m0 q ∨ ∃ g, govs !! q = Some g ∧ g ≠ performance) ∧
  (∀ n, n ∈ names → now s (gov_path n) = cur m0 (gov_path n)) ∧
  backup s = set_govs govs b.

Lemma governing_keep m0 b name names v s :
  name ∉ names → cur m0 (gov_path name) = Some v → governing m0 b (name :: names) s →
  governing m0 b names (set_backup (keep_gov (gov_path name) v (backup s)) s).
Proof.
  intros Hn E (H1 & H2 & H3 & H4 & H5). unfold governing, now in *. simpl.
  split_and!; [done| | | |by rewrite H5].
  - intros p g. destruct (decide (p = gov_path name)) as [->|Hp].
    + rewrite lookup_insert_eq. intros [= <-]. split; [by eexists|by right].
    + rewrite lookup_insert_ne by done. apply H2.
  - intros q. destruct (decide (q = gov_path name)) as [->|Hq].
    + left. apply H4, list_elem_of_here.
    + rewrite lookup_insert_ne by done. apply H3.
  - intros n Hin. apply H4. by right.
Qed.

Lemma set_governor_twp m0 b name names s :
  name ∉ names → governing m0 b (name :: names) s →
  twp (set_governor name) (λ _ s', governing m0 b names s' ∧ same_rest s s') s.
Proof.
  intros Hn Hg. assert (governing m0 b names s) as Hskip.
  { destruct Hg as (H1 & H2 & H3 & H4 & H5). split_and!; try done.
    intros n Hin. apply H4. by right. }
  unfold set_governor. destruct (is_cpu_entry name); simpl; [|by apply twp_ret].
  apply twp_bind, twp_get.
  assert (now s (gov_path name) = cur m0 (gov_path name)) as Hnow
    by (apply Hg, list_elem_of_here).
  destruct (cur m0 (gov_path name)) as [v|] eqn:E.
  2: { destruct (settings_none _ _ Hnow) as [_ ->]. simpl. by apply twp_ret. }
  destruct (settings_read _ _ _ Hnow) as (content & -> & -> & Hc). simpl.
  pose proof (gov_path_not_value name) as Hv. unfold value_paths in Hv.
  rewrite decide_False in Hc by set_solver. destruct Hc as [-> _].
  apply twp_bind, twp_modify.
  pose proof (governing_keep _ _ _ _ _ _ Hn E Hg) as Hk.
  destruct (decide _) as [Hperf|Hperf]; [|by apply twp_ret].
  apply SetStringValue_twp. intros r m' Hm'. split; [|done].
  destruct Hk as (H1 & H2 & H3 & H4 & H5). unfold governing, now in *. simpl in *.
  split_and!; [| done | | | done].
  - intros q. rewrite Hm'. destruct (decide _) as [(-> & _)|_]; [|apply H1]. by rewrite E.
  - intros q. rewrite Hm'. destruct (decide _) as [(-> & _)|_]; [|apply H3].
    right. exists v. by rewrite lookup_insert_eq.
  - intros n Hin. rewrite Hm'. destruct (decide _) as [(Eq & _)|_]; [|by apply H4].
    apply gov_path_inj in Eq. by subst n.
Qed.

Lemma set_governors_twp m0 b names ok s :
  NoDup names → governing m0 b names s →
  twp (set_governors names ok) (λ _ s', governing m0 b [] s' ∧ same_rest s s') s.
Proof.
  revert ok s. induction names as [|name names IH]; intros ok s Hnd Hg.
  { by apply twp_ret. }
  cbn [set_governors]. inversion_clear Hnd. apply twp_bind.
  eapply twp_mono; [by apply set_governor_twp|]. intros r s1 [Hg1 Hs1].
  eapply twp_mono; [by apply IH|]. intros r2 s2 [Hg2 Hs2]. split; [done|by etransitivity].
Qed.

Lemma elem_of_govs_in_order (m : gmap string (list byte)) p g :
  (p, g) ∈ govs_in_order m ↔ m !! p = Some g.
Proof.
  unfold govs_in_order. rewrite list_elem_of_omap. split.
  - intros (q & _ & E). destruct (m !! q) as [g'|] eqn:Eq; [|done]. simpl in E. by simplify_eq.
  - intros E. exists p. rewrite E. split; [|done].
    apply elem_of_hash_order, elem_of_dom. by eexists.
Qed.

Lemma elem_of_kept_govs m p g :
  (p, g) ∈ kept_govs true m ↔ m !! p = Some g ∧ g ≠ performance.
Proof. simpl. rewrite list_elem_of_filter, elem_of_govs_in_order. simpl. tauto. Qed.

Lemma kept_govs_path m0 on m q :
  govs_current m0 m → q ∈ (kept_govs on m).*1 → ∃ n, q = gov_path n.
Proof.
  intros Hm Hq. destruct on; [|by apply elem_of_nil in Hq].
  apply list_elem_of_fmap in Hq as ([p g] & -> & Hp). apply elem_of_kept_govs in Hp as [Hp _].
  by apply (Hm p g).
Qed.

Lemma switch_cpufreq_twp (on : bool) s :
  govs_current (rt_sys s) (bk_cpuGovs (backup s)) →
  twp (if on then SetCpuFreqPerformance else mret true) (λ _ s',
    govs_current (rt_sys s) (bk_cpuGovs (backup s')) ∧
    backup s' = set_govs (bk_cpuGovs (backup s')) (backup s) ∧
    restorable (rt_sys s) (kept_govs on (bk_cpuGovs (backup s'))) s' ∧ same_rest s s') s.
Proof.
  intros Hgov. assert (governing (rt_sys s) (backup s) [] s) as Hstart.
  { unfold governing. split_and!; [done|done|by left|done|by destruct (backup s)]. }
  assert (∀ s', (now s' = now s ∨ on = true) → governing (rt_sys s) (backup s) [] s' →
    same_rest s s' →
    govs_current (rt_sys s) (bk_cpuGovs (backup s')) ∧
    backup s' = set_govs (bk_cpuGovs (backup s')) (backup s) ∧
    restorable (rt_sys s) (kept_govs on (bk_cpuGovs (backup s'))) s' ∧ same_rest s s') as Hend.
  { intros s' Hon (H1 & H2 & H3 & _ & H5) Hs'. split_and!; try done. split; [done|].
    destruct on; split.
    - intros q v Hq. apply elem_of_kept_govs in Hq as [Hq _]. by apply (H2 q v).
    - intros q. destruct (H3 q) as [?|(g & Hg)]; [by left|right]. apply list_elem_of_fmap.
      exists (q, g). split; [done|]. by apply elem_of_kept_govs.
    - intros q v Hq. by apply elem_of_nil in Hq.
    - intros q. left. destruct Hon as [->|]; done. }
  destruct on; [|by apply twp_ret, Hend; [left|..]].
  unfold SetCpuFreqPerformance. apply twp_bind, twp_get.
  destruct (sys_dir (rt_sys s) cpuFreqPath) as [names|] eqn:E.
  2: { apply twp_ret, Hend; [by right|done|done]. }
  eapply twp_mono; [apply set_governors_twp|].
  - by apply settings_dir in E.
  - unfold governing in *. split_and!; try apply Hstart; done.
  - intros _ s' [Hg Hs]. apply Hend; [by right|done|done].
Qed.

(** What the files must hold before for the values to come back: numbers as
    they are printed, and a mode. *)
Definition tunable (m : sys) : Prop :=
  canonical m numaBalancingPath (bytes_of "0") ∧ canonical m ksmRunPath (bytes_of "0") ∧
  canonical m timerMigrationPath (bytes_of "0") ∧
  canonical m schedRuntimePath (bytes_of "-1") ∧ cur m thpEnabledPath ≠ Some [].

Lemma kept_elem on path z q : q ∈ (kept on path z).*1 → q = path.
Proof. unfold kept. destruct (_ && _); simpl; set_solver. Qed.
Lemma kept_thp_elem on v q : q ∈ (kept_thp on v).*1 → q = thpEnabledPath.
Proof. unfold kept_thp. destruct (_ && _); simpl; set_solver. Qed.
Lemma kept_govs_elem m0 on m q :
  govs_current m0 m → q ∈ value_paths → q ∉ (kept_govs on m).*1.
Proof.
  intros Hm Hq Hin. eapply kept_govs_path in Hin as [n ->]; [|done].
  by eapply gov_path_not_value.
Qed.

Ltac not_written :=
  lazymatch goal with
  | |- _ ∉ (_ ++ _).*1 => rewrite fmap_app, not_elem_of_app; split; not_written
  | |- _ ∉ (kept_govs _ _).*1 => eapply kept_govs_elem; [eassumption|by_decide]
  | |- _ ∉ (kept_thp _ _).*1 => by intros ?%kept_thp_elem
  | |- _ ∉ (kept _ _ _).*1 => by intros ?%kept_elem
  end.
Ltac value_switch g :=
  eapply (switch_value_twp _ _ _ _ _ g);
  [ discriminate | | eassumption | intros []; reflexivity | reflexivity | eassumption ];
  not_written.

Lemma swap_twp on m0 l s :
  restorable m0 l s →
  twp (switch_swap on) (λ _ s', restorable m0 l s' ∧ same_rest s s' ∧ backup s' = backup s) s.
Proof.
  intros Hr. unfold switch_swap. destruct on; [|by apply twp_ret].
  apply exec_twp. intros r m' Hm'. apply twp_ret. split; [|done]. by apply restorable_same.
Qed.

Lemma OpenProcAndSys_twp s :
  govs_current (rt_sys s) (bk_cpuGovs (backup s)) → tunable (rt_sys s) →
  twp OpenProcAndSys (λ _ s',
    restorable (rt_sys s) (restores (switchConfig s') (backup s')) s' ∧ same_rest s s' ∧
    govs_current (rt_sys s) (bk_cpuGovs (backup s'))) s.
Proof.
  intros Hgov (Hn & Hk & Ht & Hs & Hthp). unfold OpenProcAndSys. apply twp_bind, twp_get.
  set (w := switchConfig s).
  apply twp_bind. eapply twp_mono; [by apply switch_cpufreq_twp|].
  intros ? s1 (Hg1 & Hb1 & Hr1 & Hs1).
  apply twp_bind. eapply twp_mono; [eapply switch_thp_twp; [|done|exact Hr1]; not_written|].
  intros ? s2 (Hb2 & Hr2 & Hs2).
  apply twp_bind. eapply twp_mono;
    [by value_switch bk_numaBalancing|].
  intros ? s3 (Hb3 & Hr3 & Hs3).
  apply twp_bind. eapply twp_mono;
    [by value_switch bk_ksmRun|].
  intros ? s4 (Hb4 & Hr4 & Hs4).
  apply twp_bind. eapply twp_mono; [by apply swap_twp|]. intros ? s5 (Hr5 & Hs5 & Hb5).
  apply twp_bind. eapply twp_mono;
    [by value_switch bk_timerMigration|].
  intros ? s6 (Hb6 & Hr6 & Hs6).
  apply twp_bind. eapply twp_mono;
    [by value_switch bk_schedRtRuntime|].
  intros ? s7 (Hb7 & Hr7 & Hs7). apply twp_ret.
  assert (same_rest s s7) as Hs7'.
  { do 6 (etransitivity; [eassumption|]). done. }
  assert (bk_cpuGovs (backup s7) = bk_cpuGovs (backup s1)) as Egov.
  { by rewrite Hb7, Hb6, Hb5, Hb4, Hb3, Hb2. }
  split; [|by rewrite Egov]. destruct Hs7' as (Ew & _). rewrite Ew. fold w.
  eapply restorable_perm; [|exact Hr7]. intros x. unfold restores.
  rewrite Hb7, Hb6, Hb5, Hb4, Hb3, Hb2. simpl. rewrite !elem_of_app. tauto.
Qed.
End open.

(** ** From [Enable] to [Disable] *)

Section enable.
Context `{MA : Machine} `{ST : !Settings MA} `{YC : YamlConversions} `{HO : HashOrder}.

(** ** Code that leaves the settings alone *)

Definition calm (s s' : RealTime) : Prop :=
  (∀ q, now s' q = now s q) ∧ backup s' = backup s ∧ switchConfig s' = switchConfig s ∧
  maxCpuId s' = maxCpuId s.

#[export] Instance calm_preorder : PreOrder calm.
Proof.
  split; [by intros s|]. intros s1 s2 s3 (H1 & H2 & H3 & H4) (H1' & H2' & H3' & H4').
  split_and!; [intros q; by rewrite H1'|congruence..].
Qed.

Notation quiet := (always calm).

Lemma quiet_exec cmd : quiet (on_sys (ExecCommand cmd)).
Proof.
  intros s. unfold twp, on_sys, ExecCommand. pose proof (settings_exec (rt_sys s) cmd) as H.
  by destruct (sys_exec _ _) as [r m'].
Qed.
Lemma quiet_system cmd : quiet (on_sys (system cmd)).
Proof.
  intros s. unfold twp, on_sys, system. pose proof (settings_system (rt_sys s) cmd) as H.
  by destruct (sys_system _ _) as [r m'].
Qed.
Lemma quiet_emit path doc : quiet (emit path doc).
Proof.
  intros s. destruct doc as [n|]; [|by apply twp_ret]. apply twp_modify. split; [|done].
  intros q. apply settings_emit.
Qed.
Lemma quiet_rebooting b : quiet (modify (set_rebooting b)).
Proof. intros s. by apply twp_modify. Qed.

Ltac quiet_leaf :=
  idtac; lazymatch goal with
  | |- quiet (on_sys (ExecCommand _)) => apply quiet_exec
  | |- quiet (on_sys (system _)) => apply quiet_system
  | |- quiet (emit _ _) => apply quiet_emit
  | |- quiet (modify (set_rebooting _)) => apply quiet_rebooting
  end.
Ltac quiet_run := always_run quiet_leaf.

Lemma CheckEnv_quiet : quiet CheckEnv.
Proof. unfold CheckEnv. quiet_run. Qed.
Lemma Add_quiet path : quiet (AddRealtimeTuneToConfig path).
Proof. unfold AddRealtimeTuneToConfig. quiet_run. Qed.
Lemma Update_quiet key value : quiet (UpdateKernelParamWithGrubby key value).
Proof. unfold UpdateKernelParamWithGrubby. quiet_run. Qed.
Lemma Remove_quiet key : quiet (RemoveKernelParamWithGrubby key).
Proof. unfold RemoveKernelParamWithGrubby. quiet_run. Qed.

Lemma update_params_quiet current expected : quiet (update_params current expected).
Proof.
  induction expected as [|[key value] expected IH]; [apply always_ret; apply _|]. cbn [update_params].
  quiet_run; [done|apply Update_quiet|done].
Qed.
Lemma rollback_quiet updated : quiet (rollback updated).
Proof.
  unfold rollback. quiet_run. unfold rollback_one. quiet_run;
    [apply Remove_quiet|apply Update_quiet].
Qed.
Lemma DisableKernelParams_quiet : quiet DisableKernelParams.
Proof.
  unfold DisableKernelParams. quiet_run. generalize KERNEL_PARAM_KEYS. intros keys.
  induction keys as [|key keys IH]; [apply always_ret; apply _|]. cbn [remove_params].
  quiet_run; [apply Remove_quiet|done].
Qed.

(** The boot parameters are computed from a range that has been checked. *)
Lemma CheckAndUpdate_calm s :
  -1 ≤ maxCpuId s < 2147483647 →
  ValidateCpuRange (maxCpuId s) (cpuIsolationRange (switchConfig s)) = Ret true →
  twp CheckAndUpdateKernelParamsWithGrubby (λ _ s', calm s s') s.
Proof.
  intros Hmax Hv. unfold CheckAndUpdateKernelParamsWithGrubby, IsGrubbyAvailable, GetGrubbyInfo.
  apply twp_bind. eapply twp_mono.
  { assert (quiet (r ← on_sys (system grubby_version); mret (bool_decide (r = 0)))) as Hq by quiet_run.
    apply Hq. }
  intros avail s1 H1. destruct avail; simpl; [|by apply twp_ret].
  apply twp_bind. eapply twp_mono.
  { assert (quiet (r ← on_sys (ExecCommand grubby_info); mret (default [] r))) as Hq by quiet_run.
    apply Hq. }
  intros info s2 H2. assert (calm s s2) as H by (by etransitivity).
  case_decide; [by apply twp_ret|]. apply twp_bind, twp_get.
  pose proof H as (_ & _ & Ew & Em).
  destruct (GenerateExpected_validated (switchConfig s2) (maxCpuId s2))
    as (l & text & params & _ & _ & _ & _ & Ep & _); [by rewrite Em|by rewrite Em, Ew|].
  apply twp_bind. unfold lift, twp at 1. rewrite Ep.
  apply always_from; [apply _| |done]. apply always_bind; [apply _|apply update_params_quiet|].
  intros [updated failed]. quiet_run; apply rollback_quiet.
Qed.

(** What depends on the machine depends on its settings. *)
Lemma restorable_ext m m' l s :
  (∀ q, cur m q = cur m' q) → restorable m l s → restorable m' l s.
Proof.
  intros H (H1 & H2 & H3). split_and!; intros q; rewrite <-H; [apply H1|by apply H2|apply H3].
Qed.
Lemma restorable_calm m l s s' : calm s s' → restorable m l s → restorable m l s'.
Proof.
  intros (H & _) (H1 & H2 & H3). split_and!; [|done|]; intros q; rewrite H; auto.
Qed.
Lemma govs_current_ext m m' govs :
  (∀ q, cur m q = cur m' q) → govs_current m govs → govs_current m' govs.
Proof. intros H Hg p g Hp. rewrite <-H. by apply Hg. Qed.
Lemma tunable_ext m m' : (∀ q, cur m q = cur m' q) → tunable m → tunable m'.
Proof. intros H. unfold tunable, canonical. by rewrite <-!H. Qed.

(** ** Enable *)

(** What [Enable] leads to from [s]: the settings are as they were, or
    [Disable] can bring them back. *)
Definition enabled (s : RealTime) (r : Result) (s1 : RealTime) : Prop :=
  let m0 := rt_sys s in
  govs_current m0 (bk_cpuGovs (backup s1)) ∧
  (r_code r = Some FAILED ∧ (∀ q, now s1 q = now s q) ∨
   (r_code r = Some OK ∨ r = enable_failed "add realtime_tune to config failed") ∧
     restorable m0 (restores (switchConfig s1) (backup s1)) s1).

Lemma RealTime_Enable_twp s :
  (∀ m, 0 < sys_cpus m ≤ 2147483647) →
  govs_current (rt_sys s) (bk_cpuGovs (backup s)) → tunable (rt_sys s) →
  twp RealTime_Enable (enabled s) s.
Proof.
  intros Hcpus Hgov Ht. unfold RealTime_Enable.
  (* Until the switches, only the configuration and what is read of it change. *)
  set (still := λ s', (∀ q, now s' q = now s q) ∧ backup s' = backup s).
  assert (∀ text s', still s' → enabled s (enable_failed text) s') as Hfail.
  { intros text s' [Hn Hb]. split; [by rewrite Hb|by left]. }
  assert (∀ s1 s2, still s1 → calm s1 s2 → still s2) as Hstill.
  { intros s1 s2 [Hn Hb] (Hn' & Hb' & _). split; [intros q; by rewrite Hn'|congruence]. }
  apply twp_bind. eapply twp_mono; [apply CheckEnv_quiet|]. intros env s1 H1.
  apply (Hstill s) in H1; [|by split]. destruct env; simpl; [|by apply twp_ret, Hfail].
  apply twp_bind, twp_modify. set (s2 := set_maxCpuId _ s1).
  apply twp_bind. unfold read_switches. apply twp_bind, twp_get.
  destruct (ParseFromSwitchConfig _ _ _) as [read w] eqn:Er.
  apply twp_bind, twp_modify, twp_ret. set (s3 := set_switches w s2).
  assert (still s3) as H3 by exact H1.
  destruct read; simpl; [|by apply twp_ret, Hfail].
  apply ParseFromSwitchConfig_range in Er.
  apply twp_bind. eapply twp_mono; [apply Add_quiet|]. intros added s4 Hc4.
  pose proof (Hstill _ _ H3 Hc4) as H4. destruct added; simpl; [|by apply twp_ret, Hfail].
  apply twp_bind, twp_get, twp_bind.
  eapply twp_mono with (Q := λ _ s', calm s4 s').
  { destruct Hc4 as (_ & _ & Ew & Em). destruct (range_is_set _); [|by apply twp_ret].
    apply CheckAndUpdate_calm; rewrite Em, ?Ew; [|exact Er].
    specialize (Hcpus (rt_sys s1)). simpl. lia. }
  intros params s5 H5. apply (Hstill _ _ H4) in H5 as [Hn5 Hb5].
  destruct params; simpl; [|by apply twp_ret, Hfail].
  (* The switches. *)
  assert (∀ q, cur (rt_sys s5) q = cur (rt_sys s) q) as Hcur by exact Hn5.
  apply twp_bind. eapply twp_mono.
  { apply OpenProcAndSys_twp; [rewrite Hb5; eapply govs_current_ext|eapply tunable_ext];
      [|done| |done]; intros q; by rewrite Hcur. }
  intros ok s6 (Hr6 & _ & Hg6). apply (govs_current_ext _ _ _ Hcur) in Hg6.
  apply (restorable_ext _ _ _ _ Hcur) in Hr6.
  apply twp_bind. eapply twp_mono; [apply Add_quiet|]. intros added' s7 H7.
  pose proof (restorable_calm _ _ _ _ H7 Hr6) as Hr7.
  destruct H7 as (_ & Hb7 & Hw7 & _). rewrite <-Hb7 in Hg6, Hr7. rewrite <-Hw7 in Hr7.
  destruct added'; simpl; apply twp_ret; (split; [done|right]); by eauto.
Qed.

(** ** Disable *)

(** Nothing but an exception of the YAML library comes out. *)
Definition concludes {A} (m : St RealTime A) (Q : RealTime → Prop) (s : RealTime) : Prop :=
  match m s with Ret (_, s') => Q s' | Throw e => e = YamlException | Undef => False end.

Lemma concludes_twp {A} (m : St RealTime A) (Q : RealTime → Prop) s :
  twp m (λ _, Q) s → concludes m Q s.
Proof. unfold twp, concludes. by destruct (m s) as [[]| |]. Qed.
Lemma concludes_bind {A B} (m : St RealTime A) (f : A → St RealTime B) (Q : RealTime → Prop) s :
  twp m (λ a, concludes (f a) Q) s → concludes (m ≫= f) Q s.
Proof. unfold twp, concludes, mbind, St_bind. by destruct (m s) as [[]| |]. Qed.

Lemma concludes_bind_lift {A B} (o : outcome A) (f : A → St RealTime B) (Q : RealTime → Prop) s :
  match o with Ret _ => True | Throw e => e = YamlException | Undef => False end →
  (∀ a, concludes (f a) Q s) → concludes (lift o ≫= f) Q s.
Proof.
  unfold concludes, lift, mbind, St_bind. intros Ho Hf. destruct o; [apply Hf|done..].
Qed.
Lemma concludes_ret {A B} (m : St RealTime A) (b : B) (Q R : RealTime → Prop) s :
  concludes m Q s → (∀ s', Q s' → R s') → concludes (m ;; mret b) R s.
Proof.
  unfold concludes, mbind, St_bind. intros Hm HR. destruct (m s) as [[]| |]; [by apply HR|done..].
Qed.

Lemma remove_realtime_throws config :
  match remove_realtime config with Ret _ => True | Throw e => e = YamlException | Undef => False end.
Proof.
  unfold remove_realtime. destruct (as_map config) as [l|]; [|done].
  destruct (find_key _ _); try done. by destruct (remove_items _).
Qed.

Lemma Remove_concludes path s : concludes (RemoveRealtimeTuneFromConfig path) (calm s) s.
Proof.
  unfold RemoveRealtimeTuneFromConfig. apply concludes_bind, twp_get.
  destruct (sys_yaml _ _) as [config|]; [|by apply concludes_twp, twp_ret].
  apply concludes_bind_lift; [apply remove_realtime_throws|]. intros [r doc].
  apply concludes_twp. assert (quiet (emit path doc ;; mret r)) as Hq by quiet_run. apply Hq.
Qed.

Lemma Disable_concludes m0 s :
  restorable m0 (restores (switchConfig s) (backup s)) s →
  concludes RealTime_Disable (λ s', (∀ q, now s' q = cur m0 q) ∧ backup s' = backup s) s.
Proof.
  intros Hr. unfold RealTime_Disable. apply concludes_bind.
  eapply twp_mono; [by apply DisableProcAndSys_twp|]. intros [] s1 (Hn1 & _ & Hb1).
  assert (∀ s', calm s1 s' → (∀ q, now s' q = cur m0 q) ∧ backup s' = backup s) as Hcalm.
  { intros s' (Hn & Hb & _). split; [intros q; by rewrite Hn|congruence]. }
  apply concludes_bind, twp_get. destruct (isRebooting s1).
  { by apply concludes_twp, twp_modify, Hcalm. }
  apply concludes_bind. eapply twp_mono with (Q := λ _ s', calm s1 s').
  { destruct (_ && _); [|by apply twp_ret].
    assert (quiet (DisableKernelParams ;; on_sys (system mkconfig) ;; mret tt)) as Hq; [|apply Hq].
    quiet_run. apply DisableKernelParams_quiet. }
  intros [] s2 H2. eapply concludes_ret; [apply Remove_concludes|]. intros s3 H3.
  apply Hcalm. by etransitivity.
Qed.

(** C11. An [Enable] and the [Disable] after it leave every setting, the
    processors' governors, transparent huge pages, NUMA balancing, KSM, timer
    migration and the real-time scheduler's share, as they found it, whatever
    the configuration switches, whichever writes the kernel refuses and
    whatever the commands answer; an [Enable] that fails has changed none, but
    for one that cannot enter itself in the daemon's configuration at the end,
    whose changes [Disable] still takes back.  Neither runs into anything
    undefined, and only an exception of the YAML library can come out of
    [Disable].  What is kept of the governors stays valid for the next time. *)
Theorem settings_restored (s : RealTime)
    (Hcpus : ∀ m, 0 < sys_cpus m ≤ 2147483647)
    (Hgovs : govs_current (rt_sys s) (bk_cpuGovs (backup s)))
    (Hfiles : tunable (rt_sys s)) :
  let same s' := (∀ q, cur (rt_sys s') q = cur (rt_sys s) q) ∧
    govs_current (rt_sys s') (bk_cpuGovs (backup s')) in
  twp RealTime_Enable (λ r s1,
    let late := r = enable_failed "add realtime_tune to config failed" in
    (r_code r = Some OK ∨ r_code r = Some FAILED) ∧
    (r_code r = Some FAILED → same s1 ∨ late) ∧
    (r_code r = Some OK ∨ ¬ same s1 →
      match RealTime_Disable s1 with
      | Ret (_, s2) => same s2
      | Throw e => e = YamlException
      | Undef => False
      end)) s.
Proof.
  intros same. eapply twp_mono; [by apply RealTime_Enable_twp|]. intros r s1 (Hg & H).
  assert (∀ s', (∀ q, now s' q = cur (rt_sys s) q) → backup s' = backup s1 → same s') as Hsame.
  { intros s' Hn Hb. split; [exact Hn|]. rewrite Hb. eapply govs_current_ext; [|exact Hg].
    intros q. symmetry. apply Hn. }
  destruct H as [[Hf Hn]|[Hr Hrest]].
  - pose proof (Hsame s1 Hn eq_refl) as Hs1. split_and!; [by right|by left|].
    intros [Hok|Hne]; [by rewrite Hok in Hf|done].
  - split_and!.
    + destruct Hr as [?| ->]; [by left|by right].
    + intros Hf. right. destruct Hr as [Hok|?]; [by rewrite Hok in Hf|done].
    + intros _. pose proof (Disable_concludes _ _ Hrest) as He. unfold concludes in He.
      destruct (RealTime_Disable s1) as [[[] s2]|e|]; [|done..]. destruct He. by apply Hsame.
Qed.
End enable.
