(* ===== verification/RealtimeGrubby.v ===== *)
(** * The boot parameters of real-time tuning

    grubby's description of the boot entry is read as the parameters that it
    shows, and changing them is a transaction: all the expected parameters are
    set, or all are as they were. *)

From Stdlib Require Import ZArith Lia Strings.Byte.
From stdpp Require Import base list strings gmap numbers.
From S2P Require Import Prelude Bytes StdString Utils DataTypes Registry Daemon Config Machine.
From S2P Require Import SecureC World Realtime RealtimeParse.

(** ** What grubby shows *)

(** The parameters of a list of tokens. *)
Definition params_of (tokens : list (list byte)) : gmap (list byte) (list byte) :=
  foldl add_param ∅ tokens.

Definition space : byte := x20.

(** A token stands in quotes, with blanks around it. *)
Definition token_ok (token : list byte) : Prop :=
  token ≠ [] ∧ Forall (λ b, is_space b = false ∧ b ≠ dquote) token.

Fixpoint spaced (tokens : list (list byte)) : list byte :=
  match tokens with
  | [] => []
  | [token] => token
  | token :: tokens => token ++ space :: spaced tokens
  end.

Definition args_line (tokens : list (list byte)) : list byte :=
  bytes_of "args=" ++ dquote :: spaced tokens ++ [dquote].

(** The first line of arguments is that of the entry. *)
Definition shows (text : list byte) (tokens : list (list byte)) : Prop :=
  ∃ lines rest, text = concat (map (λ line, line ++ [newline]) lines) ++
      args_line tokens ++ newline :: rest ∧
    Forall (λ line, newline ∉ line ∧ prefixb (bytes_of "args=") line = false) lines ∧
    Forall token_ok tokens.

Lemma words_go_token cur token rest :
  Forall (λ b, is_space b = false) token → cur ++ token ≠ [] →
  words_go cur (token ++ space :: rest) = (cur ++ token) :: words_go [] rest.
Proof.
  revert cur. induction token as [|b token IH]; intros cur Ht Hne; simpl.
  { rewrite app_nil_r in *. by destruct cur. }
  apply list.Forall_cons in Ht as [-> Ht]. rewrite IH; [by rewrite <-app_assoc|done|].
  by destruct cur.
Qed.
Lemma words_go_last cur token :
  Forall (λ b, is_space b = false) token → cur ++ token ≠ [] →
  words_go cur token = [cur ++ token].
Proof.
  revert cur. induction token as [|b token IH]; intros cur Ht Hne; simpl.
  { rewrite app_nil_r in *. by destruct cur. }
  apply list.Forall_cons in Ht as [-> Ht]. rewrite IH; [by rewrite <-app_assoc|done|].
  by destruct cur.
Qed.

Lemma token_ok_no_space token : token_ok token → Forall (λ b, is_space b = false) token.
Proof. intros [_ H]. eapply list.Forall_impl; [exact H|]. by intros b []. Qed.

Lemma words_spaced tokens : Forall token_ok tokens → words (spaced tokens) = tokens.
Proof.
  unfold words. induction 1 as [|token tokens Ht Hts IH]; [done|].
  pose proof (token_ok_no_space _ Ht) as Hs. destruct Ht as [Hne _].
  destruct tokens as [|token' tokens].
  - by apply words_go_last.
  - change (spaced (token :: token' :: tokens))
      with (token ++ space :: spaced (token' :: tokens)).
    rewrite words_go_token by done. by rewrite IH.
Qed.

Lemma spaced_no_quote tokens : Forall token_ok tokens → dquote ∉ spaced tokens ∧ newline ∉ spaced tokens.
Proof.
  assert (∀ token, token_ok token → dquote ∉ token ∧ newline ∉ token) as Htok.
  { intros token [_ H]. rewrite list.Forall_forall in H.
    split; intros Hin; destruct (H _ Hin) as [Hs Hq]; [done|by vm_compute in Hs]. }
  induction 1 as [|token tokens Ht Hts IH]; [by split; apply not_elem_of_nil|].
  destruct (Htok _ Ht) as [Hq Hn]. destruct tokens as [|token' tokens]; [done|].
  change (spaced (token :: token' :: tokens))
    with (token ++ space :: spaced (token' :: tokens)).
  rewrite !not_elem_of_app, !not_elem_of_cons. destruct IH as [IH1 IH2]. by split_and!.
Qed.

Lemma find_byte_first c a b : c ∉ a → find_byte c (a ++ c :: b) = Some (length a).
Proof.
  induction a as [|x a IH]; intros Ha; simpl; [by rewrite decide_True|].
  rewrite decide_False by set_solver. by rewrite IH by set_solver.
Qed.
Lemma rfind_byte_last c a : rfind_byte c (a ++ [c]) = Some (length a).
Proof.
  induction a as [|x a IH]; simpl; [by rewrite decide_True|]. by rewrite IH.
Qed.

Lemma grubby_line_args tokens lines :
  Forall token_ok tokens → grubby_line (args_line tokens :: lines) = params_of tokens.
Proof.
  intros Ht. destruct (spaced_no_quote _ Ht) as [Hq _].
  set (pre := bytes_of "args="). set (text := spaced tokens).
  assert (find_byte dquote (args_line tokens) = Some (length pre)) as Hfirst
    by (apply find_byte_first; by_decide).
  assert (rfind_byte dquote (args_line tokens) = Some (length pre + S (length text))%nat) as Hlast.
  { assert (args_line tokens = (pre ++ dquote :: text) ++ [dquote]) as ->.
    { unfold args_line. by rewrite <-app_assoc. }
    by rewrite rfind_byte_last, length_app. }
  assert (prefixb (bytes_of "args=") (args_line tokens) = true) as Hpre by apply prefixb_app.
  cbn [grubby_line]. rewrite Hpre, Hfirst, Hlast.
  rewrite decide_True by lia. unfold params_of. f_equal.
  replace (length pre + S (length text) - length pre - 1)%nat with (length text) by lia.
  unfold args_line. rewrite <-drop_drop, drop_app_length. simpl.
  by rewrite drop_0, take_app_length, words_spaced.
Qed.

(** What is shown is what is read. *)
Lemma ParseGrubbyCmdline_shows text tokens :
  shows text tokens → ParseGrubbyCmdline text = params_of tokens.
Proof.
  intros (lines & rest & -> & Hl & Ht). unfold ParseGrubbyCmdline, getline_all.
  induction Hl as [|line lines [Hn Hp] Hl IH].
  - cbn [map concat]. rewrite app_nil_l, getline_go_token; [by apply grubby_line_args|].
    destruct (spaced_no_quote _ Ht) as [_ Hn]. unfold args_line.
    rewrite !not_elem_of_app, !not_elem_of_cons, not_elem_of_app.
    split_and!; first [done|by_decide].
  - cbn [map concat]. rewrite <-!app_assoc. cbn [app]. rewrite getline_go_token by done.
    cbn [grubby_line]. rewrite app_nil_l, Hp. exact IH.
Qed.

(** ** Commands *)

(** Text that the shell leaves as it is between double quotes, and that
    grubby takes as one parameter. *)
Definition shell_safe (v : list byte) : Prop :=
  Forall (λ b, is_space b = false ∧ b ≠ dquote ∧ b ≠ x24 ∧ b ≠ x60 ∧ b ≠ x5c) v.

(** The parameters of the boot entry, and what grubby does to them: a command
    that reports a failure has changed nothing. *)
Class Grubby `(MA : Machine) := {
  boot : sys → list (list byte);
  grubby_shows m : let '(o, m') := sys_exec m grubby_info in
    boot m' = boot m ∧ (default [] o = [] ∨ shows (default [] o) (boot m));
  grubby_update m key v : key ∈ KERNEL_PARAM_KEYS → shell_safe v →
    let '(r, m') := sys_system m (update_cmd key v) in
    ∀ k, params_of (boot m') !! k =
      if decide (r = 0 ∧ k = bytes_of key) then Some v else params_of (boot m) !! k;
  grubby_remove m key : key ∈ KERNEL_PARAM_KEYS →
    let '(r, m') := sys_system m (remove_cmd key) in
    ∀ k, params_of (boot m') !! k =
      if decide (r = 0 ∧ k = bytes_of key) then None else params_of (boot m) !! k;
  grubby_other m c : prefixb (bytes_of grubby_kernel) (bytes_of c) = false →
    boot (snd (sys_system m c)) = boot m
}.

Section grubby.
Context `{MA : Machine} `{GR : !Grubby MA} `{YC : YamlConversions} `{HO : HashOrder}.

Definition params (s : RealTime) (k : list byte) : option (list byte) :=
  params_of (boot (rt_sys s)) !! k.

(** The object besides the machine. *)
Definition same_object (s s' : RealTime) : Prop :=
  switchConfig s' = switchConfig s ∧ backup s' = backup s ∧ maxCpuId s' = maxCpuId s.
#[export] Instance same_object_equiv : Equivalence same_object.
Proof. unfold same_object. split; repeat intro; naive_solver congruence. Qed.

Lemma Update_twp key v (Q : bool → RealTime → Prop) s :
  key ∈ KERNEL_PARAM_KEYS → shell_safe v →
  (∀ m', let ok := bool_decide (fst (sys_system (rt_sys s) (update_cmd key v)) = 0) in
    (∀ k, params (set_sys m' s) k =
       if decide (ok = true ∧ k = bytes_of key) then Some v else params s k) →
    Q ok (set_sys m' s)) →
  twp (UpdateKernelParamWithGrubby key v) Q s.
Proof.
  intros Hk Hv HQ. unfold UpdateKernelParamWithGrubby, on_sys, system, twp, mbind, St_bind.
  pose proof (grubby_update (rt_sys s) key v Hk Hv) as H.
  destruct (sys_system _ _) as [r m']. apply HQ. simpl. intros k. unfold params. simpl.
  rewrite H. apply decide_ext. by rewrite bool_decide_eq_true.
Qed.

Lemma Remove_twp key (Q : bool → RealTime → Prop) s :
  key ∈ KERNEL_PARAM_KEYS →
  (∀ m', let ok := bool_decide (fst (sys_system (rt_sys s) (remove_cmd key)) = 0) in
    (∀ k, params (set_sys m' s) k =
       if decide (ok = true ∧ k = bytes_of key) then None else params s k) →
    Q ok (set_sys m' s)) →
  twp (RemoveKernelParamWithGrubby key) Q s.
Proof.
  intros Hk HQ. unfold RemoveKernelParamWithGrubby, on_sys, system, twp, mbind, St_bind.
  pose proof (grubby_remove (rt_sys s) key Hk) as H.
  destruct (sys_system _ _) as [r m']. apply HQ. simpl. intros k. unfold params. simpl.
  rewrite H. apply decide_ext. by rewrite bool_decide_eq_true.
Qed.

(** A command that does not edit the entry. *)
Lemma other_twp {A} cmd (f : Z → St RealTime A) (Q : A → RealTime → Prop) s :
  prefixb (bytes_of grubby_kernel) (bytes_of cmd) = false →
  (∀ r m', (∀ k, params (set_sys m' s) k = params s k) → twp (f r) Q (set_sys m' s)) →
  twp (on_sys (system cmd) ≫= f) Q s.
Proof.
  intros Hc HQ. apply twp_bind. unfold twp at 1, on_sys, system.
  pose proof (grubby_other (rt_sys s) cmd Hc) as H. destruct (sys_system _ _) as [r m'].
  apply HQ. intros k. unfold params. simpl in *. by rewrite H.
Qed.

(** ** The updates *)

(** All but the named keys are as in [P0]. *)
Definition changed (P0 : gmap (list byte) (list byte)) (keys : list string) (s : RealTime) : Prop :=
  ∀ k, params s k = P0 !! k ∨ k ∈ bytes_of <$> keys.

Definition updates (P0 : gmap (list byte) (list byte)) (before : list string)
    (expected : list (string * list byte)) (s : RealTime)
    (r : list (string * list byte) * bool) (s' : RealTime) : Prop :=
  same_object s s' ∧ isRebooting s' = isRebooting s ∧
  changed P0 (before ++ r.1.*1) s' ∧
  (∀ k, k ∉ bytes_of <$> expected.*1 → params s' k = params s k) ∧
  (∀ key v, (key, v) ∈ expected → r.2 = false → params s' (bytes_of key) = Some v) ∧
  (∀ key old, (key, old) ∈ r.1 → key ∈ expected.*1 ∧ old = default [] (P0 !! bytes_of key)).

Lemma update_params_twp P0 before expected s :
  NoDup expected.*1 → (∀ key, key ∈ before → key ∉ expected.*1) →
  Forall (λ kv, kv.1 ∈ KERNEL_PARAM_KEYS ∧ shell_safe kv.2) expected →
  changed P0 before s →
  twp (update_params P0 expected) (updates P0 before expected s) s.
Proof.
  revert before s. induction expected as [|[key v] expected IH]; intros before s Hnd Hb Hok Hc.
  { apply twp_ret. unfold updates. cbn [fst snd]. rewrite app_nil_r.
    split_and!; try done; intros ? ? ?%elem_of_nil; done. }
  apply list.Forall_cons in Hok as [[Hkey Hv] Hok]. simpl in Hkey, Hv.
  cbn in Hnd. inversion_clear Hnd as [|? ? Hnotin Hnd'].
  assert (∀ s1 : RealTime, changed P0 before s1 → ∀ k, k = bytes_of key → params s1 k = P0 !! k) as Hfresh.
  { intros s1 H1 k ->. destruct (H1 (bytes_of key)) as [?|(key' & E & Hin)%list_elem_of_fmap]; [done|].
    apply (inj bytes_of) in E as ->. destruct (Hb _ Hin). by left. }
  cbn [update_params]. case_decide as Eold.
  - eapply twp_mono; [apply IH; [done| |done|exact Hc]|].
    { intros key' Hin. specialize (Hb _ Hin). set_solver. }
    intros [updated failed] s' (H1 & H2 & H3 & H4 & H5 & H6). split_and!; try done.
    + intros k Hk. apply H4. cbn in Hk. set_solver.
    + intros key' v' [[= -> ->]|Hin]%elem_of_cons Hf; [|by apply H5].
      rewrite H4; [by rewrite (Hfresh s Hc)|].
      intros (key' & E & Hin)%list_elem_of_fmap. by apply (inj bytes_of) in E as ->.
    + intros key' old Hin. destruct (H6 _ _ Hin). split; [by right|done].
  - apply twp_bind, Update_twp; [done..|]. intros m' ok Hm'. set (s1 := set_sys m' s) in *.
    apply twp_bind. eapply twp_mono; [apply (IH (before ++ [key]) s1); [done| |done|]|].
    { intros key' [Hin| ->%list_elem_of_singleton]%elem_of_app; [|done].
      specialize (Hb _ Hin). set_solver. }
    { intros k. rewrite Hm', fmap_app, elem_of_app. destruct (decide _) as [[_ ->]|_].
      - right; right. by apply list_elem_of_here.
      - destruct (Hc k); tauto. }
    intros [updated failed] s' (H1 & H2 & H3 & H4 & H5 & H6). apply twp_ret.
    cbn [fst snd] in *. unfold updates. cbn [fst snd].
    assert (params s' (bytes_of key) = params s1 (bytes_of key)) as Ekey.
    { apply H4. intros (key' & E & Hin)%list_elem_of_fmap. by apply (inj bytes_of) in E as ->. }
    split_and!; try done.
    + intros k. specialize (H3 k). by rewrite <-app_assoc in H3.
    + intros k Hk. cbn in Hk. apply not_elem_of_cons in Hk as [Hk1 Hk2].
      rewrite H4, Hm' by done. rewrite decide_False; [done|]. by intros [_ ?].
    + intros key' v' [[= -> ->]|Hin]%elem_of_cons [Hf1 Hf2]%orb_false_iff; [|by apply H5].
      rewrite Ekey, Hm', decide_True; [done|]. split; [by destruct ok|done].
    + intros key' old [[= -> ->]|Hin]%elem_of_cons; [split; [by left|done]|].
      destruct (H6 _ _ Hin). split; [by right|done].
Qed.

(** ** Taking them back *)

(** What is there can be taken back: the old values are not empty, which the
    code could not tell from none, and grubby accepts what it had. *)
Definition revocable (P0 : gmap (list byte) (list byte)) : Prop :=
  ∀ key, key ∈ KERNEL_PARAM_KEYS →
    (∀ m, fst (sys_system m (remove_cmd key)) = 0) ∧
    ∀ v, P0 !! bytes_of key = Some v →
      v ≠ [] ∧ shell_safe v ∧ ∀ m, fst (sys_system m (update_cmd key v)) = 0.

Lemma rollback_twp P0 updated s :
  revocable P0 →
  (∀ key old, (key, old) ∈ updated →
    key ∈ KERNEL_PARAM_KEYS ∧ old = default [] (P0 !! bytes_of key)) →
  changed P0 updated.*1 s →
  twp (rollback updated) (λ _ s', (∀ k, params s' k = P0 !! k) ∧ same_object s s') s.
Proof.
  intros Hrev. unfold rollback. revert s. induction updated as [|[key old] updated IH].
  { intros s _ Hc. apply twp_ret. split; [|done]. intros k. by destruct (Hc k) as [?|[]%elem_of_nil]. }
  intros s Hu Hc. cbn [for_each]. destruct (Hu key old) as [Hkey Eold]; [by left|].
  assert (∀ m', (∀ k, params (set_sys m' s) k =
      if decide (true = true ∧ k = bytes_of key) then P0 !! bytes_of key else params s k) →
    twp (for_each updated rollback_one)
      (λ _ s', (∀ k, params s' k = P0 !! k) ∧ same_object s s') (set_sys m' s)) as Hrest.
  { intros m' Hm'. eapply twp_mono; [apply IH|].
    - intros key' old' Hin. apply Hu. by right.
    - intros k. rewrite Hm'. destruct (decide _) as [[_ ->]|Hk]; [by left|].
      destruct (Hc k) as [?|Hin]; [by left|right]. cbn in Hin.
      apply elem_of_cons in Hin as [->|?]; [|done]. by destruct Hk.
    - intros _ s' [? ?]. done. }
  destruct (Hrev key Hkey) as [Hrem Hupd]. apply twp_bind. unfold rollback_one at 1. cbn [fst snd].
  destruct (P0 !! bytes_of key) as [v|] eqn:E; simpl in Eold; subst old.
  - destruct (Hupd v eq_refl) as (Hne & Hsafe & Hok). rewrite decide_False by done.
    apply twp_bind, Update_twp; [done..|]. rewrite bool_decide_true by done.
    intros m' ok Hm'. by apply twp_ret, Hrest.
  - rewrite decide_True by done. apply twp_bind, Remove_twp; [done|].
    rewrite bool_decide_true by done. intros m' ok Hm'. by apply twp_ret, Hrest.
Qed.

(** ** The expected parameters *)

Lemma elem_of_params_in_order (m : gmap string (list byte)) key v :
  (key, v) ∈ params_in_order m ↔ key ∈ KERNEL_PARAM_KEYS ∧ m !! key = Some v.
Proof.
  unfold params_in_order. rewrite list_elem_of_omap. split.
  - intros (key' & Hin & E). destruct (m !! key') as [v'|] eqn:Ev; [|done]. simpl in E.
    simplify_eq. split; [|done]. unfold KERNEL_PARAM_KEYS. set_solver.
  - intros [Hin E]. exists key. rewrite E. split; [|done].
    unfold KERNEL_PARAM_KEYS in Hin. set_solver.
Qed.

Lemma params_in_order_NoDup (m : gmap string (list byte)) : NoDup (params_in_order m).*1.
Proof.
  unfold params_in_order. cbn [omap list_omap].
  repeat match goal with |- context [m !! ?key] => destruct (m !! key) end; by_decide.
Qed.

(** Digits, commas and dashes are safe. *)
Definition plain (b : byte) : bool := is_digit b || bool_decide (b = comma) || bool_decide (b = dash).
Lemma plain_safe l : Forall (λ b, plain b = true) l → shell_safe l.
Proof.
  intros H. eapply list.Forall_impl; [exact H|]. intros b. destruct b; by vm_compute.
Qed.

Lemma to_string_plain z : Forall (λ b, plain b = true) (to_string z).
Proof.
  assert (∀ n, 0 ≤ n → Forall (λ b, plain b = true) (digits n)) as Hd.
  { intros n Hn. destruct (digits_spec n Hn) as (H & _).
    eapply list.Forall_impl; [exact H|]. intros b Hb. unfold plain. by rewrite Hb. }
  unfold to_string. case_decide; [constructor; [done|]|]; apply Hd; lia.
Qed.

Lemma print_range_plain l : Forall (λ b, plain b = true) (print_range l).
Proof.
  induction l as [|i l IH]; [constructor|].
  assert (Forall (λ b, plain b = true) (print_item i)) as Hi.
  { destruct i as [n|a b]; cbn [print_item]; [apply to_string_plain|].
    apply Forall_app; split; [|constructor; [done|]]; apply to_string_plain. }
  destruct l as [|j l]; [exact Hi|].
  change (print_range (i :: j :: l)) with (print_item i ++ comma :: print_range (j :: l)).
  apply Forall_app. split; [done|]. by constructor.
Qed.

Lemma range_safe maxCpu r :
  ValidateCpuRange maxCpu r = Ret true → Forall (λ b, is_space b = false) r → shell_safe r.
Proof.
  unfold ValidateCpuRange. case_decide; [done|].
  destruct (_ || _) eqn:E; [done|]. intros _ Hs. apply orb_false_iff in E as [_ E].
  apply negb_false_iff in E. rewrite forallb_forall in E. apply plain_safe.
  rewrite list.Forall_forall in *. intros b Hb. pose proof (Hs b Hb) as Hb'.
  specialize (E b (proj1 (list_elem_of_In _ _) Hb)). unfold range_char in E. unfold plain.
  rewrite Hb', orb_false_r in E. exact E.
Qed.

Lemma expected_safe w maxCpu :
  -1 ≤ maxCpu < 2147483647 → ValidateCpuRange maxCpu (cpuIsolationRange w) = Ret true →
  Forall (λ b, is_space b = false) (cpuIsolationRange w) →
  ∃ expected, GenerateExpectedKernelParams w maxCpu = Ret expected ∧
    Forall (λ kv, kv.1 ∈ KERNEL_PARAM_KEYS ∧ shell_safe kv.2) (params_in_order expected) ∧
    ∀ key v, expected !! key = Some v → key ∈ KERNEL_PARAM_KEYS.
Proof.
  intros Hm Hv Hs.
  destruct (GenerateExpected_validated w maxCpu Hm Hv) as (l & text & expected & El & _ & Et & _ & Ee & H).
  exists expected. split; [done|]. split.
  - apply list.Forall_forall. intros [key v] [Hkey E]%elem_of_params_in_order. split; [done|].
    rewrite H in E. simpl. destruct (decide (key ∈ _ ∧ _)); [|done]. injection E as <-.
    case_decide; [|by eapply range_safe]. unfold GetNotRangeCpus in Et. rewrite El in Et.
    injection Et as <-. apply plain_safe, print_range_plain.
  - intros key v E. rewrite H in E. destruct (decide (key ∈ _ ∧ _)) as [[? _]|]; done.
Qed.

End grubby.
