(* ===== verification/RealtimeBox.v ===== *)
(** * A machine for real-time tuning

    Files of one value, documents and boot parameters, on which the theorems
    of real-time tuning are run. *)

From Stdlib Require Import ZArith Lia Strings.Byte.
From stdpp Require Import base list strings gmap numbers.
From S2P Require Import Prelude Bytes StdString Utils DataTypes Registry Daemon Config Machine.
From S2P Require Import SecureC World Realtime RealtimeParse RealtimeSettings.
From S2P Require Import RealtimeRestore RealtimeGrubby.

Record Box := mkBox {
  b_files : gmap string (list byte);
  b_docs : gmap string Node;
  b_boot : list (list byte)
}.
Definition set_files (f : gmap string (list byte)) (b : Box) : Box :=
  mkBox f (b_docs b) (b_boot b).
Definition set_docs (f : gmap string Node) (b : Box) : Box :=
  mkBox (b_files b) f (b_boot b).
Definition set_boot (l : list (list byte)) (b : Box) : Box :=
  mkBox (b_files b) (b_docs b) l.

(** ** Settings *)

Definition clean (v : list byte) : list byte := filter (λ b, b ≠ newline ∧ b ≠ rbracket) v.
Definition box_cur (b : Box) (p : string) : option (list byte) := clean <$> b_files b !! p.
Definition shown (p : string) (v : list byte) : list byte :=
  (if decide (p = thpEnabledPath) then bytes_of "always " ++ lbracket :: v ++ rbracket :: []
   else v) ++ [newline].
Definition box_accepts (p : string) (v : list byte) : bool := bool_decide (clean v = v).
Definition box_write (b : Box) (p : string) (v : list byte) : bool * bool * Box :=
  match b_files b !! p with
  | None => (false, false, b)
  | Some _ =>
    if box_accepts p v then (true, true, set_files (<[p := v]> (b_files b)) b)
    else (true, false, b)
  end.

(** ** Boot parameters *)

#[export] Instance token_ok_dec token : Decision (token_ok token).
Proof. unfold token_ok. apply _. Defined.
Definition box_boot (b : Box) : list (list byte) := filter token_ok (b_boot b).

Definition key_of (token : list byte) : list byte :=
  match find_byte equals token with Some eq => take eq token | None => token end.

Definition strip (p l : list byte) : option (list byte) :=
  if prefixb p l then Some (drop (length p) l) else None.
(** What stands between the quotes. *)
Definition unquote (l : list byte) : list byte := take (length l - 2) (drop 1 l).

Definition box_edit (key : list byte) (tokens : list (list byte)) (b : Box) : Box :=
  set_boot (filter (λ t, key_of t ≠ key) (b_boot b) ++ tokens) b.

(** [stuck] are the parameters that grubby does not set. *)
Section box.
Context (stuck : list (list byte)).

Definition box_system (b : Box) (c : string) : Z * Box :=
  match strip (bytes_of (grubby_kernel +:+ "--args=")) (bytes_of c) with
  | Some q =>
    let t := unquote q in
    if decide (key_of t ∈ stuck) then (1, b) else (0, box_edit (key_of t) [t] b)
  | None =>
    match strip (bytes_of (grubby_kernel +:+ "--remove-args=")) (bytes_of c) with
    | Some q => (0, box_edit (unquote q) [] b)
    | None => (0, b)
    end
  end.

Definition box_exec (b : Box) (c : string) : option (list byte) * Box :=
  (Some (if decide (c = "uname -v"%string) then bytes_of "#1 SMP PREEMPT_RT"
         else if decide (c = grubby_info) then
           bytes_of "index=0" ++ newline :: args_line (box_boot b) ++ [newline]
         else []), b).

Definition box_machine : Machine := {|
  sys := Box;
  sys_read b p := shown p <$> box_cur b p;
  sys_write := box_write;
  sys_exists b p := bool_decide (is_Some (b_files b !! p));
  sys_dir b p := if decide (p = cpuFreqPath) then Some ["cpu0"; "cpu1"; "cpufreq"]%string else None;
  sys_exec := box_exec;
  sys_system := box_system;
  sys_yaml b p := b_docs b !! p;
  sys_emit b p n := set_docs (<[p := n]> (b_docs b)) b;
  sys_cpus _ := 8
|}.

End box.

(** ** The laws *)

Lemma clean_idem v : clean (clean v) = clean v.
Proof.
  unfold clean. induction v as [|b v IH]; [done|]. rewrite filter_cons. case_decide; [|done].
  rewrite filter_cons_True by done. by rewrite IH.
Qed.

Lemma clean_no b v : b = newline ∨ b = rbracket → b ∉ clean v.
Proof. unfold clean. intros Hb [[H1 H2] _]%list_elem_of_filter. naive_solver. Qed.

Lemma box_system_files stuck b c : b_files (snd (box_system stuck b c)) = b_files b.
Proof.
  unfold box_system, box_edit. repeat case_match; done.
Qed.

Lemma shown_first_line p v :
  newline ∉ v → default [] (first_line (shown p v)) =
    (if decide (p = thpEnabledPath) then bytes_of "always " ++ lbracket :: v ++ rbracket :: []
     else v).
Proof.
  intros Hv. unfold shown, first_line, getline_all.
  rewrite getline_go_token; [done|]. case_decide; [|done].
  rewrite not_elem_of_app, not_elem_of_cons, not_elem_of_app. split_and!; try done; by_decide.
Qed.

#[export] Instance box_settings stuck : @Settings (box_machine stuck).
Proof.
  refine {| cur := box_cur : @sys (box_machine stuck) → _; accepts := box_accepts |}; unfold box_cur.
  - intros b p v Hp. simpl. unfold box_write. destruct (b_files b !! p) as [w|] eqn:E; [|done].
    unfold box_accepts. case_bool_decide as Hv; (split; [done|]); intros q; simpl.
    + destruct (decide (q = p)) as [->|Hq].
      * rewrite lookup_insert_eq, decide_True by done. simpl. by rewrite Hv.
      * rewrite lookup_insert_ne by done. by rewrite decide_False by naive_solver.
    + rewrite decide_False; [done|]. by intros [_ ?].
  - intros b p v Hp. simpl. unfold box_write. by destruct (b_files b !! p).
  - intros b p v Hp. unfold box_accepts. apply bool_decide_eq_true.
    destruct (b_files b !! p) as [w|]; [|done]. injection Hp as <-. apply clean_idem.
  - intros b p Hp. simpl. unfold box_cur. by destruct (b_files b !! p).
  - intros b p v Hp. simpl. unfold box_cur. rewrite Hp. exists (shown p v). split; [done|].
    destruct (b_files b !! p) as [w|]; [|done]. injection Hp as <-. split; [done|].
    pose proof (shown_first_line p (clean w)) as Hl.
    case_decide.
    + exists (bytes_of "always "), []. rewrite Hl by (by apply clean_no; left).
      split; [done|]. split; [by_decide|]. by apply clean_no; right.
    + split; [by apply Hl, clean_no; left|]. intros _. unfold shown.
      rewrite decide_False by done. unfold first_line, getline_all.
      by rewrite getline_go_token by (by apply clean_no; left).
  - intros b p l. simpl. case_decide; [|done]. intros [= <-]. by_decide.
  - done.
  - intros b c p. change (sys_system b c) with (box_system stuck b c).
    by rewrite box_system_files.
  - done.
Defined.

(** Editing the tokens is editing the parameters. *)
Lemma params_of_snoc tokens t : params_of (tokens ++ [t]) = add_param (params_of tokens) t.
Proof. unfold params_of. by rewrite foldl_app. Qed.

Lemma add_param_key t : ∃ v, ∀ m, add_param m t = <[key_of t := v]> m.
Proof. unfold add_param, key_of. destruct (find_byte equals t) as [eq|]; by eexists. Qed.

Lemma params_of_other tokens key k :
  params_of (filter (λ t, key_of t ≠ key) tokens) !! k =
  if decide (k = key) then None else params_of tokens !! k.
Proof.
  induction tokens as [|t tokens IH] using rev_ind; [by destruct (decide _)|].
  assert (filter (λ t, key_of t ≠ key) [t] = if decide (key_of t ≠ key) then [t] else []) as Et
    by (rewrite filter_cons; by case_decide).
  rewrite list.filter_app, params_of_snoc, Et.
  destruct (add_param_key t) as [v Ev]. rewrite Ev. case_decide as Ek.
  - rewrite params_of_snoc, Ev. destruct (decide (k = key_of t)) as [->|Hk].
    + rewrite !lookup_insert_eq. by rewrite decide_False.
    + by rewrite !lookup_insert_ne by done.
  - rewrite app_nil_r, IH.
    destruct (decide (k = key)) as [->|Hk]; [done|]. by rewrite lookup_insert_ne by congruence.
Qed.

Lemma filter_comm_key (tokens : list (list byte)) key :
  filter token_ok (filter (λ t, key_of t ≠ key) tokens) =
  filter (λ t, key_of t ≠ key) (filter token_ok tokens).
Proof.
  induction tokens as [|t tokens IH]; [done|].
  rewrite !filter_cons. repeat (case_decide; rewrite ?filter_cons); try done;
    repeat case_decide; try done; by rewrite IH.
Qed.

(** A parameter that is given to grubby. *)
Definition token (key : string) (v : list byte) : list byte := bytes_of key ++ equals :: v.

Lemma key_no_equals key : key ∈ KERNEL_PARAM_KEYS → token_ok (bytes_of key) ∧ equals ∉ bytes_of key.
Proof. revert key. apply list.Forall_forall. by_decide. Qed.

Lemma token_key key v m : key ∈ KERNEL_PARAM_KEYS →
  key_of (token key v) = bytes_of key ∧ add_param m (token key v) = <[bytes_of key := v]> m.
Proof.
  intros Hkey. destruct (key_no_equals _ Hkey) as [_ Hno]. unfold key_of, add_param, token.
  rewrite find_byte_first, take_app_length by done. split; [done|].
  by rewrite <-drop_drop, drop_app_length.
Qed.

Lemma token_is_ok key v : key ∈ KERNEL_PARAM_KEYS → shell_safe v → token_ok (token key v).
Proof.
  intros Hkey Hv. destruct (key_no_equals _ Hkey) as [[Hne Hk] _]. unfold token. split.
  - by destruct (bytes_of key).
  - apply list.Forall_app. split; [done|]. constructor; [by_decide|].
    eapply list.Forall_impl; [exact Hv|]. naive_solver.
Qed.

Lemma box_boot_edit key tokens b :
  box_boot (set_boot (filter (λ t, key_of t ≠ key) (b_boot b) ++ tokens) b) =
  filter (λ t, key_of t ≠ key) (box_boot b) ++ filter token_ok tokens.
Proof. unfold box_boot. simpl. by rewrite list.filter_app, filter_comm_key. Qed.

(** Taking a command apart. *)
Lemma strip_app p l : strip p (p ++ l) = Some l.
Proof. unfold strip. by rewrite prefixb_app, drop_app_length. Qed.
Lemma strip_none p q l : prefixb p l = false → strip (p ++ q) l = None.
Proof.
  intros Hp. unfold strip. destruct (prefixb (p ++ q) l) eqn:E; [|reflexivity].
  apply prefixb_spec in E as [r ->]. by rewrite <-app_assoc, prefixb_app in Hp.
Qed.
Lemma unquote_quoted l : unquote (dquote :: l ++ [dquote]) = l.
Proof.
  unfold unquote. simpl. rewrite length_app, drop_0. simpl.
  replace (length l + 1 - 1)%nat with (length l) by lia. by rewrite take_app_length.
Qed.
Lemma bytes_of_quoted s : bytes_of (quoted s) = dquote :: bytes_of s ++ [dquote].
Proof. unfold quoted. by rewrite !bytes_of_append. Qed.

Lemma update_bytes key v : bytes_of (update_cmd key v) =
  bytes_of (grubby_kernel +:+ "--args=") ++ dquote :: token key v ++ [dquote].
Proof.
  unfold update_cmd, token. rewrite !bytes_of_append, bytes_of_quoted, !bytes_of_append,
    bytes_of_str_of. by rewrite <-!app_assoc.
Qed.
Lemma remove_bytes key : bytes_of (remove_cmd key) =
  bytes_of (grubby_kernel +:+ "--remove-args=") ++ dquote :: bytes_of key ++ [dquote].
Proof. unfold remove_cmd. by rewrite !bytes_of_append, bytes_of_quoted, <-!app_assoc. Qed.

Lemma box_system_update stuck b key v :
  key ∈ KERNEL_PARAM_KEYS →
  box_system stuck b (update_cmd key v) =
  if decide (bytes_of key ∈ stuck) then (1, b) else (0, box_edit (bytes_of key) [token key v] b).
Proof.
  intros Hkey. unfold box_system. rewrite update_bytes, strip_app, unquote_quoted.
  by destruct (token_key key v ∅ Hkey) as [-> _].
Qed.
Lemma box_system_remove stuck b key :
  box_system stuck b (remove_cmd key) = (0, box_edit (bytes_of key) [] b).
Proof.
  unfold box_system. rewrite remove_bytes.
  assert (strip (bytes_of (grubby_kernel +:+ "--args="))
    (bytes_of (grubby_kernel +:+ "--remove-args=") ++ dquote :: bytes_of key ++ [dquote]) = None)
    as -> by reflexivity.
  by rewrite strip_app, unquote_quoted.
Qed.

#[export] Instance box_grubby stuck : @Grubby (box_machine stuck).
Proof.
  refine {| boot := box_boot : @sys (box_machine stuck) → _ |}.
  - intros b. simpl. split; [done|right]. exists [bytes_of "index=0"], []. split_and!.
    + simpl. by rewrite <-app_assoc.
    + constructor; [by_decide|constructor].
    + apply list.Forall_forall. by intros t [Ht _]%list_elem_of_filter.
  - intros b key v Hkey Hv.
    change (sys_system b (update_cmd key v)) with (box_system stuck b (update_cmd key v)).
    rewrite box_system_update by done.
    destruct (decide _) as [_|_]; intros k; [by rewrite decide_False by (by intros [? _])|].
    unfold box_edit. rewrite box_boot_edit, filter_cons_True by (by apply token_is_ok).
    change (filter token_ok []) with (@nil (list byte)). rewrite params_of_snoc.
    destruct (token_key key v (params_of (filter (λ t, key_of t ≠ bytes_of key) (box_boot b))))
      as [_ ->]; [done|].
    destruct (decide (k = bytes_of key)) as [->|Hk].
    + rewrite lookup_insert_eq. by rewrite decide_True.
    + rewrite lookup_insert_ne, params_of_other by done.
      rewrite (decide_False (P := k = _)) by done. by rewrite decide_False by (by intros [_ ?]).
  - intros b key Hkey. change (sys_system b (remove_cmd key)) with (box_system stuck b (remove_cmd key)).
    rewrite box_system_remove. unfold box_edit.
    intros k. rewrite box_boot_edit. change (filter token_ok []) with (@nil (list byte)).
    rewrite app_nil_r, params_of_other. apply decide_ext. tauto.
  - intros b c Hc. simpl. unfold box_system.
    rewrite !bytes_of_append. by rewrite !strip_none.
Defined.

(** ** Runs *)

Definition ok_of {S A} (o : outcome (A * S)) : option A :=
  match o with Ret (a, _) => Some a | _ => None end.

Definition box0 : Box := mkBox
  (list_to_map [(ksmRunPath, bytes_of "1"); (numaBalancingPath, bytes_of "1");
     (timerMigrationPath, bytes_of "1"); (schedRuntimePath, bytes_of "950000");
     (thpEnabledPath, bytes_of "madvise");
     (gov_path "cpu0", bytes_of "powersave"); (gov_path "cpu1", performance)])
  (list_to_map [(realtime_config, realtime_yaml); (daemon_config, NMap [("enable_list", NNull)])])%string
  [bytes_of "ro"; bytes_of "isolcpus=9"; bytes_of "quiet"].

Definition box_start stuck : @RealTime (box_machine stuck) :=
  RealTime0 (box0 : @sys (box_machine stuck)).

Lemma canonical_at (b : Box) path value v z :
  box_cur b path = Some v → in_range CInt z → v = to_string z → (z = -1 → v = value) →
  canonical (b : @sys (box_machine [])) path value.
Proof. intros E Hz Hv H1 v' E'. exists z. simpl in E'. by rewrite E in E'; simplify_eq. Qed.

Lemma settings_restored_witness :
  ∃ r s1 s2, RealTime_Enable (YC := yaml_none) (box_start []) = Ret (r, s1) ∧
    r_code r = Some OK ∧
    (now s1 ksmRunPath = Some (bytes_of "0") ∧ now s1 thpEnabledPath = Some (bytes_of "never") ∧
     now s1 (gov_path "cpu0") = Some performance) ∧
    RealTime_Disable (YC := yaml_none) (HO := hash_ref) s1 = Ret (tt, s2) ∧
    ∀ q, now s2 q = now (box_start []) q.
Proof.
  assert (tunable (rt_sys (box_start []))) as Ht.
  { unfold tunable. split_and!;
      [eapply (canonical_at _ _ _ _ 1)|eapply (canonical_at _ _ _ _ 1)|
       eapply (canonical_at _ _ _ _ 1)|eapply (canonical_at _ _ _ _ 950000)|
       vm_compute; discriminate];
      first [vm_compute; reflexivity|vm_compute; split; congruence|lia]. }
  assert (∀ m : @sys (box_machine []), 0 < sys_cpus m ≤ 2147483647) as Hc.
  { intros m. simpl. lia. }
  assert (govs_current (rt_sys (box_start [])) (bk_cpuGovs (backup (box_start [])))) as Hg.
  { intros p g Hp. vm_compute in Hp. discriminate Hp. }
  pose proof (settings_restored (YC := yaml_none) (HO := hash_ref) (box_start []) Hc Hg Ht) as H.
  assert (match RealTime_Enable (YC := yaml_none) (box_start []) with
    | Ret (r, s1) => r_code r = Some OK ∧
      (now s1 ksmRunPath = Some (bytes_of "0") ∧
       now s1 thpEnabledPath = Some (bytes_of "never") ∧
       now s1 (gov_path "cpu0") = Some performance) ∧
      match RealTime_Disable (YC := yaml_none) (HO := hash_ref) s1 with
      | Ret _ => True | _ => False end
    | _ => False end) as Hrun by (vm_compute; repeat split).
  cbv zeta in H. unfold twp in H.
  destruct (RealTime_Enable (box_start [])) as [[r s1]| |]; [|destruct Hrun..].
  destruct Hrun as (Hok & Hon & Hd). destruct H as (_ & _ & H). specialize (H (or_introl Hok)).
  exists r, s1. destruct (RealTime_Disable s1) as [[[] s2]| |]; [|destruct Hd..].
  exists s2. split; [reflexivity|]. split; [exact Hok|]. split; [exact Hon|].
  split; [reflexivity|]. exact (proj1 H).
Defined.

(** The range of the file that comes with the daemon, with every feature on. *)
Definition box_params stuck : @RealTime (box_machine stuck) :=
  set_maxCpuId 7 (set_switches (mkSwitch true true true true true true (-1)
    (list_to_map [("isolcpus", true); ("nohz_full", true); ("rcu_nocbs", true);
                  ("irqaffinity", true)]%string) (bytes_of "3-4")) (box_start stuck)).

Lemma box_revocable stuck :
  bytes_of "isolcpus" ∉ stuck → @revocable (box_machine stuck) (params_of (box_boot box0)).
Proof.
  intros Hs key Hkey. split.
  { intros m. change (sys_system m (remove_cmd key)) with (box_system stuck m (remove_cmd key)).
    by rewrite box_system_remove. }
  intros v Hv. assert (key = "isolcpus"%string ∧ v = bytes_of "9") as [-> ->].
  { unfold KERNEL_PARAM_KEYS in Hkey. rewrite !elem_of_cons in Hkey.
    destruct Hkey as [->|[->|[->|[->|[]%elem_of_nil]]]]; vm_compute in Hv; try discriminate Hv.
    injection Hv as <-. split; reflexivity. }
  split; [done|]. split; [by_decide|]. intros m.
  change (fst (box_system stuck m (update_cmd "isolcpus" (bytes_of "9"))) = 0).
  rewrite box_system_update by done. by rewrite decide_False.
Qed.

