(* ===== verification/RealtimeConfig.v ===== *)
(** * Real-time tuning in the daemon's configuration

    Editing the document is an operation on the list of plugins that the
    daemon reads from it. *)

From Stdlib Require Import ZArith Lia Strings.Byte.
From stdpp Require Import base list strings gmap numbers.
From S2P Require Import Prelude Bytes StdString Utils DataTypes Registry Daemon Config Machine.
From S2P Require Import SecureC Realtime.

(** ** The list that the daemon has of it *)

Definition is_system (e : EnableItem) : bool := bool_decide (ei_name e = system_tune).

(** Entering: the first entry of the plugin counts, and one without instances
    enables them all. *)
Definition enter_item (e : EnableItem) : EnableItem :=
  if ei_enabled e || bool_decide (realtime_tune ∈ ei_instance e) then e
  else mkEnableItem (ei_instance e ++ [realtime_tune]) (ei_name e) false.
Fixpoint enter (es : list EnableItem) : list EnableItem :=
  match es with
  | [] => [mkEnableItem [realtime_tune] system_tune false]
  | e :: es => if is_system e then enter_item e :: es else e :: enter es
  end.

(** Leaving: an entry with no other instance goes, and nothing happens when
    an entry has no instances. *)
Definition leave_item (e : EnableItem) : option EnableItem :=
  if is_system e then
    match filter (λ i, i ≠ realtime_tune) (ei_instance e) with
    | [] => None
    | insts => Some (mkEnableItem insts (ei_name e) false)
    end
  else Some e.
Definition leave (es : list EnableItem) : list EnableItem :=
  if existsb (λ e, is_system e && ei_enabled e) es then es else omap leave_item es.

Lemma enter_idem es : enter (enter es) = enter es.
Proof.
  induction es as [|e es IH]; [done|]. simpl.
  destruct (is_system e) eqn:Es; simpl; [|by rewrite Es, IH].
  assert (is_system (enter_item e) = true) as ->.
  { unfold enter_item. by destruct (_ || _). }
  f_equal. unfold enter_item at 2 3. destruct (ei_enabled e || _) eqn:E; unfold enter_item.
  - by rewrite E.
  - simpl. rewrite bool_decide_true by set_solver. done.
Qed.

(** An entry that [leave] undoes [enter] on. *)
Definition plain_entry (e : EnableItem) : Prop :=
  is_system e = true →
  ei_enabled e = false ∧ ei_instance e ≠ [] ∧ realtime_tune ∉ ei_instance e.

Lemma filter_absent (l : list string) x : x ∉ l → filter (λ i, i ≠ x) l = l.
Proof.
  induction l as [|y l IH]; [done|]. rewrite not_elem_of_cons. intros [Hy Hl].
  rewrite filter_cons_True by congruence. by rewrite IH.
Qed.

Lemma leave_plain e : plain_entry e → leave_item e = Some e ∧ is_system e && ei_enabled e = false.
Proof.
  intros He. unfold leave_item, plain_entry in *. destruct (is_system e); [|done].
  destruct (He eq_refl) as (Hen & Hne & Hno). rewrite filter_absent, Hen by done. split; [|done].
  destruct e as [insts name en]; simpl in *. subst en. by destruct insts.
Qed.

Lemma leave_cons e es : omap leave_item (e :: es) =
  match leave_item e with Some e => e :: omap leave_item es | None => omap leave_item es end.
Proof. reflexivity. Qed.

Lemma leave_all_plain es :
  Forall plain_entry es →
  omap leave_item es = es ∧ existsb (λ e, is_system e && ei_enabled e) es = false.
Proof.
  induction 1 as [|e es He _ [IH1 IH2]]; [done|]. destruct (leave_plain _ He) as [E1 E2].
  cbn [existsb]. by rewrite leave_cons, E1, E2, IH2, IH1.
Qed.

Lemma leave_enter es : Forall plain_entry es → leave (enter es) = es.
Proof.
  intros Hes. unfold leave.
  assert (omap leave_item (enter es) = es ∧
    existsb (λ e, is_system e && ei_enabled e) (enter es) = false) as [-> ->]; [|done].
  induction Hes as [|e es He Hes [IH1 IH2]]; [done|].
  destruct (leave_plain _ He) as [E1 E2]. cbn [enter].
  destruct (is_system e) eqn:Es.
  - destruct (leave_all_plain _ Hes) as [E3 E4]. destruct (He Es) as (Hen & Hne & Hno).
    unfold enter_item. rewrite Hen, bool_decide_false by done. cbn [orb existsb].
    rewrite leave_cons, E3, E4. unfold leave_item, is_system in *. cbn [ei_name ei_instance ei_enabled].
    rewrite Es, list.filter_app, filter_absent by done.
    assert (filter (λ i, i ≠ realtime_tune) [realtime_tune] = []) as -> by reflexivity.
    rewrite app_nil_r, andb_false_r. split; [|done]. destruct e as [insts name en]; simpl in *.
    subst en. by destruct insts.
  - cbn [existsb]. by rewrite leave_cons, E1, IH1, IH2, Es.
Qed.

Section documents.
Context `{YC : YamlConversions}.

(** ** Reading *)

(** An entry of the list, as the daemon takes it: its instances are a list,
    or there are none. *)
Definition read_item (item : Node) : option EnableItem :=
  name ← node_at item "name" ≫= as_string;
  instances ← node_at item "instances";
  if negb (IsDefined instances) || IsNull instances then Some (mkEnableItem [] name true) else
  match instances with
  | NSequence l => names ← mapM as_string l; Some (mkEnableItem names name false)
  | _ => None
  end.

Lemma AddEnableItem_read items item e :
  read_item item = Some e → AddEnableItem items item = Some (items ++ [e]).
Proof.
  unfold read_item, AddEnableItem. destruct (node_at item "name" ≫= as_string) as [name|]; [|done].
  destruct (node_at item "instances") as [n|]; [|done]. simpl.
  destruct (negb _ || _); [by intros [= <-]|]. destruct n; try done. simpl.
  destruct (mapM as_string l); [|done]. by intros [= <-].
Qed.

Definition reads (items : list Node) (es : list EnableItem) : Prop :=
  Forall2 (λ item e, read_item item = Some e) items es.

Lemma fold_items_read acc items es :
  reads items es → fold_items AddEnableItem acc items = Some (acc ++ es).
Proof.
  intros H. revert acc. induction H as [|item e items es Hi _ IH]; intros acc; simpl.
  { by rewrite app_nil_r. }
  rewrite (AddEnableItem_read _ _ _ Hi). simpl. rewrite IH. by rewrite <-app_assoc.
Qed.

(** What the daemon enables after reading the document. *)
Definition daemon_reads (n : Node) (es : list EnableItem) : Prop :=
  ∀ c, SetEnableList n c =
    Some (mkConfig (c_logLevel c) (c_logPath c) (c_pluginList c) (c_enableList c ++ es)).

(** A document whose list is in order. *)
Definition lists (l : list (string * Node)) (es : list EnableItem) : Prop :=
  match find_key "enable_list" l with
  | NSequence items => reads items es
  | NNull | NUndefined => es = []
  | _ => False
  end.

Lemma lists_read l es : lists l es → daemon_reads (NMap l) es.
Proof.
  unfold lists, daemon_reads, SetEnableList. intros H c. simpl.
  destruct (find_key "enable_list" l); try done; simpl.
  - subst es. rewrite app_nil_r. by destruct c.
  - subst es. rewrite app_nil_r. by destruct c.
  - by rewrite (fold_items_read _ _ _ H).
Qed.

(** ** Keys *)

Lemma find_set_key k v l : find_key k (set_key k v l) = v.
Proof.
  induction l as [|[k' w] l IH]; simpl; [by rewrite decide_True|].
  case_decide as E; simpl; [by rewrite decide_True|by rewrite decide_False].
Qed.
Lemma find_set_other k k' v l : k' ≠ k → find_key k' (set_key k v l) = find_key k' l.
Proof.
  intros Hk. induction l as [|[k1 w] l IH]; simpl; [by rewrite decide_False|].
  case_decide as E; simpl; [|by rewrite IH]. by rewrite !decide_False by congruence.
Qed.

Lemma lists_set items es l :
  reads items es → lists (set_key "enable_list" (NSequence items) l) es.
Proof. intros H. unfold lists. by rewrite find_set_key. Qed.

(** The entry with other instances. *)
Lemma read_set_instances item e insts names :
  read_item item = Some e → mapM as_string insts = Some names →
  read_item (set_instances insts item) = Some (mkEnableItem names (ei_name e) false).
Proof.
  intros He Hn. destruct item as [| | | |l]; try done. unfold read_item in *. simpl in *.
  rewrite (find_set_other "instances" "name"), find_set_key by done.
  destruct (as_string (find_key "name" l)) as [name|]; [|done]. simpl in *. rewrite Hn. simpl.
  destruct (negb _ || _); [by injection He as <-|].
  destruct (find_key "instances" l); try done. by destruct (mapM as_string l0); simplify_eq/=.
Qed.

(** ** Entering *)

Lemma is_system_read item e : read_item item = Some e → is_system_tune item = Some (is_system e).
Proof.
  unfold read_item, is_system_tune, is_system. destruct item as [| | | |l]; try done. simpl.
  destruct (as_string (find_key "name" l)) as [name|] eqn:En; [|done]. simpl.
  intros He. assert (ei_name e = name) as Hname.
  { destruct (negb _ || _); [by injection He as <-|].
    destruct (find_key "instances" l); try done. by destruct (mapM as_string l0); simplify_eq/=. }
  subst name. assert (IsDefined (find_key "name" l) = true) as ->; [|done].
  by destruct (find_key "name" l).
Qed.

Lemma has_realtime_read insts names :
  mapM as_string insts = Some names →
  has_realtime insts = Some (bool_decide (realtime_tune ∈ names)).
Proof.
  revert names. induction insts as [|inst insts IH]; intros names; simpl.
  { by intros [= <-]. }
  destruct (as_string inst) as [s|]; [|done]. simpl. destruct (mapM as_string insts) as [ns|]; [|done].
  intros [= <-]. case_decide as E.
  - f_equal. symmetry. apply bool_decide_eq_true. rewrite E. apply list_elem_of_here.
  - rewrite (IH ns eq_refl). f_equal. apply bool_decide_ext. rewrite elem_of_cons. naive_solver.
Qed.

Lemma mapM_snoc insts names : mapM as_string insts = Some names →
  mapM as_string (insts ++ [NScalar realtime_tune]) = Some (names ++ [realtime_tune]).
Proof.
  rewrite !mapM_Some. intros H. apply Forall2_app; [done|]. by repeat constructor.
Qed.

Definition first_enabled (es : list EnableItem) : bool :=
  match find (λ e, is_system e) es with Some e => ei_enabled e | None => false end.

(** The loop, by what it makes of the daemon's list. *)
Lemma add_items_read items es :
  reads items es →
  match add_items items with
  | Throws => False
  | Returns b => b = true ∧ enter es = es
  | Items found items' =>
    reads (if found then items' else items' ++ [new_item]) (enter es)
  end.
Proof.
  induction 1 as [|item e items es He Hes IH].
  { simpl. constructor; [reflexivity|constructor]. }
  cbn [add_items enter]. rewrite (is_system_read _ _ He). destruct (is_system e) eqn:Es.
  2: { destruct (add_items items) as [|b|found items']; [done| |].
    - destruct IH as [-> ->]. done.
    - cbn [keep_item]. destruct found; by constructor. }
  pose proof He as He'. unfold read_item in He'.
  destruct (node_at item "name" ≫= as_string) as [name|]; [|done]. simpl in He'.
  destruct (node_at item "instances") as [n|]; [|done]. simpl in He'.
  destruct (negb (IsDefined n) || IsNull n).
  { injection He' as <-. done. }
  destruct n as [| | |insts|]; try done. simpl in He'.
  destruct (mapM as_string insts) as [names|] eqn:En; [|done]. simpl in He'. injection He' as He'.
  rewrite (has_realtime_read _ _ En). unfold enter_item.
  assert (ei_instance e = names ∧ ei_enabled e = false) as [-> ->] by (by subst e).
  cbn [orb]. case_bool_decide as Hin; constructor; try done.
  by apply (read_set_instances _ _ _ _ He), mapM_snoc.
Qed.

(** ** Leaving *)

Lemma other_instances_read insts names :
  mapM as_string insts = Some names →
  ∃ others, other_instances insts = Some others ∧
    mapM as_string others = Some (filter (λ i, i ≠ realtime_tune) names).
Proof.
  revert names. induction insts as [|inst insts IH]; intros names; simpl.
  { intros [= <-]. by exists []. }
  destruct (as_string inst) as [s|] eqn:Ei; [|done]. simpl.
  destruct (mapM as_string insts) as [ns|]; [|done]. intros [= <-].
  destruct (IH ns eq_refl) as (others & -> & Ho). simpl. eexists. split; [done|].
  rewrite filter_cons. case_decide as E.
  - by rewrite decide_False by (by intros ?).
  - rewrite decide_True by done. simpl. by rewrite Ei, Ho.
Qed.

Lemma remove_items_read items es :
  reads items es →
  match remove_items items with
  | Throws => False
  | Returns b => b = true ∧ existsb (λ e, is_system e && ei_enabled e) es = true
  | Items _ items' =>
    existsb (λ e, is_system e && ei_enabled e) es = false ∧ reads items' (omap leave_item es)
  end.
Proof.
  induction 1 as [|item e items es He Hes IH]; [by split; [|constructor]|].
  assert (IsMap item = true) as Hmap by (by destruct item).
  cbn [remove_items existsb]. rewrite Hmap, (is_system_read _ _ He), leave_cons.
  destruct (is_system e) eqn:Es.
  2: { unfold leave_item. rewrite Es. cbn [andb orb].
    destruct (remove_items items) as [|b|found items']; [done|done|].
    destruct IH as [IH1 IH2]. split; [done|]. by constructor. }
  pose proof He as He'. unfold read_item in He'.
  destruct (node_at item "name" ≫= as_string) as [name|]; [|done]. simpl in He'.
  destruct (node_at item "instances") as [n|]; [|done]. simpl in He'.
  destruct (negb (IsDefined n) || IsNull n) eqn:En0.
  { injection He' as <-. by destruct n. }
  destruct n as [| | |insts|]; try done. simpl in He'.
  destruct (mapM as_string insts) as [names|] eqn:En; [|done]. simpl in He'. injection He' as He'.
  destruct (other_instances_read _ _ En) as (others & -> & Ho). unfold leave_item. rewrite Es.
  assert (ei_instance e = names ∧ ei_enabled e = false) as [-> ->] by (by subst e).
  cbn [andb orb]. pose proof (read_set_instances _ _ _ _ He Ho) as Hset.
  destruct others as [|o others].
  - injection Ho as <-. done.
  - destruct (filter _ names) as [|n ns] eqn:Ef.
    { simpl in Ho. by destruct (as_string o), (mapM as_string others). }
    destruct (remove_items items) as [|b|found items']; [done|done|].
    destruct IH as [IH1 IH2]. split; [done|]. by constructor.
Qed.

(** C14. Entering real-time tuning in the daemon's configuration, and taking
    it out, refine two operations on the list of plugins that the daemon
    reads.  For a document whose list is in order, [AddRealtimeTuneToConfig]
    succeeds with a document from which the daemon reads the list with the
    instance entered, [RemoveRealtimeTuneFromConfig] succeeds, throwing
    nothing, with one from which it reads the list without, and neither
    changes what else the document holds.  Entering twice is entering once,
    and leaving undoes entering where no entry of the plugin was without
    other instances. *)
Theorem enable_list_refinement (l : list (string * Node)) (es : list EnableItem)
    (Hlist : lists l es) :
  let becomes doc es' := daemon_reads (default (NMap l) doc) es' ∧
    ∀ key, key ≠ "enable_list"%string → node_at (default (NMap l) doc) key = node_at (NMap l) key in
  (∃ doc, add_realtime (NMap l) = (true, doc) ∧ becomes doc (enter es)) ∧
  (∃ doc, remove_realtime (NMap l) = Ret (true, doc) ∧ becomes doc (leave es)) ∧
  enter (enter es) = enter es ∧ (Forall plain_entry es → leave (enter es) = es).
Proof.
  intros becomes. split_and!; [| |apply enter_idem|apply leave_enter].
  - unfold add_realtime. simpl.
    assert (reads (list_of l) es) as Hr.
    { unfold lists, list_of in *. destruct (find_key "enable_list" l); try done; subst es; constructor. }
    pose proof (add_items_read _ _ Hr) as H. destruct (add_items (list_of l)) as [|b|found items];
      [done| |].
    + destruct H as [-> ->]. exists None. split; [done|]. split; [by apply lists_read|done].
    + eexists. split; [done|]. split; [by apply lists_read, lists_set|].
      intros key Hk. simpl. by rewrite find_set_other.
  - unfold remove_realtime, lists in *. simpl.
    destruct (find_key "enable_list" l) as [| | |items|] eqn:El; try done.
    1, 2: subst es; exists None; split; [done|]; split; [|done]; apply lists_read; unfold lists; by rewrite El.
    pose proof (remove_items_read _ _ Hlist) as H. unfold leave.
    destruct (remove_items items) as [|b|found items']; [done| |].
    + destruct H as [-> ->]. exists None. split; [done|]. split; [|done].
      apply lists_read. unfold lists. by rewrite El.
    + destruct H as [-> H]. eexists. split; [done|]. split.
      * apply lists_read. unfold lists. rewrite find_set_key. destruct items'; [|done].
        by inversion H.
      * intros key Hk. simpl. by rewrite find_set_other.
Qed.
End documents.

(** A list with two plugins. *)
Definition listed : list (string * Node) :=
  [("enable_list", NSequence
      [NMap [("name", NScalar "libscenario.so")];
       NMap [("name", NScalar system_tune); ("instances", NSequence [NScalar "stealtask_tune"])]])]%string.

Lemma enable_list_refinement_witness :
  let es := [mkEnableItem [] "libscenario.so" true;
             mkEnableItem ["stealtask_tune"] system_tune false]%string in
  (∃ doc, add_realtime (YC := yaml_none) (NMap listed) = (true, doc) ∧
     daemon_reads (YC := yaml_none) (default (NMap listed) doc)
       [mkEnableItem [] "libscenario.so" true;
        mkEnableItem ["stealtask_tune"; realtime_tune] system_tune false]%string) ∧
  leave (enter es) = es.
Proof.
  intros es.
  destruct (enable_list_refinement (YC := yaml_none) listed es) as ((doc & E & Hd & _) & _ & _ & Hl).
  { unfold lists, reads. simpl. constructor; [reflexivity|]. constructor; [reflexivity|constructor]. }
  split.
  - exists doc. split; [exact E|]. exact Hd.
  - apply Hl. constructor; [intros He; vm_compute in He; discriminate He|].
    constructor; [|constructor]. intros _. split; [reflexivity|]. split; [discriminate|by_decide].
Defined.
