(* ===== verification/IrqFrontEnd.v ===== *)
(** * Interrupts of network queues
      (src/plugin/tune/system/network/hardirq_tune/irq_frontend.cpp, .h)

    The configuration gives patterns for the descriptions in
    /proc/interrupts; made for a device, a pattern finds the interrupt of
    each of its queues. *)

From Stdlib Require Import ZArith Lia Strings.Byte.
From stdpp Require Import base list strings gmap numbers.
From S2P Require Import Prelude Bytes StdString Utils DataTypes Registry Daemon Config Machine.

(** [std::regex]: whether a pattern compiles, and the groups of the first
    match, the whole match first; [None] when the search throws. *)
Class Regex := {
  re_compile : list byte → bool;
  re_search : list byte → list byte → option (option (list (list byte)))
}.

(** [EthQueInfo]. *)
Record EthQueInfo := mkEthQueInfo {
  eq_dev : string;
  eq_operstate : Z;
  eq_busInfo : string;
  eq_driver : string;
  eq_regex : list (list byte);
  eq_que2Irq : gmap Z Z
}.
Definition EthQueInfo0 : EthQueInfo := mkEthQueInfo "" 0 "" "" [] ∅.
Definition set_regex (l : list (list byte)) (e : EthQueInfo) : EthQueInfo :=
  mkEthQueInfo (eq_dev e) (eq_operstate e) (eq_busInfo e) (eq_driver e) l (eq_que2Irq e).
Definition set_que2Irq (m : gmap Z Z) (e : EthQueInfo) : EthQueInfo :=
  mkEthQueInfo (eq_dev e) (eq_operstate e) (eq_busInfo e) (eq_driver e) (eq_regex e) m.

(** ** /proc/interrupts *)

Definition tab : byte := x09.
Definition space : byte := x20.

(** [find_last_not_of(" ")] plus one; [None] is npos. *)
Fixpoint width (l : list byte) : option nat :=
  match l with
  | [] => None
  | b :: l =>
    match width l with
    | Some n => Some (S n)
    | None => if decide (b = space) then None else Some 1%nat
    end
  end.

Definition blank_char (b : byte) : bool := bool_decide (b = space) || bool_decide (b = tab).
Fixpoint drop_blanks (l : list byte) : list byte :=
  match l with
  | b :: l' => if blank_char b then drop_blanks l' else l
  | [] => []
  end.
(** The text between the first and the last character that is not blank; a
    text of blanks stays. *)
Definition trim_desc (desc : list byte) : list byte :=
  if forallb blank_char desc then desc
  else reverse (drop_blanks (reverse (drop_blanks desc))).

Fixpoint irq_lines (descStart : nat) (lines : list (list byte)) (irqs : gmap Z (list byte)) :
    gmap Z (list byte) :=
  match lines with
  | [] => irqs
  | line :: lines =>
    if decide (line = []) then irqs else
    match find_byte colon line with
    | None => irq_lines descStart lines irqs
    | Some colonPos =>
      match stoi (take colonPos line) with
      | Ret irqNum =>
        if decide (length line ≤ descStart)%nat then irq_lines descStart lines irqs
        else irq_lines descStart lines (<[irqNum := trim_desc (drop descStart line)]> irqs)
      | _ => irq_lines descStart lines irqs
      end
    end
  end.

Definition interrupts_path : string := "/proc/interrupts".

(** [content] is what the file holds, when it opens. *)
Definition GetIrqWithDesc (content : option (list byte)) : gmap Z (list byte) :=
  match content with
  | None => ∅
  | Some content =>
    match getline_all newline content with
    | [] => ∅
    | header :: lines =>
      match width header with
      | None => ∅
      | Some descStart => irq_lines descStart lines ∅
      end
    end
  end.

(** ** Patterns *)

Definition VAR_BUSINFO : list byte := bytes_of "VAR_BUSINFO".
Definition VAR_ETH : list byte := bytes_of "VAR_ETH".
Definition VAR_DRIVER : list byte := bytes_of "VAR_DRIVER".
Definition VAR_QUEUE : list byte := bytes_of "VAR_QUEUE".
Definition digits_group : list byte := bytes_of "(\d+)".

Definition instance_regex (e : EthQueInfo) (str : list byte) : list byte :=
  ReplaceString (ReplaceString (ReplaceString (ReplaceString str
    VAR_BUSINFO (bytes_of (eq_busInfo e)))
    VAR_ETH (bytes_of (eq_dev e)))
    VAR_DRIVER (bytes_of (eq_driver e)))
    VAR_QUEUE digits_group.
Definition AddRegex (regexSrc : list (list byte)) (e : EthQueInfo) : EthQueInfo :=
  set_regex (eq_regex e ++ map (instance_regex e) regexSrc) e.

Section irqs.
Context `{RE : Regex} `{HI : HashOrderInt} `{HO : HashOrder}.

(** The inner loop; the flag tells that the search threw. *)
Fixpoint match_irqs (re : list byte) (irqs : list (Z * list byte)) (que2Irq : gmap Z Z) :
    gmap Z Z * bool :=
  match irqs with
  | [] => (que2Irq, false)
  | (irqId, desc) :: irqs =>
    match re_search re desc with
    | None => (que2Irq, true)
    | Some (Some (_ :: group :: _)) =>
      match stoi group with
      | Ret que => match_irqs re irqs (<[que := irqId]> que2Irq)
      | _ => match_irqs re irqs que2Irq
      end
    | Some _ => match_irqs re irqs que2Irq
    end
  end.

(** The loop over the patterns: [passed] are those before the iterator.  A
    pattern that throws is erased, the iterator then stands on the next one,
    and is incremented. *)
Fixpoint regex_loop (irqs : list (Z * list byte)) (passed regex : list (list byte))
    (que2Irq : gmap Z Z) : outcome (list (list byte) * gmap Z Z) :=
  match regex with
  | [] => Ret (passed, que2Irq)
  | re :: regex =>
    let '(que2Irq, thrown) :=
      if re_compile re then match_irqs re irqs que2Irq else (que2Irq, true) in
    if thrown then
      match regex with
      | [] => Undef
      | next :: regex => regex_loop irqs (passed ++ [next]) regex que2Irq
      end
    else regex_loop irqs (passed ++ [re]) regex que2Irq
  end.
Definition UpdateQue2Irq (irqWithDesc : gmap Z (list byte)) (e : EthQueInfo) :
    outcome EthQueInfo :=
  match regex_loop (in_order irqWithDesc) [] (eq_regex e) (eq_que2Irq e) with
  | Ret (regex, que2Irq) => Ret (set_que2Irq que2Irq (set_regex regex e))
  | Throw ex => Throw ex
  | Undef => Undef
  end.

(** hns3 numbers the vectors of a queue in pairs. *)
Definition ProcSpecialEth (e : EthQueInfo) : EthQueInfo :=
  if decide (eq_driver e = "hns3"%string) then
    set_que2Irq (foldl (λ m qi, <[Z.quot qi.1 2 := qi.2]> m) ∅ (in_order (eq_que2Irq e))) e
  else e.

Fixpoint eth_loop (irqWithDesc : gmap Z (list byte)) (queueRegex : list (list byte))
    (devs : list (string * EthQueInfo)) (ethQueData : gmap string EthQueInfo) :
    outcome (gmap string EthQueInfo) :=
  match devs with
  | [] => Ret ethQueData
  | (dev, e) :: devs =>
    match UpdateQue2Irq irqWithDesc (AddRegex queueRegex e) with
    | Ret e =>
      eth_loop irqWithDesc queueRegex devs (<[dev := ProcSpecialEth e]> ethQueData)
    | Throw ex => Throw ex
    | Undef => Undef
    end
  end.
Definition GetEthQueData (interrupts : option (list byte)) (queueRegex : list (list byte))
    (ethQueData : gmap string EthQueInfo) : outcome (gmap string EthQueInfo) :=
  eth_loop (GetIrqWithDesc interrupts) queueRegex (named_in_order ethQueData) ethQueData.
End irqs.

(** ** The configuration *)

Record IrqFrontEnd := mkIrqFrontEnd { confPath : string; queRegex : list (list byte) }.
Definition IrqFrontEnd0 : IrqFrontEnd := mkIrqFrontEnd "" [].

Fixpoint drop_spaces (l : list byte) : list byte :=
  match l with
  | b :: l' => if is_space b then drop_spaces l' else l
  | [] => []
  end.
(** The two calls of [erase]. *)
Definition trim_line (line : list byte) : list byte :=
  reverse (drop_spaces (reverse (drop_spaces line))).

Definition section_name : list byte := bytes_of "[Queue2Irq]".
Definition regexp_prefix : list byte := bytes_of "REGEXP:".

Fixpoint conf_lines (inQueue2IrqSection : bool) (lines : list (list byte))
    (queRegex : list (list byte)) : list (list byte) :=
  match lines with
  | [] => queRegex
  | line :: lines =>
    let line := trim_line line in
    match line with
    | [] => conf_lines inQueue2IrqSection lines queRegex
    | b :: _ =>
      if decide (b = x23) then conf_lines inQueue2IrqSection lines queRegex else
      if decide (line = section_name) then conf_lines true lines queRegex else
      if negb inQueue2IrqSection then conf_lines inQueue2IrqSection lines queRegex else
      if decide (b = x5b) then queRegex else
      if prefixb regexp_prefix line then
        let pattern := drop (length regexp_prefix) line in
        conf_lines inQueue2IrqSection lines
          (if decide (pattern = []) then queRegex else queRegex ++ [pattern])
      else conf_lines inQueue2IrqSection lines queRegex
    end
  end.

(** [file] is what [path] holds, when it opens. *)
Definition InitConf (path : string) (file : option (list byte)) (f : IrqFrontEnd) :
    bool * IrqFrontEnd :=
  match file with
  | None => (false, mkIrqFrontEnd path (queRegex f))
  | Some content =>
    (true, mkIrqFrontEnd path (conf_lines false (getline_all newline content) (queRegex f)))
  end.
