(* ===== verification/HardIrq.v ===== *)
(** * Tuning of network interrupts
      (src/plugin/tune/system/network/hardirq_tune/hardirq_tune.cpp, .h)

    The instance counts, for every queue of a network device, on which NUMA
    nodes the threads run that receive its packets, and binds the queue's
    interrupt to a processor of the node with the most. *)

From Stdlib Require Import ZArith Lia Strings.Byte Floats.SpecFloat.
From stdpp Require Import base list strings gmap numbers.
From S2P Require Import Prelude Bytes StdString Utils DataTypes Registry Daemon Config Machine.
From S2P Require Import Doubles IrqFrontEnd.

(** ** Data *)

Definition INVAILD_IRQ_ID : Z := -1.
Definition INVALID_CPU_ID : Z := -1.
Definition NET_RXT_THRESHOLD : Z := 10.
Definition slidingWinLen : nat := 200.

Record RecNetQueue := mkRecNetQueue {
  rq_ts : Z; rq_queueMapping : Z; rq_skbaddr : Z; rq_dev : string }.
Record RecNetThreads := mkRecNetThreads { rt_ts : Z; rt_core : Z; rt_skbaddr : Z }.

Record QueueInfo := mkQueueInfo {
  qi_queueId : Z;
  qi_irqId : Z;
  qi_rxSum : Z;
  qi_lastBindCpu : Z;
  qi_rxMaxNode : Z;
  qi_numaRxTimes : list Z
}.
Definition QueueInfo0 : QueueInfo := mkQueueInfo 0 INVAILD_IRQ_ID 0 INVALID_CPU_ID 0 [].
Definition set_times (l : list Z) (q : QueueInfo) : QueueInfo :=
  mkQueueInfo (qi_queueId q) (qi_irqId q) (qi_rxSum q) (qi_lastBindCpu q) (qi_rxMaxNode q) l.
Definition set_irq (queueId irqId : Z) (q : QueueInfo) : QueueInfo :=
  mkQueueInfo queueId irqId (qi_rxSum q) (qi_lastBindCpu q) (qi_rxMaxNode q) (qi_numaRxTimes q).
Definition set_sum (rxSum rxMaxNode : Z) (q : QueueInfo) : QueueInfo :=
  mkQueueInfo (qi_queueId q) (qi_irqId q) rxSum (qi_lastBindCpu q) rxMaxNode (qi_numaRxTimes q).
Definition set_lastBindCpu (cpu : Z) (q : QueueInfo) : QueueInfo :=
  mkQueueInfo (qi_queueId q) (qi_irqId q) (qi_rxSum q) cpu (qi_rxMaxNode q) (qi_numaRxTimes q).

Record CpuSort := mkCpuSort { cs_cpu : Z; cs_ratio : double }.

(** [HardIrqMigUint]. *)
Record HardIrqMigUint := mkMigUint {
  mu_irqId : Z; mu_rxSum : Z; mu_queId : Z; mu_dev : string; mu_lastBindCore : Z;
  mu_preferredNode : Z; mu_priority : Z
}.

Record ThreadNumaInfo := mkThreadNumaInfo {
  tn_queRxTimes : gmap Z (gmap Z Z);
  tn_cyclesNumaRatio : list Z;
  tn_cyclesSum : Z
}.
Definition ThreadNumaInfo0 : ThreadNumaInfo := mkThreadNumaInfo ∅ [] 0.

(** [IrqInfo]. *)
Record IrqInfo := mkIrqInfo { ii_originAffinity : list byte; ii_lastAffinity : Z; ii_isTuned : bool }.
Definition IrqInfo0 : IrqInfo := mkIrqInfo [] 0 false.

(** What the instance posts to the scheduler's queue; the text of the debug
    log is left out. *)
Inductive Post :=
| PostSubscribe (topic : Topic)
| PostUnsubscribe (topic : Topic)
| PostPublish.

(** The members that [UpdateData] fills: the environment, and the samples of
    the period. *)
Record Env := mkEnv {
  numaNum : Z;
  cpu2Numa : list Z;
  envInit : bool;
  ifIdxToName : gmap Z string;
  cpuTimeDiff : list (list Z);
  cpuUtil : list (list double)
}.
Record Samples := mkSamples {
  queueData : list RecNetQueue;
  threadData : list RecNetThreads;
  threadNumaInfo : gmap Z ThreadNumaInfo;
  netDataInterval : Z
}.

Record NetHardIrq `{Machine} := mkNetHardIrq {
  hi_sys : sys;
  hi_posts : list Post;
  highNoiseSample : bool;
  subscribeTopics : list Topic;
  netQueue : gmap string (gmap Z QueueInfo);
  irqInfo : gmap Z IrqInfo;
  irqbalanceStatus : bool;
  hi_env : Env;
  hi_samples : Samples;
  conf : IrqFrontEnd;
  ethQueData : gmap string EthQueInfo;
  showVerbose : bool;
  debugTopicOpen : bool;
  runCnt : Z
}.

(** Setting one member. *)
Definition set_numaNum (v : Z) (e : Env) : Env :=
  mkEnv v (cpu2Numa e) (envInit e) (ifIdxToName e) (cpuTimeDiff e) (cpuUtil e).
Definition set_cpu2Numa (v : list Z) (e : Env) : Env :=
  mkEnv (numaNum e) v (envInit e) (ifIdxToName e) (cpuTimeDiff e) (cpuUtil e).
Definition set_envInit (v : bool) (e : Env) : Env :=
  mkEnv (numaNum e) (cpu2Numa e) v (ifIdxToName e) (cpuTimeDiff e) (cpuUtil e).
Definition set_ifIdxToName (v : gmap Z string) (e : Env) : Env :=
  mkEnv (numaNum e) (cpu2Numa e) (envInit e) v (cpuTimeDiff e) (cpuUtil e).
Definition set_cpuTimeDiff (v : list (list Z)) (e : Env) : Env :=
  mkEnv (numaNum e) (cpu2Numa e) (envInit e) (ifIdxToName e) v (cpuUtil e).
Definition set_cpuUtil (v : list (list double)) (e : Env) : Env :=
  mkEnv (numaNum e) (cpu2Numa e) (envInit e) (ifIdxToName e) (cpuTimeDiff e) v.
Definition set_queueData (v : list RecNetQueue) (d : Samples) : Samples :=
  mkSamples v (threadData d) (threadNumaInfo d) (netDataInterval d).
Definition set_threadData (v : list RecNetThreads) (d : Samples) : Samples :=
  mkSamples (queueData d) v (threadNumaInfo d) (netDataInterval d).
Definition set_threadNumaInfo (v : gmap Z ThreadNumaInfo) (d : Samples) : Samples :=
  mkSamples (queueData d) (threadData d) v (netDataInterval d).
Definition set_netDataInterval (v : Z) (d : Samples) : Samples :=
  mkSamples (queueData d) (threadData d) (threadNumaInfo d) v.

Section setters.
Context `{MA : Machine}.
Definition set_machine (v : sys) (s : NetHardIrq) : NetHardIrq :=
  mkNetHardIrq _ v (hi_posts s) (highNoiseSample s) (subscribeTopics s) (netQueue s) (irqInfo s)
    (irqbalanceStatus s) (hi_env s) (hi_samples s) (conf s) (ethQueData s) (showVerbose s)
    (debugTopicOpen s) (runCnt s).
Definition set_posts (v : list Post) (s : NetHardIrq) : NetHardIrq :=
  mkNetHardIrq _ (hi_sys s) v (highNoiseSample s) (subscribeTopics s) (netQueue s) (irqInfo s)
    (irqbalanceStatus s) (hi_env s) (hi_samples s) (conf s) (ethQueData s) (showVerbose s)
    (debugTopicOpen s) (runCnt s).
Definition set_highNoiseSample (v : bool) (s : NetHardIrq) : NetHardIrq :=
  mkNetHardIrq _ (hi_sys s) (hi_posts s) v (subscribeTopics s) (netQueue s) (irqInfo s)
    (irqbalanceStatus s) (hi_env s) (hi_samples s) (conf s) (ethQueData s) (showVerbose s)
    (debugTopicOpen s) (runCnt s).
Definition set_subscribeTopics (v : list Topic) (s : NetHardIrq) : NetHardIrq :=
  mkNetHardIrq _ (hi_sys s) (hi_posts s) (highNoiseSample s) v (netQueue s) (irqInfo s)
    (irqbalanceStatus s) (hi_env s) (hi_samples s) (conf s) (ethQueData s) (showVerbose s)
    (debugTopicOpen s) (runCnt s).
Definition set_netQueue (v : gmap string (gmap Z QueueInfo)) (s : NetHardIrq) : NetHardIrq :=
  mkNetHardIrq _ (hi_sys s) (hi_posts s) (highNoiseSample s) (subscribeTopics s) v (irqInfo s)
    (irqbalanceStatus s) (hi_env s) (hi_samples s) (conf s) (ethQueData s) (showVerbose s)
    (debugTopicOpen s) (runCnt s).
Definition set_irqInfo (v : gmap Z IrqInfo) (s : NetHardIrq) : NetHardIrq :=
  mkNetHardIrq _ (hi_sys s) (hi_posts s) (highNoiseSample s) (subscribeTopics s) (netQueue s) v
    (irqbalanceStatus s) (hi_env s) (hi_samples s) (conf s) (ethQueData s) (showVerbose s)
    (debugTopicOpen s) (runCnt s).
Definition set_irqbalanceStatus (v : bool) (s : NetHardIrq) : NetHardIrq :=
  mkNetHardIrq _ (hi_sys s) (hi_posts s) (highNoiseSample s) (subscribeTopics s) (netQueue s)
    (irqInfo s) v (hi_env s) (hi_samples s) (conf s) (ethQueData s) (showVerbose s)
    (debugTopicOpen s) (runCnt s).
Definition set_env (v : Env) (s : NetHardIrq) : NetHardIrq :=
  mkNetHardIrq _ (hi_sys s) (hi_posts s) (highNoiseSample s) (subscribeTopics s) (netQueue s)
    (irqInfo s) (irqbalanceStatus s) v (hi_samples s) (conf s) (ethQueData s) (showVerbose s)
    (debugTopicOpen s) (runCnt s).
Definition set_samples (v : Samples) (s : NetHardIrq) : NetHardIrq :=
  mkNetHardIrq _ (hi_sys s) (hi_posts s) (highNoiseSample s) (subscribeTopics s) (netQueue s)
    (irqInfo s) (irqbalanceStatus s) (hi_env s) v (conf s) (ethQueData s) (showVerbose s)
    (debugTopicOpen s) (runCnt s).
Definition set_conf (v : IrqFrontEnd) (s : NetHardIrq) : NetHardIrq :=
  mkNetHardIrq _ (hi_sys s) (hi_posts s) (highNoiseSample s) (subscribeTopics s) (netQueue s)
    (irqInfo s) (irqbalanceStatus s) (hi_env s) (hi_samples s) v (ethQueData s) (showVerbose s)
    (debugTopicOpen s) (runCnt s).
Definition set_ethQueData (v : gmap string EthQueInfo) (s : NetHardIrq) : NetHardIrq :=
  mkNetHardIrq _ (hi_sys s) (hi_posts s) (highNoiseSample s) (subscribeTopics s) (netQueue s)
    (irqInfo s) (irqbalanceStatus s) (hi_env s) (hi_samples s) (conf s) v (showVerbose s)
    (debugTopicOpen s) (runCnt s).
Definition set_showVerbose (v : bool) (s : NetHardIrq) : NetHardIrq :=
  mkNetHardIrq _ (hi_sys s) (hi_posts s) (highNoiseSample s) (subscribeTopics s) (netQueue s)
    (irqInfo s) (irqbalanceStatus s) (hi_env s) (hi_samples s) (conf s) (ethQueData s) v
    (debugTopicOpen s) (runCnt s).
Definition set_debugTopicOpen (v : bool) (s : NetHardIrq) : NetHardIrq :=
  mkNetHardIrq _ (hi_sys s) (hi_posts s) (highNoiseSample s) (subscribeTopics s) (netQueue s)
    (irqInfo s) (irqbalanceStatus s) (hi_env s) (hi_samples s) (conf s) (ethQueData s)
    (showVerbose s) v (runCnt s).
Definition set_runCnt (v : Z) (s : NetHardIrq) : NetHardIrq :=
  mkNetHardIrq _ (hi_sys s) (hi_posts s) (highNoiseSample s) (subscribeTopics s) (netQueue s)
    (irqInfo s) (irqbalanceStatus s) (hi_env s) (hi_samples s) (conf s) (ethQueData s)
    (showVerbose s) (debugTopicOpen s) v.

Definition on_env (f : Env → Env) (s : NetHardIrq) : NetHardIrq := set_env (f (hi_env s)) s.
Definition on_samples (f : Samples → Samples) (s : NetHardIrq) : NetHardIrq :=
  set_samples (f (hi_samples s)) s.
Definition post (p : Post) : St NetHardIrq unit := modify (λ s, set_posts (hi_posts s ++ [p]) s).

(** Code that only uses the machine. *)
Definition on_machine {A} (c : St sys A) : St NetHardIrq A := λ s,
  match c (hi_sys s) with
  | Ret (a, m) => Ret (a, set_machine m s)
  | Throw e => Throw e
  | Undef => Undef
  end.

(** The object after the constructor. *)
Definition NetHardIrq0 (m : sys) : NetHardIrq :=
  mkNetHardIrq _ m [] false [] ∅ ∅ false (mkEnv 0 [] false ∅ [] []) (mkSamples [] [] ∅ 0)
    IrqFrontEnd0 ∅ false false 0.
End setters.

(** ** Data from the collectors *)

(** [dataList.data[0]], by the topic's type; the samples of perf come with
    the raw record of each. *)
Inductive Payload :=
| PStatic (d : EnvStaticInfo)
| PCpuUtil (d : option EnvCpuUtilParam)
| PSampling (d : PmuCountingData) (raws : list (list byte))
| PBase (d : NetIntfBaseDataList)
| PDriver (d : NetIntfDriverDataList)
| PThreadQue (d : NetThreadQueDataList).

Record HData := mkHData { hd_topic : Topic; hd_data : list Payload }.

Definition OE_ENV_INFO : string := "env_info_collector".
Definition OE_NET_INTF_INFO : string := "net_interface_info".
Definition OE_PMU_SAMPLING_COLLECTOR : string := "pmu_sampling_collector".
Definition OE_NETHARDIRQ_TUNE : string := "net_hard_irq_tune".
Definition OE_NETWORK_INTERFACE_BASE_TOPIC : string := "base".
Definition OE_NETWORK_INTERFACE_DRIVER_TOPIC : string := "driver".
Definition OE_NET_THREAD_QUE_DATA : string := "net_thread_que_data".
Definition OE_PARA_THREAD_RECV_QUE_CNT : string := "thread_recv_que_cnt".
Definition OE_TOPIC_NET_HIRQ_TUNE_DEBUG_INFO : string := "net_hardirq_tune_debug_info".
Definition topic_copy : string := "skb:skb_copy_datagram_iovec".
Definition topic_gro : string := "net:napi_gro_receive_entry".

Definition resize {A} (n : nat) (a : A) (l : list A) : list A :=
  take n l ++ repeat a (n - length l).
(** [+] and [++] on [int]. *)
Definition add_int (a b : Z) : option Z :=
  if decide (in_range CInt (a + b)) then Some (a + b) else None.
Definition add_u64 (a b : Z) : Z := wrap CUlong (a + b).

(** The trace records, laid out as the kernel's format files say. *)
Definition field (t : ctype) (off : nat) (raw : list byte) : Z :=
  of_bytes t (take (sizeof t) (drop off raw)).
Definition gro_size : nat := 120.
Definition copy_size : nat := 24.
Definition name_len : nat := 64.

(** [NapiGroRecEntryResolve], and the conversion of the name to a string: a
    name that fills the array has no end. *)
Definition resolve_gro (ts : Z) (raw : list byte) : option RecNetQueue :=
  if decide (length raw < gro_size)%nat then None else
  let name := drop (Z.to_nat (Z.land (field CUint 8 raw) 65535)) raw in
  if decide (x00 ∉ name) then None else
  let text := until_nul name in
  if decide (name_len ≤ length text + 1)%nat then None else
  Some (mkRecNetQueue ts (wrap CUlong (field CUlong 16 raw - 1)) (field CUlong 24 raw) (str_of text)).
Definition resolve_copy (ts cpu : Z) (raw : list byte) : option RecNetThreads :=
  if decide (length raw < copy_size)%nat then None else
  Some (mkRecNetThreads ts (wrap CUint cpu) (field CUlong 8 raw)).

Section updates.
Context `{MA : Machine}.

(** The payload of the type that the code casts to. *)
Definition cast {A} (f : Payload → option A) (d : HData) : St NetHardIrq A :=
  deref (head (hd_data d) ≫= f).

Definition UpdateSystemInfo (d : HData) : St NetHardIrq unit :=
  s ← get;
  if decide (topicName (hd_topic d) = "static"%string ∧ envInit (hi_env s) = false) then
    i ← cast (λ p, match p with PStatic i => Some i | _ => None end) d;
    if decide (es_cpuNumConfig i < 0) then throw LengthError else
    nodes ← deref (array (es_cpuNumConfig i) (es_cpu2Node i));
    modify (on_env (λ e, set_envInit true
      (set_cpu2Numa nodes (set_numaNum (wrap CUint (es_numaNum i)) e))))
  else mret tt.

Definition UpdateQueueData (samples : list (PmuData * list byte)) : St NetHardIrq unit :=
  for_each samples (λ x,
    unit ← deref (resolve_gro (pd_ts x.1) x.2);
    modify (on_samples (λ d, set_queueData (queueData d ++ [unit]) d))).
Definition UpdateThreadData (samples : list (PmuData * list byte)) : St NetHardIrq unit :=
  for_each samples (λ x,
    unit ← deref (resolve_copy (pd_ts x.1) (pd_cpu x.1) x.2);
    modify (on_samples (λ d, set_threadData (threadData d ++ [unit]) d))).

Definition update_thread (tid : Z) (f : ThreadNumaInfo → ThreadNumaInfo) (d : Samples) : Samples :=
  set_threadNumaInfo (<[tid := f (default ThreadNumaInfo0 (threadNumaInfo d !! tid))]>
    (threadNumaInfo d)) d.

Definition add_cycles (numa : nat) (period : Z) (ratio : list Z) (t : ThreadNumaInfo) :
    ThreadNumaInfo :=
  mkThreadNumaInfo (tn_queRxTimes t) (alter (λ c, add_u64 c period) numa ratio)
    (add_u64 (tn_cyclesSum t) period).

Definition UpdateCyclesData (samples : list (PmuData * list byte)) : St NetHardIrq unit :=
  s ← get;
  if negb (envInit (hi_env s)) then mret tt else
  for_each samples (λ x,
    s ← get;
    let tid := wrap CUint (pd_tid x.1) in
    let tmpData := default ThreadNumaInfo0 (threadNumaInfo (hi_samples s) !! tid) in
    let ratio := match tn_cyclesNumaRatio tmpData with
                 | [] => repeat 0 (Z.to_nat (numaNum (hi_env s)))
                 | l => l end in
    numa ← deref (at_index (cpu2Numa (hi_env s)) (pd_cpu x.1));
    _ ← deref (at_index ratio numa);
    modify (on_samples (update_thread tid (add_cycles (Z.to_nat numa) (pd_period x.1) ratio)))).

Definition samples_of (p : PmuCountingData) (raws : list (list byte)) :
    option (list (PmuData * list byte)) :=
  array (pc_len p) (zip (pc_pmuData p) raws).

(** [dataList.data[0]] is read whatever the topic is. *)
Definition UpdatePmuSampleInfo (d : HData) : St NetHardIrq unit :=
  _ ← deref (head (hd_data d));
  let sampling := cast (λ p, match p with PSampling p raws => Some (p, raws) | _ => None end) d in
  let name := topicName (hd_topic d) in
  if decide (name = topic_copy) then
    '(p, raws) ← sampling;
    l ← deref (samples_of p raws);
    UpdateThreadData l ;;
    s ← get;
    interval ← deref (add_int (netDataInterval (hi_samples s)) (pc_interval p));
    modify (on_samples (set_netDataInterval interval))
  else if decide (name = topic_gro) then
    '(p, raws) ← sampling; l ← deref (samples_of p raws); UpdateQueueData l
  else if decide (name = "cycles"%string) then
    '(p, raws) ← sampling; l ← deref (samples_of p raws); UpdateCyclesData l
  else mret tt.

Definition ENV_DATA_NOT_READY : Z := 0.

Definition kinds : nat := Z.to_nat CPU_UTIL_TYPE_MAX.

(** The first [n] rows of the table, each of [CPU_UTIL_TYPE_MAX] times. *)
Definition read_times (n : nat) (times : list (list Z)) : option (list (list Z)) :=
  mapM (λ i, row ← times !! i; array CPU_UTIL_TYPE_MAX row) (seq 0 n).

Definition UpdateCpuInfo (data : option EnvCpuUtilParam) : St NetHardIrq unit :=
  match data with
  | None => mret tt
  | Some data =>
    if decide (eu_dataReady data = ENV_DATA_NOT_READY) then mret tt else
    n ← deref (add_int (eu_cpuNumConfig data) 1);
    if decide (n < 0) then throw LengthError else
    let cpuNumConfig := Z.to_nat n in
    (modify (on_env (λ e,
      if decide (length (cpuTimeDiff e) < cpuNumConfig)%nat then
        let rows {A} (a : A) (l : list (list A)) :=
          map (resize kinds a) (resize cpuNumConfig [] l) in
        set_cpuUtil (rows d_zero (cpuUtil e)) (set_cpuTimeDiff (rows 0 (cpuTimeDiff e)) e)
      else e))) ;;
    s ← get;
    times ← deref (read_times (length (cpuTimeDiff (hi_env s))) (eu_times data));
    modify (on_env (set_cpuTimeDiff times))
  end.

Definition UpdateEnvInfo (d : HData) : St NetHardIrq unit :=
  _ ← deref (head (hd_data d));
  if decide (topicName (hd_topic d) = "cpu_util"%string) then
    data ← cast (λ p, match p with PCpuUtil p => Some p | _ => None end) d; UpdateCpuInfo data
  else mret tt.

(** [ethQueData[dev]], changed. *)
Definition update_eth (dev : string) (f : EthQueInfo → EthQueInfo)
    (m : gmap string EthQueInfo) : gmap string EthQueInfo :=
  <[dev := f (default EthQueInfo0 (m !! dev))]> m.

Definition UpdateNetBaseInfo (l : list NetworkInterfaceData) (s : NetHardIrq) : NetHardIrq :=
  foldl (λ s i,
    let dev := ni_name i in
    on_env (λ e, set_ifIdxToName (<[wrap CUint (ni_ifindex i) := dev]> (ifIdxToName e)) e)
      (set_ethQueData (update_eth dev (λ e, mkEthQueInfo dev (ni_operstate i) (eq_busInfo e)
         (eq_driver e) (eq_regex e) (eq_que2Irq e)) (ethQueData s)) s)) s l.

Definition UpdateNetDriverInfo (l : list NetworkInterfaceDriverData) (s : NetHardIrq) : NetHardIrq :=
  foldl (λ s i,
    let dev := nd_name i in
    set_ethQueData (update_eth dev (λ e, mkEthQueInfo dev (eq_operstate e) (nd_busInfo i)
      (nd_driver i) (eq_regex e) (eq_que2Irq e)) (ethQueData s)) s) s l.

Definition add_rx (ifIndex queueId times : Z) (t : ThreadNumaInfo) : ThreadNumaInfo :=
  let ques := default ∅ (tn_queRxTimes t !! ifIndex) in
  let old := default 0 (ques !! queueId) in
  mkThreadNumaInfo (<[ifIndex := <[queueId := add_u64 old times]> ques]> (tn_queRxTimes t))
    (tn_cyclesNumaRatio t) (tn_cyclesSum t).

Definition UpdateThreadNumaInfo (l : list NetThreadQueData) (s : NetHardIrq) : NetHardIrq :=
  foldl (λ s q, on_samples (update_thread (wrap CUint (nq_tid q))
    (add_rx (nq_ifIndex q) (nq_queueId q) (nq_times q))) s) s l.

Definition UpdateNetIntfInfo (d : HData) : St NetHardIrq unit :=
  let topic := hd_topic d in
  if decide (instanceName topic ≠ OE_NET_INTF_INFO) then mret tt else
  if decide (topicName topic = OE_NETWORK_INTERFACE_BASE_TOPIC) then
    p ← cast (λ p, match p with PBase p => Some p | _ => None end) d;
    l ← deref (array (nb_count p) (nb_base p));
    modify (UpdateNetBaseInfo l)
  else if decide (topicName topic = OE_NETWORK_INTERFACE_DRIVER_TOPIC) then
    p ← cast (λ p, match p with PDriver p => Some p | _ => None end) d;
    l ← deref (array (ndl_count p) (ndl_driver p));
    modify (UpdateNetDriverInfo l)
  else if decide (topicName topic = OE_NET_THREAD_QUE_DATA ∧
                  params topic = OE_PARA_THREAD_RECV_QUE_CNT) then
    p ← cast (λ p, match p with PThreadQue p => Some p | _ => None end) d;
    l ← deref (array (nql_count p) (nql_queData p));
    modify (UpdateThreadNumaInfo l)
  else mret tt.

Definition NetHardIrq_UpdateData (d : HData) : St NetHardIrq unit :=
  UpdateSystemInfo d ;; UpdatePmuSampleInfo d ;; UpdateEnvInfo d ;; UpdateNetIntfInfo d.
End updates.

(** ** Matching packets and threads *)

Section matching.
Context `{MA : Machine}.

(** [netQueue[dev][queueId]], changed. *)
Definition update_queue (dev : string) (queueId : Z) (f : QueueInfo → QueueInfo)
    (m : gmap string (gmap Z QueueInfo)) : gmap string (gmap Z QueueInfo) :=
  let queues := default ∅ (m !! dev) in
  <[dev := <[queueId := f (default QueueInfo0 (queues !! queueId))]> queues]> m.
Definition queue_at (dev : string) (queueId : Z) (m : gmap string (gmap Z QueueInfo)) : QueueInfo :=
  default QueueInfo0 (default ∅ (m !! dev) !! queueId).

(** The counters, at least one for each node. *)
Definition grown (n : nat) (times : list Z) : list Z :=
  if decide (length times < n)%nat then resize n 0 times else times.

Definition UpdateThreadAndQueueInfo (que : RecNetQueue) (thr : RecNetThreads) : St NetHardIrq unit :=
  s ← get;
  let queueId := wrap CInt (rq_queueMapping que) in
  node ← deref (at_index (cpu2Numa (hi_env s)) (wrap CInt (rt_core thr)));
  let times := grown (Z.to_nat (numaNum (hi_env s)))
                 (qi_numaRxTimes (queue_at (rq_dev que) queueId (netQueue s))) in
  old ← deref (at_index times node);
  new ← deref (add_int old 1);
  modify (λ s, set_netQueue (update_queue (rq_dev que) queueId
    (set_times (<[Z.to_nat node := new]> times)) (netQueue s)) s).

(** The first element from position [id] on that satisfies [P], with its
    position. *)
Fixpoint find_at {A} (P : A → bool) (id : nat) (l : list A) : option (nat * A) :=
  match l with
  | [] => None
  | a :: l => if P a then Some (id, a) else find_at P (S id) l
  end.

(** One turn of the loop over [queueData], with [id]: the first thread that
    runs after the packet, then the thread of the same packet in the window
    from there.  When there is none after, [id] stays. *)
Definition window (id : nat) (que : RecNetQueue) (threads : list RecNetThreads) :
    nat * option RecNetThreads :=
  let idNext :=
    match find_at (λ t, bool_decide (rq_ts que ≤ rt_ts t)) id (drop id threads) with
    | Some (j, _) => j
    | None => id
    end in
  (idNext, snd <$> find_at (λ t, bool_decide (rq_skbaddr que = rt_skbaddr t)) idNext
             (take slidingWinLen (drop idNext threads))).

Fixpoint match_loop (threads : list RecNetThreads) (id : nat) (queues : list RecNetQueue) :
    St NetHardIrq unit :=
  match queues with
  | [] => mret tt
  | que :: queues =>
    let '(id, thr) := window id que threads in
    (match thr with Some thr => UpdateThreadAndQueueInfo que thr | None => mret tt end) ;;
    match_loop threads id queues
  end.

Definition MatchThreadAndQueue : St NetHardIrq unit :=
  s ← get;
  let d := hi_samples s in
  match_loop (threadData d) 0 (queueData d) ;;
  modify (on_samples (λ d, set_threadData [] (set_queueData [] d))).

(** [info.numaRxTimes[n] += rxTimes * ratio[n]]. *)
Definition add_share (rxTimes : Z) (ratio : double) (times : Z) : outcome Z :=
  d_to_int CInt (d_add (d_of_Z times) (d_mul (d_of_Z rxTimes) ratio)).
Fixpoint add_shares (rxTimes : Z) (ratio : list double) (times : list Z) : outcome (list Z) :=
  match ratio, times with
  | r :: ratio, t :: times =>
    match add_share rxTimes r t, add_shares rxTimes ratio times with
    | Ret t, Ret times => Ret (t :: times)
    | _, _ => Undef
    end
  | _, _ => Ret times
  end.

(** [ratio]: a node without samples has none; more nodes than [numaNum] is
    past the end. *)
Definition numa_ratio (n : nat) (t : ThreadNumaInfo) : option (list double) :=
  let ratios := map (λ c, d_div (d_of_Z c) (d_of_Z (tn_cyclesSum t))) (tn_cyclesNumaRatio t) in
  if decide (length ratios ≤ n)%nat
  then Some (ratios ++ repeat d_zero (n - length ratios)) else None.

Definition add_queue_rx (dev : string) (ratio : list double) (q : Z * Z) : St NetHardIrq unit :=
  s ← get;
  let times := grown (Z.to_nat (numaNum (hi_env s)))
                 (qi_numaRxTimes (queue_at dev q.1 (netQueue s))) in
  times ← lift (add_shares q.2 ratio times);
  modify (λ s, set_netQueue (update_queue dev q.1 (set_times times) (netQueue s)) s).

Context `{HI : HashOrderInt}.

Definition thread_rx (t : ThreadNumaInfo) : St NetHardIrq unit :=
  if decide (tn_queRxTimes t = ∅) then mret tt else
  s ← get;
  ratio ← deref (numa_ratio (Z.to_nat (numaNum (hi_env s))) t);
  for_each (in_order (tn_queRxTimes t)) (λ dev,
    s ← get;
    match ifIdxToName (hi_env s) !! wrap CUint dev.1 with
    | None => mret tt
    | Some devName =>
      if decide (devName = EmptyString) then mret tt
      else for_each (in_order dev.2) (add_queue_rx devName ratio)
    end).

Definition MatchThreadQueAndNuma : St NetHardIrq unit :=
  s ← get; for_each (in_order (threadNumaInfo (hi_samples s))) (λ t, thread_rx t.2).
End matching.

(** ** Tuning *)

(** [std::sort]: which of the equal elements comes first is not told. *)
Class StdSort := {
  std_sort {A} (lt : A → A → bool) (l : list A) : list A;
  std_sort_perm {A} (lt : A → A → bool) (l : list A) : std_sort lt l ≡ₚ l
}.

Definition CPU_IDLE : nat := 3.
Definition CPU_IRQ : nat := 5.
Definition CPU_SOFTIRQ : nat := 6.
Definition CPU_TIME_SUM : nat := 10.

(** The value of a [float]. *)
Definition d_to_float (x : double) : double :=
  match x with
  | S754_finite s m e => binary_normalize 24 128 (d_signed s m) e s
  | _ => x
  end.

Section tune.
Context `{MA : Machine} `{HI : HashOrderInt} `{HO : HashOrder} `{SS : StdSort}.

Definition on_queues (f : string → Z → QueueInfo → QueueInfo)
    (m : gmap string (gmap Z QueueInfo)) : gmap string (gmap Z QueueInfo) :=
  map_imap (λ dev queues, Some (map_imap (λ que info, Some (f dev que info)) queues)) m.

Definition add_irq (eths : gmap string EthQueInfo) (dev : string) (queueId : Z) (info : QueueInfo) :
    QueueInfo :=
  match (e ← eths !! dev; eq_que2Irq e !! queueId) with
  | Some irqId => set_irq queueId irqId info
  | None => info
  end.
Definition AddIrqToQueueInfo : St NetHardIrq unit :=
  modify (λ s, set_netQueue (on_queues (add_irq (ethQueData s)) (netQueue s)) s).

Definition valid_queues (queues : gmap Z QueueInfo) : option (gmap Z QueueInfo) :=
  let queues := filter (λ kv, qi_irqId kv.2 ≠ INVAILD_IRQ_ID) queues in
  if decide (queues = ∅) then None else Some queues.
Definition ClearInvalidQueueInfo : St NetHardIrq unit :=
  modify (λ s, set_netQueue (omap valid_queues (netQueue s)) s).

(** [0.0] where nothing was counted, else the share in percent. *)
Definition util (row : list Z) (type : nat) : option double :=
  sum ← row !! CPU_TIME_SUM;
  t ← row !! type;
  Some (d_to_float (if decide (sum = 0) then d_zero
                    else d_div (d_mul (d_of_Z t) (d_of_Z 100)) (d_of_Z sum))).
Definition CalCpuUtil : St NetHardIrq unit :=
  s ← get;
  let e := hi_env s in
  rows ← deref (mapM (λ cpu, row ← cpuTimeDiff e !! cpu; mapM (util row) (seq 0 kinds))
                  (seq 0 (length (cpuUtil e))));
  modify (on_env (set_cpuUtil rows)).

(** The loop over the nodes: [maxTimes], [maxNode] and [rxSum]. *)
Fixpoint max_node (i : Z) (times : list Z) (maxTimes maxNode rxSum : Z) : option (Z * Z) :=
  match times with
  | [] => Some (maxNode, rxSum)
  | t :: times =>
    sum ← add_int rxSum t;
    if decide (maxTimes ≤ t) then max_node (i + 1) times t i sum
    else max_node (i + 1) times maxTimes maxNode sum
  end.
Definition TunePreprocessing : St NetHardIrq unit :=
  s ← get;
  for_each (named_in_order (netQueue s)) (λ dev, for_each (in_order dev.2) (λ que,
    '(maxNode, rxSum) ← deref (max_node 0 (qi_numaRxTimes que.2) 0 0 0);
    modify (λ s, set_netQueue (update_queue dev.1 que.1 (set_sum rxSum maxNode) (netQueue s)) s))).

(** [100.0 - idle - irq - softirq], as a [float]. *)
Definition busy (row : list double) : option double :=
  idle ← row !! CPU_IDLE;
  irq ← row !! CPU_IRQ;
  softirq ← row !! CPU_SOFTIRQ;
  Some (d_to_float (d_sub (d_sub (d_sub (d_of_Z 100) idle) irq) softirq)).

Fixpoint numa_lists (cpu : nat) (nodes : list Z) (utils : list (list double))
    (rst : list (list CpuSort)) : option (list (list CpuSort)) :=
  match nodes with
  | [] => Some rst
  | nid :: nodes =>
    _ ← at_index rst nid;
    ratio ← utils !! cpu ≫= busy;
    numa_lists (S cpu) nodes utils
      (alter (λ l, l ++ [mkCpuSort (Z.of_nat cpu) ratio]) (Z.to_nat nid) rst)
  end.
Definition less_busy (a b : CpuSort) : bool := d_lt (cs_ratio a) (cs_ratio b).
Definition SortNumaCpuUtil (e : Env) : option (list (list CpuSort)) :=
  rst ← numa_lists 0 (cpu2Numa e) (cpuUtil e) (repeat [] (Z.to_nat (numaNum e)));
  Some (map (std_sort less_busy) rst).

(** The units of the queues that are busy enough. *)
Definition mig_unit (e : Env) (dev : string) (info : QueueInfo) : option HardIrqMigUint :=
  let last := qi_lastBindCpu info in
  priority ← (if decide (last = INVALID_CPU_ID) then Some 0 else
              node ← at_index (cpu2Numa e) last;
              Some (if decide (node = qi_rxMaxNode info) then 1 else 0));
  Some (mkMigUint (qi_irqId info) (qi_rxSum info) (qi_queueId info) dev last
          (qi_rxMaxNode info) priority).
Definition busy_queues (s : NetHardIrq) : list (string * QueueInfo) :=
  mjoin (map (λ dev : string * gmap Z QueueInfo, map (pair dev.1)
    (filter (λ info, NET_RXT_THRESHOLD ≤ qi_rxSum info) (in_order dev.2).*2))
    (named_in_order (netQueue s))).
Definition mig_units (s : NetHardIrq) : option (list HardIrqMigUint) :=
  mapM (λ x, mig_unit (hi_env s) x.1 x.2) (busy_queues s).

Definition before (a b : HardIrqMigUint) : bool :=
  if decide (mu_priority a ≠ mu_priority b) then bool_decide (mu_priority b < mu_priority a)
  else bool_decide (mu_rxSum b < mu_rxSum a).

Definition set_tuned (irqId cpu : Z) (m : gmap Z IrqInfo) : gmap Z IrqInfo :=
  let i := default IrqInfo0 (m !! irqId) in
  <[irqId := mkIrqInfo (ii_originAffinity i) cpu true]> m.

(** One turn of the loop over the units, with [newBindCnt]. *)
Definition migrate_unit (cpuSort : list (list CpuSort)) (newBindCnt : list Z)
    (unit : HardIrqMigUint) : St NetHardIrq (list Z) :=
  s ← get;
  let e := hi_env s in
  let preferredNode := mu_preferredNode unit in
  stays ← (if decide (mu_lastBindCore unit = -1) then mret false else
           node ← deref (at_index (cpu2Numa e) (mu_lastBindCore unit));
           mret (bool_decide (preferredNode = node)));
  if (stays : bool) then mret newBindCnt else
  sortedList ← deref (at_index cpuSort preferredNode);
  cnt ← deref (at_index newBindCnt preferredNode);
  if decide (numaNum e = 0) then undef else
  cpu ← deref (cs_cpu <$> at_index sortedList (wrap CUint cnt `mod` numaNum e));
  err ← on_machine (IrqSetSmpAffinity (mu_irqId unit) (to_string cpu));
  if decide (err ≠ 0) then mret newBindCnt else
  next ← deref (add_int cnt 1);
  modify (λ s, set_irqInfo (set_tuned (mu_irqId unit) cpu (irqInfo s))
    (set_netQueue (update_queue (mu_dev unit) (mu_queId unit) (set_lastBindCpu cpu) (netQueue s)) s)) ;;
  mret (<[Z.to_nat preferredNode := next]> newBindCnt).

Fixpoint migrate_units (cpuSort : list (list CpuSort)) (newBindCnt : list Z)
    (units : list HardIrqMigUint) : St NetHardIrq unit :=
  match units with
  | [] => mret tt
  | unit :: units =>
    newBindCnt ← migrate_unit cpuSort newBindCnt unit; migrate_units cpuSort newBindCnt units
  end.

Definition MigrateHardIrq : St NetHardIrq unit :=
  s ← get;
  units ← deref (mig_units s);
  cpuSort ← deref (SortNumaCpuUtil (hi_env s));
  migrate_units cpuSort (repeat 0 (Z.to_nat (numaNum (hi_env s)))) (std_sort before units).

Definition Tune : St NetHardIrq unit :=
  AddIrqToQueueInfo ;; ClearInvalidQueueInfo ;; TunePreprocessing ;; MigrateHardIrq.

Definition ResetCpuInfo : St NetHardIrq unit :=
  modify (on_env (λ e, set_cpuTimeDiff (map (map (λ _, 0)) (cpuTimeDiff e)) e)).
Definition ResetNetQueue : St NetHardIrq unit :=
  modify (λ s, set_netQueue (on_queues (λ _ _ info,
    set_times (map (λ _, 0) (qi_numaRxTimes info)) info) (netQueue s)) s).
End tune.

(** ** Enabling and running *)

Definition irq_dir : string := "/proc/irq".
Definition HARDIRQ_CONFIG_PATH : string := "/etc/oeAware/plugin/hardirq_tune.conf".

Section instance.
Context `{MA : Machine} `{HI : HashOrderInt} `{HO : HashOrder} `{SS : StdSort} `{RE : Regex}.

(** One entry of the directory. *)
Definition irq_entry (name : string) : St NetHardIrq unit :=
  match bytes_of name with
  | b :: _ =>
    if negb (is_digit b) then mret tt else
    match stoi (bytes_of name) with
    | Ret irqNum =>
      affinity ← on_machine (IrqGetSmpAffinity irqNum);
      modify (λ s, set_irqInfo
        (let i := default IrqInfo0 (irqInfo s !! irqNum) in
         <[irqNum := mkIrqInfo affinity (ii_lastAffinity i) (ii_isTuned i)]> (irqInfo s)) s)
    | _ => mret tt
    end
  | [] => mret tt
  end.
Definition InitIrqInfo : St NetHardIrq unit :=
  s ← get;
  match sys_dir (hi_sys s) irq_dir with
  | None => mret tt
  | Some names => for_each names irq_entry
  end.
Definition NetHardIrq_Init : St NetHardIrq unit :=
  modify (set_showVerbose false) ;; modify (set_runCnt 0) ;; InitIrqInfo.

Definition cmdHelp : list string := ["netdata"; "verbose"]%string.

(** The result, and the two switches. *)
Definition ResolveCmd (param : list byte) (verbose noise : bool) : bool * bool * bool :=
  if decide (param = []) then (true, verbose, noise) else
  let paramsMap := GetKeyValueFromString param in
  if decide (map_Exists (λ key _, key ∉ bytes_of <$> cmdHelp) paramsMap)
  then (false, verbose, noise) else
  let on_verbose (ok verbose : bool) :=
    if negb ok then (false, verbose, noise) else
    match paramsMap !! bytes_of "netdata" with
    | None => (true, verbose, noise)
    | Some v =>
      (true, verbose,
       if decide (v = bytes_of "thread_recv_que") then false
       else if decide (v = bytes_of "skb_copy") then true else noise)
    end in
  match paramsMap !! bytes_of "verbose" with
  | None => on_verbose true verbose
  | Some v =>
    if decide (v = bytes_of "on") then on_verbose true true
    else if decide (v = bytes_of "off") then on_verbose true false
    else on_verbose false verbose
  end.

(** What is subscribed to, by the source of the network data. *)
Definition topics_of (highNoiseSample : bool) : list Topic :=
  [mkTopic OE_ENV_INFO "static" ""; mkTopic OE_ENV_INFO "cpu_util" "";
   mkTopic OE_NET_INTF_INFO OE_NETWORK_INTERFACE_BASE_TOPIC "operstate_up";
   mkTopic OE_NET_INTF_INFO OE_NETWORK_INTERFACE_DRIVER_TOPIC "operstate_up"] ++
  (if highNoiseSample
   then [mkTopic OE_PMU_SAMPLING_COLLECTOR topic_copy "";
         mkTopic OE_PMU_SAMPLING_COLLECTOR topic_gro ""]
   else [mkTopic OE_NET_INTF_INFO OE_NET_THREAD_QUE_DATA OE_PARA_THREAD_RECV_QUE_CNT;
         mkTopic OE_PMU_SAMPLING_COLLECTOR "cycles" ""]).

(** Whether it is enabled; the text of a failure is left out. *)
Definition NetHardIrq_Enable (param : list byte) : St NetHardIrq bool :=
  modify (set_irqbalanceStatus false) ;;
  NetHardIrq_Init ;;
  s ← get;
  let '(ok, verbose, noise) := ResolveCmd param (showVerbose s) (highNoiseSample s) in
  modify (λ s, set_highNoiseSample noise (set_showVerbose verbose s)) ;;
  if negb ok then mret false else
  s ← get;
  let '(read, front) := InitConf HARDIRQ_CONFIG_PATH (sys_read (hi_sys s) HARDIRQ_CONFIG_PATH)
                          (conf s) in
  modify (set_conf front) ;;
  if negb read then mret false else
  '(known, isActive) ← on_machine (ServiceIsActive "irqbalance");
  (if (known : bool) then modify (set_irqbalanceStatus isActive) else mret tt) ;;
  s ← get;
  (if irqbalanceStatus s then on_machine (ServiceControl "irqbalance" "stop") ;; mret tt
   else mret tt) ;;
  modify (set_subscribeTopics (topics_of noise)) ;;
  for_each (topics_of noise) (λ t, post (PostSubscribe t)) ;;
  mret true.

Definition restore_irq (i : Z * IrqInfo) : St NetHardIrq unit :=
  if negb (ii_isTuned i.2) then mret tt
  else on_machine (IrqSetSmpAffinity i.1 (ii_originAffinity i.2)) ;; mret tt.

Definition NetHardIrq_Disable : St NetHardIrq unit :=
  s ← get;
  (if irqbalanceStatus s then on_machine (ServiceControl "irqbalance" "start") ;; mret tt
   else mret tt) ;;
  for_each (subscribeTopics s) (λ t, post (PostUnsubscribe t)) ;;
  for_each (in_order (irqInfo s)) restore_irq ;;
  modify (λ s, set_highNoiseSample false (set_subscribeTopics [] (set_netQueue ∅
    (set_irqInfo ∅ (on_env (λ e, set_cpu2Numa [] (set_envInit false e)) s))))).

Definition NetHardIrq_PublishData : St NetHardIrq unit :=
  s ← get; if debugTopicOpen s then post PostPublish else mret tt.

Definition NetHardIrq_Run : St NetHardIrq unit :=
  modify (λ s, set_runCnt (add_u64 (runCnt s) 1) s) ;;
  s ← get;
  if negb (envInit (hi_env s)) then mret tt else
  CalCpuUtil ;;
  (if highNoiseSample s then MatchThreadAndQueue else MatchThreadQueAndNuma) ;;
  s ← get;
  eths ← lift (GetEthQueData (sys_read (hi_sys s) interrupts_path) (queRegex (conf s))
                 (ethQueData s));
  modify (set_ethQueData eths) ;;
  Tune ;;
  ResetNetQueue ;;
  ResetCpuInfo ;;
  NetHardIrq_PublishData ;;
  modify (λ s, set_ethQueData ∅
    (on_samples (λ d, set_threadNumaInfo ∅ (set_netDataInterval 0 d)) s)).

Definition NetHardIrq_OpenTopic (topic : Topic) : St NetHardIrq bool :=
  if decide (instanceName topic ≠ OE_NETHARDIRQ_TUNE ∨ params topic ≠ EmptyString ∨
             topicName topic ≠ OE_TOPIC_NET_HIRQ_TUNE_DEBUG_INFO) then mret false else
  modify (set_debugTopicOpen true) ;; mret true.
Definition NetHardIrq_CloseTopic (topic : Topic) : St NetHardIrq unit :=
  s ← get;
  if decide (debugTopicOpen s = true ∧ topicName topic = OE_TOPIC_NET_HIRQ_TUNE_DEBUG_INFO)
  then modify (set_debugTopicOpen false) else mret tt.
End instance.
