(* ===== verification/HardIrqMatch.v ===== *)
(** * Packets and the threads that receive them

    The loop over both traces finds for every packet what a search of its own
    would, and counts it on the node of its thread. *)

From Stdlib Require Import ZArith Lia Strings.Byte Sorting.Sorted.
From stdpp Require Import base list strings gmap numbers sorting.
From S2P Require Import Prelude Bytes StdString Utils DataTypes Registry Daemon Config Machine.
From S2P Require Import Doubles IrqFrontEnd SecureC HardIrq.

(** ** The reference *)

(** The position of the first thread that runs after a packet. *)
Definition first_after (threads : list RecNetThreads) (que : RecNetQueue) : option nat :=
  fst <$> find_at (λ t, bool_decide (rq_ts que ≤ rt_ts t)) 0 threads.

(** The thread that receives a packet: the first one with its address among
    the next [slidingWinLen] that run after it. *)
Definition receiver (threads : list RecNetThreads) (que : RecNetQueue) : option RecNetThreads :=
  id ← first_after threads que;
  snd <$> find_at (λ t, bool_decide (rq_skbaddr que = rt_skbaddr t)) id
            (take slidingWinLen (drop id threads)).

Definition receivers (threads : list RecNetThreads) (queues : list RecNetQueue) :
    list (RecNetQueue * RecNetThreads) :=
  omap (λ que, pair que <$> receiver threads que) queues.

(** ** The loop *)

Lemma find_at_shift {A} (P : A → bool) n k l :
  find_at P (n + k) l = prod_map (Nat.add n) id <$> find_at P k l.
Proof.
  revert k. induction l as [|a l IH]; intros k; simpl; [done|].
  destruct (P a); [done|]. rewrite <-IH. by rewrite Nat.add_succ_r.
Qed.

Lemma find_at_bound {A} (P : A → bool) k l j a :
  find_at P k l = Some (j, a) → (k ≤ j)%nat ∧ P a = true ∧ l !! (j - k)%nat = Some a.
Proof.
  revert k. induction l as [|b l IH]; intros k; simpl; [done|].
  destruct (P b) eqn:E.
  - intros [= -> ->]. rewrite Nat.sub_diag. split_and!; [lia|done|done].
  - intros H. destruct (IH _ H) as (Hk & Ha & Hl). split_and!; [lia|done|].
    replace (j - k)%nat with (S (j - S k)) by lia. done.
Qed.

(** Nothing is passed over when what comes before does not qualify. *)
Lemma find_at_drop {A} (P : A → bool) id l :
  Forall (λ a, P a = false) (take id l) → find_at P id (drop id l) = find_at P 0 l.
Proof.
  revert l. induction id as [|id IH]; intros l H; [done|].
  destruct l as [|a l]; [done|]. simpl in *. apply list.Forall_cons in H as [-> H].
  change (S id) with (1 + id)%nat. rewrite find_at_shift, IH by done.
  change 1%nat with (1 + 0)%nat at 2. by rewrite find_at_shift.
Qed.

Lemma find_at_none {A} (P : A → bool) k l :
  find_at P k l = None ↔ Forall (λ a, P a = false) l.
Proof.
  revert k. induction l as [|a l IH]; intros k; simpl; [by split; [constructor|]|].
  rewrite list.Forall_cons, <-(IH (S k)). destruct (P a); split; naive_solver.
Qed.

Lemma find_at_prefix {A} (P : A → bool) k l j a :
  find_at P k l = Some (j, a) → Forall (λ a, P a = false) (take (j - k) l).
Proof.
  revert k. induction l as [|b l IH]; intros k; simpl; [done|]. destruct (P b) eqn:E.
  - intros [= -> ->]. by rewrite Nat.sub_diag.
  - intros H. pose proof (find_at_bound _ _ _ _ _ H) as (Hk & _ & _).
    replace (j - k)%nat with (S (j - S k)) by lia. simpl. constructor; [done|]. by apply IH.
Qed.

(** What the position [id] stands for: the threads before it are before every
    packet to come. *)
Definition passed (threads : list RecNetThreads) (id : nat) (ts : Z) : Prop :=
  Forall (λ t, rt_ts t < ts) (take id threads).

Lemma window_receiver threads id que :
  passed threads id (rq_ts que) → is_Some (first_after threads que) →
  (window id que threads).2 = receiver threads que ∧
  passed threads (window id que threads).1 (rq_ts que).
Proof.
  intros Hp [j Hj]. unfold window, receiver. rewrite Hj. simpl.
  rewrite find_at_drop.
  2: { eapply list.Forall_impl; [exact Hp|]. intros t Ht. simpl in Ht. apply bool_decide_eq_false. lia. }
  unfold first_after in Hj. destruct (find_at _ 0 threads) as [[k t]|] eqn:E; [|done].
  simplify_eq/=. split; [done|]. apply find_at_prefix in E. rewrite Nat.sub_0_r in E.
  eapply list.Forall_impl; [exact E|]. intros t' Ht'. simpl in Ht'. apply bool_decide_eq_false in Ht'. lia.
Qed.

Section loop.
Context `{MA : Machine}.

(** The loop counts the packets with a receiver, in order. *)
Lemma match_loop_receivers threads id queues s :
  Sorted (λ a b, rq_ts a ≤ rq_ts b) queues →
  Forall (λ que, is_Some (first_after threads que)) queues →
  (∀ que, que ∈ queues → passed threads id (rq_ts que)) →
  match_loop threads id queues s =
  for_each (receivers threads queues) (λ x, UpdateThreadAndQueueInfo x.1 x.2) s.
Proof.
  intros Hs Hall. apply Sorted_StronglySorted in Hs; [|intros a b c ? ?; lia].
  revert id s. induction Hs as [|que queues Hs IH Hle]; intros id s Hid; [done|].
  apply list.Forall_cons in Hall as [Hq Hall].
  destruct (window_receiver threads id que) as [Hr Hp]; [apply Hid; by left|done|].
  cbn [match_loop]. destruct (window id que threads) as [id' thr]. simpl in Hr, Hp. subst thr.
  assert (∀ que', que' ∈ queues → passed threads id' (rq_ts que')) as Hid'.
  { intros que' Hin. rewrite list.Forall_forall in Hle. specialize (Hle _ Hin).
    eapply list.Forall_impl; [exact Hp|]. intros t Ht. simpl in Ht. lia. }
  unfold receivers. cbn [omap list_omap]. destruct (receiver threads que) as [thr|]; simpl.
  - unfold mbind, St_bind. destruct (UpdateThreadAndQueueInfo que thr s) as [[[] s']| |]; [|done..].
    by apply IH.
  - exact (IH Hall id' s Hid').
Qed.
End loop.

(** ** Counting *)

Lemma queue_at_update dev que f m dev' que' :
  queue_at dev' que' (update_queue dev que f m) =
  if decide (dev' = dev ∧ que' = que) then f (queue_at dev que m) else queue_at dev' que' m.
Proof.
  unfold queue_at, update_queue. destruct (decide (dev' = dev)) as [->|Hd].
  - rewrite lookup_insert_eq. simpl. destruct (decide (que' = que)) as [->|Hq].
    + rewrite lookup_insert_eq. by rewrite decide_True.
    + rewrite lookup_insert_ne by done. by rewrite decide_False by naive_solver.
  - rewrite lookup_insert_ne by done. by rewrite decide_False by naive_solver.
Qed.

Lemma grown_lookup n l i : default 0 (grown n l !! i) = default 0 (l !! i).
Proof.
  unfold grown, resize. case_decide as Hn; [|done]. rewrite lookup_app.
  rewrite take_ge by lia. destruct (l !! i) eqn:E; simpl; [done|].
  destruct (repeat 0 (n - length l) !! (i - length l)%nat) eqn:E'; [|done].
  apply list_elem_of_lookup_2, list_elem_of_In, repeat_spec in E'. done.
Qed.
Lemma grown_length n l : (n ≤ length (grown n l))%nat.
Proof.
  unfold grown, resize. case_decide; [|lia]. rewrite length_app, length_take, repeat_length. lia.
Qed.

Section counting.
Context `{MA : Machine}.

Definition counter (s : NetHardIrq) (dev : string) (que : Z) (node : nat) : Z :=
  default 0 (qi_numaRxTimes (queue_at dev que (netQueue s)) !! node).

(** The node of a thread. *)
Definition runs_on (e : Env) (t : RecNetThreads) (node : nat) : Prop :=
  at_index (cpu2Numa e) (wrap CInt (rt_core t)) = Some (Z.of_nat node).
Definition counts_for (e : Env) (dev : string) (que : Z) (node : nat)
    (x : RecNetQueue * RecNetThreads) : Prop :=
  rq_dev x.1 = dev ∧ wrap CInt (rq_queueMapping x.1) = que ∧ runs_on e x.2 node.
#[export] Instance counts_for_dec e dev que node x : Decision (counts_for e dev que node x).
Proof. unfold counts_for, runs_on. apply _. Defined.

Definition how_many (e : Env) (dev : string) (que : Z) (node : nat)
    (l : list (RecNetQueue * RecNetThreads)) : Z :=
  Z.of_nat (length (filter (counts_for e dev que node) l)).

(** The rest of the object. *)
Definition only_queues (s s' : NetHardIrq) : Prop := ∃ m, s' = set_netQueue m s.

Lemma only_queues_refl s : only_queues s s.
Proof. exists (netQueue s). by destruct s. Qed.
Lemma only_queues_trans s1 s2 s3 : only_queues s1 s2 → only_queues s2 s3 → only_queues s1 s3.
Proof. intros [m ->] [m' ->]. by exists m'. Qed.

Lemma twp_eq {A} (m m' : St NetHardIrq A) Q s : m s = m' s → twp m' Q s → twp m Q s.
Proof. unfold twp. by intros ->. Qed.

Lemma UpdateThreadAndQueueInfo_twp s que thr node M :
  runs_on (hi_env s) thr node → Z.of_nat node < numaNum (hi_env s) →
  (∀ dev q n, 0 ≤ counter s dev q n ≤ M) → M < 2147483647 →
  twp (UpdateThreadAndQueueInfo que thr) (λ _ s', only_queues s s' ∧
    ∀ dev q n, counter s' dev q n = counter s dev q n +
      (if decide (counts_for (hi_env s) dev q n (que, thr)) then 1 else 0)) s.
Proof.
  intros Hnode Hn HM HMi. unfold UpdateThreadAndQueueInfo. apply twp_bind, twp_get.
  apply twp_bind. eapply twp_deref; [exact Hnode|].
  set (q := wrap CInt (rq_queueMapping que)).
  set (times := grown _ _).
  assert (Z.of_nat node < Z.of_nat (length times)) as Hlen.
  { pose proof (grown_length (Z.to_nat (numaNum (hi_env s)))
      (qi_numaRxTimes (queue_at (rq_dev que) q (netQueue s)))). subst times. lia. }
  destruct (lookup_lt_is_Some_2 times node) as [old Eold]; [lia|].
  assert (old = counter s (rq_dev que) q node) as Hold.
  { unfold counter. rewrite <-(grown_lookup (Z.to_nat (numaNum (hi_env s)))). fold times. by rewrite Eold. }
  apply twp_bind. eapply twp_deref; [by rewrite at_index_of_nat|].
  specialize (HM (rq_dev que) q node) as HM'. rewrite <-Hold in HM'.
  apply twp_bind. eapply twp_deref.
  { unfold add_int. rewrite decide_True; [done|]. apply in_range_int. lia. }
  apply twp_modify. split; [by eexists|].
  intros dev q' n. unfold counter. simpl. rewrite queue_at_update.
  destruct (decide (dev = rq_dev que ∧ q' = q)) as [[-> ->]|Hne].
  - simpl. rewrite Nat2Z.id. destruct (decide (n = node)) as [->|Hnn].
    + rewrite list_lookup_insert_eq by lia. simpl. rewrite decide_True by done.
      by rewrite Hold.
    + rewrite list_lookup_insert_ne by done. subst times. rewrite grown_lookup.
      rewrite decide_False; [lia|]. intros (_ & _ & Hr). unfold runs_on in *. simpl in Hr.
      rewrite Hnode in Hr. injection Hr as Hr. lia.
  - rewrite decide_False; [lia|]. intros (Hd & Hq & _). simpl in *. subst dev. by destruct Hne.
Qed.

(** C10. Every packet is counted once, on the node of the thread that received
    it.  For traces in the order of time, in which some thread runs after
    every packet, on processors that the machine has,
    [MatchThreadAndQueue], which searches on from where the last packet's
    search ended, returns, and the counter of each queue and node has grown by
    exactly the packets of the queue for which a search of the whole trace, for
    the first thread with the packet's address among the 200 that run after
    it, finds a thread on the node; the traces are empty afterwards. *)
Theorem match_counts (s : NetHardIrq) (M : Z)
    (Hsorted : Sorted (λ a b, rq_ts a ≤ rq_ts b) (queueData (hi_samples s)))
    (Hafter : Forall (λ que, is_Some (first_after (threadData (hi_samples s)) que))
                (queueData (hi_samples s)))
    (Hcores : Forall (λ t, ∃ node, runs_on (hi_env s) t node ∧ Z.of_nat node < numaNum (hi_env s))
                (threadData (hi_samples s)))
    (Hrange : ∀ dev que node, 0 ≤ counter s dev que node ≤ M)
    (Hmax : M + Z.of_nat (length (queueData (hi_samples s))) ≤ 2147483647) :
  twp MatchThreadAndQueue (λ _ s',
    (∀ dev que node, counter s' dev que node = counter s dev que node +
      how_many (hi_env s) dev que node
        (receivers (threadData (hi_samples s)) (queueData (hi_samples s)))) ∧
    threadData (hi_samples s') = [] ∧ queueData (hi_samples s') = [] ∧
    irqInfo s' = irqInfo s ∧ hi_sys s' = hi_sys s ∧ hi_env s' = hi_env s) s.
Proof.
  unfold MatchThreadAndQueue. apply twp_bind, twp_get, twp_bind.
  set (threads := threadData (hi_samples s)) in *. set (queues := queueData (hi_samples s)) in *.
  eapply twp_eq; [by apply match_loop_receivers; [..|by intros ? ?; constructor]|].
  set (l := receivers threads queues).
  assert (length l ≤ length queues)%nat as Hlen.
  { unfold l, receivers. clear. induction queues as [|q queues IH]; [done|].
    cbn [omap list_omap]. destruct (receiver threads q); simpl; lia. }
  assert (∀ x, x ∈ l → x.2 ∈ threads) as Hin.
  { intros [q t] Hx. unfold l, receivers in Hx. apply list_elem_of_omap in Hx as (q' & _ & E).
    unfold receiver in E. destruct (first_after threads q') as [id|]; [|done]. simpl in E.
    destruct (find_at _ id _) as [[j t']|] eqn:Ef; simplify_eq/=.
    apply find_at_bound in Ef as (_ & _ & Ef). apply lookup_take_Some in Ef as [Ef _].
    rewrite lookup_drop in Ef. by eapply list_elem_of_lookup_2. }
  eapply twp_mono.
  { apply (twp_for_each_idx _ _ (λ done s1, only_queues s s1 ∧ ∀ dev q n,
      counter s1 dev q n = counter s dev q n + how_many (hi_env s) dev q n done)).
    - split; [apply only_queues_refl|]. intros dev q n. unfold how_many. simpl. lia.
    - intros l1 x l2 s1 El [Ho Hc]. pose proof Ho as [m Em].
      assert (hi_env s1 = hi_env s) as Ee by (by subst s1).
      destruct (proj1 (list.Forall_forall _ _) Hcores x.2) as (node & Hn1 & Hn2).
      { apply Hin. rewrite El. set_solver. }
      assert (∀ dev q n, how_many (hi_env s) dev q n l1 ≤ Z.of_nat (length l1)) as Hle.
      { intros dev q n. unfold how_many. pose proof (length_filter (counts_for (hi_env s) dev q n) l1). lia. }
      assert (length l1 < length l)%nat as Hl1 by (rewrite El, length_app; simpl; lia).
      eapply twp_mono.
      { apply UpdateThreadAndQueueInfo_twp with (node := node) (M := M + Z.of_nat (length l1));
          [by rewrite Ee|by rewrite Ee| |lia].
        intros dev q n. rewrite Hc. specialize (Hle dev q n). specialize (Hrange dev q n).
        unfold how_many in *. lia. }
      intros _ s2 [Ho2 Hc2]. split; [by eapply only_queues_trans|].
      intros dev q n. rewrite Hc2, Hc, Ee. unfold how_many. rewrite list.filter_app, length_app.
      destruct x as [q0 t0]. rewrite filter_cons.
      repeat case_decide; try done; simpl; lia. }
  intros _ s2 [[m ->] Hc]. apply twp_modify. split; [exact Hc|]. done.
Qed.
End counting.
