(* ===== verification/HardIrqRestore.v ===== *)
(** * The affinities of interrupts, from [Enable] to [Disable]

    Whatever data arrives and however often the instance runs in between,
    [Disable] leaves the affinity of every interrupt that was there as
    [Enable] found it. *)

From Stdlib Require Import ZArith Lia Strings.Byte.
From stdpp Require Import base list strings gmap numbers.
From S2P Require Import Prelude Bytes StdString Utils DataTypes Registry Daemon Config Machine.
From S2P Require Import Doubles IrqFrontEnd SecureC Steps HardIrq.

(** The affinity of an interrupt as its file shows it: a value is taken or
    refused by itself, the present one is taken, and reading shows it.
    Commands leave the affinities alone. *)
Class IrqFiles `(MA : Machine) := {
  aff : sys → Z → option (list byte);
  aff_takes : Z → list byte → bool;
  aff_write m irq v : 0 ≤ irq →
    let '(opens, takes, m') := sys_write m (affinity_path irq) (v ++ [newline]) in
    match aff m irq with
    | None => opens = false ∧ ∀ q, aff m' q = aff m q
    | Some _ => opens = true ∧ takes = aff_takes irq v ∧
        ∀ q, aff m' q = if decide (q = irq ∧ aff_takes irq v = true) then Some v else aff m q
    end;
  aff_current m irq v : aff m irq = Some v → aff_takes irq v = true;
  aff_read m irq : default [] (first_word <$> sys_read m (affinity_path irq)) =
    default [] (aff m irq);
  aff_positive m irq : is_Some (aff m irq) → 0 ≤ irq;
  aff_exec m c irq : aff (snd (sys_exec m c)) irq = aff m irq;
  aff_system m c irq : aff (snd (sys_system m c)) irq = aff m irq
}.

Section restore.
Context `{MA : Machine} `{IF : !IrqFiles MA} `{HI : HashOrderInt} `{HO : HashOrder}
  `{SS : StdSort} `{RE : Regex}.

Definition affinity (s : NetHardIrq) (irq : Z) : option (list byte) := aff (hi_sys s) irq.
Definition tuned (s : NetHardIrq) (irq : Z) : Prop :=
  ∃ i, irqInfo s !! irq = Some i ∧ ii_isTuned i = true.

(** ** What every step keeps *)

(** An affinity that changes is that of an interrupt which is marked; the
    origin that was noted for an interrupt stays. *)
Definition marked (s s' : NetHardIrq) : Prop := ∀ irq,
  (affinity s' irq = None ↔ affinity s irq = None) ∧
  (affinity s' irq = affinity s irq ∨ tuned s' irq) ∧
  (tuned s irq → tuned s' irq) ∧
  (∀ i, irqInfo s !! irq = Some i →
    ∃ i', irqInfo s' !! irq = Some i' ∧ ii_originAffinity i' = ii_originAffinity i).

#[export] Instance marked_preorder : PreOrder marked.
Proof.
  split; [intros s irq; naive_solver|]. intros s1 s2 s3 H12 H23 irq.
  destruct (H12 irq) as (E1 & A1 & T1 & O1), (H23 irq) as (E2 & A2 & T2 & O2).
  split_and!; [by rewrite E2| |by auto|].
  - destruct A2 as [->|?]; [|by right]. destruct A1; [by left|right; auto].
  - intros i Hi. destruct (O1 i Hi) as (i' & Hi' & <-). by apply O2.
Qed.

(** A call that returns leads to a marked state. *)
Notation marks := (returns marked).

Lemma marks_lift {A} (o : outcome A) : marks (lift o).
Proof. intros s a s'. unfold lift. destruct o; [|done..]. by intros [= _ <-]. Qed.
Lemma marks_modify f :
  (∀ s, hi_sys (f s) = hi_sys s ∧ irqInfo (f s) = irqInfo s) → marks (modify f).
Proof.
  intros Hf. apply returns_modify. intros s irq. destruct (Hf s) as [Hs Hi].
  unfold affinity, tuned. rewrite Hs, Hi. naive_solver.
Qed.

(** Binding an interrupt is left for [bind_marks] below. *)
Ltac marks_leaf :=
  idtac; lazymatch goal with
  | |- marks (cast _ _) => apply returns_deref; apply _
  | |- marks (lift _) => apply marks_lift
  | |- marks (post _) => apply marks_modify; done
  | |- marks (modify _) => apply marks_modify; done
  | |- marks (let _ := _ in _) => cbv zeta
  end.
Ltac marks_run := returns_run marks_leaf.

Lemma UpdateNetBaseInfo_keeps l s :
  hi_sys (UpdateNetBaseInfo l s) = hi_sys s ∧ irqInfo (UpdateNetBaseInfo l s) = irqInfo s.
Proof.
  unfold UpdateNetBaseInfo. revert s. induction l as [|i l IH]; intros s; [done|]. simpl.
  by rewrite !(proj1 (IH _)), !(proj2 (IH _)).
Qed.
Lemma UpdateNetDriverInfo_keeps l s :
  hi_sys (UpdateNetDriverInfo l s) = hi_sys s ∧ irqInfo (UpdateNetDriverInfo l s) = irqInfo s.
Proof.
  unfold UpdateNetDriverInfo. revert s. induction l as [|i l IH]; intros s; [done|]. simpl.
  by rewrite !(proj1 (IH _)), !(proj2 (IH _)).
Qed.
Lemma UpdateThreadNumaInfo_keeps l s :
  hi_sys (UpdateThreadNumaInfo l s) = hi_sys s ∧ irqInfo (UpdateThreadNumaInfo l s) = irqInfo s.
Proof.
  unfold UpdateThreadNumaInfo. revert s. induction l as [|i l IH]; intros s; [done|]. simpl.
  by rewrite !(proj1 (IH _)), !(proj2 (IH _)).
Qed.

Lemma UpdateData_marks d : marks (NetHardIrq_UpdateData d).
Proof.
  unfold NetHardIrq_UpdateData, UpdateSystemInfo, UpdatePmuSampleInfo, UpdateThreadData,
    UpdateQueueData, UpdateCyclesData, UpdateEnvInfo, UpdateCpuInfo, UpdateNetIntfInfo.
  marks_run; apply marks_modify; intros s;
    [apply UpdateNetBaseInfo_keeps|apply UpdateNetDriverInfo_keeps|apply UpdateThreadNumaInfo_keeps].
Qed.

(** ** Binding an interrupt *)

Lemma IrqSet_spec irq v s : ∃ err m',
  on_machine (IrqSetSmpAffinity irq v) s = Ret (err, set_machine m' s) ∧
  if decide (err = 0)
  then is_Some (affinity s irq) ∧ aff_takes irq v = true ∧
    ∀ q, aff m' q = if decide (q = irq) then Some v else affinity s q
  else (∀ q, aff m' q = affinity s q) ∧ (is_Some (affinity s irq) → aff_takes irq v = false).
Proof.
  unfold on_machine, IrqSetSmpAffinity. case_decide as Hneg.
  { exists EINVAL, (hi_sys s). split; [by destruct s|]. rewrite decide_False by done.
    split; [done|]. intros H%aff_positive. lia. }
  unfold on_file, mbind, St_bind. pose proof (aff_write (hi_sys s) irq v) as Hw.
  destruct (sys_write _ _ _) as [[opens takes] m']. eexists _, m'. split; [done|].
  specialize (Hw ltac:(lia)). unfold affinity. destruct (aff (hi_sys s) irq) as [u|] eqn:Ea.
  - destruct Hw as (-> & -> & Hm). destruct (aff_takes irq v) eqn:Et.
    + rewrite decide_True by done. split; [by eexists|]. split; [done|]. intros q. rewrite Hm.
      apply decide_ext. naive_solver.
    + rewrite decide_False by done. split; [|done]. intros q. rewrite Hm.
      by rewrite decide_False by naive_solver.
  - destruct Hw as [-> Hm]. rewrite decide_False by done. split; [done|]. by intros [].
Qed.

Lemma set_tuned_lookup irq cpu m : set_tuned irq cpu m !! irq =
  Some (mkIrqInfo (ii_originAffinity (default IrqInfo0 (m !! irq))) cpu true).
Proof. unfold set_tuned. by rewrite lookup_insert_eq. Qed.

Lemma bind_marks {B} irq cpu v (o : option Z) (f : NetHardIrq → NetHardIrq) (stop : B) (go : Z → B) :
  (∀ s, hi_sys (f s) = hi_sys s ∧ irqInfo (f s) = set_tuned irq cpu (irqInfo s)) →
  marks (err ← on_machine (IrqSetSmpAffinity irq v);
         if decide (err ≠ 0) then mret stop else
         next ← deref o; modify f ;; mret (go next)).
Proof.
  intros Hf s a s'. destruct (IrqSet_spec irq v s) as (err & m' & E & H). rewrite run_bind, E.
  destruct (decide (err = 0)) as [->|Hne].
  - destruct H as (Hsome & _ & Hm). rewrite decide_False by (intros []; done).
    destruct o as [next|]; [|done]. intros [= _ <-] q. destruct (Hf (set_machine m' s)) as [Ef Ei].
    unfold affinity, tuned in *. rewrite Ef, Ei. cbn [hi_sys irqInfo set_machine]. rewrite Hm.
    destruct (decide (q = irq)) as [->|Hq].
    + rewrite set_tuned_lookup. split_and!; [|right; by eexists|intros _; by eexists|].
      * destruct Hsome as [u ->]. done.
      * intros i Hi. rewrite Hi. by eexists.
    + unfold set_tuned. rewrite lookup_insert_ne by done. split_and!; try done; [by left|].
      intros i Hi. by exists i.
  - rewrite decide_True by done. intros [= _ <-] q. destruct H as [H _].
    unfold affinity, tuned in *. cbn [hi_sys irqInfo set_machine]. rewrite H.
    split_and!; try done; [by left|]. intros i Hi. by exists i.
Qed.

Lemma migrate_unit_marks cpuSort cnt unit : marks (migrate_unit cpuSort cnt unit).
Proof.
  unfold migrate_unit. returns_run ltac:(first [by eapply bind_marks|marks_leaf]).
Qed.

Lemma MigrateHardIrq_marks : marks MigrateHardIrq.
Proof.
  unfold MigrateHardIrq. marks_run.
  generalize (repeat 0 (Z.to_nat (numaNum (hi_env a)))). generalize (std_sort before a0).
  intros units. induction units as [|unit units IH]; intros cnt; [apply returns_ret; apply _|].
  cbn [migrate_units]. apply returns_bind; [apply _|apply migrate_unit_marks|]. intros cnt'. apply IH.
Qed.

Lemma match_loop_marks threads id queues : marks (match_loop threads id queues).
Proof.
  revert id. induction queues as [|que queues IH]; intros id; [apply returns_ret; apply _|].
  cbn [match_loop]. destruct (window id que threads) as [id' thr].
  unfold UpdateThreadAndQueueInfo. marks_run; apply IH.
Qed.

Lemma Run_marks : marks NetHardIrq_Run.
Proof.
  unfold NetHardIrq_Run, CalCpuUtil, MatchThreadAndQueue, MatchThreadQueAndNuma, thread_rx,
    add_queue_rx, Tune, AddIrqToQueueInfo, ClearInvalidQueueInfo, TunePreprocessing,
    ResetNetQueue, ResetCpuInfo, NetHardIrq_PublishData.
  marks_run; first [apply MigrateHardIrq_marks|apply match_loop_marks].
Qed.

(** ** The life of the instance *)

(** What may happen to an instance that is enabled. *)
Inductive event :=
| EvData (d : HData)
| EvRun
| EvOpen (topic : Topic)
| EvClose (topic : Topic).
Definition handle (e : event) : St NetHardIrq unit :=
  match e with
  | EvData d => NetHardIrq_UpdateData d
  | EvRun => NetHardIrq_Run
  | EvOpen topic => NetHardIrq_OpenTopic topic ;; mret tt
  | EvClose topic => NetHardIrq_CloseTopic topic
  end.
Inductive steps : NetHardIrq → NetHardIrq → Prop :=
| steps_refl s : steps s s
| steps_event e s s1 s2 : handle e s = Ret (tt, s1) → steps s1 s2 → steps s s2.

Lemma handle_marks e : marks (handle e).
Proof.
  destruct e; [apply UpdateData_marks|apply Run_marks| |]; cbn [handle];
    unfold NetHardIrq_OpenTopic, NetHardIrq_CloseTopic; marks_run.
Qed.
Lemma steps_marked s s' : steps s s' → marked s s'.
Proof.
  induction 1 as [s|e s s1 s2 E _ IH]; [done|]. transitivity s1; [|done]. by eapply handle_marks.
Qed.

(** ** Enable *)

Definition irq_of (name : string) : option Z :=
  match bytes_of name with
  | b :: _ => if is_digit b then match stoi (bytes_of name) with Ret n => Some n | _ => None end
              else None
  | [] => None
  end.
(** The interrupts that the directory shows. *)
Definition listed (m : sys) (irq : Z) : Prop :=
  ∃ names name, sys_dir m irq_dir = Some names ∧ name ∈ names ∧ irq_of name = Some irq.

(** The affinities of [m0] are noted, and nothing is marked. *)
Definition noted (m0 : sys) (s : NetHardIrq) : Prop :=
  (∀ q, affinity s q = aff m0 q) ∧
  ∀ irq i, irqInfo s !! irq = Some i →
    ii_isTuned i = false ∧ ii_originAffinity i = default [] (aff m0 irq).

Lemma irq_entry_twp m0 name s :
  noted m0 s →
  twp (irq_entry name) (λ _ s', noted m0 s' ∧
    (∀ irq, irq_of name = Some irq → is_Some (irqInfo s' !! irq)) ∧
    ∀ irq, is_Some (irqInfo s !! irq) → is_Some (irqInfo s' !! irq)) s.
Proof.
  intros [Ha Hi]. unfold irq_entry, irq_of. destruct (bytes_of name) as [|b bs]; [by apply twp_ret|].
  destruct (is_digit b); simpl; [|by apply twp_ret].
  destruct (stoi (b :: bs)) as [irq| |]; [|by apply twp_ret..].
  apply twp_bind. unfold twp at 1, on_machine, IrqGetSmpAffinity. simpl.
  apply twp_modify. split; [|split].
  - split; [exact Ha|]. intros q i. simpl. destruct (decide (q = irq)) as [->|Hq].
    + rewrite lookup_insert_eq. intros [= <-]. simpl. split.
      * destruct (irqInfo s !! irq) as [j|] eqn:Ej; [|done]. by apply (Hi irq j).
      * rewrite <-(Ha irq). unfold affinity. rewrite <-(aff_read (hi_sys s) irq).
        by destruct (sys_read (hi_sys s) (affinity_path irq)).
    + rewrite lookup_insert_ne by done. apply Hi.
  - intros q [= <-]. simpl. rewrite lookup_insert_eq. by eexists.
  - intros q Hs. simpl. destruct (decide (q = irq)) as [->|Hq].
    + rewrite lookup_insert_eq. by eexists.
    + by rewrite lookup_insert_ne.
Qed.

Lemma InitIrqInfo_twp s :
  irqInfo s = ∅ →
  twp InitIrqInfo (λ _ s', noted (hi_sys s) s' ∧
    ∀ irq, listed (hi_sys s) irq → is_Some (irqInfo s' !! irq)) s.
Proof.
  intros He. assert (noted (hi_sys s) s) as Hn by (split; [done|]; by rewrite He).
  unfold InitIrqInfo. apply twp_bind, twp_get.
  destruct (sys_dir (hi_sys s) irq_dir) as [names|] eqn:En.
  2: { apply twp_ret. split; [done|]. intros irq (names & name & E & _). congruence. }
  eapply twp_mono.
  { apply (twp_for_each_idx _ _ (λ done s', noted (hi_sys s) s' ∧
      ∀ name irq, name ∈ done → irq_of name = Some irq → is_Some (irqInfo s' !! irq))).
    - split; [done|]. by intros ? ? ?%elem_of_nil.
    - intros l1 name l2 s1 _ [H1 H2]. eapply twp_mono; [by apply irq_entry_twp|].
      intros _ s2 (H3 & H4 & H5). split; [done|].
      intros name' irq [Hin| ->%list_elem_of_singleton]%elem_of_app E; [|by apply H4].
      apply H5. by eapply H2. }
  intros _ s' [H1 H2]. split; [done|]. intros irq (names' & name & E & Hin & Hirq).
  rewrite En in E. injection E as <-. by eapply H2.
Qed.

(** The rest of [Enable] touches neither. *)
Definition still (s s' : NetHardIrq) : Prop :=
  (∀ q, affinity s' q = affinity s q) ∧ irqInfo s' = irqInfo s.
#[export] Instance still_preorder : PreOrder still.
Proof.
  split; [by intros s|]. intros s1 s2 s3 [H1 H2] [H3 H4].
  split; [intros q; by rewrite H3|congruence].
Qed.

Lemma still_exec cmd : always still (on_machine (ExecCommand cmd)).
Proof.
  intros s. unfold twp, on_machine, ExecCommand. pose proof (aff_exec (hi_sys s) cmd) as H.
  by destruct (sys_exec _ _) as [r m'].
Qed.
Lemma still_control service action : always still (on_machine (ServiceControl service action)).
Proof.
  intros s. unfold ServiceControl. case_decide as Hd; [by destruct s|].
  unfold twp, on_machine, mbind, St_bind, system.
  match goal with |- context [sys_system _ ?c] => pose proof (aff_system (hi_sys s) c) as H end.
  by destruct (sys_system _ _) as [r m'].
Qed.
Lemma still_active service : always still (on_machine (ServiceIsActive service)).
Proof.
  intros s. unfold ServiceIsActive, twp, on_machine, mbind, St_bind, ExecCommand.
  match goal with |- context [sys_exec _ ?c] => pose proof (aff_exec (hi_sys s) c) as H end.
  by destruct (sys_exec _ _) as [r m'].
Qed.

Ltac still_leaf :=
  idtac; lazymatch goal with
  | |- always still (on_machine (ServiceIsActive _)) => apply still_active
  | |- always still (on_machine (ServiceControl _ _)) => apply still_control
  | |- always still (post _) => apply always_modify; done
  | |- always still (modify _) => apply always_modify; done
  end.

Lemma NetHardIrq_Enable_twp param s :
  irqInfo s = ∅ →
  twp (NetHardIrq_Enable param) (λ _ s', noted (hi_sys s) s' ∧
    ∀ irq, listed (hi_sys s) irq → is_Some (irqInfo s' !! irq)) s.
Proof.
  intros He. unfold NetHardIrq_Enable, NetHardIrq_Init.
  apply twp_bind, twp_modify, twp_bind, twp_bind, twp_modify, twp_bind, twp_modify.
  eapply twp_mono; [by apply InitIrqInfo_twp|]. intros [] s1 [[Ha Hi] Hl].
  match goal with |- twp ?c _ _ => assert (always still c) as Hq end.
  { always_run still_leaf. }
  eapply twp_mono; [apply Hq|]. intros ? s2 [Ha2 Hi2]. unfold noted. rewrite Hi2.
  split; [|done]. split; [|done]. intros q. by rewrite Ha2.
Qed.

(** ** Disable *)

Lemma restore_irq_twp irq i s (Q : unit → NetHardIrq → Prop) :
  (∀ m', let s' := set_machine m' s in
    (∀ q, q ≠ irq → affinity s' q = affinity s q) →
    (affinity s' irq = None ↔ affinity s irq = None) →
    (ii_isTuned i = false → affinity s' irq = affinity s irq) →
    (ii_isTuned i = true → is_Some (affinity s irq) → aff_takes irq (ii_originAffinity i) = true →
      affinity s' irq = Some (ii_originAffinity i)) →
    Q tt s') →
  twp (restore_irq (irq, i)) Q s.
Proof.
  intros HQ. unfold restore_irq. cbn [fst snd]. destruct (ii_isTuned i); simpl.
  2: { apply twp_ret. specialize (HQ (hi_sys s)). destruct s. by apply HQ. }
  apply twp_bind. unfold twp at 1.
  destruct (IrqSet_spec irq (ii_originAffinity i) s) as (err & m' & -> & H).
  apply twp_ret, HQ; destruct (decide (err = 0)).
  - destruct H as (_ & _ & H). intros q Hq. unfold affinity. simpl. rewrite H. by rewrite decide_False.
  - destruct H as [H _]. intros q _. apply H.
  - destruct H as ([u Hu] & _ & H). unfold affinity in *. simpl. rewrite H, Hu.
    by rewrite decide_True.
  - destruct H as [H _]. unfold affinity in *. simpl. by rewrite H.
  - done.
  - done.
  - destruct H as (_ & _ & H). intros _ _ _. unfold affinity. simpl. rewrite H. by rewrite decide_True.
  - destruct H as [_ H]. intros _ Hs Ht. by rewrite H in Ht.
Qed.

(** Interrupts whose affinity was noted come back to it. *)
Definition comes_back (m0 : sys) (irq : Z) (s : NetHardIrq) : Prop :=
  ∃ i, irqInfo s !! irq = Some i ∧ ii_originAffinity i = default [] (aff m0 irq).

Lemma NetHardIrq_Disable_twp m0 s :
  (∀ irq, affinity s irq = None ↔ aff m0 irq = None) →
  (∀ irq, affinity s irq = aff m0 irq ∨ tuned s irq) →
  twp NetHardIrq_Disable (λ _ s', irqInfo s' = ∅ ∧ ∀ irq,
    comes_back m0 irq s ∨ ¬ tuned s irq → affinity s' irq = aff m0 irq) s.
Proof.
  intros Hex Htuned. unfold NetHardIrq_Disable. apply twp_bind, twp_get.
  set (c := if irqbalanceStatus s then _ else _).
  assert (always still c) as Hc by (unfold c; always_run still_leaf).
  apply twp_bind. eapply twp_mono; [apply Hc|]. intros [] s1 H1.
  apply twp_bind. eapply twp_mono.
  { assert (always still (for_each (subscribeTopics s) (λ t, post (PostUnsubscribe t)))) as Hp
      by always_run still_leaf. apply Hp. }
  intros [] s2 H2. assert (still s s2) as [Ha Hi] by (by transitivity s1). clear H1 H2.
  apply twp_bind.
  eapply twp_mono.
  { apply (twp_for_each_idx _ _ (λ done s3,
      (∀ irq, affinity s3 irq = None ↔ aff m0 irq = None) ∧
      ∀ irq, comes_back m0 irq s ∨ ¬ tuned s irq →
        affinity s3 irq = aff m0 irq ∨
        ∃ i, irqInfo s !! irq = Some i ∧ ii_isTuned i = true ∧ (irq, i) ∉ done)).
    - split; [intros irq; rewrite Ha; apply Hex|]. intros irq _. rewrite Ha.
      destruct (Htuned irq) as [?|(i & Ei & Et)]; [by left|right].
      exists i. split_and!; [done|done|apply not_elem_of_nil].
    - intros l1 [irq i] l2 s3 El [Hex3 H3].
      assert (irqInfo s !! irq = Some i) as Ei.
      { apply elem_of_in_order. rewrite El. set_solver. }
      apply restore_irq_twp. intros m' s4 Hother Hnone Hnot Hset. split.
      { intros q. destruct (decide (q = irq)) as [->|Hq]; [by rewrite Hnone|by rewrite Hother]. }
      intros q Hq. destruct (decide (q = irq)) as [->|Hne].
      + left. destruct (ii_isTuned i) eqn:Et.
        * destruct Hq as [(i' & Ei' & Eo)|Hq]; [|destruct Hq; by exists i].
          rewrite Ei in Ei'. injection Ei' as <-.
          destruct (aff m0 irq) as [v|] eqn:Ev; simpl in Eo.
          -- rewrite <-Eo. apply Hset; [done| |].
             ++ destruct (affinity s3 irq) eqn:E3; [by eexists|]. apply Hex3 in E3. congruence.
             ++ rewrite Eo. by eapply aff_current.
          -- by apply Hnone, Hex3.
        * rewrite (Hnot eq_refl). destruct (H3 irq Hq) as [?|(i' & Ei' & Et' & _)]; [done|]. congruence.
      + rewrite Hother by done. destruct (H3 q Hq) as [?|(i' & ? & ? & Hnin)]; [by left|right].
        exists i'. split_and!; [done|done|]. rewrite elem_of_app, list_elem_of_singleton.
        intros [?|[= -> ->]]; done. }
  intros [] s3 [_ H3]. apply twp_modify. split; [done|]. intros irq Hirq.
  destruct (H3 irq Hirq) as [?|(i & Ei & _ & Hnin)]; [done|].
  destruct Hnin. by apply elem_of_in_order.
Qed.

(** C9. Tuning leaves no trace on interrupts.  From an instance that has no
    interrupts noted, [Enable] returns, and after any data, runs and debug
    subscriptions that follow, [Disable] returns with the affinity of every
    interrupt back at what it was before [Enable], whichever were bound, and
    however often, given that /proc/irq showed the interrupt then or that it
    was never bound; nothing stays noted for the next time. *)
Theorem affinities_restored (s : NetHardIrq) (param : list byte) (Hfresh : irqInfo s = ∅) :
  twp (NetHardIrq_Enable param) (λ _ s1, ∀ s2, steps s1 s2 →
    twp NetHardIrq_Disable (λ _ s3, irqInfo s3 = ∅ ∧
      ∀ irq, listed (hi_sys s) irq ∨ ¬ tuned s2 irq → affinity s3 irq = affinity s irq) s2) s.
Proof.
  eapply twp_mono; [by apply NetHardIrq_Enable_twp|]. intros _ s1 [[Ha Hi] Hl] s2 Hs.
  apply steps_marked in Hs. eapply twp_mono; [apply (NetHardIrq_Disable_twp (hi_sys s))|].
  - intros irq. destruct (Hs irq) as (E & _). by rewrite E, Ha.
  - intros irq. destruct (Hs irq) as (_ & [E|?] & _); [left|by right]. by rewrite E, Ha.
  - intros [] s3 [Hempty H3]. split; [done|]. intros irq [Hlist|Hnot]; apply H3; [left|by right].
    destruct (Hl irq Hlist) as [i Ei]. destruct (Hs irq) as (_ & _ & _ & Ho).
    destruct (Ho i Ei) as (i' & Ei' & Eo). exists i'. split; [done|]. rewrite Eo. by apply (Hi irq i).
Qed.
End restore.
