(* ===== verification/HardIrqTune.v ===== *)
(** * Where interrupts are bound

    [Tune] binds the interrupt of every busy queue to a processor of the node
    on which most of the queue's packets are received. *)

From Stdlib Require Import ZArith Lia Strings.Byte.
From stdpp Require Import base list strings gmap numbers.
From S2P Require Import Prelude Bytes StdString Utils DataTypes Registry Daemon Config Machine.
From S2P Require Import Doubles IrqFrontEnd SecureC Steps HardIrq HardIrqMatch HardIrqRestore.

(** ** The preferred node *)

Definition total (times : list Z) : Z := foldr Z.add 0 times.

Lemma total_nonneg times : Forall (λ t, 0 ≤ t) times → 0 ≤ total times.
Proof. induction 1; simpl; lia. Qed.

(** [node] is a node with the most, the last of them. *)
Definition prefers (times : list Z) (node : Z) : Prop :=
  match times with
  | [] => node = 0
  | _ => ∃ j t, node = Z.of_nat j ∧ times !! j = Some t ∧ Forall (λ t', t' ≤ t) times
  end.

Lemma max_node_spec i times maxTimes maxNode sum :
  Forall (λ t, 0 ≤ t) times → 0 ≤ sum → sum + total times ≤ 2147483647 →
  ∃ node, max_node i times maxTimes maxNode sum = Some (node, sum + total times) ∧
    ((node = maxNode ∧ Forall (λ t, t < maxTimes) times) ∨
     ∃ j t, node = i + Z.of_nat j ∧ times !! j = Some t ∧ maxTimes ≤ t ∧ Forall (λ t', t' ≤ t) times).
Proof.
  intros Hpos. revert i maxTimes maxNode sum.
  induction Hpos as [|t times Ht Hpos IH]; intros i maxTimes maxNode sum Hsum Hmax; simpl.
  { exists maxNode. split; [f_equal; f_equal; lia|]. by left. }
  simpl in Hmax. pose proof (total_nonneg _ Hpos).
  unfold add_int. rewrite decide_True by (apply in_range_int; lia). simpl.
  case_decide as Hle.
  - destruct (IH (i + 1) t i (sum + t)) as (node & -> & Hn); [lia..|]. exists node.
    split; [f_equal; f_equal; lia|]. right. destruct Hn as [[-> Hlt]|(j & t' & -> & Hj & Ht' & Hall)].
    + exists 0%nat, t. split_and!; [lia|done|done|]. constructor; [done|].
      eapply list.Forall_impl; [exact Hlt|]. intros u Hu. simpl in Hu. lia.
    + exists (S j), t'. split_and!; [lia|done|lia|]. by constructor.
  - destruct (IH (i + 1) maxTimes maxNode (sum + t)) as (node & -> & Hn); [lia..|]. exists node.
    split; [f_equal; f_equal; lia|]. destruct Hn as [[-> Hlt]|(j & t' & -> & Hj & Ht' & Hall)].
    + left. split; [done|]. constructor; [lia|done].
    + right. exists (S j), t'. split_and!; [lia|done|done|]. constructor; [lia|done].
Qed.

Lemma max_node_prefers times :
  Forall (λ t, 0 ≤ t) times → total times ≤ 2147483647 →
  ∃ node, max_node 0 times 0 0 0 = Some (node, total times) ∧ prefers times node.
Proof.
  intros Hpos Hmax. destruct (max_node_spec 0 times 0 0 0 Hpos) as (node & E & Hn); [lia..|].
  exists node. rewrite Z.add_0_l in E. split; [done|]. unfold prefers.
  destruct Hpos as [|t times Ht Hpos].
  - simpl in E. congruence.
  - destruct Hn as [[_ Hlt]|(j & t' & -> & Hj & _ & Hall)].
    + apply list.Forall_cons in Hlt as [? _]. lia.
    + exists j, t'. by split_and!.
Qed.

(** ** The processors of a node *)

Section sorted.
Context `{SS : StdSort}.

(** What the samples must be for the processors to be sorted: every
    processor has a node and a row, and every node as many processors as
    there are nodes. *)
Record env_ok (e : Env) : Prop := {
  ok_numa : 0 < numaNum e < 4294967296;
  ok_nodes : Forall (λ n, 0 ≤ n < numaNum e) (cpu2Numa e);
  ok_rows : (length (cpu2Numa e) ≤ length (cpuUtil e))%nat;
  ok_row : Forall (λ row, kinds ≤ length row)%nat (cpuUtil e);
  ok_many : ∀ n, 0 ≤ n < numaNum e →
    numaNum e ≤ Z.of_nat (length (filter (λ m, m = n) (cpu2Numa e)))
}.

Lemma busy_some row : (kinds ≤ length row)%nat → is_Some (busy row).
Proof.
  intros Hl. unfold busy. change kinds with 11%nat in Hl.
  destruct (lookup_lt_is_Some_2 row CPU_IDLE) as [a ->]; [unfold CPU_IDLE; lia|].
  destruct (lookup_lt_is_Some_2 row CPU_IRQ) as [b ->]; [unfold CPU_IRQ; lia|].
  destruct (lookup_lt_is_Some_2 row CPU_SOFTIRQ) as [c ->]; [unfold CPU_SOFTIRQ; lia|].
  by eexists.
Qed.

Lemma numa_lists_spec k nodes utils rst :
  Forall (λ n, 0 ≤ n < Z.of_nat (length rst)) nodes →
  (k + length nodes ≤ length utils)%nat → Forall (λ row, kinds ≤ length row)%nat utils →
  ∃ rst', numa_lists k nodes utils rst = Some rst' ∧ length rst' = length rst ∧
    ∀ n l', rst' !! n = Some l' → ∃ l, rst !! n = Some l ∧
      length l' = (length l + length (filter (λ m, m = Z.of_nat n) nodes))%nat ∧
      ∀ c, c ∈ l' → c ∈ l ∨ ∃ j, cs_cpu c = Z.of_nat (k + j) ∧ nodes !! j = Some (Z.of_nat n).
Proof.
  intros Hn Hk Hrow. revert k rst Hn Hk. induction nodes as [|nid nodes IH]; intros k rst Hn Hk; simpl.
  { exists rst. split_and!; [done|done|]. intros n l' El. exists l'. split_and!; [done|simpl; lia|].
    intros c Hc. by left. }
  apply list.Forall_cons in Hn as [Hnid Hn]. simpl in Hk.
  destruct (lookup_lt_is_Some_2 rst (Z.to_nat nid)) as [l0 El0]; [lia|].
  unfold at_index. rewrite decide_False by lia. rewrite El0. simpl.
  destruct (lookup_lt_is_Some_2 utils k) as [row Erow]; [lia|]. rewrite Erow. simpl.
  destruct (busy_some row) as [ratio ->].
  { rewrite list.Forall_forall in Hrow. by apply Hrow, list_elem_of_lookup_2 with k. }
  simpl. set (rst1 := alter _ _ rst).
  assert (length rst1 = length rst) as Hlen by apply length_alter.
  destruct (IH (S k) rst1) as (rst' & -> & Hl' & H); [by rewrite Hlen|lia|].
  exists rst'. split; [done|]. split; [congruence|]. intros n l' El'.
  destruct (H n l' El') as (l1 & El1 & Hlen1 & Hin). rewrite filter_cons.
  destruct (decide (Z.of_nat n = nid)) as [En|En].
  - assert (n = Z.to_nat nid) as -> by lia. unfold rst1 in El1. rewrite list_lookup_alter_eq, El0 in El1.
    injection El1 as <-. exists l0. rewrite length_app in Hlen1. simpl in Hlen1.
    rewrite decide_True by done. simpl. split_and!; [done|lia|].
    intros c Hc. destruct (Hin c Hc) as [[?| ->%list_elem_of_singleton]%elem_of_app|(j & Hj1 & Hj2)].
    + by left.
    + right. exists 0%nat. simpl. split; [f_equal; lia|by rewrite En].
    + right. exists (S j). simpl. split; [rewrite Hj1; f_equal; lia|done].
  - unfold rst1 in El1. rewrite list_lookup_alter_ne in El1 by lia. exists l1.
    rewrite decide_False by congruence. split_and!; [done|lia|].
    intros c Hc. destruct (Hin c Hc) as [?|(j & Hj1 & Hj2)]; [by left|right].
    exists (S j). simpl. split; [rewrite Hj1; f_equal; lia|done].
Qed.

(** A list of processors for each node. *)
Definition sorted_ok (e : Env) (lists : list (list CpuSort)) : Prop :=
  ∀ n, 0 ≤ n < numaNum e → ∃ l, at_index lists n = Some l ∧ numaNum e ≤ Z.of_nat (length l) ∧
    ∀ c, c ∈ l → at_index (cpu2Numa e) (cs_cpu c) = Some n.

Lemma SortNumaCpuUtil_ok e :
  env_ok e → ∃ lists, SortNumaCpuUtil e = Some lists ∧ sorted_ok e lists.
Proof.
  intros [Hnuma Hnodes Hrows Hrow Hmany]. unfold SortNumaCpuUtil.
  destruct (numa_lists_spec 0 (cpu2Numa e) (cpuUtil e) (repeat [] (Z.to_nat (numaNum e))))
    as (rst & -> & Hlen & H); [|done|done|].
  { eapply list.Forall_impl; [exact Hnodes|]. intros n Hn. simpl in Hn. rewrite repeat_length. lia. }
  eexists. split; [done|]. intros n Hn. rewrite repeat_length in Hlen.
  destruct (lookup_lt_is_Some_2 rst (Z.to_nat n)) as [l El]; [lia|].
  destruct (H _ _ El) as (l0 & El0 & Hl & Hin). rewrite Z2Nat.id in Hl, Hin by lia.
  assert (l0 = []) as ->.
  { apply list_elem_of_lookup_2, list_elem_of_In, repeat_spec in El0. done. }
  exists (std_sort less_busy l). unfold at_index. rewrite decide_False by lia.
  rewrite list_lookup_fmap, El. split; [done|]. rewrite std_sort_perm. simpl in Hl.
  split; [rewrite Hl; by apply Hmany|]. intros c Hc. rewrite std_sort_perm in Hc.
  destruct (Hin c Hc) as [[]%elem_of_nil|(j & -> & Hj)]. by rewrite decide_False, Nat2Z.id by lia.
Qed.
End sorted.

(** ** The table of queues *)

Definition find_queue (m : gmap string (gmap Z QueueInfo)) (dev : string) (que : Z) :
    option QueueInfo := m !! dev ≫= λ queues, queues !! que.

Lemma queue_at_find m dev que : queue_at dev que m = default QueueInfo0 (find_queue m dev que).
Proof. unfold queue_at, find_queue. by destruct (m !! dev). Qed.

Lemma find_update dev que f m dev' que' :
  find_queue (update_queue dev que f m) dev' que' =
  if decide (dev' = dev ∧ que' = que) then Some (f (default QueueInfo0 (find_queue m dev que)))
  else find_queue m dev' que'.
Proof.
  unfold find_queue, update_queue. destruct (decide (dev' = dev)) as [->|Hd].
  - rewrite lookup_insert_eq. simpl. destruct (decide (que' = que)) as [->|Hq].
    + rewrite lookup_insert_eq, decide_True by done. by destruct (m !! dev).
    + rewrite lookup_insert_ne, decide_False by naive_solver. by destruct (m !! dev).
  - by rewrite lookup_insert_ne, decide_False by naive_solver.
Qed.

Lemma find_on_queues f m dev que :
  find_queue (on_queues f m) dev que = f dev que <$> find_queue m dev que.
Proof.
  unfold find_queue, on_queues. rewrite map_lookup_imap. destruct (m !! dev) as [qs|]; [|done].
  simpl. rewrite map_lookup_imap. by destruct (qs !! que).
Qed.

Lemma find_clear m dev que :
  find_queue (omap valid_queues m) dev que =
  info ← find_queue m dev que; if decide (qi_irqId info = INVAILD_IRQ_ID) then None else Some info.
Proof.
  unfold find_queue. rewrite lookup_omap. destruct (m !! dev) as [qs|]; [|done]. simpl.
  unfold valid_queues. set (valid := filter _ qs).
  assert (valid !! que = info ← qs !! que;
    if decide (qi_irqId info = INVAILD_IRQ_ID) then None else Some info) as Hv.
  { subst valid. rewrite map_lookup_filter. destruct (qs !! que) as [info|]; [|done]. simpl.
    by repeat case_guard || case_decide. }
  case_decide as Ev; [|exact Hv]. simpl. by rewrite <-Hv, Ev.
Qed.

Section preprocessing.
Context `{MA : Machine} `{HI : HashOrderInt} `{HO : HashOrder}.

(** Counters whose sum is an [int]. *)
Definition counted (m : gmap string (gmap Z QueueInfo)) : Prop :=
  ∀ dev que info, find_queue m dev que = Some info →
    Forall (λ t, 0 ≤ t) (qi_numaRxTimes info) ∧ total (qi_numaRxTimes info) ≤ 2147483647.

(** The sum and the node of one queue. *)
Definition summed (info info' : QueueInfo) : Prop :=
  ∃ node, info' = set_sum (total (qi_numaRxTimes info)) node info ∧
    prefers (qi_numaRxTimes info) node.

(** The queues of [P] are done. *)
Definition partly (m : gmap string (gmap Z QueueInfo)) (P : string → Z → Prop)
    (m' : gmap string (gmap Z QueueInfo)) : Prop :=
  ∀ dev que, match find_queue m dev que with
  | Some info => ∃ info', find_queue m' dev que = Some info' ∧
      (info' = info ∨ summed info info') ∧ (P dev que → summed info info')
  | None => find_queue m' dev que = None
  end.

Lemma partly_step m (P P' : string → Z → Prop) m' dev que info node :
  find_queue m dev que = Some info → prefers (qi_numaRxTimes info) node →
  (∀ dev' que', P' dev' que' → P dev' que' ∨ (dev' = dev ∧ que' = que)) →
  partly m P m' →
  partly m P' (update_queue dev que (set_sum (total (qi_numaRxTimes info)) node) m').
Proof.
  intros Ei Hn HP' Hm dev' que'. specialize (Hm dev' que') as Hm'. rewrite find_update.
  destruct (decide (dev' = dev ∧ que' = que)) as [[-> ->]|Hne].
  - rewrite Ei in Hm' |- *. destruct Hm' as (info' & -> & Hor & _). eexists. split; [done|].
    assert (summed info (set_sum (total (qi_numaRxTimes info)) node (default QueueInfo0 (Some info'))))
      as Hs; [|by split; [right|]].
    exists node. split; [|done]. destruct Hor as [->|(n & -> & _)]; done.
  - destruct (find_queue m dev' que') as [info0|]; [|done].
    destruct Hm' as (info' & Ei' & Hor & Hp). exists info'. split_and!; [done|done|].
    intros H. apply Hp. destruct (HP' _ _ H); [done|by destruct Hne].
Qed.

Lemma TunePreprocessing_twp s :
  counted (netQueue s) →
  twp TunePreprocessing (λ _ s', only_queues s s' ∧
    partly (netQueue s) (λ _ _, True) (netQueue s')) s.
Proof.
  intros Hc. unfold TunePreprocessing. apply twp_bind, twp_get. set (m := netQueue s).
  assert (∀ dev qs que info, (dev, qs) ∈ named_in_order m → (que, info) ∈ in_order qs →
    find_queue m dev que = Some info) as Hfind.
  { intros dev qs que info Hd%elem_of_named_in_order Hq%elem_of_in_order.
    unfold find_queue. by rewrite Hd. }
  eapply twp_mono.
  { apply (twp_for_each_idx _ _ (λ done s', only_queues s s' ∧
      partly m (λ dev _, ∃ qs, (dev, qs) ∈ done) (netQueue s'))).
    - split; [apply only_queues_refl|]. intros dev que. fold m.
      destruct (find_queue m dev que) as [info|]; [|done]. exists info.
      split_and!; [done|by left|]. by intros (qs & []%elem_of_nil).
    - intros l1 [dev qs] l2 s1 El [Ho H1].
      assert ((dev, qs) ∈ named_in_order m) as Hdev by (rewrite El; set_solver).
      eapply twp_mono.
      { apply (twp_for_each_idx _ _ (λ done s', only_queues s s' ∧
          partly m (λ dev' que, (∃ qs, (dev', qs) ∈ l1) ∨ dev' = dev ∧ ∃ i, (que, i) ∈ done)
            (netQueue s'))).
        - split; [done|]. intros dev' que. specialize (H1 dev' que).
          destruct (find_queue m dev' que) as [info|]; [|done].
          destruct H1 as (info' & E & Hor & Hp). exists info'. split_and!; [done|done|].
          intros [?|(_ & i & []%elem_of_nil)]. by apply Hp.
        - intros k1 [que info] k2 s2 Ek [Ho2 H2].
          assert (find_queue m dev que = Some info) as Ei.
          { eapply Hfind; [done|]. cbn [snd] in Ek. rewrite Ek. set_solver. }
          destruct (Hc dev que info Ei) as [Hpos Hmax].
          destruct (max_node_prefers _ Hpos Hmax) as (node & En & Hn).
          cbn [fst snd]. apply twp_bind. eapply twp_deref; [exact En|]. apply twp_modify.
          split; [eapply only_queues_trans; [done|by eexists]|].
          apply partly_step with (2 := Hn) (4 := H2); [done|].
          intros dev' que'.
          intros [?|(-> & i & Hi)]; [by left; left|]. apply elem_of_app in Hi as [?|Hi].
          + left. right. eauto.
          + apply list_elem_of_singleton in Hi. right. by simplify_eq. }
      intros _ s2 [Ho2 H2]. split; [done|]. intros dev' que. specialize (H2 dev' que).
      destruct (find_queue m dev' que) as [info|] eqn:Ei; [|done].
      destruct H2 as (info' & E & Hor & Hp). exists info'. split_and!; [done|done|].
      intros (qs' & [Hin|Hin%list_elem_of_singleton]%elem_of_app); apply Hp; [left; eauto|right].
      simplify_eq. split; [done|]. exists info. apply elem_of_in_order.
      unfold find_queue in Ei. apply elem_of_named_in_order in Hdev. by rewrite Hdev in Ei. }
  intros _ s' [Ho H]. split; [done|]. intros dev que. specialize (H dev que).
  destruct (find_queue m dev que) as [info|] eqn:Ei; [|done].
  destruct H as (info' & E & Hor & Hp). exists info'. split_and!; [done|done|]. intros _. apply Hp.
  unfold find_queue in Ei. destruct (m !! dev) as [qs|] eqn:Eq; [|done]. exists qs.
  by apply elem_of_named_in_order.
Qed.
End preprocessing.

Section migrate.
Context `{MA : Machine} `{IF : !IrqFiles MA} `{HI : HashOrderInt} `{HO : HashOrder}
  `{SS : StdSort}.

(** An interrupt that is already bound to its node stays. *)
Definition stays (e : Env) (u : HardIrqMigUint) : Prop :=
  mu_lastBindCore u ≠ -1 ∧ at_index (cpu2Numa e) (mu_lastBindCore u) = Some (mu_preferredNode u).
#[export] Instance stays_dec e u : Decision (stays e u).
Proof. unfold stays. apply _. Defined.

(** A unit was made of the queue's [info]. *)
Definition made_of (e : Env) (m : gmap string (gmap Z QueueInfo)) (u : HardIrqMigUint)
    (info : QueueInfo) : Prop :=
  find_queue m (mu_dev u) (mu_queId u) = Some info ∧ mig_unit e (mu_dev u) info = Some u ∧
  0 ≤ mu_preferredNode u < numaNum e.

(** What becomes of the queue and the interrupt of a unit: bound to a
    processor of the preferred node, unless it stays or the kernel refuses. *)
Definition placed (e : Env) (u : HardIrqMigUint) (info : QueueInfo) (s s' : NetHardIrq) : Prop :=
  let irq := mu_irqId u in
  let after := find_queue (netQueue s') (mu_dev u) (mu_queId u) in
  if decide (stays e u) then after = Some info ∧ affinity s' irq = affinity s irq
  else ∃ cpu, at_index (cpu2Numa e) cpu = Some (mu_preferredNode u) ∧
    (after = Some (set_lastBindCpu cpu info) ∧ affinity s' irq = Some (to_string cpu) ∨
     after = Some info ∧ affinity s' irq = affinity s irq ∧
       (affinity s irq = None ∨ aff_takes irq (to_string cpu) = false)).

Definition others_same (dev : string) (que irq : Z) (s s' : NetHardIrq) : Prop :=
  (∀ dev' que', ¬ (dev' = dev ∧ que' = que) →
    find_queue (netQueue s') dev' que' = find_queue (netQueue s) dev' que') ∧
  (∀ irq', irq' ≠ irq → affinity s' irq' = affinity s irq').

Lemma mig_unit_fields e dev info u : mig_unit e dev info = Some u →
  mu_irqId u = qi_irqId info ∧ mu_rxSum u = qi_rxSum info ∧ mu_queId u = qi_queueId info ∧
  mu_dev u = dev ∧ mu_lastBindCore u = qi_lastBindCpu info ∧
  mu_preferredNode u = qi_rxMaxNode info ∧
  (qi_lastBindCpu info = -1 ∨ is_Some (at_index (cpu2Numa e) (qi_lastBindCpu info))).
Proof.
  unfold mig_unit, INVALID_CPU_ID. case_decide as Hl.
  - intros [= <-]. simpl. split_and!; try done. by left.
  - destruct (at_index (cpu2Numa e) (qi_lastBindCpu info)) as [node|]; [|done].
    intros [= <-]. simpl. split_and!; try done. right. by eexists.
Qed.

Lemma stays_spec e u info (Q : bool → NetHardIrq → Prop) s :
  mig_unit e (mu_dev u) info = Some u → Q (bool_decide (stays e u)) s →
  twp (if decide (mu_lastBindCore u = -1) then mret false else
       node ← deref (at_index (cpu2Numa e) (mu_lastBindCore u));
       mret (bool_decide (mu_preferredNode u = node))) Q s.
Proof.
  intros Hu HQ. destruct (mig_unit_fields _ _ _ _ Hu) as (_ & _ & _ & _ & El & _ & Hl).
  case_decide as Hm.
  - apply twp_ret. rewrite bool_decide_false in HQ by (by intros [? _]). exact HQ.
  - rewrite <-El in Hl. destruct Hl as [?|[node En]]; [done|]. apply twp_bind.
    eapply twp_deref; [exact En|]. apply twp_ret.
    erewrite bool_decide_ext; [exact HQ|]. unfold stays. rewrite En. naive_solver.
Qed.

Lemma migrate_unit_twp e lists cnt K u info s :
  hi_env s = e → env_ok e → sorted_ok e lists →
  length cnt = Z.to_nat (numaNum e) → Forall (λ c, 0 ≤ c ≤ K) cnt → K < 2147483647 →
  made_of e (netQueue s) u info →
  twp (migrate_unit lists cnt u) (λ cnt' s', hi_env s' = e ∧ length cnt' = length cnt ∧
    Forall (λ c, 0 ≤ c ≤ K + 1) cnt' ∧ placed e u info s s' ∧
    others_same (mu_dev u) (mu_queId u) (mu_irqId u) s s') s.
Proof.
  intros Ee Hok Hsort Hlen Hcnt HK (Ei & Hu & Hnode).
  assert (Forall (λ c, 0 ≤ c ≤ K + 1) cnt) as Hcnt'.
  { eapply list.Forall_impl; [exact Hcnt|]. intros c Hc. simpl in Hc. lia. }
  unfold migrate_unit. apply twp_bind, twp_get. rewrite Ee. apply twp_bind.
  eapply stays_spec; [exact Hu|]. unfold placed.
  destruct (decide (stays e u)) as [Hst|Hst].
  { rewrite bool_decide_true by done. apply twp_ret. by split_and!. }
  rewrite bool_decide_false by done.
  destruct (Hsort _ Hnode) as (l & El & Hl & Hcpu). apply twp_bind. eapply twp_deref; [exact El|].
  destruct (lookup_lt_is_Some_2 cnt (Z.to_nat (mu_preferredNode u))) as [c Ec]; [lia|].
  apply twp_bind. eapply twp_deref; [unfold at_index; rewrite decide_False by lia; exact Ec|].
  pose proof Hok as [Hnuma _ _ _ _]. rewrite decide_False by lia.
  assert (0 ≤ c ≤ K) as Hc.
  { rewrite list.Forall_forall in Hcnt. by apply Hcnt, list_elem_of_lookup_2 with (Z.to_nat (mu_preferredNode u)). }
  rewrite wrap_id by (apply in_range_uint; lia).
  pose proof (Z.mod_pos_bound c (numaNum e) ltac:(lia)) as Hmod.
  destruct (lookup_lt_is_Some_2 l (Z.to_nat (c `mod` numaNum e))) as [cs Ecs]; [lia|].
  apply twp_bind. eapply twp_deref.
  { unfold at_index. rewrite decide_False, Ecs by lia. reflexivity. }
  specialize (Hcpu cs ltac:(by eapply list_elem_of_lookup_2)).
  apply twp_bind. unfold twp at 1.
  destruct (IrqSet_spec (mu_irqId u) (to_string (cs_cpu cs)) s) as (err & m' & -> & H).
  destruct (decide (err = 0)) as [->|Herr].
  - destruct H as (_ & _ & Ha). rewrite decide_False by (by intros []).
    apply twp_bind. eapply twp_deref.
    { unfold add_int. rewrite decide_True by (apply in_range_int; lia). reflexivity. }
    apply twp_bind, twp_modify, twp_ret. split; [done|]. split; [by rewrite length_insert|].
    split. { apply Forall_insert; [done|lia]. }
    split.
    + exists (cs_cpu cs). split; [done|]. left. simpl. rewrite find_update, decide_True by done.
      rewrite Ei. split; [done|]. unfold affinity. simpl. rewrite Ha. by rewrite decide_True.
    + split.
      * intros dev' que' Hne. simpl. rewrite find_update. by rewrite decide_False.
      * intros irq' Hne. unfold affinity. simpl. rewrite Ha. by rewrite decide_False.
  - destruct H as [Ha Ht]. rewrite decide_True by done. apply twp_ret.
    split; [done|]. split; [done|]. split; [done|]. split.
    + exists (cs_cpu cs). split; [done|]. right. split; [exact Ei|]. split; [apply Ha|].
      destruct (affinity s (mu_irqId u)); [right|by left]. apply Ht. by eexists.
    + split; [done|]. intros irq' _. apply Ha.
Qed.

(** ** All the units *)

Definition key_of_unit (u : HardIrqMigUint) : string * Z := (mu_dev u, mu_queId u).

Lemma placed_later e u info s s1 s' :
  find_queue (netQueue s') (mu_dev u) (mu_queId u) = find_queue (netQueue s1) (mu_dev u) (mu_queId u) →
  affinity s' (mu_irqId u) = affinity s1 (mu_irqId u) →
  placed e u info s s1 → placed e u info s s'.
Proof. intros Hq Ha. unfold placed. by rewrite Hq, Ha. Qed.
Lemma placed_earlier e u info s s1 s' :
  affinity s1 (mu_irqId u) = affinity s (mu_irqId u) → placed e u info s1 s' → placed e u info s s'.
Proof. intros Ha. unfold placed. by rewrite Ha. Qed.

Lemma migrate_units_twp e lists units cnt K s :
  hi_env s = e → env_ok e → sorted_ok e lists →
  length cnt = Z.to_nat (numaNum e) → Forall (λ c, 0 ≤ c ≤ K) cnt →
  K + Z.of_nat (length units) ≤ 2147483647 →
  NoDup (key_of_unit <$> units) → NoDup (mu_irqId <$> units) →
  (∀ u, u ∈ units → ∃ info, made_of e (netQueue s) u info) →
  twp (migrate_units lists cnt units) (λ _ s',
    (∀ u info, u ∈ units → made_of e (netQueue s) u info → placed e u info s s') ∧
    (∀ dev que, (dev, que) ∉ key_of_unit <$> units →
      find_queue (netQueue s') dev que = find_queue (netQueue s) dev que) ∧
    (∀ irq, irq ∉ mu_irqId <$> units → affinity s' irq = affinity s irq)) s.
Proof.
  intros Ee Hok Hsort. revert cnt K s Ee.
  induction units as [|u units IH]; intros cnt K s Ee Hlen Hcnt HK Hnd Hndi Hmade.
  { apply twp_ret. split_and!; [|done|done]. by intros u info ?%elem_of_nil. }
  cbn in Hnd, Hndi. apply list.NoDup_cons in Hnd as [Hkey Hnd]. apply list.NoDup_cons in Hndi as [Hirq Hndi].
  cbn [length] in HK. destruct (Hmade u) as [info Hu]; [by left|].
  cbn [migrate_units]. apply twp_bind.
  eapply twp_mono; [by apply migrate_unit_twp with (K := K) (info := info); [..|lia|]|].
  intros cnt1 s1 (Ee1 & Hlen1 & Hcnt1 & Hplaced & Hq1 & Ha1).
  assert (∀ v, v ∈ units → ¬ (mu_dev v = mu_dev u ∧ mu_queId v = mu_queId u) ∧
    mu_irqId v ≠ mu_irqId u) as Hother.
  { intros v Hv. split.
    - intros [E1 E2]. apply Hkey. apply list_elem_of_fmap. exists v. unfold key_of_unit. by rewrite E1, E2.
    - intros E. apply Hirq. apply list_elem_of_fmap. by exists v. }
  assert (∀ v i, v ∈ units → made_of e (netQueue s) v i → made_of e (netQueue s1) v i) as Hmade1.
  { intros v i Hv [E HE]. split; [|exact HE]. by rewrite Hq1 by (by apply Hother). }
  eapply twp_mono.
  { eapply (IH cnt1 (K + 1) s1 Ee1); [congruence|done|lia|done|done|].
    intros v Hv. destruct (Hmade v) as [i Hi]; [by right|]. exists i. by apply Hmade1. }
  intros _ s' (Hall & Hq & Ha). split_and!.
  - intros v i [->|Hv]%elem_of_cons Hi.
    + assert (i = info) as -> by (destruct Hi as [E _], Hu as [E' _]; congruence).
      by eapply placed_later; [apply Hq|apply Ha|].
    + eapply placed_earlier; [by apply Ha1, Hother|]. apply Hall; [done|by apply Hmade1].
  - intros dev que. cbn [fmap list_fmap]. rewrite not_elem_of_cons. intros [Hne Hnin].
    rewrite Hq by done. apply Hq1. unfold key_of_unit in Hne. by intros [-> ->].
  - intros irq. cbn [fmap list_fmap]. rewrite not_elem_of_cons. intros [Hne Hnin].
    rewrite Ha by done. by apply Ha1.
Qed.

(** The units of the busy queues. *)
Lemma elem_of_busy_queues s dev info :
  (dev, info) ∈ busy_queues s ↔
  ∃ que, find_queue (netQueue s) dev que = Some info ∧ NET_RXT_THRESHOLD ≤ qi_rxSum info.
Proof.
  unfold busy_queues. rewrite list_elem_of_join. split.
  - intros (l & Hin & Hl). apply list_elem_of_In, in_map_iff in Hl as ([d qs] & <- & Hd).
    apply list_elem_of_In, elem_of_named_in_order in Hd. cbn [fst snd] in Hin.
    apply list_elem_of_In, in_map_iff in Hin as (i & [= -> ->] & Hi).
    apply list_elem_of_In, list_elem_of_filter in Hi as [Hs Hi].
    apply list_elem_of_fmap in Hi as ([que i] & -> & Hi). apply elem_of_in_order in Hi.
    exists que. unfold find_queue. by rewrite Hd.
  - intros (que & E & Hs). unfold find_queue in E. destruct (netQueue s !! dev) as [qs|] eqn:Ed; [|done].
    exists (map (pair dev) (filter (λ info, NET_RXT_THRESHOLD ≤ qi_rxSum info) (in_order qs).*2)). split.
    + apply list_elem_of_In, in_map_iff. exists info. split; [done|].
      apply list_elem_of_In, list_elem_of_filter. split; [done|]. apply list_elem_of_fmap.
      exists (que, info). split; [done|]. by apply elem_of_in_order.
    + apply list_elem_of_In, in_map_iff. exists (dev, qs). split; [done|].
      by apply list_elem_of_In, elem_of_named_in_order.
Qed.

(** The identity of a queue is its key. *)
Definition numbered (m : gmap string (gmap Z QueueInfo)) : Prop :=
  ∀ dev que info, find_queue m dev que = Some info → qi_queueId info = que.

Definition key_of_queue (x : string * QueueInfo) : string * Z := (x.1, qi_queueId x.2).

Lemma busy_queues_NoDup s : numbered (netQueue s) → NoDup (key_of_queue <$> busy_queues s).
Proof.
  intros Hnum. unfold busy_queues.
  assert (∀ l, (∀ dev qs, (dev, qs) ∈ l → netQueue s !! dev = Some qs) → NoDup l.*1 →
    NoDup (key_of_queue <$> mjoin (map (λ dev : string * gmap Z QueueInfo, map (pair dev.1)
      (filter (λ info, NET_RXT_THRESHOLD ≤ qi_rxSum info) (in_order dev.2).*2)) l))) as H.
  2: { apply H; [|apply named_in_order_NoDup]. intros dev qs. apply elem_of_named_in_order. }
  induction l as [|[dev qs] l IH]; intros Hl Hnd; [constructor|].
  cbn in Hnd. apply list.NoDup_cons in Hnd as [Hdev Hnd]. cbn [map mjoin list_join]. rewrite fmap_app.
  assert (∀ que i, (que, i) ∈ in_order qs → qi_queueId i = que) as Hque.
  { intros que i Hi%elem_of_in_order. apply (Hnum dev). unfold find_queue.
    by rewrite (Hl dev qs) by (by left). }
  cbn [fst snd]. apply list.NoDup_app. split_and!.
  - apply (sublist_NoDup _ (pair dev <$> (in_order qs).*1)).
    { apply (NoDup_fmap_2 (pair dev)), in_order_NoDup. }
    assert (pair dev <$> (in_order qs).*1 = (λ i, (dev, qi_queueId i)) <$> (in_order qs).*2) as ->.
    { rewrite <-!list_fmap_compose. apply list_fmap_ext. intros j [que i] Hj. simpl.
      by rewrite (Hque que i) by (by eapply list_elem_of_lookup_2). }
    assert (∀ k : list QueueInfo, key_of_queue <$> map (pair dev) k =
      (λ i, (dev, qi_queueId i)) <$> k) as ->.
    { intros k. induction k as [|i k IHk]; [done|]. cbn. by f_equal. }
    apply fmap_sublist, sublist_filter.
  - intros [d que] Hin Hin'. apply list_elem_of_fmap in Hin as ([d1 i1] & [= -> ->] & Hin).
    apply list_elem_of_In, in_map_iff in Hin as (i & [= -> ->] & _).
    apply list_elem_of_fmap in Hin' as ([d2 i2] & [= -> _] & Hin').
    apply list_elem_of_join in Hin' as (k & Hk & Hin').
    apply list_elem_of_In, in_map_iff in Hin' as ([d3 q3] & <- & Hin').
    apply list_elem_of_In, in_map_iff in Hk as (i3 & [= -> ->] & _).
    apply Hdev. apply list_elem_of_fmap. exists (d2, q3). split; [done|]. by apply list_elem_of_In.
  - apply IH; [|done]. intros d q Hd. apply Hl. by right.
Qed.

(** What is needed of the queues: an identity, a node and a processor that the
    machine has, an interrupt of their own, and fewer than an [int] counts. *)
Record queues_ok (e : Env) (m : gmap string (gmap Z QueueInfo)) : Prop := {
  qs_numbered : numbered m;
  qs_node dev que info : find_queue m dev que = Some info → 0 ≤ qi_rxMaxNode info < numaNum e;
  qs_last dev que info : find_queue m dev que = Some info →
    qi_lastBindCpu info = -1 ∨ is_Some (at_index (cpu2Numa e) (qi_lastBindCpu info));
  qs_irq dev que info dev' que' info' :
    find_queue m dev que = Some info → find_queue m dev' que' = Some info' →
    qi_irqId info = qi_irqId info' → dev = dev' ∧ que = que';
  qs_few l : NoDup l → (∀ x, x ∈ l → is_Some (find_queue m x.1 x.2)) →
    Z.of_nat (length l) ≤ 2147483647
}.

(** What becomes of a queue: nothing where it is not busy or its interrupt is
    on the node already; else it is bound to a processor of its node, or the
    kernel refuses that processor. *)
Definition settled (e : Env) (dev : string) (que : Z) (info : QueueInfo) (s s' : NetHardIrq) : Prop :=
  let irq := qi_irqId info in
  let after := find_queue (netQueue s') dev que in
  if decide (qi_rxSum info < NET_RXT_THRESHOLD ∨ qi_lastBindCpu info ≠ -1 ∧
       at_index (cpu2Numa e) (qi_lastBindCpu info) = Some (qi_rxMaxNode info))
  then after = Some info ∧ affinity s' irq = affinity s irq
  else ∃ cpu, at_index (cpu2Numa e) cpu = Some (qi_rxMaxNode info) ∧
    (after = Some (set_lastBindCpu cpu info) ∧ affinity s' irq = Some (to_string cpu) ∨
     after = Some info ∧ affinity s' irq = affinity s irq ∧
       (affinity s irq = None ∨ aff_takes irq (to_string cpu) = false)).

Lemma units_of_queues s :
  queues_ok (hi_env s) (netQueue s) → ∃ units, mig_units s = Some units ∧
    key_of_unit <$> units = key_of_queue <$> busy_queues s ∧
    (∀ u, u ∈ units → ∃ info, made_of (hi_env s) (netQueue s) u info ∧
       NET_RXT_THRESHOLD ≤ qi_rxSum info) ∧
    (∀ dev que info, find_queue (netQueue s) dev que = Some info →
       NET_RXT_THRESHOLD ≤ qi_rxSum info →
       ∃ u, u ∈ units ∧ made_of (hi_env s) (netQueue s) u info ∧ key_of_unit u = (dev, que)).
Proof.
  intros [Hnum Hnode Hlast _ _]. unfold mig_units.
  assert (∀ dev que info, find_queue (netQueue s) dev que = Some info →
    ∃ u, mig_unit (hi_env s) dev info = Some u ∧ made_of (hi_env s) (netQueue s) u info ∧
      key_of_unit u = (dev, que)) as Hunit.
  { intros dev que info E. pose proof (Hnum _ _ _ E) as Eq.
    assert (is_Some (mig_unit (hi_env s) dev info)) as [u Hu].
    { unfold mig_unit, INVALID_CPU_ID. destruct (Hlast _ _ _ E) as [->|[n En]]; [by eexists|].
      case_decide; [by eexists|]. rewrite En. by eexists. }
    exists u. destruct (mig_unit_fields _ _ _ _ Hu) as (_ & _ & Eid & Edev & _ & En & _).
    split; [done|]. unfold made_of, key_of_unit. rewrite Edev, Eid, En, Eq.
    split; [|done]. split; [done|]. split; [done|]. by eapply Hnode. }
  destruct (mapM_is_Some_2 (λ x, mig_unit (hi_env s) x.1 x.2) (busy_queues s)) as [units Eu].
  { apply list.Forall_forall. intros [dev info] (que & E & _)%elem_of_busy_queues. simpl.
    destruct (Hunit _ _ _ E) as (u & -> & _). by eexists. }
  exists units. split; [done|]. pose proof Eu as Hf2. apply mapM_Some in Hf2.
  split_and!.
  - clear -Hf2. induction Hf2 as [|[dev info] u l k Hu _ IH]; [done|]. simpl in Hu.
    destruct (mig_unit_fields _ _ _ _ Hu) as (_ & _ & Eid & Edev & _). cbn. rewrite IH.
    unfold key_of_unit, key_of_queue. by rewrite Eid, Edev.
  - intros u Hin. apply list_elem_of_lookup in Hin as [j Ej].
    destruct (Forall2_lookup_r _ _ _ _ _ Hf2 Ej) as ([dev info] & Ex & Hu). simpl in Hu.
    apply list_elem_of_lookup_2, elem_of_busy_queues in Ex as (que & E & Hb).
    destruct (Hunit _ _ _ E) as (u' & Hu' & Hm & _). assert (u' = u) as -> by congruence. eauto.
  - intros dev que info E Hb. destruct (Hunit _ _ _ E) as (u & Hu & Hm & Hk).
    exists u. split; [|done].
    assert ((dev, info) ∈ busy_queues s) as Hin by (apply elem_of_busy_queues; eauto).
    apply list_elem_of_lookup in Hin as [j Ej].
    destruct (Forall2_lookup_l _ _ _ _ _ Hf2 Ej) as (u' & Eu' & Hu'). simpl in Hu'.
    assert (u' = u) as -> by congruence. by eapply list_elem_of_lookup_2.
Qed.

Lemma MigrateHardIrq_twp s :
  env_ok (hi_env s) → queues_ok (hi_env s) (netQueue s) →
  twp MigrateHardIrq (λ _ s', ∀ dev que, match find_queue (netQueue s) dev que with
    | Some info => settled (hi_env s) dev que info s s'
    | None => find_queue (netQueue s') dev que = None
    end) s.
Proof.
  intros Hok Hqs. destruct (units_of_queues _ Hqs) as (units & Eu & Hkeys & Hmade & Hfind).
  pose proof Hqs as [Hnum _ _ Hirq Hfew].
  destruct (SortNumaCpuUtil_ok _ Hok) as (lists & El & Hsort). set (e := hi_env s) in *.
  set (sorted := std_sort before units).
  assert (∀ u, u ∈ sorted ↔ u ∈ units) as Hin by (intros u; unfold sorted; by rewrite std_sort_perm).
  assert (NoDup (key_of_unit <$> units)) as Hnd by (rewrite Hkeys; by apply busy_queues_NoDup).
  assert (∀ u v, u ∈ units → v ∈ units → mu_irqId u = mu_irqId v → key_of_unit u = key_of_unit v) as Hinj.
  { intros u v Hu Hv E. destruct (Hmade u Hu) as (i & (Ei & Hmi & _) & _).
    destruct (Hmade v Hv) as (j & (Ej & Hmj & _) & _).
    destruct (mig_unit_fields _ _ _ _ Hmi) as (E1 & _). destruct (mig_unit_fields _ _ _ _ Hmj) as (E2 & _).
    destruct (Hirq _ _ _ _ _ _ Ei Ej) as [Ed Eq]; [congruence|]. unfold key_of_unit. congruence. }
  unfold MigrateHardIrq. apply twp_bind, twp_get, twp_bind. eapply twp_deref; [exact Eu|].
  apply twp_bind. eapply twp_deref; [exact El|].
  eapply twp_mono.
  { eapply (migrate_units_twp e lists sorted _ 0 s eq_refl Hok Hsort).
    - by rewrite repeat_length.
    - apply list.Forall_forall. intros c Hc%list_elem_of_In%repeat_spec. lia.
    - unfold sorted. rewrite std_sort_perm, Z.add_0_l, <-(length_fmap key_of_unit). apply Hfew; [done|].
      intros x Hx. apply list_elem_of_fmap in Hx as (u & -> & Hu).
      destruct (Hmade u Hu) as (i & (Ei & _) & _). by exists i.
    - unfold sorted. by rewrite std_sort_perm.
    - unfold sorted. rewrite std_sort_perm. clear -Hnd Hinj.
      induction units as [|u units IH]; [constructor|]. cbn in *. apply list.NoDup_cons in Hnd as [Hu Hnd].
      apply list.NoDup_cons. split.
      + intros (v & E & Hv)%list_elem_of_fmap. apply Hu. apply list_elem_of_fmap. exists v.
        split; [|done]. apply Hinj; [by left|by right|done].
      + apply IH; [done|]. intros v w Hv Hw. apply Hinj; by right.
    - intros u Hu%Hin. destruct (Hmade u Hu) as (i & Hi & _). by exists i. }
  intros _ s' (Hplaced & Hq & Ha) dev que. destruct (find_queue (netQueue s) dev que) as [info|] eqn:Ei.
  - unfold settled. fold e. destruct (decide (NET_RXT_THRESHOLD ≤ qi_rxSum info)) as [Hb|Hb].
    + destruct (Hfind _ _ _ Ei Hb) as (u & Hu & Hm & Hk). injection Hk as <- <-.
      pose proof (Hplaced u info (proj2 (Hin u) Hu) Hm) as Hp. unfold placed in Hp.
      destruct Hm as (_ & Hmi & _). destruct (mig_unit_fields _ _ _ _ Hmi) as (E1 & _ & _ & _ & E2 & E3 & _).
      rewrite E1, E3 in Hp. destruct (decide (stays e u)) as [Hst|Hst]; unfold stays in Hst; rewrite E2, E3 in Hst.
      * rewrite decide_True by (by right). exact Hp.
      * rewrite decide_False by (intros [?|?]; [lia|done]). exact Hp.
    + rewrite decide_True by (left; lia).
      assert ((dev, que) ∉ key_of_unit <$> units) as Hnk.
      { intros (u & Hk & Hu)%list_elem_of_fmap. destruct (Hmade u Hu) as (i & (Ei' & _) & Hb').
        injection Hk as -> ->. by assert (i = info) as -> by congruence. }
      assert ((dev, que) ∉ key_of_unit <$> sorted) as Hnk' by (unfold sorted; by rewrite std_sort_perm).
      split; [by rewrite Hq|]. apply Ha. intros (u & Hk & Hu%Hin)%list_elem_of_fmap.
      destruct (Hmade u Hu) as (i & (Ei' & Hmi & _) & _).
      destruct (mig_unit_fields _ _ _ _ Hmi) as (E1 & _).
      destruct (Hirq _ _ _ _ _ _ Ei Ei') as [-> ->]; [congruence|].
      apply Hnk. apply list_elem_of_fmap. by exists u.
  - rewrite Hq; [done|]. unfold sorted. rewrite std_sort_perm.
    intros (u & Hk & Hu)%list_elem_of_fmap. injection Hk as -> ->.
    destruct (Hmade u Hu) as (i & (Ei' & _) & _). by rewrite Ei in Ei'.
Qed.
End migrate.
