(* ===== verification/HardIrqTheorems.v ===== *)
(** * Tuning as a whole

    What [Tune] makes of the queues; and runs of it on a small machine. *)

From Stdlib Require Import ZArith Lia Strings.Byte.
From stdpp Require Import base list strings gmap numbers.
From S2P Require Import Prelude Bytes StdString Utils DataTypes Registry Daemon Config Machine.
From S2P Require Import Doubles IrqFrontEnd SecureC World Steps HardIrq HardIrqMatch HardIrqRestore.
From S2P Require Import HardIrqTune.

Section tune.
Context `{MA : Machine} `{IF : !IrqFiles MA} `{HI : HashOrderInt} `{HO : HashOrder}
  `{SS : StdSort}.

(** The queue with the interrupt that the patterns have found for it. *)
Definition assigned (s : NetHardIrq) (dev : string) (que : Z) (info : QueueInfo) : QueueInfo :=
  add_irq (ethQueData s) dev que info.

(** What the state must be: counters as [MatchThreadAndQueue] leaves them, an
    identity for the queues that had an interrupt, an interrupt for one queue
    only, and fewer queues than an [int] counts. *)
Record ready (s : NetHardIrq) : Prop := {
  rd_env : env_ok (hi_env s);
  rd_counted : counted (netQueue s);
  rd_nodes dev que info : find_queue (netQueue s) dev que = Some info →
    Z.of_nat (length (qi_numaRxTimes info)) ≤ numaNum (hi_env s);
  rd_last dev que info : find_queue (netQueue s) dev que = Some info →
    qi_lastBindCpu info = -1 ∨ is_Some (at_index (cpu2Numa (hi_env s)) (qi_lastBindCpu info));
  rd_numbered dev que info : find_queue (netQueue s) dev que = Some info →
    qi_irqId info ≠ -1 → qi_queueId info = que;
  rd_irq dev que info dev' que' info' :
    find_queue (netQueue s) dev que = Some info → find_queue (netQueue s) dev' que' = Some info' →
    qi_irqId (assigned s dev que info) = qi_irqId (assigned s dev' que' info') →
    qi_irqId (assigned s dev que info) = -1 ∨ dev = dev' ∧ que = que';
  rd_few l : NoDup l → (∀ x, x ∈ l → is_Some (find_queue (netQueue s) x.1 x.2)) →
    Z.of_nat (length l) ≤ 2147483647
}.

Lemma add_irq_fields eths dev que info :
  qi_numaRxTimes (add_irq eths dev que info) = qi_numaRxTimes info ∧
  qi_lastBindCpu (add_irq eths dev que info) = qi_lastBindCpu info ∧
  (qi_queueId (add_irq eths dev que info) = que ∨ add_irq eths dev que info = info).
Proof.
  unfold add_irq. destruct (e ← eths !! dev; eq_que2Irq e !! que); simpl; split_and!; try done;
    [by left|by right].
Qed.

Lemma prefers_range times node n :
  0 < n → Z.of_nat (length times) ≤ n → prefers times node → 0 ≤ node < n.
Proof.
  intros Hn Hlen. unfold prefers. destruct times as [|t times]; [intros ->; lia|].
  intros (j & u & -> & Hj & _). apply lookup_lt_Some in Hj. lia.
Qed.

(** The queues that remain when interrupts have been looked up. *)
Definition with_irqs (s : NetHardIrq) : gmap string (gmap Z QueueInfo) :=
  omap valid_queues (on_queues (add_irq (ethQueData s)) (netQueue s)).

Lemma find_with_irqs s dev que :
  find_queue (with_irqs s) dev que =
  info ← find_queue (netQueue s) dev que;
  let i := assigned s dev que info in if decide (qi_irqId i = -1) then None else Some i.
Proof.
  unfold with_irqs. rewrite find_clear, find_on_queues.
  by destruct (find_queue (netQueue s) dev que).
Qed.

Lemma with_irqs_inv s dev que i : find_queue (with_irqs s) dev que = Some i →
  ∃ info, find_queue (netQueue s) dev que = Some info ∧ i = assigned s dev que info ∧
    qi_irqId i ≠ -1.
Proof.
  rewrite find_with_irqs. destruct (find_queue (netQueue s) dev que) as [info|]; [|done]. simpl.
  case_decide; [done|]. intros [= <-]. by exists info.
Qed.

(** After the sums, the queues are as [MigrateHardIrq] needs them. *)
Lemma summed_queues_ok s m3 :
  ready s → partly (with_irqs s) (λ _ _, True) m3 → queues_ok (hi_env s) m3.
Proof.
  intros [Henv Hcounted Hnodes Hlast Hnum Hirq Hfew] Hp.
  assert (∀ dev que i', find_queue m3 dev que = Some i' →
    ∃ info node, find_queue (netQueue s) dev que = Some info ∧
      qi_irqId (assigned s dev que info) ≠ -1 ∧ prefers (qi_numaRxTimes info) node ∧
      i' = set_sum (total (qi_numaRxTimes info)) node (assigned s dev que info)) as Hinv.
  { intros dev que i' E. specialize (Hp dev que).
    destruct (find_queue (with_irqs s) dev que) as [i|] eqn:Ei; [|congruence].
    destruct Hp as (i2 & E2 & _ & Hs). destruct (Hs I) as (node & Enode & Hn).
    destruct (with_irqs_inv _ _ _ _ Ei) as (info & Einfo & -> & Hne).
    destruct (add_irq_fields (ethQueData s) dev que info) as (Et & _ & _).
    unfold assigned in Hn, Enode. rewrite Et in Hn, Enode. exists info, node.
    split_and!; [done|done|done|]. rewrite E in E2. injection E2 as ->. exact Enode. }
  split.
  - intros dev que i' E. destruct (Hinv _ _ _ E) as (info & node & Einfo & Hne & _ & ->). simpl.
    destruct (add_irq_fields (ethQueData s) dev que info) as (_ & _ & [Eq|Eq]); [done|].
    unfold assigned in *. rewrite Eq in *. by eapply Hnum.
  - intros dev que i' E. destruct (Hinv _ _ _ E) as (info & node & Einfo & _ & Hpref & ->). simpl.
    destruct Henv as [? _ _ _ _]. eapply prefers_range; [lia|by eapply Hnodes|done].
  - intros dev que i' E. destruct (Hinv _ _ _ E) as (info & node & Einfo & _ & _ & ->). simpl.
    destruct (add_irq_fields (ethQueData s) dev que info) as (_ & El & _). unfold assigned.
    rewrite El. by eapply Hlast.
  - intros dev que i dev' que' i' E E' Eirq.
    destruct (Hinv _ _ _ E) as (info & node & Einfo & Hne & _ & ->).
    destruct (Hinv _ _ _ E') as (info' & node' & Einfo' & _ & _ & ->). simpl in Eirq.
    by destruct (Hirq _ _ _ _ _ _ Einfo Einfo' Eirq).
  - intros l Hnd Hl. apply Hfew; [done|]. intros x Hx. destruct (Hl x Hx) as [i Ei].
    destruct (Hinv _ _ _ Ei) as (info & _ & Einfo & _). by exists info.
Qed.

(** C8. Every busy queue's interrupt ends up on the node that receives most
    of its packets.  From a state that is ready, [Tune] returns; a queue
    whose interrupt is not known is dropped; for every other the sum of its
    counters is noted and a node with the most of them preferred, and then,
    when the sum is below the threshold or the interrupt is bound to the
    preferred node already, nothing else happens to it, and else it is bound
    to a processor of the preferred node, that of the kernel's affinity file
    and the one remembered being the same, unless the kernel refuses it. *)
Theorem tune_places_interrupts (s : NetHardIrq) (Hready : ready s) :
  twp Tune (λ _ s', ∀ dev que, match find_queue (netQueue s) dev que with
    | None => find_queue (netQueue s') dev que = None
    | Some info =>
      if decide (qi_irqId (assigned s dev que info) = -1)
      then find_queue (netQueue s') dev que = None
      else ∃ node, prefers (qi_numaRxTimes info) node ∧
        settled (hi_env s) dev que
          (set_sum (total (qi_numaRxTimes info)) node (assigned s dev que info)) s s'
    end) s.
Proof.
  unfold Tune, AddIrqToQueueInfo, ClearInvalidQueueInfo.
  apply twp_bind, twp_modify, twp_bind, twp_modify, twp_bind. cbn [netQueue set_netQueue].
  set (s2 := set_netQueue _ _). assert (netQueue s2 = with_irqs s) as E2 by done.
  eapply twp_mono; [apply TunePreprocessing_twp|].
  { rewrite E2. intros dev que i Ei. destruct (with_irqs_inv _ _ _ _ Ei) as (info & Einfo & -> & _).
    unfold assigned. destruct (add_irq_fields (ethQueData s) dev que info) as (-> & _).
    by eapply rd_counted. }
  intros [] s3 [[m3 ->] Hp]. rewrite E2 in Hp. cbn [netQueue set_netQueue] in Hp.
  eapply twp_mono; [apply MigrateHardIrq_twp; [exact (rd_env s Hready)|exact (summed_queues_ok s m3 Hready Hp)]|].
  intros [] s' H dev que. specialize (H dev que). cbn [netQueue set_netQueue] in H.
  specialize (Hp dev que). rewrite find_with_irqs in Hp.
  destruct (find_queue (netQueue s) dev que) as [info|]; simpl in Hp; [|by rewrite Hp in H].
  case_decide as Hirq; [by rewrite Hp in H|]. destruct Hp as (i' & Ei' & _ & Hs).
  destruct (Hs I) as (node & -> & Hn). rewrite Ei' in H.
  destruct (add_irq_fields (ethQueData s) dev que info) as (Et & _). unfold assigned in *.
  rewrite Et in *. exists node. split; [done|]. exact H.
Qed.
End tune.

(** ** Where the code falls short *)

Section limits.
Context `{MA : Machine} `{IF : !IrqFiles MA} `{HI : HashOrderInt} `{HO : HashOrder}
  `{SS : StdSort} `{RE : Regex}.

(** On a machine of one node, whose sorted processors start with [cpu]. *)
Definition binds_to (cpu : Z) (s s' : NetHardIrq) : Prop :=
  numaNum (hi_env s) = 1 → hi_env s' = hi_env s ∧
  ∀ dev que info', find_queue (netQueue s') dev que = Some info' →
    qi_lastBindCpu info' = cpu ∨ find_queue (netQueue s) dev que = Some info'.

#[export] Instance binds_to_preorder cpu : PreOrder (binds_to cpu).
Proof.
  split; [intros s _; auto|]. intros s1 s2 s3 H12 H23 H1. destruct (H12 H1) as [E2 Q2].
  destruct H23 as [E3 Q3]; [by rewrite E2|]. split; [congruence|]. intros dev que i Hi.
  destruct (Q3 _ _ _ Hi) as [?|Hi2]; [by left|]. auto.
Qed.

Lemma migrate_unit_binds c l cnt u : returns (binds_to (cs_cpu c)) (migrate_unit [c :: l] cnt u).
Proof.
  intros s cnt' s' E H1. unfold migrate_unit in E.
  apply bind_inv in E as (s0 & s1 & [= <- <-] & E). apply bind_inv in E as (st & s1 & Est & E).
  assert (s1 = s) as ->.
  { destruct (decide (mu_lastBindCore u = -1)); [by injection Est|].
    apply bind_inv in Est as (n' & s2 & [_ ->]%deref_inv & [= _ <-]). done. }
  destruct st; [injection E as _ <-; split; [done|]; intros dev que i Hi; by right|].
  apply bind_inv in E as (sl & s1 & [Esl ->]%deref_inv & E).
  apply bind_inv in E as (k & s1 & [_ ->]%deref_inv & E). rewrite H1 in E.
  rewrite decide_False in E by done.
  apply bind_inv in E as (cpu & s1 & [Ecpu ->]%deref_inv & E).
  assert (cpu = cs_cpu c) as ->.
  { rewrite Z.mod_1_r in Ecpu. unfold at_index in Esl.
    destruct (decide (mu_preferredNode u < 0)); [done|].
    destruct (Z.to_nat (mu_preferredNode u)); [|done]. injection Esl as <-. by injection Ecpu. }
  apply bind_inv in E as (err & s1 & Eset & E).
  destruct (IrqSet_spec (mu_irqId u) (to_string (cs_cpu c)) s) as (err' & m' & Eset' & _).
  rewrite Eset' in Eset. injection Eset as <- <-. destruct (decide (err' ≠ 0)).
  { injection E as _ <-. split; [done|]. by right. }
  apply bind_inv in E as (next & s1 & [_ ->]%deref_inv & E).
  apply bind_inv in E as ([] & s1 & [= <-] & [= _ <-]). split; [done|].
  intros dev que i. simpl. rewrite find_update. destruct (decide (_ ∧ _)) as [_|_];
    [intros [= <-]; by left|by right].
Qed.

Lemma migrate_units_binds c l cnt units :
  returns (binds_to (cs_cpu c)) (migrate_units [c :: l] cnt units).
Proof.
  revert cnt. induction units as [|u units IH]; intros cnt; [apply returns_ret; apply _|].
  cbn [migrate_units]. apply returns_bind; [apply _|apply migrate_unit_binds|]. intros ?. apply IH.
Qed.

(** Interrupts are not spread over a node: the processor is picked by
    the number of interrupts bound so far modulo the number of nodes, where
    the node's list of processors is meant.  On a machine of one node, every
    interrupt that [MigrateHardIrq] binds goes to one and the same processor,
    however many the node has. *)
Theorem one_node_one_processor (s : NetHardIrq)
    (Hone : numaNum (hi_env s) = 1) (Henv : env_ok (hi_env s))
    (Hqueues : queues_ok (hi_env s) (netQueue s)) :
  ∃ cpu, twp MigrateHardIrq (λ _ s', ∀ dev que info', find_queue (netQueue s') dev que = Some info' →
    qi_lastBindCpu info' = cpu ∨ find_queue (netQueue s) dev que = Some info') s.
Proof.
  destruct (SortNumaCpuUtil_ok _ Henv) as (lists & El & Hsort).
  destruct (Hsort 0) as (l & E0 & Hlen & _); [lia|]. destruct l as [|c l]; [simpl in Hlen; lia|].
  assert (length lists = 1%nat) as Hone'.
  { unfold SortNumaCpuUtil in El. rewrite Hone in El. simpl in El.
    destruct (numa_lists _ _ _ _) as [rst|] eqn:En; [|done]. injection El as <-.
    rewrite length_map. pose proof Henv as [_ Hnodes Hrows Hrow _].
    destruct (numa_lists_spec 0 (cpu2Numa (hi_env s)) (cpuUtil (hi_env s)) [[]])
      as (rst' & En' & Hlen' & _); [|done|done|].
    2: { rewrite En in En'. by injection En' as <-. }
    eapply list.Forall_impl; [exact Hnodes|]. intros n Hn. simpl in *. lia. }
  assert (lists = [c :: l]) as ->.
  { destruct lists as [|l0 [|? ?]]; [done| |done]. by injection E0 as ->. }
  exists (cs_cpu c). pose proof (MigrateHardIrq_twp s Henv Hqueues) as Ht.
  apply twp_alt in Ht as ([] & s' & E & _). apply twp_alt. exists tt, s'. split; [done|].
  unfold MigrateHardIrq in E. apply bind_inv in E as (s0 & s1 & [= <- <-] & E).
  apply bind_inv in E as (units & s1 & [_ ->]%deref_inv & E).
  apply bind_inv in E as (lists & s1 & [El' ->]%deref_inv & E). rewrite El in El'. injection El' as <-.
  by destruct (migrate_units_binds c l _ _ _ _ _ E Hone).
Qed.

(** Nothing is known of the processors' times. *)
Definition blank (s : NetHardIrq) : Prop :=
  cpu2Numa (hi_env s) ≠ [] ∧ cpuUtil (hi_env s) = [].

Lemma within_modify_env f : (∀ s, hi_env (f s) = hi_env s) → within blank (modify f).
Proof. intros Hf. apply within_modify. intros s. unfold blank. by rewrite Hf. Qed.
Lemma within_lift {A} (o : outcome A) : (∀ e, o ≠ Throw e) → within blank (lift o).
Proof. intros Ho s Hs. unfold lift. destruct o as [a|e|]; [done|by destruct (Ho e)|done]. Qed.

Lemma add_shares_calm rx ratio times e : add_shares rx ratio times ≠ Throw e.
Proof.
  revert times. induction ratio as [|r ratio IH]; intros [|t times]; [done..|]. simpl.
  destruct (add_share rx r t); [|done..]. by destruct (add_shares rx ratio times).
Qed.
Lemma regex_loop_calm irqs n old regex m e :
  (length regex ≤ n)%nat → regex_loop irqs old regex m ≠ Throw e.
Proof.
  revert old regex m. induction n as [|n IH]; intros old [|re regex] m Hn; [done|simpl in Hn; lia|done|].
  simpl in Hn |- *. destruct (re_compile re), (match_irqs re irqs m) as [m' []];
    repeat first [apply IH; lia|destruct regex as [|next regex]; [done|simpl in Hn]].
Qed.
Lemma GetEthQueData_calm text patterns eths e : GetEthQueData text patterns eths ≠ Throw e.
Proof.
  unfold GetEthQueData. generalize (GetIrqWithDesc text) as irqs. intros irqs.
  generalize (named_in_order eths) as devs. intros devs. revert eths.
  induction devs as [|[dev d] devs IH]; intros eths; [done|]. cbn [eth_loop]. unfold UpdateQue2Irq.
  destruct (regex_loop _ _ _ _) as [[regex m]|e'|] eqn:E; [apply IH| |done].
  by apply (regex_loop_calm _ _ _ _ _ _ (le_n _)) in E.
Qed.

Ltac blank_leaf :=
  idtac; lazymatch goal with
  | |- within blank (lift _) =>
      apply within_lift; intros ?; first [apply add_shares_calm|apply GetEthQueData_calm]
  | |- within blank (modify _) => apply within_modify_env; done
  | |- within _ (let _ := _ in _) => cbv zeta
  end.

Lemma CalCpuUtil_blank : within blank CalCpuUtil.
Proof.
  intros s [Hc Hu]. unfold CalCpuUtil. rewrite run_bind. cbn [get]. rewrite run_bind, Hu. simpl.
  by split.
Qed.
Lemma match_loop_blank threads id queues : within blank (match_loop threads id queues).
Proof.
  revert id. induction queues as [|que queues IH]; intros id; [apply within_ret|].
  cbn [match_loop]. destruct (window id que threads) as [id' thr].
  unfold UpdateThreadAndQueueInfo. within_run blank_leaf; apply IH.
Qed.

Lemma MigrateHardIrq_blank : fatal blank MigrateHardIrq.
Proof.
  intros s [Hc Hu]. unfold MigrateHardIrq. rewrite run_bind. cbn [get]. rewrite run_bind.
  destruct (mig_units s) as [units|]; [|done]. cbn. unfold SortNumaCpuUtil. rewrite Hu.
  destruct (cpu2Numa (hi_env s)) as [|n nodes]; [done|]. simpl. by destruct (at_index _ n).
Qed.

(** Running before the first times of the processors have come is
    undefined: the environment is known but [cpuUtil] is still empty, and
    [SortNumaCpuUtil] reads a row for every processor, whether or not there
    is anything to bind. *)
Theorem run_before_cpu_data (s : NetHardIrq)
    (Hinit : envInit (hi_env s) = true) (Hcpus : cpu2Numa (hi_env s) ≠ [])
    (Hutil : cpuUtil (hi_env s) = []) :
  NetHardIrq_Run s = Undef.
Proof.
  unfold NetHardIrq_Run. rewrite run_bind. cbn [modify]. rewrite run_bind. cbn [get].
  cbn [hi_env set_runCnt]. rewrite Hinit. cbn [negb].
  match goal with |- ?c _ = _ => assert (fatal blank c) as Hf; [|by apply Hf; split] end.
  apply fatal_bind; [apply CalCpuUtil_blank|intros _]. apply fatal_bind.
  { unfold MatchThreadAndQueue, MatchThreadQueAndNuma, thread_rx, add_queue_rx.
    within_run blank_leaf. apply match_loop_blank. }
  intros _. do 3 (apply fatal_bind; [within_run blank_leaf|intros ?]). apply fatal_now.
  unfold Tune, AddIrqToQueueInfo, ClearInvalidQueueInfo, TunePreprocessing.
  do 3 (apply fatal_bind; [within_run blank_leaf|intros ?]). apply MigrateHardIrq_blank.
Qed.
End limits.
