(* ===== verification/HardIrqBox.v ===== *)
(** * A machine for interrupt tuning

    Affinity files and texts, on which the theorems of interrupt tuning are
    run. *)

From Stdlib Require Import ZArith Lia Strings.Byte Sorting.Sorted.
From stdpp Require Import base list strings gmap numbers.
From S2P Require Import Prelude Bytes StdString Utils DataTypes Registry Daemon Config Machine.
From S2P Require Import Doubles IrqFrontEnd SecureC World Steps HardIrq HardIrqMatch HardIrqRestore.
From S2P Require Import HardIrqTune HardIrqTheorems.

(** ** The machine *)

Record IrqBox := mkIrqBox {
  ib_aff : gmap Z (list byte);
  ib_texts : gmap string (list byte)
}.

Definition valid_affinity (v : list byte) : bool :=
  negb (bool_decide (v = [])) && forallb (λ b, negb (is_space b)) v.
Definition box_aff (b : IrqBox) (irq : Z) : option (list byte) :=
  if decide (0 ≤ irq) then
    v ← ib_aff b !! irq; if valid_affinity v then Some v else None
  else None.
(** The interrupt of an affinity file. *)
Definition irq_at (b : IrqBox) (path : string) : option Z :=
  head (filter (λ irq, affinity_path irq = path) (elements (dom (ib_aff b)))).

Definition chomp (text : list byte) : list byte := take (length text - 1) text.
Definition irq_box_read (b : IrqBox) (path : string) : option (list byte) :=
  match irq_at b path with
  | Some irq => (λ v, v ++ [newline]) <$> box_aff b irq
  | None => if prefixb (bytes_of "/proc/irq/") (bytes_of path) then None else ib_texts b !! path
  end.
Definition irq_box_write (b : IrqBox) (path : string) (text : list byte) : bool * bool * IrqBox :=
  match irq ← irq_at b path; _ ← box_aff b irq; Some irq with
  | None => (false, false, b)
  | Some irq =>
    if valid_affinity (chomp text)
    then (true, true, mkIrqBox (<[irq := chomp text]> (ib_aff b)) (ib_texts b))
    else (true, false, b)
  end.

Definition irq_machine : Machine := {|
  sys := IrqBox;
  sys_read := irq_box_read;
  sys_write := irq_box_write;
  sys_exists b p := bool_decide (is_Some (irq_box_read b p));
  sys_dir b p := if decide (p = irq_dir)
                 then Some ("default_smp_affinity" :: map (λ irq, str_of (to_string irq))
                        (elements (dom (ib_aff b))))%string else None;
  sys_exec b c := (Some (bytes_of "active" ++ [newline]), b);
  sys_system b c := (0, b);
  sys_yaml _ _ := None;
  sys_emit b _ _ := b;
  sys_cpus _ := 4
|}.

(** ** The laws *)

Lemma affinity_path_inj a b : affinity_path a = affinity_path b → a = b.
Proof.
  unfold affinity_path. intros E%(f_equal bytes_of). rewrite !bytes_of_append, !bytes_of_str_of in E.
  apply app_inv_head, app_inv_tail in E. by apply to_string_inj.
Qed.

Lemma irq_at_path b irq :
  irq_at b (affinity_path irq) = if decide (is_Some (ib_aff b !! irq)) then Some irq else None.
Proof.
  unfold irq_at. set (l := filter _ _).
  assert (∀ q, q ∈ l ↔ q = irq ∧ is_Some (ib_aff b !! irq)) as Hl.
  { intros q. unfold l. rewrite list_elem_of_filter, elem_of_elements, elem_of_dom. split.
    - intros [E%affinity_path_inj H]. by subst q.
    - by intros [-> H]. }
  destruct l as [|q l]; simpl.
  - rewrite decide_False; [done|]. intros H.
    by destruct (proj1 (elem_of_nil irq) (proj2 (Hl irq) (conj eq_refl H))).
  - destruct (proj1 (Hl q)) as [-> H]; [by left|]. by rewrite decide_True.
Qed.

Lemma first_word_valid v : valid_affinity v = true → first_word (v ++ [newline]) = v.
Proof.
  unfold valid_affinity, first_word. intros [Hne Hv]%andb_true_iff.
  apply negb_true_iff, bool_decide_eq_false in Hne.
  assert (word (v ++ [newline]) = v) as Hw.
  { clear Hne. induction v as [|b v IH]; [done|]. simpl in Hv |- *.
    apply andb_true_iff in Hv as [->%negb_true_iff Hv]. by rewrite IH. }
  destruct v as [|b v]; [done|]. simpl in Hv. apply andb_true_iff in Hv as [Hb%negb_true_iff _].
  cbn [app skip_space]. by rewrite Hb.
Qed.

Lemma box_aff_valid b irq v : box_aff b irq = Some v →
  0 ≤ irq ∧ ib_aff b !! irq = Some v ∧ valid_affinity v = true.
Proof.
  unfold box_aff. case_decide; [|done]. destruct (ib_aff b !! irq) as [u|]; [|done]. simpl.
  destruct (valid_affinity u) eqn:E; [|done]. by intros [= ->].
Qed.

Lemma chomp_line v : chomp (v ++ [newline]) = v.
Proof.
  unfold chomp. rewrite length_app. simpl. replace (length v + 1 - 1)%nat with (length v) by lia.
  apply take_app_length.
Qed.

#[export] Instance irq_files : IrqFiles irq_machine.
Proof.
  refine {| aff := box_aff : @sys irq_machine → _; aff_takes _ := valid_affinity |}.
  - intros b irq v Hirq. simpl. unfold irq_box_write. rewrite irq_at_path, chomp_line.
    destruct (box_aff b irq) as [u|] eqn:Eu.
    + destruct (box_aff_valid _ _ _ Eu) as (_ & E & _). rewrite decide_True by (by eexists). simpl.
      rewrite Eu. simpl. destruct (valid_affinity v) eqn:Ev; (split; [done|]; split; [done|]); intros q.
      * unfold box_aff. simpl. destruct (decide (q = irq)) as [->|Hq].
        -- rewrite lookup_insert_eq, !decide_True by done. simpl. by rewrite Ev.
        -- rewrite lookup_insert_ne by done. by rewrite (decide_False (P := q = irq ∧ _)) by (by intros [? _]).
      * by rewrite decide_False by (by intros [_ ?]).
    + destruct (decide _); simpl; [|done]. by rewrite Eu.
  - intros b irq v E. apply (box_aff_valid b irq v E).
  - intros b irq. simpl. unfold irq_box_read. rewrite irq_at_path.
    destruct (box_aff b irq) as [v|] eqn:E.
    + destruct (box_aff_valid _ _ _ E) as (_ & E' & Hv). rewrite decide_True by (by eexists).
      rewrite E. change (first_word (v ++ [newline]) = v). by apply first_word_valid.
    + assert (prefixb (bytes_of "/proc/irq/") (bytes_of (affinity_path irq)) = true) as ->.
      { unfold affinity_path. rewrite bytes_of_append. apply prefixb_app. }
      by destruct (decide _); [rewrite E|].
  - intros b irq [v E]. apply (box_aff_valid b irq v E).
  - done.
  - done.
Defined.

(** ** The libraries *)

Fixpoint insert_sorted {A} (lt : A → A → bool) (a : A) (l : list A) : list A :=
  match l with
  | [] => [a]
  | b :: l' => if lt b a then b :: insert_sorted lt a l' else a :: l
  end.
Definition insertion_sort {A} (lt : A → A → bool) (l : list A) : list A :=
  foldr (insert_sorted lt) [] l.
Lemma insert_sorted_perm {A} (lt : A → A → bool) a l : insert_sorted lt a l ≡ₚ a :: l.
Proof.
  induction l as [|b l IH]; [done|]. simpl. destruct (lt b a); [|done].
  rewrite IH. apply Permutation_swap.
Qed.
#[export] Instance sort_ref : StdSort.
Proof.
  refine {| std_sort A := insertion_sort (A := A) |}. intros A lt l.
  induction l as [|a l IH]; [done|]. simpl. by rewrite insert_sorted_perm, IH.
Defined.

(** Patterns of a text and a group of digits. *)
Fixpoint digits_of (l : list byte) : list byte :=
  match l with
  | b :: l => if is_digit b then b :: digits_of l else []
  | [] => []
  end.
Fixpoint search_digits (p l : list byte) : option (list (list byte)) :=
  let here := if prefixb p l then digits_of (drop (length p) l) else [] in
  match here, l with
  | [], _ :: l => search_digits p l
  | [], [] => None
  | _, _ => Some [p ++ here; here]
  end.
Definition literal_of (re : list byte) : list byte := take (length re - length digits_group) re.
Definition regex_ref : Regex := {|
  re_compile re := bool_decide (literal_of re ++ digits_group = re);
  re_search re desc := Some (search_digits (literal_of re) desc)
|}.
#[local] Existing Instances regex_ref hash_ref order_ref.

(** ** From [Enable] to [Disable] *)

Definition irq_texts : gmap string (list byte) := list_to_map
  [(interrupts_path,
    bytes_of "           CPU0       CPU1       CPU2       CPU3" ++ newline ::
    bytes_of " 24:          5          0          0          0  PCI-MSI 1  eth0-TxRx-0" ++ newline ::
    bytes_of " 25:          5          0          0          0  PCI-MSI 2  eth0-TxRx-1" ++ newline ::
    bytes_of "NMI:          0          0          0          0  Non-maskable interrupts" ++ [newline]);
   (HARDIRQ_CONFIG_PATH,
    bytes_of "# queues" ++ newline :: bytes_of "[Queue2Irq]" ++ newline ::
    bytes_of " REGEXP:VAR_ETH-TxRx-VAR_QUEUE" ++ [newline])].

Definition irq_box0 : IrqBox := mkIrqBox
  (list_to_map [(24, bytes_of "0-3"); (25, bytes_of "0-3"); (7, bytes_of "1")]) irq_texts.
Definition net0 : @NetHardIrq irq_machine := NetHardIrq0 (irq_box0 : @sys irq_machine).

(** Two nodes of two processors; the fourth one is idle. *)
Definition times_of (idle : Z) : list Z := [0; 0; 0; idle; 0; 0; 0; 0; 0; 0; 100].
Definition sample (cpu tid period : Z) : PmuData :=
  mkPmuData [] None 0 0 tid cpu None None period 0 0 None.
Definition net_data : list HData :=
  [mkHData (mkTopic OE_ENV_INFO "static" "") [PStatic (mkEnvStaticInfo 2 4 4096 0 [0; 0; 1; 1] [])];
   mkHData (mkTopic OE_ENV_INFO "cpu_util" "") [PCpuUtil (Some (mkEnvCpuUtilParam 1 4
     [times_of 50; times_of 60; times_of 10; times_of 90; times_of 50]))];
   mkHData (mkTopic OE_NET_INTF_INFO OE_NETWORK_INTERFACE_BASE_TOPIC "operstate_up")
     [PBase (mkNetIntfBaseDataList 1 [mkNetworkInterfaceData "eth0" 1 2])];
   mkHData (mkTopic OE_NET_INTF_INFO OE_NET_THREAD_QUE_DATA OE_PARA_THREAD_RECV_QUE_CNT)
     [PThreadQue (mkNetThreadQueDataList 1000 1 [mkNetThreadQueData 7 7 2 0 20 0])];
   mkHData (mkTopic OE_PMU_SAMPLING_COLLECTOR "cycles" "")
     [PSampling (mkPmuCountingData [sample 2 7 300; sample 0 7 100] 2 1000) [[]; []]]].
Definition net_events : list event := (EvData <$> net_data) ++ [EvRun].

Fixpoint play (l : list event) (s : @NetHardIrq irq_machine) : option (@NetHardIrq irq_machine) :=
  match l with
  | [] => Some s
  | e :: l => match handle e s with Ret (_, s') => play l s' | _ => None end
  end.
Lemma play_steps l s s' : play l s = Some s' → steps s s'.
Proof.
  revert s. induction l as [|e l IH]; intros s; simpl.
  - intros [= <-]. constructor.
  - destruct (handle e s) as [[[] s1]| |] eqn:E; [|done..]. intros H.
    econstructor; [exact E|by apply IH].
Qed.

Definition aff_at (s : @NetHardIrq irq_machine) (irq : Z) : option (list byte) := affinity s irq.
Definition ran {A} (o : outcome (A * @NetHardIrq irq_machine)) : option (@NetHardIrq irq_machine) :=
  match o with Ret (_, s) => Some s | _ => None end.

Lemma affinities_restored_witness :
  ∃ s1 s2 s3, NetHardIrq_Enable [] net0 = Ret (true, s1) ∧ steps s1 s2 ∧
    aff_at s2 24 = Some (bytes_of "3") ∧ NetHardIrq_Disable s2 = Ret (tt, s3) ∧
    aff_at s3 24 = Some (bytes_of "0-3").
Proof.
  pose proof (affinities_restored net0 [] eq_refl) as H.
  assert (match NetHardIrq_Enable [] net0 with
    | Ret (ok, s1) => ok = true ∧ match play net_events s1 with
      | Some s2 => aff_at s2 24 = Some (bytes_of "3")
      | None => False
      end
    | _ => False
    end) as Hrun by (vm_compute; split; reflexivity).
  assert (listed (hi_sys net0) 24) as Hlisted.
  { eexists _, (str_of (to_string 24)). split; [vm_compute; reflexivity|].
    split; [by_decide|vm_compute; reflexivity]. }
  assert (aff_at net0 24 = Some (bytes_of "0-3")) as H0 by (vm_compute; reflexivity).
  unfold twp in H. destruct (NetHardIrq_Enable [] net0) as [[ok s1]| |]; [|destruct Hrun..].
  destruct Hrun as [-> Hrun]. destruct (play net_events s1) as [s2|] eqn:Ep; [|destruct Hrun].
  pose proof (play_steps _ _ _ Ep) as Hs. specialize (H s2 Hs).
  destruct (NetHardIrq_Disable s2) as [[[] s3]| |] eqn:Ed; [|destruct H..].
  exists s1, s2, s3. split; [reflexivity|]. split; [exact Hs|]. split; [exact Hrun|].
  split; [exact Ed|]. destruct H as [_ H]. unfold aff_at in *. rewrite H by (by left). exact H0.
Defined.

(** ** Packets *)

Definition two_nodes : Env := mkEnv 2 [0; 0; 1; 1] true ∅ [] (repeat (repeat d_zero 11) 5).
Definition packets : Samples := mkSamples
  [mkRecNetQueue 10 0 100 "eth0"; mkRecNetQueue 20 0 200 "eth0"; mkRecNetQueue 30 1 100 "eth0"]
  [mkRecNetThreads 5 0 100; mkRecNetThreads 15 2 100; mkRecNetThreads 25 0 200;
   mkRecNetThreads 35 3 100] ∅ 0.
Definition traced : @NetHardIrq irq_machine := set_env two_nodes (set_samples packets net0).

Lemma match_counts_witness : ∃ s', MatchThreadAndQueue traced = Ret (tt, s') ∧
  counter s' "eth0" 0 1 = 1 ∧ counter s' "eth0" 0 0 = 1 ∧ counter s' "eth0" 1 1 = 1.
Proof.
  assert (twp MatchThreadAndQueue (λ _ s',
    ∀ dev que node, counter s' dev que node = counter traced dev que node +
      how_many (hi_env traced) dev que node
        (receivers (threadData (hi_samples traced)) (queueData (hi_samples traced)))) traced) as H.
  { eapply twp_mono; [apply (match_counts traced 0)|].
    - repeat constructor; by_decide.
    - repeat constructor; eexists; vm_compute; reflexivity.
    - repeat constructor; first [exists 0%nat; split; [reflexivity|by_decide]
                                |exists 1%nat; split; [reflexivity|by_decide]].
    - intros dev que node. unfold counter, queue_at. simpl. rewrite lookup_empty. by destruct node.
    - by_decide.
    - by intros [] s' [H _]. }
  unfold twp in H. destruct (MatchThreadAndQueue traced) as [[[] s']| |]; [|destruct H..].
  exists s'. split; [reflexivity|]. split_and!; rewrite H; vm_compute; reflexivity.
Defined.

(** ** Queues *)

Definition queue (que irq : Z) (times : list Z) : QueueInfo := mkQueueInfo que irq 0 (-1) 0 times.
Definition queues (q0 q1 : QueueInfo) : gmap string (gmap Z QueueInfo) :=
  {["eth0"%string := <[0 := q0]> {[1 := q1]}]}.

Lemma find_queues q0 q1 dev que info : find_queue (queues q0 q1) dev que = Some info →
  dev = "eth0"%string ∧ (que = 0 ∧ info = q0 ∨ que = 1 ∧ info = q1).
Proof.
  unfold find_queue, queues. destruct (decide (dev = "eth0"%string)) as [->|Hd].
  - rewrite lookup_singleton_eq. simpl.
    intros [[<- <-]|[_ [<- <-]%lookup_singleton_Some]]%lookup_insert_Some; auto.
  - by rewrite lookup_singleton_ne.
Qed.

Lemma few_queues q0 q1 l : NoDup l →
  (∀ x, x ∈ l → is_Some (find_queue (queues q0 q1) x.1 x.2)) →
  Z.of_nat (length l) ≤ 2147483647.
Proof.
  intros Hnd Hl. assert (length l ≤ 2)%nat as H; [|lia].
  apply (submseteq_length l [("eth0", 0); ("eth0", 1)]%string), NoDup_submseteq; [done|].
  intros [dev que] [i Hi]%Hl. simpl in Hi.
  destruct (find_queues _ _ _ _ _ Hi) as [-> [[-> _]|[-> _]]]; set_solver.
Qed.

Lemma two_nodes_ok : env_ok two_nodes.
Proof.
  split; [by_decide..|]. simpl. intros n Hn.
  assert (n = 0 ∨ n = 1) as [-> | ->] by lia; vm_compute; discriminate.
Qed.

(** A queue whose packets are received on the second node, and one whose
    interrupt is not in the description. *)
Definition eth0 : EthQueInfo := set_que2Irq {[0 := 24]} EthQueInfo0.
Definition counted_queues : gmap string (gmap Z QueueInfo) :=
  queues (queue 0 (-1) [1; 20]) (queue 1 (-1) [5; 0]).
Definition busy_net : @NetHardIrq irq_machine :=
  set_env two_nodes (set_ethQueData {["eth0"%string := eth0]} (set_netQueue counted_queues net0)).

Lemma busy_net_ready : ready busy_net.
Proof.
  split; cbn [hi_env netQueue busy_net set_env set_ethQueData set_netQueue].
  - apply two_nodes_ok.
  - intros dev que info Hi. destruct (find_queues _ _ _ _ _ Hi) as [_ [[_ ->]|[_ ->]]]; by_decide.
  - intros dev que info Hi. destruct (find_queues _ _ _ _ _ Hi) as [_ [[_ ->]|[_ ->]]]; by_decide.
  - intros dev que info Hi. left. by destruct (find_queues _ _ _ _ _ Hi) as [_ [[_ ->]|[_ ->]]].
  - intros dev que info Hi. by destruct (find_queues _ _ _ _ _ Hi) as [_ [[-> ->]|[-> ->]]].
  - intros dev que info dev' que' info' Hi Hi'.
    destruct (find_queues _ _ _ _ _ Hi) as [-> [[-> ->]|[-> ->]]],
      (find_queues _ _ _ _ _ Hi') as [-> [[-> ->]|[-> ->]]]; vm_compute; try discriminate; auto.
  - apply few_queues.
Qed.

Lemma tune_places_interrupts_witness :
  ∃ s', Tune busy_net = Ret (tt, s') ∧ find_queue (netQueue s') "eth0" 1 = None ∧
    ∃ cpu, (cpu = 2 ∨ cpu = 3) ∧ aff_at s' 24 = Some (to_string cpu).
Proof.
  pose proof (tune_places_interrupts busy_net busy_net_ready) as H. unfold twp in H.
  destruct (Tune busy_net) as [[[] s']| |]; [|destruct H..].
  exists s'. split; [reflexivity|]. split; [exact (H "eth0"%string 1)|].
  destruct (H "eth0"%string 0) as (node & Hn & Hs). unfold settled in Hs.
  assert (node = 1) as ->.
  { destruct Hn as (j & t & -> & Hj & Hall). destruct j as [|[|j]]; [|reflexivity|discriminate Hj].
    injection Hj as <-. apply list.Forall_cons in Hall as [_ [Hle _]%list.Forall_cons].
    vm_compute in Hle. by destruct Hle. }
  rewrite decide_False in Hs by (intros [Hlt|[Hlt _]]; [vm_compute in Hlt; discriminate Hlt|by destruct Hlt]).
  destruct Hs as (cpu & Hcpu & Hs). exists cpu.
  assert (cpu = 2 ∨ cpu = 3) as Hc.
  { change (at_index [0; 0; 1; 1] cpu = Some 1) in Hcpu. unfold at_index in Hcpu.
    destruct (decide (cpu < 0)) as [|Hpos]; [discriminate Hcpu|].
    destruct (Z.to_nat cpu) as [|[|[|[|n]]]] eqn:En; try discriminate Hcpu; lia. }
  split; [exact Hc|]. destruct Hs as [[_ Ha]|(_ & _ & Hno)]; [exact Ha|].
  destruct Hc as [-> | ->]; destruct Hno as [Hno|Hno]; vm_compute in Hno; discriminate Hno.
Defined.

(** ** One node *)

Definition one_node : Env := mkEnv 1 [0; 0] true ∅ [] (repeat (repeat d_zero 11) 3).
Definition one_net : @NetHardIrq irq_machine := set_env one_node (set_netQueue
  (queues (mkQueueInfo 0 24 50 (-1) 0 [50]) (mkQueueInfo 1 25 40 (-1) 0 [40])) net0).

Lemma one_net_queues : queues_ok (hi_env one_net) (netQueue one_net).
Proof.
  split; cbn [hi_env netQueue one_net set_env set_netQueue].
  - intros dev que info Hi. by destruct (find_queues _ _ _ _ _ Hi) as [_ [[-> ->]|[-> ->]]].
  - intros dev que info Hi. destruct (find_queues _ _ _ _ _ Hi) as [_ [[_ ->]|[_ ->]]]; by_decide.
  - intros dev que info Hi. left. by destruct (find_queues _ _ _ _ _ Hi) as [_ [[_ ->]|[_ ->]]].
  - intros dev que info dev' que' info' Hi Hi'.
    by destruct (find_queues _ _ _ _ _ Hi) as [-> [[-> ->]|[-> ->]]],
      (find_queues _ _ _ _ _ Hi') as [-> [[-> ->]|[-> ->]]].
  - apply few_queues.
Qed.

Definition last_cpu (s : @NetHardIrq irq_machine) (que : Z) : option Z :=
  qi_lastBindCpu <$> find_queue (netQueue s) "eth0" que.

(** Both interrupts go to one of the two processors. *)
Lemma one_node_one_processor_witness :
  ∃ s' cpu, MigrateHardIrq one_net = Ret (tt, s') ∧ last_cpu s' 0 = Some cpu ∧
    last_cpu s' 1 = Some cpu ∧ cpu ≠ -1.
Proof.
  assert (env_ok one_node) as Henv.
  { split; [by_decide..|]. simpl. intros n Hn. assert (n = 0) as -> by lia.
    vm_compute. discriminate. }
  destruct (one_node_one_processor one_net eq_refl Henv one_net_queues) as [cpu H].
  assert (match MigrateHardIrq one_net with
    | Ret (_, s') => is_Some (find_queue (netQueue s') "eth0" 0) ∧
        is_Some (find_queue (netQueue s') "eth0" 1) ∧
        last_cpu s' 0 ≠ Some (-1) ∧ last_cpu s' 1 ≠ Some (-1)
    | _ => False
    end) as Hrun.
  { vm_compute. split_and!; [by eexists..|discriminate|discriminate]. }
  unfold twp in H. destruct (MigrateHardIrq one_net) as [[[] s']| |]; [|destruct H..].
  destruct Hrun as ([i0 E0] & [i1 E1] & Hl0 & Hl1). exists s', cpu. unfold last_cpu in *.
  rewrite E0 in Hl0 |- *. rewrite E1 in Hl1 |- *. split; [reflexivity|].
  destruct (H _ _ _ E0) as [<-|Hsame].
  2: { exfalso. apply Hl0. vm_compute in Hsame. injection Hsame as <-. reflexivity. }
  destruct (H _ _ _ E1) as [Hc|Hsame].
  2: { exfalso. apply Hl1. vm_compute in Hsame. injection Hsame as <-. reflexivity. }
  split_and!; [reflexivity|simpl; by rewrite Hc|]. intros Hc'. apply Hl0. simpl. by rewrite Hc'.
Defined.

(** ** Too early *)

Lemma run_before_cpu_data_witness :
  NetHardIrq_Run (set_env (mkEnv 2 [0; 1] true ∅ [] []) net0) = Undef.
Proof. apply run_before_cpu_data; [reflexivity|by_decide|reflexivity]. Defined.
