(* ===== verification/NetInterface.v ===== *)
(** * The collector of network interfaces
      (src/plugin/collect/system/net_interface/net_interface.cpp, .h,
      net_intf_comm.cpp, .h)

    The instance publishes the interfaces and their drivers, and, while one of
    two topics is open, keeps the flow program (NetFlow.v) loaded, attaches it
    to every interface, and publishes what the program's maps have counted
    since they were read last. *)

From Stdlib Require Import ZArith Lia Strings.Byte.
From stdpp Require Import base list strings gmap numbers.
From S2P Require Import Prelude Bytes StdString Utils DataTypes Registry Daemon Config Machine.
From S2P Require Import NetFlow.

(** ** Data *)

Definition OE_NETWORK_INTERFACE_BASE_TOPIC : string := "base".
Definition OE_NETWORK_INTERFACE_DRIVER_TOPIC : string := "driver".
Definition OE_LOCAL_NET_AFFINITY : string := "local_net_affinity".
Definition OE_PARA_LOC_NET_AFFI_USER_DEBUG : string := "local_net_affinity_usr_debug".
Definition OE_PARA_LOC_NET_AFFI_KERN_DEBUG : string := "local_net_affinity_kern_debug".
Definition OE_PARA_PROCESS_AFFINITY : string := "process_affinity".
Definition OE_NET_THREAD_QUE_DATA : string := "net_thread_que_data".
Definition OE_PARA_NET_RECV_QUE_USER_DEBUG : string := "net_thread_que_data_usr_debug".
Definition OE_PARA_NET_RECV_QUE_KERN_DEBUG : string := "lnet_thread_que_data_kern_debug".
Definition OE_PARA_THREAD_RECV_QUE_CNT : string := "thread_recv_que_cnt".
Definition OE_NET_INTF_INFO : string := "net_interface_info".
Definition operstate_up : string := "operstate_up".
Definition operstate_all : string := "operstate_all".

Definition IF_OPER_DOWN : Z := 2.
Definition IF_OPER_UP : Z := 6.
Definition EEXIST : Z := 17.
Definition UINT32_BIT_LEN : Z := 32.
Definition UINT32_MASK : Z := 4294967295.
Definition net_period : Z := 1000.

Record NetIntfBaseInfo := mkNetIntfBaseInfo { bi_ifindex : Z; bi_name : string; bi_operstate : Z }.
Definition NetIntfBaseInfo0 : NetIntfBaseInfo := mkNetIntfBaseInfo 0 "" IF_OPER_UNKNOWN.

(** [ThreadQueKey]. *)
Record ThreadQueKey := mkThreadQueKey { tk_tid : Z; tk_ifindex : Z; tk_queueId : Z }.
#[export] Instance ThreadQueKey_eq_dec : EqDecision ThreadQueKey.
Proof. solve_decision. Defined.
#[export] Instance ThreadQueKey_countable : Countable ThreadQueKey.
Proof.
  refine (inj_countable' (λ k, (tk_tid k, tk_ifindex k, tk_queueId k))
    (λ '(a, b, c), mkThreadQueKey a b c) _). by intros [].
Defined.

(** What ethtool tells of a driver: driver, version, firmware and bus. *)
Record Drvinfo := mkDrvinfo {
  dv_driver : string; dv_version : string; dv_fw_version : string; dv_bus_info : string }.

(** [NetDevHook]: the interface, and the handle and priority of the filter. *)
Record NetDevHook := mkNetDevHook { hk_ifindex : Z; hk_handle : Z; hk_priority : Z }.

Record NetIntTopic := mkNetIntTopic {
  supportParams : list string; openedParams : gset string; timestamp : Z }.

(** [NetFlowCtl]; [skel] tells whether the pointer is set. *)
Record NetFlowCtl := mkNetFlowCtl {
  skel : bool;
  netDevHooks : gmap Z NetDevHook;
  openTopic : gset string;
  lastSockFlow : gmap SockKey Z;
  lastQueTimes : gmap SockKey Z;
  lastQueLen : gmap SockKey Z
}.
Definition NetFlowCtl0 : NetFlowCtl := mkNetFlowCtl false ∅ ∅ ∅ ∅ ∅.

(** What the kernel and libbpf offer; the entries of a map come in the order
    of [bpf_map__get_next_key]. *)
Class NetKernel (MA : Machine) := {
  if_nametoindex : sys → string → Z;
  ethtool_drvinfo : sys → string → option Drvinfo;
  skel_open_and_load : sys → bool * sys;
  skel_attach : sys → Z * sys;
  skel_detach : sys → sys;
  skel_destroy : sys → sys;
  tc_hook_create : sys → Z → Z * sys;
  tc_attach : sys → Z → Z → Z → Z * sys;      (* interface, handle, priority *)
  tc_detach : sys → Z → Z → Z → Z * sys;
  tc_hook_destroy : sys → Z → Z * sys;
  flow_entries : sys → list (SockKey * SockInfo);
  queue_entries : sys → list (SockKey * QueueInfo)
}.

Record NetIntf `{Machine} := mkNetIntf {
  it_sys : sys;
  netIntfBaseInfo : gmap Z NetIntfBaseInfo;
  netTopicInfo : gmap string NetIntTopic;
  debugCtl : gmap string bool;
  netFlowCtl : NetFlowCtl;
  it_published : list (Topic * Payload)
}.

Definition set_skel (b : bool) (c : NetFlowCtl) : NetFlowCtl :=
  mkNetFlowCtl b (netDevHooks c) (openTopic c) (lastSockFlow c) (lastQueTimes c) (lastQueLen c).
Definition set_hooks (m : gmap Z NetDevHook) (c : NetFlowCtl) : NetFlowCtl :=
  mkNetFlowCtl (skel c) m (openTopic c) (lastSockFlow c) (lastQueTimes c) (lastQueLen c).
Definition set_openTopic (l : gset string) (c : NetFlowCtl) : NetFlowCtl :=
  mkNetFlowCtl (skel c) (netDevHooks c) l (lastSockFlow c) (lastQueTimes c) (lastQueLen c).
Definition set_lastFlow (m : gmap SockKey Z) (c : NetFlowCtl) : NetFlowCtl :=
  mkNetFlowCtl (skel c) (netDevHooks c) (openTopic c) m (lastQueTimes c) (lastQueLen c).
Definition set_lastQueue (times lens : gmap SockKey Z) (c : NetFlowCtl) : NetFlowCtl :=
  mkNetFlowCtl (skel c) (netDevHooks c) (openTopic c) (lastSockFlow c) times lens.
Definition set_timestamp (t : Z) (i : NetIntTopic) : NetIntTopic :=
  mkNetIntTopic (supportParams i) (openedParams i) t.
Definition set_opened (l : gset string) (i : NetIntTopic) : NetIntTopic :=
  mkNetIntTopic (supportParams i) l (timestamp i).

Section setters.
Context `{MA : Machine}.
Definition set_it_sys (v : sys) (s : NetIntf) : NetIntf :=
  mkNetIntf _ v (netIntfBaseInfo s) (netTopicInfo s) (debugCtl s) (netFlowCtl s) (it_published s).
Definition set_base (v : gmap Z NetIntfBaseInfo) (s : NetIntf) : NetIntf :=
  mkNetIntf _ (it_sys s) v (netTopicInfo s) (debugCtl s) (netFlowCtl s) (it_published s).
Definition set_topics (v : gmap string NetIntTopic) (s : NetIntf) : NetIntf :=
  mkNetIntf _ (it_sys s) (netIntfBaseInfo s) v (debugCtl s) (netFlowCtl s) (it_published s).
Definition set_debug (v : gmap string bool) (s : NetIntf) : NetIntf :=
  mkNetIntf _ (it_sys s) (netIntfBaseInfo s) (netTopicInfo s) v (netFlowCtl s) (it_published s).
Definition set_ctl (v : NetFlowCtl) (s : NetIntf) : NetIntf :=
  mkNetIntf _ (it_sys s) (netIntfBaseInfo s) (netTopicInfo s) (debugCtl s) v (it_published s).
Definition set_published (v : list (Topic * Payload)) (s : NetIntf) : NetIntf :=
  mkNetIntf _ (it_sys s) (netIntfBaseInfo s) (netTopicInfo s) (debugCtl s) (netFlowCtl s) v.
Definition on_ctl (f : NetFlowCtl → NetFlowCtl) (s : NetIntf) : NetIntf :=
  set_ctl (f (netFlowCtl s)) s.

(** A call of the kernel. *)
Definition on_kernel {A} (f : sys → A * sys) : St NetIntf A := λ s,
  let '(a, m) := f (it_sys s) in Ret (a, set_it_sys m s).
Definition on_kernel_unit (f : sys → sys) : St NetIntf unit :=
  modify (λ s, set_it_sys (f (it_sys s)) s).

Definition Publish (topic : Topic) (data : Payload) : St NetIntf unit :=
  modify (λ s, set_published (it_published s ++ [(topic, data)]) s).
End setters.

(** ** The interfaces *)

Definition net_dir : string := "/sys/class/net".
Definition operstate_path (name : string) : string :=
  (net_dir +:+ "/" +:+ name +:+ "/operstate")%string.

Section interfaces.
Context `{MA : Machine} `{NK : !NetKernel MA} `{HO : HashOrder}.

Definition GetNetInterface (m : sys) : gset string :=
  match sys_dir m net_dir with
  | None => ∅
  | Some names => list_to_set (filter (λ interface, interface ≠ "."%string ∧ interface ≠ ".."%string ∧
                    is_Some (sys_read m (operstate_path interface))) names)
  end.

Definition GetOperState (m : sys) (name : string) : Z :=
  match sys_read m (operstate_path name) with
  | None => IF_OPER_UNKNOWN
  | Some content =>
    match first_line content with
    | None => IF_OPER_UNKNOWN
    | Some state => GetNetOperateTypeByStr (str_of (rtrim state))
    end
  end.

(** The name is cut to fit the request. *)
Definition ReadEthtoolDrvinfo (m : sys) (name : string) : option Drvinfo :=
  ethtool_drvinfo m (str_of (take (Z.to_nat (IFNAMSIZ - 1)) (bytes_of name))).

Definition add_interface (m : sys) (info : gmap Z NetIntfBaseInfo) (name : string) :
    gmap Z NetIntfBaseInfo :=
  let ifindex := wrap CInt (if_nametoindex m name) in
  <[ifindex := mkNetIntfBaseInfo ifindex name (GetOperState m name)]> info.
Definition UpdateNetIntfBaseInfo : St NetIntf unit :=
  modify (λ s, set_base (foldl (add_interface (it_sys s)) (netIntfBaseInfo s)
                           (hash_order (GetNetInterface (it_sys s)))) s).

Definition IfTopicParamsData (params : string) (info : NetIntfBaseInfo) : bool :=
  if decide (params = operstate_up) then bool_decide (bi_operstate info = IF_OPER_UP)
  else bool_decide (params = operstate_all).
End interfaces.

(** ** The flow program *)

Section flows.
Context `{MA : Machine} `{NK : !NetKernel MA} `{HO : HashOrder} `{HI : HashOrderInt}
  `{HQ : !HashOrderOf ThreadQueKey}.

(** [obj] tells whether the pointer is set. *)
Definition AttachTcProgram (obj : bool) (ifindex : Z) : St NetIntf bool :=
  s ← get;
  if decide (is_Some (netDevHooks (netFlowCtl s) !! ifindex)) then mret true else
  let info := default NetIntfBaseInfo0 (netIntfBaseInfo s !! ifindex) in
  modify (λ s, set_base (<[ifindex := info]> (netIntfBaseInfo s)) s) ;;
  if decide (bi_operstate info = IF_OPER_DOWN) then mret true else
  err ← on_kernel (λ m, tc_hook_create m ifindex);
  if decide (err ≠ 0 ∧ err ≠ -EEXIST) then mret false else
  if negb obj then undef else
  err ← on_kernel (λ m, tc_attach m ifindex 1 1);
  if decide (err ≠ 0) then mret false else
  modify (on_ctl (λ c, set_hooks (<[ifindex := mkNetDevHook ifindex 1 1]> (netDevHooks c)) c)) ;;
  mret true.

Definition attach_all (obj : bool) : St NetIntf unit :=
  s ← get;
  for_each (in_order (netIntfBaseInfo s)) (λ item,
    AttachTcProgram obj (bi_ifindex item.2) ;; mret tt).

Definition add_open (topicName : string) : St NetIntf unit :=
  modify (on_ctl (λ c, set_openTopic ({[topicName]} ∪ openTopic c) c)).

Definition OpenNetFlow (topicName : string) : St NetIntf bool :=
  s ← get;
  if decide (openTopic (netFlowCtl s) ≠ ∅) then add_open topicName ;; mret true else
  obj ← on_kernel skel_open_and_load;
  if negb obj then mret false else
  err ← on_kernel skel_attach;
  if decide (err ≠ 0) then mret false else
  attach_all true ;;
  s ← get;
  if decide (netDevHooks (netFlowCtl s) = ∅) then on_kernel_unit skel_destroy ;; mret false else
  modify (on_ctl (set_skel true)) ;;
  add_open topicName ;;
  mret true.

Definition close_hook (hook : NetDevHook) : St NetIntf unit :=
  on_kernel (λ m, tc_detach m (hk_ifindex hook) (hk_handle hook) (hk_priority hook)) ;;
  on_kernel (λ m, tc_hook_destroy m (hk_ifindex hook)) ;;
  mret tt.

Definition CloseNetFlow (topicName : string) : St NetIntf unit :=
  modify (on_ctl (λ c, set_openTopic (openTopic c ∖ {[topicName]}) c)) ;;
  s ← get;
  if decide (openTopic (netFlowCtl s) ≠ ∅) then mret tt else
  let obj := skel (netFlowCtl s) in
  for_each (in_order (netDevHooks (netFlowCtl s))) (λ it, close_hook it.2) ;;
  modify (on_ctl (set_hooks ∅)) ;;
  (if obj then
     on_kernel_unit skel_detach ;; on_kernel_unit skel_destroy ;; modify (on_ctl (set_skel false))
   else mret tt) ;;
  modify (on_ctl (λ c, set_lastFlow ∅ (set_lastQueue ∅ ∅ c))).

(** What was counted since the last time: all of it when the counter is not
    above the last one. *)
Definition since (value last : Z) : Z := if decide (last < value) then value - last else value.

Definition pid_pair (pid1 pid2 : Z) : Z :=
  if decide (pid1 < pid2) then Z.lor (Z.shiftl pid1 UINT32_BIT_LEN) pid2
  else Z.lor (Z.shiftl pid2 UINT32_BIT_LEN) pid1.

(** The body of the loop of [ReadFlow]: the counters and [flowData]. *)
Definition read_flow (e : SockKey * SockInfo) (st : gmap SockKey Z * gmap Z Z) :
    gmap SockKey Z * gmap Z Z :=
  let '(lasts, flowData) := st in
  let '(key, value) := e in
  let pid1 := td_pid (server value) in
  let pid2 := td_pid (client value) in
  if decide (flow value = 0 ∨ pid2 = 0 ∨ pid1 = 0 ∨ pid2 = pid1) then st else
  let lastFlow := default 0 (lasts !! key) in
  let diffFlow := since (flow value) lastFlow in
  let pidPair := pid_pair pid1 pid2 in
  (<[key := flow value]> lasts,
   <[pidPair := wrap CUlong (default 0 (flowData !! pidPair) + diffFlow)]> flowData).

Definition ReadFlow : St NetIntf (gmap Z Z) :=
  s ← get;
  if negb (skel (netFlowCtl s)) then undef else
  let '(lasts, flowData) :=
    foldl (λ st e, read_flow e st) (lastSockFlow (netFlowCtl s), ∅) (flow_entries (it_sys s)) in
  modify (on_ctl (set_lastFlow lasts)) ;;
  mret flowData.

(** One entry of [ReadNetQueue]: what is added up. *)
Definition que_key (q : QueueInfo) : ThreadQueKey :=
  mkThreadQueKey (td_tid (qi_td q)) (ifIdx q) (queueId q).
Definition set_counts (times len : Z) (q : QueueInfo) : QueueInfo :=
  mkQueueInfo (qi_td q) (queueId q) (ifIdx q) times len.
Definition fresh (q : QueueInfo) (lastTimes lastLen : Z) : QueueInfo :=
  if decide (lastTimes < times q)
  then set_counts (times q - lastTimes) (wrap CUlong (qi_len q - lastLen)) q else q.
Definition add_counts (old q : QueueInfo) : QueueInfo :=
  set_counts (wrap CUlong (times old + times q)) (wrap CUlong (qi_len old + qi_len q)) old.

Definition read_queue (e : SockKey * QueueInfo)
    (st : gmap SockKey Z * gmap SockKey Z * gmap ThreadQueKey QueueInfo) :
    gmap SockKey Z * gmap SockKey Z * gmap ThreadQueKey QueueInfo :=
  let '(lastTimes, lastLen, threadQueMap) := st in
  let '(key, queInfo) := e in
  if decide (ifIdx queInfo ≤ 0) then st else
  let q := fresh queInfo (default 0 (lastTimes !! key)) (default 0 (lastLen !! key)) in
  let queKey := que_key queInfo in
  (<[key := times queInfo]> lastTimes, <[key := qi_len queInfo]> lastLen,
   <[queKey := match threadQueMap !! queKey with
               | None => q
               | Some old => add_counts old q
               end]> threadQueMap).

Definition ReadNetQueue : St NetIntf (list QueueInfo) :=
  s ← get;
  if negb (skel (netFlowCtl s)) then undef else
  let c := netFlowCtl s in
  let '(lastTimes, lastLen, threadQueMap) :=
    foldl (λ st e, read_queue e st) (lastQueTimes c, lastQueLen c, ∅) (queue_entries (it_sys s)) in
  modify (on_ctl (set_lastQueue lastTimes lastLen)) ;;
  mret (in_order threadQueMap).*2.
End flows.

(** ** What is published *)

(** The text that fits an array of [IFNAMSIZ] bytes. *)
Definition if_name (name : string) : string :=
  str_of (take (Z.to_nat (IFNAMSIZ - 1)) (bytes_of name)).
Definition net_topic (topicName params : string) : Topic :=
  mkTopic OE_NET_INTF_INFO topicName params.

Section publish.
Context `{MA : Machine} `{NK : !NetKernel MA} `{HO : HashOrder} `{HI : HashOrderInt}
  `{HQ : !HashOrderOf ThreadQueKey}.

Definition selected (params : string) (m : gmap Z NetIntfBaseInfo) : list NetIntfBaseInfo :=
  filter (λ info, IfTopicParamsData params info = true) (in_order m).*2.

Definition PublishBaseInfo (params : string) : St NetIntf unit :=
  s ← get;
  let base := map (λ info, mkNetworkInterfaceData (if_name (bi_name info)) (bi_operstate info)
                (bi_ifindex info)) (selected params (netIntfBaseInfo s)) in
  Publish (net_topic OE_NETWORK_INTERFACE_BASE_TOPIC params)
    (PNetIntfBase (mkNetIntfBaseDataList (Z.of_nat (length base)) base)).

Definition driver_data (m : sys) (info : NetIntfBaseInfo) : option NetworkInterfaceDriverData :=
  d ← ReadEthtoolDrvinfo m (bi_name info);
  Some (mkNetworkInterfaceDriverData (if_name (bi_name info)) (dv_driver d) (dv_version d)
          (dv_fw_version d) (dv_bus_info d)).
Definition PublishDriverInfo (params : string) : St NetIntf unit :=
  s ← get;
  let driver := omap (driver_data (it_sys s)) (selected params (netIntfBaseInfo s)) in
  Publish (net_topic OE_NETWORK_INTERFACE_DRIVER_TOPIC params)
    (PNetIntfDriver (mkNetIntfDriverDataList (Z.of_nat (length driver)) driver)).

Definition affinity_data (it : Z * Z) : ProcessNetAffinityData :=
  mkProcessNetAffinityData (wrap CUint (Z.shiftr it.1 UINT32_BIT_LEN)) (Z.land it.1 UINT32_MASK) it.2.
Definition PublishLocalNetAffiInfo (params : string) : St NetIntf unit :=
  if decide (params ≠ OE_PARA_PROCESS_AFFINITY) then mret tt else
  s ← get;
  attach_all (skel (netFlowCtl s)) ;;
  flowData ← ReadFlow;
  if decide (flowData = ∅) then mret tt else
  let affinity := map affinity_data (in_order flowData) in
  Publish (net_topic OE_LOCAL_NET_AFFINITY params)
    (PNetLocalAffi (mkProcessNetAffinityDataList (Z.of_nat (length affinity)) affinity)).

(** The kernel numbers queues from 1; [times] is cut to 32 bits. *)
Definition queue_data (q : QueueInfo) : option NetThreadQueData :=
  if decide (in_range CInt (queueId q - 1)) then
    Some (mkNetThreadQueData (td_pid (qi_td q)) (td_tid (qi_td q)) (ifIdx q) (queueId q - 1)
            (wrap CUint (times q)) (qi_len q))
  else None.
Definition PublishNetQueueInfo (params : string) (interval : Z) : St NetIntf unit :=
  if decide (params ≠ OE_PARA_THREAD_RECV_QUE_CNT) then mret tt else
  s ← get;
  attach_all (skel (netFlowCtl s)) ;;
  threadQueData ← ReadNetQueue;
  if decide (threadQueData = []) then mret tt else
  queData ← deref (mapM queue_data threadQueData);
  Publish (net_topic OE_NET_THREAD_QUE_DATA params)
    (PNetThreadQue (mkNetThreadQueDataList interval (Z.of_nat (length queData)) queData)).
End publish.

(** ** The instance *)

Section instance.
Context `{MA : Machine} `{NK : !NetKernel MA} `{HO : HashOrder} `{HI : HashOrderInt}
  `{HQ : !HashOrderOf ThreadQueKey}.

Definition topicStr : list string :=
  [OE_NETWORK_INTERFACE_BASE_TOPIC; OE_NETWORK_INTERFACE_DRIVER_TOPIC; OE_LOCAL_NET_AFFINITY;
   OE_NET_THREAD_QUE_DATA].
Definition InitTopicInfo (name : string) : NetIntTopic :=
  mkNetIntTopic
    (if decide (name = OE_NETWORK_INTERFACE_BASE_TOPIC ∨ name = OE_NETWORK_INTERFACE_DRIVER_TOPIC)
     then [operstate_up; operstate_all]
     else if decide (name = OE_LOCAL_NET_AFFINITY) then
       [OE_PARA_PROCESS_AFFINITY; OE_PARA_LOC_NET_AFFI_USER_DEBUG; OE_PARA_LOC_NET_AFFI_KERN_DEBUG]
     else if decide (name = OE_NET_THREAD_QUE_DATA) then
       [OE_PARA_THREAD_RECV_QUE_CNT; OE_PARA_NET_RECV_QUE_USER_DEBUG; OE_PARA_NET_RECV_QUE_KERN_DEBUG]
     else []) ∅ 0.
Definition NetInterface0 (m : sys) : NetIntf :=
  mkNetIntf _ m ∅ (list_to_map (map (λ name, (name, InitTopicInfo name)) topicStr)) ∅
    NetFlowCtl0 [].

Definition set_switch (param : string) (on : bool) : St NetIntf unit :=
  modify (λ s, set_debug (<[param := on]> (debugCtl s)) s).

(** The topics that need the flow program: the parameter that does, and the
    two that switch debugging. *)
Definition flow_params (topicName : string) : option (string * string * string) :=
  if decide (topicName = OE_LOCAL_NET_AFFINITY) then
    Some (OE_PARA_PROCESS_AFFINITY, OE_PARA_LOC_NET_AFFI_USER_DEBUG, OE_PARA_LOC_NET_AFFI_KERN_DEBUG)
  else if decide (topicName = OE_NET_THREAD_QUE_DATA) then
    Some (OE_PARA_THREAD_RECV_QUE_CNT, OE_PARA_NET_RECV_QUE_USER_DEBUG, OE_PARA_NET_RECV_QUE_KERN_DEBUG)
  else None.

Definition open_failed (text : string) : Result := mkResult (Some FAILED) text.

Definition NetInterface_OpenTopic (topic : Topic) : St NetIntf Result :=
  s ← get;
  match netTopicInfo s !! topicName topic with
  | None => mret (open_failed "topic not register")
  | Some info =>
    if decide (params topic ∉ supportParams info) then mret (open_failed "topic not support params") else
    if decide (params topic ∈ openedParams info) then mret (open_failed "topic already opened") else
    ok ← match flow_params (topicName topic) with
         | Some (main, user, kern) =>
           if decide (params topic = main) then OpenNetFlow (topicName topic)
           else if decide (params topic = user ∨ params topic = kern)
           then set_switch (params topic) true ;; mret true else mret true
         | None => mret true
         end;
    if negb ok then mret (open_failed "open net flow failed") else
    modify (λ s, set_topics (alter (λ i, set_opened ({[params topic]} ∪ openedParams i) i)
                               (topicName topic) (netTopicInfo s)) s) ;;
    mret (mkResult (Some OK) "")
  end.

Definition NetInterface_CloseTopic (topic : Topic) : St NetIntf unit :=
  s ← get;
  match netTopicInfo s !! topicName topic with
  | None => mret tt
  | Some info =>
    if decide (params topic ∉ supportParams info) then mret tt else
    if decide (params topic ∉ openedParams info) then mret tt else
    modify (λ s, set_topics (alter (λ i, set_opened (openedParams i ∖ {[params topic]}) i)
                               (topicName topic) (netTopicInfo s)) s) ;;
    match flow_params (topicName topic) with
    | Some (main, user, kern) =>
      if decide (params topic = main) then CloseNetFlow (topicName topic)
      else if decide (params topic = user ∨ params topic = kern)
      then set_switch (params topic) false else mret tt
    | None => mret tt
    end
  end.

Definition NetInterface_Enable : St NetIntf Result :=
  UpdateNetIntfBaseInfo ;; mret (mkResult (Some OK) "").

Definition publish_param (topic : string) (interval : Z) (param : string) : St NetIntf unit :=
  if decide (topic = OE_NETWORK_INTERFACE_BASE_TOPIC) then PublishBaseInfo param
  else if decide (topic = OE_NETWORK_INTERFACE_DRIVER_TOPIC) then PublishDriverInfo param
  else if decide (topic = OE_LOCAL_NET_AFFINITY) then PublishLocalNetAffiInfo param
  else if decide (topic = OE_NET_THREAD_QUE_DATA) then PublishNetQueueInfo param interval
  else mret tt.

(** One turn of the loop over the topics, at [now], in nanoseconds. *)
Definition publish_topic (now : Z) (topic : string) : St NetIntf unit :=
  s ← get;
  info ← deref (netTopicInfo s !! topic);
  let interval := wrap CInt (Z.quot (now - timestamp info) 1000000) in
  modify (λ s, set_topics (alter (set_timestamp now) topic (netTopicInfo s)) s) ;;
  let interval := if decide (interval < net_period) then net_period else interval in
  for_each (hash_order (openedParams info)) (publish_param topic interval).

(** [now] tells the time at which the loop comes to a topic. *)
Definition NetInterface_Run (now : string → Z) : St NetIntf unit :=
  s ← get;
  for_each (hash_order (dom (netTopicInfo s))) (λ topic, publish_topic (now topic) topic) ;;
  modify (set_base ∅) ;;
  UpdateNetIntfBaseInfo.
End instance.
