(* ===== verification/NetInterfaceCycle.v ===== *)
(** * The flow program's life

    Whatever is opened, closed and run, the program is loaded exactly while a
    topic needs it, and its filters are attached exactly where the collector
    knows them. *)

From Stdlib Require Import ZArith Lia Strings.Byte.
From stdpp Require Import base list strings gmap numbers.
From S2P Require Import Prelude Bytes StdString Utils DataTypes Registry Daemon Config Machine.
From S2P Require Import SecureC NetFlow Steps NetInterface.

(** The kernel's filters: one that is refused is not there, one that is
    detached is there no more, and no other call adds one.  An interface takes
    its filter with it when it goes, so that none of the laws says that a
    filter stays.  Queues are numbered from 0. *)
Class NetKernelLaws (MA : Machine) (NK : NetKernel MA) := {
  attached : sys → gset Z;
  load_attached m : attached (skel_open_and_load m).2 ⊆ attached m;
  skel_attach_attached m : attached (skel_attach m).2 ⊆ attached m;
  skel_detach_attached m : attached (skel_detach m) ⊆ attached m;
  skel_destroy_attached m : attached (skel_destroy m) ⊆ attached m;
  create_attached m i : attached (tc_hook_create m i).2 ⊆ attached m;
  attach_attached m i h p :
    attached (tc_attach m i h p).2 ⊆
    if decide ((tc_attach m i h p).1 = 0) then {[i]} ∪ attached m else attached m;
  detach_attached m i : attached (tc_detach m i 1 1).2 ⊆ attached m ∖ {[i]};
  destroy_attached m i : attached (tc_hook_destroy m i).2 ⊆ attached m;
  queue_ids m k q : (k, q) ∈ queue_entries m → 0 ≤ queueId q ≤ 2147483647
}.

Section cycle.
Context `{MA : Machine} `{NK : !NetKernel MA} `{NL : !NetKernelLaws MA NK} `{HO : HashOrder}
  `{HI : HashOrderInt} `{HQ : !HashOrderOf ThreadQueKey}.

(** A call that leaves topics, the pointer and the filters that are known in
    step with the kernel. *)
Definition hooked (s : NetIntf) : Prop :=
  (∀ i h, netDevHooks (netFlowCtl s) !! i = Some h → h = mkNetDevHook i 1 1) ∧
  attached (it_sys s) ⊆ dom (netDevHooks (netFlowCtl s)).
Definition same_ctl (s s' : NetIntf) : Prop :=
  netTopicInfo s' = netTopicInfo s ∧ skel (netFlowCtl s') = skel (netFlowCtl s) ∧
  openTopic (netFlowCtl s') = openTopic (netFlowCtl s) ∧
  lastSockFlow (netFlowCtl s') = lastSockFlow (netFlowCtl s) ∧
  lastQueTimes (netFlowCtl s') = lastQueTimes (netFlowCtl s) ∧
  lastQueLen (netFlowCtl s') = lastQueLen (netFlowCtl s) ∧
  it_published s' = it_published s.
#[export] Instance same_ctl_preorder : PreOrder same_ctl.
Proof. split; [by intros s|]. unfold same_ctl. intros s1 s2 s3. naive_solver congruence. Qed.

Lemma on_kernel_twp {A} (f : sys → A * sys) (Q : A → NetIntf → Prop) s :
  Q (f (it_sys s)).1 (set_it_sys (f (it_sys s)).2 s) → twp (on_kernel f) Q s.
Proof. unfold twp, on_kernel. by destruct (f (it_sys s)). Qed.

Lemma AttachTcProgram_twp i s :
  hooked s → twp (AttachTcProgram true i) (λ _ s', hooked s' ∧ same_ctl s s') s.
Proof.
  intros [Hh Ha]. unfold AttachTcProgram. apply twp_bind, twp_get.
  case_decide; [by apply twp_ret|]. apply twp_bind, twp_modify. case_decide; [by apply twp_ret|].
  apply twp_bind, on_kernel_twp. set (m1 := (tc_hook_create _ i).2).
  assert (attached m1 ⊆ attached (it_sys s)) as E1 by apply create_attached.
  assert (hooked (set_it_sys m1 s)) as H1 by (split; [done|exact (transitivity E1 Ha)]).
  case_decide; [apply twp_ret; by split_and!|]. simpl. apply twp_bind, on_kernel_twp.
  set (r := tc_attach _ i 1 1). pose proof (attach_attached m1 i 1 1) as E2. fold r in E2.
  change (it_sys (set_it_sys m1 _)) with m1. fold r.
  destruct (decide (r.1 ≠ 0)) as [Hr|Hr].
  - apply twp_ret. rewrite decide_False in E2 by done. split_and!; [|done].
    split; [done|]. exact (transitivity E2 (transitivity E1 Ha)).
  - apply dec_stable in Hr. rewrite decide_True in E2 by done.
    apply twp_bind, twp_modify, twp_ret. split_and!; [|done]. split.
    + intros j h. simpl. rewrite lookup_insert_Some. intros [[<- <-]|[_ Hj]]; [done|by apply Hh].
    + simpl. rewrite dom_insert_L. etransitivity; [exact E2|]. set_solver.
Qed.

Lemma attach_all_twp s :
  hooked s → twp (attach_all true) (λ _ s', hooked s' ∧ same_ctl s s') s.
Proof.
  intros Hs. unfold attach_all. apply twp_bind, twp_get. apply twp_for_each; [done|].
  intros item s1 _ [H1 E1]. apply twp_bind. eapply twp_mono; [by apply AttachTcProgram_twp|].
  intros _ s2 (H2 & E2). apply twp_ret. split; [done|]. by transitivity s1.
Qed.

(** The part of [net_ok] that does not speak of parameters. *)
Record ctl_ok (s : NetIntf) : Prop := {
  co_skel : skel (netFlowCtl s) = true ↔ openTopic (netFlowCtl s) ≠ ∅;
  co_hooked : hooked s;
  co_closed : openTopic (netFlowCtl s) = ∅ → netDevHooks (netFlowCtl s) = ∅ ∧
    lastSockFlow (netFlowCtl s) = ∅ ∧ lastQueTimes (netFlowCtl s) = ∅ ∧
    lastQueLen (netFlowCtl s) = ∅
}.

Lemma ctl_ok_sys m s : attached m ⊆ attached (it_sys s) → ctl_ok s → ctl_ok (set_it_sys m s).
Proof. intros Hm [H1 [H2 H3] H4]. split; [done| |done]. split; [done|]. exact (transitivity Hm H3). Qed.

Lemma OpenNetFlow_twp t s :
  ctl_ok s → twp (OpenNetFlow t) (λ b s', ctl_ok s' ∧ netTopicInfo s' = netTopicInfo s ∧
    openTopic (netFlowCtl s') = if b then {[t]} ∪ openTopic (netFlowCtl s)
                                else openTopic (netFlowCtl s)) s.
Proof.
  intros Hok. unfold OpenNetFlow. apply twp_bind, twp_get. case_decide as Ho.
  { destruct Hok as [Hskel Hhook Hclosed]. apply twp_bind, twp_modify, twp_ret.
    split_and!; [|done|done]. split; [|done|simpl; set_solver].
    simpl. split; [set_solver|]. intros _. by apply Hskel. }
  apply twp_bind, on_kernel_twp. set (m1 := (skel_open_and_load _).2).
  assert (attached m1 ⊆ attached (it_sys s)) as E1 by apply load_attached.
  destruct (skel_open_and_load (it_sys s)).1; simpl.
  2: { apply twp_ret. split; [by apply ctl_ok_sys|done]. }
  apply twp_bind, on_kernel_twp. set (m2 := (skel_attach _).2).
  assert (attached m2 ⊆ attached (it_sys s)) as E2
    by (etransitivity; [apply skel_attach_attached|exact E1]).
  change (set_it_sys m2 (set_it_sys m1 s)) with (set_it_sys m2 s).
  apply (ctl_ok_sys m2) in Hok; [|done].
  case_decide; [by apply twp_ret|].
  apply twp_bind. eapply twp_mono; [apply attach_all_twp, Hok|].
  intros _ s3 [H3 (Et & Es & Eo & E4 & E5 & E6 & _)]. simpl in *.
  apply twp_bind, twp_get. destruct Hok as [Hskel _ Hclosed]. simpl in *.
  destruct (Hclosed Ho) as (_ & L1 & L2 & L3). case_decide as Hk.
  - apply twp_bind, twp_modify, twp_ret. split_and!; [|done|done]. destruct H3 as [Hh3 Ha3].
    split; simpl; [by rewrite Es, Eo| |by rewrite Hk, E4, E5, E6].
    split; [done|]. etransitivity; [apply skel_destroy_attached|exact Ha3].
  - apply twp_bind, twp_modify, twp_bind, twp_modify, twp_ret. simpl. split_and!; [|done|by rewrite Eo].
    split; simpl; [|exact H3|set_solver]. split; [set_solver|done].
Qed.

Lemma close_hooks_twp s :
  hooked s → twp (for_each (in_order (netDevHooks (netFlowCtl s))) (λ it, close_hook it.2))
    (λ _ s', attached (it_sys s') = ∅ ∧ ∃ m, s' = set_it_sys m s) s.
Proof.
  intros [Hh Ha]. set (H := netDevHooks (netFlowCtl s)) in *.
  eapply twp_mono.
  { apply (twp_for_each_idx _ _ (λ done s', attached (it_sys s') ⊆ dom H ∖ list_to_set done.*1 ∧
      ∃ m, s' = set_it_sys m s)).
    - split; [simpl; set_solver|]. exists (it_sys s). by destruct s.
    - intros l1 [i h] l2 s1 El [H1 [m1 ->]].
      assert (H !! i = Some h) as Ei by (apply elem_of_in_order; rewrite El; set_solver).
      apply Hh in Ei as ->. unfold close_hook. simpl.
      apply twp_bind, on_kernel_twp, twp_bind, on_kernel_twp, twp_ret. split; [|by eexists].
      simpl in *. etransitivity; [apply destroy_attached|].
      etransitivity; [apply detach_attached|].
      rewrite fmap_app, list_to_set_app_L. simpl. set_solver. }
  intros _ s' [H1 H2]. split; [|done]. apply leibniz_equiv, equiv_empty. etransitivity; [exact H1|].
  intros i. rewrite elem_of_difference, elem_of_list_to_set, list_elem_of_fmap.
  intros [[h Ei]%elem_of_dom Hn]. destruct Hn. exists (i, h). split; [done|]. by apply elem_of_in_order.
Qed.

Lemma CloseNetFlow_twp t s :
  ctl_ok s → twp (CloseNetFlow t) (λ _ s', ctl_ok s' ∧ netTopicInfo s' = netTopicInfo s ∧
    openTopic (netFlowCtl s') = openTopic (netFlowCtl s) ∖ {[t]}) s.
Proof.
  intros [Hskel Hhook Hclosed]. unfold CloseNetFlow. apply twp_bind, twp_modify, twp_bind, twp_get.
  set (s1 := on_ctl _ s). case_decide as Ho.
  { apply twp_ret. split_and!; [|done|done]. unfold s1 in *. simpl in Ho.
    split; [simpl; split; [done|]|exact Hhook|done].
    intros _. apply Hskel. set_solver. }
  apply twp_bind.
  eapply twp_mono; [by apply (close_hooks_twp s1)|]. intros _ s2 [Ha2 [m ->]].
  apply twp_bind, twp_modify. simpl in Ha2, Ho. destruct (skel (netFlowCtl s1)) eqn:Es.
  - apply twp_bind, twp_bind, twp_modify, twp_bind, twp_modify, twp_modify, twp_modify.
    split_and!; [|done|done]. split; simpl; [|split; [done|]|done].
    + split; [done|]. intros []. exact Ho.
    + etransitivity; [apply skel_destroy_attached|]. etransitivity; [apply skel_detach_attached|].
      simpl. rewrite Ha2. done.
  - apply twp_bind, twp_ret, twp_modify. split_and!; [|done|done].
    split; simpl; [|split; [done|]|done].
    + unfold s1 in Es. simpl in Es. rewrite Es. split; [done|]. intros []. exact Ho.
    + simpl. rewrite Ha2. done.
Qed.

(** ** Reading and publishing *)

(** What a publication may change: what is published, and, while the program
    is loaded, what it remembers of it. *)
Definition reads (s s' : NetIntf) : Prop :=
  netTopicInfo s' = netTopicInfo s ∧ skel (netFlowCtl s') = skel (netFlowCtl s) ∧
  openTopic (netFlowCtl s') = openTopic (netFlowCtl s).
#[export] Instance reads_preorder : PreOrder reads.
Proof.
  split; [by intros s|]. intros s1 s2 s3 (?&?&?) (?&?&?). split_and!; congruence.
Qed.

Lemma Publish_twp topic data s :
  ctl_ok s → twp (Publish topic data) (λ _ s', ctl_ok s' ∧ reads s s') s.
Proof. intros [H1 H2 H3]. apply twp_modify. by split_and!. Qed.

(** The program is loaded as long as a topic is open. *)
Definition loaded (s : NetIntf) : Prop := ctl_ok s ∧ skel (netFlowCtl s) = true.
Lemma loaded_open s : loaded s → openTopic (netFlowCtl s) ≠ ∅.
Proof. intros [[H _ _] Hs]. by apply H. Qed.

Lemma loaded_attach s :
  loaded s → twp (attach_all (skel (netFlowCtl s))) (λ _ s', loaded s' ∧ reads s s') s.
Proof.
  intros Hl. pose proof (loaded_open s Hl) as Ho. destruct Hl as [[H1 H2 H3] Hs]. rewrite Hs.
  eapply twp_mono; [by apply attach_all_twp|]. intros _ s' (H & Et & Es & Eo & _).
  assert (reads s s') as Hr by done. rewrite Hs in Es. split; [|done]. split; [|done].
  split; [by rewrite Es, Eo|done|]. by rewrite Eo.
Qed.

(** Both reads write what they remember. *)
Lemma loaded_write {A} (f : NetFlowCtl → NetFlowCtl) (a : A) (Q : A → Prop) s :
  loaded s → Q a →
  (∀ c, skel (f c) = skel c ∧ openTopic (f c) = openTopic c ∧ netDevHooks (f c) = netDevHooks c) →
  twp (modify (on_ctl f) ;; mret a) (λ a s', loaded s' ∧ reads s s' ∧ Q a) s.
Proof.
  intros Hl Ha Hf. pose proof (loaded_open s Hl) as Ho. destruct Hl as [[H1 [H2 H3] H4] Hs].
  destruct (Hf (netFlowCtl s)) as (E1 & E2 & E3).
  apply twp_bind, twp_modify, twp_ret. split_and!; [|split_and!; [done|exact E1|exact E2]|done].
  split; [|simpl; congruence]. split; simpl; unfold hooked; simpl; rewrite ?E1, ?E2, ?E3; done.
Qed.

Lemma ReadFlow_twp s : loaded s → twp ReadFlow (λ _ s', loaded s' ∧ reads s s') s.
Proof.
  intros Hl. unfold ReadFlow. apply twp_bind, twp_get. rewrite (proj2 Hl). simpl.
  destruct (foldl _ _ _) as [lasts flowData].
  eapply twp_mono; [by apply (loaded_write _ _ (λ _, True))|]. by intros ? ? (? & ? & _).
Qed.

(** Every sum keeps the thread and the queue of an entry. *)
Definition from_entries (l : list (SockKey * QueueInfo)) (m : gmap ThreadQueKey QueueInfo) : Prop :=
  map_Forall (λ _ q, ∃ e, e ∈ l ∧ queueId q = queueId e.2) m.
Lemma read_queues_from l l' lt ll m :
  l' ⊆ l → from_entries l m →
  from_entries l (foldl (λ st e, read_queue e st) (lt, ll, m) l').2.
Proof.
  revert lt ll m. induction l' as [|[key qi] l' IH]; intros lt ll m Hl Hm; [done|]. cbn [foldl].
  assert (l' ⊆ l) as Hl' by set_solver. assert ((key, qi) ∈ l) as Hin by set_solver.
  unfold read_queue at 2. case_decide; [by apply IH|]. apply IH; [done|].
  apply map_Forall_insert_2; [|done]. destruct (m !! que_key qi) as [old|] eqn:Eo.
  - destruct (Hm _ _ Eo) as (e & H1 & H2). by exists e.
  - exists (key, qi). unfold fresh. by case_decide.
Qed.

Lemma ReadNetQueue_twp s :
  loaded s → twp ReadNetQueue (λ l s', loaded s' ∧ reads s s' ∧ is_Some (mapM queue_data l)) s.
Proof.
  intros Hl. unfold ReadNetQueue. apply twp_bind, twp_get. rewrite (proj2 Hl). cbv zeta. cbn [negb].
  pose proof (read_queues_from (queue_entries (it_sys s)) _ (lastQueTimes (netFlowCtl s))
    (lastQueLen (netFlowCtl s)) ∅ ltac:(reflexivity) (map_Forall_empty _)) as Hf.
  destruct (foldl _ _ _) as [[lastTimes lastLen] m].
  apply (loaded_write _ _ (λ l, is_Some (mapM queue_data l))); [done| |by intros c].
  apply mapM_is_Some, list.Forall_forall. intros q ((k & q') & -> & Hq)%list_elem_of_fmap.
  apply elem_of_in_order in Hq. destruct (Hf _ _ Hq) as ([k' e] & He & Eq).
  apply queue_ids in He. simpl in *. unfold queue_data. rewrite decide_True; [by eexists|].
  apply in_range_int. lia.
Qed.

(** The topic and parameter that need the program. *)
Definition flow_topic (topic param : string) : Prop :=
  ∃ user kern, flow_params topic = Some (param, user, kern).

Lemma publish_param_twp topic interval param s :
  ctl_ok s → (flow_topic topic param → skel (netFlowCtl s) = true) →
  twp (publish_param topic interval param) (λ _ s', ctl_ok s' ∧ reads s s') s.
Proof.
  intros Hok Hs. unfold publish_param, PublishBaseInfo, PublishDriverInfo.
  case_decide; [by apply twp_bind, twp_get, Publish_twp|].
  case_decide; [by apply twp_bind, twp_get, Publish_twp|].
  unfold PublishLocalNetAffiInfo, PublishNetQueueInfo.
  case_decide as Et.
  { case_decide as Ep; [by apply twp_ret|]. subst. apply twp_bind, twp_get.
    assert (loaded s) as Hl by (split; [done|]; apply Hs; by do 2 eexists).
    apply twp_bind. eapply twp_mono; [by apply loaded_attach|]. intros _ s1 [H1 R1].
    apply twp_bind. eapply twp_mono; [by apply ReadFlow_twp|]. intros fd s2 [H2 R2].
    assert (reads s s2) as R by (by transitivity s1).
    case_decide; [apply twp_ret; split; [apply H2|done]|].
    eapply twp_mono; [apply Publish_twp, H2|]. intros _ s3 [Hc3 R3]. split; [done|].
    by transitivity s2. }
  case_decide as Et2; [|by apply twp_ret].
  case_decide as Ep; [by apply twp_ret|]. subst. apply twp_bind, twp_get.
  assert (loaded s) as Hl by (split; [done|]; apply Hs; by do 2 eexists).
  apply twp_bind. eapply twp_mono; [by apply loaded_attach|]. intros _ s1 [H1 R1].
  apply twp_bind. eapply twp_mono; [by apply ReadNetQueue_twp|]. intros l s2 (H2 & R2 & [data Ed]).
  assert (reads s s2) as R by (by transitivity s1).
  case_decide; [apply twp_ret; split; [apply H2|done]|]. apply twp_bind.
  apply (twp_deref _ data); [done|]. eapply twp_mono; [apply Publish_twp, H2|].
  intros _ s3 [Hc3 R3]. split; [done|]. by transitivity s2.
Qed.

(** ** The calls *)

(** The topic is open with the parameter that needs the program. *)
Definition needs (s : NetIntf) (topic : string) : Prop :=
  ∃ param info, flow_topic topic param ∧ netTopicInfo s !! topic = Some info ∧
    param ∈ openedParams info.

(** What holds between calls. *)
Record net_ok (s : NetIntf) : Prop := {
  no_ctl : ctl_ok s;
  no_open topic : topic ∈ openTopic (netFlowCtl s) ↔ needs s topic
}.

(** Whatever changes no topic's parameters keeps what needs the program. *)
Definition same_params (s s' : NetIntf) : Prop :=
  (∀ topic, openedParams <$> netTopicInfo s' !! topic = openedParams <$> netTopicInfo s !! topic) ∧
  openTopic (netFlowCtl s') = openTopic (netFlowCtl s).
#[export] Instance same_params_preorder : PreOrder same_params.
Proof.
  split; [by intros s|]. intros s1 s2 s3 [H1 E1] [H2 E2]. split; [|congruence].
  intros t. by rewrite H2, H1.
Qed.
Lemma reads_params s s' : reads s s' → same_params s s'.
Proof. intros (E & _ & E'). split; [|done]. intros t. by rewrite E. Qed.

Lemma needs_opened s topic :
  needs s topic ↔ ∃ param l, flow_topic topic param ∧
    openedParams <$> netTopicInfo s !! topic = Some l ∧ param ∈ l.
Proof.
  split.
  - intros (p & i & H1 & H2 & H3). exists p, (openedParams i). by rewrite H2.
  - intros (p & l & H1 & (i & H2 & ->)%fmap_Some & H3). by exists p, i.
Qed.
Lemma same_params_needs s s' topic : same_params s s' → needs s' topic ↔ needs s topic.
Proof. intros [H _]. by rewrite !needs_opened, H. Qed.
Lemma same_params_ok s s' : same_params s s' → net_ok s → ctl_ok s' → net_ok s'.
Proof.
  intros Hp [_ Ho] Hc. split; [done|]. intros t. rewrite (same_params_needs s s') by done.
  destruct Hp as [_ ->]. apply Ho.
Qed.

Lemma net_ok_loaded s topic param info :
  net_ok s → netTopicInfo s !! topic = Some info → param ∈ openedParams info →
  flow_topic topic param → skel (netFlowCtl s) = true.
Proof.
  intros [[Hs _ _] Ho] Ht Hp Hf. apply Hs. intros E. apply (not_elem_of_empty (C := gset string) topic).
  rewrite <-E. apply Ho. by exists param, info.
Qed.

Lemma publish_topic_twp now topic s :
  net_ok s → is_Some (netTopicInfo s !! topic) →
  twp (publish_topic now topic) (λ _ s', net_ok s' ∧ same_params s s') s.
Proof.
  intros Hok [info Hi]. unfold publish_topic. apply twp_bind, twp_get, twp_bind.
  apply (twp_deref _ info); [done|]. apply twp_bind, twp_modify. set (s1 := set_topics _ s).
  assert (same_params s s1) as Hp.
  { split; [|done]. intros t. simpl. destruct (decide (t = topic)) as [->|].
    - rewrite lookup_alter_eq. by destruct (netTopicInfo s !! topic).
    - by rewrite lookup_alter_ne. }
  assert (net_ok s1) as Hok1 by (eapply same_params_ok; [done|done|]; by destruct Hok as [[]]).
  apply (twp_for_each _ _ (λ s', net_ok s' ∧ same_params s s')); [done|].
  intros param s2 Hin [H2 P2].
  assert (param ∈ openedParams info) as Hin' by (by apply elem_of_hash_order).
  eapply twp_mono; [apply publish_param_twp; [apply H2|]|].
  - intros Hf. destruct P2 as [P2 _]. specialize (P2 topic). rewrite Hi in P2.
    apply fmap_Some in P2 as (i2 & Hi2 & E2). simpl in E2.
    eapply net_ok_loaded; [done|done| |done]. by rewrite <-E2.
  - intros _ s3 [H3 R3]. assert (same_params s2 s3) as P3 by (by apply reads_params).
    split; [by eapply same_params_ok|by transitivity s2].
Qed.

Lemma base_keeps (f : NetIntf → gmap Z NetIntfBaseInfo) s :
  net_ok s → net_ok (set_base (f s) s).
Proof.
  intros Hok. eapply same_params_ok; [|done|].
  - by split.
  - destruct Hok as [[? [] ?] _]. by split; [|split|].
Qed.
Lemma UpdateNetIntfBaseInfo_twp s :
  net_ok s → twp UpdateNetIntfBaseInfo (λ _ s', net_ok s') s.
Proof.
  intros Hok. apply twp_modify.
  apply (base_keeps (λ s, foldl (add_interface (it_sys s)) (netIntfBaseInfo s)
                            (hash_order (GetNetInterface (it_sys s))))), Hok.
Qed.

Lemma NetInterface_Run_twp now s : net_ok s → twp (NetInterface_Run now) (λ _ s', net_ok s') s.
Proof.
  intros Hok. unfold NetInterface_Run. apply twp_bind, twp_get, twp_bind.
  eapply twp_mono; [apply (twp_for_each _ _ (λ s', net_ok s' ∧ same_params s s')); [done|]|].
  - intros topic s1 Hin [H1 P1]. apply elem_of_hash_order, elem_of_dom in Hin as [i Hi].
    eapply twp_mono; [apply publish_topic_twp; [done|]|].
    + destruct P1 as [P1 _]. specialize (P1 topic). rewrite Hi in P1. simpl in P1.
      apply fmap_Some in P1 as (? & -> & _). by eexists.
    + intros _ s2 [H2 P2]. split; [done|]. by transitivity s1.
  - intros _ s1 [H1 _]. apply twp_bind, twp_modify, UpdateNetIntfBaseInfo_twp.
    by apply (base_keeps (λ _, ∅)).
Qed.

(** The opened parameters of [topic] become [f] of what they were. *)
Definition change (f : gset string → gset string) (topic : string) (s : NetIntf) : NetIntf :=
  set_topics (alter (λ i, set_opened (f (openedParams i)) i) topic (netTopicInfo s)) s.

Lemma change_ok f topic info s s' :
  net_ok s → netTopicInfo s !! topic = Some info → ctl_ok s' →
  netTopicInfo s' = netTopicInfo (change f topic s) →
  (∀ t, t ∈ openTopic (netFlowCtl s') ↔
    (t = topic ∧ ∃ param, flow_topic topic param ∧ param ∈ f (openedParams info)) ∨
    (t ≠ topic ∧ t ∈ openTopic (netFlowCtl s))) → net_ok s'.
Proof.
  intros [_ Ho] Hi Hc Et HO'. split; [done|]. intros t. rewrite HO', needs_opened, Et. simpl.
  destruct (decide (t = topic)) as [->|Ht].
  - rewrite lookup_alter_eq, Hi. simpl. naive_solver.
  - rewrite lookup_alter_ne, <-needs_opened, Ho by done. naive_solver.
Qed.

Lemma change_ctl f topic s : ctl_ok s → ctl_ok (change f topic s).
Proof. intros [? [] ?]. by split; [|split|]. Qed.

Lemma flow_topic_unique topic p p' : flow_topic topic p → flow_topic topic p' → p = p'.
Proof. intros (? & ? & H) (? & ? & H'). congruence. Qed.

(** A parameter that does not need the program. *)
Lemma change_other f topic param info s s' :
  net_ok s → netTopicInfo s !! topic = Some info → ctl_ok s' →
  netTopicInfo s' = netTopicInfo (change f topic s) →
  openTopic (netFlowCtl s') = openTopic (netFlowCtl s) → ¬ flow_topic topic param →
  (∀ p, p ≠ param → p ∈ f (openedParams info) ↔ p ∈ openedParams info) → net_ok s'.
Proof.
  intros Hok Hi Hc Et Eo Hn Hf. eapply change_ok; [done..|]. intros t. rewrite Eo.
  destruct (decide (t = topic)) as [->|Ht]; [|naive_solver].
  rewrite (no_open _ Hok), needs_opened, Hi. simpl. split.
  - intros (p & l & H1 & [= <-] & H3). left. split; [done|]. exists p. split; [done|].
    apply Hf; [|done]. by intros ->.
  - intros [[_ (p & H1 & H2)]|[]]; [|done]. exists p, (openedParams info). split_and!; [done|done|].
    apply Hf; [|done]. by intros ->.
Qed.

Lemma set_switch_twp param on s :
  ctl_ok s → twp (set_switch param on) (λ _ s', ctl_ok s' ∧ netTopicInfo s' = netTopicInfo s ∧
    openTopic (netFlowCtl s') = openTopic (netFlowCtl s)) s.
Proof. intros [? [] ?]. apply twp_modify. split; [|done]. by split; [|split|]. Qed.

Lemma NetInterface_OpenTopic_twp topic s :
  net_ok s → twp (NetInterface_OpenTopic topic) (λ _ s', net_ok s') s.
Proof.
  intros Hok. unfold NetInterface_OpenTopic. apply twp_bind, twp_get.
  destruct (netTopicInfo s !! topicName topic) as [info|] eqn:Hi; [|by apply twp_ret].
  case_decide; [by apply twp_ret|]. case_decide as Hnew; [by apply twp_ret|].
  set (fin := λ ok : bool, if negb ok then _ else _ : St NetIntf Result).
  assert (∀ s1, ctl_ok s1 → netTopicInfo s1 = netTopicInfo s →
    openTopic (netFlowCtl s1) = openTopic (netFlowCtl s) → ¬ flow_topic (topicName topic) (params topic) →
    twp (fin true) (λ _ s', net_ok s') s1) as Hother.
  { intros s1 Hc Et Eo Hn. apply twp_bind, twp_modify, twp_ret.
    eapply (change_other (union {[params topic]})); [done|done|by apply change_ctl| |done|done|set_solver].
    simpl. by rewrite Et. }
  apply twp_bind. destruct (flow_params (topicName topic)) as [[[main user] kern]|] eqn:Ef.
  2: { apply twp_ret, Hother; [apply Hok|done..|]. intros (? & ? & ?). congruence. }
  case_decide as Hm.
  - eapply twp_mono; [apply OpenNetFlow_twp, Hok|]. intros b s1 (Hc & Et & Eo). destruct b.
    + apply twp_bind, twp_modify, twp_ret.
      eapply (change_ok (union {[params topic]})); [done|done|by apply change_ctl|by simpl; rewrite Et|].
      simpl. rewrite Eo. intros t. rewrite elem_of_union, elem_of_singleton.
      destruct (decide (t = topicName topic)) as [->|]; [|naive_solver].
      split; [|naive_solver]. intros _. left. split; [done|]. exists (params topic).
      split; [|set_solver]. rewrite Hm. by do 2 eexists.
    + apply twp_ret. eapply same_params_ok; [|done|done]. split; [|done]. intros t. by rewrite Et.
  - assert (¬ flow_topic (topicName topic) (params topic)) as Hn
      by (intros (? & ? & E); rewrite Ef in E; congruence).
    case_decide; [|by apply twp_ret, Hother; [apply Hok|..]].
    apply twp_bind. eapply twp_mono; [apply set_switch_twp, Hok|].
    intros _ s1 (Hc & Et & Eo). by apply twp_ret, Hother.
Qed.

Lemma NetInterface_CloseTopic_twp topic s :
  net_ok s → twp (NetInterface_CloseTopic topic) (λ _ s', net_ok s') s.
Proof.
  intros Hok. unfold NetInterface_CloseTopic. apply twp_bind, twp_get.
  destruct (netTopicInfo s !! topicName topic) as [info|] eqn:Hi; [|by apply twp_ret].
  case_decide; [by apply twp_ret|]. case_decide as Hnew; [by apply twp_ret|].
  apply twp_bind, twp_modify. set (f := λ X : gset string, X ∖ {[params topic]}).
  change (set_topics _ s) with (change f (topicName topic) s).
  set (s1 := change f (topicName topic) s). assert (ctl_ok s1) as Hc1 by apply change_ctl, Hok.
  assert (∀ s2, ctl_ok s2 → netTopicInfo s2 = netTopicInfo s1 →
    openTopic (netFlowCtl s2) = openTopic (netFlowCtl s) →
    ¬ flow_topic (topicName topic) (params topic) → net_ok s2) as Hother
    by (intros s2 ????; eapply (change_other f); [done..|set_solver]).
  destruct (flow_params (topicName topic)) as [[[main user] kern]|] eqn:Ef.
  2: { apply twp_ret, Hother; [done..|]. intros (? & ? & ?). congruence. }
  assert (∀ p, flow_topic (topicName topic) p → p = main) as Hu.
  { intros p (? & ? & E). rewrite Ef in E. congruence. }
  case_decide as Hm.
  - eapply twp_mono; [by apply CloseNetFlow_twp|]. intros _ s2 (Hc & Et & Eo).
    eapply (change_ok f); [done|done|done|done|]. intros t. rewrite Eo. unfold f. simpl.
    rewrite elem_of_difference, elem_of_singleton. split; [naive_solver|].
    intros [[-> (p & H1 & H2)]|[]]; [|done]. apply Hu in H1. set_solver.
  - assert (¬ flow_topic (topicName topic) (params topic)) as Hn by (intros E; by apply Hm, Hu).
    case_decide; [|by apply twp_ret, Hother].
    eapply twp_mono; [by apply set_switch_twp|]. intros _ s2 (Hc & Et & Eo). by apply Hother.
Qed.

(** ** Lives *)

(** The instance from its construction on, when nothing of the program is
    attached yet, with any calls, at any times; in between the kernel may
    change, as long as no filter of the program comes from elsewhere. *)
Inductive net_life : NetIntf → Prop :=
| life_start m : attached m = ∅ → net_life (NetInterface0 m)
| life_kernel m s : net_life s → attached m ⊆ attached (it_sys s) → net_life (set_it_sys m s)
| life_open topic r s s' : net_life s → NetInterface_OpenTopic topic s = Ret (r, s') → net_life s'
| life_close topic u s s' : net_life s → NetInterface_CloseTopic topic s = Ret (u, s') → net_life s'
| life_enable r s s' : net_life s → NetInterface_Enable s = Ret (r, s') → net_life s'
| life_run now u s s' : net_life s → NetInterface_Run now s = Ret (u, s') → net_life s'.

Lemma NetInterface0_ok m : attached m = ∅ → net_ok (NetInterface0 m).
Proof.
  intros Hm. split.
  - split; [done| |done]. split; [done|]. simpl. by rewrite Hm.
  - intros t. split; [set_solver|]. rewrite needs_opened. intros (p & l & _ & El & Hp).
    apply fmap_Some in El as (i & Hi & ->). cbn [NetInterface0 netTopicInfo] in Hi.
    apply elem_of_list_to_map_2, list_elem_of_fmap in Hi as (n & E & _). inversion E; subst. set_solver.
Qed.

Lemma NetInterface_Enable_twp s : net_ok s → twp NetInterface_Enable (λ _ s', net_ok s') s.
Proof.
  intros Hok. apply twp_bind. eapply twp_mono; [by apply UpdateNetIntfBaseInfo_twp|]. done.
Qed.

Lemma twp_Ret {A} (m : St NetIntf A) (Q : A → NetIntf → Prop) s a s' :
  twp m Q s → m s = Ret (a, s') → Q a s'.
Proof. unfold twp. intros H E. by rewrite E in H. Qed.

Lemma net_life_ok s : net_life s → net_ok s.
Proof.
  induction 1 as [m Hm|m s _ Hok Hm|t r s s' _ Hok E|t u s s' _ Hok E|r s s' _ Hok E|now u s s' _ Hok E].
  - by apply NetInterface0_ok.
  - eapply same_params_ok; [|done|apply ctl_ok_sys; [done|apply Hok]]. by split.
  - eapply (twp_Ret _ (λ _, net_ok)), E. by apply NetInterface_OpenTopic_twp.
  - eapply (twp_Ret _ (λ _, net_ok)), E. by apply NetInterface_CloseTopic_twp.
  - eapply (twp_Ret _ (λ _, net_ok)), E. by apply NetInterface_Enable_twp.
  - eapply (twp_Ret _ (λ _, net_ok)), E. by apply NetInterface_Run_twp.
Qed.

Lemma twp_returns {A} (m : St NetIntf A) (Q : A → NetIntf → Prop) s :
  twp m Q s → ∃ a s', m s = Ret (a, s').
Proof. rewrite twp_alt. naive_solver. Qed.

End cycle.
