(* ===== verification/NetInterfaceCounts.v ===== *)
(** * Packets that reach the tuning

    A packet counted in the kernel (NetFlow.v) is read by the collector
    (NetInterface.v) and added to the counters of its thread and queue in hard
    interrupt tuning (HardIrq.v). *)

From Stdlib Require Import ZArith Lia Strings.Byte.
From stdpp Require Import base list strings gmap numbers.
From S2P Require Import Prelude Bytes StdString Utils DataTypes Registry Daemon Config Machine.
From S2P Require Import SecureC World Steps HardIrq NetFlow NetInterface NetInterfaceCycle.

(** ** Sums *)

Definition zsum (l : list Z) : Z := foldr Z.add 0 l.
Lemma zsum_cons x l : zsum (x :: l) = x + zsum l.
Proof. done. Qed.
#[export] Instance zsum_Permutation : Proper ((≡ₚ) ==> eq) zsum.
Proof. induction 1; simpl; lia. Qed.

Lemma wrap_ulong_add_l a b : wrap CUlong (wrap CUlong a + b) = wrap CUlong (a + b).
Proof. unfold wrap. simpl. by rewrite Zplus_mod_idemp_l. Qed.
Lemma wrap_ulong_add_r a b : wrap CUlong (a + wrap CUlong b) = wrap CUlong (a + b).
Proof. unfold wrap. simpl. by rewrite Zplus_mod_idemp_r. Qed.
Lemma wrap_uint_ulong a : wrap CUint (wrap CUlong a) = wrap CUint a.
Proof.
  unfold wrap. simpl. change (modulus CUlong) with (modulus CUint * 4294967296).
  rewrite Z.rem_mul_r by done. rewrite (Z.mul_comm (modulus CUint) (_ `mod` _)), Z_mod_plus_full.
  by apply Z.mod_mod.
Qed.

(** ** One reading of the queues *)

Definition selects (qk : ThreadQueKey) (e : SockKey * QueueInfo) : Prop :=
  0 < ifIdx e.2 ∧ que_key e.2 = qk.
#[export] Instance selects_dec qk e : Decision (selects qk e).
Proof. unfold selects. apply _. Defined.

(** What an entry adds, when [lt] and [ll] are what is remembered. *)
Definition fresh_of (lt ll : gmap SockKey Z) (e : SockKey * QueueInfo) : QueueInfo :=
  fresh e.2 (default 0 (lt !! e.1)) (default 0 (ll !! e.1)).
Definition merge_queue (o : option QueueInfo) (q : QueueInfo) : option QueueInfo :=
  Some (match o with None => q | Some old => add_counts old q end).

Lemma fresh_of_insert lt ll key a b e :
  e.1 ≠ key → fresh_of (<[key := a]> lt) (<[key := b]> ll) e = fresh_of lt ll e.
Proof. intros. unfold fresh_of. by rewrite !lookup_insert_ne. Qed.

Lemma read_queues_sums l lt ll m qk :
  NoDup l.*1 →
  (foldl (λ st e, read_queue e st) (lt, ll, m) l).2 !! qk =
  foldl merge_queue (m !! qk) (fresh_of lt ll <$> filter (selects qk) l).
Proof.
  revert lt ll m. induction l as [|[key q] l IH]; intros lt ll m Hnd; [done|].
  rewrite fmap_cons in Hnd. apply list.NoDup_cons in Hnd as [Hn Hnd]. cbn [foldl]. unfold read_queue at 2.
  rewrite filter_cons. destruct (decide (ifIdx q ≤ 0)) as [Hi|Hi].
  { rewrite decide_False by (intros [Hp _]; simpl in Hp; lia). by apply IH. }
  rewrite IH by done.
  assert (∀ l', l' ⊆ l → fresh_of (<[key := times q]> lt) (<[key := qi_len q]> ll) <$> l' =
    fresh_of lt ll <$> l') as Hext.
  { intros l' Hl. apply list_fmap_ext. intros j e He. apply fresh_of_insert. intros <-.
    apply Hn, list_elem_of_fmap. exists e. split; [done|]. by apply Hl, (list_elem_of_lookup_2 _ j). }
  rewrite Hext by (intros e He; by apply list_elem_of_filter in He as [_ ?]).
  destruct (decide (que_key q = qk)) as [<-|Hq].
  - rewrite lookup_insert_eq, decide_True by (split; simpl; [lia|done]). cbn. unfold merge_queue at 3.
    by destruct (m !! que_key q).
  - rewrite lookup_insert_ne, decide_False by (done || by intros [_ ?]). done.
Qed.

(** What is remembered afterwards. *)
Lemma read_queues_last l lt ll m :
  NoDup l.*1 →
  let lt' := (foldl (λ st e, read_queue e st) (lt, ll, m) l).1.1 in
  (∀ k q, (k, q) ∈ l → 0 < ifIdx q → lt' !! k = Some (times q)) ∧
  (∀ k, (∀ q, (k, q) ∈ l → ifIdx q ≤ 0) → lt' !! k = lt !! k).
Proof.
  revert lt ll m. induction l as [|[key q] l IH]; intros lt ll m Hnd; [set_solver|].
  rewrite fmap_cons in Hnd. apply list.NoDup_cons in Hnd as [Hn Hnd]. cbn [foldl]. unfold read_queue at 2.
  cbv zeta. unfold read_queue at 3. case_decide as Hi.
  - destruct (IH lt ll m Hnd) as [IH1 IH2]. split.
    + intros k q' [[= -> ->]|Hin]%elem_of_cons Hp; [lia|by apply IH1].
    + intros k Hk. apply IH2. set_solver.
  - destruct (IH (<[key := times q]> lt) (<[key := qi_len q]> ll)
      (<[que_key q := match m !! que_key q with
        | None => fresh q (default 0 (lt !! key)) (default 0 (ll !! key))
        | Some old => add_counts old (fresh q (default 0 (lt !! key)) (default 0 (ll !! key)))
        end]> m) Hnd) as [IH1 IH2]. split.
    + intros k q' [[= -> ->]|Hin]%elem_of_cons Hp; [|by apply IH1].
      rewrite IH2; [apply lookup_insert_eq|]. intros q' Hq'. destruct Hn.
      apply list_elem_of_fmap. by exists (key, q').
    + intros k Hk. rewrite IH2 by set_solver. apply lookup_insert_ne. intros <-.
      specialize (Hk q ltac:(set_solver)). lia.
Qed.

(** The counter that a list of entries gives. *)
Definition times_of (o : option QueueInfo) : Z := default 0 (times <$> o).
Lemma merge_times o l :
  in_range CUlong (times_of o) → Forall (λ q, in_range CUlong (times q)) l →
  times_of (foldl merge_queue o l) = wrap CUlong (times_of o + zsum (times <$> l)).
Proof.
  intros Ho Hl. revert o Ho. induction Hl as [|q l Hq Hl IH]; intros o Ho; cbn [foldl fmap list_fmap zsum foldr].
  - by rewrite Z.add_0_r, wrap_id.
  - assert (times_of (merge_queue o q) = wrap CUlong (times_of o + times q)) as E.
    { destruct o as [old|]; simpl; [done|]. by rewrite wrap_id. }
    rewrite IH by (rewrite E; apply wrap_in_range). rewrite E, wrap_ulong_add_l. f_equal. unfold zsum. lia.
Qed.
Lemma merge_fields {B} (f : QueueInfo → B) b o l q :
  (∀ old q, f (add_counts old q) = f old) →
  (∀ q, o = Some q → f q = b) → Forall (λ q, f q = b) l →
  foldl merge_queue o l = Some q → f q = b.
Proof.
  intros Hf Ho Hl. revert o Ho. induction Hl as [|q' l Hq Hl IH]; intros o Ho; simpl; [apply Ho|].
  apply IH. intros q1 [= <-]. destruct o as [old|]; [rewrite Hf; by apply Ho|done].
Qed.

Section counts.
Context `{MA : Machine} `{NK : !NetKernel MA} `{NL : !NetKernelLaws MA NK}
  `{HQ : !HashOrderOf ThreadQueKey}.

(** The entries of a listing, as they are added up under [qk]. *)
Definition sums (lt ll : gmap SockKey Z) (l : list (SockKey * QueueInfo)) (qk : ThreadQueKey) :
    option QueueInfo :=
  foldl merge_queue None (fresh_of lt ll <$> filter (selects qk) l).

Lemma sums_key lt ll l qk q : sums lt ll l qk = Some q → que_key q = qk.
Proof.
  apply merge_fields; [done..|]. apply list.Forall_forall.
  intros q' (e & -> & [[_ He] _]%list_elem_of_filter)%list_elem_of_fmap.
  rewrite <-He. unfold fresh_of, fresh. by case_decide.
Qed.

Lemma ReadNetQueue_spec s :
  skel (netFlowCtl s) = true → NoDup (queue_entries (it_sys s)).*1 →
  ∃ m lt ll, ReadNetQueue s = Ret ((in_order m).*2, on_ctl (set_lastQueue lt ll) s) ∧
    (∀ qk, m !! qk = sums (lastQueTimes (netFlowCtl s)) (lastQueLen (netFlowCtl s))
                          (queue_entries (it_sys s)) qk) ∧
    (∀ k q, (k, q) ∈ queue_entries (it_sys s) → 0 < ifIdx q → lt !! k = Some (times q)) ∧
    (∀ k, (∀ q, (k, q) ∈ queue_entries (it_sys s) → ifIdx q ≤ 0) →
      lt !! k = lastQueTimes (netFlowCtl s) !! k).
Proof.
  intros Hs Hnd. unfold ReadNetQueue, get, mbind, St_bind, gets. rewrite Hs. cbn [negb].
  pose proof (read_queues_last _ (lastQueTimes (netFlowCtl s)) (lastQueLen (netFlowCtl s)) ∅ Hnd) as HL.
  pose proof (λ qk, read_queues_sums _ (lastQueTimes (netFlowCtl s)) (lastQueLen (netFlowCtl s))
    ∅ qk Hnd) as HM.
  destruct (foldl _ _ _) as [[lt ll] m]. exists m, lt, ll. split_and!; [done| |apply HL..].
  intros qk. rewrite HM. by rewrite lookup_empty.
Qed.

(** ** The counters of the tuning *)

(** The counter of a thread for a queue of an interface. *)
Definition rx (s : NetHardIrq) (tid i q : Z) : Z :=
  default 0 (t ← threadNumaInfo (hi_samples s) !! tid; m ← tn_queRxTimes t !! i; (m !! q : option Z)).

Definition counts_for (tid i q : Z) (d : NetThreadQueData) : Prop :=
  wrap CUint (nq_tid d) = tid ∧ nq_ifIndex d = i ∧ nq_queueId d = q.
#[export] Instance counts_for_dec tid i q d : Decision (counts_for tid i q d).
Proof. unfold counts_for. apply _. Defined.

Lemma rx_step s d tid i q :
  rx (on_samples (update_thread (wrap CUint (nq_tid d))
       (add_rx (nq_ifIndex d) (nq_queueId d) (nq_times d))) s) tid i q =
  if decide (counts_for tid i q d) then wrap CUlong (rx s tid i q + nq_times d) else rx s tid i q.
Proof.
  unfold rx, on_samples, update_thread. simpl. set (t := wrap CUint (nq_tid d)).
  destruct (decide (t = tid)) as [Et|Et].
  2: { rewrite lookup_insert_ne by done. rewrite decide_False by (intros (E & _); by apply Et); done. }
  rewrite <-Et, lookup_insert_eq. simpl.
  set (info := threadNumaInfo (hi_samples s) !! t).
  assert (∀ m, default 0 (m0 ← tn_queRxTimes (default ThreadNumaInfo0 info) !! i; m0 !! m) =
    default 0 (t0 ← info; m0 ← tn_queRxTimes t0 !! i; (m0 !! m : option Z))) as E0
    by (intros m; destruct info; [done|]; simpl; by rewrite lookup_empty).
  destruct (decide (nq_ifIndex d = i)) as [Ei|Ei].
  2: { rewrite lookup_insert_ne by done. rewrite decide_False by (intros (_ & ? & _); done). apply E0. }
  rewrite <-Ei, lookup_insert_eq. simpl. rewrite <-Ei in E0.
  assert (∀ m, default 0 (default ∅ (tn_queRxTimes (default ThreadNumaInfo0 info) !! nq_ifIndex d) !! m) =
    default 0 (t0 ← info; m0 ← tn_queRxTimes t0 !! nq_ifIndex d; (m0 !! m : option Z))) as E1.
  { intros m. rewrite <-E0. destruct (tn_queRxTimes _ !! nq_ifIndex d); [done|]. simpl. by rewrite lookup_empty. }
  destruct (decide (nq_queueId d = q)) as [Eq|Eq].
  - rewrite Eq, lookup_insert_eq, decide_True by (by split_and!). simpl. unfold add_u64. by rewrite E1.
  - rewrite lookup_insert_ne by done. rewrite decide_False by (intros (_ & _ & ?); done). apply E1.
Qed.

Lemma rx_update l s tid i q :
  in_range CUlong (rx s tid i q) →
  rx (UpdateThreadNumaInfo l s) tid i q =
  wrap CUlong (rx s tid i q + zsum (nq_times <$> filter (counts_for tid i q) l)).
Proof.
  unfold UpdateThreadNumaInfo. revert s. induction l as [|d l IH]; intros s Hr.
  { simpl. by rewrite Z.add_0_r, wrap_id. }
  cbn [foldl]. rewrite filter_cons. pose proof (rx_step s d tid i q) as E.
  case_decide as Hd.
  - rewrite IH by (rewrite E; apply wrap_in_range). rewrite E, wrap_ulong_add_l.
    rewrite fmap_cons, zsum_cons. f_equal. lia.
  - rewrite IH by (by rewrite E). by rewrite E.
Qed.

(** What is published of the sums, by thread and queue. *)
Definition sum_for (tid i q : Z) (x : QueueInfo) : Prop :=
  wrap CUint (td_tid (qi_td x)) = tid ∧ ifIdx x = i ∧ queueId x - 1 = q.
#[export] Instance sum_for_dec tid i q x : Decision (sum_for tid i q x).
Proof. unfold sum_for. apply _. Defined.

Lemma published_counts l data tid i q :
  mapM queue_data l = Some data →
  nq_times <$> filter (counts_for tid i q) data =
  (λ x, wrap CUint (times x)) <$> filter (sum_for tid i q) l.
Proof.
  intros H%mapM_Some. induction H as [|x d l data Hx H IH]; [done|].
  unfold queue_data in Hx. case_decide; [|done]. inversion Hx; subst. rewrite !filter_cons.
  destruct (decide (sum_for tid i q x)) as [Hs|Hs].
  - rewrite decide_True by apply Hs. by rewrite !fmap_cons, IH.
  - by rewrite decide_False by (intros Hc; by apply Hs).
Qed.

Lemma one_sum (m : gmap ThreadQueKey QueueInfo) K (f : QueueInfo → Z) (P : QueueInfo → Prop)
    `{∀ x, Decision (P x)} :
  (∀ k v, m !! k = Some v → P v ↔ k = K) →
  zsum (f <$> filter P (in_order m).*2) = default 0 (f <$> m !! K).
Proof.
  intros HP.
  assert (∀ l, Forall (λ v, ¬ P v) l → filter P l = []) as Hnone.
  { induction 1; [done|]. by rewrite filter_cons, decide_False. }
  rewrite in_order_perm. destruct (m !! K) as [v|] eqn:E.
  - rewrite <-(insert_delete_id m K v) by done.
    rewrite map_to_list_insert by apply lookup_delete_eq. rewrite fmap_cons, filter_cons.
    rewrite decide_True by (by eapply HP). rewrite Hnone; [simpl; lia|].
    apply list.Forall_forall. intros x ([k w] & -> & Hin)%list_elem_of_fmap Hp.
    apply elem_of_map_to_list, lookup_delete_Some in Hin as [Hk Hw]. by apply (HP k) in Hp.
  - rewrite Hnone; [done|]. apply list.Forall_forall.
    intros x ([k w] & -> & Hin)%list_elem_of_fmap Hp. apply elem_of_map_to_list in Hin. simpl in Hp.
    apply (HP k) in Hp; [|done]. congruence.
Qed.
End counts.

(** ** Packets *)

(** Whether a packet is added to the queue entry of [k]. *)
Definition arrives (k : SockKey) (skb : SkBuff) : bool :=
  match parse_packet (skb_data skb) with
  | Ret (Some key) => bool_decide (key = k ∧ 0 < ifindex skb)
  | _ => false
  end.
Definition arrivals (k : SockKey) (skbs : list SkBuff) : Z :=
  zsum ((λ skb, if arrives k skb then 1 else 0) <$> skbs).
Definition arrive (k : SockKey) (q : QueueInfo) (skb : SkBuff) : QueueInfo :=
  if arrives k skb then add_queue skb q else q.

Lemma tc_ingress_queue skb s s' k :
  tc_ingress skb s = Ret s' →
  rcvQueStatus s' !! k = (λ q, arrive k q skb) <$> rcvQueStatus s !! k.
Proof.
  unfold tc_ingress, arrive, arrives. destruct (parse_packet (skb_data skb)) as [[key|]|e|]; [| |done..].
  2: { intros [= <-]. by destruct (rcvQueStatus s !! k). }
  case_decide as Hi; intros <-%Ret_inj; cbn [set_flows set_queues rcvQueStatus].
  - rewrite bool_decide_false by lia. by destruct (rcvQueStatus s !! k).
  - destruct (decide (key = k)) as [->|Hk].
    + rewrite lookup_alter_eq, bool_decide_true by (split; [done|lia]). done.
    + rewrite lookup_alter_ne, bool_decide_false by naive_solver.
      by destruct (rcvQueStatus s !! k).
Qed.

Lemma net_run_queues `{BM : BpfMaps} skbs s s' k :
  net_run (map EvIngress skbs) s = Ret s' →
  rcvQueStatus s' !! k = (λ q, foldl (arrive k) q skbs) <$> rcvQueStatus s !! k.
Proof.
  revert s. induction skbs as [|skb skbs IH]; intros s; cbn [map net_run net_step].
  { intros <-%Ret_inj. by destruct (rcvQueStatus s !! k). }
  destruct (tc_ingress skb s) as [s1| |] eqn:E; [|done..]. intros Hr. rewrite (IH _ Hr).
  rewrite (tc_ingress_queue _ _ _ k E). by destruct (rcvQueStatus s !! k).
Qed.

Lemma arrivals_nonneg k skbs : 0 ≤ arrivals k skbs.
Proof.
  unfold arrivals. induction skbs as [|skb skbs IH]; [done|]. rewrite fmap_cons, zsum_cons.
  destruct (arrives k skb); lia.
Qed.

Lemma arrive_thread k q skbs : qi_td (foldl (arrive k) q skbs) = qi_td q.
Proof.
  revert q. induction skbs as [|skb skbs IH]; intros q; [done|]. simpl. rewrite IH.
  unfold arrive. by destruct (arrives k skb).
Qed.
Lemma arrive_none k q skbs : arrivals k skbs = 0 → foldl (arrive k) q skbs = q.
Proof.
  revert q. induction skbs as [|skb skbs IH]; intros q; [done|].
  unfold arrivals. rewrite fmap_cons, zsum_cons. fold (arrivals k skbs).
  pose proof (arrivals_nonneg k skbs). simpl. unfold arrive at 2.
  destruct (arrives k skb); [lia|]. intros E. by apply IH.
Qed.
Lemma arrive_times k q skbs :
  0 ≤ times q → times q + arrivals k skbs < 18446744073709551616 →
  times (foldl (arrive k) q skbs) = times q + arrivals k skbs.
Proof.
  revert q. induction skbs as [|skb skbs IH]; intros q H0 H1.
  { unfold arrivals. simpl. lia. }
  unfold arrivals in *. rewrite fmap_cons, zsum_cons in *. fold (arrivals k skbs) in *.
  pose proof (arrivals_nonneg k skbs). simpl. unfold arrive at 2. destruct (arrives k skb).
  - assert (times (add_queue skb q) = times q + 1) as E by (simpl; apply (wrap_id CUllong), in_range_ulong; lia).
    rewrite IH by (rewrite E; lia). rewrite E. lia.
  - rewrite IH by lia. lia.
Qed.

(** ** From the packet to the counter *)

Section reach.
Context `{MA : Machine} `{NK : !NetKernel MA} `{NL : !NetKernelLaws MA NK}
  `{HQ : !HashOrderOf ThreadQueKey} `{BM : BpfMaps}.

(** The collector sees the map as it is. *)
Definition shows (m : sys) (ns : NetFlow) : Prop :=
  queue_entries m ≡ₚ map_to_list (rcvQueStatus ns).

(** What a connection adds to the report: the packets since the last one, or,
    when there was none, all that were counted before. *)
Definition reported (skbs : list SkBuff) (e : SockKey * QueueInfo) : Z :=
  if decide (arrivals e.1 skbs = 0) then times e.2 else arrivals e.1 skbs.

(** The connection of a thread whose packets come by a queue of an interface;
    the kernel numbers queues from 1. *)
Definition on_queue (tid i q : Z) (e : SockKey * QueueInfo) : Prop :=
  0 < ifIdx e.2 ∧ td_tid (qi_td e.2) = tid ∧ ifIdx e.2 = i ∧ queueId e.2 = q + 1.
#[export] Instance on_queue_dec tid i q e : Decision (on_queue tid i q e).
Proof. unfold on_queue. apply _. Defined.

(** A connection that the last report has seen, or that is new and was not
    known under the same addresses; its counter does not overflow. *)
Record followed (s : NetIntf) (skbs : list SkBuff) (k : SockKey) (q : QueueInfo) : Prop := {
  fo_seen : 0 < ifIdx q ∨ times q = 0 ∧ lastQueTimes (netFlowCtl s) !! k = None;
  fo_times : 0 ≤ times q ∧ times q + arrivals k skbs < 18446744073709551616;
  fo_thread : in_range CUint (td_tid (qi_td q))
}.

Lemma shows_NoDup m ns : shows m ns → NoDup (queue_entries m).*1.
Proof. unfold shows. intros ->. apply NoDup_fst_map_to_list. Qed.
Lemma shows_lookup m ns k q : shows m ns → (k, q) ∈ queue_entries m ↔ rcvQueStatus ns !! k = Some q.
Proof. unfold shows. intros ->. apply elem_of_map_to_list. Qed.

Lemma sums_from lt ll l qk q :
  sums lt ll l qk = Some q → ∃ e, e ∈ l ∧ 0 < ifIdx e.2 ∧ que_key e.2 = qk.
Proof.
  unfold sums. destruct (filter (selects qk) l) as [|e l'] eqn:E; [done|]. intros _. exists e.
  assert (e ∈ filter (selects qk) l) as [[H1 H2] H3]%list_elem_of_filter by (rewrite E; set_solver).
  done.
Qed.

(** What is remembered of a followed connection is its counter, so that the
    next report has what [reported] says. *)
Lemma fresh_reported s lt ll skbs ns ns' k q' :
  (∀ k q, rcvQueStatus ns !! k = Some q → followed s skbs k q) →
  (∀ k q, rcvQueStatus ns !! k = Some q → 0 < ifIdx q → lt !! k = Some (times q)) →
  (∀ k, (∀ q, rcvQueStatus ns !! k = Some q → ifIdx q ≤ 0) →
    lt !! k = lastQueTimes (netFlowCtl s) !! k) →
  net_run (map EvIngress skbs) ns = Ret ns' → rcvQueStatus ns' !! k = Some q' →
  times (fresh_of lt ll (k, q')) = reported skbs (k, q') ∧ in_range CUlong (reported skbs (k, q')) ∧
  in_range CUint (td_tid (qi_td q')).
Proof.
  intros Hf Hseen Hnew Hrun Hq'. rewrite (net_run_queues _ _ _ k Hrun) in Hq'.
  apply fmap_Some in Hq' as (q & Hq & ->). destruct (Hf _ _ Hq) as [Hs [H0 H1] Ht].
  assert (default 0 (lt !! k) = times q) as El.
  { destruct (decide (0 < ifIdx q)) as [Hi|Hi]; [by rewrite (Hseen k q)|].
    destruct Hs as [|[-> Hn]]; [lia|]. rewrite Hnew, Hn; [done|].
    intros q2 Hq2. rewrite Hq in Hq2. inversion Hq2; subst. lia. }
  unfold fresh_of, fresh, reported. cbn [fst snd]. rewrite El, arrive_thread.
  pose proof (arrivals_nonneg k skbs). rewrite arrive_times by done.
  split_and!; [|apply in_range_ulong; case_decide; lia|done].
  repeat case_decide; simpl; rewrite ?arrive_times by done; lia.
Qed.

(** The sums keep their keys, and can be published. *)
Lemma sums_published m mm lt ll :
  (∀ qk, mm !! qk = sums lt ll (queue_entries m) qk) →
  (∀ k q, (k, q) ∈ queue_entries m → in_range CUint (td_tid (qi_td q))) →
  (∀ k v, mm !! k = Some v → que_key v = k ∧ in_range CUint (tk_tid k)) ∧
  is_Some (mapM queue_data (in_order mm).*2).
Proof.
  intros Hmm Ht. assert (∀ k v, mm !! k = Some v →
    que_key v = k ∧ in_range CUint (tk_tid k) ∧ 0 ≤ queueId v ≤ 2147483647) as Hval.
  { intros k v. rewrite Hmm. intros Hv. pose proof (sums_key _ _ _ _ _ Hv) as Ek.
    destruct (sums_from _ _ _ _ _ Hv) as ([k' e] & He & _ & Ek'). split; [done|].
    pose proof (Ht _ _ He). apply queue_ids in He. simpl in *. rewrite <-Ek'. split; [done|].
    rewrite <-Ek' in Ek. inversion Ek. by replace (queueId v) with (queueId e). }
  split; [by intros k v (? & ? & _)%Hval|].
  apply mapM_is_Some, list.Forall_forall. intros x ([k v] & -> & Hv)%list_elem_of_fmap.
  apply elem_of_in_order, Hval in Hv as (_ & _ & Hv). simpl. unfold queue_data.
  rewrite decide_True by (apply in_range_int; lia). by eexists.
Qed.

(** C6. Of two successive readings of the queue map, the second gives hard
    interrupt tuning, for every thread, interface and queue, the number of
    packets that the program in the kernel has counted in between for the
    connections of the thread whose packets come by the queue; a connection
    without a packet in between counts with all that it had before.  The
    counter of the thread grows by that number (cut to 32 bits), and no other
    thread's, interface's or queue's packets reach it. *)
Theorem packets_reach_tuning (ns ns' : NetFlow) (skbs : list SkBuff) (s s1 : NetIntf)
    (l0 : list QueueInfo) (m : sys) (h : NetHardIrq) (tid i q : Z)
    (Hs : skel (netFlowCtl s) = true)
    (Hns : shows (it_sys s) ns)
    (Hf : ∀ k e, rcvQueStatus ns !! k = Some e → followed s skbs k e)
    (H1 : ReadNetQueue s = Ret (l0, s1))
    (Hrun : net_run (map EvIngress skbs) ns = Ret ns') (Hm : shows m ns')
    (Hrx : in_range CUlong (rx h tid i q)) :
  ∃ l data s2, ReadNetQueue (set_it_sys m s1) = Ret (l, s2) ∧ mapM queue_data l = Some data ∧
    rx (UpdateThreadNumaInfo data h) tid i q =
    add_u64 (rx h tid i q) (wrap CUint (zsum (reported skbs <$>
      filter (on_queue tid i q) (map_to_list (rcvQueStatus ns'))))).
Proof.
  destruct (ReadNetQueue_spec s Hs (shows_NoDup _ _ Hns)) as (m0 & lt & ll & E1 & _ & Hseen & Hnew).
  rewrite E1 in H1. injection H1 as <- <-. set (s1 := on_ctl _ s).
  destruct (ReadNetQueue_spec (set_it_sys m s1) Hs (shows_NoDup _ _ Hm)) as (mm & lt2 & ll2 & E2 & Hmm & _).
  cbn [set_it_sys it_sys netFlowCtl on_ctl set_ctl s1 lastQueTimes lastQueLen set_lastQueue] in Hmm.
  assert (∀ k q', (k, q') ∈ queue_entries m → times (fresh_of lt ll (k, q')) = reported skbs (k, q') ∧
    in_range CUlong (reported skbs (k, q')) ∧ in_range CUint (td_tid (qi_td q'))) as Hent.
  { intros k q' Hk. rewrite (shows_lookup _ _ _ _ Hm) in Hk. eapply fresh_reported; [done| | |done|done].
    - intros k2 q2 Hk2. apply Hseen. by rewrite (shows_lookup _ _ _ _ Hns).
    - intros k2 Hk2. apply Hnew. intros q2. rewrite (shows_lookup _ _ _ _ Hns). apply Hk2. }
  destruct (sums_published m mm lt ll) as [Hval [data Ed]]; [done| |].
  { intros k q' Hk. apply (Hent k q' Hk). }
  exists (in_order mm).*2, data. eexists. split_and!; [exact E2|exact Ed|].
  rewrite rx_update, (published_counts _ _ _ _ _ Ed) by done. unfold add_u64. do 2 f_equal.
  rewrite (one_sum mm (mkThreadQueKey tid i (q + 1)) (λ x, wrap CUint (times x))).
  2: { intros k v Hv. apply Hval in Hv as (<- & Ht). unfold sum_for, que_key in *. simpl in Ht.
       rewrite wrap_id by done. split; [intros (<- & <- & <-); f_equal; lia|].
       intros [= -> -> ->]. split_and!; lia. }
  transitivity (wrap CUint (times_of (mm !! mkThreadQueKey tid i (q + 1)))).
  { by destruct (mm !! _). }
  rewrite Hmm. unfold sums. rewrite merge_times, wrap_uint_ulong; [|done|].
  - rewrite Z.add_0_l. f_equal. rewrite <-list_fmap_compose.
    transitivity (zsum (reported skbs <$> filter (on_queue tid i q) (queue_entries m)));
      [|by rewrite Hm].
    rewrite (list_filter_iff _ (on_queue tid i q)).
    + f_equal. apply list_fmap_ext. intros j [k q'] Hj. apply Hent.
      apply list_elem_of_lookup_2, list_elem_of_filter in Hj. apply Hj.
    + intros [k q']. unfold selects, on_queue, que_key. simpl. split.
      * intros [? [= <- <- E]]. split_and!; done.
      * intros (? & <- & <- & E). by rewrite E.
  - apply Forall_fmap, list.Forall_forall. intros [k q'] [_ He]%list_elem_of_filter. simpl.
    destruct (Hent _ _ He) as (-> & Ht & _). exact Ht.
Qed.
End reach.
