(* ===== verification/NetInterfaceBox.v ===== *)
(** * A kernel for the collector of network interfaces

    Interfaces, filters and a queue map, on which the theorems of the collector
    are run. *)

From Stdlib Require Import ZArith Lia Strings.Byte.
From stdpp Require Import base list strings gmap numbers.
From S2P Require Import Prelude Bytes StdString Utils DataTypes Registry Daemon Config Machine.
From S2P Require Import SecureC World Steps HardIrq NetFlow NetInterface NetInterfaceCycle.
From S2P Require Import NetInterfaceCounts.

(** ** The machine *)

Record NetBox := mkNetBox {
  nb_devs : gmap string Z;
  nb_texts : gmap string (list byte);
  nb_filters : gset Z;
  nb_queues : list (SockKey * QueueInfo)
}.
Definition set_filters (f : gset Z) (b : NetBox) : NetBox :=
  mkNetBox (nb_devs b) (nb_texts b) f (nb_queues b).
Definition set_nb_queues (l : list (SockKey * QueueInfo)) (b : NetBox) : NetBox :=
  mkNetBox (nb_devs b) (nb_texts b) (nb_filters b) l.

#[export] Instance net_machine : Machine := {|
  sys := NetBox;
  sys_read b p := nb_texts b !! p;
  sys_write b p t := (false, false, b);
  sys_exists b p := bool_decide (is_Some (nb_texts b !! p));
  sys_dir b p := if decide (p = net_dir) then Some ("."%string :: elements (dom (nb_devs b))) else None;
  sys_exec b c := (None, b);
  sys_system b c := (0, b);
  sys_yaml _ _ := None;
  sys_emit b _ _ := b;
  sys_cpus _ := 4
|}.

(** A filter can be attached to an interface that is there, once. *)
Definition net_attach (b : NetBox) (i : Z) : Z * NetBox :=
  if decide (i ∈ (map_to_list (nb_devs b)).*2 ∧ i ∉ nb_filters b)
  then (0, set_filters ({[i]} ∪ nb_filters b) b) else (-EEXIST, b).
Definition sound_queue (e : SockKey * QueueInfo) : Prop := 0 ≤ queueId e.2 ≤ 2147483647.
#[export] Instance sound_queue_dec e : Decision (sound_queue e).
Proof. unfold sound_queue. apply _. Defined.

#[export] Instance net_kernel : NetKernel net_machine := {|
  if_nametoindex (b : @sys net_machine) name := default 0 (nb_devs b !! name);
  ethtool_drvinfo b name := None;
  skel_open_and_load b := (true, b);
  skel_attach b := (0, b);
  skel_detach b := b;
  skel_destroy b := b;
  tc_hook_create b i := (0, b);
  tc_attach (b : @sys net_machine) i h p := net_attach b i;
  tc_detach (b : @sys net_machine) i h p := (0, set_filters (nb_filters b ∖ {[i]}) b);
  tc_hook_destroy b i := (0, b);
  flow_entries b := [];
  queue_entries (b : @sys net_machine) := filter sound_queue (nb_queues b)
|}.

#[export] Instance net_kernel_laws : NetKernelLaws net_machine net_kernel.
Proof.
  refine {| attached := nb_filters : @sys net_machine → gset Z |}; try done.
  - intros m i h p. simpl. unfold net_attach. case_decide; simpl; set_solver.
  - intros m k q [Hq _]%list_elem_of_filter. exact Hq.
Defined.

#[local] Existing Instances hash_ref order_ref maps_ref.

Definition net_box0 : NetBox := mkNetBox
  (<["lo" := 1]> (<["eth0" := 2]> ∅))
  (<[operstate_path "lo" := bytes_of "unknown" ++ [newline]]>
   (<[operstate_path "eth0" := bytes_of "up" ++ [newline]]> ∅)) ∅ [].
Definition queue_topic : Topic := net_topic OE_NET_THREAD_QUE_DATA OE_PARA_THREAD_RECV_QUE_CNT.

(** ** The life of the flow program *)

Definition net_start : NetIntf := NetInterface0 (net_box0 : @sys net_machine).


(** ** Packets *)

Definition key_a : SockKey := mkSockKey 16777343 33554559 50000 443.
Definition key_b : SockKey := mkSockKey 16777343 33554559 50001 443.
(** A connection of thread 7 whose packets come by the first queue of eth0. *)
Definition entry_of (n : Z) : QueueInfo :=
  mkQueueInfo (mkThreadData 7 7 (bytes_of "nginx")) 1 2 n (n * 60).
Definition flows_of (l : list (SockKey * QueueInfo)) : NetFlow := mkNetFlow ∅ (list_to_map l).
Definition flows0 : NetFlow := flows_of [(key_a, entry_of 5); (key_b, entry_of 3)].
Definition to_a (n : Z) : SkBuff := mkSkBuff (skb_data (packet_ref key_a n)) n 2 1.

(** The collector with the program loaded, on a kernel that shows [ns]. *)
Definition shown (ns : NetFlow) : @sys net_machine :=
  set_nb_queues (map_to_list (rcvQueStatus ns)) net_box0.
Definition collecting : NetIntf :=
  set_it_sys (shown flows0) (on_ctl (set_skel true) net_start).
Definition tuning0 : @NetHardIrq net_machine := NetHardIrq0 (net_box0 : @sys net_machine).

Definition all_sound (ns : NetFlow) : bool :=
  forallb (λ e, bool_decide (sound_queue e)) (map_to_list (rcvQueStatus ns)).
Lemma shows_shown ns : all_sound ns = true → shows (shown ns) ns.
Proof.
  unfold shows, all_sound. simpl. generalize (map_to_list (rcvQueStatus ns)) as l.
  intros l Hl. replace (filter sound_queue l) with l; [done|].
  induction l as [|e l IH]; [done|]. simpl in Hl. apply andb_true_iff in Hl as [He Hl].
  rewrite filter_cons_True, <-IH; [done|done|]. by apply bool_decide_eq_true in He.
Qed.

Lemma followed0 k e :
  rcvQueStatus flows0 !! k = Some e → followed collecting [to_a 60; to_a 1500] k e.
Proof.
  unfold flows0, flows_of. cbn [rcvQueStatus].
  intros [[= -> ->]|[[= -> ->]|[]%elem_of_nil]%elem_of_cons]%elem_of_list_to_map_2%elem_of_cons.
  - split; [by left|vm_compute; split; done|done].
  - split; [by left|vm_compute; split; done|done].
Qed.

(** Two packets for the first connection and none for the other: 2 and 3 are
    reported. *)
Lemma packets_reach_tuning_witness :
  ∃ l0 s1 ns' l data s2, ReadNetQueue collecting = Ret (l0, s1) ∧
    net_run (map EvIngress [to_a 60; to_a 1500]) flows0 = Ret ns' ∧
    ReadNetQueue (set_it_sys (shown ns') s1) = Ret (l, s2) ∧ mapM queue_data l = Some data ∧
    rx (UpdateThreadNumaInfo data tuning0) 7 2 0 = 5.
Proof.
  assert (match ReadNetQueue collecting, net_run (map EvIngress [to_a 60; to_a 1500]) flows0 with
    | Ret (_, s1), Ret ns' =>
      all_sound ns' = true ∧
      wrap CUint (zsum (reported [to_a 60; to_a 1500] <$>
        filter (on_queue 7 2 0) (map_to_list (rcvQueStatus ns')))) = 5
    | _, _ => False
    end) as Hrun by (vm_compute; split; reflexivity).
  destruct (ReadNetQueue collecting) as [[l0 s1]| |] eqn:E1; [|destruct Hrun..].
  destruct (net_run _ flows0) as [ns'| |] eqn:E2; [|destruct Hrun..].
  destruct Hrun as [Hsound Hsum].
  assert (all_sound flows0 = true) as Hsound0 by (vm_compute; reflexivity).
  assert (skel (netFlowCtl collecting) = true) as Hskel by reflexivity.
  assert (in_range CUlong (rx tuning0 7 2 0)) as Hrx by (vm_compute; split; [discriminate|reflexivity]).
  pose proof (packets_reach_tuning flows0 ns' [to_a 60; to_a 1500] collecting s1 l0 (shown ns')
    tuning0 7 2 0 Hskel (shows_shown flows0 Hsound0) followed0) as H.
  specialize (H E1). specialize (H E2 (shows_shown ns' Hsound) Hrx).
  destruct H as (l & data & s2 & H1 & H2 & H3). exists l0, s1, ns', l, data, s2.
  refine (conj eq_refl (conj eq_refl (conj H1 (conj H2 (eq_trans H3 _))))).
  change (rx tuning0 7 2 0) with 0. exact (f_equal (add_u64 0) Hsum).
Defined.
