(* ===== verification/Knobs.v ===== *)
(** * Files that hold a number

    What a plugin relies on when it writes numbers to the kernel's files and
    restores them: a file keeps the last number that the kernel has taken, and
    a write changes no other file; and a machine of text files on which this
    holds. *)

From Stdlib Require Import ZArith Lia Strings.Byte.
From stdpp Require Import base list strings gmap numbers.
From S2P Require Import Prelude Bytes StdString Utils Config Machine.

(** ** A machine of text files

    Files that exist can be read and written, and commands do nothing: enough
    to run the plugins that tune containers and the kernel's switches. *)

Notation FileBox := (gmap string (list byte)).

Definition file_write (b : FileBox) (path : string) (text : list byte) : bool * bool * FileBox :=
  match b !! path with
  | Some _ => (true, true, <[path := text]> b)
  | None => (false, false, b)
  end.

Definition file_machine : Machine := {|
  sys := FileBox;
  sys_read b p := b !! p;
  sys_write := file_write;
  sys_exists b p := bool_decide (is_Some (b !! p));
  sys_dir b p := None;
  sys_exec b c := (None, b);
  sys_system b c := (0, b);
  sys_yaml _ _ := None;
  sys_emit b _ _ := b;
  sys_cpus _ := 4
|}.

(** ** Numbers *)

(** [knob m p] is the number that the file [p] holds, if there is such a
    file; the kernel may refuse a number. *)
Class Knobs (MA : Machine) := {
  knob : sys → string → option Z;
  knob_takes : sys → string → Z → bool;
  knob_read m p v : knob m p = Some v → ∃ t, sys_read m p = Some t ∧ strtol t = Some v;
  knob_same m p v z t :
    strtol t = Some v → knob m p = Some z →
    ∃ m', sys_write m p t = (true, knob_takes m p v, m') ∧
      knob m' p = Some (if knob_takes m p v then v else z);
  knob_other m p t q : q ≠ p → knob (sys_write m p t).2 q = knob m q;
  takes_kept m p t q v : knob_takes (sys_write m p t).2 q v = knob_takes m q v
}.

(** On the machine of text files every number is taken. *)
Definition file_knob (b : FileBox) (p : string) : option Z := b !! p ≫= strtol.

Lemma file_knob_same (b : FileBox) p v z t :
  strtol t = Some v → file_knob b p = Some z →
  file_write b p t = (true, true, <[p := t]> b) ∧ file_knob (<[p := t]> b) p = Some v.
Proof.
  unfold file_knob, file_write. intros Et Ez. destruct (b !! p); [|done].
  split; [done|]. by rewrite lookup_insert_eq.
Qed.
Lemma file_knob_other (b : FileBox) p t q :
  q ≠ p → file_knob (file_write b p t).2 q = file_knob b q.
Proof.
  unfold file_knob, file_write. intros Hq. destruct (b !! p); [|done]. simpl.
  by rewrite lookup_insert_ne.
Qed.

#[export] Instance file_knobs : Knobs file_machine.
Proof.
  refine {| knob := file_knob : @sys file_machine → _; knob_takes := λ _ _ _, true |}.
  - intros b p v E. unfold file_knob in E. simpl. apply bind_Some in E. done.
  - intros b p v z t Et Ez. destruct (file_knob_same b p v z t Et Ez) as [E1 E2].
    exists (<[p := t]> (b : FileBox)). by split.
  - intros b p t q. apply file_knob_other.
  - done.
Defined.

(** ** Writing *)

Section write.
Context `{MA : Machine} `{KN : !Knobs MA}.

(** A number that is written to a file that holds one. *)
Lemma knob_write m p t v z :
  strtol t = Some v → knob m p = Some z →
  twp (on_file p t) (λ r m', r = (true, knob_takes m p v) ∧
    (∀ q, knob m' q = if decide (q = p ∧ knob_takes m p v = true) then Some v else knob m q) ∧
    (∀ q u, knob_takes m' q u = knob_takes m q u)) m.
Proof.
  intros Et Ez. destruct (knob_same m p v z t Et Ez) as (m' & Ew & Ek). unfold on_file, twp. rewrite Ew.
  split; [done|]. assert (m' = (sys_write m p t).2) as Em by (by rewrite Ew). split.
  - intros q. destruct (decide (q = p)) as [->|Hq].
    + rewrite Ek. destruct (knob_takes m p v); [by rewrite decide_True|].
      by rewrite decide_False by (by intros []).
    + rewrite decide_False by (by intros []). rewrite Em. by apply knob_other.
  - intros q u. rewrite Em. apply takes_kept.
Qed.

(** Whatever is written, other files hold what they held. *)
Lemma knob_write_other m p t :
  twp (on_file p t) (λ _ m', (∀ q, q ≠ p → knob m' q = knob m q) ∧
    (∀ q u, knob_takes m' q u = knob_takes m q u)) m.
Proof.
  unfold on_file, twp. destruct (sys_write m p t) as [[opens takes] m'] eqn:Ew.
  assert (m' = (sys_write m p t).2) as -> by (by rewrite Ew). split.
  - intros q Hq. by apply knob_other.
  - intros q u. apply takes_kept.
Qed.
End write.

(** ** Numbers that are written and restored

    [since free m0 m]: since [m0] no file has lost its number, and only the
    files of [free] may hold other numbers. *)

Section since.
Context `{MA : Machine} `{KN : !Knobs MA}.

Record since (free : string → Prop) (m0 m : sys) : Prop := {
  since_same p : knob m p = knob m0 p ∨ free p;
  since_some p : is_Some (knob m0 p) → is_Some (knob m p);
  since_takes p v : knob_takes m p v = knob_takes m0 p v
}.

#[export] Instance since_preorder free : PreOrder (since free).
Proof.
  split; [by split; [left|..]|]. intros m1 m2 m3 [A1 A2 A3] [B1 B2 B3]. split.
  - intros p. destruct (A1 p) as [<-|]; [apply B1|by right].
  - auto.
  - intros p v. by rewrite B3.
Qed.

Lemma since_weaken (free free' : string → Prop) m0 m :
  (∀ p, free p → free' p) → since free m0 m → since free' m0 m.
Proof. intros H [A1 A2 A3]. split; [|done..]. intros p. destruct (A1 p); auto. Qed.

(** Nothing is free: every number is back. *)
Lemma since_back free m0 m p : since free m0 m → (∀ p, ¬ free p) → knob m p = knob m0 p.
Proof. intros [A _ _] H. destruct (A p) as [|Hf]; [done|]. by destruct (H p). Qed.

(** Writing a number to a file that has one. *)
Lemma since_write free m0 m p t v z :
  strtol t = Some v → knob m0 p = Some z → since free m0 m →
  twp (on_file p t) (λ r m', r = (true, knob_takes m0 p v) ∧
    since (λ q, free q ∨ (q = p ∧ knob_takes m0 p v = true)) m0 m' ∧
    (∀ q, knob m' q = if decide (q = p ∧ knob_takes m0 p v = true) then Some v else knob m q)) m.
Proof.
  intros Et Hz [A1 A2 A3]. destruct (A2 p) as [z' Hz']; [by eexists|].
  eapply twp_mono; [by eapply knob_write|]. intros r m' (-> & Hk & Htk). rewrite A3 in Hk |- *.
  split; [done|]. split; [|done]. split.
  - intros q. rewrite Hk. destruct (decide _) as [Hq|_]; [by right; right|]. destruct (A1 q); auto.
  - intros q Hq. rewrite Hk. destruct (decide _); [by eexists|auto].
  - intros q u. by rewrite Htk, A3.
Qed.

(** Writing back what was there. *)
Lemma since_restore free m0 m p t v :
  strtol t = Some v → knob m0 p = Some v → knob_takes m0 p v = true → since free m0 m →
  twp (on_file p t) (λ r m', r = (true, true) ∧ since (λ q, free q ∧ q ≠ p) m0 m') m.
Proof.
  intros Et Hv Htk [A1 A2 A3]. destruct (A2 p) as [z' Hz']; [by eexists|].
  eapply twp_mono; [by eapply knob_write|]. intros r m' (-> & Hk & Htk'). rewrite A3, Htk in Hk |- *.
  split; [done|]. split.
  - intros q. rewrite Hk. destruct (decide _) as [[-> _]|Hq]; [by left|].
    destruct (decide (q = p)) as [->|Hne]; [by destruct Hq|]. destruct (A1 q); auto.
  - intros q Hq. rewrite Hk. destruct (decide _); [by eexists|auto].
  - intros q u. by rewrite Htk', A3.
Qed.
End since.
