(* ===== verification/LoadBased.v ===== *)
(** * Load-based scheduling of containers
      (src/plugin/tune/docker/load_based_scheduling/load_based_scheduling.cpp, .h)

    The instance follows the containers, their tasks and the cycles that these
    take, and gives every container whose load is high its share of the
    processors of its NUMA node. *)

From Stdlib Require Import ZArith Lia Strings.Byte.
From stdpp Require Import base list strings gmap numbers.
From S2P Require Import Prelude Bytes StdString Utils DataTypes Registry Daemon Config Machine.
From S2P Require Import Doubles.

(** ** Data *)

Definition OE_DOCKER_COLLECTOR : string := "docker_collector".
Definition OE_ENV_INFO : string := "env_info_collector".
Definition OE_PMU_SAMPLING_COLLECTOR : string := "pmu_sampling_collector".
Definition unlimit : Z := -1.

(** What the plugin reads of [struct Container]. *)
Record DockerData := mkDockerData {
  dd_id : string; dd_cfs_quota_us : Z; dd_cfs_period_us : Z; dd_cpus : string; dd_tasks : list Z
}.

(** [dataList.data], by the topic's type. *)
Inductive LoadData :=
| LDocker (l : list DockerData)
| LStatic (l : list EnvStaticInfo)
| LSampling (l : list PmuCountingData).
Record LoadDataList := mkLoadDataList { ld_topic : Topic; ld_data : LoadData }.

Record ContainerCpuInfo := mkContainerCpuInfo {
  cc_id : string; cc_cycles : Z; cc_totLoad : Z; cc_cpuLoad : double; cc_cpus : string;
  cc_originPreferredCpu : list byte; cc_tasks : gset Z
}.
Definition ContainerCpuInfo0 : ContainerCpuInfo :=
  mkContainerCpuInfo EmptyString 0 0 d_zero EmptyString [] ∅.

(** [ContainerInfo], of a node. *)
Record ContainerInfo := mkContainerInfo { ci_containerNum : Z; ci_cpus : list Z; ci_usedIndex : Z }.
Definition ContainerInfo0 : ContainerInfo := mkContainerInfo 0 [] 0.

Inductive LoadPost := LoadSubscribe (t : Topic) | LoadUnsubscribe (t : Topic).

(** [tuneContainers] is never filled and never read. *)
Record LoadBased `{Machine} := mkLoadBased {
  lb_sys : sys;
  maxCycles : list Z;
  pids : gmap Z string;
  usedCpus : gset Z;
  containers : gmap string ContainerCpuInfo;
  containerNuma : gmap string Z;
  cpuNuma : gmap Z Z;
  numaContainers : gmap Z ContainerInfo;
  highLoadThreshold : double;
  lb_posts : list LoadPost
}.

Section setters.
Context `{MA : Machine}.
Definition set_lb_sys (v : sys) (s : LoadBased) : LoadBased :=
  mkLoadBased _ v (maxCycles s) (pids s) (usedCpus s) (containers s) (containerNuma s) (cpuNuma s)
    (numaContainers s) (highLoadThreshold s) (lb_posts s).
Definition set_maxCycles (v : list Z) (s : LoadBased) : LoadBased :=
  mkLoadBased _ (lb_sys s) v (pids s) (usedCpus s) (containers s) (containerNuma s) (cpuNuma s)
    (numaContainers s) (highLoadThreshold s) (lb_posts s).
Definition set_pids (v : gmap Z string) (s : LoadBased) : LoadBased :=
  mkLoadBased _ (lb_sys s) (maxCycles s) v (usedCpus s) (containers s) (containerNuma s) (cpuNuma s)
    (numaContainers s) (highLoadThreshold s) (lb_posts s).
Definition set_containers (v : gmap string ContainerCpuInfo) (s : LoadBased) : LoadBased :=
  mkLoadBased _ (lb_sys s) (maxCycles s) (pids s) (usedCpus s) v (containerNuma s) (cpuNuma s)
    (numaContainers s) (highLoadThreshold s) (lb_posts s).
Definition set_containerNuma (v : gmap string Z) (s : LoadBased) : LoadBased :=
  mkLoadBased _ (lb_sys s) (maxCycles s) (pids s) (usedCpus s) (containers s) v (cpuNuma s)
    (numaContainers s) (highLoadThreshold s) (lb_posts s).
Definition set_numa (cpus : gmap Z Z) (nodes : gmap Z ContainerInfo) (s : LoadBased) : LoadBased :=
  mkLoadBased _ (lb_sys s) (maxCycles s) (pids s) (usedCpus s) (containers s) (containerNuma s) cpus
    nodes (highLoadThreshold s) (lb_posts s).
Definition set_threshold (v : double) (s : LoadBased) : LoadBased :=
  mkLoadBased _ (lb_sys s) (maxCycles s) (pids s) (usedCpus s) (containers s) (containerNuma s)
    (cpuNuma s) (numaContainers s) v (lb_posts s).
Definition set_lb_posts (v : list LoadPost) (s : LoadBased) : LoadBased :=
  mkLoadBased _ (lb_sys s) (maxCycles s) (pids s) (usedCpus s) (containers s) (containerNuma s)
    (cpuNuma s) (numaContainers s) (highLoadThreshold s) v.

Definition on_container (id : string) (f : ContainerCpuInfo → ContainerCpuInfo) (s : LoadBased) :
    LoadBased :=
  set_containers (<[id := f (default ContainerCpuInfo0 (containers s !! id))]> (containers s)) s.
Definition on_node (node : Z) (f : ContainerInfo → ContainerInfo) (s : LoadBased) : LoadBased :=
  set_numa (cpuNuma s)
    (<[node := f (default ContainerInfo0 (numaContainers s !! node))]> (numaContainers s)) s.
Definition lb_post (p : LoadPost) : St LoadBased unit :=
  modify (λ s, set_lb_posts (lb_posts s ++ [p]) s).
Definition on_lb_sys {A} (c : St sys A) : St LoadBased A := zoom lb_sys set_lb_sys c.
End setters.

(** ** What the collectors tell *)

Definition preferred_path (id : string) : string :=
  ("/sys/fs/cgroup/cpuset/docker/" +:+ id +:+ "/cpuset.preferred_cpus")%string.

Section updates.
Context `{MA : Machine} `{HO : HashOrder}.

(** [a / b] on [int64_t]. *)
Definition quot_long (a b : Z) : option Z :=
  if decide (b = 0) then None
  else if decide (in_range CLong (Z.quot a b)) then Some (Z.quot a b) else None.
Definition tot_load (c : DockerData) : option Z :=
  if decide (dd_cfs_quota_us c = unlimit) then Some unlimit
  else wrap CInt <$> quot_long (dd_cfs_quota_us c) (dd_cfs_period_us c).

Definition set_origin (v : list byte) (c : ContainerCpuInfo) : ContainerCpuInfo :=
  mkContainerCpuInfo (cc_id c) (cc_cycles c) (cc_totLoad c) (cc_cpuLoad c) (cc_cpus c) v (cc_tasks c).
Definition set_data (id : string) (cpus : string) (tot : Z) (c : ContainerCpuInfo) : ContainerCpuInfo :=
  mkContainerCpuInfo id (cc_cycles c) tot (cc_cpuLoad c) cpus (cc_originPreferredCpu c) (cc_tasks c).
Definition add_cc_task (pid : Z) (c : ContainerCpuInfo) : ContainerCpuInfo :=
  mkContainerCpuInfo (cc_id c) (cc_cycles c) (cc_totLoad c) (cc_cpuLoad c) (cc_cpus c)
    (cc_originPreferredCpu c) ({[wrap CUlong pid]} ∪ cc_tasks c).
Definition set_load (cycles : Z) (load : double) (c : ContainerCpuInfo) : ContainerCpuInfo :=
  mkContainerCpuInfo (cc_id c) cycles (cc_totLoad c) load (cc_cpus c) (cc_originPreferredCpu c)
    (cc_tasks c).

Definition ReadSysParam (m : sys) (path : string) : list byte :=
  match sys_read m path with None => [] | Some text => first_word text end.

Definition add_container (c : DockerData) : St LoadBased unit :=
  let id := dd_id c in
  tot ← deref (tot_load c);
  s ← get;
  (if decide (is_Some (containers s !! id)) then mret tt
   else modify (on_container id (set_origin (ReadSysParam (lb_sys s) (preferred_path id))))) ;;
  modify (on_container id (set_data id (dd_cpus c) tot)) ;;
  for_each (dd_tasks c) (λ pid, modify (λ s,
    on_container id (add_cc_task pid) (set_pids (<[pid := id]> (pids s)) s))).

(** A container that is not in the data is dropped, with its tasks. *)
Definition drop_container (ids : gset string) (it : string * ContainerCpuInfo) : St LoadBased unit :=
  if decide (it.1 ∈ ids) then mret tt else
  modify (λ s, set_containers (delete it.1 (containers s))
    (set_pids (set_fold (λ pid m, delete (wrap CInt pid) m) (pids s) (cc_tasks it.2)) s)).

Definition UpdateDockerData (l : list DockerData) : St LoadBased unit :=
  for_each l add_container ;;
  s ← get;
  for_each (named_in_order (containers s)) (drop_container (list_to_set (map dd_id l))).

Definition add_cpu (info : EnvStaticInfo) (cpu : Z) : St LoadBased unit :=
  node ← deref (es_cpu2Node info !! Z.to_nat cpu);
  modify (λ s, on_node node
    (λ i, mkContainerInfo (ci_containerNum i) (ci_cpus i ++ [cpu]) (ci_usedIndex i))
    (set_numa (<[cpu := node]> (cpuNuma s)) (numaContainers s) s)).
Definition UpdateNumaInfo (l : list EnvStaticInfo) : St LoadBased unit :=
  s ← get;
  if decide (cpuNuma s ≠ ∅) then mret tt else
  for_each l (λ info, for_each (seqZ 0 (es_cpuNumConfig info)) (add_cpu info)).

(** [container.cycles += data.period], an unsigned addition that is stored
    as a signed number. *)
Definition add_period (data : PmuData) : St LoadBased unit :=
  s ← get;
  match pids s !! pd_pid data with
  | None => mret tt
  | Some id => modify (on_container id (λ c,
      set_load (wrap CLong (cc_cycles c + pd_period data)) (cc_cpuLoad c) c))
  end.

Definition cpu_load (cycles interval maxCycle : Z) : double :=
  d_mul (d_div (d_div (d_mul (d_of_Z cycles) (d_of_Z 1)) (d_of_Z interval)) (d_of_Z maxCycle))
    (d_of_Z 1000).
Definition UpdatePmuData (l : list PmuCountingData) : St LoadBased unit :=
  pmuData ← deref (head l);
  samples ← deref (if decide (Z.to_nat (pc_len pmuData) ≤ length (pc_pmuData pmuData))%nat
                   then Some (take (Z.to_nat (pc_len pmuData)) (pc_pmuData pmuData)) else None);
  for_each samples add_period ;;
  s ← get;
  if decide (containers s = ∅) then mret tt else
  maxCycle ← deref (head (maxCycles s));
  modify (λ s, set_containers
    ((λ c, set_load 0 (cpu_load (cc_cycles c) (pc_interval pmuData) maxCycle) c) <$> containers s) s).

(** A list whose data are not of the topic's type is undefined. *)
Definition LoadBased_UpdateData (d : LoadDataList) : St LoadBased unit :=
  let topic := ld_topic d in
  if decide (instanceName topic = OE_DOCKER_COLLECTOR ∧ topicName topic = OE_DOCKER_COLLECTOR) then
    match ld_data d with LDocker l => UpdateDockerData l | _ => undef end
  else if decide (instanceName topic = OE_ENV_INFO ∧ topicName topic = "static"%string) then
    match ld_data d with LStatic l => UpdateNumaInfo l | _ => undef end
  else if decide (instanceName topic = OE_PMU_SAMPLING_COLLECTOR ∧ topicName topic = "cycles"%string) then
    match ld_data d with LSampling l => UpdatePmuData l | _ => undef end
  else mret tt.
End updates.

(** ** The life of the instance *)

Section life.
Context `{MA : Machine} `{HO : HashOrder}.
(** [node.as<double>()], and what the manager answers to a subscription. *)
Context (as_double : Node → option double) (subscribed : Topic → Result).

Definition load_config : string := "/etc/oeAware/plugin/load_based_scheduling.yaml".
Definition load_failed (text : string) : Result := mkResult (Some FAILED) text.
Definition load_ok : Result := mkResult (Some OK) EmptyString.

(** A processor whose frequency cannot be read takes the one of the board. *)
Definition init_cycles (cpu : Z) : St LoadBased unit :=
  s ← get;
  let cycles := GetCpuCycles (lb_sys s) cpu in
  cycles ← (if decide (wrap CLong cycles = 0) then on_lb_sys GetCpuFreqByDmi else mret cycles);
  modify (λ s, set_maxCycles (<[Z.to_nat cpu := wrap CLong cycles]> (maxCycles s)) s).
Definition InitCpuCycles (cpuNum : Z) : St LoadBased unit :=
  if decide (cpuNum < 0) then throw LengthError else
  modify (λ s, set_maxCycles (take (Z.to_nat cpuNum) (maxCycles s) ++
    repeat 0 (Z.to_nat cpuNum - length (maxCycles s))) s) ;;
  for_each (seqZ 0 cpuNum) init_cycles.

(** [None] is a [YAML::Exception]. *)
Definition read_threshold (file : option Node) (old : double) : option double :=
  node ← file;
  high ← node_at node "high_load";
  if IsDefined high then as_double high else Some old.
Definition ReadConfig : St LoadBased Result :=
  s ← get;
  if negb (sys_exists (lb_sys s) load_config)
  then mret (load_failed "config file does not exist") else
  match read_threshold (sys_yaml (lb_sys s) load_config) (highLoadThreshold s) with
  | None => mret (load_failed "yaml")
  | Some v =>
    modify (set_threshold v) ;;
    if d_lt v d_zero || d_lt (d_of_Z 1) v
    then mret (load_failed "config error, high_load must be in [0,1].") else mret load_ok
  end.

Definition subscribeTopics : list Topic :=
  [mkTopic OE_DOCKER_COLLECTOR OE_DOCKER_COLLECTOR EmptyString;
   mkTopic OE_ENV_INFO "static" EmptyString;
   mkTopic OE_PMU_SAMPLING_COLLECTOR "cycles" EmptyString].
(** The first subscription that is refused ends [Enable]. *)
Fixpoint subscribe_all (topics : list Topic) : St LoadBased Result :=
  match topics with
  | [] => mret load_ok
  | t :: topics =>
    lb_post (LoadSubscribe t) ;;
    if decide (r_code (subscribed t) = Some OK) then subscribe_all topics else mret (subscribed t)
  end.
Definition LoadBased_Enable : St LoadBased Result :=
  ret ← ReadConfig;
  if decide (r_code ret ≠ Some OK) then mret ret else
  ret ← subscribe_all subscribeTopics;
  if decide (r_code ret ≠ Some OK) then mret ret else
  s ← get;
  InitCpuCycles (sys_cpus (lb_sys s)) ;;
  mret load_ok.

Definition restore_command (id : string) (origin : list byte) : string :=
  ("echo " +:+ str_of origin +:+ " > " +:+ preferred_path id)%string.
Definition LoadBased_Disable : St LoadBased unit :=
  for_each subscribeTopics (λ t, lb_post (LoadUnsubscribe t)) ;;
  s ← get;
  for_each (named_in_order (containers s)) (λ it,
    on_lb_sys (system (restore_command it.1 (cc_originPreferredCpu it.2))) ;; mret tt) ;;
  modify (λ s, mkLoadBased _ (lb_sys s) (maxCycles s) ∅ ∅ ∅ ∅ ∅ ∅ (highLoadThreshold s) (lb_posts s)).

(** ** Scheduling *)

Definition IsHighLoad (threshold : double) (c : ContainerCpuInfo) (cpuNum : Z) : bool :=
  let cpus := if decide (cc_totLoad c = unlimit) then cpuNum else cc_totLoad c in
  d_lt (d_mul threshold (d_of_Z cpus)) (cc_cpuLoad c).

Definition reset_nodes (m : gmap Z ContainerInfo) : gmap Z ContainerInfo :=
  (λ i, mkContainerInfo 0 (ci_cpus i) 0) <$> m.

(** [cpuNuma[cpu]]: a processor that is not known gets node 0. *)
Definition node_of (cpu : Z) : St LoadBased Z :=
  s ← get;
  let node := default 0 (cpuNuma s !! cpu) in
  modify (λ s, set_numa (<[cpu := node]> (cpuNuma s)) (numaContainers s) s) ;;
  mret node.

(** The first loop: the containers whose load is high. *)
Fixpoint select_high (l : list (string * ContainerCpuInfo)) : St LoadBased (list string) :=
  match l with
  | [] => mret []
  | (_, container) :: l =>
    cpus ← lift (ParseRange (bytes_of (cc_cpus container)));
    s ← get;
    if negb (IsHighLoad (highLoadThreshold s) container (Z.of_nat (length cpus)))
    then select_high l else
    cpu ← deref (head cpus);
    node ← node_of cpu;
    modify (on_node node (λ i,
      mkContainerInfo (wrap CInt (ci_containerNum i + 1)) (ci_cpus i) (ci_usedIndex i))) ;;
    modify (λ s, set_containerNuma (<[cc_id container := node]> (containerNuma s)) s) ;;
    rest ← select_high l;
    mret (cc_id container :: rest)
  end.

(** The texts of one share: [used] is tested when one container is tuned. *)
Fixpoint share_text (used : gset Z) (alone : bool) (cpus : list Z) : list byte :=
  match cpus with
  | [] => []
  | cpu :: cpus =>
    (if alone && bool_decide (cpu ∈ used) then [] else to_string cpu ++ [comma]) ++
    share_text used alone cpus
  end.

(** The number of processors that a container of the node gets. *)
Definition share_num (i : ContainerInfo) : option Z :=
  if decide (ci_containerNum i = 0) then None else
  Some (wrap CInt (Z.of_nat (length (ci_cpus i)) / wrap CUlong (ci_containerNum i))).
(** [cpus[usedIndex], ..]: a share that leaves the list is undefined. *)
Definition share_of (i : ContainerInfo) (num : Z) : option (list Z) :=
  if decide (num ≤ 0) then Some []
  else if decide (0 ≤ ci_usedIndex i ∧ ci_usedIndex i + num ≤ Z.of_nat (length (ci_cpus i)))
  then Some (take (Z.to_nat num) (drop (Z.to_nat (ci_usedIndex i)) (ci_cpus i))) else None.

Definition WriteSysParam (path : string) (value : list byte) : St LoadBased bool :=
  '(opens, takes) ← on_lb_sys (on_file path value); mret (opens && takes).

Definition tune_container (alone : bool) (id : string) : St LoadBased unit :=
  s ← get;
  let node := default 0 (containerNuma s !! id) in
  let info := default ContainerInfo0 (numaContainers s !! node) in
  num ← deref (share_num info);
  share ← deref (share_of info num);
  ok ← WriteSysParam (preferred_path id) (share_text (usedCpus s) alone share);
  if negb ok then mret tt else
  modify (on_node node (λ i,
    mkContainerInfo (ci_containerNum i) (ci_cpus i) (wrap CInt (ci_usedIndex i + num)))).

Definition LoadBased_Run : St LoadBased unit :=
  modify (λ s, set_numa (cpuNuma s) (reset_nodes (numaContainers s)) s) ;;
  s ← get;
  tuneContainerIds ← select_high (named_in_order (containers s));
  for_each tuneContainerIds (tune_container (bool_decide (length tuneContainerIds = 1%nat))).
End life.
