(* ===== verification/LoadBasedRun.v ===== *)
(** * What load-based scheduling gives to whom

    The containers whose load is high share the processors of their node: the
    shares are as large as the node allows, and no processor is in two of
    them. *)

From Stdlib Require Import ZArith Lia Strings.Byte.
From stdpp Require Import base list strings gmap numbers.
From S2P Require Import Prelude Bytes StdString Utils DataTypes Registry Daemon Config Machine.
From S2P Require Import Doubles LoadBased.

Section run.
Context `{MA : Machine} `{HO : HashOrder}.

(** ** The reference *)

Definition node_info (s : LoadBased) (node : Z) : ContainerInfo :=
  default ContainerInfo0 (numaContainers s !! node).
Definition cpu_node (s : LoadBased) (cpu : Z) : Z := default 0 (cpuNuma s !! cpu).

Definition cpus_of (c : ContainerCpuInfo) : list Z :=
  match ParseRange (bytes_of (cc_cpus c)) with Ret l => l | _ => [] end.
Definition is_high (s : LoadBased) (c : ContainerCpuInfo) : bool :=
  IsHighLoad (highLoadThreshold s) c (Z.of_nat (length (cpus_of c))).
(** The containers to tune, with their nodes. *)
Definition highs (s : LoadBased) (l : list (string * ContainerCpuInfo)) : list (string * Z) :=
  map (λ it, (cc_id it.2, cpu_node s (default 0 (head (cpus_of it.2)))))
    (filter (λ it, is_high s it.2 = true) l).
Definition members (node : Z) (l : list (string * Z)) : nat := length (filter (λ it, it.2 = node) l).

(** The [k]-th of the parts of [n] elements. *)
Definition part (n k : nat) (l : list Z) : list Z := take n (drop (k * n) l).

(** A container's share, and whether it could be written. *)
Record Share := mkShare { sh_id : string; sh_node : Z; sh_cpus : list Z; sh_ok : bool }.

(** One part of the node for each container in turn; a part that could not be
    written goes to the next one. *)
Fixpoint assign (cpus : Z → list Z) (num : Z → nat) (k : gmap Z nat) (l : list (string * Z))
    (m : sys) : list Share * sys :=
  match l with
  | [] => ([], m)
  | (id, node) :: l =>
    let done := default 0%nat (k !! node) in
    let share := part (num node) done (cpus node) in
    let '(opens, takes, m) := sys_write m (preferred_path id) (share_text ∅ false share) in
    let ok := opens && takes in
    let '(rest, m) := assign cpus num (if ok then <[node := S done]> k else k) l m in
    (mkShare id node share ok :: rest, m)
  end.

(** ** The selection *)

Lemma highs_cons s id c l :
  highs s ((id, c) :: l) =
  if is_high s c then (cc_id c, cpu_node s (default 0 (head (cpus_of c)))) :: highs s l else highs s l.
Proof.
  unfold highs. rewrite filter_cons. simpl. destruct (is_high s c) eqn:E.
  - by rewrite decide_True.
  - by rewrite decide_False.
Qed.
Lemma members_cons n id node l :
  members n ((id, node) :: l) = ((if decide (n = node) then 1 else 0) + members n l)%nat.
Proof.
  unfold members. rewrite filter_cons. simpl. destruct (decide (n = node)) as [->|Hn].
  - by rewrite decide_True.
  - by rewrite decide_False.
Qed.

(** The text of the processors can be read, and names one. *)
Definition cpus_ok (c : ContainerCpuInfo) : Prop :=
  ∃ cpu l, ParseRange (bytes_of (cc_cpus c)) = Ret (cpu :: l).

(** Counting a container on its node. *)
Lemma count_node s cpu id (s1 := set_containerNuma (<[id := cpu_node s cpu]> (containerNuma s))
    (on_node (cpu_node s cpu) (λ i,
      mkContainerInfo (wrap CInt (ci_containerNum i + 1)) (ci_cpus i) (ci_usedIndex i))
      (set_numa (<[cpu := cpu_node s cpu]> (cpuNuma s)) (numaContainers s) s))) :
  0 ≤ ci_containerNum (node_info s (cpu_node s cpu)) < 2147483647 →
  (∀ cpu', cpu_node s1 cpu' = cpu_node s cpu') ∧
  (∀ n, node_info s1 n = mkContainerInfo
    (ci_containerNum (node_info s n) + (if decide (n = cpu_node s cpu) then 1 else 0))
    (ci_cpus (node_info s n)) (ci_usedIndex (node_info s n))).
Proof.
  intros Hn. subst s1. split.
  - intros cpu'. unfold cpu_node. simpl. destruct (decide (cpu = cpu')) as [<-|];
      [by rewrite lookup_insert_eq|by rewrite lookup_insert_ne].
  - intros n. unfold node_info in *. simpl. destruct (decide (n = cpu_node s cpu)) as [->|Hne].
    + rewrite lookup_insert_eq. simpl. f_equal. apply (wrap_id CInt), in_range_int. lia.
    + rewrite lookup_insert_ne by done. rewrite Z.add_0_r. by destruct (default ContainerInfo0 (numaContainers s !! n)).
Qed.

Lemma select_high_twp l s :
  (∀ id c, (id, c) ∈ l → cpus_ok c) → NoDup (map (λ it, cc_id it.2) l) →
  (∀ node, 0 ≤ ci_containerNum (node_info s node) ∧
    ci_containerNum (node_info s node) + Z.of_nat (length l) ≤ 2147483647) →
  twp (select_high l) (λ ids s',
    ids = (highs s l).*1 ∧ lb_sys s' = lb_sys s ∧ containers s' = containers s ∧
    usedCpus s' = usedCpus s ∧
    (∀ node, node_info s' node = mkContainerInfo
       (ci_containerNum (node_info s node) + Z.of_nat (members node (highs s l)))
       (ci_cpus (node_info s node)) (ci_usedIndex (node_info s node))) ∧
    (∀ id node, (id, node) ∈ highs s l → containerNuma s' !! id = Some node) ∧
    (∀ id, id ∉ (highs s l).*1 → containerNuma s' !! id = containerNuma s !! id)) s.
Proof.
  revert s. induction l as [|[id c] l IH]; intros s Hc Hnd Hn.
  { apply twp_ret. split_and!; try done; [|set_solver].
    intros node. simpl. rewrite Z.add_0_r. by destruct (node_info s node). }
  destruct (Hc id c ltac:(set_solver)) as (cpu & cs & Ecs).
  rewrite map_cons in Hnd. apply list.NoDup_cons in Hnd as [Hnew Hnd].
  assert (cpus_of c = cpu :: cs) as Ec by (unfold cpus_of; by rewrite Ecs).
  cbn [select_high]. apply twp_bind, (twp_lift _ (cpu :: cs)); [done|]. apply twp_bind, twp_get.
  rewrite highs_cons. unfold is_high. rewrite Ec. cbn [length].
  destruct (IsHighLoad _ c _) eqn:Eh; cbn [negb].
  2: { apply IH; [set_solver|done|]. intros node. specialize (Hn node). simpl in Hn. lia. }
  apply twp_bind, (twp_deref _ cpu); [done|]. cbn [head default].
  apply twp_bind. unfold node_of. apply twp_bind, twp_get, twp_bind, twp_modify, twp_ret.
  apply twp_bind, twp_modify, twp_bind, twp_modify. cbv beta. fold (cpu_node s cpu).
  destruct (count_node s cpu (cc_id c)) as [Hcpu Hinfo].
  { specialize (Hn (cpu_node s cpu)). simpl length in Hn. lia. }
  set (s1 := set_containerNuma _ _) in *.
  assert (highs s1 l = highs s l) as Ehs.
  { unfold highs. apply map_ext. intros [id' c']. simpl. by rewrite Hcpu. }
  apply twp_bind. eapply twp_mono; [apply IH|].
  - set_solver.
  - done.
  - intros node. rewrite Hinfo. specialize (Hn node). cbn [length ci_containerNum] in *.
    destruct (decide _); lia.
  - intros ids s2 (-> & E1 & E2 & E3 & E4 & E5 & E6). rewrite Ehs in *. apply twp_ret.
    split_and!; [done|done|done|done| | |].
    + intros node. rewrite E4, Hinfo, members_cons. simpl. f_equal. destruct (decide _); lia.
    + intros id' node [[= -> ->]|Hin]%elem_of_cons; [|by apply E5].
      rewrite E6; [apply lookup_insert_eq|]. intros ([i n] & E & Hin)%list_elem_of_fmap. simpl in E.
      subst i. apply Hnew. unfold highs in Hin. apply list_elem_of_In, in_map_iff in Hin as (it & E & Hit).
      apply list_elem_of_In, in_map_iff. exists it. injection E as E _. split; [done|].
      apply list_elem_of_In, list_elem_of_filter in Hit as [_ Hit]. by apply list_elem_of_In.
    + intros id' Hid. rewrite fmap_cons in Hid. apply not_elem_of_cons in Hid as [Hne Hid]. simpl in Hne.
      rewrite E6 by done. simpl. by rewrite lookup_insert_ne.
Qed.

(** ** The shares *)

(** What the loop of the second part needs of the nodes: [N] containers on a
    node, of which [k] have their share already. *)
Record dealt (cpus : Z → list Z) (N : Z → nat) (k : gmap Z nat) (l : list (string * Z))
    (s : LoadBased) : Prop := {
  de_used : usedCpus s = ∅;
  de_numa id node : (id, node) ∈ l → containerNuma s !! id = Some node;
  de_info node : node_info s node = mkContainerInfo (Z.of_nat (N node)) (cpus node)
    (Z.of_nat (default 0%nat (k !! node) * (length (cpus node) / N node)));
  de_left node : (default 0%nat (k !! node) + members node l ≤ N node)%nat;
  de_small node : Z.of_nat (length (cpus node)) ≤ 2147483647 ∧ Z.of_nat (N node) ≤ 2147483647
}.

Lemma share_text_alone b l : share_text ∅ b l = share_text ∅ false l.
Proof. induction l as [|x l IH]; [done|]. simpl. rewrite IH. by destruct b. Qed.

Lemma share_num_part cpus (n : nat) u :
  (0 < n)%nat → Z.of_nat (length cpus) ≤ 2147483647 → Z.of_nat n ≤ 2147483647 →
  share_num (mkContainerInfo (Z.of_nat n) cpus u) = Some (Z.of_nat (length cpus / n)).
Proof.
  intros Hn Hl Hs. unfold share_num. cbn [ci_containerNum ci_cpus]. rewrite decide_False by lia.
  rewrite (wrap_id CUlong) by (apply in_range_ulong; lia). rewrite <-Nat2Z.inj_div.
  pose proof (Nat.Div0.div_le_upper_bound (length cpus) n (length cpus) ltac:(nia)).
  by rewrite (wrap_id CInt) by (apply in_range_int; lia).
Qed.

Lemma share_of_part cpus (n q k : nat) :
  (k * q + q ≤ length cpus)%nat →
  share_of (mkContainerInfo (Z.of_nat n) cpus (Z.of_nat (k * q))) (Z.of_nat q) = Some (part q k cpus).
Proof.
  intros Hk. unfold share_of, part. cbn [ci_cpus ci_usedIndex].
  destruct (decide (Z.of_nat q ≤ 0)) as [H0|H0]; [by replace q with 0%nat by lia|].
  rewrite decide_True by lia. by rewrite !Nat2Z.id.
Qed.

Lemma part_length n k l : (k * n + n ≤ length l)%nat → length (part n k l) = n.
Proof. intros. unfold part. rewrite length_take, length_drop. lia. Qed.

Lemma tune_container_twp cpus N alone id node l k s
    (d := default 0%nat (k !! node)) (q := (length (cpus node) / N node)%nat) :
  dealt cpus N k ((id, node) :: l) s →
  twp (tune_container alone id) (λ _ s',
    let '(opens, takes, m) := sys_write (lb_sys s) (preferred_path id)
      (share_text ∅ false (part q d (cpus node))) in
    lb_sys s' = m ∧ dealt cpus N (if opens && takes then <[node := S d]> k else k) l s') s.
Proof.
  intros [Hu Hnuma Hinfo Hleft Hsmall]. unfold tune_container.
  apply twp_bind, twp_get. rewrite (Hnuma id node) by set_solver. cbv zeta.
  change (default 0 (Some node)) with node.
  change (default ContainerInfo0 (numaContainers s !! node)) with (node_info s node). rewrite Hinfo.
  destruct (Hsmall node) as [Hl HN].
  pose proof (Hleft node) as Hle. rewrite members_cons, decide_True in Hle by done. fold d q in Hle |- *.
  assert (q * N node ≤ length (cpus node))%nat as Hq
    by (unfold q; rewrite Nat.mul_comm; apply Nat.Div0.mul_div_le).
  assert (d * q + q ≤ length (cpus node))%nat as Hb by nia.
  apply twp_bind, (twp_deref _ (Z.of_nat q)); [apply share_num_part; lia|].
  apply twp_bind, (twp_deref _ (part q d (cpus node))); [by apply share_of_part|].
  rewrite Hu, share_text_alone. apply twp_bind, twp_bind, twp_zoom. unfold on_file, twp at 1.
  destruct (sys_write _ _ _) as [[opens takes] m] eqn:Ew. apply twp_ret.
  assert (∀ n, (default 0%nat (k !! n) + members n l ≤ N n)%nat) as Hleft'.
  { intros n. specialize (Hleft n). rewrite members_cons in Hleft. lia. }
  destruct (opens && takes); cbn [negb].
  2: { apply twp_ret. split; [done|]. split; [done| |done|done|done].
       intros id' node' Hin. apply (Hnuma id'). set_solver. }
  apply twp_modify. split; [done|]. split; [done| | | |done].
  - intros id' node' Hin. apply (Hnuma id'). set_solver.
  - intros n. unfold node_info, on_node. cbn [numaContainers set_numa set_lb_sys].
    destruct (decide (n = node)) as [->|Hn].
    + rewrite !lookup_insert_eq. cbn [default]. fold (node_info s node). rewrite Hinfo.
      cbn [ci_containerNum ci_cpus ci_usedIndex]. fold d q.
      simpl. f_equal. rewrite (wrap_id CInt) by (apply in_range_int; lia). lia.
    + rewrite !lookup_insert_ne by done. apply Hinfo.
  - intros n. destruct (decide (n = node)) as [->|Hn].
    + rewrite lookup_insert_eq. simpl. lia.
    + rewrite lookup_insert_ne by done. apply Hleft'.
Qed.

Lemma tune_loop cpus N alone l k s :
  dealt cpus N k l s →
  twp (for_each l.*1 (tune_container alone))
    (λ _ s', lb_sys s' = (assign cpus (λ node, length (cpus node) / N node)%nat k l (lb_sys s)).2) s.
Proof.
  revert k s. induction l as [|[id node] l IH]; intros k s Hd; [by apply twp_ret|].
  cbn [fmap list_fmap for_each fst]. apply twp_bind.
  eapply twp_mono; [by apply tune_container_twp|]. intros [] s1. cbn [assign].
  destruct (sys_write _ _ _) as [[opens takes] m]. intros [<- H1].
  eapply twp_mono; [by apply IH|]. intros _ s2 ->. by destruct (assign _ _ _ l _).
Qed.

(** ** Shares do not overlap *)

Lemma part_sub n k l : part n k l ⊆ l.
Proof. intros x Hx. unfold part in Hx. by eapply subseteq_drop, subseteq_take. Qed.

Lemma parts_disjoint n a b l x : NoDup l → (a < b)%nat → x ∈ part n a l → x ∈ part n b l → False.
Proof.
  intros Hnd Hab Ha Hb. unfold part in *.
  apply list_elem_of_lookup in Ha as [i Hi], Hb as [j Hj].
  apply lookup_take_Some in Hi as [Hi Hin], Hj as [Hj Hjn]. rewrite lookup_drop in Hi, Hj.
  pose proof (NoDup_lookup _ _ _ _ Hnd Hi Hj). nia.
Qed.

(** The shares of a list of containers from [k] on. *)
Lemma assign_parts cpus num k l m j sh :
  (assign cpus num k l m).1 !! j = Some sh →
  ∃ b, (default 0 (k !! sh_node sh) ≤ b < default 0 (k !! sh_node sh) + members (sh_node sh) l)%nat ∧
    sh_cpus sh = part (num (sh_node sh)) b (cpus (sh_node sh)).
Proof.
  revert k m j. induction l as [|[id node] l IH]; intros k m j; [done|]. cbn [assign].
  destruct (sys_write _ _ _) as [[opens takes] m1].
  set (k' := if opens && takes then _ else k). pose proof (IH k' m1) as IH'.
  destruct (assign _ _ k' l m1) as [rest m2]. destruct j as [|j]; simpl.
  - intros [= <-]. simpl. exists (default 0%nat (k !! node)). rewrite members_cons, decide_True by done.
    split; [lia|done].
  - intros Hj. destruct (IH' j Hj) as (b & Hb & ->). exists b. split; [|done].
    rewrite members_cons. revert Hb. subst k'. destruct (opens && takes); intros Hb; [|lia].
    destruct (decide (sh_node sh = node)) as [En|Hn]; [rewrite En in Hb |- *|].
    + rewrite lookup_insert_eq in Hb. simpl in Hb. lia.
    + rewrite lookup_insert_ne in Hb by done. lia.
Qed.

Lemma assign_disjoint cpus num k l m i j si sj x :
  (∀ node, NoDup (cpus node)) →
  (assign cpus num k l m).1 !! i = Some si → (assign cpus num k l m).1 !! j = Some sj →
  (i < j)%nat → sh_ok si = true → sh_node si = sh_node sj →
  x ∈ sh_cpus si → x ∈ sh_cpus sj → False.
Proof.
  intros Hnd. revert k m i j. induction l as [|[id node] l IH]; intros k m i j; [done|]. cbn [assign].
  destruct (sys_write _ _ _) as [[opens takes] m1].
  set (k' := if opens && takes then _ else k). pose proof (IH k' m1) as IH'.
  pose proof (assign_parts cpus num k' l m1) as Hparts.
  destruct (assign _ _ k' l m1) as [rest m2]. destruct j as [|j]; [lia|]. destruct i as [|i]; simpl.
  - intros [= <-] Hj _ Hok En. simpl in *. destruct (Hparts _ _ Hj) as (b & Hb & ->).
    subst k'. rewrite Hok, <-En, lookup_insert_eq in Hb. simpl in Hb. rewrite <-En.
    apply parts_disjoint; [done|lia].
  - intros Hi Hj Hij. eapply IH'; [done|done|lia].
Qed.

(** [shares] are written one after the other. *)
Inductive wrote : sys → list Share → sys → Prop :=
| wrote_nil m : wrote m [] m
| wrote_cons m sh opens takes m1 rest m2 :
  sys_write m (preferred_path (sh_id sh)) (share_text ∅ false (sh_cpus sh)) = (opens, takes, m1) →
  sh_ok sh = opens && takes → wrote m1 rest m2 → wrote m (sh :: rest) m2.

Lemma assign_wrote cpus num k l m :
  wrote m (assign cpus num k l m).1 (assign cpus num k l m).2 ∧
  map (λ sh, (sh_id sh, sh_node sh)) (assign cpus num k l m).1 = l.
Proof.
  revert k m. induction l as [|[id node] l IH]; intros k m; [split; [constructor|done]|]. cbn [assign].
  destruct (sys_write _ _ _) as [[opens takes] m1] eqn:Ew.
  set (k' := if opens && takes then _ else k). destruct (IH k' m1) as [H1 H2].
  destruct (assign _ _ k' l m1) as [rest m2]. simpl in *. split; [|by rewrite H2].
  by econstructor.
Qed.

(** ** The whole turn *)

(** What holds between calls: a container is known by its identifier, a
    task belongs to a container that knows it, and the lists of processors
    agree with their nodes. *)
Record lb_ok (s : LoadBased) : Prop := {
  ok_used : usedCpus s = ∅;
  ok_ids id c : containers s !! id = Some c → cc_id c = id;
  ok_tasks pid id : pids s !! pid = Some id → in_range CInt pid ∧
    ∃ c, containers s !! id = Some c ∧ wrap CUlong pid ∈ cc_tasks c;
  ok_cpus node : NoDup (ci_cpus (node_info s node)) ∧
    ∀ cpu, cpu ∈ ci_cpus (node_info s node) → cpuNuma s !! cpu = Some node
}.

Lemma in_order_ids s :
  lb_ok s →
  map (λ it, cc_id it.2) (named_in_order (containers s)) = (named_in_order (containers s)).*1.
Proof.
  intros Hs. assert (∀ l : list (string * ContainerCpuInfo),
    (∀ id c, (id, c) ∈ l → cc_id c = id) → map (λ it, cc_id it.2) l = l.*1) as H.
  { induction l as [|[id c] l IH]; intros Hl; [done|]. cbn [map fmap list_fmap fst snd].
    rewrite (Hl id c) by set_solver. f_equal. apply IH. set_solver. }
  apply H. intros id c Hin%elem_of_named_in_order. by eapply ok_ids.
Qed.

Lemma node_info_reset s m node :
  node_info (set_numa m (reset_nodes (numaContainers s)) s) node =
  mkContainerInfo 0 (ci_cpus (node_info s node)) 0.
Proof.
  unfold node_info, reset_nodes. cbn [numaContainers set_numa]. rewrite lookup_fmap.
  by destruct (numaContainers s !! node).
Qed.

Lemma members_le node l : (members node l ≤ length l)%nat.
Proof. unfold members. apply length_filter. Qed.
Lemma highs_le s l : (length (highs s l) ≤ length l)%nat.
Proof. unfold highs. rewrite length_map. apply length_filter. Qed.

(** C31. A turn of the scheduler gives every container whose load is high one
    share of the processors of its node, in the order in which the table is
    visited, and nothing to the others: a node's processors are divided by the
    number of its containers whose load is high, every share has that many
    processors of the node, and no processor of a share that was written is
    in a later one.  The turn has no undefined access as long as the text of
    processors of every container names one. *)
Theorem run_shares (s : LoadBased) (hs := highs s (named_in_order (containers s)))
    (Hs : lb_ok s)
    (Hc : ∀ id c, containers s !! id = Some c → cpus_ok c)
    (Hn : Z.of_nat (size (containers s)) ≤ 2147483647)
    (Hl : ∀ node, Z.of_nat (length (ci_cpus (node_info s node))) ≤ 2147483647) :
  ∃ s' shares, LoadBased_Run s = Ret (tt, s') ∧ wrote (lb_sys s) shares (lb_sys s') ∧
    map (λ sh, (sh_id sh, sh_node sh)) shares = hs ∧
    (∀ sh, sh ∈ shares → sh_cpus sh ⊆ ci_cpus (node_info s (sh_node sh)) ∧
      length (sh_cpus sh) = (length (ci_cpus (node_info s (sh_node sh))) / members (sh_node sh) hs)%nat) ∧
    (∀ i j si sj cpu, shares !! i = Some si → shares !! j = Some sj → (i < j)%nat → sh_ok si = true →
      cpu ∈ sh_cpus si → cpu ∉ sh_cpus sj).
Proof.
  set (l := named_in_order (containers s)) in *.
  set (s1 := set_numa (cpuNuma s) (reset_nodes (numaContainers s)) s).
  assert (highs s1 l = hs) as Ehs by done.
  assert (Z.of_nat (length l) ≤ 2147483647) as Hlen.
  { unfold l. rewrite (named_in_order_perm (containers s)), length_map_to_list. done. }
  set (cpus := λ node, ci_cpus (node_info s node)).
  set (shares := (assign cpus (λ node, length (cpus node) / members node hs)%nat ∅ hs (lb_sys s)).1).
  assert (twp LoadBased_Run (λ _ s', lb_sys s' = (assign cpus
    (λ node, length (cpus node) / members node hs)%nat ∅ hs (lb_sys s)).2) s) as Hrun.
  { unfold LoadBased_Run. apply twp_bind, twp_modify, twp_bind, twp_get, twp_bind.
    change (named_in_order (containers _)) with l. fold s1.
    eapply twp_mono; [apply select_high_twp|].
    - intros id c Hin%elem_of_named_in_order. by eapply Hc.
    - unfold l. rewrite in_order_ids by done. apply named_in_order_NoDup.
    - intros node. unfold s1. rewrite node_info_reset. simpl. lia.
    - rewrite Ehs. intros ids s2 (-> & Esys & _ & Eu & Einfo & Enuma & _).
      change (lb_sys s) with (lb_sys s1). rewrite <-Esys. apply tune_loop. split.
      + rewrite Eu. apply Hs.
      + done.
      + intros node. rewrite Einfo. unfold s1. rewrite node_info_reset. simpl.
        by rewrite lookup_empty.
      + intros node. rewrite lookup_empty. done.
      + intros node. split; [apply Hl|]. pose proof (members_le node hs). pose proof (highs_le s l : (length hs ≤ length l)%nat). lia. }
  apply twp_alt in Hrun as ([] & s' & E & Es'). exists s', shares.
  destruct (assign_wrote cpus (λ node, length (cpus node) / members node hs)%nat ∅ hs (lb_sys s))
    as [Hw Hids]. rewrite <-Es' in Hw. split_and!; [done|exact Hw|exact Hids| |].
  - intros sh [j Hj]%list_elem_of_lookup. destruct (assign_parts _ _ _ _ _ _ _ Hj) as (b & Hb & ->).
    rewrite lookup_empty in Hb. simpl in Hb. split; [apply part_sub|]. apply part_length.
    set (n := members _ hs) in *. set (q := (length _ / n)%nat).
    assert (q * n ≤ length (cpus (sh_node sh)))%nat
      by (unfold q; rewrite Nat.mul_comm; apply Nat.Div0.mul_div_le). nia.
  - intros i j si sj cpu Hi Hj Hij Hok Hci Hcj.
    assert (sh_node si = sh_node sj) as En.
    { destruct (assign_parts _ _ _ _ _ _ _ Hi) as (b & _ & Ei), (assign_parts _ _ _ _ _ _ _ Hj) as (b' & _ & Ej).
      rewrite Ei in Hci. rewrite Ej in Hcj. apply part_sub in Hci, Hcj.
      apply (ok_cpus _ Hs) in Hci, Hcj. congruence. }
    eapply assign_disjoint; [|exact Hi|exact Hj|done..]. intros node. apply (ok_cpus _ Hs).
Qed.
End run.
