(* ===== verification/LoadBasedLife.v ===== *)
(** * The life of load-based scheduling

    Whatever comes from the collectors, the table of containers and the table
    of tasks agree, and the lists of processors agree with their nodes. *)

From Stdlib Require Import ZArith Lia Strings.Byte.
From stdpp Require Import base list strings gmap numbers.
From S2P Require Import Prelude Bytes StdString Utils DataTypes Registry Daemon Config Machine Steps.
From S2P Require Import World Knobs.
From S2P Require Import Doubles LoadBased LoadBasedRun.

Section life.
Context `{MA : Machine} `{HO : HashOrder}.

(** The steps that keep [lb_ok]. *)
Definition lb_kept (s s' : LoadBased) : Prop := lb_ok s → lb_ok s'.
#[export] Instance lb_kept_preorder : PreOrder lb_kept.
Proof. split; [by intros s H|]. intros s1 s2 s3 H1 H2 H. by apply H2, H1. Qed.

(** The part of the state that [lb_ok] speaks of. *)
Lemma lb_ok_same s s' :
  usedCpus s' = usedCpus s → containers s' = containers s → pids s' = pids s →
  cpuNuma s' = cpuNuma s → numaContainers s' = numaContainers s → lb_kept s s'.
Proof.
  intros E1 E2 E3 E4 E5 [H1 H2 H3 H4]. split.
  - by rewrite E1.
  - by rewrite E2.
  - intros pid id. rewrite E3, E2. apply H3.
  - intros node. unfold node_info. rewrite E5, E4. apply H4.
Qed.

Lemma on_container_kept id g s :
  let c := default ContainerCpuInfo0 (containers s !! id) in
  cc_id (g c) = id → cc_tasks c ⊆ cc_tasks (g c) → lb_kept s (on_container id g s).
Proof.
  intros c Hid Ht [H1 H2 H3 H4]. split; [done| | |done].
  - intros i c'. simpl. rewrite lookup_insert_Some. intros [[<- <-]|[_ Hi]]; [done|by apply H2].
  - intros pid i Hp. destruct (H3 pid i Hp) as (Hr & c' & Hc & Hin). split; [done|]. simpl.
    destruct (decide (id = i)) as [->|Hne].
    + rewrite lookup_insert_eq. eexists. split; [done|]. apply Ht. subst c. by rewrite Hc.
    + rewrite lookup_insert_ne by done. by exists c'.
Qed.

Lemma add_task_kept id pid s :
  in_range CInt pid → is_Some (containers s !! id) →
  lb_kept s (on_container id (add_cc_task pid) (set_pids (<[pid := id]> (pids s)) s)).
Proof.
  intros Hr [c Hc] [H1 H2 H3 H4]. split; [done| | |done].
  - intros i c'. simpl. rewrite Hc, lookup_insert_Some. intros [[<- <-]|[_ Hi]]; [exact (H2 _ _ Hc)|exact (H2 _ _ Hi)].
  - intros p i. simpl. rewrite Hc. simpl. intros Hp. destruct (decide (pid = p)) as [->|Hne].
    + rewrite lookup_insert_eq in Hp. injection Hp as <-. split; [done|]. rewrite lookup_insert_eq.
      eexists. split; [done|]. simpl. set_solver.
    + rewrite lookup_insert_ne in Hp by done. destruct (H3 p i Hp) as (Hr' & c' & Hc' & Hin).
      split; [done|]. destruct (decide (id = i)) as [->|Hi].
      * rewrite lookup_insert_eq. eexists. split; [done|]. simpl. set_solver.
      * rewrite lookup_insert_ne by done. by exists c'.
Qed.

(** Data from the collector: its tasks are numbers of tasks. *)
Definition docker_ok (c : DockerData) : Prop := Forall (in_range CInt) (dd_tasks c).

Lemma add_container_ends c s :
  docker_ok c → lb_ok s → ends (add_container c)
    (λ _ s', lb_ok s' ∧ dom (containers s') = {[dd_id c]} ∪ dom (containers s)) s.
Proof.
  intros Ht Hok. unfold add_container. apply ends_then, ends_deref. intros tot _.
  apply ends_then, ends_get, ends_then.
  assert (∀ s1, lb_ok s1 → is_Some (containers s1 !! dd_id c) →
    dom (containers s1) = {[dd_id c]} ∪ dom (containers s) →
    ends (for_each (dd_tasks c) (λ pid, modify (λ s,
      on_container (dd_id c) (add_cc_task pid) (set_pids (<[pid := dd_id c]> (pids s)) s))))
    (λ _ s', lb_ok s' ∧ dom (containers s') = {[dd_id c]} ∪ dom (containers s)) s1) as Htasks.
  { intros s1 H1 Hin Hd. apply (ends_for_each _ _ (λ _ s', lb_ok s' ∧
      dom (containers s') = {[dd_id c]} ∪ dom (containers s))); [done|].
    intros l1 pid l2 s2 El [H2 Hd2]. apply ends_modify. split.
    - apply add_task_kept; [|apply elem_of_dom; rewrite Hd2; set_solver|done].
      unfold docker_ok in Ht. rewrite list.Forall_forall in Ht. apply Ht. rewrite El. set_solver.
    - simpl. rewrite dom_insert_L, Hd2. set_solver. }
  case_decide as Hin.
  - apply ends_value, ends_then, ends_modify, Htasks.
    + apply on_container_kept; [done|done|done].
    + simpl. rewrite lookup_insert_eq. by eexists.
    + simpl. by rewrite dom_insert_L.
  - apply ends_modify, ends_then, ends_modify, Htasks.
    + set (f := set_data _ _ _). set (g := set_origin _).
      assert (on_container (dd_id c) f (on_container (dd_id c) g s) =
        on_container (dd_id c) (λ x, f (g x)) s) as ->.
      { unfold on_container. simpl. rewrite lookup_insert_eq. simpl. by rewrite insert_insert_eq. }
      apply on_container_kept; [done|done|done].
    + simpl. rewrite lookup_insert_eq. by eexists.
    + simpl. rewrite !dom_insert_L. set_solver.
Qed.

(** Erasing the tasks of a container. *)
Lemma erase_tasks_spec (tasks : gset Z) (m : gmap Z string) pid id :
  set_fold (λ pid m, delete (wrap CInt pid) m) m tasks !! pid = Some id →
  m !! pid = Some id ∧ ∀ t, t ∈ tasks → wrap CInt t ≠ pid.
Proof.
  apply (set_fold_ind_L (λ m' X, m' !! pid = Some id →
    m !! pid = Some id ∧ ∀ t, t ∈ X → wrap CInt t ≠ pid)).
  - intros H. split; [done|]. set_solver.
  - intros t X m' _ IH [Hne H]%lookup_delete_Some. destruct (IH H) as [H1 H2]. split; [done|].
    intros t' [->%elem_of_singleton|Hin]%elem_of_union; [done|by apply H2].
Qed.

Lemma wrap_task pid : in_range CInt pid → wrap CInt (wrap CUlong pid) = pid.
Proof.
  intros Hr. rewrite <-(wrap_id CInt pid) at 2 by done. unfold wrap at 1 3.
  assert (wrap CUlong pid `mod` modulus CInt = pid `mod` modulus CInt) as ->; [|done].
  unfold wrap. simpl. change (modulus CUlong) with (modulus CInt * 4294967296).
  rewrite Z.rem_mul_r by done. rewrite (Z.mul_comm (modulus CInt) (_ `mod` _)), Z_mod_plus_full.
  by apply Z.mod_mod.
Qed.

Lemma drop_kept id c s :
  containers s !! id = Some c →
  lb_kept s (set_containers (delete id (containers s))
    (set_pids (set_fold (λ pid m, delete (wrap CInt pid) m) (pids s) (cc_tasks c)) s)).
Proof.
  intros Hc [H1 H2 H3 H4]. split; [done| | |done].
  - intros i c'. simpl. rewrite lookup_delete_Some. intros [_ Hi]. by apply H2.
  - intros pid i. simpl. intros [Hp Ht]%erase_tasks_spec. destruct (H3 pid i Hp) as (Hr & c' & Hc' & Hin).
    split; [done|]. exists c'. split; [|done]. apply lookup_delete_Some. split; [|done]. intros <-.
    rewrite Hc in Hc'. injection Hc' as <-. apply (Ht _ Hin). by apply wrap_task.
Qed.

Lemma drop_loop ids s :
  lb_ok s → twp (for_each (named_in_order (containers s)) (drop_container ids))
    (λ _ s', lb_ok s' ∧ ∀ id, containers s' !! id = if decide (id ∈ ids) then containers s !! id else None) s.
Proof.
  intros Hok. set (es := named_in_order (containers s)). eapply twp_mono.
  { apply (twp_for_each_idx _ _ (λ l1 s', lb_ok s' ∧ ∀ id, containers s' !! id =
      if decide (id ∈ ids ∨ id ∉ l1.*1) then containers s !! id else None)).
    - split; [done|]. intros id. rewrite decide_True by (right; set_solver). done.
    - intros l1 [id c] l2 s2 El [H2 K2]. unfold drop_container. cbn [fst snd].
      pose proof (named_in_order_NoDup (containers s)) as Hnd. fold es in Hnd.
      rewrite El, fmap_app, fmap_cons in Hnd. apply list.NoDup_app in Hnd as (_ & Hnd & _).
      assert (containers s !! id = Some c) as Hc
        by (apply elem_of_named_in_order; fold es; rewrite El; set_solver).
      assert (id ∉ l1.*1) as Hnew by (intros Hin; apply (Hnd id Hin); set_solver).
      assert (∀ id', id' ∉ (l1 ++ [(id, c)]).*1 ↔ id' ∉ l1.*1 ∧ id' ≠ id) as Happ
        by (intros id'; rewrite fmap_app; set_solver).
      case_decide as Hid.
      + apply twp_ret. split; [done|]. intros id'. rewrite K2.
        destruct (decide (id' = id)) as [->|Hne]; [by rewrite !decide_True by naive_solver|].
        apply decide_ext. naive_solver.
      + apply twp_modify. split; [apply drop_kept; [|done]|].
        * by rewrite K2, decide_True by naive_solver.
        * intros id'. simpl. destruct (decide (id' = id)) as [->|Hne].
          -- rewrite lookup_delete_eq, decide_False; [done|naive_solver].
          -- rewrite lookup_delete_ne, K2 by done. apply decide_ext. naive_solver. }
  intros [] s' [H1 K1]. split; [done|]. intros id. rewrite K1. destruct (decide (id ∈ ids)) as [Hid|Hid].
  - by rewrite decide_True by naive_solver.
  - destruct (containers s !! id) as [c|] eqn:Hc; [|by case_decide].
    rewrite decide_False; [done|]. intros [|Hn]; [done|]. apply Hn, list_elem_of_fmap. exists (id, c).
    split; [done|]. by apply elem_of_named_in_order.
Qed.

(** The table holds exactly the containers of the data. *)
Lemma UpdateDockerData_ends l s :
  Forall docker_ok l → lb_ok s →
  ends (UpdateDockerData l)
    (λ _ s', lb_ok s' ∧ dom (containers s') = list_to_set (map dd_id l)) s.
Proof.
  intros Hl Hok. unfold UpdateDockerData. apply ends_then. eapply ends_weaken.
  { apply (ends_for_each _ _ (λ l1 s', lb_ok s' ∧
      dom (containers s') = list_to_set (map dd_id l1) ∪ dom (containers s))); [simpl; split; [done|set_solver]|].
    intros l1 c l2 s1 El [H1 D1]. eapply ends_weaken; [apply add_container_ends; [|done]|].
    - rewrite list.Forall_forall in Hl. apply Hl. rewrite El. set_solver.
    - intros [] s2 [H2 D2]. split; [done|]. rewrite D2, D1, map_app, list_to_set_app_L. simpl. set_solver. }
  intros [] s1 [H1 D1]. apply ends_then, ends_get, ends_twp.
  eapply twp_mono; [by apply drop_loop|]. intros [] s2 [H2 K2]. split; [done|]. apply leibniz_equiv.
  intros id. rewrite elem_of_dom, K2. case_decide as Hid; [|by split; [intros []|]].
  rewrite <-elem_of_dom, D1. set_solver.
Qed.

(** ** The other data *)

Lemma node_info_on_node s node f n :
  node_info (on_node node f s) n = if decide (n = node) then f (node_info s node) else node_info s n.
Proof.
  unfold node_info, on_node. cbn [numaContainers set_numa]. case_decide as E.
  - subst. by rewrite lookup_insert_eq.
  - by rewrite lookup_insert_ne.
Qed.

(** A processor that is not known yet, and its node. *)
Lemma add_cpu_ends info cpu s :
  lb_ok s → cpuNuma s !! cpu = None →
  ends (add_cpu info cpu) (λ _ s', lb_ok s' ∧ ∀ c, c ≠ cpu → cpuNuma s' !! c = cpuNuma s !! c) s.
Proof.
  intros [H1 H2 H3 H4] Hnew. unfold add_cpu. apply ends_then, ends_deref. intros node _.
  apply ends_modify. split; [|intros c Hc; simpl; by rewrite lookup_insert_ne].
  split; [done|done|done|]. intros n. rewrite node_info_on_node. simpl.
  assert (∀ n, cpu ∉ ci_cpus (node_info s n)) as Hn.
  { intros n' Hin. apply (H4 n') in Hin. congruence. }
  destruct (H4 n) as [Hnd Hin].
  assert (∀ c, c ∈ ci_cpus (node_info s n) → <[cpu:=node]> (cpuNuma s) !! c = Some n) as Hin'.
  { intros c Hc. rewrite lookup_insert_ne; [by apply Hin|]. intros <-. by apply (Hn n). }
  case_decide as E; [subst n|done]. cbn [ci_cpus]. split.
  - apply list.NoDup_app. split_and!; [done| |apply NoDup_singleton].
    intros c Hc ->%list_elem_of_singleton. by apply (Hn node).
  - intros c [Hc| ->%list_elem_of_singleton]%elem_of_app; [by apply Hin'|apply lookup_insert_eq].
Qed.

Lemma UpdateNumaInfo_ends info s : lb_ok s → ends (UpdateNumaInfo [info]) (λ _ s', lb_ok s') s.
Proof.
  intros Hok. unfold UpdateNumaInfo. apply ends_then, ends_get. case_decide as He; [by apply ends_value|].
  apply ends_then. eapply ends_weaken.
  { apply (ends_for_each _ _ (λ l1 s', lb_ok s' ∧ ∀ c, c ∉ l1 → cpuNuma s' !! c = None)).
    - split; [done|]. intros c _. rewrite He. apply lookup_empty.
    - intros l1 cpu l2 s1 El [H1 N1].
      pose proof (NoDup_seqZ 0 (es_cpuNumConfig info)) as Hnd. rewrite El in Hnd.
      apply list.NoDup_app in Hnd as (_ & Hnd & _).
      assert (cpu ∉ l1) as Hnew by (intros Hin; apply (Hnd cpu Hin); by left).
      eapply ends_weaken; [apply add_cpu_ends; [done|by apply N1]|]. intros [] s2 [H2 N2].
      split; [done|]. intros c Hc. rewrite N2; [apply N1|]; set_solver. }
  intros [] s1 [H1 _]. by apply ends_value.
Qed.

Lemma add_period_ends d s :
  lb_ok s → ends (add_period d) (λ _ s', lb_ok s' ∧ dom (containers s') = dom (containers s)) s.
Proof.
  intros Hok. unfold add_period. apply ends_then, ends_get.
  destruct (pids s !! pd_pid d) as [id|] eqn:Ep; [|by apply ends_value].
  destruct (ok_tasks _ Hok _ _ Ep) as (_ & c & Hc & _).
  assert (default ContainerCpuInfo0 (containers s !! id) = c) as Ec by (by rewrite Hc).
  apply ends_modify. split.
  - apply on_container_kept; [|done|done]. rewrite Ec. simpl. by apply (ok_ids _ Hok).
  - simpl. rewrite dom_insert_L. apply elem_of_dom_2 in Hc. set_solver.
Qed.

Lemma fmap_load_kept (f : ContainerCpuInfo → ContainerCpuInfo) s :
  (∀ c, cc_id (f c) = cc_id c ∧ cc_tasks (f c) = cc_tasks c) →
  lb_kept s (set_containers (f <$> containers s) s).
Proof.
  intros Hf [H1 H2 H3 H4]. split; [done| | |done].
  - intros id c. simpl. rewrite lookup_fmap. intros (c' & Hc & ->)%fmap_Some.
    destruct (Hf c') as [-> _]. by apply H2.
  - intros pid id Hp. destruct (H3 _ _ Hp) as (Hr & c & Hc & Hin). split; [done|].
    exists (f c). simpl. rewrite lookup_fmap, Hc. split; [done|]. by destruct (Hf c) as [_ ->].
Qed.

(** No sample makes a container. *)
Lemma UpdatePmuData_ends l s :
  lb_ok s → ends (UpdatePmuData l) (λ _ s', lb_ok s' ∧ dom (containers s') = dom (containers s)) s.
Proof.
  intros Hok. unfold UpdatePmuData. apply ends_then, ends_deref. intros d _.
  apply ends_then, ends_deref. intros samples _. apply ends_then. eapply ends_weaken.
  { apply (ends_for_each _ _ (λ _ s', lb_ok s' ∧ dom (containers s') = dom (containers s))); [done|].
    intros l1 x l2 s1 _ [H1 D1]. eapply ends_weaken; [by apply add_period_ends|].
    intros [] s2 [H2 D2]. split; [done|congruence]. }
  intros [] s1 [H1 D1]. apply ends_then, ends_get. case_decide; [by apply ends_value|].
  apply ends_then, ends_deref. intros maxCycle _. apply ends_modify. split.
  - apply fmap_load_kept; [by intros c|done].
  - simpl. rewrite dom_fmap_L. done.
Qed.

(** ** The calls *)

Definition load_data_ok (d : LoadData) : Prop :=
  match d with
  | LDocker l => Forall docker_ok l
  | LStatic l => length l = 1%nat
  | LSampling _ => True
  end.

Lemma UpdateData_ends d s :
  load_data_ok (ld_data d) → lb_ok s → ends (LoadBased_UpdateData d) (λ _ s', lb_ok s') s.
Proof.
  intros Hd Hok. unfold LoadBased_UpdateData.
  repeat case_decide; [..|by apply ends_value]; destruct (ld_data d); try apply ends_undef; simpl in Hd.
  - eapply ends_weaken; [by apply UpdateDockerData_ends|]. by intros [] s' [].
  - destruct l as [|info []]; try done. by apply UpdateNumaInfo_ends.
  - eapply ends_weaken; [by apply UpdatePmuData_ends|]. by intros [] s' [].
Qed.

Context (as_double : Node → option double) (subscribed : Topic → Result).

(** Posts, cycles, the threshold and the machine are nothing to [lb_ok]. *)
Lemma returns_zoom {A} (c : St sys A) : returns lb_kept (on_lb_sys c).
Proof.
  intros s a s'. unfold on_lb_sys, zoom. destruct (c (lb_sys s)) as [[a' m]| |]; [|done..].
  intros [= _ <-]. by apply lb_ok_same.
Qed.
Lemma returns_kept_modify f :
  (∀ s, usedCpus (f s) = usedCpus s ∧ containers (f s) = containers s ∧ pids (f s) = pids s ∧
    cpuNuma (f s) = cpuNuma s ∧ numaContainers (f s) = numaContainers s) →
  returns lb_kept (modify f).
Proof. intros Hf. apply returns_modify. intros s. destruct (Hf s) as (?&?&?&?&?). by apply lb_ok_same. Qed.

Ltac lb_run := returns_run ltac:(idtac; first [apply returns_zoom | apply returns_kept_modify; done]).

Lemma Enable_kept : returns lb_kept (LoadBased_Enable as_double subscribed).
Proof.
  assert (returns lb_kept (ReadConfig as_double)) as H1 by (unfold ReadConfig; lb_run).
  assert (∀ l, returns lb_kept (subscribe_all subscribed l)) as H2
    by (induction l; unfold subscribe_all; fold subscribe_all; unfold lb_post; lb_run; apply IHl).
  assert (∀ n, returns lb_kept (InitCpuCycles n)) as H3
    by (intros n; unfold InitCpuCycles, init_cycles; lb_run).
  unfold LoadBased_Enable. returns_run ltac:(idtac; first [apply H1 | apply H2 | apply H3]).
Qed.

Lemma Disable_ends s : ends LoadBased_Disable (λ _ s', lb_ok s') s.
Proof.
  unfold LoadBased_Disable. apply ends_then. eapply ends_weaken.
  { by apply (ends_for_each _ _ (λ _ _, True)). }
  intros [] s1 _. apply ends_then, ends_get, ends_then. eapply ends_weaken.
  { apply (ends_for_each _ _ (λ _ _, True)); [done|]. intros l1 x l2 s2 _ _.
    by apply ends_then, ends_zoom. }
  intros [] s2 _. apply ends_modify. split; [done| | |].
  - intros id c. simpl. by rewrite lookup_empty.
  - intros pid id. simpl. by rewrite lookup_empty.
  - intros node. unfold node_info. simpl. rewrite lookup_empty. simpl. split; [constructor|set_solver].
Qed.

(** Only the counters of a node change. *)
Lemma on_node_kept node f s :
  (∀ i, ci_cpus (f i) = ci_cpus i) → lb_kept s (on_node node f s).
Proof.
  intros Hf [H1 H2 H3 H4]. split; [done|done|done|]. intros n. rewrite node_info_on_node. simpl.
  case_decide as E; [|apply H4]. subst n. rewrite Hf. apply H4.
Qed.

Lemma node_of_kept cpu : returns lb_kept (node_of cpu).
Proof.
  intros s node s' E. unfold node_of in E. injection E as <- <-. intros [H1 H2 H3 H4].
  split; [done|done|done|]. intros n. destruct (H4 n) as [Hnd Hin]. split; [done|].
  intros c Hc. simpl. destruct (decide (cpu = c)) as [->|Hne].
  - rewrite lookup_insert_eq. by rewrite (Hin c Hc).
  - rewrite lookup_insert_ne by done. by apply Hin.
Qed.

Lemma Run_kept : returns lb_kept LoadBased_Run.
Proof.
  assert (∀ l, returns lb_kept (select_high l)) as H1.
  { induction l as [|[id c] l IH]; [apply returns_ret; apply _|]. cbn [select_high].
    apply returns_bind; [apply _|intros s a s'; by destruct (ParseRange _) as [?| |]; [intros [= _ <-]|..]|].
    intros cpus. returns_run ltac:(idtac; first [apply IH | apply node_of_kept
      | apply returns_modify; intros s; apply on_node_kept; done | apply returns_kept_modify; done]). }
  assert (∀ b id, returns lb_kept (tune_container b id)) as H2.
  { intros b id. unfold tune_container, WriteSysParam. returns_run ltac:(idtac; first [apply returns_zoom
      | apply returns_modify; intros s; apply on_node_kept; done]). }
  unfold LoadBased_Run. apply returns_bind; [apply _| |intros _].
  - apply returns_modify. intros s [K1 K2 K3 K4]. split; [done|done|done|].
    intros n. rewrite node_info_reset. apply K4.
  - returns_run ltac:(idtac; first [apply H1 | apply H2]).
Qed.

(** ** Lives *)

Definition LoadBased0 (m : sys) : LoadBased :=
  mkLoadBased _ m [] ∅ ∅ ∅ ∅ ∅ ∅ (d_lit 5 1) [].

(** The instance from its construction on; the machine may change between
    calls. *)
Inductive load_life : LoadBased → Prop :=
| load_start m : load_life (LoadBased0 m)
| load_sys m s : load_life s → load_life (set_lb_sys m s)
| load_update d u s s' : load_life s → load_data_ok (ld_data d) →
    LoadBased_UpdateData d s = Ret (u, s') → load_life s'
| load_enable r s s' : load_life s → LoadBased_Enable as_double subscribed s = Ret (r, s') → load_life s'
| load_disable u s s' : load_life s → LoadBased_Disable s = Ret (u, s') → load_life s'
| load_run u s s' : load_life s → LoadBased_Run s = Ret (u, s') → load_life s'.

Lemma ends_Ret {A} (c : St LoadBased A) Q s a s' : ends c Q s → c s = Ret (a, s') → Q a s'.
Proof. unfold ends. intros H E. by rewrite E in H. Qed.

Lemma load_life_ok s : load_life s → lb_ok s.
Proof.
  induction 1 as [m|m s _ Hok|d u s s' _ Hok Hd E|r s s' _ Hok E|u s s' _ _ E|u s s' _ Hok E].
  - split; [done| | |].
    + intros id c. simpl. by rewrite lookup_empty.
    + intros pid id. simpl. by rewrite lookup_empty.
    + intros node. unfold node_info. simpl. rewrite lookup_empty. simpl. split; [constructor|set_solver].
  - by apply (lb_ok_same s).
  - by apply (ends_Ret _ _ _ _ _ (UpdateData_ends d s Hd Hok) E).
  - by apply (Enable_kept s r s' E).
  - by apply (ends_Ret _ _ _ _ _ (Disable_ends s) E).
  - by apply (Run_kept s u s' E).
Qed.

(** C32. Whatever the collectors tell and whatever is called: a container is
    kept under its own identifier; every task that cycles are counted for
    belongs to a container that is there and knows the task, so that no sample
    makes a container; the processors of a node are distinct and are known to
    be of that node; and after data of the container collector the table holds
    exactly the containers of the data. *)
Theorem containers_tracked (s : LoadBased) (Hs : load_life s) :
  (∀ id c, containers s !! id = Some c → cc_id c = id) ∧
  (∀ pid id, pids s !! pid = Some id →
    ∃ c, containers s !! id = Some c ∧ wrap CUlong pid ∈ cc_tasks c) ∧
  (∀ l u s', UpdatePmuData l s = Ret (u, s') → dom (containers s') = dom (containers s)) ∧
  (∀ node, NoDup (ci_cpus (node_info s node)) ∧
    ∀ cpu, cpu ∈ ci_cpus (node_info s node) → cpuNuma s !! cpu = Some node) ∧
  (∀ l u s', Forall docker_ok l → UpdateDockerData l s = Ret (u, s') →
    dom (containers s') = list_to_set (map dd_id l)).
Proof.
  pose proof (load_life_ok s Hs) as Hok. split_and!; [apply Hok| | |apply Hok|].
  - intros pid id Hp. by apply (ok_tasks _ Hok).
  - intros l u s' E. by apply (ends_Ret _ _ _ _ _ (UpdatePmuData_ends l s Hok) E).
  - intros l u s' Hl E. by apply (ends_Ret _ _ _ _ _ (UpdateDockerData_ends l s Hl Hok) E).
Qed.
End life.

(** ** On a small machine *)

#[local] Existing Instances file_machine hash_ref.

(** Two nodes of two processors; two containers on the first node and one on
    the second, which take half a processor each. *)
Definition load_files : @sys file_machine :=
  <[preferred_path "a" := bytes_of "0-3"]> (<[preferred_path "b" := bytes_of "0-3"]>
  (<[preferred_path "c" := bytes_of "0-3"]> ∅)).
Definition docker (id cpus : string) (pid : Z) : DockerData := mkDockerData id 50000 100000 cpus [pid].
Definition docker_data : LoadDataList := mkLoadDataList (mkTopic OE_DOCKER_COLLECTOR OE_DOCKER_COLLECTOR "")
  (LDocker [docker "a" "0-1" 7; docker "b" "0-1" 8; docker "c" "2-3" 9]).
Definition static_data : LoadDataList := mkLoadDataList (mkTopic OE_ENV_INFO "static" "")
  (LStatic [mkEnvStaticInfo 2 4 4096 0 [0; 0; 1; 1] []]).
Definition sample (pid : Z) : PmuData :=
  mkPmuData [] None 0 pid pid 0 None None 500 0 0 None.
Definition cycles_data : LoadDataList := mkLoadDataList (mkTopic OE_PMU_SAMPLING_COLLECTOR "cycles" "")
  (LSampling [mkPmuCountingData [sample 7; sample 8; sample 9] 3 1000]).

Definition step (r : outcome (unit * LoadBased)) (d : LoadDataList) : outcome (unit * LoadBased) :=
  match r with Ret (_, s) => LoadBased_UpdateData d s | _ => r end.
Definition load_start0 : LoadBased := set_maxCycles [1000] (LoadBased0 load_files).
Definition loaded : outcome (unit * LoadBased) :=
  foldl step (Ret (tt, load_start0)) [docker_data; static_data; cycles_data].

Lemma docker_data_ok : load_data_ok (ld_data docker_data).
Proof. repeat constructor; discriminate. Qed.

Definition reads (c : ContainerCpuInfo) : bool :=
  match ParseRange (bytes_of (cc_cpus c)) with Ret (_ :: _) => true | _ => false end.
Lemma reads_ok (m : gmap string ContainerCpuInfo) id c :
  forallb (λ it, reads it.2) (map_to_list m) = true → m !! id = Some c → cpus_ok c.
Proof.
  rewrite forallb_forall. intros H Hc%elem_of_map_to_list%list_elem_of_In%H. unfold reads in Hc.
  unfold cpus_ok. simpl in Hc. destruct (ParseRange _) as [[|cpu l]| |]; [done| |done..]. by eexists _, _.
Qed.
Lemma nodes_small s n :
  forallb (λ it, bool_decide (length (ci_cpus it.2) ≤ 4)%nat) (map_to_list (numaContainers s)) = true →
  Z.of_nat (length (ci_cpus (node_info s n))) ≤ 2147483647.
Proof.
  rewrite forallb_forall. intros H. unfold node_info.
  destruct (numaContainers s !! n) as [i|] eqn:E; simpl; [|lia].
  apply elem_of_map_to_list, list_elem_of_In, H, bool_decide_eq_true in E. simpl in E. lia.
Qed.

Lemma update_ok d s u s' :
  load_data_ok (ld_data d) → lb_ok s → LoadBased_UpdateData d s = Ret (u, s') → lb_ok s'.
Proof. intros Hd Hok E. by apply (ends_Ret _ _ _ _ _ (UpdateData_ends d s Hd Hok) E). Qed.

(** Containers a and b share the first node, c has the second one. *)
Lemma run_shares_witness :
  ∃ s s' shares, loaded = Ret (tt, s) ∧ LoadBased_Run s = Ret (tt, s') ∧
    wrote (lb_sys s) shares (lb_sys s') ∧
    map (λ sh, (sh_id sh, sh_node sh)) shares = [("c"%string, 1); ("a"%string, 0); ("b"%string, 0)].
Proof.
  assert (lb_ok load_start0) as H0.
  { apply (lb_ok_same (LoadBased0 load_files)); [done..|].
    by apply (load_life_ok (λ _, None) (λ _, Result0)), load_start. }
  assert (match loaded with
    | Ret (_, s) => highs s (named_in_order (containers s)) = [("c"%string, 1); ("a"%string, 0); ("b"%string, 0)] ∧
        forallb (λ it, reads it.2) (map_to_list (containers s)) = true ∧
        forallb (λ it, bool_decide (length (ci_cpus it.2) ≤ 4)%nat) (map_to_list (numaContainers s)) = true ∧
        size (containers s) = 3%nat
    | _ => False
    end) as Hrun by (vm_compute; repeat split; reflexivity).
  unfold loaded in Hrun |- *. cbn [foldl step] in Hrun |- *.
  destruct (LoadBased_UpdateData docker_data load_start0) as [[u1 s1]| |] eqn:E1; [|destruct Hrun..].
  pose proof (update_ok _ _ _ _ docker_data_ok H0 E1) as H1. cbn [step] in Hrun |- *.
  destruct (LoadBased_UpdateData static_data s1) as [[u2 s2]| |] eqn:E2; [|destruct Hrun..].
  pose proof (update_ok static_data _ _ _ eq_refl H1 E2) as H2. cbn [step] in Hrun |- *.
  destruct (LoadBased_UpdateData cycles_data s2) as [[[] s]| |] eqn:E3; [|destruct Hrun..].
  pose proof (update_ok cycles_data _ _ _ I H2 E3) as H3.
  destruct Hrun as (Hh & Hr & Hs & Hn).
  destruct (run_shares s H3 (λ id c, reads_ok (containers s) id c Hr)) as (s' & shares & R1 & R2 & R3 & _).
  - rewrite Hn. discriminate.
  - intros n. by apply nodes_small.
  - exists s, s', shares. split_and!; [reflexivity|exact R1|exact R2|]. rewrite R3. exact Hh.
Defined.

Lemma containers_tracked_witness :
  ∃ s, LoadBased_UpdateData docker_data (LoadBased0 load_files) = Ret (tt, s) ∧
    pids s !! 8 = Some "b"%string ∧ ∃ c, containers s !! "b"%string = Some c ∧ 8 ∈ cc_tasks c.
Proof.
  assert (match LoadBased_UpdateData docker_data (LoadBased0 load_files) with
    | Ret (_, s) => pids s !! 8 = Some "b"%string
    | _ => False
    end) as Hrun by (vm_compute; reflexivity).
  destruct (LoadBased_UpdateData docker_data _) as [[[] s]| |] eqn:E; [|destruct Hrun..].
  pose proof (load_update (λ _, None) (λ _, Result0) docker_data tt _ s
    (load_start _ _ load_files) docker_data_ok E) as Hl.
  exists s. split; [reflexivity|]. split; [exact Hrun|].
  destruct (containers_tracked _ _ s Hl) as (_ & Ht & _). exact (Ht 8 _ Hrun).
Defined.
