(* ===== verification/CpuBurst.v ===== *)
(** * Bursts for containers (src/plugin/tune/docker/cpu_burst/cpu_burst.cpp, .h,
      cpu_burst_adapt.cpp, .h)

    While the machine is not busy, every container may use its quota once more
    as a burst; when it is, and in the end, they get back the burst that they
    had. *)

From Stdlib Require Import ZArith Lia Strings.Byte.
From stdpp Require Import base list strings gmap numbers.
From S2P Require Import Prelude Bytes StdString Utils DataTypes Registry Daemon Config Machine.
From S2P Require Import Doubles.

Definition burst_period : Z := 1000.
Definition MILLISECONDS_IN_SECOND : Z := 1000.
Definition NINETY_PERCENT : double := d_lit 9 1.
Definition OE_DOCKER_COLLECTOR : string := "docker_collector".
Definition OE_PMU_COUNTING_COLLECTOR : string := "pmu_counting_collector".

(** What the plugin reads of [struct Container]. *)
Record BurstData := mkBurstData {
  bd_id : string; bd_cfs_period_us : Z; bd_cfs_quota_us : Z; bd_cfs_burst_us : Z }.
Inductive BurstPayload := BCounting (l : list PmuCountingData) | BDocker (l : list BurstData).
Record BurstDataList := mkBurstDataList { bl_topic : Topic; bl_data : BurstPayload }.

Record ContainerTune := mkContainerTune {
  ct_id : string; ct_cfs_period_us : Z; ct_cfs_quota_us : Z; ct_cfs_burst_us : Z;
  ct_cfs_burst_us_ori : Z
}.
Definition ContainerTune0 : ContainerTune := mkContainerTune "null" 0 0 0 0.

Inductive BurstPost := BurstSubscribe (t : Topic) | BurstUnsubscribe (t : Topic).

Record CpuBurst `{Machine} := mkCpuBurst {
  cb_sys : sys;
  cpuNum : Z;
  maxSysCycles : Z;
  curSysCycles : Z;
  cb_containers : gmap string ContainerTune;
  cb_posts : list BurstPost
}.

Section setters.
Context `{MA : Machine}.
Definition set_cb_sys (v : sys) (s : CpuBurst) : CpuBurst :=
  mkCpuBurst _ v (cpuNum s) (maxSysCycles s) (curSysCycles s) (cb_containers s) (cb_posts s).
Definition set_cpuNum (v : Z) (s : CpuBurst) : CpuBurst :=
  mkCpuBurst _ (cb_sys s) v (maxSysCycles s) (curSysCycles s) (cb_containers s) (cb_posts s).
Definition set_maxSys (v : Z) (s : CpuBurst) : CpuBurst :=
  mkCpuBurst _ (cb_sys s) (cpuNum s) v (curSysCycles s) (cb_containers s) (cb_posts s).
Definition set_curSys (v : Z) (s : CpuBurst) : CpuBurst :=
  mkCpuBurst _ (cb_sys s) (cpuNum s) (maxSysCycles s) v (cb_containers s) (cb_posts s).
Definition set_cb_containers (v : gmap string ContainerTune) (s : CpuBurst) : CpuBurst :=
  mkCpuBurst _ (cb_sys s) (cpuNum s) (maxSysCycles s) (curSysCycles s) v (cb_posts s).
Definition cb_post (p : BurstPost) : St CpuBurst unit := modify (λ s,
  mkCpuBurst _ (cb_sys s) (cpuNum s) (maxSysCycles s) (curSysCycles s) (cb_containers s)
    (cb_posts s ++ [p])).
Definition on_cb_sys {A} (c : St sys A) : St CpuBurst A := zoom cb_sys set_cb_sys c.
(** The object after its constructor. *)
Definition CpuBurst0 (m : sys) : CpuBurst := mkCpuBurst _ m 0 0 0 ∅ [].
End setters.

Section cpu_burst.
Context `{MA : Machine} `{HO : HashOrder}.

Definition burst_path (id : string) : string :=
  ("/sys/fs/cgroup/cpu/docker/" +:+ id +:+ "/cpu.cfs_burst_us")%string.
Definition burst_text (v : Z) : list byte := to_string v ++ [newline].
(** The number is passed as an [int]. *)
Definition SetCfsBurstUs (id : string) (cfsBurstUs : Z) : St CpuBurst unit :=
  if decide (id = "null"%string) then mret tt else
  on_cb_sys (on_file (burst_path id) (burst_text (wrap CInt cfsBurstUs))) ;; mret tt.
Definition ContainerTune_Exit (c : ContainerTune) : St CpuBurst unit :=
  SetCfsBurstUs (ct_id c) (ct_cfs_burst_us_ori c).

Definition add_cycles_of (i : Z) : St CpuBurst unit := modify (λ s,
  set_maxSys (wrap CUlong (maxSysCycles s + GetCpuCycles (cb_sys s) i)) s).
Definition Init : St CpuBurst bool :=
  modify (set_curSys 0) ;;
  maxCpuFreqByDmi ← on_cb_sys GetCpuFreqByDmi;
  modify (λ s, set_cpuNum (wrap CUint (sys_cpus (cb_sys s))) s) ;;
  s ← get;
  if decide (cpuNum s ≤ 0) then mret false else
  for_each (seqZ 0 (cpuNum s)) add_cycles_of ;;
  s ← get;
  (if decide (maxSysCycles s ≤ 0)
   then modify (set_maxSys (wrap CUlong (maxCpuFreqByDmi * cpuNum s))) else mret tt) ;;
  s ← get;
  mret (bool_decide (0 < maxSysCycles s)).

Definition count_sample (d : PmuData) (s : CpuBurst) : CpuBurst :=
  if decide (wrap CUint (pd_cpu d) < cpuNum s)
  then set_curSys (wrap CUlong (curSysCycles s + pd_count d)) s else s.
Definition UpdatePmu (l : list PmuCountingData) : St CpuBurst unit :=
  d ← deref (head l);
  samples ← deref (if decide (Z.to_nat (pc_len d) ≤ length (pc_pmuData d))%nat
                   then Some (take (Z.to_nat (pc_len d)) (pc_pmuData d)) else None);
  for_each samples (λ x, modify (count_sample x)).

Definition update_tune (id : string) (d : BurstData) (o : option ContainerTune) : ContainerTune :=
  let c := match o with
           | None => mkContainerTune id 0 0 0 (bd_cfs_burst_us d)
           | Some c => c
           end in
  mkContainerTune (ct_id c) (bd_cfs_period_us d) (bd_cfs_quota_us d) (bd_cfs_burst_us d)
    (ct_cfs_burst_us_ori c).
Definition collect (l : list BurstData) : gmap string BurstData :=
  foldl (λ m d, <[bd_id d := d]> m) ∅ l.
Definition forget_container (collector : gmap string BurstData) (it : string * ContainerTune) :
    St CpuBurst unit :=
  if decide (is_Some (collector !! it.1)) then mret tt else
  ContainerTune_Exit it.2 ;;
  modify (λ s, set_cb_containers (delete it.1 (cb_containers s)) s).
Definition UpdateDocker (l : list BurstData) : St CpuBurst unit :=
  let collector := collect l in
  for_each (named_in_order collector) (λ it, modify (λ s, set_cb_containers
    (<[it.1 := update_tune it.1 it.2 (cb_containers s !! it.1)]> (cb_containers s)) s)) ;;
  s ← get;
  for_each (named_in_order (cb_containers s)) (forget_container collector).

Definition CpuBurst_Update (d : BurstDataList) : St CpuBurst unit :=
  let topic := bl_topic d in
  if decide (instanceName topic = OE_PMU_COUNTING_COLLECTOR ∧ topicName topic = "cycles"%string) then
    match bl_data d with BCounting l => UpdatePmu l | _ => undef end
  else if decide (instanceName topic = OE_DOCKER_COLLECTOR ∧ topicName topic = OE_DOCKER_COLLECTOR) then
    match bl_data d with BDocker l => UpdateDocker l | _ => undef end
  else mret tt.

Definition CpuBurst_Exit : St CpuBurst unit :=
  modify (set_curSys 0) ;;
  s ← get;
  for_each (named_in_order (cb_containers s)) (λ it, ContainerTune_Exit it.2).

(** More than nine tenths of the cycles of the period. *)
Definition busy (periodMs : Z) (s : CpuBurst) : bool :=
  d_lt (d_mul (d_of_Z (wrap CUlong (maxSysCycles s * periodMs) / MILLISECONDS_IN_SECOND)) NINETY_PERCENT)
    (d_of_Z (curSysCycles s)).
Definition tune_one (it : string * ContainerTune) : St CpuBurst unit :=
  if decide (ct_cfs_burst_us it.2 < ct_cfs_quota_us it.2)
  then SetCfsBurstUs it.1 (ct_cfs_quota_us it.2) else mret tt.
Definition CpuBurst_Tune (periodMs : Z) : St CpuBurst unit :=
  s ← get;
  if busy periodMs s then CpuBurst_Exit else
  for_each (named_in_order (cb_containers s)) tune_one ;;
  modify (set_curSys 0).

(** ** The instance *)

Definition burst_topics : list Topic :=
  [mkTopic OE_PMU_COUNTING_COLLECTOR "cycles" EmptyString;
   mkTopic OE_DOCKER_COLLECTOR OE_DOCKER_COLLECTOR EmptyString].
Definition CpuBurst_Enable : St CpuBurst Result :=
  ok ← Init;
  if negb ok then mret (mkResult (Some FAILED) "CpuBurst init failed!") else
  for_each burst_topics (λ t, cb_post (BurstSubscribe t)) ;;
  mret (mkResult (Some OK) EmptyString).
Definition CpuBurst_Disable : St CpuBurst unit :=
  for_each burst_topics (λ t, cb_post (BurstUnsubscribe t)) ;;
  CpuBurst_Exit.
Definition CpuBurst_Run : St CpuBurst unit := CpuBurst_Tune burst_period.
End cpu_burst.
