(* ===== verification/CpuBurstRestore.v ===== *)
(** * Bursts are given and taken back *)

From Stdlib Require Import ZArith Lia Strings.Byte.
From stdpp Require Import base list strings gmap numbers relations.
From S2P Require Import Prelude Bytes StdString Utils DataTypes Registry Daemon Config Machine.
From S2P Require Import Doubles World Knobs Steps CpuBurst.

Section restore.
Context `{MA : Machine} `{HO : HashOrder} `{KN : !Knobs MA}.

(** The burst that the kernel has for a container. *)
Definition held (s : CpuBurst) (id : string) : option Z := knob (cb_sys s) (burst_path id).
Definition takes (s : CpuBurst) (id : string) (v : Z) : bool := knob_takes (cb_sys s) (burst_path id) v.

Lemma burst_path_inj a b : burst_path a = burst_path b → a = b.
Proof.
  unfold burst_path. intros E%(f_equal bytes_of). rewrite !bytes_of_append in E.
  apply app_inv_head, app_inv_tail in E. by rewrite <-(str_of_bytes_of a), E, str_of_bytes_of.
Qed.

(** Only the machine changes. *)
Definition only_sys (s s' : CpuBurst) : Prop := ∃ m, s' = set_cb_sys m s.
#[export] Instance only_sys_preorder : PreOrder only_sys.
Proof.
  split; [intros s; exists (cb_sys s); by destruct s|].
  intros s1 s2 s3 [m1 ->] [m2 ->]. by exists m2.
Qed.

(** At most one burst is written. *)
Definition new_burst (s : CpuBurst) (id : string) (o : option Z) (z : Z) : Z :=
  match o with Some v => if takes s id (wrap CInt v) then wrap CInt v else z | None => z end.
Record wrote_burst (id : string) (o : option Z) (s s' : CpuBurst) : Prop := {
  wb_sys : only_sys s s';
  wb_other i : i ≠ id → held s' i = held s i;
  wb_takes i u : takes s' i u = takes s i u;
  wb_held z : held s id = Some z → held s' id = Some (new_burst s id o z)
}.
Lemma wrote_none id s : wrote_burst id None s s.
Proof. by split. Qed.

(** An unnamed container has no file. *)
Definition burst_of (id : string) (v : Z) : option Z := if decide (id = "null"%string) then None else Some v.

Lemma SetCfsBurstUs_twp id v s :
  twp (SetCfsBurstUs id v) (λ _ s', wrote_burst id (burst_of id v) s s') s.
Proof.
  unfold SetCfsBurstUs, burst_of. case_decide as Hid; [apply twp_ret, wrote_none|].
  apply twp_bind, twp_zoom. set (t := burst_text (wrap CInt v)). set (p := burst_path id).
  assert (strtol t = Some (wrap CInt v)) as Et by (by apply strtol_to_string).
  eapply twp_mono; [apply (twp_and _ _ (λ _ m', ∀ z, knob (cb_sys s) p = Some z →
    knob m' p = Some (if knob_takes (cb_sys s) p (wrap CInt v) then wrap CInt v else z)) _
    (knob_write_other (cb_sys s) p t))|].
  - destruct (knob (cb_sys s) p) as [z0|] eqn:Ek.
    + eapply twp_mono; [exact (knob_write (cb_sys s) p t _ z0 Et Ek)|]. intros r m' (_ & Hk & _) z [= <-]. rewrite Hk.
      destruct (knob_takes _ _ _); [by rewrite decide_True|]. by rewrite decide_False by (by intros []).
    + unfold on_file, twp. by destruct (sys_write _ _ _) as [[??]?].
  - intros [opens tk] m' [[Ho Htk] Hs]. apply twp_ret. split.
    + by exists m'.
    + intros i Hi. apply Ho. intros E. by apply Hi, burst_path_inj.
    + intros i u. apply Htk.
    + exact Hs.
Qed.

(** ** Writing every burst *)

(** The containers are known under their own identifiers. *)
Definition ids_ok (s : CpuBurst) : Prop := ∀ id c, cb_containers s !! id = Some c → ct_id c = id.

(** Every container is given the burst that [set] tells, if any. *)
Definition given (set : string * ContainerTune → option Z) (s s' : CpuBurst) : Prop :=
  ∀ id c z, cb_containers s !! id = Some c → held s id = Some z →
    held s' id = Some (new_burst s id (set (id, c)) z).

Lemma set_all_twp set (body : string * ContainerTune → St CpuBurst unit) s :
  (∀ it s', only_sys s s' → cb_containers s !! it.1 = Some it.2 →
    twp (body it) (λ _ s'', wrote_burst it.1 (set it) s' s'') s') →
  twp (for_each (named_in_order (cb_containers s)) body) (λ _ s', only_sys s s' ∧ given set s s') s.
Proof.
  intros Hb. set (es := named_in_order (cb_containers s)). eapply twp_mono.
  { apply (twp_for_each_idx _ _ (λ l1 s', only_sys s s' ∧ (∀ i u, takes s' i u = takes s i u) ∧
      (∀ id, id ∉ l1.*1 → held s' id = held s id) ∧
      (∀ id c z, (id, c) ∈ l1 → held s id = Some z → held s' id = Some (new_burst s id (set (id, c)) z)))).
    - split_and!; [done|done|done|]. set_solver.
    - intros l1 [id c] l2 s1 El (E1 & T1 & N1 & G1).
      pose proof (named_in_order_NoDup (cb_containers s)) as Hnd. fold es in Hnd.
      rewrite El, fmap_app, fmap_cons in Hnd. apply list.NoDup_app in Hnd as (_ & Hnd & _).
      assert (id ∉ l1.*1) as Hnew by (intros Hin; apply (Hnd id Hin); set_solver).
      assert (cb_containers s !! id = Some c) as Hc
        by (apply elem_of_named_in_order; fold es; rewrite El; set_solver).
      eapply twp_mono; [by apply (Hb (id, c) s1)|]. cbn [fst]. intros [] s2 [E2 N2 T2 W2]. split_and!.
      + by transitivity s1.
      + intros i u. by rewrite T2, T1.
      + intros i Hi. rewrite fmap_app in Hi. rewrite N2, N1; set_solver.
      + intros i ci z [Hin|[= -> ->]%list_elem_of_singleton]%elem_of_app Hz.
        * rewrite N2; [by apply G1|]. intros ->. apply Hnew, list_elem_of_fmap. by exists (id, ci).
        * rewrite (W2 z) by (by rewrite N1). f_equal. unfold new_burst. destruct (set (id, c)); [|done].
          by rewrite T1. }
  intros [] s' (E1 & _ & _ & G1). split; [done|]. intros id c z Hc. apply G1.
  by apply elem_of_named_in_order.
Qed.

(** ** The turns *)

(** What [Tune] gives: what they had when the machine is busy, otherwise the
    quota to those whose burst is below it. *)
Definition tuned (periodMs : Z) (s : CpuBurst) (it : string * ContainerTune) : option Z :=
  if busy periodMs s then burst_of it.1 (ct_cfs_burst_us_ori it.2)
  else if decide (ct_cfs_burst_us it.2 < ct_cfs_quota_us it.2)
  then burst_of it.1 (ct_cfs_quota_us it.2) else None.
Definition restored (it : string * ContainerTune) : option Z := burst_of it.1 (ct_cfs_burst_us_ori it.2).

Lemma Exit_twp s :
  ids_ok s → twp CpuBurst_Exit (λ _ s', only_sys (set_curSys 0 s) s' ∧ given restored s s') s.
Proof.
  intros Hids. unfold CpuBurst_Exit. apply twp_bind, twp_modify, twp_bind, twp_get.
  eapply twp_mono; [apply (set_all_twp restored)|by intros []].
  intros [id c] s' [m ->] Hc. unfold ContainerTune_Exit, restored.
  cbn [fst snd] in *. rewrite (Hids id c Hc). apply SetCfsBurstUs_twp.
Qed.

Lemma Tune_twp p s :
  ids_ok s → twp (CpuBurst_Tune p) (λ _ s', only_sys (set_curSys 0 s) s' ∧ given (tuned p s) s s') s.
Proof.
  intros Hids. unfold CpuBurst_Tune. apply twp_bind, twp_get. unfold tuned.
  destruct (busy p s); [by apply Exit_twp|]. apply twp_bind.
  eapply twp_mono; [apply (set_all_twp (λ it, if decide (ct_cfs_burst_us it.2 < ct_cfs_quota_us it.2)
    then burst_of it.1 (ct_cfs_quota_us it.2) else None))|].
  - intros [id c] s' _ _. unfold tune_one. cbn [fst snd]. case_decide; [apply SetCfsBurstUs_twp|].
    apply twp_ret, wrote_none.
  - intros [] s' [[m ->] G]. apply twp_modify. split; [by exists m|exact G].
Qed.

(** ** The table *)

Lemma add_loop collector s :
  twp (for_each (named_in_order collector) (λ it, modify (λ s, set_cb_containers
    (<[it.1 := update_tune it.1 it.2 (cb_containers s !! it.1)]> (cb_containers s)) s)))
    (λ _ s', cb_sys s' = cb_sys s ∧ ∀ id, cb_containers s' !! id = match collector !! id with
      | Some d => Some (update_tune id d (cb_containers s !! id))
      | None => cb_containers s !! id
      end) s.
Proof.
  set (es := named_in_order collector). eapply twp_mono.
  { apply (twp_for_each_idx _ _ (λ l1 s', cb_sys s' = cb_sys s ∧
      (∀ id, id ∉ l1.*1 → cb_containers s' !! id = cb_containers s !! id) ∧
      (∀ id d, (id, d) ∈ l1 → cb_containers s' !! id = Some (update_tune id d (cb_containers s !! id))))).
    - split_and!; [done|done|set_solver].
    - intros l1 [id d] l2 s1 El (E1 & N1 & G1). apply twp_modify. cbn [fst snd].
      pose proof (named_in_order_NoDup collector) as Hnd. fold es in Hnd.
      rewrite El, fmap_app, fmap_cons in Hnd. apply list.NoDup_app in Hnd as (_ & Hnd & _).
      assert (id ∉ l1.*1) as Hnew by (intros Hin; apply (Hnd id Hin); set_solver).
      split_and!; [done| |]; simpl.
      + intros i Hi. rewrite fmap_app in Hi. rewrite lookup_insert_ne, N1; set_solver.
      + intros i di [Hin|[= -> ->]%list_elem_of_singleton]%elem_of_app.
        * rewrite lookup_insert_ne; [by apply G1|]. intros ->. apply Hnew, list_elem_of_fmap. by exists (i, di).
        * rewrite lookup_insert_eq. by rewrite N1. }
  intros [] s' (E1 & N1 & G1). split; [done|]. intros id. destruct (collector !! id) as [d|] eqn:Ed.
  - apply G1. by apply elem_of_named_in_order.
  - apply N1. intros ([i d] & Ei & Hin)%list_elem_of_fmap. apply elem_of_named_in_order in Hin. simpl in Ei. congruence.
Qed.

Lemma forget_loop collector s :
  ids_ok s → twp (for_each (named_in_order (cb_containers s)) (forget_container collector))
    (λ _ s', ∀ id, cb_containers s' !! id =
      if decide (is_Some (collector !! id)) then cb_containers s !! id else None) s.
Proof.
  intros Hids. set (es := named_in_order (cb_containers s)). eapply twp_mono.
  { apply (twp_for_each_idx _ _ (λ l1 s', ∀ id, cb_containers s' !! id =
      if decide (is_Some (collector !! id) ∨ id ∉ l1.*1) then cb_containers s !! id else None)).
    - intros id. rewrite decide_True by (right; set_solver). done.
    - intros l1 [id c] l2 s1 El G1. unfold forget_container. cbn [fst snd].
      assert (∀ i, i ∉ (l1 ++ [(id, c)]).*1 ↔ i ∉ l1.*1 ∧ i ≠ id) as Happ
        by (intros i; rewrite fmap_app; set_solver).
      case_decide as Hin.
      + apply twp_ret. intros i. rewrite G1. apply decide_ext. rewrite Happ.
        destruct (decide (i = id)) as [->|]; naive_solver.
      + apply twp_bind. eapply twp_mono; [apply SetCfsBurstUs_twp|]. intros [] s2 [[m ->] _ _ _].
        apply twp_modify. intros i. simpl. destruct (decide (i = id)) as [->|Hne].
        * rewrite lookup_delete_eq, decide_False; [done|]. naive_solver.
        * rewrite lookup_delete_ne, G1 by done. apply decide_ext. naive_solver. }
  intros [] s' G1 id. rewrite G1. destruct (decide (is_Some (collector !! id))) as [Hin|Hn].
  - by rewrite decide_True by naive_solver.
  - destruct (cb_containers s !! id) as [c|] eqn:Hc; [|by case_decide].
    rewrite decide_False; [done|]. intros [|Hin]; [done|]. apply Hin, list_elem_of_fmap. exists (id, c).
    split; [done|]. by apply elem_of_named_in_order.
Qed.

Lemma UpdateDocker_twp l s :
  ids_ok s → twp (UpdateDocker l) (λ _ s', ∀ id, cb_containers s' !! id =
    (λ d, update_tune id d (cb_containers s !! id)) <$> collect l !! id) s.
Proof.
  intros Hids. unfold UpdateDocker. apply twp_bind. eapply twp_mono; [apply add_loop|].
  intros [] s1 [_ G1]. apply twp_bind, twp_get. eapply twp_mono; [apply forget_loop|].
  - intros id c. rewrite G1. destruct (collect l !! id) as [d|]; [|by apply Hids].
    intros [= <-]. unfold update_tune. simpl. destruct (cb_containers s !! id) eqn:E; [by apply Hids|done].
  - intros [] s2 G2 id. rewrite G2, G1. by destruct (collect l !! id).
Qed.

(** ** Lives *)

(** The calls between which the table of containers stays as it is. *)
Definition same_table (s s' : CpuBurst) : Prop := cb_containers s' = cb_containers s.
#[export] Instance same_table_preorder : PreOrder same_table.
Proof. split; [by intros s|]. intros s1 s2 s3 E1 E2. unfold same_table in *. congruence. Qed.

Lemma same_table_sys {A} (c : St sys A) : returns same_table (on_cb_sys c).
Proof. intros s a s'. unfold on_cb_sys, zoom. by destruct (c (cb_sys s)) as [[? m]| |]; [intros [= _ <-]|..]. Qed.
Ltac table_run := returns_run ltac:(idtac; first [apply same_table_sys | apply returns_modify; done]).

Lemma Enable_same : returns same_table CpuBurst_Enable.
Proof. unfold CpuBurst_Enable, Init, add_cycles_of, cb_post. table_run. Qed.
Lemma UpdatePmu_same l : returns same_table (UpdatePmu l).
Proof.
  unfold UpdatePmu. returns_run ltac:(idtac; apply returns_modify; intros s; unfold count_sample; by case_decide).
Qed.
Lemma SetCfsBurstUs_same id v : returns same_table (SetCfsBurstUs id v).
Proof. unfold SetCfsBurstUs. table_run. Qed.
Lemma Exit_same : returns same_table CpuBurst_Exit.
Proof.
  unfold CpuBurst_Exit, ContainerTune_Exit.
  returns_run ltac:(idtac; first [apply SetCfsBurstUs_same | apply returns_modify; done]).
Qed.
Lemma Run_same : returns same_table CpuBurst_Run.
Proof.
  unfold CpuBurst_Run, CpuBurst_Tune, tune_one. returns_run ltac:(idtac; first
    [apply SetCfsBurstUs_same | apply Exit_same | apply returns_modify; done]).
Qed.
Lemma Disable_same : returns same_table CpuBurst_Disable.
Proof.
  unfold CpuBurst_Disable, cb_post. returns_run ltac:(idtac; first [apply Exit_same | apply returns_modify; done]).
Qed.

(** A call, or a change of the machine. *)
Inductive burst_step : CpuBurst → CpuBurst → Prop :=
| step_sys m s : burst_step s (set_cb_sys m s)
| step_update d u s s' : CpuBurst_Update d s = Ret (u, s') → burst_step s s'
| step_enable r s s' : CpuBurst_Enable s = Ret (r, s') → burst_step s s'
| step_run u s s' : CpuBurst_Run s = Ret (u, s') → burst_step s s'
| step_disable u s s' : CpuBurst_Disable s = Ret (u, s') → burst_step s s'.

(** Steps through which the container [id] is in the table. *)
Definition known_steps (id : string) : relation CpuBurst :=
  rtc (λ s s', burst_step s s' ∧ is_Some (cb_containers s' !! id)).

Lemma twp_run {A} (c : St CpuBurst A) Q s a s' : twp c Q s → c s = Ret (a, s') → Q a s'.
Proof. unfold twp. intros H E. by rewrite E in H. Qed.

(** What a container had is remembered. *)
Definition remembers (id : string) (v : Z) (s : CpuBurst) : Prop :=
  ids_ok s ∧ ∃ c, cb_containers s !! id = Some c ∧ ct_cfs_burst_us_ori c = v.

Lemma UpdateDocker_ids l s u s' : ids_ok s → UpdateDocker l s = Ret (u, s') → ids_ok s'.
Proof.
  intros Hids E. pose proof (twp_run _ _ _ _ _ (UpdateDocker_twp l s Hids) E) as G. cbv beta in G.
  intros id c. rewrite G. intros (d & _ & ->)%fmap_Some. unfold update_tune. simpl.
  destruct (cb_containers s !! id) eqn:Hc; [by apply Hids|done].
Qed.

Lemma remembers_step id v s s' :
  remembers id v s → burst_step s s' → is_Some (cb_containers s' !! id) → remembers id v s'.
Proof.
  intros [Hids (c & Hc & Hv)] Hstep Hin.
  assert (∀ s', same_table s s' → remembers id v s') as Hsame.
  { intros s2 E. unfold same_table in E. split; [intros i ci; rewrite E; apply Hids|].
    exists c. by rewrite E. }
  destruct Hstep as [m s|d u s s' E|r s s' E|u s s' E|u s s' E].
  - by apply Hsame.
  - unfold CpuBurst_Update in E. case_decide; [|case_decide; [|by injection E as _ <-; apply Hsame]].
    + destruct (bl_data d) as [|l]; [|done]. apply Hsame. exact (UpdatePmu_same _ _ _ _ E).
    + destruct (bl_data d) as [|l]; [done|]. split; [by eapply UpdateDocker_ids|].
      pose proof (twp_run _ _ _ _ _ (UpdateDocker_twp l s Hids) E) as G. cbv beta in G.
      rewrite G, Hc in Hin. rewrite G, Hc. destruct (collect l !! id) as [x|]; [|by destruct Hin].
      by eexists.
  - by apply Hsame, (Enable_same _ _ _ E).
  - by apply Hsame, (Run_same _ _ _ E).
  - by apply Hsame, (Disable_same _ _ _ E).
Qed.

Lemma remembers_steps id v s s' : remembers id v s → known_steps id s s' → remembers id v s'.
Proof. intros H Hs. induction Hs as [|s s1 s' [H1 H2] _ IH]; [done|]. apply IH. by eapply remembers_step. Qed.

(** C33. A container gets back the burst that it had: when the plugin meets a
    container for the first time, with the burst [v] that the kernel has for
    it, then whatever data come and however often the plugin runs, is enabled
    and disabled while it knows the container, disabling it leaves the
    container with [v], as long as its file is there and the kernel takes
    [v]. *)
Theorem burst_restored (id : string) (v : Z) (l : list BurstData) (d : BurstData)
    (s0 s1 s2 : CpuBurst) (z : Z)
    (Hname : id ≠ "null"%string) (Hids : ids_ok s0) (Hnew : cb_containers s0 !! id = None)
    (Hv : in_range CInt v) (Hfile : held s0 id = Some v)
    (Hd : collect l !! id = Some d) (Hburst : bd_cfs_burst_us d = v)
    (H1 : UpdateDocker l s0 = Ret (tt, s1)) (Hsteps : known_steps id s1 s2)
    (Hthere : held s2 id = Some z) (Htakes : takes s2 id v = true) :
  ∃ s3, CpuBurst_Disable s2 = Ret (tt, s3) ∧ held s3 id = held s0 id.
Proof.
  assert (remembers id v s1) as Hr1.
  { split; [by eapply UpdateDocker_ids|].
    pose proof (twp_run _ _ _ _ _ (UpdateDocker_twp l s0 Hids) H1 id) as G. cbv beta in G.
    rewrite Hd, Hnew in G. eexists. split; [exact G|done]. }
  destruct (remembers_steps _ _ _ _ Hr1 Hsteps) as [Hids2 (c & Hc & Hori)].
  assert (twp CpuBurst_Disable (λ _ s3, held s3 id = Some v) s2) as H.
  { unfold CpuBurst_Disable. cbn [burst_topics for_each]. unfold cb_post.
    apply twp_bind, twp_bind, twp_modify, twp_bind, twp_modify, twp_ret.
    eapply twp_mono; [by apply Exit_twp|]. intros [] s3 [_ G].
    rewrite (G id c z Hc Hthere). unfold new_burst, restored, burst_of. cbn [fst snd].
    rewrite decide_False by done. rewrite Hori, wrap_id by done.
    change (takes _ id v) with (takes s2 id v). by rewrite Htakes. }
  apply twp_alt in H as ([] & s3 & E & H3). exists s3. split; [done|]. by rewrite Hfile.
Qed.

(** A turn gives every container that has its file the burst that belongs
    to it, in numbers that the kernel takes: when more than nine tenths of the
    cycles of the period were used, the burst that it had; otherwise its quota
    when the burst is below it; and nothing is written for the others. *)
Theorem tune_bursts (s : CpuBurst) (Hids : ids_ok s) :
  ∃ s', CpuBurst_Run s = Ret (tt, s') ∧ curSysCycles s' = 0 ∧ cb_containers s' = cb_containers s ∧
    ∀ id c z, id ≠ "null"%string → cb_containers s !! id = Some c → held s id = Some z →
      let wanted := if busy burst_period s then ct_cfs_burst_us_ori c else ct_cfs_quota_us c in
      let changes := busy burst_period s || bool_decide (ct_cfs_burst_us c < ct_cfs_quota_us c) in
      held s' id = Some (if changes && takes s id (wrap CInt wanted) then wrap CInt wanted else z).
Proof.
  destruct (proj1 (twp_alt _ _ _) (Tune_twp burst_period s Hids)) as ([] & s' & E & [m ->] & G).
  exists (set_cb_sys m (set_curSys 0 s)). split_and!; [done..|]. intros id c z Hname Hc Hz.
  rewrite (G id c z Hc Hz). cbv zeta. unfold new_burst, tuned, burst_of. cbn [fst snd].
  rewrite !(decide_False (P := id = "null"%string)) by done.
  destruct (busy burst_period s); simpl; [done|].
  case_decide; [by rewrite bool_decide_true|by rewrite bool_decide_false].
Qed.
End restore.

(** ** On a machine of text files *)

#[local] Existing Instances file_machine hash_ref.

(** A container with a quota of 50000 whose burst is 2000. *)
Definition burst_files : @sys file_machine := <[burst_path "a" := bytes_of "2000"]> ∅.
Definition burst_data : list BurstData := [mkBurstData "a" 100000 50000 2000].
Definition docker_update : BurstDataList :=
  mkBurstDataList (mkTopic OE_DOCKER_COLLECTOR OE_DOCKER_COLLECTOR "") (BDocker burst_data).
(** A machine that has a thousand million cycles per second. *)
Definition burst_start : CpuBurst := set_maxSys 1000000000 (CpuBurst0 burst_files).

Lemma burst_start_ids : ids_ok burst_start.
Proof. intros id c E. discriminate E. Qed.

(** The quota is given as the burst, and taken back. *)
Lemma burst_restored_witness :
  ∃ s1 s2 s3, UpdateDocker burst_data burst_start = Ret (tt, s1) ∧ CpuBurst_Run s1 = Ret (tt, s2) ∧
    held s2 "a" = Some 50000 ∧ CpuBurst_Disable s2 = Ret (tt, s3) ∧ held s3 "a" = held burst_start "a".
Proof.
  assert (match UpdateDocker burst_data burst_start with
    | Ret (_, s1) => match CpuBurst_Run s1 with
      | Ret (_, s2) => held s2 "a" = Some 50000 ∧ is_Some (cb_containers s2 !! "a"%string)
      | _ => False
      end
    | _ => False
    end) as Hrun by (vm_compute; split; [reflexivity|eexists; reflexivity]).
  destruct (UpdateDocker burst_data burst_start) as [[[] s1]| |] eqn:E1; [|destruct Hrun..].
  destruct (CpuBurst_Run s1) as [[[] s2]| |] eqn:E2; [|destruct Hrun..].
  destruct Hrun as [Hheld Hin].
  destruct (burst_restored "a" 2000 burst_data (mkBurstData "a" 100000 50000 2000)
    burst_start s1 s2 50000) as (s3 & E3 & Hs3).
  - discriminate.
  - exact burst_start_ids.
  - reflexivity.
  - refine (bool_decide_unpack _ _). vm_compute. exact I.
  - vm_compute. reflexivity.
  - vm_compute. reflexivity.
  - reflexivity.
  - exact E1.
  - apply rtc_once. split; [exact (step_run _ _ _ E2)|exact Hin].
  - exact Hheld.
  - reflexivity.
  - exists s1, s2, s3. exact (conj eq_refl (conj E2 (conj Hheld (conj E3 Hs3)))).
Defined.

Lemma tune_bursts_witness :
  ∃ s1 s2, UpdateDocker burst_data burst_start = Ret (tt, s1) ∧ CpuBurst_Run s1 = Ret (tt, s2) ∧
    held s2 "a" = Some 50000.
Proof.
  assert (match UpdateDocker burst_data burst_start with
    | Ret (_, s1) => held s1 "a" = Some 2000 ∧ busy burst_period s1 = false ∧
        cb_containers s1 !! "a"%string = Some (mkContainerTune "a" 100000 50000 2000 2000)
    | _ => False
    end) as Hrun by (vm_compute; repeat split; reflexivity).
  destruct (UpdateDocker burst_data burst_start) as [[[] s1]| |] eqn:E1; [|destruct Hrun..].
  destruct Hrun as (Hheld & Hbusy & Hc).
  destruct (tune_bursts s1 (UpdateDocker_ids _ _ _ _ burst_start_ids E1)) as (s2 & E2 & _ & _ & G).
  exists s1, s2. refine (conj eq_refl (conj E2 _)).
  rewrite (G "a"%string _ _ ltac:(discriminate) Hc Hheld), Hbusy. reflexivity.
Defined.
