(* ===== verification/DirWalk.v ===== *)
(** * Directories and containers' control groups (src/common/utils.cpp:
      DirectoryWalker, DockerUtils)

    The search for the directory of a container, to a bounded depth. *)

From Stdlib Require Import ZArith Lia Strings.Byte.
From stdpp Require Import base list strings gmap numbers.
From S2P Require Import Prelude Bytes StdString Utils Config Machine.

(** [stat] and [readlink]. *)
Class DirTree `{Machine} := {
  sys_isdir : sys → string → bool;
  sys_link : sys → string → option string
}.

Definition LONG_DOCKER_ID_LENGTH : nat := 64.
Definition SHORT_DOCKER_ID_LENGTH : nat := 12.
Definition MAX_SEARCHE_DEPTH : nat := 5.
Definition EXEC_COMMAND_BUFLEN : nat := 512.
Definition PATH_MAX : nat := 4096.

Section walk.
Context `{DT : DirTree}.

(** ** DirectoryWalker *)

Definition shown (name : string) : bool :=
  match bytes_of name with x2e :: _ => false | _ => true end.
Definition ListFiles (m : sys) (path : string) : list string :=
  match sys_dir m path with None => [] | Some l => filter shown l end.
Definition IsDirectory (m : sys) (path : string) : bool := sys_isdir m path.
Definition IsSymlink (m : sys) (path : string) : bool := bool_decide (is_Some (sys_link m path)).
Definition ReadSymlink (m : sys) (path : string) : string :=
  match sys_link m path with
  | None => EmptyString
  | Some link => str_of (take (PATH_MAX - 1) (bytes_of link))
  end.

(** ** DockerUtils *)

Definition space : byte := x20.
Definition slash : byte := x2f.
Definition contains (part text : string) : bool := occurs (bytes_of part) (bytes_of text).

(** The text behind the first blank, and to the next one; a line without a
    blank is taken as it is. *)
Definition mount_point (line : list byte) : list byte :=
  let rest := match find_byte space line with None => line | Some start => drop (S start) line end in
  match find_byte space rest with None => rest | Some end_ => take end_ rest end.
Definition GetCgroupMounts (m : sys) (subsystem : string) : list string :=
  let lines := match sys_read m "/proc/mounts" with None => [] | Some text => getline_all newline text end in
  let mounts := map (λ line, str_of (mount_point line))
    (filter (λ line, occurs (bytes_of "cgroup") line && occurs (bytes_of subsystem) line) lines) in
  if decide (mounts ≠ []) then mounts else ["/sys/fs/cgroup"%string].

Definition real_path (m : sys) (basePath entry : string) : string :=
  let fullPath := (basePath +:+ "/" +:+ entry)%string in
  if IsSymlink m fullPath then
    let link := ReadSymlink m fullPath in
    if decide (head (bytes_of link) = Some slash) then link else (basePath +:+ "/" +:+ link)%string
  else fullPath.

(** [find path] searches below a directory. *)
Fixpoint search_entries (m : sys) (find : string → string) (basePath dockerId : string)
    (entries : list string) : string :=
  match entries with
  | [] => EmptyString
  | entry :: entries =>
    let realPath := real_path m basePath entry in
    if contains dockerId realPath then realPath else
    let found := if IsDirectory m realPath then find realPath else EmptyString in
    if decide (found ≠ EmptyString) then found else search_entries m find basePath dockerId entries
  end.
Fixpoint SearchDirectory (m : sys) (basePath dockerId : string) (maxDepth : nat) : string :=
  match maxDepth with
  | O => EmptyString
  | S maxDepth =>
    search_entries m (λ path, SearchDirectory m path dockerId maxDepth) basePath dockerId
      (ListFiles m basePath)
  end.

Definition priorityPaths : list string := ["docker"; "kubepods.slice"; "system.slice"; "kubepods"]%string.
(** The first search that finds something. *)
Fixpoint first_found (m : sys) (dockerId : string) (targets : list string) : string :=
  match targets with
  | [] => EmptyString
  | target :: targets =>
    let found := SearchDirectory m target dockerId MAX_SEARCHE_DEPTH in
    if decide (found ≠ EmptyString) then found else first_found m dockerId targets
  end.
(** Where to look below a mount: the usual places that there are, then all
    of it. *)
Definition search_paths (m : sys) (base : string) : list string :=
  filter (IsDirectory m) (map (λ pp, base +:+ "/" +:+ pp)%string priorityPaths) ++ [base].
Definition FindDockerSubsystemCgroupPath (m : sys) (dockerId subsystemName : string) : string :=
  if decide (String.length dockerId ≠ LONG_DOCKER_ID_LENGTH) then EmptyString else
  first_found m dockerId (flat_map (search_paths m) (GetCgroupMounts m subsystemName)).

(** [fgets] into a buffer, repeatedly: [cur] has been read. *)
Fixpoint fgets_all (cur l : list byte) : list (list byte) :=
  match l with
  | [] => if decide (cur = []) then [] else [cur]
  | b :: l =>
    if decide (b = newline) then cur :: fgets_all [] l else
    if decide (length cur + 2 = EXEC_COMMAND_BUFLEN)%nat then (cur ++ [b]) :: fgets_all [] l
    else fgets_all (cur ++ [b]) l
  end.
Definition GetAllDockerIDs : St sys (list string) :=
  out ← ExecCommand "docker ps -aq --no-trunc";
  mret match out with
       | None => []
       | Some out => map (λ id, str_of (until_nul id)) (fgets_all [] out)
       end.
End walk.

(** ** What the search finds *)

Section search.
Context `{DT : DirTree}.

(** The paths that lie at most [depth] levels below a directory, links
    followed. *)
Inductive below (m : sys) : nat → string → string → Prop :=
| below_entry depth base entry :
    entry ∈ ListFiles m base → below m (S depth) base (real_path m base entry)
| below_dir depth base entry path :
    entry ∈ ListFiles m base → IsDirectory m (real_path m base entry) = true →
    below m depth (real_path m base entry) path → below m (S depth) base path.

Lemma contains_nonempty part : part ≠ EmptyString → contains part EmptyString = false.
Proof.
  intros Hp. unfold contains. destruct part as [|a part]; [done|].
  simpl. by destruct (Ascii.byte_of_ascii a).
Qed.

(** What a search from a path must give. *)
Definition found_below (m : sys) (depth : nat) (base id r : string) : Prop :=
  if decide (r = EmptyString) then ∀ path, below m depth base path → contains id path = false
  else below m depth base r ∧ contains id r = true.

Lemma search_entries_found m depth base id entries :
  id ≠ EmptyString →
  (∀ path, found_below m depth path id (SearchDirectory m path id depth)) →
  entries ⊆ ListFiles m base →
  let r := search_entries m (λ path, SearchDirectory m path id depth) base id entries in
  if decide (r = EmptyString) then
    ∀ entry, entry ∈ entries → contains id (real_path m base entry) = false ∧
      (IsDirectory m (real_path m base entry) = true →
        ∀ path, below m depth (real_path m base entry) path → contains id path = false)
  else below m (S depth) base r ∧ contains id r = true.
Proof.
  intros Hid IHd. induction entries as [|entry entries IH]; intros Hsub; [by rewrite decide_True; [set_solver|]|].
  cbn [search_entries]. cbv zeta. set (p := real_path m base entry).
  assert (entry ∈ ListFiles m base) as Hentry by set_solver.
  destruct (contains id p) eqn:Ep.
  { rewrite decide_False; [by split; [apply below_entry|]|]. intros E. by rewrite E, contains_nonempty in Ep. }
  specialize (IHd p). unfold found_below in IHd. destruct (IsDirectory m p) eqn:Edir; cbn [negb].
  - destruct (decide (SearchDirectory m p id depth = EmptyString)) as [E|Hne].
    + rewrite (decide_False (P := SearchDirectory m p id depth ≠ _)) by (intros Hn; by apply Hn).
      specialize (IH ltac:(set_solver)). cbv zeta in IH.
      case_decide as Hr; [|done]. intros e [->|He]%elem_of_cons; [done|]. by apply IH.
    + rewrite (decide_True (P := SearchDirectory m p id depth ≠ _)) by done.
      rewrite decide_False by done. destruct IHd as [Hb Hc].
      split; [|done]. by apply below_dir with entry.
  - rewrite (decide_False (P := EmptyString ≠ _)) by (intros Hn; by apply Hn). specialize (IH ltac:(set_solver)). cbv zeta in IH.
    case_decide as Hr; [|done]. intros e [->|He]%elem_of_cons; [by fold p; rewrite Edir|]. by apply IH.
Qed.

Lemma SearchDirectory_found m base id depth :
  id ≠ EmptyString → found_below m depth base id (SearchDirectory m base id depth).
Proof.
  intros Hid. revert base. induction depth as [|depth IH]; intros base.
  { unfold found_below. rewrite decide_True by done. intros path Hp. inversion Hp. }
  cbn [SearchDirectory]. unfold found_below.
  pose proof (search_entries_found m depth base id (ListFiles m base) Hid IH ltac:(done)) as G.
  cbv zeta in G. case_decide; [|done]. intros path Hp. inversion Hp as [??? Hin|???? Hin Hdir Hb]; subst.
  - by apply G.
  - by eapply G.
Qed.

Lemma first_found_spec m id targets :
  id ≠ EmptyString →
  let r := first_found m id targets in
  if decide (r = EmptyString)
  then ∀ t path, t ∈ targets → below m MAX_SEARCHE_DEPTH t path → contains id path = false
  else contains id r = true ∧ ∃ t, t ∈ targets ∧ below m MAX_SEARCHE_DEPTH t r.
Proof.
  intros Hid. induction targets as [|t targets IH]; [by rewrite decide_True; [set_solver|]|].
  cbn [first_found]. cbv zeta in *. pose proof (SearchDirectory_found m t id MAX_SEARCHE_DEPTH Hid) as Ht.
  unfold found_below in Ht. destruct (decide (SearchDirectory m t id _ = EmptyString)) as [E|Hne].
  - rewrite (decide_False (P := SearchDirectory m t id _ ≠ _)) by (intros Hn; by apply Hn). case_decide.
    + intros t' path [->|Hin]%elem_of_cons; [by apply Ht|by apply IH].
    + destruct IH as (Hc & t' & Hin & Hb). split; [done|]. exists t'. set_solver.
  - rewrite (decide_True (P := SearchDirectory m t id _ ≠ _)) by done.
    rewrite decide_False by done. destruct Ht as [Hb Hc].
    split; [done|]. exists t. set_solver.
Qed.

(** C39. The directory of a container is found when the search can reach it:
    FindDockerSubsystemCgroupPath gives a path that holds the container's
    long identifier and lies, links followed, at most five levels below the
    subsystem's mount or below one of the usual places there; and it gives
    none only when there is no such path. *)
Theorem cgroup_path_found (m : sys) (id subsystem : string)
    (Hid : String.length id = LONG_DOCKER_ID_LENGTH) :
  let r := FindDockerSubsystemCgroupPath m id subsystem in
  let reachable path := ∃ base t, base ∈ GetCgroupMounts m subsystem ∧
    (t = base ∨ ∃ pp, pp ∈ priorityPaths ∧ t = (base +:+ "/" +:+ pp)%string ∧ IsDirectory m t = true) ∧
    below m MAX_SEARCHE_DEPTH t path in
  (r ≠ EmptyString → reachable r ∧ contains id r = true) ∧
  (r = EmptyString → ∀ path, reachable path → contains id path = false).
Proof.
  assert (id ≠ EmptyString) as Hne by (by intros ->). cbv zeta. unfold FindDockerSubsystemCgroupPath.
  rewrite decide_False by (intros Hn; by apply Hn). set (targets := flat_map _ _).
  assert (∀ t, t ∈ targets ↔ ∃ base, base ∈ GetCgroupMounts m subsystem ∧
    (t = base ∨ ∃ pp, pp ∈ priorityPaths ∧ t = (base +:+ "/" +:+ pp)%string ∧ IsDirectory m t = true)) as Ht.
  { intros t. unfold targets. rewrite list_elem_of_In, in_flat_map. f_equiv; intros base.
    rewrite <-!list_elem_of_In. unfold search_paths. rewrite elem_of_app, list_elem_of_singleton,
      list_elem_of_filter, Is_true_true, list_elem_of_fmap. naive_solver. }
  pose proof (first_found_spec m id targets Hne) as G. cbv zeta in G. case_decide as E.
  - split; [done|]. intros _ path (base & t & Hb & Hp & Hbelow). apply (G t); [|done]. apply Ht. eauto.
  - split; [|done]. intros _. destruct G as (Hc & t & Hin & Hb). split; [|done].
    apply Ht in Hin as (base & Hbase & Hp). eauto.
Qed.
End search.
