(* ===== verification/CoordBurst.v ===== *)
(** * Coordinated bursts for containers
      (src/plugin/tune/docker/coordination_burst/coordination_burst_adapt.cpp, .h)

    The instance lets the chosen containers use what others leave: it sets the
    kernel's ratio and the soft quota of each container, or nothing at all. *)

From Stdlib Require Import ZArith Lia Strings.Byte Sorting.Permutation.
From stdpp Require Import base list strings gmap numbers sorting.
From S2P Require Import Prelude Bytes StdString Utils DataTypes Registry Daemon Config Machine DirWalk.

Definition SCHED_SOFT_RUNTIME_RATIO_PATH : string := "/proc/sys/kernel/sched_soft_runtime_ratio".
Definition DOCKER_COORDINATION_BURST_CONFIG_PATH : string := "/etc/oeAware/plugin/docker_burst.yaml".
Definition DEFAULT_RATIO : Z := 20.
Definition MAX_RATIO : Z := 20.
Definition MIN_RATIO : Z := 1.

Record CoordBurst `{Machine} := mkCoordBurst {
  cd_sys : sys;
  cd_ratio : Z;
  originRatio : Z;
  isDockerListSet : bool;
  isRatioSet : bool;
  cd_containers : gmap string string;
  allContainers : gmap string string;
  allContainerOriginSoftQuota : gmap string Z
}.

Section setters.
Context `{MA : Machine}.
Definition set_cd_sys (v : sys) (s : CoordBurst) : CoordBurst :=
  mkCoordBurst _ v (cd_ratio s) (originRatio s) (isDockerListSet s) (isRatioSet s) (cd_containers s)
    (allContainers s) (allContainerOriginSoftQuota s).
Definition set_ratio (v : Z) (s : CoordBurst) : CoordBurst :=
  mkCoordBurst _ (cd_sys s) v (originRatio s) (isDockerListSet s) true (cd_containers s)
    (allContainers s) (allContainerOriginSoftQuota s).
Definition set_listed (v : bool) (s : CoordBurst) : CoordBurst :=
  mkCoordBurst _ (cd_sys s) (cd_ratio s) (originRatio s) v (isRatioSet s) (cd_containers s)
    (allContainers s) (allContainerOriginSoftQuota s).
Definition set_cd_containers (v : gmap string string) (s : CoordBurst) : CoordBurst :=
  mkCoordBurst _ (cd_sys s) (cd_ratio s) (originRatio s) (isDockerListSet s) (isRatioSet s) v
    (allContainers s) (allContainerOriginSoftQuota s).
Definition set_all (v : gmap string string) (quotas : gmap string Z) (s : CoordBurst) : CoordBurst :=
  mkCoordBurst _ (cd_sys s) (cd_ratio s) (originRatio s) (isDockerListSet s) (isRatioSet s)
    (cd_containers s) v quotas.
Definition on_cd_sys {A} (c : St sys A) : St CoordBurst A := zoom cd_sys set_cd_sys c.
(** The object after its constructor. *)
Definition CoordBurst0 (m : sys) : CoordBurst := mkCoordBurst _ m DEFAULT_RATIO (MIN_RATIO - 1) false false ∅ ∅ ∅.
End setters.

(** ** Texts *)

Definition brackets (s : string) : list byte := x7b :: bytes_of s ++ [x7d].
Definition fix_colons (l : list byte) : list byte :=
  flat_map (λ b, if decide (b = colon) then [colon; x20] else [b]) l.
(** A comma and the blanks behind it become a comma and one blank. *)
Fixpoint fix_commas (behind : bool) (l : list byte) : list byte :=
  match l with
  | [] => []
  | b :: l =>
    if behind && is_space b then fix_commas true l
    else if decide (b = comma) then comma :: x20 :: fix_commas true l
    else b :: fix_commas false l
  end.
Definition FixYaml (raw : list byte) : list byte := fix_commas false (fix_colons raw).
Definition HasSpecialChar (l : list byte) : bool :=
  existsb (λ b, bool_decide (b ∉ bytes_of "abcdefjhijklmnopqrstuvwxyz0123456789:_[],. {}")) l.

(** [file >> value] for an [int]: a text without a number gives 0, and a
    number that does not fit the nearest one; where nothing but blanks is
    left the variable keeps its value. *)
Definition extract_int (old : Z) (text : list byte) : Z :=
  if decide (skip_space text = []) then old else
  match strtol text with
  | None => 0
  | Some z => Z.max (-2147483648) (Z.min 2147483647 z)
  end.

Section coord_burst.
Context `{DT : DirTree} `{HO : HashOrder} `{YC : YamlConversions}.
(** [YAML::Load], and what an exception of the library says. *)
Context (yaml_load : list byte → option Node) (what : string).

(** ** The choice of containers *)

Definition UpdateDockerInfo (dockerId : string) : St CoordBurst unit :=
  s ← get;
  if decide (String.length dockerId = LONG_DOCKER_ID_LENGTH) then
    match allContainers s !! dockerId with
    | Some path => modify (set_cd_containers (<[dockerId := path]> (cd_containers s)))
    | None => mret tt
    end
  else if decide (String.length dockerId = SHORT_DOCKER_ID_LENGTH) then
    match list_find (λ it, take SHORT_DOCKER_ID_LENGTH (bytes_of it.1) = bytes_of dockerId)
            (named_in_order (allContainers s)) with
    | Some (_, (id, path)) => modify (set_cd_containers (<[id := path]> (cd_containers s)))
    | None => mret tt
    end
  else mret tt.

Definition CheckYamlParam (parsedConfig : Node) : string :=
  match parsedConfig with
  | NMap l =>
    let invalid := filter (λ kv, kv.1 ≠ "ratio"%string ∧ kv.1 ≠ "docker_id"%string) l in
    let invalidKeys := foldr (λ kv t, kv.1 +:+ " " +:+ t)%string EmptyString invalid in
    if decide (invalidKeys = EmptyString) then EmptyString else
    ("CoordinationBurstAdapt ParseParam " +:+ invalidKeys +:+ "is invalid. Please use cli param '-docker_id [id1,id2] -ratio 20' or set docker_id and ratio in " +:+ DOCKER_COORDINATION_BURST_CONFIG_PATH)%string
  | _ => "CoordinationBurstAdapt ParseParam config format is invalid."%string
  end.

(** The steps that convert YAML: [None] is a [YAML::Exception], which is
    caught around them; what was stored before it stays. *)
Notation Yaml A := (St CoordBurst (option A)).
Definition yaml_then {A B} (c : Yaml A) (f : A → Yaml B) : Yaml B :=
  r ← c; match r with None => mret None | Some a => f a end.

Definition ParseYamlRatio (parsedConfig : Node) : Yaml string :=
  match node_at parsedConfig "ratio" ≫= as_string with
  | None => mret None
  | Some ratioString =>
    if negb (IsInteger (bytes_of ratioString))
    then mret (Some "CoordinationBurstAdapt Param ratio should be integer."%string) else
    match node_at parsedConfig "ratio" ≫= as_int with
    | None => mret None
    | Some ratio => modify (set_ratio ratio) ;; mret (Some EmptyString)
    end
  end.

Definition defined (n : Node) (key : string) : option bool := IsDefined <$> node_at n key.

Fixpoint update_ids (l : list Node) : Yaml unit :=
  match l with
  | [] => mret (Some tt)
  | id :: l =>
    match as_string id with
    | None => mret None
    | Some id => UpdateDockerInfo id ;; update_ids l
    end
  end.
Definition parse_docker_id (parsedConfig : Node) : Yaml string :=
  match node_at parsedConfig "docker_id" with
  | None => mret None
  | Some n =>
    if negb (IsDefined n) then mret (Some EmptyString) else
    yaml_then match n with
              | NSequence l => update_ids l
              | _ => update_ids [n]
              end (λ _,
    modify (set_listed true) ;; mret (Some EmptyString))
  end.
Definition parse_ratio (parsedConfig : Node) : Yaml string :=
  match defined parsedConfig "ratio" with
  | None => mret None
  | Some b => if (b : bool) then ParseYamlRatio parsedConfig else mret (Some EmptyString)
  end.
Definition ParseParam (param : string) : St CoordBurst string :=
  let paramStr := FixYaml (brackets param) in
  if HasSpecialChar paramStr then mret "Input param has invalid character."%string else
  r ← match yaml_load paramStr with
      | None => mret None
      | Some parsedConfig =>
        let retMsg := CheckYamlParam parsedConfig in
        if decide (retMsg ≠ EmptyString) then mret (Some retMsg) else
        yaml_then (parse_ratio parsedConfig) (λ retMsg,
        if decide (retMsg ≠ EmptyString) then mret (Some retMsg) else parse_docker_id parsedConfig)
      end;
  mret match (r : option string) with
       | Some retMsg => retMsg
       | None => ("CoordinationBurstAdapt ParseParam format parse failed: " +:+ what)%string
       end.

(** The identifiers are all converted before the first of them is looked up. *)
Definition read_docker_id (config : Node) : Yaml string :=
  s ← get;
  if isDockerListSet s then mret (Some EmptyString) else
  match node_at config "docker_id" with
  | None => mret None
  | Some (NSequence l) =>
    match mapM as_string l with
    | None => mret None
    | Some dockerList =>
      for_each dockerList UpdateDockerInfo ;;
      modify (set_listed (negb (bool_decide (dockerList = [])))) ;; mret (Some EmptyString)
    end
  | Some _ => mret (Some EmptyString)
  end.
Definition read_ratio (config : Node) : Yaml string :=
  s ← get;
  if isRatioSet s then mret (Some EmptyString) else parse_ratio config.
Definition ReadConfig (path : string) : St CoordBurst string :=
  s ← get;
  if negb (bool_decide (is_Some (sys_read (cd_sys s) path)))
  then mret (DOCKER_COORDINATION_BURST_CONFIG_PATH +:+ " config open failed.")%string else
  r ← match sys_yaml (cd_sys s) path with
      | None => mret None
      | Some config =>
        let retMsg := CheckYamlParam config in
        if decide (retMsg ≠ EmptyString) then mret (Some retMsg) else
        yaml_then (read_ratio config) (λ retMsg,
        if decide (retMsg ≠ EmptyString) then mret (Some retMsg) else read_docker_id config)
      end;
  mret match (r : option string) with
       | Some retMsg => retMsg
       | None => ("CoordinationBurstAdapt read config from " +:+ DOCKER_COORDINATION_BURST_CONFIG_PATH
                  +:+ " YAML parse failed: " +:+ what)%string
       end.

(** ** The kernel's files *)

Definition CheckEnv : St CoordBurst bool :=
  s ← get; mret (bool_decide (is_Some (sys_read (cd_sys s) SCHED_SOFT_RUNTIME_RATIO_PATH))).
Definition GetRatio : St CoordBurst Z :=
  s ← get;
  mret match sys_read (cd_sys s) SCHED_SOFT_RUNTIME_RATIO_PATH with
       | None => MIN_RATIO - 1
       | Some text => extract_int (MIN_RATIO - 1) text
       end.
Definition SetRatio (ratioValue : Z) : St CoordBurst string :=
  if decide (ratioValue < MIN_RATIO ∨ MAX_RATIO < ratioValue)
  then mret "ratio is invalid. The ratio must be in [1, 20]."%string else
  '(opens, takes) ← on_cd_sys (on_file SCHED_SOFT_RUNTIME_RATIO_PATH (to_string ratioValue));
  mret (if negb opens then ("Failed to open file: " +:+ SCHED_SOFT_RUNTIME_RATIO_PATH +:+ ".")%string
        else if negb takes then ("Failed to flush " +:+ str_of (to_string ratioValue) +:+ " to file: "
          +:+ SCHED_SOFT_RUNTIME_RATIO_PATH +:+ ".")%string
        else EmptyString).

Definition quota_file (cgroupPath : string) : string := (cgroupPath +:+ "/cpu.soft_quota")%string.
Definition GetSoftQuota (cgroupPath : string) : St CoordBurst Z :=
  s ← get;
  mret match sys_read (cd_sys s) (quota_file cgroupPath) with
       | None => -1
       | Some text => extract_int (-1) text
       end.
Definition SetSoftQuota (softQuota : Z) (cgroupPath : string) : St CoordBurst bool :=
  '(opens, takes) ← on_cd_sys (on_file (quota_file cgroupPath) (to_string softQuota));
  mret (opens && takes).

Definition add_docker (dockerId : string) : St CoordBurst unit :=
  s ← get;
  let path := FindDockerSubsystemCgroupPath (cd_sys s) dockerId "cpu,cpuacct" in
  if decide (path = EmptyString) then mret tt else
  quota ← GetSoftQuota path;
  modify (λ s, set_all (<[dockerId := path]> (allContainers s))
    (<[dockerId := quota]> (allContainerOriginSoftQuota s)) s).
Definition GetAllDockers : St CoordBurst unit :=
  modify (set_all ∅ ∅) ;;
  dockerList ← on_cd_sys GetAllDockerIDs;
  for_each dockerList add_docker.

(** [allContainerOriginSoftQuota[id]] and [allContainers[id]]: a key that is
    missing is added. *)
Definition restore_container (id : string) : St CoordBurst unit :=
  s ← get;
  let quota := default 0 (allContainerOriginSoftQuota s !! id) in
  let path := default EmptyString (allContainers s !! id) in
  modify (set_all (<[id := path]> (allContainers s)) (<[id := quota]> (allContainerOriginSoftQuota s))) ;;
  SetSoftQuota quota path ;; mret tt.

(** The order of a [std::set]. *)
Definition by_bytes (a b : string) : Prop := String.leb a b = true.
#[global] Instance by_bytes_dec a b : Decision (by_bytes a b).
Proof. unfold by_bytes. apply _. Defined.
Definition RollBack (succeedContainers : gset string) : St CoordBurst unit :=
  s ← get;
  SetRatio (originRatio s) ;;
  for_each (merge_sort by_bytes (elements succeedContainers)) restore_container.

(** ** The instance *)

Definition coord_failed (text : string) : Result := mkResult (Some FAILED) text.

Definition CoordBurst_Init : St CoordBurst bool :=
  env ← CheckEnv;
  if negb env then mret false else
  GetAllDockers ;;
  ratio ← GetRatio;
  modify (λ s, mkCoordBurst _ (cd_sys s) DEFAULT_RATIO ratio false false ∅ (allContainers s)
    (allContainerOriginSoftQuota s)) ;;
  mret true.

Fixpoint enable_all (l : list (string * string)) (succeedContainers : gset string) :
    St CoordBurst Result :=
  match l with
  | [] => mret (mkResult (Some OK) EmptyString)
  | (id, path) :: l =>
    ok ← SetSoftQuota 1 path;
    if (ok : bool) then enable_all l ({[id]} ∪ succeedContainers) else
    RollBack succeedContainers ;;
    mret (coord_failed ("Set soft quota to " +:+ id +:+ " failed.")%string)
  end.
(** Without a list of containers all of them are chosen. *)
Definition choose_all : St CoordBurst bool :=
  s ← get;
  if decide (cd_containers s ≠ ∅) then mret true else
  if isDockerListSet s then mret false else
  modify (set_cd_containers (allContainers s)) ;; mret true.
Definition CoordBurst_Enable (param : string) : St CoordBurst Result :=
  init ← CoordBurst_Init;
  if negb init then mret (coord_failed "Docker coordination burst init failed. may not support.") else
  retMsg ← ParseParam param;
  if decide (retMsg ≠ EmptyString) then mret (coord_failed retMsg) else
  s ← get;
  retMsg ← (if negb (isDockerListSet s) || negb (isRatioSet s)
            then ReadConfig DOCKER_COORDINATION_BURST_CONFIG_PATH else mret EmptyString);
  if decide (retMsg ≠ EmptyString) then mret (coord_failed retMsg) else
  chosen ← choose_all;
  if negb chosen
  then mret (coord_failed "All config docker_id is invalid.Cannot found cgroup path or docker not exist.") else
  s ← get;
  retMsg ← SetRatio (cd_ratio s);
  if decide (retMsg ≠ EmptyString) then mret (coord_failed retMsg) else
  s ← get;
  enable_all (named_in_order (cd_containers s)) ∅.

Definition CoordBurst_Disable : St CoordBurst unit :=
  env ← CheckEnv;
  if negb env then mret tt else
  s ← get;
  SetRatio (originRatio s) ;;
  for_each (named_in_order (allContainers s)) (λ it, restore_container it.1).
End coord_burst.
