(* ===== verification/CoordBurstTheorems.v ===== *)
(** * Coordinated bursts: all the containers or none, and back *)

From Stdlib Require Import ZArith Lia Strings.Byte Sorting.Permutation.
From stdpp Require Import base list strings gmap numbers sorting.
From S2P Require Import Prelude Bytes StdString Utils DataTypes Registry Daemon Config Machine.
From S2P Require Import World Knobs Steps DirWalk CoordBurst.

Section enable.
Context `{MA : Machine} `{DT : !DirTree} `{HO : HashOrder} `{YC : YamlConversions} `{KN : !Knobs MA}.
Context (yaml_load : list byte → option Node) (what : string).

(** ** Choosing the containers changes nothing else *)

Record chose (s s' : CoordBurst) : Prop := {
  ch_sys : cd_sys s' = cd_sys s;
  ch_origin : originRatio s' = originRatio s;
  ch_all : allContainers s' = allContainers s;
  ch_quota : allContainerOriginSoftQuota s' = allContainerOriginSoftQuota s;
  ch_known : cd_containers s ⊆ allContainers s → cd_containers s' ⊆ allContainers s'
}.
#[export] Instance chose_preorder : PreOrder chose.
Proof.
  split; [by split|]. intros s1 s2 s3 [A1 A2 A3 A4 A5] [B1 B2 B3 B4 B5]. split; [congruence..|auto].
Qed.

Lemma choose_one_chose id path s :
  allContainers s !! id = Some path → chose s (set_cd_containers (<[id := path]> (cd_containers s)) s).
Proof. intros E. split; [done..|]. intros Hs. simpl. by apply insert_subseteq_l. Qed.

Lemma UpdateDockerInfo_chose id : always chose (UpdateDockerInfo id).
Proof.
  intros s. unfold UpdateDockerInfo. apply twp_bind, twp_get. case_decide; [|case_decide].
  - destruct (allContainers s !! id) as [path|] eqn:E; [|by apply twp_ret].
    by apply twp_modify, choose_one_chose.
  - destruct (list_find _ _) as [[i [id' path]]|] eqn:E; [|by apply twp_ret].
    apply list_find_Some in E as [E _]. apply twp_modify, choose_one_chose.
    apply elem_of_named_in_order, list_elem_of_lookup. by exists i.
  - by apply twp_ret.
Qed.

Ltac chose_run := always_run ltac:(idtac; first
  [apply UpdateDockerInfo_chose | apply always_modify; intros ?; by split]).

Lemma update_ids_chose l : always chose (update_ids l).
Proof. induction l as [|n l IH]; [apply always_ret, _|]. cbn [update_ids]. chose_run. apply IH. Qed.
Lemma ParseYamlRatio_chose n : always chose (ParseYamlRatio n).
Proof. unfold ParseYamlRatio. chose_run. Qed.
Lemma parse_ratio_chose n : always chose (parse_ratio n).
Proof. unfold parse_ratio. chose_run; apply ParseYamlRatio_chose. Qed.
Lemma parse_docker_id_chose n : always chose (parse_docker_id n).
Proof. unfold parse_docker_id, yaml_then. chose_run; apply update_ids_chose. Qed.
Lemma ParseParam_chose param : always chose (ParseParam yaml_load what param).
Proof.
  unfold ParseParam, yaml_then. chose_run; first [apply parse_ratio_chose | apply parse_docker_id_chose].
Qed.
Lemma ReadConfig_chose path : always chose (ReadConfig what path).
Proof.
  unfold ReadConfig, read_ratio, read_docker_id, yaml_then. chose_run; apply parse_ratio_chose.
Qed.
Lemma choose_all_chose : always chose choose_all.
Proof.
  unfold choose_all. intros s. apply twp_bind, twp_get. case_decide; [by apply twp_ret|].
  destruct (isDockerListSet s); [by apply twp_ret|]. apply twp_bind, twp_modify, twp_ret. by split.
Qed.

(** ** The kernel's files *)

Lemma to_string_number v : strtol (to_string v) = Some v.
Proof. rewrite <-(app_nil_r (to_string v)). by apply strtol_to_string. Qed.

Lemma quota_file_inj a b : quota_file a = quota_file b → a = b.
Proof.
  unfold quota_file. intros E%(f_equal bytes_of). rewrite !bytes_of_append in E.
  apply app_inv_tail in E. by rewrite <-(str_of_bytes_of a), E, str_of_bytes_of.
Qed.
Lemma quota_file_ratio a : quota_file a ≠ SCHED_SOFT_RUNTIME_RATIO_PATH.
Proof.
  unfold quota_file. intros E%(f_equal (λ p, list.last (bytes_of p))). cbv beta in E.
  rewrite bytes_of_append, list.last_app in E. vm_compute in E. discriminate.
Qed.

Lemma extract_int_number old text v :
  strtol text = Some v → in_range CInt v → extract_int old text = v.
Proof.
  intros E Hv. unfold extract_int. rewrite decide_False.
  - rewrite E. apply in_range_int_inv in Hv. lia.
  - intros E0. unfold strtol in E. by rewrite E0 in E.
Qed.

Definition only_sys (s s' : CoordBurst) : Prop := ∃ m, s' = set_cd_sys m s.
#[export] Instance only_sys_preorder : PreOrder only_sys.
Proof.
  split; [intros s; exists (cd_sys s); by destruct s|].
  intros s1 s2 s3 [m1 ->] [m2 ->]. by exists m2.
Qed.

(** The numbers that the object remembers are those of the machine [m0],
    which takes them back. *)
Definition ratio_kept (m0 : sys) (r : Z) : Prop :=
  knob m0 SCHED_SOFT_RUNTIME_RATIO_PATH = Some r ∧ MIN_RATIO ≤ r ≤ MAX_RATIO ∧
  knob_takes m0 SCHED_SOFT_RUNTIME_RATIO_PATH r = true.
Definition quota_kept (m0 : sys) (path : string) (q : Z) : Prop :=
  knob m0 (quota_file path) = Some q ∧ knob_takes m0 (quota_file path) q = true.
Record origins (m0 : sys) (s : CoordBurst) : Prop := {
  og_ratio : ratio_kept m0 (originRatio s);
  og_quota id path : allContainers s !! id = Some path →
    ∃ q, allContainerOriginSoftQuota s !! id = Some q ∧ quota_kept m0 path q
}.
Lemma origins_sys m0 s s' : only_sys s s' → origins m0 s → origins m0 s'.
Proof. intros [m ->] [A B]. by split. Qed.
Lemma origins_chose m0 s s' : chose s s' → origins m0 s → origins m0 s'.
Proof. intros [_ E1 E2 E3 _] [A B]. split; [by rewrite E1|]. intros id path. rewrite E2, E3. apply B. Qed.

Lemma SetRatio_twp m0 free v z s :
  MIN_RATIO ≤ v ≤ MAX_RATIO → knob m0 SCHED_SOFT_RUNTIME_RATIO_PATH = Some z → since free m0 (cd_sys s) →
  twp (SetRatio v) (λ r s', only_sys s s' ∧
    (r = EmptyString ↔ knob_takes m0 SCHED_SOFT_RUNTIME_RATIO_PATH v = true) ∧
    since (λ q, free q ∨ (q = SCHED_SOFT_RUNTIME_RATIO_PATH ∧
      knob_takes m0 SCHED_SOFT_RUNTIME_RATIO_PATH v = true)) m0 (cd_sys s') ∧
    (r = EmptyString → knob (cd_sys s') SCHED_SOFT_RUNTIME_RATIO_PATH = Some v)) s.
Proof.
  intros Hv Hz Hs. unfold SetRatio. rewrite decide_False by lia. apply twp_bind, twp_zoom.
  eapply twp_mono; [by apply (since_write free m0 _ _ _ v z (to_string_number v) Hz Hs)|].
  intros r m (-> & Hm & Hk). apply twp_ret. cbn [negb]. split; [by eexists|].
  destruct (knob_takes m0 _ v) eqn:Et; cbn [negb].
  - split; [done|]. split; [done|]. intros _. simpl. rewrite Hk. by rewrite decide_True.
  - split; [done|]. by split.
Qed.

Lemma SetRatio_back m0 free s :
  origins m0 s → since free m0 (cd_sys s) →
  twp (SetRatio (originRatio s)) (λ _ s', only_sys s s' ∧
    since (λ q, free q ∧ q ≠ SCHED_SOFT_RUNTIME_RATIO_PATH) m0 (cd_sys s')) s.
Proof.
  intros [(Hk & Hr & Htk) _] Hs. unfold SetRatio. rewrite decide_False by lia. apply twp_bind, twp_zoom.
  eapply twp_mono; [by apply (since_restore free m0 _ _ _ _ (to_string_number _) Hk Htk Hs)|].
  intros r m [-> Hm]. apply twp_ret. by split; [eexists|].
Qed.

Lemma SetSoftQuota_twp m0 free v z path s :
  knob m0 (quota_file path) = Some z → since free m0 (cd_sys s) →
  twp (SetSoftQuota v path) (λ ok s', only_sys s s' ∧ ok = knob_takes m0 (quota_file path) v ∧
    since (λ q, free q ∨ (q = quota_file path ∧ ok = true)) m0 (cd_sys s') ∧
    (∀ q, knob (cd_sys s') q = if decide (q = quota_file path ∧ ok = true) then Some v
                               else knob (cd_sys s) q)) s.
Proof.
  intros Hz Hs. unfold SetSoftQuota. apply twp_bind, twp_zoom.
  eapply twp_mono; [by apply (since_write free m0 _ _ _ v z (to_string_number v) Hz Hs)|].
  intros r m (-> & Hm & Hk). apply twp_ret. by split; [eexists|].
Qed.

Lemma restore_container_twp m0 free id path s :
  origins m0 s → allContainers s !! id = Some path → since free m0 (cd_sys s) →
  twp (restore_container id) (λ _ s', only_sys s s' ∧
    since (λ q, free q ∧ q ≠ quota_file path) m0 (cd_sys s')) s.
Proof.
  intros Ho Hp Hs. destruct (og_quota _ _ Ho id path Hp) as (q & Hq & Hk & Htk).
  unfold restore_container. apply twp_bind, twp_get. rewrite Hp, Hq. cbn [default]. cbv zeta.
  rewrite !insert_id by done. apply twp_bind, twp_modify, twp_bind. unfold SetSoftQuota.
  apply twp_bind, twp_zoom.
  eapply twp_mono; [by apply (since_restore free m0 _ _ _ _ (to_string_number _) Hk Htk Hs)|].
  intros r m [-> Hm]. apply twp_ret, twp_ret. split; [|done]. exists m. by destruct s.
Qed.

Definition quota_of_one (all : gmap string string) (ids : list string) (q : string) : Prop :=
  ∃ id path, id ∈ ids ∧ all !! id = Some path ∧ q = quota_file path.

Lemma restore_all_twp {A} (key : A → string) m0 free l s :
  origins m0 s → (∀ x, x ∈ l → is_Some (allContainers s !! key x)) → since free m0 (cd_sys s) →
  twp (for_each l (λ x, restore_container (key x))) (λ _ s', only_sys s s' ∧
    since (λ q, free q ∧ ¬ quota_of_one (allContainers s) (map key l) q) m0 (cd_sys s')) s.
Proof.
  intros Ho Hl Hs. apply (twp_for_each_idx l _ (λ l1 s', only_sys s s' ∧
    since (λ q, free q ∧ ¬ quota_of_one (allContainers s) (map key l1) q) m0 (cd_sys s'))).
  - split; [done|]. eapply since_weaken; [|exact Hs]. intros q Hq. split; [done|].
    intros (id & path & Hid & _). by apply elem_of_nil in Hid.
  - intros l1 x l2 s1 -> [Honly H1]. destruct (Hl x ltac:(set_solver)) as [path Hp].
    assert (allContainers s1 = allContainers s) as Eall by (by destruct Honly as [m ->]).
    eapply twp_mono; [eapply (restore_container_twp m0 _ _ path); [by eapply origins_sys|by rewrite Eall|exact H1]|].
    intros [] s2 [H2 H3]. split; [by etransitivity|]. eapply since_weaken; [|exact H3].
    intros q [[Hq Hn] Hne]. split; [done|]. rewrite map_app. intros (id & path' & Hid & Hp' & ->).
    apply elem_of_app in Hid as [Hid|Hid]; [apply Hn; by exists id, path'|].
    apply list_elem_of_singleton in Hid as ->. congruence.
Qed.

(** The files that the instance writes for the containers [ids]. *)
Definition managed (all : gmap string string) (ids : gset string) (q : string) : Prop :=
  q = SCHED_SOFT_RUNTIME_RATIO_PATH ∨
  ∃ id path, id ∈ ids ∧ all !! id = Some path ∧ q = quota_file path.

Lemma RollBack_twp m0 ids s :
  origins m0 s → ids ⊆ dom (allContainers s) → since (managed (allContainers s) ids) m0 (cd_sys s) →
  twp (RollBack ids) (λ _ s', only_sys s s' ∧ ∀ q, knob (cd_sys s') q = knob m0 q) s.
Proof.
  intros Ho Hids Hs. unfold RollBack. apply twp_bind, twp_get, twp_bind.
  eapply twp_mono; [by apply SetRatio_back|]. intros r s1 [Honly H1].
  assert (allContainers s1 = allContainers s) as Eall by (by destruct Honly as [m ->]).
  set (l := merge_sort by_bytes (elements ids)).
  assert (∀ id, id ∈ l ↔ id ∈ ids) as Hl
    by (intros id; unfold l; by rewrite merge_sort_Permutation, elem_of_elements).
  eapply twp_mono; [eapply (restore_all_twp (λ id, id) m0 _ l s1); [by eapply origins_sys| |exact H1]|].
  { intros id Hid%Hl%Hids. rewrite Eall. by apply elem_of_dom. }
  intros [] s2 [H2 H3]. split; [by etransitivity|]. intros q. apply (since_back _ _ _ _ H3).
  intros p [[[->|(id & path & Hid & Hp & ->)] Hne] Hn]; [done|]. apply Hn. exists id, path.
  by rewrite map_id, Hl, Eall.
Qed.

Lemma enable_all_twp m0 r l ids s (all := allContainers s) :
  origins m0 s → (∀ id path, (id, path) ∈ l → all !! id = Some path) → ids ⊆ dom all →
  since (managed all ids) m0 (cd_sys s) →
  knob (cd_sys s) SCHED_SOFT_RUNTIME_RATIO_PATH = Some r →
  (∀ id path, id ∈ ids → all !! id = Some path → knob (cd_sys s) (quota_file path) = Some 1) →
  twp (enable_all l ids) (λ res s', only_sys s s' ∧
    if decide (r_code res = Some OK) then
      since (managed all (ids ∪ list_to_set l.*1)) m0 (cd_sys s') ∧
      knob (cd_sys s') SCHED_SOFT_RUNTIME_RATIO_PATH = Some r ∧
      (∀ id path, id ∈ ids ∪ list_to_set l.*1 → all !! id = Some path →
        knob (cd_sys s') (quota_file path) = Some 1)
    else ∀ q, knob (cd_sys s') q = knob m0 q) s.
Proof.
  subst all. revert ids s. induction l as [|[id path] l IH]; intros ids s Ho Hl Hids Hs Hr H1.
  { apply twp_ret. split; [done|]. rewrite decide_True by done. simpl. by rewrite (right_id_L ∅ _ ids). }
  pose proof (Hl id path ltac:(set_solver)) as Hp.
  destruct (og_quota _ _ Ho id path Hp) as (z & _ & Hz & _). cbn [enable_all]. apply twp_bind.
  eapply twp_mono; [by eapply (SetSoftQuota_twp m0 _ 1 z path)|]. intros ok s1 (Honly & _ & Hs1 & Hk).
  assert (allContainers s1 = allContainers s) as Eall by (by destruct Honly as [m ->]).
  assert (origins m0 s1) as Ho1 by (by eapply origins_sys). destruct ok.
  - eapply twp_mono; [apply (IH ({[id]} ∪ ids) s1 Ho1); rewrite ?Eall|].
    + intros i p Hin. apply Hl. set_solver.
    + intros i. rewrite elem_of_union, elem_of_singleton. intros [->|Hi]; [by apply elem_of_dom|by apply Hids].
    + eapply since_weaken; [|exact Hs1]. intros q [[->|(i & p & Hi & Hpi & ->)]|[-> _]]; [by left|right..].
      * exists i, p. set_solver.
      * exists id, path. set_solver.
    + rewrite Hk, decide_False; [done|]. intros [E _]. symmetry in E. by apply quota_file_ratio in E.
    + intros i p Hi Hpi. rewrite Hk. destruct (decide _) as [_|Hne]; [done|].
      apply elem_of_union in Hi as [->%elem_of_singleton|Hi]; [|by apply (H1 i)].
      destruct Hne. split; [congruence|done].
    + intros res s2 [H2 H3]. split; [by etransitivity|]. rewrite Eall in H3. rewrite fmap_cons.
      simpl list_to_set. replace (ids ∪ ({[id]} ∪ list_to_set l.*1)) with (({[id]} ∪ ids) ∪ list_to_set l.*1)
        by set_solver. exact H3.
  - apply twp_bind. eapply twp_mono; [apply (RollBack_twp m0 ids s1 Ho1); rewrite Eall; [done|]|].
    + eapply since_weaken; [|exact Hs1]. intros q [Hq|[_ Hq]]; [done|discriminate].
    + intros [] s2 [H2 H3]. apply twp_ret. split; [by etransitivity|]. by rewrite decide_False.
Qed.

(** ** The start *)

Definition docker_ps : string := "docker ps -aq --no-trunc".

(** The kernel has a ratio and a quota of each container that is found, and
    takes them back. *)
Record ready (m : sys) : Prop := {
  rd_ratio : ∃ r, ratio_kept m r;
  rd_quota id : let path := FindDockerSubsystemCgroupPath m id "cpu,cpuacct" in
    path ≠ EmptyString → ∃ q, in_range CInt q ∧ quota_kept m path q
}.

Definition quotas_ok (m : sys) (s : CoordBurst) : Prop :=
  cd_sys s = m ∧ ∀ id path, allContainers s !! id = Some path →
    ∃ q, allContainerOriginSoftQuota s !! id = Some q ∧ quota_kept m path q.

Lemma GetSoftQuota_twp m path q s :
  cd_sys s = m → in_range CInt q → quota_kept m path q →
  twp (GetSoftQuota path) (λ v s', v = q ∧ s' = s) s.
Proof.
  intros Hm Hq [Hk _]. unfold GetSoftQuota. apply twp_bind, twp_get, twp_ret. split; [|done].
  apply knob_read in Hk as (t & Et & Hv). rewrite Hm, Et. by apply extract_int_number.
Qed.

Lemma add_docker_twp m id s :
  ready m → quotas_ok m s → twp (add_docker id) (λ _, quotas_ok m) s.
Proof.
  intros Hr [Hm Hs]. unfold add_docker. apply twp_bind, twp_get. rewrite Hm. cbv zeta.
  case_decide as Hp; [by apply twp_ret|]. destruct (rd_quota _ Hr id Hp) as (q & Hq & Hk).
  apply twp_bind. eapply twp_mono; [by apply (GetSoftQuota_twp m _ q)|]. intros v s1 [-> ->].
  apply twp_modify. split; [done|]. intros id' path. simpl.
  destruct (decide (id' = id)) as [->|Hne]; [rewrite !lookup_insert_eq|rewrite !lookup_insert_ne by done; apply Hs].
  intros [= <-]. by exists q.
Qed.

(** What the instance knows before it writes anything. *)
Record prepared (m : sys) (s : CoordBurst) : Prop := {
  pr_origins : origins m s;
  pr_sys : cd_sys s = m;
  pr_known : cd_containers s ⊆ allContainers s
}.
Lemma prepared_chose m s s' : chose s s' → prepared m s → prepared m s'.
Proof.
  intros Hc [A B C]. split; [by eapply origins_chose| |by apply Hc]. by rewrite (ch_sys _ _ Hc).
Qed.

Lemma Init_twp s (m := (sys_exec (cd_sys s) docker_ps).2) :
  ready m → is_Some (sys_read (cd_sys s) SCHED_SOFT_RUNTIME_RATIO_PATH) →
  twp CoordBurst_Init (λ ok s', ok = true ∧ prepared m s') s.
Proof.
  intros Hr Henv. unfold CoordBurst_Init, CheckEnv. apply twp_bind, twp_bind, twp_get, twp_ret.
  rewrite bool_decide_true by done. cbn [negb]. apply twp_bind. unfold GetAllDockers.
  apply twp_bind, twp_modify, twp_bind, twp_zoom. unfold GetAllDockerIDs, ExecCommand. apply twp_bind.
  unfold twp at 1. change (cd_sys (set_all ∅ ∅ s)) with (cd_sys s). fold docker_ps.
  destruct (sys_exec (cd_sys s) docker_ps) as [out m'] eqn:Ex. simpl in m. subst m. apply twp_ret.
  eapply twp_mono; [apply (twp_for_each _ _ (quotas_ok m'))|].
  - split; [done|]. intros id path E. discriminate E.
  - intros id s1 _ H1. by apply add_docker_twp.
  - intros [] s1 [Hm Hq]. destruct (rd_ratio _ Hr) as (r & Hk & Hrr & Htk). unfold GetRatio.
    apply twp_bind, twp_bind, twp_get, twp_ret, twp_bind, twp_modify, twp_ret.
    pose proof (knob_read _ _ _ Hk) as (t & Et & Hv). rewrite Hm, Et.
    rewrite (extract_int_number _ _ _ Hv) by (apply in_range_int; unfold MIN_RATIO, MAX_RATIO in *; lia).
    split; [done|]. split; [|done|by apply map_empty_subseteq]. split; [done|exact Hq].
Qed.

(** ** The theorems *)

(** The containers that were chosen have the quota 1, and the kernel has the
    ratio. *)
Record enabled (m : sys) (s : CoordBurst) : Prop := {
  en_known : cd_containers s ⊆ allContainers s;
  en_range : MIN_RATIO ≤ cd_ratio s ≤ MAX_RATIO;
  en_ratio : knob (cd_sys s) SCHED_SOFT_RUNTIME_RATIO_PATH = Some (cd_ratio s);
  en_quota id path : cd_containers s !! id = Some path → knob (cd_sys s) (quota_file path) = Some 1;
  en_other : since (managed (cd_containers s) (dom (cd_containers s))) m (cd_sys s)
}.
Definition enable_post (m : sys) (res : Result) (s : CoordBurst) : Prop :=
  origins m s ∧ if decide (r_code res = Some OK) then enabled m s else ∀ q, knob (cd_sys s) q = knob m q.

Lemma enable_failed_post m text s : prepared m s → enable_post m (coord_failed text) s.
Proof. intros [A B C]. split; [done|]. rewrite decide_False by done. by rewrite B. Qed.

Lemma enable_chosen_twp m s :
  prepared m s →
  twp (retMsg ← SetRatio (cd_ratio s);
       if decide (retMsg ≠ EmptyString) then mret (coord_failed retMsg) else
       s ← get; enable_all (named_in_order (cd_containers s)) ∅) (enable_post m) s.
Proof.
  intros Hp. pose proof Hp as [Ho Hm Hk]. destruct (decide (MIN_RATIO ≤ cd_ratio s ≤ MAX_RATIO)) as [Hr|Hr].
  2: { apply twp_bind. unfold SetRatio. rewrite decide_True by lia. apply twp_ret.
       rewrite decide_True by done. apply twp_ret. by apply enable_failed_post. }
  destruct (og_ratio _ _ Ho) as (Hz & _). apply twp_bind.
  eapply twp_mono; [apply (SetRatio_twp m (λ _, False) _ _ s Hr Hz); by rewrite Hm|].
  intros msg s1 (Honly & Hmsg & Hs1 & Hset). assert (origins m s1) as Ho1 by (by eapply origins_sys).
  destruct (decide (msg ≠ EmptyString)) as [Hne|Heq].
  { apply twp_ret. split; [done|]. rewrite decide_False by done. intros q. apply (since_back _ _ _ _ Hs1).
    intros p [[]|[_ E]]. apply Hmsg in E. done. }
  assert (msg = EmptyString) as -> by (by destruct (decide (msg = EmptyString))).
  destruct Honly as [m1 ->]. apply twp_bind, twp_get.
  eapply twp_mono; [apply (enable_all_twp m (cd_ratio s) _ ∅ _ Ho1)|].
  - intros id path Hin%elem_of_named_in_order. by eapply lookup_weaken.
  - done.
  - eapply since_weaken; [|exact Hs1]. intros q [[]|[-> _]]. by left.
  - by apply Hset.
  - intros id path Hid. set_solver.
  - intros res s2 [[m2 ->] Hres]. split; [by apply (origins_sys _ s); [exists m2; by destruct s|]|].
    case_decide; [|done]. destruct Hres as (H1 & H2 & H3). simpl in *.
    assert (∀ id, id ∈ (∅ : gset string) ∪ list_to_set (named_in_order (cd_containers s)).*1 ↔
      id ∈ dom (cd_containers s)) as Hdom.
    { intros id. rewrite elem_of_union, elem_of_list_to_set, list_elem_of_fmap, elem_of_dom. split.
      - intros [[]%elem_of_empty|([i p] & -> & Hin%elem_of_named_in_order)]. by eexists.
      - intros [p Hp']. right. exists (id, p). by rewrite elem_of_named_in_order. }
    split; simpl; [done|done|done| |].
    + intros id path Hid. apply (H3 id); [apply Hdom, elem_of_dom; by eexists|by eapply lookup_weaken].
    + eapply since_weaken; [|exact H1]. intros q [->|(id & path & Hid & Hpath & ->)]; [by left|].
      right. exists id, path. apply Hdom in Hid. split; [done|]. split; [|done].
      apply elem_of_dom in Hid as [p' Hp']. rewrite Hp'. by rewrite <-(lookup_weaken _ _ _ _ Hp' Hk).
Qed.

Lemma Enable_twp param s (m := (sys_exec (cd_sys s) docker_ps).2) :
  ready m → is_Some (sys_read (cd_sys s) SCHED_SOFT_RUNTIME_RATIO_PATH) →
  twp (CoordBurst_Enable yaml_load what param) (enable_post m) s.
Proof.
  intros Hr Henv. unfold CoordBurst_Enable. apply twp_bind.
  eapply twp_mono; [by apply Init_twp|]. fold m. intros ok s1 [-> H1]. cbn [negb]. apply twp_bind.
  eapply twp_mono; [apply ParseParam_chose|]. intros msg s2 Hc. cbv beta in Hc.
  apply (prepared_chose _ _ _ Hc) in H1. case_decide; [by apply twp_ret, enable_failed_post|].
  apply twp_bind, twp_get, twp_bind.
  eapply (twp_mono _ (λ _ s', chose s2 s')); [|].
  { destruct (negb _ || negb _); [apply ReadConfig_chose|by apply twp_ret]. }
  intros msg2 s3 Hc2. apply (prepared_chose _ _ _ Hc2) in H1.
  case_decide; [by apply twp_ret, enable_failed_post|]. apply twp_bind.
  eapply twp_mono; [apply choose_all_chose|]. intros chosen s4 Hc3. cbv beta in Hc3.
  apply (prepared_chose _ _ _ Hc3) in H1. destruct chosen; [|by apply twp_ret, enable_failed_post].
  cbn [negb]. apply twp_bind, twp_get. by apply enable_chosen_twp.
Qed.


End enable.

(** ** On a small machine *)

(** Text files and directories; docker lists one container. *)
Record TreeBox := mkTreeBox { tb_files : FileBox; tb_dirs : gmap string (list string); tb_docker : list byte }.
Definition tree_machine : Machine := {|
  sys := TreeBox;
  sys_read b p := tb_files b !! p;
  sys_write b p t := let '(o, k, f) := file_write (tb_files b) p t in (o, k, mkTreeBox f (tb_dirs b) (tb_docker b));
  sys_exists b p := bool_decide (is_Some (tb_files b !! p));
  sys_dir b p := tb_dirs b !! p;
  sys_exec b c := (Some (tb_docker b), b);
  sys_system b c := (0, b);
  sys_yaml b p := if decide (is_Some (tb_files b !! p)) then Some (NMap []) else None;
  sys_emit b _ _ := b;
  sys_cpus _ := 4
|}.
#[local] Existing Instances tree_machine hash_ref.
#[local] Instance tree_dirs : DirTree := {|
  sys_isdir b p := bool_decide (is_Some (tb_dirs (b : TreeBox) !! p));
  sys_link b p := None
|}.
#[local] Instance tree_knobs : Knobs tree_machine.
Proof.
  refine {| knob := λ b : @sys tree_machine, file_knob (tb_files b); knob_takes := λ _ _ _, true |}.
  - intros b p v E. unfold file_knob in E. simpl. apply bind_Some in E. done.
  - intros b p v z t Et Ez. destruct (file_knob_same (tb_files b) p v z t Et Ez) as [E1 E2].
    simpl. rewrite E1. by eexists.
  - intros b p t q Hq. pose proof (file_knob_other (tb_files b) p t q Hq) as E. simpl.
    by destruct (file_write (tb_files b) p t) as [[o k] f].
  - done.
Defined.
#[local] Instance decimal_yaml : YamlConversions := {| yaml_int s := strtol (bytes_of s); yaml_null := None |}.

Definition long_id : string := "0123456789abcdef0123456789abcdef0123456789abcdef0123456789abcdef".
Definition cpu_mount : string := "/sys/fs/cgroup/cpu,cpuacct".
Definition docker_dir : string := cpu_mount +:+ "/docker".
Definition container_dir : string := docker_dir +:+ "/" +:+ long_id.
Definition coord_box : TreeBox := mkTreeBox
  (<["/proc/mounts" := bytes_of "cgroup /sys/fs/cgroup/cpu,cpuacct cgroup rw 0 0"]>
  (<[SCHED_SOFT_RUNTIME_RATIO_PATH := bytes_of "12"]>
  (<[DOCKER_COORDINATION_BURST_CONFIG_PATH := []]>
  (<[quota_file docker_dir := bytes_of "0"]> (<[quota_file container_dir := bytes_of "0"]> ∅)))))
  (<[cpu_mount := ["."; ".."; "docker"]]> (<[docker_dir := [long_id]]> ∅))
  (bytes_of long_id ++ [newline]).
Definition coord_start : CoordBurst := CoordBurst0 (coord_box : @sys tree_machine).
Definition coord_yaml (_ : list byte) : option Node := Some (NMap [("ratio", NScalar "15")]%string).
Definition coord_enable : outcome (Result * CoordBurst) := CoordBurst_Enable coord_yaml "bad" "ratio:15" coord_start.

Lemma below_coord depth t p :
  t ∈ [docker_dir; cpu_mount] → below (coord_box : @sys tree_machine) depth t p → p = docker_dir ∨ p = container_dir.
Proof.
  intros Ht H. revert Ht. induction H as [depth base entry Hin|depth base entry p Hin Hdir _ IH]; intros Ht.
  - apply elem_of_cons in Ht as [->| ->%list_elem_of_singleton].
    + change (ListFiles _ docker_dir) with [long_id] in Hin. apply list_elem_of_singleton in Hin as ->. by right.
    + change (ListFiles _ cpu_mount) with ["docker"%string] in Hin. apply list_elem_of_singleton in Hin as ->. by left.
  - apply IH. apply elem_of_cons in Ht as [->| ->%list_elem_of_singleton].
    + change (ListFiles _ docker_dir) with [long_id] in Hin. apply list_elem_of_singleton in Hin as ->.
      vm_compute in Hdir. discriminate Hdir.
    + change (ListFiles _ cpu_mount) with ["docker"%string] in Hin. apply list_elem_of_singleton in Hin as ->.
      change (real_path _ cpu_mount "docker") with docker_dir. set_solver.
Qed.

Lemma coord_ready : ready (coord_box : @sys tree_machine).
Proof.
  split.
  - exists 12. split; [vm_compute; reflexivity|]. by unfold MIN_RATIO, MAX_RATIO.
  - intros id path Hp. exists 0. split; [by apply in_range_int|]. split; [|done].
    assert (String.length id = LONG_DOCKER_ID_LENGTH) as Hid.
    { subst path. unfold FindDockerSubsystemCgroupPath in Hp. by case_decide as E; [|destruct (decide (String.length id = LONG_DOCKER_ID_LENGTH))]. }
    destruct (cgroup_path_found (coord_box : @sys tree_machine) id "cpu,cpuacct" Hid) as [Hfound _].
    destruct (Hfound Hp) as [(base & t & Hbase & Ht & Hb) _]. fold path in Hb.
    change (GetCgroupMounts _ _) with [cpu_mount] in Hbase. apply list_elem_of_singleton in Hbase as ->.
    assert (t ∈ [docker_dir; cpu_mount]) as Ht'.
    { destruct Ht as [->|(pp & Hpp & -> & Hdir)]; [by apply list_elem_of_further, list_elem_of_here|].
      unfold priorityPaths in Hpp. rewrite !elem_of_cons in Hpp.
      destruct Hpp as [->|[->|[->|[->|[]%elem_of_nil]]]]; [apply list_elem_of_here|by vm_compute in Hdir..]. }
    by destruct (below_coord _ _ _ Ht' Hb) as [->| ->].
Qed.

Lemma cgroup_path_found_witness :
  String.length long_id = LONG_DOCKER_ID_LENGTH ∧
  FindDockerSubsystemCgroupPath (coord_box : @sys tree_machine) long_id "cpu,cpuacct" = container_dir ∧
  contains long_id container_dir = true.
Proof.
  assert (FindDockerSubsystemCgroupPath (coord_box : @sys tree_machine) long_id "cpu,cpuacct" = container_dir)
    as E by (vm_compute; reflexivity).
  split; [reflexivity|]. split; [exact E|].
  destruct (cgroup_path_found (coord_box : @sys tree_machine) long_id "cpu,cpuacct" eq_refl) as [Hfound _].
  rewrite E in Hfound. apply Hfound. discriminate.
Defined.


