(* ===== verification/BinaryElf.v ===== *)
(** * The policy that a compiler leaves in a program
      (src/plugin/tune/system/binary/binary_tune.cpp: ParseBinaryElf)

    The sections of an ELF file are searched for one whose name marks the
    program; its four bytes are the policy for the program's threads. *)

From Stdlib Require Import ZArith Lia Strings.Byte.
From stdpp Require Import base list strings gmap numbers.
From S2P Require Import Prelude Bytes StdString Utils Config Machine.

(** ** Reading the file *)

(** [lseek] and [read]: what comes into the buffer, unless the position is
    negative. *)
Definition from (o : Z) (l : list byte) : list byte := drop (Z.to_nat (Z.min o (Z.of_nat (length l)))) l.
Definition upto (n : Z) (l : list byte) : list byte := take (Z.to_nat (Z.min n (Z.of_nat (length l)))) l.
Definition readFromElf (file : list byte) (offset buffLen : Z) : list byte * bool :=
  if decide (wrap CLong offset < 0) then ([], false) else
  let buff := upto buffLen (from (wrap CLong offset) file) in
  (buff, bool_decide (Z.of_nat (length buff) = buffLen)).

Definition field (t : ctype) (at_ : nat) (l : list byte) : Z := of_bytes t (take (sizeof t) (drop at_ l)).

(** [Elf64_Ehdr] and [Elf64_Shdr]: the members that the code reads. *)
Definition EHDR_SIZE : Z := 64.
Definition SHDR_SIZE : Z := 64.
Definition ELFMAG : list byte := [x7f; x45; x4c; x46].
Definition e_shoff (h : list byte) : Z := field CUlong 40 h.
Definition e_shentsize (h : list byte) : Z := field CUshort 58 h.
Definition e_shnum (h : list byte) : Z := field CUshort 60 h.
Definition e_shstrndx (h : list byte) : Z := field CUshort 62 h.
Definition sh_name (h : list byte) : Z := field CUint 0 h.
Definition sh_offset (h : list byte) : Z := field CUlong 24 h.
Definition sh_size (h : list byte) : Z := field CUlong 32 h.

Definition GCC_MARK : list byte := bytes_of ".GCC4OE_oeAware".
Definition LLVM_MARK : list byte := bytes_of ".LLVM4OE_oeAware".

(** [strcmp(buf, target) == 0]; nothing when it reads behind the buffer. *)
Fixpoint c_str_is (target buf : list byte) : option bool :=
  match buf with
  | [] => None
  | b :: buf =>
    match target with
    | [] => Some (bool_decide (b = x00))
    | t :: target => if decide (b = t) then c_str_is target buf else Some false
    end
  end.
Definition is_mark (name : list byte) : option bool :=
  gcc ← c_str_is GCC_MARK name; if (gcc : bool) then Some true else c_str_is LLVM_MARK name.

(** A read that comes short leaves the first bytes behind. *)
Definition no_policy : list byte := [xff; xff; xff; xff].
Definition policy_bytes (read : list byte * bool) : Z :=
  of_bytes CInt (read.1 ++ drop (length read.1) no_policy).

Fixpoint scan_sections (file shstrtab : list byte) (shoff shentsize i : Z) (count : nat) : outcome Z :=
  match count with
  | O => Ret (-1)
  | S count =>
    let '(shdr, ok) := readFromElf file (wrap CUlong (shoff + i * shentsize)) SHDR_SIZE in
    if negb ok then Ret (-1) else
    match is_mark (from (sh_name shdr) shstrtab) with
    | None => Undef
    | Some true =>
      if decide (sh_size shdr = Z.of_nat (sizeof CInt))
      then Ret (policy_bytes (readFromElf file (sh_offset shdr) (sh_size shdr))) else Ret (-1)
    | Some false => scan_sections file shstrtab shoff shentsize (i + 1) count
    end
  end.

Definition parse_elf (file : list byte) : outcome Z :=
  let ehdr := upto EHDR_SIZE file in
  if decide (Z.of_nat (length ehdr) ≠ EHDR_SIZE) then Ret (-1) else
  if decide (take 4 ehdr ≠ ELFMAG) then Ret (-1) else
  let shoff := e_shoff ehdr in
  let shentsize := e_shentsize ehdr in
  let '(shstrtabShdr, ok) :=
    readFromElf file (wrap CUlong (shoff + e_shstrndx ehdr * shentsize)) SHDR_SIZE in
  if negb ok then Ret (-1) else
  let '(shstrtab, ok) := readFromElf file (sh_offset shstrtabShdr) (sh_size shstrtabShdr) in
  if negb ok then Ret (-1) else
  scan_sections file shstrtab shoff shentsize 0 (Z.to_nat (e_shnum ehdr)).

(** The name behind the last slash or backslash. *)
Definition separator (b : byte) : bool := bool_decide (b ∈ [x2f; x5c]).
Fixpoint base_name (l : list byte) : option (list byte) :=
  match l with
  | [] => None
  | b :: l =>
    match base_name l with
    | Some name => Some name
    | None => if separator b then Some l else None
    end
  end.

Section parse.
Context `{MA : Machine}.

(** A name of the configuration goes before the file. *)
Definition ParseBinaryElf (m : sys) (configBinary : gmap string Z) (filePath : string) : outcome Z :=
  match base_name (bytes_of filePath) ≫= (λ name, configBinary !! str_of name) with
  | Some policy => Ret policy
  | None => match sys_read m filePath with None => Ret (-1) | Some file => parse_elf file end
  end.
End parse.

(** ** Files that are well formed *)

(** A section as its header describes it. *)
Record ElfSection := mkElfSection { sec_name : list byte; sec_offset : Z; sec_size : Z }.

(** The bytes of a file that lie in it. *)
Definition slice (f : list byte) (o n : Z) (l : list byte) : Prop :=
  0 ≤ o ∧ 0 ≤ n ∧ o + n ≤ Z.of_nat (length f) ∧ l = take (Z.to_nat n) (drop (Z.to_nat o) f).

(** The header [h] of the file's table with the number [i]. *)
Definition section_header (f h0 : list byte) (i : Z) (h : list byte) : Prop :=
  slice f (e_shoff h0 + i * e_shentsize h0) SHDR_SIZE h.

(** The file [f] starts with the header [h0] and has the sections [secs],
    whose names are in the table [strtab]; those that mark the program lie in
    the file. *)
Record elf_file (f h0 strtab : list byte) (secs : list ElfSection) : Prop := {
  ef_head : slice f 0 EHDR_SIZE h0;
  ef_magic : take 4 h0 = ELFMAG;
  ef_small : Z.of_nat (length f) < 2 ^ 63;
  ef_count : e_shnum h0 = Z.of_nat (length secs);
  ef_strtab : ∃ h, section_header f h0 (e_shstrndx h0) h ∧ slice f (sh_offset h) (sh_size h) strtab;
  ef_section i sec : secs !! i = Some sec →
    ∃ h, section_header f h0 (Z.of_nat i) h ∧ sh_offset h = sec_offset sec ∧ sh_size h = sec_size sec ∧
      x00 ∉ sec_name sec ∧ sh_name h ≤ Z.of_nat (length strtab) ∧
      ∃ rest, from (sh_name h) strtab = sec_name sec ++ x00 :: rest;
  ef_marked sec : sec ∈ secs → sec_name sec ∈ [GCC_MARK; LLVM_MARK] →
    sec_size sec = Z.of_nat (sizeof CInt) → ∃ l, slice f (sec_offset sec) (sec_size sec) l
}.

(** The policy that the sections hold: that of the first one that marks the
    program. *)
Definition policy_of (f : list byte) (secs : list ElfSection) : Z :=
  match list_find (λ sec, sec_name sec ∈ [GCC_MARK; LLVM_MARK]) secs with
  | Some (_, sec) =>
    if decide (sec_size sec = Z.of_nat (sizeof CInt))
    then of_bytes CInt (take 4 (drop (Z.to_nat (sec_offset sec)) f)) else -1
  | None => -1
  end.

(** ** Reading what is there *)

Lemma wrap_long_small z : 0 ≤ z < 2 ^ 63 → wrap CLong z = z.
Proof. intros Hz. apply wrap_id. change (- 2 ^ 63 ≤ z < 2 ^ 63). lia. Qed.

Lemma readFromElf_slice f o n l :
  Z.of_nat (length f) < 2 ^ 63 → slice f o n l → readFromElf f o n = (l, true).
Proof.
  intros Hf (Ho & Hn & Hb & ->). unfold readFromElf, from, upto. rewrite wrap_long_small by lia.
  rewrite decide_False by lia. rewrite (Z.min_l o) by lia. rewrite length_drop.
  rewrite (Z.min_l n) by lia. f_equal. apply bool_decide_eq_true.
  rewrite length_take, length_drop. lia.
Qed.

Lemma slice_length f o n l : slice f o n l → Z.of_nat (length l) = n.
Proof. intros (Ho & Hn & Hb & ->). rewrite length_take, length_drop. lia. Qed.

Lemma c_str_is_spec target name rest :
  x00 ∉ name → x00 ∉ target →
  c_str_is target (name ++ x00 :: rest) = Some (bool_decide (name = target)).
Proof.
  revert target. induction name as [|b name IH]; intros target Hn Ht.
  - destruct target as [|t target]; [done|]. simpl. by rewrite decide_False by set_solver.
  - destruct target as [|t target]; simpl.
    { by rewrite bool_decide_false by set_solver. }
    destruct (decide (b = t)) as [->|Hne].
    + rewrite IH by set_solver. f_equal. apply bool_decide_ext. naive_solver.
    + by rewrite bool_decide_false by naive_solver.
Qed.

Lemma gcc_no_nul : x00 ∉ GCC_MARK.
Proof. refine (bool_decide_unpack _ _). vm_compute. exact I. Qed.
Lemma llvm_no_nul : x00 ∉ LLVM_MARK.
Proof. refine (bool_decide_unpack _ _). vm_compute. exact I. Qed.

Lemma is_mark_spec name rest :
  x00 ∉ name → is_mark (name ++ x00 :: rest) = Some (bool_decide (name ∈ [GCC_MARK; LLVM_MARK])).
Proof.
  intros Hn. unfold is_mark.
  rewrite !c_str_is_spec by first [done | apply gcc_no_nul | apply llvm_no_nul].
  cbn [mbind option_bind]. case_bool_decide as E1.
  - by rewrite bool_decide_true by (rewrite E1; apply list_elem_of_here).
  - f_equal. apply bool_decide_ext. rewrite !elem_of_cons. split; [auto|]. intros [?|[?|[]%elem_of_nil]]; done.
Qed.

(** ** The search *)

Section search.
Context (f h0 strtab : list byte) (secs : list ElfSection).
Context (Hf : elf_file f h0 strtab secs).

Lemma ushort_range at_ l : 0 ≤ field CUshort at_ l < 65536.
Proof. apply (of_bytes_range CUshort). Qed.
Lemma ulong_range at_ l : 0 ≤ field CUlong at_ l < 2 ^ 64.
Proof. apply (of_bytes_range CUlong). Qed.

(** The position of a header that lies in the file does not wrap. *)
Lemma header_read i h :
  section_header f h0 i h →
  readFromElf f (wrap CUlong (e_shoff h0 + i * e_shentsize h0)) SHDR_SIZE = (h, true).
Proof.
  intros Hh. pose proof Hh as (Ho & _ & Hb & _). pose proof (ef_small _ _ _ _ Hf) as Hs.
  unfold SHDR_SIZE in *. rewrite (wrap_id CUlong); [by apply readFromElf_slice|].
  apply in_range_ulong. change (2 ^ 63) with 9223372036854775808 in Hs. lia.
Qed.

Lemma scan_policy secs1 secs2 :
  secs = secs1 ++ secs2 →
  scan_sections f strtab (e_shoff h0) (e_shentsize h0) (Z.of_nat (length secs1)) (length secs2) =
  Ret (policy_of f secs2).
Proof.
  revert secs1. induction secs2 as [|sec secs2 IH]; intros secs1 Hsecs; [done|]. cbn [length scan_sections].
  assert (secs !! length secs1 = Some sec) as Hi by (rewrite Hsecs; by apply list_lookup_middle).
  destruct (ef_section _ _ _ _ Hf _ _ Hi) as (h & Hh & Eo & Es & Hn & _ & rest & Ename).
  rewrite (header_read _ _ Hh). cbn [negb]. rewrite Ename, (is_mark_spec _ _ Hn).
  unfold policy_of. cbn [list_find]. rewrite Es, Eo. case_bool_decide as Hm.
  - rewrite (decide_True (P := sec_name sec ∈ _)) by done. case_decide as E4; [|done].
    destruct (ef_marked _ _ _ _ Hf sec) as [l Hl]; [set_solver|done..|].
    rewrite (readFromElf_slice _ _ _ _ (ef_small _ _ _ _ Hf) Hl). pose proof (slice_length _ _ _ _ Hl) as Hlen.
    destruct Hl as (_ & _ & _ & ->). unfold policy_bytes. cbn [fst]. rewrite E4 in Hlen |- *.
    change (Z.to_nat (Z.of_nat (sizeof CInt))) with 4%nat in *.
    assert (length (take 4 (drop (Z.to_nat (sec_offset sec)) f)) = 4%nat) as -> by (simpl in Hlen |- *; lia).
    by rewrite app_nil_r.
  - rewrite (decide_False (P := sec_name sec ∈ _)) by done.
    replace (Z.of_nat (length secs1) + 1) with (Z.of_nat (length (secs1 ++ [sec])))
      by (rewrite length_app; simpl; lia).
    rewrite IH by (by rewrite <-app_assoc). unfold policy_of.
    by destruct (list_find _ secs2) as [[??]|].
Qed.
End search.

(** C38. The policy of a program is found: in every well formed ELF file,
    however its parts are laid out, ParseBinaryElf finds the policy of the first
    section that one of the two compilers has marked, and -1 when there is no
    such section or it does not hold four bytes; a name of the configuration
    goes before the file. *)
Theorem marked_policy `{MA : Machine} (m : sys) (config : gmap string Z) (path : string)
    (f h0 strtab : list byte) (secs : list ElfSection)
    (Hread : sys_read m path = Some f) (Hf : elf_file f h0 strtab secs) :
  ParseBinaryElf m config path =
  Ret match base_name (bytes_of path) ≫= (λ name, config !! str_of name) with
      | Some policy => policy
      | None => policy_of f secs
      end.
Proof.
  unfold ParseBinaryElf. destruct (_ ≫= _); [done|]. rewrite Hread. unfold parse_elf.
  pose proof (ef_small _ _ _ _ Hf) as Hs. destruct (ef_head _ _ _ _ Hf) as (_ & _ & Hlen & Eh).
  assert (upto EHDR_SIZE f = h0) as ->.
  { rewrite Eh. unfold upto. by rewrite Z.min_l by lia. }
  rewrite (decide_False (P := _ ≠ EHDR_SIZE)).
  2: { intros H. apply H. exact (slice_length _ _ _ _ (ef_head _ _ _ _ Hf)). }
  rewrite (decide_False (P := take 4 h0 ≠ _)) by (intros H; apply H, (ef_magic _ _ _ _ Hf)).
  destruct (ef_strtab _ _ _ _ Hf) as (h & Hh & Htab). rewrite (header_read _ _ _ _ Hf _ _ Hh). cbn [negb].
  rewrite (readFromElf_slice _ _ _ _ Hs Htab). cbn [negb]. rewrite (ef_count _ _ _ _ Hf), Nat2Z.id.
  by apply (scan_policy f h0 strtab secs Hf [] secs).
Qed.
