(* ===== verification/BinaryTune.v ===== *)
(** * Threads of marked programs (src/plugin/tune/system/binary/binary_tune.cpp, .h)

    The instance binds the threads of the programs that a compiler or the
    configuration has marked to physical cores of their container's node. *)

From Stdlib Require Import ZArith Lia Strings.Byte.
From stdpp Require Import base list strings gmap numbers sorting.
From S2P Require Import Prelude Bytes StdString Utils DataTypes DataRegister Registry Daemon Config Machine.
From S2P Require Import DirWalk BinaryElf.

(** The kernel's masks of threads: [None] is an error, and [true] a success. *)
Class Sched `{Machine} := {
  sched_getaffinity : sys → Z → option (gset Z);
  sched_setaffinity : sys → Z → gset Z → bool * sys
}.

Definition OE_ENV_INFO : string := "env_info_collector".
Definition OE_THREAD_COLLECTOR : string := "thread_collector".
Definition OE_DOCKER_COLLECTOR : string := "docker_collector".
Definition ENV_DATA_READY : Z := 1.

(** ** Masks and maps *)

Definition CPU_SETSIZE : Z := 1024.
Definition CPU_SET (cpu : Z) (mask : gset Z) : gset Z :=
  if decide (0 ≤ cpu < CPU_SETSIZE) then {[cpu]} ∪ mask else mask.

(** The order of a [std::map] of numbers. *)
Definition key_le {A} (a b : Z * A) : Prop := a.1 ≤ b.1.
#[global] Instance key_le_dec {A} (a b : Z * A) : Decision (key_le a b).
Proof. unfold key_le. apply _. Defined.
Definition by_key {A} (m : gmap Z A) : list (Z * A) := merge_sort key_le (map_to_list m).

(** Arithmetic on [int] and [int64_t] that must not overflow. *)
Definition int_val (z : Z) : option Z := if decide (in_range CInt z) then Some z else None.
Definition long_val (z : Z) : option Z := if decide (in_range CLong z) then Some z else None.
Definition int_quot (a b : Z) : option Z := if decide (b = 0) then None else int_val (Z.quot a b).
Definition long_quot (a b : Z) : option Z := if decide (b = 0) then None else long_val (Z.quot a b).

(** ** The instance *)

Record InternalContainer := mkInternalContainer {
  ic_id : string; ic_cfsPeriodUs : Z; ic_cfsQuotaUs : Z; ic_cfsBurstUs : Z; ic_cpus : string;
  ic_tasks : list Z
}.

Inductive BinaryPayload :=
| BtStatic (l : list EnvStaticInfo) | BtRealtime (l : list EnvRealTimeInfo)
| BtDockers (l : list InternalContainer) | BtThreads (l : list ThreadInfo).
Record BinaryDataList := mkBinaryDataList { bl_topicName : string; bl_payload : BinaryPayload }.
Inductive BinaryPost := BinarySubscribe (t : Topic) | BinaryUnsubscribe (t : Topic).

Record BinaryTune `{Machine} := mkBinaryTune {
  bt_sys : sys;
  bt_envInit : bool;
  bt_cpu2Numa : list Z;
  bt_numaNum : Z;
  bt_cpuCoreNum : Z;
  bt_cpuNumOnline : Z;
  bt_isCpuAllOnline : bool;
  bt_containers : list InternalContainer;
  bt_threads : gmap Z string;
  bt_tuneThreads : gmap Z (gset Z);
  bt_configBinary : gmap string Z;
  bt_phyNumaMask : list (gset Z);
  bt_hasLoggedThreads : gset Z;
  bt_posts : list BinaryPost
}.

Section setters.
Context `{MA : Machine}.
Definition set_bt_sys (v : sys) (s : BinaryTune) : BinaryTune :=
  mkBinaryTune _ v (bt_envInit s) (bt_cpu2Numa s) (bt_numaNum s) (bt_cpuCoreNum s) (bt_cpuNumOnline s)
    (bt_isCpuAllOnline s) (bt_containers s) (bt_threads s) (bt_tuneThreads s) (bt_configBinary s)
    (bt_phyNumaMask s) (bt_hasLoggedThreads s) (bt_posts s).
Definition set_bt_env (numaNum cpuCoreNum : Z) (cpu2Numa : list Z) (masks : list (gset Z)) (s : BinaryTune) :
    BinaryTune :=
  mkBinaryTune _ (bt_sys s) true cpu2Numa numaNum cpuCoreNum (bt_cpuNumOnline s) (bt_isCpuAllOnline s)
    (bt_containers s) (bt_threads s) (bt_tuneThreads s) (bt_configBinary s) masks (bt_hasLoggedThreads s)
    (bt_posts s).
Definition set_bt_online (v : Z) (s : BinaryTune) : BinaryTune :=
  mkBinaryTune _ (bt_sys s) (bt_envInit s) (bt_cpu2Numa s) (bt_numaNum s) (bt_cpuCoreNum s) v
    (bt_isCpuAllOnline s) (bt_containers s) (bt_threads s) (bt_tuneThreads s) (bt_configBinary s)
    (bt_phyNumaMask s) (bt_hasLoggedThreads s) (bt_posts s).
Definition set_bt_allOnline (v : bool) (s : BinaryTune) : BinaryTune :=
  mkBinaryTune _ (bt_sys s) (bt_envInit s) (bt_cpu2Numa s) (bt_numaNum s) (bt_cpuCoreNum s) (bt_cpuNumOnline s)
    v (bt_containers s) (bt_threads s) (bt_tuneThreads s) (bt_configBinary s) (bt_phyNumaMask s)
    (bt_hasLoggedThreads s) (bt_posts s).
Definition set_bt_containers (v : list InternalContainer) (s : BinaryTune) : BinaryTune :=
  mkBinaryTune _ (bt_sys s) (bt_envInit s) (bt_cpu2Numa s) (bt_numaNum s) (bt_cpuCoreNum s) (bt_cpuNumOnline s)
    (bt_isCpuAllOnline s) v (bt_threads s) (bt_tuneThreads s) (bt_configBinary s) (bt_phyNumaMask s)
    (bt_hasLoggedThreads s) (bt_posts s).
Definition set_bt_threads (v : gmap Z string) (s : BinaryTune) : BinaryTune :=
  mkBinaryTune _ (bt_sys s) (bt_envInit s) (bt_cpu2Numa s) (bt_numaNum s) (bt_cpuCoreNum s) (bt_cpuNumOnline s)
    (bt_isCpuAllOnline s) (bt_containers s) v (bt_tuneThreads s) (bt_configBinary s) (bt_phyNumaMask s)
    (bt_hasLoggedThreads s) (bt_posts s).
Definition set_bt_tuned (v : gmap Z (gset Z)) (logged : gset Z) (s : BinaryTune) : BinaryTune :=
  mkBinaryTune _ (bt_sys s) (bt_envInit s) (bt_cpu2Numa s) (bt_numaNum s) (bt_cpuCoreNum s) (bt_cpuNumOnline s)
    (bt_isCpuAllOnline s) (bt_containers s) (bt_threads s) v (bt_configBinary s) (bt_phyNumaMask s) logged
    (bt_posts s).
Definition set_bt_config (v : gmap string Z) (s : BinaryTune) : BinaryTune :=
  mkBinaryTune _ (bt_sys s) (bt_envInit s) (bt_cpu2Numa s) (bt_numaNum s) (bt_cpuCoreNum s) (bt_cpuNumOnline s)
    (bt_isCpuAllOnline s) (bt_containers s) (bt_threads s) (bt_tuneThreads s) v (bt_phyNumaMask s)
    (bt_hasLoggedThreads s) (bt_posts s).
Definition bt_post (p : BinaryPost) : St BinaryTune unit := modify (λ s,
  mkBinaryTune _ (bt_sys s) (bt_envInit s) (bt_cpu2Numa s) (bt_numaNum s) (bt_cpuCoreNum s) (bt_cpuNumOnline s)
    (bt_isCpuAllOnline s) (bt_containers s) (bt_threads s) (bt_tuneThreads s) (bt_configBinary s)
    (bt_phyNumaMask s) (bt_hasLoggedThreads s) (bt_posts s ++ [p])).
Definition tuned_only (v : gmap Z (gset Z)) (s : BinaryTune) : BinaryTune := set_bt_tuned v (bt_hasLoggedThreads s) s.
(** The object after its constructor. *)
Definition BinaryTune0 (m : sys) : BinaryTune :=
  mkBinaryTune _ m false [] 1 1 1 true [] ∅ ∅ ∅ [] ∅ [].
End setters.

Section binary_tune.
Context `{DT : DirTree} `{SC : !Sched} `{YC : YamlConversions}.

(** ** Configuration and life *)

Definition binary_config : string := "/etc/oeAware/plugin/binary_tune.yaml".
Definition smt_path : string := "/sys/devices/system/cpu/smt/active".
Definition IsSmtEnable (m : sys) : bool :=
  match sys_read m smt_path with
  | None => false
  | Some text => bool_decide (first_word text = bytes_of "1")
  end.

(** A value that is no number ends the reading. *)
Fixpoint read_items (l : list (string * Node)) (config : gmap string Z) : bool * gmap string Z :=
  match l with
  | [] => (true, config)
  | (name, value) :: l =>
    match as_int value with
    | None => (false, config)
    | Some policy => read_items l (<[name := policy]> config)
    end
  end.
(** The exceptions of [LoadFile] are not caught. *)
Definition BinaryTune_ReadConfig : St BinaryTune bool :=
  s ← get;
  if decide (sys_read (bt_sys s) binary_config = None) then mret false else
  match sys_yaml (bt_sys s) binary_config with
  | None => throw YamlException
  | Some (NMap l) =>
    let '(ok, config) := read_items l (bt_configBinary s) in
    modify (set_bt_config config) ;; mret ok
  | Some _ => mret false
  end.

Definition binary_topics : list Topic :=
  [mkTopic OE_ENV_INFO "static" EmptyString; mkTopic OE_ENV_INFO "realtime" EmptyString;
   mkTopic OE_THREAD_COLLECTOR OE_THREAD_COLLECTOR EmptyString;
   mkTopic OE_DOCKER_COLLECTOR OE_DOCKER_COLLECTOR EmptyString].
Definition BinaryTune_Enable : St BinaryTune Result :=
  s ← get;
  if negb (IsSmtEnable (bt_sys s)) then mret (mkResult (Some FAILED) EmptyString) else
  modify (set_bt_config ∅) ;;
  ok ← BinaryTune_ReadConfig;
  (if negb ok then modify (set_bt_config ∅) else mret tt) ;;
  for_each binary_topics (λ t, bt_post (BinarySubscribe t)) ;;
  mret (mkResult (Some OK) EmptyString).

Definition restore_thread (it : Z * gset Z) : St BinaryTune unit :=
  modify (λ s, set_bt_sys (sched_setaffinity (bt_sys s) it.1 it.2).2 s).
Definition BinaryTune_Disable : St BinaryTune unit :=
  for_each binary_topics (λ t, bt_post (BinaryUnsubscribe t)) ;;
  s ← get;
  for_each (by_key (bt_tuneThreads s)) restore_thread ;;
  modify (set_bt_tuned ∅ ∅).

(** ** Data *)

(** The even processors are the physical cores. *)
Fixpoint add_cpus (cpus : list (Z * Z)) (masks : list (gset Z)) : option (list (gset Z)) :=
  match cpus with
  | [] => Some masks
  | (i, node) :: cpus =>
    if decide (i `mod` 2 = 0) then
      mask ← at_index masks node;
      add_cpus cpus (<[Z.to_nat node := CPU_SET i mask]> masks)
    else add_cpus cpus masks
  end.
Definition update_static (data : EnvStaticInfo) : St BinaryTune unit :=
  if decide (es_cpuNumConfig data < 0 ∨ es_numaNum data < 0) then throw LengthError else
  nodes ← deref (array (es_cpuNumConfig data) (es_cpu2Node data));
  masks ← deref (add_cpus (zip (seqZ 0 (es_cpuNumConfig data)) nodes)
                   (repeat ∅ (Z.to_nat (es_numaNum data))));
  modify (set_bt_env (es_numaNum data) (es_cpuNumConfig data) nodes masks) ;;
  bt_post (BinaryUnsubscribe (mkTopic OE_ENV_INFO "static" EmptyString)).
Definition update_realtime (data : EnvRealTimeInfo) : St BinaryTune unit := modify (λ s,
  set_bt_online (if decide (er_dataReady data = ENV_DATA_READY) then er_cpuNumOnline data
                 else bt_cpuCoreNum s) s).
Definition add_thread (t : ThreadInfo) : St BinaryTune unit :=
  name ← std_string (ti_name t);
  modify (λ s, set_bt_threads (<[ti_tid t := name]> (bt_threads s)) s).

(** A list whose data are not of the topic's type is undefined. *)
Definition BinaryTune_UpdateData (d : BinaryDataList) : St BinaryTune unit :=
  let topicName := bl_topicName d in
  s ← get;
  if decide (topicName = "static"%string ∧ bt_envInit s = false) then
    match bl_payload d with BtStatic l => data ← deref (head l); update_static data | _ => undef end
  else if negb (bt_envInit s) then mret tt
  else if decide (topicName = "realtime"%string) then
    match bl_payload d with BtRealtime l => data ← deref (head l); update_realtime data | _ => undef end
  else if decide (topicName = OE_DOCKER_COLLECTOR) then
    match bl_payload d with BtDockers l => modify (set_bt_containers l) | _ => undef end
  else if decide (topicName = OE_THREAD_COLLECTOR) then
    match bl_payload d with
    | BtThreads l => modify (set_bt_threads ∅) ;; for_each l add_thread
    | _ => undef
    end
  else mret tt.

(** ** Binding *)

(** The mask of a thread that cannot be asked for is not initialised. *)
Definition SetAffinity (tid : Z) (newMask : gset Z) : St BinaryTune unit :=
  s ← get;
  currentMask ← deref (sched_getaffinity (bt_sys s) tid);
  if decide (newMask = currentMask) then mret tt else
  let '(ok, m) := sched_setaffinity (bt_sys s) tid newMask in
  modify (set_bt_sys m) ;;
  if negb ok then mret tt else
  modify (λ s, tuned_only (match bt_tuneThreads s !! tid with
                           | Some _ => bt_tuneThreads s
                           | None => <[tid := currentMask]> (bt_tuneThreads s)
                           end) s).

Definition BindAllCores (threads : list Z) : St BinaryTune unit :=
  s ← get;
  let newMask := foldl (λ mask i, CPU_SET i mask) ∅ (seqZ 0 (bt_cpuCoreNum s)) in
  for_each threads (λ t, SetAffinity t newMask).

(** What the search finds: the quotas of the nodes' containers, the threads
    for all the cores of a node, and those for some. *)
Record Plan := mkPlan {
  dockerCpuOnNuma : gmap Z Z;
  threadWaitTuneByNuma : gmap Z (list Z);
  threadWaitTuneByCore : gmap Z (list (Z * list Z))
}.
Definition Plan0 : Plan := mkPlan ∅ ∅ ∅.

(** The container's node, when all its processors are of one. *)
Fixpoint same_numa (cpu2Numa : list Z) (initNuma : Z) (cpus : list Z) : option bool :=
  match cpus with
  | [] => Some true
  | cpu :: cpus =>
    node ← at_index cpu2Numa cpu;
    if decide (node = initNuma) then same_numa cpu2Numa initNuma cpus else Some false
  end.
Definition full_numa (s : BinaryTune) (cpus : list Z) : option (Z * bool) :=
  first ← head cpus;
  initNuma ← at_index (bt_cpu2Numa s) first;
  same ← same_numa (bt_cpu2Numa s) initNuma cpus;
  perNode ← int_quot (bt_cpuCoreNum s) (bt_numaNum s);
  Some (if (same : bool) then initNuma else -1,
        same && bool_decide (Z.of_nat (length cpus) = wrap CUlong perNode)).

(** What is collected of a container's tasks. *)
Record Tasks := mkTasks {
  tk_policy : gmap string Z; tk_all : list Z; tk_core : list Z; tk_cross : list Z
}.

Definition exe_path (tid : Z) : string := ("/proc/" +:+ str_of (to_string tid) +:+ "/exe")%string.
(** The policy of a program is looked up once for each name of a thread. *)
Definition task_policy (s : BinaryTune) (tid : Z) (name : string) (policies : gmap string Z) :
    outcome (option (gmap string Z)) :=
  match policies !! name with
  | Some _ => Ret (Some policies)
  | None =>
    match sys_link (bt_sys s) (exe_path tid) with
    | None => Ret None
    | Some link =>
      match ParseBinaryElf (bt_sys s) (bt_configBinary s) (str_of (until_nul (take 1023 (bytes_of link)))) with
      | Ret policy => Ret (Some (<[name := policy]> policies))
      | Throw e => Throw e
      | Undef => Undef
      end
    end
  end.
Definition log_thread (tid : Z) : St BinaryTune unit :=
  modify (λ s, set_bt_tuned (bt_tuneThreads s) ({[tid]} ∪ bt_hasLoggedThreads s) s).
Definition unlog_thread (tid : Z) : St BinaryTune unit :=
  modify (λ s, set_bt_tuned (bt_tuneThreads s) (bt_hasLoggedThreads s ∖ {[tid]}) s).
Definition find_task (isFullNuma : bool) (tid : Z) (k : Tasks) : St BinaryTune Tasks :=
  s ← get;
  match bt_threads s !! tid with
  | None => mret k
  | Some name =>
    found ← lift (task_policy s tid name (tk_policy k));
    match (found : option (gmap string Z)) with
    | None => mret k
    | Some policies =>
      let policy := default 0 (policies !! name) in
      let k := mkTasks policies (tk_all k) (tk_core k) (tk_cross k) in
      if negb isFullNuma then
        if decide (policy = 1 ∨ policy = 2) then
          log_thread tid ;; mret (mkTasks policies (tk_all k) (tk_core k) (tk_cross k ++ [tid]))
        else mret k
      else if decide (policy = 1) then
        unlog_thread tid ;; mret (mkTasks policies (tk_all k ++ [tid]) (tk_core k) (tk_cross k))
      else if decide (policy = 2) then
        unlog_thread tid ;; mret (mkTasks policies (tk_all k) (tk_core k ++ [tid]) (tk_cross k))
      else mret k
    end
  end.
Fixpoint find_tasks (isFullNuma : bool) (tasks : list Z) (k : Tasks) : St BinaryTune Tasks :=
  match tasks with
  | [] => mret k
  | tid :: tasks => k ← find_task isFullNuma tid k; find_tasks isFullNuma tasks k
  end.

Definition append {A} (node : Z) (l : list A) (m : gmap Z (list A)) : gmap Z (list A) :=
  if decide (l = []) then m else <[node := default [] (m !! node) ++ l]> m.
Definition find_container (c : InternalContainer) (p : Plan) : St BinaryTune Plan :=
  cpus ← lift (ParseRange (bytes_of (ic_cpus c)));
  s ← get;
  '(initNuma, isFullNuma) ← deref (full_numa s cpus);
  k ← find_tasks isFullNuma (ic_tasks c) (mkTasks ∅ [] [] []);
  if (isFullNuma : bool) then
    quota ← deref (long_quot (ic_cfsQuotaUs c) (ic_cfsPeriodUs c));
    sum ← deref (long_val (default 0 (dockerCpuOnNuma p !! initNuma) + quota));
    mret (mkPlan (<[initNuma := sum]> (dockerCpuOnNuma p))
      (append initNuma (tk_all k) (threadWaitTuneByNuma p))
      (if decide (tk_core k = []) then threadWaitTuneByCore p
       else append initNuma [(wrap CInt quota, tk_core k)] (threadWaitTuneByCore p)))
  else
    (if decide (tk_cross k = []) then mret tt else BindAllCores (tk_cross k)) ;; mret p.
Fixpoint find_containers (l : list InternalContainer) (p : Plan) : St BinaryTune Plan :=
  match l with
  | [] => mret p
  | c :: l => p ← find_container c p; find_containers l p
  end.
(** What is no task of a container any more is forgotten. *)
Definition FindSpecialBin : St BinaryTune Plan :=
  s ← get;
  p ← find_containers (bt_containers s) Plan0;
  let containerThreads : gset Z := list_to_set (flat_map ic_tasks (bt_containers s)) in
  modify (λ s, set_bt_tuned (filter (λ it, it.1 ∈ containerThreads) (bt_tuneThreads s))
                 (bt_hasLoggedThreads s ∩ containerThreads) s) ;;
  mret p.

(** Every second processor up to [endIndex]: where the search stops, and how
    many are missing. *)
Fixpoint take_cores (n : nat) (core endIndex : Z) (mask : gset Z) : Z * Z * gset Z :=
  match n with
  | O => (core, 0, mask)
  | S n' =>
    if decide (core < endIndex) then take_cores n' (core + 2) endIndex (CPU_SET core mask)
    else (core, Z.of_nat n, mask)
  end.
Fixpoint bind_items (core endIndex : Z) (items : list (Z * list Z)) : St BinaryTune unit :=
  match items with
  | [] => mret tt
  | (bindCoreNum, threads) :: items =>
    let '(core, missing, newMask) := take_cores (Z.to_nat bindCoreNum) core endIndex ∅ in
    (if decide (0 < missing) then mret tt else for_each threads (λ t, SetAffinity t newMask)) ;;
    bind_items core endIndex items
  end.
Definition BindCpuCore (numaNode : Z) (p : Plan) : St BinaryTune unit :=
  s ← get;
  perNode ← deref (int_quot (bt_cpuCoreNum s) (bt_numaNum s));
  coreIndex ← deref (int_val (numaNode * perNode));
  endIndex ← deref (int_val ((numaNode + 1) * perNode));
  bind_items coreIndex endIndex (default [] (threadWaitTuneByCore p !! numaNode)).

Definition BindNuma (numaNode : Z) (p : Plan) : St BinaryTune unit :=
  for_each (default [] (threadWaitTuneByNuma p !! numaNode)) (λ t,
    s ← get; mask ← deref (at_index (bt_phyNumaMask s) numaNode); SetAffinity t mask).

(** More quota than half of the node's processors: everything is taken back. *)
Definition tune_node (p : Plan) (it : Z * Z) : St BinaryTune unit :=
  s ← get;
  perNode ← deref (int_quot (bt_cpuCoreNum s) (bt_numaNum s));
  if decide (Z.quot perNode 2 < it.2) then
    for_each (by_key (bt_tuneThreads s)) restore_thread ;; modify (tuned_only ∅)
  else BindCpuCore it.1 p ;; BindNuma it.1 p.
Definition BinaryTune_Run : St BinaryTune unit :=
  s ← get;
  if decide (bt_cpuNumOnline s ≠ bt_cpuCoreNum s) then modify (set_bt_allOnline false) else
  modify (set_bt_allOnline true) ;;
  p ← FindSpecialBin;
  for_each (by_key (dockerCpuOnNuma p)) (tune_node p).
End binary_tune.
