(* ===== verification/BinaryTuneTheorems.v ===== *)
(** * Threads of marked programs: bound apart, and given back *)

From Stdlib Require Import ZArith Lia Strings.Byte.
From stdpp Require Import base list strings gmap numbers sorting relations.
From S2P Require Import Prelude Bytes StdString Utils DataTypes DataRegister Registry Daemon Config Machine.
From S2P Require Import World Steps DirWalk BinaryElf BinaryTune.

(** What the plugin relies on: a mask that is allowed is taken as it is, a
    refused one changes nothing, and no thread's mask changes another's. *)
Class SchedLaws `{SC : Sched} := {
  allowed : sys → Z → gset Z → Prop;
  set_allowed m t k : allowed m t k →
    (sched_setaffinity m t k).1 = true ∧ sched_getaffinity (sched_setaffinity m t k).2 t = Some k;
  set_refused m t k : (sched_setaffinity m t k).1 = false →
    sched_getaffinity (sched_setaffinity m t k).2 t = sched_getaffinity m t;
  set_other m t k u : u ≠ t → sched_getaffinity (sched_setaffinity m t k).2 u = sched_getaffinity m u;
  allowed_kept m t k u j : allowed (sched_setaffinity m t k).2 u j ↔ allowed m u j
}.

Section order.
Lemma elem_of_by_key {A} (m : gmap Z A) k a : (k, a) ∈ by_key m ↔ m !! k = Some a.
Proof. unfold by_key. by rewrite merge_sort_Permutation, elem_of_map_to_list. Qed.
Lemma by_key_NoDup {A} (m : gmap Z A) : NoDup (by_key m).*1.
Proof. unfold by_key. rewrite merge_sort_Permutation. apply NoDup_fst_map_to_list. Qed.
End order.

Section theorems.
Context `{MA : Machine} `{DT : !DirTree} `{SC : !Sched} `{SL : !SchedLaws} `{YC : YamlConversions}.

(** ** Giving masks back *)

Definition mask_of (s : BinaryTune) (t : Z) : option (gset Z) := sched_getaffinity (bt_sys s) t.

Definition only_sys (s s' : BinaryTune) : Prop := ∃ m, s' = set_bt_sys m s.
#[export] Instance only_sys_preorder : PreOrder only_sys.
Proof.
  split; [intros s; exists (bt_sys s); by destruct s|]. intros s1 s2 s3 [m1 ->] [m2 ->]. by exists m2.
Qed.

(** After the masks of [l] were given back. *)
Record gave_back (l : list (Z * gset Z)) (s s' : BinaryTune) : Prop := {
  gb_sys : only_sys s s';
  gb_allowed t k : allowed (bt_sys s') t k ↔ allowed (bt_sys s) t k;
  gb_other t : t ∉ l.*1 → mask_of s' t = mask_of s t;
  gb_back t k : (t, k) ∈ l → allowed (bt_sys s) t k → mask_of s' t = Some k
}.

Lemma masks_back_twp l s :
  NoDup l.*1 → twp (for_each l restore_thread) (λ _ s', gave_back l s s') s.
Proof.
  revert s. induction l as [|[u j] l IH]; intros s Hnd.
  { apply twp_ret. split; [done|done|done|]. intros t k []%elem_of_nil. }
  apply list.NoDup_cons in Hnd as [Hu Hnd]. cbn [for_each]. apply twp_bind, twp_modify. simpl.
  set (s1 := set_bt_sys _ s). eapply twp_mono; [by apply IH|]. intros [] s2 [H1 H2 H3 H4].
  assert (∀ t k, allowed (bt_sys s1) t k ↔ allowed (bt_sys s) t k) as Ha by (intros; apply allowed_kept).
  split.
  - transitivity s1; [by eexists|done].
  - intros t k. by rewrite H2.
  - intros t Ht. rewrite fmap_cons in Ht. apply not_elem_of_cons in Ht as [Hne Ht].
    rewrite H3 by done. by apply set_other.
  - intros t k [[= -> ->]|Hin]%elem_of_cons Hk.
    + rewrite H3 by done. by apply set_allowed.
    + apply H4; [done|]. by apply Ha.
Qed.

(** The thread [t] has, or will get back, its mask [k]. *)
Definition held (t : Z) (k : gset Z) (s : BinaryTune) : Prop :=
  allowed (bt_sys s) t k ∧
  match bt_tuneThreads s !! t with Some k' => k' = k | None => mask_of s t = Some k end.

Definition keeps (t : Z) (k : gset Z) (s s' : BinaryTune) : Prop :=
  bt_containers s' = bt_containers s ∧ (held t k s → held t k s').
#[export] Instance keeps_preorder t k : PreOrder (keeps t k).
Proof. split; [by intros s|]. intros s1 s2 s3 [E1 H1] [E2 H2]. split; [congruence|auto]. Qed.

Lemma keeps_same t k s s' :
  bt_sys s' = bt_sys s → bt_tuneThreads s' = bt_tuneThreads s → bt_containers s' = bt_containers s →
  keeps t k s s'.
Proof. intros E1 E2 E3. split; [done|]. unfold held, mask_of. by rewrite E1, E2. Qed.

Lemma SetAffinity_keeps t k u mask : returns (keeps t k) (SetAffinity u mask).
Proof.
  intros s a s' E. unfold SetAffinity in E. rewrite run_bind in E. simpl in E. rewrite run_bind in E.
  destruct (sched_getaffinity (bt_sys s) u) as [cur|] eqn:Ecur; [|done]. simpl in E.
  case_decide; [by injection E as _ <-|].
  destruct (sched_setaffinity (bt_sys s) u mask) as [ok m] eqn:Eset.
  pose proof (allowed_kept (bt_sys s) u mask) as Hak. pose proof (set_other (bt_sys s) u mask) as Hso.
  pose proof (set_refused (bt_sys s) u mask) as Hsr. rewrite Eset in Hak, Hso, Hsr. simpl in *.
  rewrite run_bind in E. simpl in E.
  destruct ok; cbn [negb] in E; injection E as _ <-; (split; [done|]); unfold held, mask_of; simpl;
    intros [Ha Hm]; (split; [by apply Hak|]); destruct (decide (u = t)) as [->|Hne].
  - destruct (bt_tuneThreads s !! t) as [k'|] eqn:Et; [by rewrite Et|]. rewrite lookup_insert_eq. congruence.
  - assert (bt_tuneThreads s !! t = (match bt_tuneThreads s !! u with
      | Some _ => bt_tuneThreads s | None => <[u := cur]> (bt_tuneThreads s) end) !! t) as <-.
    { destruct (bt_tuneThreads s !! u); [done|]. by rewrite lookup_insert_ne. }
    destruct (bt_tuneThreads s !! t); [done|]. by rewrite Hso.
  - destruct (bt_tuneThreads s !! t); [done|]. by rewrite Hsr.
  - destruct (bt_tuneThreads s !! t); [done|]. by rewrite Hso.
Qed.

Lemma returns_lift {S A} (R : relation S) `{!PreOrder R} (o : outcome A) : returns R (lift o).
Proof. intros s a s' E. unfold lift in E. destruct o; [by injection E as _ <-|done..]. Qed.

Ltac keeps_run := returns_run ltac:(idtac; first
  [apply SetAffinity_keeps | apply returns_lift; apply _ | apply returns_modify; intros ?; by apply keeps_same]).

Lemma BindAllCores_keeps t k threads : returns (keeps t k) (BindAllCores threads).
Proof. unfold BindAllCores. keeps_run. Qed.
Lemma find_task_keeps t k full tid acc : returns (keeps t k) (find_task full tid acc).
Proof. unfold find_task, log_thread, unlog_thread. keeps_run. Qed.
Lemma find_tasks_keeps t k full tasks acc : returns (keeps t k) (find_tasks full tasks acc).
Proof.
  revert acc. induction tasks as [|tid tasks IH]; intros acc; [apply returns_ret, _|].
  cbn [find_tasks]. apply returns_bind; [apply _|apply find_task_keeps|done].
Qed.
Lemma find_container_keeps t k c p : returns (keeps t k) (find_container c p).
Proof. unfold find_container. keeps_run; first [apply find_tasks_keeps | apply BindAllCores_keeps]. Qed.
Lemma find_containers_keeps t k l p : returns (keeps t k) (find_containers l p).
Proof.
  revert p. induction l as [|c l IH]; intros p; [apply returns_ret, _|].
  cbn [find_containers]. apply returns_bind; [apply _|apply find_container_keeps|done].
Qed.
Lemma bind_items_keeps t k core last items : returns (keeps t k) (bind_items core last items).
Proof.
  revert core. induction items as [|[n threads] items IH]; intros core; [apply returns_ret, _|].
  cbn [bind_items]. destruct (take_cores _ _ _ _) as [[core' missing] mask]. keeps_run. apply IH.
Qed.

Lemma restore_all_keeps t k s :
  twp (for_each (by_key (bt_tuneThreads s)) restore_thread ;; modify (tuned_only ∅)) (λ _, keeps t k s) s.
Proof.
  apply twp_bind. eapply twp_mono; [apply masks_back_twp, by_key_NoDup|].
  intros [] s1 [[m ->] Ha Ho Hb]. apply twp_modify. split; [done|]. intros [Hk Hm]. split.
  { by apply Ha. }
  simpl. rewrite lookup_empty. change (mask_of (set_bt_sys m s) t = Some k).
  destruct (bt_tuneThreads s !! t) as [k'|] eqn:Et.
  - subst k'. apply Hb; [by apply elem_of_by_key|done].
  - rewrite Ho; [done|]. intros ([u j] & -> & Hin%elem_of_by_key)%list_elem_of_fmap. simpl in Et. congruence.
Qed.

Lemma BindCpuCore_keeps t k node p : returns (keeps t k) (BindCpuCore node p).
Proof. unfold BindCpuCore. keeps_run. apply bind_items_keeps. Qed.
Lemma BindNuma_keeps t k node p : returns (keeps t k) (BindNuma node p).
Proof. unfold BindNuma. keeps_run. Qed.

Lemma ends_returns {S A} (R : relation S) (c : St S A) s : returns R c → ends c (λ _ s', R s s') s.
Proof. intros H. unfold ends. destruct (c s) as [[a s']| |] eqn:E; [by eapply H|done..]. Qed.
Lemma returns_ends {S A} (R : relation S) (c : St S A) : (∀ s, ends c (λ _ s', R s s') s) → returns R c.
Proof. intros H s a s' E. specialize (H s). unfold ends in H. by rewrite E in H. Qed.

Lemma tune_node_keeps t k p it : returns (keeps t k) (tune_node p it).
Proof.
  apply returns_ends. intros s. unfold tune_node. apply ends_then, ends_get, ends_then, ends_deref.
  intros perNode _. case_decide; [by apply ends_twp, restore_all_keeps|].
  apply ends_returns, returns_bind; [apply _|apply BindCpuCore_keeps|]. intros _. apply BindNuma_keeps.
Qed.

(** The threads of the containers. *)
Definition task_of (s : BinaryTune) (t : Z) : Prop := t ∈ flat_map ic_tasks (bt_containers s).

Lemma FindSpecialBin_held t k s :
  task_of s t → held t k s → ends FindSpecialBin (λ _ s', held t k s') s.
Proof.
  intros Ht Hh. unfold FindSpecialBin. apply ends_then, ends_get, ends_then.
  eapply ends_weaken; [apply ends_returns, (find_containers_keeps t k)|]. intros p s1 [_ H1].
  apply ends_then, ends_modify, ends_value. destruct (H1 Hh) as [Ha Hm]. split; [done|]. simpl.
  change (mask_of (set_bt_tuned _ _ s1) t) with (mask_of s1 t).
  destruct (bt_tuneThreads s1 !! t) as [k'|] eqn:Et.
  - rewrite (map_lookup_filter_Some_2 _ _ t k'); [done|done|]. simpl. by apply elem_of_list_to_set.
  - rewrite map_lookup_filter_None_2; [done|by left].
Qed.

Lemma Run_held t k s : task_of s t → held t k s → ends BinaryTune_Run (λ _ s', held t k s') s.
Proof.
  intros Ht Hh. unfold BinaryTune_Run. apply ends_then, ends_get.
  case_decide; [by apply ends_modify|]. apply ends_then, ends_modify, ends_then.
  eapply ends_weaken; [by apply (FindSpecialBin_held t k)|]. intros p s1 H1. cbv beta in H1.
  eapply ends_weaken; [apply ends_returns, (returns_for_each (keeps t k))|].
  - intros it. apply tune_node_keeps.
  - intros [] s2 [_ H2]. by apply H2.
Qed.

Lemma UpdateData_held t k d s : held t k s → ends (BinaryTune_UpdateData d) (λ _ s', held t k s') s.
Proof.
  intros Hh. assert (returns (λ s s', bt_sys s' = bt_sys s ∧ bt_tuneThreads s' = bt_tuneThreads s)
    (BinaryTune_UpdateData d)) as H.
  { assert (PreOrder (λ s s' : BinaryTune, bt_sys s' = bt_sys s ∧ bt_tuneThreads s' = bt_tuneThreads s)).
    { split; [by intros s0|]. intros s1 s2 s3 [E1 E2] [E3 E4]. split; congruence. }
    unfold BinaryTune_UpdateData, update_static, update_realtime, add_thread, std_string, bt_post.
    returns_run ltac:(idtac; apply returns_modify; done). }
  eapply ends_weaken; [apply (ends_returns _ _ _ H)|]. intros a s' [E1 E2].
  unfold held, mask_of in *. by rewrite E1, E2.
Qed.

(** What happens between [Enable] and [Disable], as long as the thread [t]
    is a task of a container whenever the plugin runs and nobody else changes
    its mask. *)
Inductive binary_step (t : Z) : BinaryTune → BinaryTune → Prop :=
| step_update d u s s' : BinaryTune_UpdateData d s = Ret (u, s') → binary_step t s s'
| step_run u s s' : task_of s t → BinaryTune_Run s = Ret (u, s') → binary_step t s s'
| step_other m s :
    sched_getaffinity m t = mask_of s t → (∀ k, allowed m t k ↔ allowed (bt_sys s) t k) →
    binary_step t s (set_bt_sys m s).

Lemma binary_step_held t k s s' : binary_step t s s' → held t k s → held t k s'.
Proof.
  intros Hstep Hh. destruct Hstep as [d u s s' E|u s s' Ht E|m s Em Ha].
  - pose proof (UpdateData_held t k d s Hh) as H. unfold ends in H. by rewrite E in H.
  - pose proof (Run_held t k s Ht Hh) as H. unfold ends in H. by rewrite E in H.
  - destruct Hh as [Hk Hm]. split; [by apply Ha|]. simpl. unfold mask_of in *. simpl. by rewrite Em.
Qed.

(** C37. A thread gets its mask back: when the plugin has not touched the
    thread, which has a mask that the kernel takes, then whatever data come and
    however often the plugin runs while the thread is a task of a container,
    Disable returns and leaves the thread with that mask. *)
Theorem affinity_given_back (t : Z) (k : gset Z) (s s1 : BinaryTune)
    (Hmask : mask_of s t = Some k) (Hallowed : allowed (bt_sys s) t k)
    (Hnew : bt_tuneThreads s !! t = None) (Hsteps : rtc (binary_step t) s s1) :
  ∃ s2, BinaryTune_Disable s1 = Ret (tt, s2) ∧ mask_of s2 t = Some k.
Proof.
  assert (held t k s1) as Hh.
  { assert (held t k s) as H0 by (unfold held; by rewrite Hnew). clear Hmask Hallowed Hnew.
    induction Hsteps as [|s s' s1 Hstep _ IH]; [done|]. by apply IH, (binary_step_held t k s). }
  assert (twp BinaryTune_Disable (λ _ s2, mask_of s2 t = Some k) s1) as H.
  2: { apply twp_alt in H as ([] & s2 & E & H). by exists s2. }
  unfold BinaryTune_Disable. cbn [binary_topics for_each]. unfold bt_post.
  apply twp_bind, twp_bind, twp_modify, twp_bind, twp_modify, twp_bind, twp_modify, twp_bind, twp_modify, twp_ret.
  apply twp_bind, twp_get. cbn [bt_tuneThreads]. apply twp_bind. eapply twp_mono.
  { apply masks_back_twp, by_key_NoDup. }
  intros [] s2 [_ _ Ho Hb]. apply twp_modify. change (mask_of s2 t = Some k). destruct Hh as [Ha Hm].
  destruct (bt_tuneThreads s1 !! t) as [k'|] eqn:Et.
  - subst k'. apply Hb; [by apply elem_of_by_key|done].
  - rewrite Ho; [done|]. intros ([u j] & -> & Hin%elem_of_by_key)%list_elem_of_fmap. simpl in Et. congruence.
Qed.

(** ** Binding *)

(** [n] cores from [core] on, every second processor. *)
Definition cores_from (core : Z) (n : Z) : gset Z := list_to_set (map (λ i, core + 2 * i) (seqZ 0 n)).

Lemma elem_of_cores core n cpu : cpu ∈ cores_from core n ↔ ∃ i, 0 ≤ i < n ∧ cpu = core + 2 * i.
Proof.
  unfold cores_from. rewrite elem_of_list_to_set, list_elem_of_In, in_map_iff. f_equiv. intros i.
  rewrite <-list_elem_of_In, elem_of_seqZ. intuition lia.
Qed.
Lemma cores_succ core n :
  0 ≤ n → cores_from core (n + 1) = {[core]} ∪ cores_from (core + 2) n.
Proof.
  intros Hn. apply set_eq. intros cpu. rewrite elem_of_union, elem_of_singleton, !elem_of_cores. split.
  - intros (i & Hi & ->). destruct (decide (i = 0)) as [->|]; [left; lia|]. right. exists (i - 1). lia.
  - intros [->|(i & Hi & ->)]; [exists 0; lia|]. exists (i + 1). lia.
Qed.
Lemma cores_size core n : 0 ≤ n → size (cores_from core n) = Z.to_nat n.
Proof.
  intros Hn. unfold cores_from. rewrite size_list_to_set.
  - by rewrite length_map, length_seqZ.
  - apply (NoDup_fmap_2_strong (λ i, core + 2 * i)); [intros; lia|apply NoDup_seqZ].
Qed.

Lemma take_cores_enough n core last mask :
  0 ≤ core → last ≤ CPU_SETSIZE → core + 2 * Z.of_nat n ≤ last + 1 →
  take_cores n core last mask = (core + 2 * Z.of_nat n, 0, cores_from core (Z.of_nat n) ∪ mask).
Proof.
  revert core mask. induction n as [|n IH]; intros core mask Hc Hl Hn.
  { cbn [take_cores]. change (cores_from core (Z.of_nat 0)) with (∅ : gset Z). rewrite (left_id_L ∅ union mask).
    by rewrite Z.add_0_r. }
  cbn [take_cores]. rewrite decide_True by lia. rewrite IH by lia. rewrite Nat2Z.inj_succ.
  unfold CPU_SET. rewrite decide_True by (unfold CPU_SETSIZE in *; lia).
  rewrite <-Z.add_1_r, cores_succ by lia.
  replace (core + 2 + 2 * Z.of_nat n) with (core + 2 * (Z.of_nat n + 1)) by lia. f_equal. set_solver.
Qed.

(** After the threads of [l] got their masks. *)
Definition same_env (s s' : BinaryTune) : Prop :=
  bt_cpu2Numa s' = bt_cpu2Numa s ∧ bt_numaNum s' = bt_numaNum s ∧ bt_cpuCoreNum s' = bt_cpuCoreNum s ∧
  bt_phyNumaMask s' = bt_phyNumaMask s ∧ bt_containers s' = bt_containers s.
#[export] Instance same_env_preorder : PreOrder same_env.
Proof.
  split; [by intros s|]. intros s1 s2 s3 (A1 & A2 & A3 & A4 & A5) (B1 & B2 & B3 & B4 & B5).
  unfold same_env. by rewrite B1, B2, B3, B4, B5.
Qed.
Record bound (l : list (Z * gset Z)) (s s' : BinaryTune) : Prop := {
  bd_env : same_env s s';
  bd_allowed t k : allowed (bt_sys s') t k ↔ allowed (bt_sys s) t k;
  bd_at t k : (t, k) ∈ l → mask_of s' t = Some k;
  bd_other t : t ∉ l.*1 → mask_of s' t = mask_of s t
}.
Lemma bound_nil s : bound [] s s.
Proof. split; [done|done| |done]. intros t k []%elem_of_nil. Qed.
Lemma bound_app l1 l2 s s1 s2 :
  NoDup (l1 ++ l2).*1 → bound l1 s s1 → bound l2 s1 s2 → bound (l1 ++ l2) s s2.
Proof.
  rewrite fmap_app, list.NoDup_app. intros (_ & Hd & _) [A1 A2 A3 A4] [B1 B2 B3 B4]. split.
  - by etransitivity.
  - intros t k. by rewrite B2.
  - intros t k [Hin|Hin]%elem_of_app; [|by apply B3]. rewrite B4; [by apply A3|]. apply Hd.
    apply list_elem_of_fmap. by exists (t, k).
  - intros t Ht. rewrite fmap_app, not_elem_of_app in Ht. destruct Ht as [H1 H2]. by rewrite B4, A4.
Qed.

(** What binding the threads of [l] needs of the kernel. *)
Definition bindable (s : BinaryTune) (l : list (Z * gset Z)) : Prop :=
  NoDup l.*1 ∧ ∀ t k, (t, k) ∈ l → allowed (bt_sys s) t k ∧ is_Some (mask_of s t).
Lemma bindable_app s l1 l2 : bindable s (l1 ++ l2) → bindable s l1.
Proof.
  intros [Hnd Ha]. rewrite fmap_app, list.NoDup_app in Hnd. split; [apply Hnd|]. intros t k Hin.
  apply Ha, elem_of_app. by left.
Qed.
Lemma bindable_after s s1 l1 l2 : bindable s (l1 ++ l2) → bound l1 s s1 → bindable s1 l2.
Proof.
  intros [Hnd Ha] [_ B2 _ B4]. rewrite fmap_app, list.NoDup_app in Hnd. destruct Hnd as (_ & Hd & Hnd).
  split; [done|]. intros t k Hin. rewrite B2, B4; [apply Ha, elem_of_app; by right|].
  intros H1. apply (Hd t H1). apply list_elem_of_fmap. by exists (t, k).
Qed.

Lemma SetAffinity_twp t k s :
  allowed (bt_sys s) t k → is_Some (mask_of s t) → twp (SetAffinity t k) (λ _, bound [(t, k)] s) s.
Proof.
  intros Ha [cur Hcur]. unfold SetAffinity. apply twp_bind, twp_get, twp_bind, (twp_deref _ cur); [done|].
  case_decide as Heq.
  { subst cur. apply twp_ret. split; [done|done| |done]. by intros t' k' [= -> ->]%list_elem_of_singleton. }
  pose proof (set_allowed _ _ _ Ha) as [Hok Hget]. pose proof (set_other (bt_sys s) t k) as Ho.
  pose proof (allowed_kept (bt_sys s) t k) as Hk.
  destruct (sched_setaffinity (bt_sys s) t k) as [ok m]. simpl in *. subst ok.
  apply twp_bind, twp_modify. cbn [negb]. apply twp_modify. split; [done|done| |].
  - by intros t' k' [= -> ->]%list_elem_of_singleton.
  - intros u Hu. apply Ho. intros ->. apply Hu. by apply list_elem_of_singleton.
Qed.

Lemma bind_each_twp threads k s :
  bindable s (map (λ t, (t, k)) threads) →
  twp (for_each threads (λ t, SetAffinity t k)) (λ _, bound (map (λ t, (t, k)) threads) s) s.
Proof.
  revert s. induction threads as [|t threads IH]; intros s Hb; [by apply twp_ret, bound_nil|].
  cbn [for_each map] in *. apply twp_bind.
  destruct (proj2 Hb t k ltac:(apply list_elem_of_here)) as [H1 H2].
  eapply twp_mono; [by apply SetAffinity_twp|]. intros [] s1 B1. cbv beta in B1.
  eapply twp_mono; [apply IH; by apply (bindable_after s s1 [(t, k)])|]. intros [] s2 B2.
  apply (bound_app [(t, k)] _ _ s1); [apply Hb|done|done].
Qed.

(** The masks of a node's threads. *)
Fixpoint item_masks (core : Z) (items : list (Z * list Z)) : list (Z * gset Z) :=
  match items with
  | [] => []
  | (n, threads) :: items =>
    map (λ t, (t, cores_from core n)) threads ++ item_masks (core + 2 * n) items
  end.
Definition item_sum (items : list (Z * list Z)) : Z := foldr (λ it sum, it.1 + sum) 0 items.

Lemma item_sum_nonneg items : Forall (λ it, 0 ≤ it.1) items → 0 ≤ item_sum items.
Proof. induction 1 as [|it items H _ IH]; simpl; [lia|]. change (foldr _ 0 items) with (item_sum items). lia. Qed.

Lemma bind_items_twp core last items s :
  0 ≤ core → last ≤ CPU_SETSIZE → core + 2 * item_sum items ≤ last → Forall (λ it, 0 ≤ it.1) items →
  bindable s (item_masks core items) →
  twp (bind_items core last items) (λ _, bound (item_masks core items) s) s.
Proof.
  revert core s. induction items as [|[n threads] items IH]; intros core s Hc Hl Hsum Hpos Hb.
  { by apply twp_ret, bound_nil. }
  apply list.Forall_cons in Hpos as [Hn Hpos]. pose proof (item_sum_nonneg _ Hpos) as H0. simpl in Hn.
  change (item_sum ((n, threads) :: items)) with (n + item_sum items) in Hsum.
  cbn [bind_items item_masks] in *. rewrite take_cores_enough by lia. rewrite Z2Nat.id by done.
  rewrite (right_id_L ∅ union (cores_from core n)). rewrite decide_False by lia. apply twp_bind.
  eapply twp_mono; [by apply bind_each_twp, (bindable_app _ _ _ Hb)|]. intros [] s1 B1. cbv beta in B1.
  eapply twp_mono; [apply IH; [lia|done|lia|done|by apply (bindable_after s s1 _ _ Hb)]|]. intros [] s2 B2.
  by apply (bound_app _ _ _ s1); [apply Hb| |].
Qed.

(** ** Plans *)

Definition per_node (s : BinaryTune) : Z := Z.quot (bt_cpuCoreNum s) (bt_numaNum s).
Definition items_of (p : Plan) (node : Z) : list (Z * list Z) := default [] (threadWaitTuneByCore p !! node).
Definition waits_of (p : Plan) (node : Z) : list Z := default [] (threadWaitTuneByNuma p !! node).
Definition numa_mask (s : BinaryTune) (node : Z) : gset Z := default ∅ (bt_phyNumaMask s !! Z.to_nat node).
Definition node_masks (s : BinaryTune) (p : Plan) (node : Z) : list (Z * gset Z) :=
  item_masks (node * per_node s) (items_of p node) ++ map (λ t, (t, numa_mask s node)) (waits_of p node).
Definition plan_masks (s : BinaryTune) (p : Plan) : list (Z * gset Z) :=
  flat_map (λ it, node_masks s p it.1) (by_key (dockerCpuOnNuma p)).

(** The machine as the collectors describe it. *)
Record env_ok (s : BinaryTune) : Prop := {
  ev_numa : 0 < bt_numaNum s;
  ev_cores : 0 ≤ bt_cpuCoreNum s ≤ CPU_SETSIZE;
  ev_nodes : Forall (λ n, 0 ≤ n < bt_numaNum s) (bt_cpu2Numa s);
  ev_masks : length (bt_phyNumaMask s) = Z.to_nat (bt_numaNum s)
}.
Lemma env_ok_same s s' : same_env s s' → env_ok s → env_ok s'.
Proof. intros (E1 & E2 & E3 & E4 & E5) [H1 H2 H3 H4]. split; by rewrite ?E1, ?E2, ?E3, ?E4. Qed.
Lemma node_masks_same s s' p node : same_env s s' → node_masks s' p node = node_masks s p node.
Proof.
  intros (E1 & E2 & E3 & E4 & E5). unfold node_masks, per_node, numa_mask. by rewrite E2, E3, E4.
Qed.

Lemma per_node_bounds s : env_ok s → 0 ≤ per_node s ∧ bt_numaNum s * per_node s ≤ bt_cpuCoreNum s.
Proof.
  intros [Hn Hc _ _]. unfold per_node. rewrite Z.quot_div_nonneg by lia.
  split; [apply Z.div_pos; lia|]. apply Z.mul_div_le. lia.
Qed.
Lemma per_node_quot s : env_ok s → int_quot (bt_cpuCoreNum s) (bt_numaNum s) = Some (per_node s).
Proof.
  intros He. pose proof (per_node_bounds s He) as [H0 H1]. destruct He as [Hn Hc _ _].
  unfold int_quot, int_val, CPU_SETSIZE in *. fold (per_node s). rewrite decide_False by lia.
  rewrite decide_True; [done|]. apply in_range_int. nia.
Qed.

Lemma tune_node_twp p node c s :
  env_ok s → 0 ≤ node < bt_numaNum s → c ≤ Z.quot (per_node s) 2 →
  Forall (λ it, 0 ≤ it.1) (items_of p node) → item_sum (items_of p node) ≤ c →
  bindable s (node_masks s p node) →
  twp (tune_node p (node, c)) (λ _, bound (node_masks s p node) s) s.
Proof.
  intros He Hnode Hc Hpos Hsum Hb. pose proof (per_node_bounds s He) as [H0 H1].
  pose proof (per_node_quot s He) as Hq. pose proof (ev_cores s He) as Hcores.
  unfold tune_node. apply twp_bind, twp_get, twp_bind, (twp_deref _ (per_node s)); [done|]. cbn [fst snd].
  rewrite decide_False by lia. apply twp_bind. unfold BindCpuCore.
  apply twp_bind, twp_get, twp_bind, (twp_deref _ (per_node s)); [done|].
  unfold CPU_SETSIZE in *. rewrite Z.quot_div_nonneg in Hc by lia.
  pose proof (Z.mul_div_le (per_node s) 2 ltac:(lia)) as Hhalf.
  apply twp_bind, (twp_deref _ (node * per_node s)).
  { unfold int_val. rewrite decide_True; [done|]. apply in_range_int. nia. }
  apply twp_bind, (twp_deref _ ((node + 1) * per_node s)).
  { unfold int_val. rewrite decide_True; [done|]. apply in_range_int. nia. }
  eapply twp_mono.
  { apply bind_items_twp; [nia|unfold CPU_SETSIZE; nia|unfold items_of in Hsum; nia|done|by apply (bindable_app _ _ _ Hb)]. }
  intros [] s1 B1. cbv beta in B1. fold (items_of p node) in B1. unfold BindNuma. fold (waits_of p node).
  assert (∀ s', same_env s s' → at_index (bt_phyNumaMask s') node = Some (numa_mask s node)) as Hmask.
  { intros s' (_ & _ & _ & E4 & _). rewrite E4. unfold at_index, numa_mask. rewrite decide_False by lia.
    destruct (lookup_lt_is_Some_2 (bt_phyNumaMask s) (Z.to_nat node)) as [m Hm]; [rewrite (ev_masks s He); lia|].
    by rewrite Hm. }
  eapply twp_mono.
  { apply (twp_for_each_idx (waits_of p node) _
      (λ l1 s2, bound (map (λ t, (t, numa_mask s node)) l1) s1 s2)); [apply bound_nil|].
    intros l1 t l2 s2 Hl B2. apply twp_bind, twp_get, twp_bind, (twp_deref _ (numa_mask s node)).
    { apply Hmask. transitivity s1; [apply B1|apply B2]. }
    assert (bindable s1 (map (λ t, (t, numa_mask s node)) (l1 ++ [t]))) as Hb1.
    { pose proof (bindable_after s s1 _ _ Hb B1) as Hb'. rewrite Hl in Hb'.
      replace (l1 ++ t :: l2) with ((l1 ++ [t]) ++ l2) in Hb' by (by rewrite <-app_assoc).
      rewrite map_app in Hb'. by apply (bindable_app _ _ _ Hb'). }
    rewrite map_app in Hb1 |- *. destruct (bindable_after s1 s2 _ _ Hb1 B2) as [_ Hb2].
    destruct (Hb2 t (numa_mask s node) ltac:(apply list_elem_of_here)) as [H2 H3].
    eapply twp_mono; [by apply SetAffinity_twp|]. intros [] s3 B3. cbv beta in B3.
    by apply (bound_app _ _ _ s2); [apply Hb1| |]. }
  intros [] s2 B2. cbv beta in B2. by apply (bound_app _ _ _ s1); [apply Hb| |].
Qed.

Lemma tune_nodes_twp p L s :
  env_ok s →
  (∀ node c, (node, c) ∈ L → 0 ≤ node < bt_numaNum s ∧ c ≤ Z.quot (per_node s) 2 ∧
    Forall (λ it, 0 ≤ it.1) (items_of p node) ∧ item_sum (items_of p node) ≤ c) →
  bindable s (flat_map (λ it, node_masks s p it.1) L) →
  twp (for_each L (tune_node p)) (λ _, bound (flat_map (λ it, node_masks s p it.1) L) s) s.
Proof.
  revert s. induction L as [|[node c] L IH]; intros s He HL Hb; [by apply twp_ret, bound_nil|].
  cbn [for_each flat_map fst] in *. apply twp_bind.
  destruct (HL node c ltac:(apply list_elem_of_here)) as (H1 & H2 & H3 & H4).
  eapply twp_mono; [apply tune_node_twp; [done..|by apply (bindable_app _ _ _ Hb)]|].
  intros [] s1 B1. cbv beta in B1. pose proof (bd_env _ _ _ B1) as Henv.
  assert (flat_map (λ it, node_masks s1 p it.1) L = flat_map (λ it, node_masks s p it.1) L) as Eq.
  { apply flat_map_ext. intros it. by apply node_masks_same. }
  pose proof (bindable_after s s1 _ _ Hb B1) as Hb1. rewrite <-Eq in Hb1.
  eapply twp_mono; [apply IH; [by eapply env_ok_same| |done]|].
  - intros n' c' Hin. destruct Henv as (_ & E2 & E3 & _). unfold per_node. rewrite E2, E3.
    apply HL. by apply list_elem_of_further.
  - intros [] s2 B2. cbv beta in B2. rewrite Eq in B2. by apply (bound_app _ _ _ s1); [apply Hb| |].
Qed.

(** ** What the search finds *)

Ltac env_run := returns_run ltac:(idtac; first
  [apply returns_lift; apply _ | apply returns_modify; intros ?; done]).

Lemma SetAffinity_env t k : returns same_env (SetAffinity t k).
Proof. unfold SetAffinity. env_run. Qed.
Lemma BindAllCores_env threads : returns same_env (BindAllCores threads).
Proof. unfold BindAllCores. env_run; apply SetAffinity_env. Qed.

(** The threads that were collected of the tasks. *)
Definition found (k : Tasks) : list Z := tk_all k ++ tk_core k.

Lemma find_task_found full tid k s :
  ends (find_task full tid k) (λ k' s', same_env s s' ∧ (found k' = found k ∨ found k' ≡ₚ tid :: found k)) s.
Proof.
  unfold find_task. apply ends_then, ends_get. destruct (bt_threads s !! tid) as [name|]; [|apply ends_value; split; [done|by left]].
  apply ends_then, ends_lift. intros o _. destruct o as [policies|]; [|apply ends_value; split; [done|by left]]. cbv zeta.
  destruct full; cbn [negb].
  - case_decide; [|case_decide]; [| |apply ends_value; split; [done|by left]].
    + apply ends_then, ends_modify, ends_value. split; [done|]. right. unfold found. cbn [tk_all tk_core].
      rewrite <-app_assoc. symmetry. apply Permutation_middle.
    + apply ends_then, ends_modify, ends_value. split; [done|]. right. unfold found. cbn [tk_all tk_core].
      rewrite app_assoc. symmetry. apply Permutation_cons_append.
  - case_decide; [apply ends_then, ends_modify, ends_value|apply ends_value]; (split; [done|by left]).
Qed.
Lemma find_tasks_found full tasks k s :
  ends (find_tasks full tasks k) (λ k' s', same_env s s' ∧ found k' ⊆+ tasks ++ found k) s.
Proof.
  revert k s. induction tasks as [|tid tasks IH]; intros k s; [by apply ends_value|].
  cbn [find_tasks]. apply ends_then. eapply ends_weaken; [apply find_task_found|].
  intros k1 s1 [E1 H1]. eapply ends_weaken; [apply IH|]. intros k2 s2 [E2 H2].
  split; [by etransitivity|]. etransitivity; [exact H2|]. destruct H1 as [->| ->].
  - simpl. by apply submseteq_cons.
  - simpl. by rewrite <-Permutation_middle.
Qed.

Definition threads_of (p : Plan) (node : Z) : list Z := flat_map snd (items_of p node) ++ waits_of p node.

(** The plan of containers whose tasks are [T]. *)
Record plan_ok (numaNum : Z) (T : list Z) (p : Plan) : Prop := {
  po_pos node : Forall (λ it, 0 ≤ it.1) (items_of p node);
  po_sum node : item_sum (items_of p node) ≤ default 0 (dockerCpuOnNuma p !! node);
  po_node node : is_Some (dockerCpuOnNuma p !! node) → 0 ≤ node < numaNum;
  po_known node : threads_of p node ≠ [] → is_Some (dockerCpuOnNuma p !! node);
  po_nodup node : NoDup (threads_of p node);
  po_apart node node' t : t ∈ threads_of p node → t ∈ threads_of p node' → node = node';
  po_tasks node t : t ∈ threads_of p node → t ∈ T
}.

Lemma append_same {A} node (l : list A) m : default [] (append node l m !! node) = default [] (m !! node) ++ l.
Proof.
  unfold append. case_decide as E; [subst l; by rewrite app_nil_r|]. by rewrite lookup_insert_eq.
Qed.
Lemma append_other {A} node node' (l : list A) m : node' ≠ node → append node l m !! node' = m !! node'.
Proof. intros Hn. unfold append. case_decide; [done|]. by rewrite lookup_insert_ne. Qed.
Lemma item_sum_snoc items it : item_sum (items ++ [it]) = item_sum items + it.1.
Proof. unfold item_sum. induction items as [|x items IH]; simpl; [lia|]. rewrite IH. lia. Qed.

(** A container's threads enter the plan at its node. *)
Definition add_to_plan (node quota : Z) (k : Tasks) (sum : Z) (p : Plan) : Plan :=
  mkPlan (<[node := sum]> (dockerCpuOnNuma p)) (append node (tk_all k) (threadWaitTuneByNuma p))
    (if decide (tk_core k = []) then threadWaitTuneByCore p
     else append node [(wrap CInt quota, tk_core k)] (threadWaitTuneByCore p)).

Lemma add_to_plan_items node quota k sum p :
  items_of (add_to_plan node quota k sum p) node =
  items_of p node ++ (if decide (tk_core k = []) then [] else [(wrap CInt quota, tk_core k)]).
Proof.
  unfold items_of, add_to_plan. cbn [threadWaitTuneByCore]. case_decide; [by rewrite app_nil_r|apply append_same].
Qed.
Lemma add_to_plan_threads node quota k sum p :
  threads_of (add_to_plan node quota k sum p) node ≡ₚ found k ++ threads_of p node.
Proof.
  unfold threads_of. rewrite add_to_plan_items. unfold waits_of, add_to_plan, found. cbn [threadWaitTuneByNuma].
  rewrite append_same, flat_map_app.
  assert (flat_map snd (if decide (tk_core k = []) then [] else [(wrap CInt quota, tk_core k)]) = tk_core k) as ->.
  { case_decide as E; simpl; [done|]. by rewrite app_nil_r. }
  solve_Permutation.
Qed.
Lemma add_to_plan_other node node' quota k sum p :
  node' ≠ node → items_of (add_to_plan node quota k sum p) node' = items_of p node' ∧
    threads_of (add_to_plan node quota k sum p) node' = threads_of p node' ∧
    dockerCpuOnNuma (add_to_plan node quota k sum p) !! node' = dockerCpuOnNuma p !! node'.
Proof.
  intros Hn. assert (items_of (add_to_plan node quota k sum p) node' = items_of p node') as E.
  { unfold items_of, add_to_plan. cbn [threadWaitTuneByCore]. case_decide; [done|]. by rewrite append_other. }
  split; [done|]. unfold threads_of. rewrite E. unfold waits_of, add_to_plan. simpl.
  rewrite append_other by done. by rewrite lookup_insert_ne.
Qed.

Lemma add_to_plan_ok numaNum T tasks node quota k p :
  plan_ok numaNum T p → 0 ≤ node < numaNum → 0 ≤ quota < 2147483648 →
  found k ⊆+ tasks → NoDup (T ++ tasks) →
  plan_ok numaNum (T ++ tasks)
    (add_to_plan node quota k (default 0 (dockerCpuOnNuma p !! node) + quota) p).
Proof.
  intros [P1 P2 P3 P4 P5 P6 P7] Hnode Hq Hk Hnd. set (sum := default 0 _ + quota).
  apply list.NoDup_app in Hnd as (_ & HT & Htasks).
  assert (∀ t, t ∈ found k → t ∈ tasks) as Hsub by (intros t Ht; by eapply elem_of_submseteq).
  assert (NoDup (found k)) as Hndk.
  { apply submseteq_Permutation in Hk as [rest Hk]. rewrite Hk in Htasks. apply list.NoDup_app in Htasks. apply Htasks. }
  pose proof (add_to_plan_threads node quota k sum p) as Ht.
  pose proof (λ n, add_to_plan_other node n quota k sum p) as Ho.
  set (p' := add_to_plan node quota k sum p) in *.
  assert (∀ n t, t ∈ threads_of p' n → t ∈ threads_of p n ∨ (n = node ∧ t ∈ found k)) as Hin.
  { intros n t Hin. destruct (decide (n = node)) as [->|Hn].
    - rewrite Ht, elem_of_app in Hin. destruct Hin; auto.
    - destruct (Ho n Hn) as (_ & E & _). rewrite E in Hin. auto. }
  split.
  - intros n. destruct (decide (n = node)) as [->|Hn]; [|destruct (Ho n Hn) as (-> & _); apply P1].
    unfold p'. rewrite add_to_plan_items. apply list.Forall_app. split; [apply P1|].
    case_decide; [done|]. apply list.Forall_singleton. simpl. rewrite wrap_id; [lia|apply in_range_int; lia].
  - intros n. destruct (decide (n = node)) as [->|Hn]; [|destruct (Ho n Hn) as (-> & _ & ->); apply P2].
    unfold p' at 2. unfold add_to_plan. cbn [dockerCpuOnNuma]. rewrite lookup_insert_eq. cbn [default].
    unfold p'. rewrite add_to_plan_items. specialize (P2 node). unfold sum.
    case_decide; [rewrite app_nil_r; simpl; lia|]. rewrite item_sum_snoc. cbn [fst].
    rewrite wrap_id by (apply in_range_int; lia). simpl. lia.
  - intros n. destruct (decide (n = node)) as [->|Hn]; [done|]. destruct (Ho n Hn) as (_ & _ & ->). apply P3.
  - intros n. destruct (decide (n = node)) as [->|Hn]; [|destruct (Ho n Hn) as (_ & -> & ->); apply P4].
    intros _. unfold p', add_to_plan. cbn [dockerCpuOnNuma]. rewrite lookup_insert_eq. by eexists.
  - intros n. destruct (decide (n = node)) as [->|Hn]; [|destruct (Ho n Hn) as (_ & -> & _); apply P5].
    rewrite Ht. apply list.NoDup_app. split_and!; [done| |apply P5].
    intros t Hf Hp. by apply (HT t); [eapply P7|apply Hsub].
  - intros n n' t H1%Hin H2%Hin. destruct H1 as [H1|[-> H1]], H2 as [H2|[-> H2]]; [by eapply P6| | |done].
    + destruct (HT t); [by eapply P7|by apply Hsub].
    + destruct (HT t); [by eapply P7|by apply Hsub].
  - intros n t Hp%Hin. apply elem_of_app. destruct Hp as [Hp|[_ Hp]]; [left; by eapply P7|right; by apply Hsub].
Qed.

Record containers_ok (s : BinaryTune) : Prop := {
  co_quota c q : c ∈ bt_containers s → long_quot (ic_cfsQuotaUs c) (ic_cfsPeriodUs c) = Some q →
    0 ≤ q < 2147483648;
  co_tasks : NoDup (flat_map ic_tasks (bt_containers s))
}.

Lemma plan_ok_weaken numaNum T T' p : (∀ t, t ∈ T → t ∈ T') → plan_ok numaNum T p → plan_ok numaNum T' p.
Proof. intros H [P1 P2 P3 P4 P5 P6 P7]. split; [done..|]. intros node t Ht. by eapply H, P7. Qed.

Lemma full_numa_node s cpus node :
  env_ok s → full_numa s cpus = Some (node, true) → 0 ≤ node < bt_numaNum s.
Proof.
  intros He. unfold full_numa. destruct (head cpus) as [first|]; [|done]. cbn [mbind option_bind].
  destruct (at_index (bt_cpu2Numa s) first) as [initNuma|] eqn:Ei; [|done]. cbn [mbind option_bind].
  destruct (same_numa _ _ _) as [same|]; [|done]. cbn [mbind option_bind].
  destruct (int_quot _ _) as [q|]; [|done]. cbn [mbind option_bind]. intros [= <- Hs].
  apply andb_true_iff in Hs as [-> _]. unfold at_index in Ei. case_decide; [done|].
  pose proof (ev_nodes s He) as Hn. rewrite list.Forall_lookup in Hn. by apply (Hn _ _ Ei).
Qed.

Lemma find_container_ok T c p s :
  env_ok s → plan_ok (bt_numaNum s) T p → NoDup (T ++ ic_tasks c) →
  (∀ q, long_quot (ic_cfsQuotaUs c) (ic_cfsPeriodUs c) = Some q → 0 ≤ q < 2147483648) →
  ends (find_container c p) (λ p' s', same_env s s' ∧ plan_ok (bt_numaNum s) (T ++ ic_tasks c) p') s.
Proof.
  intros He Hp Hnd Hq. unfold find_container. apply ends_then, ends_lift. intros cpus _.
  apply ends_then, ends_get, ends_then, ends_deref. intros [node full] Hfull. apply ends_then.
  eapply ends_weaken; [apply find_tasks_found|]. intros k s1 [E1 Hk]. unfold found in Hk at 2. simpl in Hk.
  rewrite app_nil_r in Hk. destruct full.
  - apply ends_then, ends_deref. intros quota Equota. apply ends_then, ends_deref. intros sum Esum.
    apply ends_value. split; [done|]. unfold long_val in Esum. case_decide; [|done]. injection Esum as <-.
    apply (add_to_plan_ok _ _ _ node quota k); [done|by eapply full_numa_node|by apply Hq|done|done].
  - apply ends_then. apply (ends_weaken _ (λ _ s2, same_env s1 s2)).
    + case_decide; [by apply ends_value|]. apply ends_returns, BindAllCores_env.
    + intros [] s2 E2. apply ends_value. split; [by etransitivity|].
      eapply plan_ok_weaken; [|exact Hp]. intros t Ht. apply elem_of_app. by left.
Qed.

Lemma find_containers_ok T l p s :
  env_ok s → plan_ok (bt_numaNum s) T p → NoDup (T ++ flat_map ic_tasks l) →
  (∀ c q, c ∈ l → long_quot (ic_cfsQuotaUs c) (ic_cfsPeriodUs c) = Some q → 0 ≤ q < 2147483648) →
  ends (find_containers l p)
    (λ p' s', same_env s s' ∧ plan_ok (bt_numaNum s) (T ++ flat_map ic_tasks l) p') s.
Proof.
  revert T p s. induction l as [|c l IH]; intros T p s He Hp Hnd Hq.
  { apply ends_value. split; [done|]. simpl. by rewrite app_nil_r. }
  cbn [find_containers flat_map] in *. apply ends_then. rewrite app_assoc in Hnd.
  eapply ends_weaken.
  { apply (find_container_ok T); [done|done| |intros q; apply Hq, list_elem_of_here].
    by apply list.NoDup_app in Hnd as (Hnd & _ & _). }
  intros p1 s1 [E1 H1]. pose proof E1 as (_ & En & _). rewrite <-En in H1 |- *.
  eapply ends_weaken; [apply (IH (T ++ ic_tasks c)); [by eapply env_ok_same|done|done|]|].
  - intros c' q Hc. apply Hq. by apply list_elem_of_further.
  - intros p2 s2 [E2 H2]. split; [by etransitivity|]. by rewrite app_assoc.
Qed.

Lemma Plan0_ok numaNum : plan_ok numaNum [] Plan0.
Proof.
  assert (∀ node, items_of Plan0 node = [] ∧ threads_of Plan0 node = []) as H by done.
  split; try (intros node; destruct (H node) as [E1 E2]; rewrite ?E1, ?E2).
  - by constructor.
  - done.
  - by intros [? E].
  - by intros [].
  - by constructor.
  - by intros node' t []%elem_of_nil.
  - by intros t Ht.
Qed.

Lemma FindSpecialBin_ok s :
  env_ok s → containers_ok s →
  ends FindSpecialBin (λ p s', same_env s s' ∧
    plan_ok (bt_numaNum s) (flat_map ic_tasks (bt_containers s)) p) s.
Proof.
  intros He [Hq Hnd]. unfold FindSpecialBin. apply ends_then, ends_get, ends_then.
  eapply ends_weaken; [apply (find_containers_ok []); [done|apply Plan0_ok|done|done]|].
  intros p s1 [E1 H1]. apply ends_then, ends_modify, ends_value. split; [|done]. exact E1.
Qed.

(** ** No thread is bound twice *)

Lemma NoDup_flat_map {A B} (f : A → list B) l :
  NoDup l → (∀ x, x ∈ l → NoDup (f x)) →
  (∀ x y b, x ∈ l → y ∈ l → b ∈ f x → b ∈ f y → x = y) → NoDup (flat_map f l).
Proof.
  induction 1 as [|x l Hx _ IH]; intros Hf Hapart; [by constructor|]. simpl. apply list.NoDup_app. split_and!.
  - apply Hf, list_elem_of_here.
  - intros b Hb Hin. apply list_elem_of_In, in_flat_map in Hin as (y & Hy%list_elem_of_In & Hby%list_elem_of_In).
    apply Hx. rewrite (Hapart x y b); [done|apply list_elem_of_here|by apply list_elem_of_further|done|done].
  - apply IH; [intros y Hy; apply Hf; by apply list_elem_of_further|].
    intros y z b Hy Hz. apply Hapart; by apply list_elem_of_further.
Qed.

Lemma item_masks_threads core items : (item_masks core items).*1 = flat_map snd items.
Proof.
  revert core. induction items as [|[n threads] items IH]; intros core; [done|]. cbn [item_masks flat_map snd].
  rewrite fmap_app, IH. f_equal. rewrite <-list_fmap_compose. apply list_fmap_id.
Qed.
Lemma node_masks_threads s p node : (node_masks s p node).*1 = threads_of p node.
Proof.
  unfold node_masks, threads_of. rewrite fmap_app, item_masks_threads. f_equal.
  rewrite <-list_fmap_compose. apply list_fmap_id.
Qed.
Lemma plan_masks_NoDup numaNum T s p : plan_ok numaNum T p → NoDup (plan_masks s p).*1.
Proof.
  intros Hp. unfold plan_masks.
  assert ((flat_map (λ it, node_masks s p it.1) (by_key (dockerCpuOnNuma p))).*1 =
    flat_map (threads_of p) (by_key (dockerCpuOnNuma p)).*1) as ->.
  { generalize (by_key (dockerCpuOnNuma p)) as l. induction l as [|it l IH]; [done|]. simpl.
    by rewrite fmap_app, IH, node_masks_threads. }
  apply NoDup_flat_map; [apply by_key_NoDup|intros; apply Hp|]. intros x y t _ _. apply (po_apart _ _ _ Hp).
Qed.

(** The cores of the [i]th container of a node. *)
Definition item_cores (core : Z) (items : list (Z * list Z)) (i : nat) : gset Z :=
  cores_from (core + 2 * item_sum (take i items)) (default 0 (fst <$> items !! i)).

Lemma item_masks_at core items i n threads t :
  items !! i = Some (n, threads) → t ∈ threads → (t, item_cores core items i) ∈ item_masks core items.
Proof.
  revert core i. induction items as [|[n' threads'] items IH]; intros core i Hi Ht; [done|].
  cbn [item_masks]. apply elem_of_app. unfold item_cores. destruct i as [|i].
  - injection Hi as -> ->. left. simpl. rewrite Z.add_0_r. apply list_elem_of_fmap. by exists t.
  - right. specialize (IH (core + 2 * n') i Hi Ht). unfold item_cores in IH. simpl in *.
    change (foldr _ 0 (take i items)) with (item_sum (take i items)).
    by replace (core + 2 * (n' + item_sum (take i items))) with (core + 2 * n' + 2 * item_sum (take i items)) by lia.
Qed.
Lemma item_sum_app l1 l2 : item_sum (l1 ++ l2) = item_sum l1 + item_sum l2.
Proof.
  induction l1 as [|x l1 IH]; simpl; [done|]. change (foldr _ 0 (l1 ++ l2)) with (item_sum (l1 ++ l2)).
  rewrite IH. change (foldr _ 0 l1) with (item_sum l1). lia.
Qed.
Lemma item_sum_step items i n threads :
  items !! i = Some (n, threads) → item_sum (take (S i) items) = item_sum (take i items) + n.
Proof. intros Hi. rewrite (take_S_r _ _ _ Hi), item_sum_app. simpl. lia. Qed.
Lemma item_sum_mono items i j :
  Forall (λ it, 0 ≤ it.1) items → (i ≤ j)%nat → item_sum (take i items) ≤ item_sum (take j items).
Proof.
  intros Hpos Hij. replace (take j items) with (take i items ++ drop i (take j items)).
  - rewrite item_sum_app. pose proof (item_sum_nonneg (drop i (take j items))) as H.
    assert (0 ≤ item_sum (drop i (take j items))); [|lia]. by apply H, Forall_drop, Forall_take.
  - rewrite <-(take_drop i (take j items)) at 2. f_equal. by rewrite take_take, Nat.min_l.
Qed.

Lemma item_cores_apart core items i j n n' threads threads' :
  Forall (λ it, 0 ≤ it.1) items → items !! i = Some (n, threads) → items !! j = Some (n', threads') →
  i ≠ j → item_cores core items i ## item_cores core items j.
Proof.
  intros Hpos. assert (∀ i j n n' threads threads', items !! i = Some (n, threads) →
    items !! j = Some (n', threads') → (i < j)%nat → item_cores core items i ## item_cores core items j) as H.
  { clear i j n n' threads threads'. intros i j n n' threads threads' Hi Hj Hij cpu. unfold item_cores.
    rewrite Hi, Hj. simpl. rewrite !elem_of_cores.
    intros (a & Ha & ->) (b & Hb & E).
    pose proof (item_sum_mono items (S i) j Hpos ltac:(lia)) as Hm. rewrite (item_sum_step _ _ _ _ Hi) in Hm.
    unfold id in *. lia. }
  intros Hi Hj Hne. destruct (decide (i < j)%nat); [by eapply H|].
  symmetry. eapply H; [exact Hj|exact Hi|lia].
Qed.

End theorems.

(** ** A small machine

    Eight processors on two nodes, and two containers on the first node. *)

Record BinBox := mkBinBox {
  bb_files : gmap string (list byte); bb_links : gmap string string; bb_masks : gmap Z (gset Z)
}.
Definition bin_machine : Machine := {|
  sys := BinBox;
  sys_read b p := bb_files b !! p;
  sys_write b p t := (false, false, b);
  sys_exists b p := bool_decide (is_Some (bb_files b !! p));
  sys_dir b p := None;
  sys_exec b c := (None, b);
  sys_system b c := (0, b);
  sys_yaml b p := None;
  sys_emit b _ _ := b;
  sys_cpus _ := 8
|}.
Definition bin_tree : @DirTree bin_machine := {| sys_isdir b p := false; sys_link (b : @sys bin_machine) p := bb_links b !! p |}.
(** A thread that exists takes every mask but the empty one. *)
Definition bin_set (b : BinBox) (t : Z) (k : gset Z) : bool * BinBox :=
  match bb_masks b !! t with
  | Some _ => if decide (k = ∅) then (false, b)
              else (true, mkBinBox (bb_files b) (bb_links b) (<[t := k]> (bb_masks b)))
  | None => (false, b)
  end.
Definition bin_sched : @Sched bin_machine :=
  {| sched_getaffinity (b : @sys bin_machine) t := bb_masks b !! t; sched_setaffinity := bin_set |}.
Definition bin_laws : @SchedLaws bin_machine bin_sched.
Proof.
  refine {| allowed := λ (b : @sys bin_machine) t k, k ≠ ∅ ∧ is_Some (bb_masks b !! t) |}.
  - intros b t k [Hk [j Hj]]. simpl. unfold bin_set. rewrite Hj, decide_False by done. simpl.
    by rewrite lookup_insert_eq.
  - intros b t k. simpl. unfold bin_set. destruct (bb_masks b !! t) as [j|] eqn:E; [|done].
    case_decide; [done|discriminate].
  - intros b t k u Hu. simpl. unfold bin_set. destruct (bb_masks b !! t); [|done].
    case_decide; [done|]. simpl. by rewrite lookup_insert_ne.
  - intros b t k u j. simpl. unfold bin_set. destruct (bb_masks b !! t) as [i|] eqn:E; [|done].
    case_decide; [done|]. simpl. destruct (decide (u = t)) as [->|Hn].
    + rewrite lookup_insert_eq, E. split; intros [? _]; (split; [done|by eexists]).
    + by rewrite lookup_insert_ne.
Defined.
#[local] Existing Instances bin_machine bin_tree bin_sched bin_laws.
#[local] Instance decimal_yaml : YamlConversions := {| yaml_int s := strtol (bytes_of s); yaml_null := None |}.

(** A file with the sections .shstrtab and .GCC4OE_oeAware. *)
Definition zeros (n : nat) : list byte := repeat x00 n.
Definition elf_names : list byte := x00 :: bytes_of ".shstrtab" ++ [x00] ++ GCC_MARK ++ [x00].
Definition elf_shdr (name offset size : Z) : list byte :=
  to_bytes CUint name ++ zeros 20 ++ to_bytes CUlong offset ++ to_bytes CUlong size ++ zeros 24.
Definition elf_ehdr : list byte :=
  ELFMAG ++ zeros 36 ++ to_bytes CUlong 96 ++ zeros 10 ++ to_bytes CUshort 64 ++ to_bytes CUshort 3 ++ to_bytes CUshort 1.
Definition elf_example : list byte :=
  elf_ehdr ++ elf_names ++ zeros 1 ++ to_bytes CInt 2 ++ elf_shdr 0 0 0 ++ elf_shdr 1 64 27 ++ elf_shdr 11 92 4.
Definition elf_secs : list ElfSection :=
  [mkElfSection [] 0 0; mkElfSection (bytes_of ".shstrtab") 64 27; mkElfSection GCC_MARK 92 4].

Definition all_cpus : gset Z := list_to_set (seqZ 0 8).
Definition bin_box : @sys bin_machine := mkBinBox (<["/usr/bin/app" := elf_example]> ∅)
  (<["/proc/10/exe" := "/usr/bin/app"]> (<["/proc/12/exe" := "/usr/bin/app"]> ∅))
  (<[10 := all_cpus]> (<[11 := all_cpus]> (<[12 := all_cpus]> ∅))).
Definition bin_docker (id : string) (tasks : list Z) : InternalContainer :=
  mkInternalContainer id 100000 100000 0 "0-3" tasks.
Definition bin_data : list BinaryDataList :=
  [mkBinaryDataList "static" (BtStatic [mkEnvStaticInfo 2 8 4096 0 [0; 0; 0; 0; 1; 1; 1; 1] []]);
   mkBinaryDataList "realtime" (BtRealtime [mkEnvRealTimeInfo 1 8 8 []]);
   mkBinaryDataList OE_DOCKER_COLLECTOR (BtDockers [bin_docker "a" [10; 11]; bin_docker "b" [12]]);
   mkBinaryDataList OE_THREAD_COLLECTOR
     (BtThreads [mkThreadInfo 10 10 (Some "app"); mkThreadInfo 10 11 (Some "app"); mkThreadInfo 12 12 (Some "app")]%string)].
Definition bin_update (r : outcome (unit * BinaryTune)) (d : BinaryDataList) : outcome (unit * BinaryTune) :=
  match r with Ret (_, s) => BinaryTune_UpdateData d s | _ => r end.
Definition bin_updated : outcome (unit * BinaryTune) := foldl bin_update (Ret (tt, BinaryTune0 bin_box)) bin_data.
Definition bin_ready : BinaryTune := match bin_updated with Ret (_, s) => s | _ => BinaryTune0 bin_box end.

Lemma elf_example_ok : elf_file elf_example elf_ehdr elf_names elf_secs.
Proof.
  assert (∀ o n, 0 ≤ o → 0 ≤ n → o + n ≤ Z.of_nat (length elf_example) →
    slice elf_example o n (take (Z.to_nat n) (drop (Z.to_nat o) elf_example))) as Hslice by done.
  assert (Z.of_nat (length elf_example) = 288) as Hlen by (vm_compute; reflexivity).
  split.
  - repeat split; vm_compute; congruence.
  - reflexivity.
  - rewrite Hlen. reflexivity.
  - vm_compute. reflexivity.
  - exists (elf_shdr 1 64 27). split; repeat split; vm_compute; congruence.
  - intros i sec Hi. destruct i as [|[|[|i]]]; simpl in Hi; [injection Hi as <-..|discriminate].
    + exists (elf_shdr 0 0 0). split_and!; [repeat split; vm_compute; congruence|vm_compute; reflexivity..| | |].
      * by intros []%elem_of_nil.
      * vm_compute. congruence.
      * by eexists.
    + exists (elf_shdr 1 64 27). split_and!; [repeat split; vm_compute; congruence|vm_compute; reflexivity..| | |].
      * refine (bool_decide_unpack _ _). vm_compute. exact I.
      * vm_compute. congruence.
      * by eexists.
    + exists (elf_shdr 11 92 4). split_and!; [repeat split; vm_compute; congruence|vm_compute; reflexivity..| | |].
      * apply gcc_no_nul.
      * vm_compute. congruence.
      * by eexists.
  - intros sec Hin _ Hsize. unfold elf_secs in Hin. rewrite !elem_of_cons in Hin.
    destruct Hin as [->|[->|[->|[]%elem_of_nil]]]; [discriminate Hsize..|]. eexists. apply Hslice; rewrite ?Hlen; simpl; lia.
Qed.

Lemma marked_policy_witness : ParseBinaryElf bin_box ∅ "/usr/bin/app" = Ret 2.
Proof. exact (marked_policy bin_box ∅ "/usr/bin/app" elf_example elf_ehdr elf_names elf_secs eq_refl elf_example_ok). Defined.

(** The plugin runs once, and the mask comes back. *)
Lemma affinity_given_back_witness :
  ∃ s1 s2, BinaryTune_Run bin_ready = Ret (tt, s1) ∧ mask_of s1 10 = Some {[0]} ∧
    BinaryTune_Disable s1 = Ret (tt, s2) ∧ mask_of s2 10 = Some all_cpus.
Proof.
  assert (match BinaryTune_Run bin_ready with
    | Ret (_, s1) => mask_of s1 10 = Some {[0]}
    | _ => False
    end) as Hrun by (vm_compute; reflexivity).
  destruct (BinaryTune_Run bin_ready) as [[[] s1]| |] eqn:E1; [|destruct Hrun..].
  destruct (affinity_given_back 10 all_cpus bin_ready s1) as (s2 & E2 & H2).
  - vm_compute. reflexivity.
  - split; [vm_compute; discriminate|]. vm_compute. eexists. reflexivity.
  - vm_compute. reflexivity.
  - apply rtc_once. apply (step_run 10 tt bin_ready s1); [|exact E1].
    unfold task_of. refine (bool_decide_unpack _ _). vm_compute. exact I.
  - exists s1, s2. exact (conj eq_refl (conj Hrun (conj E2 H2))).
Defined.

Lemma bin_ready_env : env_ok bin_ready.
Proof.
  split; [vm_compute; reflexivity|vm_compute; split; discriminate| |vm_compute; reflexivity].
  refine (bool_decide_unpack _ _). vm_compute. exact I.
Qed.
Lemma bin_ready_containers : containers_ok bin_ready.
Proof.
  assert (bt_containers bin_ready = [bin_docker "a" [10; 11]; bin_docker "b" [12]]) as E by (vm_compute; reflexivity).
  split; rewrite E; [|refine (bool_decide_unpack _ _); vm_compute; exact I].
  clear E. intros c q Hc. rewrite !elem_of_cons in Hc.
  destruct Hc as [->|[->|[]%elem_of_nil]]; simpl; cbv [long_quot]; simpl; intros [= <-]; split; vm_compute; congruence.
Qed.

