(* ===== verification/Switches.v ===== *)
(** * The kernel's switches (src/plugin/tune/system: transparent_hugepage_tune,
      cpu/cluster_tune, cpu/numa_sched_tune, cpu/dynamic_smt_tune,
      cpu/stealtask_tune, power/seep_tune)

    Six instances that change a few files of the kernel when they are enabled
    and put them back when they are disabled. *)

From Stdlib Require Import ZArith Lia Strings.Byte.
From stdpp Require Import base list strings gmap numbers.
From S2P Require Import Prelude Bytes StdString Utils Daemon Config Machine DirWalk CoordBurst.

(** An instance, on the machine that it tunes. *)
Record On `{Machine} (P : Type) := mkOn { own : P; host : sys }.
Arguments mkOn {_ _} _ _.
Arguments own {_ _} _.
Arguments host {_ _} _.

Section on.
Context `{MA : Machine} {P : Type}.
Definition set_own (p : P) (s : On P) : On P := mkOn p (host s).
Definition on_host {A} (c : St sys A) : St (On P) A := zoom host (λ m s, mkOn (own s) m) c.
End on.

Definition ok (text : string) : Result := mkResult (Some OK) text.
Definition failed (text : string) : Result := mkResult (Some FAILED) text.

(** ** Transparent huge pages *)

Definition thpFileName : string := "/sys/kernel/mm/transparent_hugepage/enabled".
Definition open_bracket : byte := x5b.
Definition close_bracket : byte := x5d.

Record Thp := mkThp { initialThpMode : list byte; thpStateRestored : bool }.
Definition Thp0 : Thp := mkThp [] false.

(** Without an opening bracket the position behind it is 0. *)
Definition mode_in (modes : list byte) : option (list byte) :=
  let startPos := match find_byte open_bracket modes with Some p => S p | None => O end in
  endPos ← find_byte close_bracket (drop startPos modes);
  Some (take endPos (drop startPos modes)).

Section thp.
Context `{MA : Machine}.
Definition GetInitialThpMode (m : sys) : list byte :=
  match sys_read m thpFileName with
  | None => []
  | Some content => default [] (mode_in (default [] (first_line content)))
  end.
(** What the file makes of the mode is not looked at. *)
Definition SetThpMode (mode : list byte) : St sys Z :=
  if decide (mode = []) then mret (-1) else
  '(opens, _) ← on_file thpFileName mode;
  mret (if (opens : bool) then 0 else -1).
Definition Thp_Enable : St (On Thp) Result :=
  s ← get;
  modify (set_own (mkThp (GetInitialThpMode (host s)) false)) ;;
  r ← on_host (SetThpMode (bytes_of "always"));
  mret (if decide (r = 0) then ok "THP enabled successfully" else failed "Failed to enable THP").
Definition Thp_Disable : St (On Thp) unit :=
  s ← get;
  if thpStateRestored (own s) then mret tt else
  r ← on_host (SetThpMode (initialThpMode (own s)));
  if decide (r = 0) then modify (set_own (mkThp (initialThpMode (own s)) true)) else mret tt.
End thp.

(** ** Scheduling by clusters *)

Definition CLUSTER_PATH : string := "/proc/sys/kernel/sched_cluster".
Definition ENABLE_CLUSTER : list byte := bytes_of "1".

Record ClusterCpu := mkClusterCpu { ClusterStatus : list byte }.
Definition ClusterCpu0 : ClusterCpu := mkClusterCpu [].

Section cluster.
Context `{MA : Machine}.
Definition opens_in (m : sys) (path : string) : bool := bool_decide (is_Some (sys_read m path)).
(** The last line; a file without one leaves the value as it was. *)
Definition ReadFile (m : sys) (filePath : string) (value : list byte) : option (list byte) :=
  content ← sys_read m filePath; Some (default value (list.last (getline_all newline content))).
Definition ReadClusterFile (m : sys) (value : list byte) : option (list byte) :=
  if sys_exists m CLUSTER_PATH then ReadFile m CLUSTER_PATH value else None.
Definition WriteFile (filePath : string) (value : list byte) : St sys bool :=
  '(opens, takes) ← on_file filePath value; mret ((opens : bool) && takes).
Definition WriteClusterFile (value : list byte) : St sys bool :=
  m ← get;
  if sys_exists m CLUSTER_PATH then WriteFile CLUSTER_PATH value else mret false.
Definition Cluster_Enable : St (On ClusterCpu) Result :=
  s ← get;
  if negb (opens_in (host s) CLUSTER_PATH) then mret (failed "Init failed") else
  match ReadClusterFile (host s) (ClusterStatus (own s)) with
  | None => mret (failed "enable cluster scheduler failed")
  | Some status =>
    modify (set_own (mkClusterCpu status)) ;;
    done ← on_host (WriteClusterFile ENABLE_CLUSTER);
    mret (if (done : bool) then ok EmptyString else failed "enable cluster scheduler failed")
  end.
Definition Cluster_Disable : St (On ClusterCpu) unit :=
  s ← get; on_host (WriteClusterFile (ClusterStatus (own s))) ;; mret tt.
End cluster.

(** ** The scheduler's features *)

Fixpoint words_go (n : nat) (l : list byte) : list (list byte) :=
  match n with
  | O => []
  | S n =>
    let l := skip_space l in
    match word l with
    | [] => []
    | w => w :: words_go n (drop (length w) l)
    end
  end.
(** [while (iss >> feature)]: a word takes a byte at least. *)
Definition words (l : list byte) : list (list byte) := words_go (length l) l.

Definition possiblePaths : list string :=
  ["/sys/kernel/debug/sched_features"; "/sys/kernel/debug/sched/features"]%string.

Section features.
Context `{MA : Machine}.
Fixpoint first_path (m : sys) (paths : list string) : option string :=
  match paths with
  | [] => None
  | path :: paths => if sys_exists m path then Some path else first_path m paths
  end.
(** The path that is found, and the features that are added. *)
Definition ReadSchedFeatures (m : sys) (features : list (list byte)) : string * list (list byte) :=
  match first_path m possiblePaths with
  | None => ("unknown"%string, features)
  | Some path =>
    (path, match sys_read m path with
           | None => features
           | Some content => features ++ mjoin (words <$> getline_all newline content)
           end)
  end.
End features.

(** ** Parallel scheduling on NUMA nodes *)

Definition enableFeature : list byte := bytes_of "PARAL".
Definition disableFeature : list byte := bytes_of "NO_PARAL".
Definition schedUtilLowPctPath : string := "/proc/sys/kernel/sched_util_low_pct".

Record NumaSched := mkNumaSched {
  schedFeatues : list (list byte); schedFeaturePath : string;
  originalSchedUtilLowPct : list byte; isOriginalEnabled : bool
}.
Definition NumaSched0 : NumaSched := mkNumaSched [] EmptyString [] false.

Section numa_sched.
Context `{MA : Machine}.
Definition IsSupportNumaSched (features : list (list byte)) : bool :=
  existsb (λ f, bool_decide (f = enableFeature ∨ f = disableFeature)) features.
Definition IsFeatureEnabled (features : list (list byte)) : bool :=
  existsb (λ f, bool_decide (f = enableFeature)) features.
Definition WriteFeature (path : string) (feature : list byte) : St sys bool :=
  '(opens, _) ← on_file path feature; mret (opens : bool).
Definition SetSchedUtilLowPct (value : list byte) : St sys bool :=
  '(opens, _) ← on_file schedUtilLowPctPath value; mret (opens : bool).
Definition SaveSchedUtilLowPct (m : sys) : option (list byte) :=
  content ← sys_read m schedUtilLowPctPath; Some (default [] (first_line content)).
Definition NumaSched_Enable : St (On NumaSched) Result :=
  s ← get;
  let n := own s in
  let '(path, features) := ReadSchedFeatures (host s) [] in
  modify (set_own (mkNumaSched features path (originalSchedUtilLowPct n) (isOriginalEnabled n))) ;;
  if negb (IsSupportNumaSched features) then mret (failed "not support numa sched feature") else
  if IsFeatureEnabled features then
    modify (set_own (mkNumaSched features path (originalSchedUtilLowPct n) true)) ;;
    mret (ok "numa sched is already enabled on system")
  else
  match SaveSchedUtilLowPct (host s) with
  | None => mret (failed "Failed to save sched_util_low_pct")
  | Some low =>
    modify (set_own (mkNumaSched features path low (isOriginalEnabled n))) ;;
    written ← on_host (WriteFeature path enableFeature);
    if negb written then mret (failed "Failed to enable numa sched feature") else
    low ← on_host (SetSchedUtilLowPct (bytes_of "100"));
    if negb low then
      on_host (WriteFeature path disableFeature) ;;
      mret (failed "Failed to set ched_util_low_pct to 100")
    else mret (ok "Success to enable numa sched feature")
  end.
Definition NumaSched_Disable : St (On NumaSched) unit :=
  s ← get;
  let n := own s in
  if isOriginalEnabled n then
    modify (set_own (mkNumaSched (schedFeatues n) (schedFeaturePath n) (originalSchedUtilLowPct n) false))
  else
  written ← on_host (WriteFeature (schedFeaturePath n) disableFeature);
  if negb written then mret tt else
  if decide (originalSchedUtilLowPct n = []) then mret tt else
  on_host (SetSchedUtilLowPct (originalSchedUtilLowPct n)) ;;
  modify (set_own (mkNumaSched (schedFeatues n) (schedFeaturePath n) [] false)).
End numa_sched.

(** ** Dynamic SMT *)

Definition smt_active : string := "/sys/devices/system/cpu/smt/active".
Definition smt_command : string := "zcat /proc/config.gz | grep CONFIG_SCHED_SMT".
Definition schedRatioPath : string := "/proc/sys/kernel/sched_util_ratio".
Definition schedFeaturesPaths : list string :=
  ["/sys/kernel/debug/sched/features"; "/sys/kernel/debug/sched_features"]%string.
Definition DYNAMIC_SMT_MIN_THRESHOLD : Z := 0.
Definition DYNAMIC_SMT_MAX_THRESHOLD : Z := 100.
Definition KEEP_ON_CORE : list byte := bytes_of "KEEP_ON_CORE".
Definition NO_KEEP_ON_CORE : list byte := bytes_of "NO_KEEP_ON_CORE".

Record DynamicSmt := mkDynamicSmt {
  initialStatus : bool; initialRatio : Z; schedUtilRatio : Z; schedFeaturesPath : string
}.
Definition DynamicSmt0 : DynamicSmt := mkDynamicSmt false (-1) 100 EmptyString.

(** [fgets] into a buffer, until the output ends: a line that is longer comes
    in parts. *)
Fixpoint fgets_parts (n size : nat) (l : list byte) : list (list byte) :=
  match n, l with
  | S n, _ :: _ =>
    let line := match find_byte newline l with Some p => take (S p) l | None => l end in
    let part := take size line in
    part :: fgets_parts n size (drop (length part) l)
  | _, _ => []
  end.

Section dynamic_smt.
Context `{MA : Machine} `{HB : !HashOrderOf (list byte)}.
(** A file of blanks leaves [smtActive] uninitialised. *)
Definition smt_is_active (text : list byte) : option bool :=
  if decide (skip_space text = []) then None else Some (bool_decide (extract_int 0 text = 1)).
Definition Smt_CheckEnv : St sys bool :=
  m ← get;
  match sys_read m smt_active with
  | None => mret false
  | Some text =>
    active ← deref (smt_is_active text);
    if negb active then mret false else
    out ← ExecCommand smt_command;
    mret (match out with
          | None => false
          | Some out => existsb (occurs (bytes_of "CONFIG_SCHED_SMT=y")) (fgets_parts (length out) 127 out)
          end)
  end.

(** The first line that names the feature tells whether it is on. *)
Fixpoint status_in (lines : list (list byte)) (status : bool) : bool :=
  match lines with
  | [] => status
  | line :: lines =>
    if occurs KEEP_ON_CORE line then negb (occurs NO_KEEP_ON_CORE line) else status_in lines status
  end.
(** The last file that can be read is the one. *)
Fixpoint find_features (m : sys) (paths : list string) (path : string) (status : bool) : string * bool :=
  match paths with
  | [] => (path, status)
  | p :: paths =>
    match sys_read m p with
    | None => find_features m paths path status
    | Some content => find_features m paths p (status_in (getline_all newline content) status)
    end
  end.
Definition InitSchedParam : St (On DynamicSmt) bool :=
  s ← get;
  let d := own s in
  let '(path, status) := find_features (host s) schedFeaturesPaths (schedFeaturesPath d) (initialStatus d) in
  modify (set_own (mkDynamicSmt status (initialRatio d) (schedUtilRatio d) path)) ;;
  if decide (path = EmptyString) then mret false else
  match sys_read (host s) schedRatioPath with
  | None => mret false
  | Some text =>
    modify (set_own (mkDynamicSmt status (extract_int (initialRatio d) text) (schedUtilRatio d) path)) ;;
    mret true
  end.

Definition SetSchedFeatures (filePath : string) (value : list byte) : St sys bool := WriteFile filePath value.

Definition threshold : list byte := bytes_of "threshold".
Definition invalid_params (params : gmap (list byte) (list byte)) (known : list byte) : list byte :=
  foldl (λ invalid key, if decide (key = known) then invalid
                        else (if decide (invalid = []) then [] else invalid ++ [comma]) ++ key)
    [] (order_of (dom params)).
(** A threshold that is refused has been stored. *)
Definition set_ratio (ratio : Z) (d : DynamicSmt) : DynamicSmt :=
  mkDynamicSmt (initialStatus d) (initialRatio d) ratio (schedFeaturesPath d).
Definition read_param (param : list byte) : St (On DynamicSmt) (option string) :=
  if decide (param = []) then mret None else
  let params := GetKeyValueFromString param in
  let invalid := invalid_params params threshold in
  if decide (invalid ≠ []) then
    mret (Some ("params (" +:+ str_of invalid +:+ ") invalid.")%string)
  else
  match params !! threshold with
  | None => mret None
  | Some value =>
    if negb (IsInteger value) then mret (Some "threshold value is not a integer."%string) else
    ratio ← lift (atoi value);
    s ← get;
    modify (set_own (set_ratio ratio (own s))) ;;
    mret (if decide (ratio < DYNAMIC_SMT_MIN_THRESHOLD ∨ DYNAMIC_SMT_MAX_THRESHOLD < ratio)
          then Some ("the threshold range is [0, 100], but is " +:+ str_of (to_string ratio))%string else None)
  end.

Definition Smt_Enable (param : list byte) : St (On DynamicSmt) Result :=
  env ← on_host Smt_CheckEnv;
  if negb env then mret (failed "Please enable SMT and include CONFIG_SCHED_SMT in kernel.") else
  found ← InitSchedParam;
  if negb found then mret (failed "Failed to found sched features file.") else
  refused ← read_param param;
  match (refused : option string) with
  | Some text => mret (failed text)
  | None =>
    s ← get;
    ratio ← on_host (SetSchedFeatures schedRatioPath (to_string (schedUtilRatio (own s))));
    if negb ratio then mret (failed "Failed to set sched_util_ratio.") else
    keep ← on_host (SetSchedFeatures (schedFeaturesPath (own s)) KEEP_ON_CORE);
    mret (if (keep : bool) then ok EmptyString else failed "Failed to set sched features.")
  end.
Definition Smt_Disable : St (On DynamicSmt) unit :=
  s ← get;
  let d := own s in
  (if initialStatus d then mret true else on_host (SetSchedFeatures (schedFeaturesPath d) NO_KEEP_ON_CORE)) ;;
  if decide (initialRatio d = -1) then mret tt
  else on_host (SetSchedFeatures schedRatioPath (to_string (initialRatio d))) ;; mret tt.
End dynamic_smt.

(** ** Stealing tasks *)

Definition steal_command : string := "zcat /proc/config.gz | grep CONFIG_SCHED_STEAL=y > /dev/null".
Definition CMDLINE_PATH : string := "/proc/cmdline".

Record StealTask := mkStealTask { sk_schedFeaturesPath : string; sk_cmdline : list byte }.
Definition StealTask0 : StealTask := mkStealTask EmptyString [].

Section steal_task.
Context `{MA : Machine}.
(** Whether the file opens for reading and writing. *)
Definition opens_out (m : sys) (path : string) : bool := (sys_write m path []).1.1.
Definition InitSchedFeaturesPath (m : sys) (path : string) : option string :=
  if decide (path ≠ EmptyString) then Some path else
  head (filter (λ p, opens_out m p = true) schedFeaturesPaths).
Definition Steal_Enable : St (On StealTask) Result :=
  status ← on_host (system steal_command);
  if decide (status = 1) then mret (failed "kernel should be compiled with CONFIG_SCHED_STEAL=y") else
  s ← get;
  let cmdline := match sys_read (host s) CMDLINE_PATH with
                 | None => sk_cmdline (own s)
                 | Some content => default [] (first_line content)
                 end in
  modify (set_own (mkStealTask (sk_schedFeaturesPath (own s)) cmdline)) ;;
  match InitSchedFeaturesPath (host s) (sk_schedFeaturesPath (own s)) with
  | None => modify (set_own (mkStealTask EmptyString cmdline)) ;;
            mret (failed "Failed to found sched features file")
  | Some path =>
    modify (set_own (mkStealTask path cmdline)) ;;
    steal ← on_host (WriteFile path (bytes_of "STEAL"));
    mret (if (steal : bool) then ok EmptyString else failed "Failed to set sched features")
  end.
Definition Steal_Disable : St (On StealTask) unit :=
  s ← get; on_host (WriteFile (sk_schedFeaturesPath (own s)) (bytes_of "NO_STEAL")) ;; mret tt.
End steal_task.

(** ** The seep governor *)

Definition governor_path (cpu : Z) : string :=
  ("/sys/devices/system/cpu/cpu" +:+ str_of (to_string cpu) +:+ "/cpufreq/scaling_governor")%string.
Definition modules_path : string := "/proc/modules".
Definition seep_command : string := "modprobe cpufreq_seep".
Definition SEEP : list byte := bytes_of "seep".

Record Seep := mkSeep { cpuNum : Z; cpuScaling : list (list byte) }.
Definition Seep0 : Seep := mkSeep 0 [].

Section seep.
Context `{MA : Machine}.
Definition WriteSeepFile (cpu : Z) (value : list byte) : St sys bool :=
  m ← get;
  if sys_exists m (governor_path cpu) then WriteFile (governor_path cpu) value else mret false.
Definition InsertSeepKo : St sys bool :=
  m ← get;
  match sys_read m modules_path with
  | None => mret false
  | Some content =>
    if existsb (occurs (bytes_of "cpufreq_seep")) (getline_all newline content) then mret false else
    result ← system seep_command; mret (bool_decide (result = 0))
  end.
(** The governors that are found are appended, up to the first that is not. *)
Fixpoint read_governors (m : sys) (cpus : list Z) (scaling : list (list byte)) : bool * list (list byte) :=
  match cpus with
  | [] => (true, scaling)
  | i :: cpus =>
    match sys_read m (governor_path i) with
    | None => (false, scaling)
    | Some content => read_governors m cpus (scaling ++ [default [] (first_line content)])
    end
  end.
Definition write_scaling (scaling : list (list byte)) (i : Z) : St sys unit :=
  value ← deref (at_index scaling i); WriteSeepFile i value ;; mret tt.
(** Every processor in turn; a failure takes the ones before it back. *)
Fixpoint set_seep (scaling : list (list byte)) (done cpus : list Z) : St sys (option Z) :=
  match cpus with
  | [] => mret None
  | i :: cpus =>
    r ← WriteSeepFile i SEEP;
    if (r : bool) then set_seep scaling (done ++ [i]) cpus
    else for_each done (write_scaling scaling) ;; mret (Some i)
  end.
Definition Seep_Enable : St (On Seep) Result :=
  inserted ← on_host InsertSeepKo;
  if negb inserted then mret (failed "modprobe cpufreq_seep.ko failed") else
  s ← get;
  let n := wrap CInt (sys_cpus (host s)) in
  modify (set_own (mkSeep n (cpuScaling (own s)))) ;;
  if decide (n = -1) then mret (failed "can not get the cpu num") else
  let '(found, scaling) := read_governors (host s) (seqZ 0 n) (cpuScaling (own s)) in
  modify (set_own (mkSeep n scaling)) ;;
  if negb found then mret (failed "Init failed") else
  bad ← on_host (set_seep scaling [] (seqZ 0 n));
  mret (match (bad : option Z) with
        | None => ok EmptyString
        | Some i => failed ("write seep to cpu" +:+ str_of (to_string i) +:+ " failed")%string
        end).
Definition Seep_Disable : St (On Seep) unit :=
  s ← get;
  for_each (seqZ 0 (cpuNum (own s))) (λ i, on_host (write_scaling (cpuScaling (own s)) i)) ;;
  modify (set_own (mkSeep (cpuNum (own s)) [])).
End seep.
