(* ===== verification/SwitchKernel.v ===== *)
(** * What the kernel's switches promise, and what their users promise back

    A setting is a file of one value or a feature of the scheduler.  An
    instance of the class [Switched] changes settings of its own and gives
    them back; instances that share none do so in any order. *)

From Stdlib Require Import ZArith Lia Strings.Byte.
From stdpp Require Import base list strings gmap numbers.
From S2P Require Import Prelude Bytes StdString Utils Daemon Config Machine Steps Switches.

Inductive Setting := File (path : string) | Feature (name : string).
#[export] Instance Setting_eq_dec : EqDecision Setting.
Proof. solve_decision. Defined.

(** The two values of a feature. *)
Definition feature_on (f : string) : list byte := bytes_of f.
Definition feature_off (f : string) : list byte := bytes_of ("NO_" +:+ f)%string.

Definition plain (f : string) : Prop := prefixb (bytes_of "NO_") (bytes_of f) = false.

(** The files of one value that the instances change. *)
Definition tuned (p : string) : Prop :=
  p ∈ [thpFileName; CLUSTER_PATH; schedUtilLowPctPath; schedRatioPath] ∨ ∃ i, p = governor_path i.

(** What stays when settings change. *)
Record env_same `{MA : Machine} (m m' : sys) : Prop := {
  env_exists p : p ∈ possiblePaths → sys_exists m' p = sys_exists m p;
  env_cpus : sys_cpus m' = sys_cpus m
}.
#[export] Instance env_same_preorder `{MA : Machine} : PreOrder env_same.
Proof.
  split; [by split|]. intros m1 m2 m3 [A1 A2] [B1 B2]. split; [|congruence].
  intros p Hp. by rewrite B1, A1.
Qed.

(** A file of one value shows it in its only line, that of huge pages in
    brackets; the file of the features shows their values as words.  A value
    that is taken replaces the old one and nothing else; the present value is
    one that is taken, and so are both values of a feature that the scheduler
    has.  No feature's name starts with [NO_], which stands for its absence. *)
Class SwitchKernel (MA : Machine) := {
  setting : sys → Setting → option (list byte);
  takes : string → list byte → bool;
  takes_current m p v : setting m (File p) = Some v → takes p v = true;
  file_read m p v : setting m (File p) = Some v → sys_exists m p = true ∧
    if decide (p = thpFileName)
    then ∃ pre post content, sys_read m p = Some content ∧
      first_line content = Some (pre ++ open_bracket :: v ++ close_bracket :: post) ∧
      open_bracket ∉ pre ∧ close_bracket ∉ v
    else sys_read m p = Some (v ++ [newline]) ∧ newline ∉ v;
  file_absent m p : tuned p → setting m (File p) = None → sys_exists m p = false ∧ sys_read m p = None;
  feature_value m f v : setting m (Feature f) = Some v →
    (v = feature_on f ∨ v = feature_off f) ∧ plain f;
  features_read m p : p ∈ possiblePaths →
    if sys_exists m p then ∃ line, sys_read m p = Some (line ++ [newline]) ∧ newline ∉ line ∧
      (∀ w, w ∈ words line ↔ ∃ f, setting m (Feature f) = Some w) ∧
      occurs KEEP_ON_CORE line = bool_decide (is_Some (setting m (Feature "KEEP_ON_CORE"))) ∧
      occurs NO_KEEP_ON_CORE line = bool_decide (setting m (Feature "KEEP_ON_CORE") = Some NO_KEEP_ON_CORE)
    else sys_read m p = None;
  file_write m p v : tuned p → ∃ m', sys_write m p v =
      (bool_decide (is_Some (setting m (File p))), bool_decide (is_Some (setting m (File p))) && takes p v, m') ∧
    env_same m m' ∧ ∀ k, setting m' k =
      if decide (k = File p ∧ is_Some (setting m k) ∧ takes p v = true) then Some v else setting m k;
  feature_write m p f v : p ∈ possiblePaths → plain f → v ∈ [feature_on f; feature_off f] → ∃ m', sys_write m p v =
      (sys_exists m p, sys_exists m p && bool_decide (is_Some (setting m (Feature f))), m') ∧
    env_same m m' ∧ ∀ k, setting m' k =
      if decide (sys_exists m p = true ∧ k = Feature f ∧ is_Some (setting m k)) then Some v else setting m k;
  command_kept m c : env_same m (sys_system m c).2 ∧ env_same m (sys_exec m c).2 ∧
    ∀ k, setting (sys_system m c).2 k = setting m k ∧ setting (sys_exec m c).2 k = setting m k
}.

(** ** Changing some settings *)

Section changes.
Context `{MA : Machine} `{SK : !SwitchKernel MA}.

(** At most the settings of [O] change, and none appears or goes. *)
Record changes (O : Setting → Prop) (m m' : sys) : Prop := {
  ch_env : env_same m m';
  ch_same k : ¬ O k → setting m' k = setting m k;
  ch_some k : is_Some (setting m' k) ↔ is_Some (setting m k)
}.
#[export] Instance changes_preorder O : PreOrder (changes O).
Proof.
  split; [by split|]. intros m1 m2 m3 [A1 A2 A3] [B1 B2 B3]. split.
  - by etransitivity.
  - intros k Hk. by rewrite B2, A2.
  - intros k. by rewrite B3, A3.
Qed.
Lemma changes_weaken (O O' : Setting → Prop) m m' : (∀ k, O k → O' k) → changes O m m' → changes O' m m'.
Proof. intros H [A1 A2 A3]. split; [done| |done]. intros k Hk. apply A2. auto. Qed.

(** The value of [k] was replaced, if [b]. *)
Definition wrote (k : Setting) (v : list byte) (b : bool) (m m' : sys) : Prop :=
  ∀ q, setting m' q = if decide (q = k ∧ b = true) then Some v else setting m q.
Lemma wrote_at k v m m' : wrote k v true m m' → setting m' k = Some v.
Proof. intros H. by rewrite H, decide_True. Qed.
Lemma wrote_ne k v b m m' q : wrote k v b m m' → q ≠ k → setting m' q = setting m q.
Proof. intros H Hq. by rewrite H, decide_False by naive_solver. Qed.
Lemma wrote_not k v m m' q : wrote k v false m m' → setting m' q = setting m q.
Proof. intros H. by rewrite H, decide_False by naive_solver. Qed.

(** Whether there is the setting. *)
Definition present (m : sys) (k : Setting) : bool := bool_decide (is_Some (setting m k)).
Lemma wrote_changes (O : Setting → Prop) k v b m m' :
  O k → env_same m m' → wrote k v (present m k && b) m m' → changes O m m'.
Proof.
  intros HO Hm H. split; [done|..]; intros q.
  - intros Hq. apply (wrote_ne _ _ _ _ _ _ H). by intros ->.
  - rewrite (H q). destruct (decide _) as [[-> Hb]|]; [|done]. unfold present in Hb.
    apply andb_true_iff in Hb as [Hb%bool_decide_eq_true _]. split; [done|by eexists].
Qed.

(** Writing a file, and what becomes of its value. *)
Lemma on_file_twp (O : Setting → Prop) p v m :
  tuned p → O (File p) →
  twp (on_file p v) (λ r m', changes O m m' ∧ r = (present m (File p), present m (File p) && takes p v) ∧
    wrote (File p) v (present m (File p) && takes p v) m m') m.
Proof.
  intros Ht HO. destruct (file_write m p v Ht) as (m' & E & Hm & Hk). unfold on_file, twp. rewrite E.
  assert (wrote (File p) v (present m (File p) && takes p v) m m') as Hw.
  { intros q. rewrite Hk. apply decide_ext. unfold present. rewrite andb_true_iff, bool_decide_eq_true. naive_solver. }
  split; [by eapply wrote_changes|done].
Qed.
(** Writing a feature. *)
Lemma on_feature_twp (O : Setting → Prop) p f v m :
  p ∈ possiblePaths → plain f → v ∈ [feature_on f; feature_off f] → O (Feature f) →
  twp (on_file p v) (λ r m', changes O m m' ∧ r = (sys_exists m p, sys_exists m p && present m (Feature f)) ∧
    wrote (Feature f) v (present m (Feature f) && sys_exists m p) m m') m.
Proof.
  intros Hp Hf Hv HO. destruct (feature_write m p f v Hp Hf Hv) as (m' & E & Hm & Hk). unfold on_file, twp. rewrite E.
  assert (wrote (Feature f) v (present m (Feature f) && sys_exists m p) m m') as Hw.
  { intros q. rewrite Hk. apply decide_ext. unfold present. rewrite andb_true_iff, bool_decide_eq_true. naive_solver. }
  split; [by eapply wrote_changes|done].
Qed.
Lemma commands_change O m c : changes O m (sys_system m c).2 ∧ changes O m (sys_exec m c).2.
Proof.
  destruct (command_kept m c) as (A & B & H). split; split; try done; intros k.
  - intros _. apply H.
  - by destruct (H k) as [-> _].
  - intros _. apply H.
  - by destruct (H k) as [_ ->].
Qed.

Lemma first_line_only v : newline ∉ v → first_line (v ++ [newline]) = Some v.
Proof.
  intros Hv. unfold first_line, getline_all. by rewrite getline_go_token by done.
Qed.
Lemma lines_only v : newline ∉ v → getline_all newline (v ++ [newline]) = [v].
Proof. intros Hv. unfold getline_all. by rewrite getline_go_token by done. Qed.
End changes.

(** ** Instances that give back what they change *)

(** [sw_ready m0 p m]: the instance with the object [p] is disabled, on the
    machine [m], and its settings are those of [m0]; [sw_saved m0 p m]: it is
    enabled, and has saved the settings of [m0] that it returns. *)
Class Switched `{MA : Machine} `{SK : !SwitchKernel MA} (P : Type) := {
  sw_owns : Setting → Prop;
  sw_returns : Setting → Prop;
  sw_enable : list byte → St (On P) Result;
  sw_disable : St (On P) unit;
  sw_ready : sys → P → sys → Prop;
  sw_saved : sys → P → sys → Prop;
  sw_owns_dec k : Decision (sw_owns k);
  sw_returned m0 p m k : sw_ready m0 p m → sw_returns k → setting m k = setting m0 k;
  sw_ready_local m0 p m m' : changes (λ k, ¬ sw_owns k) m m' → sw_ready m0 p m → sw_ready m0 p m';
  sw_saved_local m0 p m m' : changes (λ k, ¬ sw_owns k) m m' → sw_saved m0 p m → sw_saved m0 p m';
  sw_enabled m0 param s : sw_ready m0 (own s) (host s) →
    ends (sw_enable param) (λ r s', changes sw_owns (host s) (host s') ∧
      if decide (r_code r = Some OK) then sw_saved m0 (own s') (host s')
      else sw_ready m0 (own s') (host s')) s;
  sw_disabled m0 s : sw_saved m0 (own s) (host s) →
    twp sw_disable (λ _ s', changes sw_owns (host s) (host s') ∧ sw_ready m0 (own s') (host s')) s
}.

(** ** Several instances on one machine *)

Section family.
Context `{MA : Machine} `{SK : !SwitchKernel MA}.
Context {T : Type} `{EqDecision T} (P : T → Type) `{SW : ∀ t, Switched (P t)}.
Context (apart : ∀ t u k, t ≠ u → sw_owns (P:=P t) k → ¬ sw_owns (P:=P u) k).
Context (owned_dec : ∀ k, Decision (∃ t, sw_owns (P:=P t) k)).

(** The instances, which of them are enabled, and the machine. *)
Record Tuned := mkTuned { objects : ∀ t, P t; enabled : T → bool; tuned_sys : sys }.

Definition put_object (t : T) (p : P t) (f : ∀ t, P t) : ∀ t, P t := λ u,
  match decide (t = u) with left e => eq_rect t P p u e | right _ => f u end.
Definition put_enabled (t : T) (b : bool) (f : T → bool) : T → bool := λ u, if decide (t = u) then b else f u.
Definition focus (t : T) (s : Tuned) : On (P t) := mkOn (objects s t) (tuned_sys s).
Definition unfocus (t : T) (o : On (P t)) (s : Tuned) : Tuned :=
  mkTuned (put_object t (own o) (objects s)) (enabled s) (host o).

(** The daemon enables an instance that is disabled, and disables one that
    is enabled; one whose [Enable] fails stays disabled. *)
Definition Tuned_Enable (t : T) (param : list byte) : St Tuned Result :=
  r ← zoom (focus t) (unfocus t) (sw_enable param);
  modify (λ s, mkTuned (objects s) (put_enabled t (bool_decide (r_code r = Some OK)) (enabled s)) (tuned_sys s)) ;;
  mret r.
Definition Tuned_Disable (t : T) : St Tuned unit :=
  zoom (focus t) (unfocus t) sw_disable ;;
  modify (λ s, mkTuned (objects s) (put_enabled t false (enabled s)) (tuned_sys s)).
Inductive tuned_step : Tuned → Tuned → Prop :=
| step_on t param r s s' : enabled s t = false → Tuned_Enable t param s = Ret (r, s') → tuned_step s s'
| step_off t s s' : enabled s t = true → Tuned_Disable t s = Ret (tt, s') → tuned_step s s'.

Lemma put_object_eq t p f : put_object t p f t = p.
Proof. unfold put_object. destruct (decide (t = t)) as [e|]; [|done]. by rewrite (proof_irrel e eq_refl). Qed.
Lemma put_object_ne t u p f : t ≠ u → put_object t p f u = f u.
Proof. intros Hn. unfold put_object. by destruct (decide (t = u)). Qed.
Lemma put_enabled_eq t b f : put_enabled t b f t = b.
Proof. unfold put_enabled. by rewrite decide_True. Qed.
Lemma put_enabled_ne t u b f : t ≠ u → put_enabled t b f u = f u.
Proof. intros Hn. unfold put_enabled. by rewrite decide_False. Qed.

(** Who is enabled has saved what it returns; who is not has returned it;
    what nobody owns is as it was. *)
Record family_inv (m0 : sys) (s : Tuned) : Prop := {
  fi_object t : if enabled s t then sw_saved m0 (objects s t) (tuned_sys s)
                else sw_ready m0 (objects s t) (tuned_sys s);
  fi_free k : (∀ t, ¬ sw_owns (P:=P t) k) → setting (tuned_sys s) k = setting m0 k
}.

Lemma family_moved m0 t b p m s :
  family_inv m0 s → changes (sw_owns (P:=P t)) (tuned_sys s) m →
  (if (b : bool) then sw_saved m0 p m else sw_ready m0 p m) →
  family_inv m0 (mkTuned (put_object t p (objects s)) (put_enabled t b (enabled s)) m).
Proof.
  intros [Ho Hf] Hc Hp. split; simpl.
  - intros u. destruct (decide (t = u)) as [<-|Hn]; [by rewrite put_object_eq, put_enabled_eq|].
    rewrite put_object_ne, put_enabled_ne by done. specialize (Ho u).
    assert (changes (λ k, ¬ sw_owns (P:=P u) k) (tuned_sys s) m) as Hcu.
    { eapply changes_weaken; [|exact Hc]. intros k. by apply apart. }
    destruct (enabled s u); [by eapply sw_saved_local|by eapply sw_ready_local].
  - intros k Hk. rewrite <-Hf by done. apply Hc, Hk.
Qed.

Lemma enable_inv m0 t param s :
  family_inv m0 s → enabled s t = false → ends (Tuned_Enable t param) (λ _ s', family_inv m0 s') s.
Proof.
  intros Hi Ht. apply ends_then. pose proof (fi_object _ _ Hi t) as Ho. rewrite Ht in Ho.
  pose proof (sw_enabled m0 param (focus t s) Ho) as He. unfold ends, zoom in He |- *.
  destruct (sw_enable param (focus t s)) as [[r o]| |]; [|done..]. simpl in He |- *.
  destruct He as [Hc Hr]. apply (family_moved m0 t _ (own o) (host o) s Hi Hc).
  destruct (decide (r_code r = Some OK)); [by rewrite bool_decide_true|by rewrite bool_decide_false].
Qed.
Lemma disable_inv m0 t s :
  family_inv m0 s → enabled s t = true → twp (Tuned_Disable t) (λ _ s', family_inv m0 s') s.
Proof.
  intros Hi Ht. apply twp_bind. pose proof (fi_object _ _ Hi t) as Ho. rewrite Ht in Ho.
  pose proof (sw_disabled m0 (focus t s) Ho) as He. unfold twp, zoom in He |- *.
  destruct (sw_disable (focus t s)) as [[r o]| |]; [|done..]. simpl in He |- *.
  destruct He as [Hc Hr]. by apply (family_moved m0 t false (own o) (host o) s Hi Hc).
Qed.

Lemma family_steps m0 s s' : rtc tuned_step s s' → family_inv m0 s → family_inv m0 s'.
Proof.
  induction 1 as [|s1 s2 s3 Hs _ IH]; [done|]. intros Hi. apply IH. destruct Hs as [t param r s s' Ht E|t s s' Ht E].
  - pose proof (enable_inv m0 t param s Hi Ht) as He. unfold ends in He. by rewrite E in He.
  - pose proof (disable_inv m0 t s Hi Ht) as He. unfold twp in He. by rewrite E in He.
Qed.

(** What an enabled instance does not own is given back. *)
Lemma family_back m0 s k :
  family_inv m0 s →
  (∀ t, sw_owns (P:=P t) k → enabled s t = false ∧ sw_returns (P:=P t) k) →
  setting (tuned_sys s) k = setting m0 k.
Proof.
  intros [Ho Hf] Hk. destruct (owned_dec k) as [[t Ht]|Hn]; [|apply Hf; intros t Ht; apply Hn; by exists t].
  destruct (Hk t Ht) as [E Hr].
  specialize (Ho t). rewrite E in Ho. by eapply sw_returned.
Qed.
End family.
