(* ===== verification/SwitchTheorems.v ===== *)
(** * The kernel's switches are given back

    Each of the instances of Switches.v is an instance of [Switched]; enabled
    and disabled in any order, they leave the kernel's settings as they were. *)

From Stdlib Require Import ZArith Lia Strings.Byte.
From stdpp Require Import base list strings gmap numbers.
From S2P Require Import Prelude Bytes StdString Utils Daemon Config Machine Steps DirWalk CoordBurst CoordBurstTheorems.
From S2P Require Import Switches SwitchKernel.

Section instances.
Context `{MA : Machine} `{SK : !SwitchKernel MA}.

Lemma on_host_twp {P A} (c : St sys A) (Q : A → On P → Prop) s :
  twp c (λ a m, Q a (mkOn (own s) m)) (host s) → twp (on_host c) Q s.
Proof. unfold twp, on_host, zoom. by destruct (c (host s)) as [[a m]| |]. Qed.

(** A setting of [O] that is as it was, or owned by somebody else. *)
Lemma kept_local (O : Setting → Prop) m m' k : changes (λ k, ¬ O k) m m' → O k → setting m' k = setting m k.
Proof. intros [_ H _] Hk. by apply H; intros []. Qed.

Lemma changes_none (O : Setting → Prop) m m' k :
  changes O m m' → setting m k = None → setting m' k = setting m k.
Proof.
  intros Hc E. pose proof (ch_some _ _ _ Hc k) as H. rewrite E in H |- *.
  destruct (setting m' k); [|done]. destruct H as [[] _]; [by eexists|done].
Qed.

(** ** Transparent huge pages *)

Definition THP : Setting := File thpFileName.
Lemma thp_tuned : tuned thpFileName.
Proof. left. apply list_elem_of_here. Qed.

Lemma GetInitialThpMode_setting m v : setting m THP = Some v → GetInitialThpMode m = v.
Proof.
  intros E. destruct (file_read _ _ _ E) as [_ H]. rewrite decide_True in H by done.
  destruct H as (pre & post & content & Er & El & Hpre & Hv). unfold GetInitialThpMode. rewrite Er, El. simpl.
  unfold mode_in. rewrite find_byte_app by done.
  replace (drop (S (length pre)) (pre ++ open_bracket :: v ++ close_bracket :: post)) with (v ++ close_bracket :: post).
  2: { rewrite drop_app_ge by lia. by replace (S (length pre) - length pre)%nat with 1%nat by lia. }
  rewrite find_byte_app by done. simpl. by rewrite take_app_length.
Qed.

(** The text is written, if it is not empty and there is the file. *)
Lemma SetThpMode_twp (O : Setting → Prop) mode m :
  O THP → mode ≠ [] →
  twp (SetThpMode mode) (λ r m', changes O m m' ∧ r = (if present m THP then 0 else -1) ∧
    wrote THP mode (present m THP && takes thpFileName mode) m m') m.
Proof.
  intros HO Em. unfold SetThpMode. rewrite decide_False by done. apply twp_bind.
  eapply twp_mono; [apply (on_file_twp O); [exact thp_tuned|exact HO]|].
  intros [o t] m' (Hc & [= -> ->] & Hk). by apply twp_ret.
Qed.
Lemma present_some m k v : setting m k = Some v → present m k = true.
Proof. intros E. unfold present. rewrite bool_decide_eq_true, E. by eexists. Qed.
Lemma present_none m k : setting m k = None → present m k = false.
Proof. intros E. unfold present. rewrite bool_decide_eq_false, E. by intros [v [=]]. Qed.
Lemma present_not m k : present m k = false → setting m k = None.
Proof. intros H%bool_decide_eq_false. destruct (setting m k); [|done]. destruct H. by eexists. Qed.
Lemma present_changes O m m' k : changes O m m' → present m' k = present m k.
Proof. intros Hc. apply bool_decide_ext, Hc. Qed.

(** Writing the value that the setting had. *)
Lemma wrote_back p v m0 m m' :
  setting m0 (File p) = Some v → present m (File p) = true →
  wrote (File p) v (present m (File p) && takes p v) m m' → setting m' (File p) = setting m0 (File p).
Proof. intros E Hp H. rewrite Hp, (takes_current _ _ _ E) in H. rewrite E. by apply (wrote_at _ _ _ _ H). Qed.

Definition thp_ok (m0 : sys) : Prop := ∀ v, setting m0 THP = Some v → v ≠ [].
#[export] Program Instance thp_switched : Switched Thp := {|
  sw_owns k := k = THP;
  sw_owns_dec k := decide (k = THP);
  sw_returns k := k = THP;
  sw_enable _ := Thp_Enable;
  sw_disable := Thp_Disable;
  sw_ready m0 _ m := thp_ok m0 ∧ setting m THP = setting m0 THP;
  sw_saved m0 p m := thp_ok m0 ∧ present m THP = true ∧ thpStateRestored p = false ∧
    setting m0 THP = Some (initialThpMode p)
|}.
Next Obligation. by intros m0 p m k [_ H] ->. Qed.
Next Obligation. intros m0 p m m' Hc [H1 H2]. split; [done|]. by rewrite (kept_local _ _ _ _ Hc). Qed.
Next Obligation. intros m0 p m m' Hc (H1 & H2 & H3). by rewrite (present_changes _ _ _ _ Hc). Qed.
Next Obligation.
  intros m0 param [p m] [Hok Hs]. apply ends_twp. unfold Thp_Enable. apply twp_bind, twp_get, twp_bind, twp_modify.
  apply twp_bind, on_host_twp. eapply twp_mono; [by apply (SetThpMode_twp (λ k, k = THP))|].
  intros r m' (Hc & -> & _). apply twp_ret. split; [done|]. simpl in *. destruct (present m THP) eqn:Hp.
  - rewrite decide_True by done. rewrite (present_changes _ _ _ _ Hc). do 3 (split; [done|]).
    rewrite <-Hs. apply bool_decide_eq_true in Hp as [v Ev]. by rewrite Ev, (GetInitialThpMode_setting _ _ Ev).
  - rewrite decide_False by done. split; [done|]. rewrite <-Hs.
    apply (changes_none _ _ _ _ Hc). by apply present_not.
Qed.
Next Obligation.
  intros m0 [p m] (Hok & Hp & Hr & E). simpl in *. unfold Thp_Disable. apply twp_bind, twp_get. simpl. rewrite Hr.
  apply twp_bind, on_host_twp. eapply twp_mono; [apply (SetThpMode_twp (λ k, k = THP)); [done|by apply Hok]|].
  intros r m' (Hc & -> & Hw). simpl in *. rewrite Hp. rewrite decide_True by done. apply twp_modify.
  split; [done|]. split; [done|]. by eapply wrote_back.
Qed.

(** ** Scheduling by clusters *)

Definition CLUSTER : Setting := File CLUSTER_PATH.
Lemma cluster_tuned : tuned CLUSTER_PATH.
Proof. left. apply list_elem_of_further, list_elem_of_here. Qed.

(** A file with a flush: whether its value was replaced. *)
Lemma WriteFile_twp (O : Setting → Prop) p v m :
  tuned p → O (File p) →
  twp (WriteFile p v) (λ r m', changes O m m' ∧ r = present m (File p) && takes p v ∧ wrote (File p) v r m m') m.
Proof.
  intros Ht HO. apply twp_bind. eapply twp_mono; [by apply (on_file_twp O)|].
  intros [o t] m' (Hc & [= -> ->] & Hk). apply twp_ret. by rewrite andb_assoc, andb_diag.
Qed.
Lemma file_exists m p : tuned p → sys_exists m p = present m (File p).
Proof.
  intros Ht. destruct (setting m (File p)) eqn:E.
  - rewrite (present_some _ _ _ E). by apply file_read in E as [-> _].
  - destruct (file_absent _ _ Ht E) as [-> _]. by rewrite (present_none _ _ E).
Qed.
Lemma file_opens m p : tuned p → opens_in m p = present m (File p).
Proof.
  intros Ht. unfold opens_in. destruct (setting m (File p)) eqn:E.
  - rewrite (present_some _ _ _ E), bool_decide_true; [done|]. destruct (file_read _ _ _ E) as [_ H].
    destruct (decide _); [destruct H as (? & ? & ? & -> & _)|destruct H as [-> _]]; by eexists.
  - destruct (file_absent _ _ Ht E) as [_ ->]. rewrite (present_none _ _ E).
    by rewrite bool_decide_false by by intros [].
Qed.
Lemma value_read m p v : p ≠ thpFileName → setting m (File p) = Some v →
  sys_read m p = Some (v ++ [newline]) ∧ newline ∉ v.
Proof. intros Hp E. destruct (file_read _ _ _ E) as [_ H]. by rewrite decide_False in H. Qed.

Lemma ReadClusterFile_setting m old v : setting m CLUSTER = Some v → ReadClusterFile m old = Some v.
Proof.
  intros E. unfold ReadClusterFile, ReadFile. rewrite (file_exists _ _ cluster_tuned).
  fold CLUSTER. rewrite (present_some _ _ _ E).
  destruct (value_read _ CLUSTER_PATH _ ltac:(done) E) as [-> Hv]. simpl. by rewrite lines_only.
Qed.
(** A file that is only written when there is one. *)
Lemma write_existing_twp (O : Setting → Prop) p v m :
  tuned p → O (File p) →
  twp (m ← get; if sys_exists m p then WriteFile p v else mret false) (λ r m', changes O m m' ∧
    r = present m (File p) && takes p v ∧ wrote (File p) v r m m') m.
Proof.
  intros Ht HO. apply twp_bind, twp_get. rewrite (file_exists _ _ Ht). destruct (present m (File p)) eqn:Hp.
  - eapply twp_mono; [by apply (WriteFile_twp O)|]. intros r m' (Hc & -> & Hw). by rewrite Hp in Hw |- *.
  - apply twp_ret. split; [reflexivity|]. split; [done|]. intros q. by rewrite decide_False by naive_solver.
Qed.
Lemma WriteClusterFile_twp v m :
  twp (WriteClusterFile v) (λ r m', changes (λ k, k = CLUSTER) m m' ∧
    r = present m CLUSTER && takes CLUSTER_PATH v ∧ wrote CLUSTER v r m m') m.
Proof. by apply (write_existing_twp (λ k, k = CLUSTER)); [exact cluster_tuned|]. Qed.

#[export] Program Instance cluster_switched : Switched ClusterCpu := {|
  sw_owns k := k = CLUSTER;
  sw_owns_dec k := decide (k = CLUSTER);
  sw_returns k := k = CLUSTER;
  sw_enable _ := Cluster_Enable;
  sw_disable := Cluster_Disable;
  sw_ready m0 _ m := setting m CLUSTER = setting m0 CLUSTER;
  sw_saved m0 p m := present m CLUSTER = true ∧ setting m0 CLUSTER = Some (ClusterStatus p)
|}.
Next Obligation. by intros m0 p m k H ->. Qed.
Next Obligation. intros m0 p m m' Hc H. cbv beta in *. by rewrite (kept_local _ _ _ _ Hc). Qed.
Next Obligation. intros m0 p m m' Hc H. cbv beta in *. by rewrite (present_changes _ _ _ _ Hc). Qed.
Next Obligation.
  intros m0 param [p m] Hs. simpl in *. apply ends_twp. unfold Cluster_Enable. apply twp_bind, twp_get. simpl.
  rewrite (file_opens _ _ cluster_tuned). fold CLUSTER. destruct (present m CLUSTER) eqn:Hp; simpl.
  2: { apply twp_ret. split; [reflexivity|]. by rewrite decide_False. }
  pose proof Hp as Hp'. apply bool_decide_eq_true in Hp' as [v Ev]. rewrite (ReadClusterFile_setting _ _ _ Ev).
  apply twp_bind, twp_modify, twp_bind, on_host_twp. eapply twp_mono; [apply WriteClusterFile_twp|].
  intros r m' (Hc & -> & Hw). simpl in *. apply twp_ret. split; [done|]. rewrite Hp in Hw |- *. simpl in *.
  destruct (takes CLUSTER_PATH ENABLE_CLUSTER).
  - rewrite decide_True by done. rewrite (present_changes _ _ _ _ Hc). split; [done|]. by rewrite <-Hs.
  - rewrite decide_False by done. simpl. by rewrite (wrote_not _ _ _ _ _ Hw).
Qed.
Next Obligation.
  intros m0 [p m] [Hp E]. simpl in *. unfold Cluster_Disable. apply twp_bind, twp_get, twp_bind, on_host_twp. simpl.
  eapply twp_mono; [apply WriteClusterFile_twp|]. intros r m' (Hc & -> & Hw). apply twp_ret. split; [done|].
  by eapply wrote_back.
Qed.

(** ** Parallel scheduling on NUMA nodes *)

Definition PARAL : Setting := Feature "PARAL".
Definition LOW : Setting := File schedUtilLowPctPath.
Lemma low_tuned : tuned schedUtilLowPctPath.
Proof. left. do 2 apply list_elem_of_further. apply list_elem_of_here. Qed.

Lemma feature_off_inj f g : feature_off f = feature_off g → f = g.
Proof. unfold feature_off. rewrite !bytes_of_append. intros H%app_inv_head. by apply (inj bytes_of). Qed.

(** Where a value stands, the feature is known. *)
Lemma feature_of_on m f g : plain g →
  setting m (Feature f) = Some (feature_on g) → f = g.
Proof.
  intros Hg E. destruct (feature_value _ _ _ E) as [[H|H] _]; [by apply (inj bytes_of) in H|].
  unfold plain, feature_on, feature_off in *. rewrite H, bytes_of_append, prefixb_app in Hg. done.
Qed.
Lemma feature_of_off m f g : setting m (Feature f) = Some (feature_off g) → f = g.
Proof.
  intros E. destruct (feature_value _ _ _ E) as [[H|H] Hf]; [|by apply feature_off_inj in H].
  unfold plain, feature_on, feature_off in *. rewrite bytes_of_append in H. by rewrite <-H, prefixb_app in Hf.
Qed.

Lemma first_path_spec m paths :
  match first_path m paths with
  | Some p => p ∈ paths ∧ sys_exists m p = true
  | None => True
  end.
Proof.
  induction paths as [|p paths IH]; [done|]. simpl. destruct (sys_exists m p) eqn:E.
  - split; [apply list_elem_of_here|done].
  - destruct (first_path m paths); [|done]. destruct IH. split; [by apply list_elem_of_further|done].
Qed.
Lemma features_found m path features :
  ReadSchedFeatures m [] = (path, features) → features ≠ [] →
  path ∈ possiblePaths ∧ sys_exists m path = true ∧ ∀ w, w ∈ features ↔ ∃ f, setting m (Feature f) = Some w.
Proof.
  unfold ReadSchedFeatures. pose proof (first_path_spec m possiblePaths) as Hp.
  destruct (first_path m possiblePaths) as [p|]; [|by intros [= <- <-]]. destruct Hp as [Hp He].
  intros [= <- <-] _. split; [done|]. split; [done|]. intros w. pose proof (features_read m p Hp) as Hr.
  rewrite He in Hr. destruct Hr as (line & -> & Hn & Hw & _). rewrite lines_only by done. simpl.
  by rewrite app_nil_r, Hw.
Qed.
Lemma parallel_status m path features :
  ReadSchedFeatures m [] = (path, features) →
  if IsSupportNumaSched features then
    path ∈ possiblePaths ∧ sys_exists m path = true ∧
    (IsFeatureEnabled features = false → setting m PARAL = Some disableFeature)
  else IsFeatureEnabled features = false.
Proof.
  intros E. destruct (IsSupportNumaSched features) eqn:Hs.
  - apply existsb_exists in Hs as (w & Hw & Hv%bool_decide_eq_true). apply list_elem_of_In in Hw.
    destruct (features_found _ _ _ E) as (Hp & He & Hf); [by intros ->; apply elem_of_nil in Hw|].
    split; [done|]. split; [done|]. intros Hoff. apply Hf in Hw as [f Hw]. destruct Hv as [->| ->].
    + exfalso. assert (IsFeatureEnabled features = true) as Ht; [|congruence]. apply existsb_exists.
      exists enableFeature. rewrite <-list_elem_of_In, Hf. split; [by eexists|by apply bool_decide_eq_true].
    + by rewrite (feature_of_off _ f "PARAL" Hw) in Hw.
  - destruct (IsFeatureEnabled features) eqn:He; [|done]. exfalso.
    apply existsb_exists in He as (w & Hw & Hv%bool_decide_eq_true).
    assert (IsSupportNumaSched features = true) as Ht; [|congruence]. apply existsb_exists.
    exists w. split; [done|]. apply bool_decide_eq_true. by left.
Qed.

Lemma WriteFeature_twp (O : Setting → Prop) p f v m :
  p ∈ possiblePaths → plain f → v ∈ [feature_on f; feature_off f] → O (Feature f) → sys_exists m p = true →
  twp (WriteFeature p v) (λ r m', changes O m m' ∧ r = true ∧ sys_exists m' p = true ∧
    wrote (Feature f) v (present m (Feature f)) m m') m.
Proof.
  intros Hp Hf Hv HO He. apply twp_bind. eapply twp_mono; [by apply (on_feature_twp O _ f)|].
  intros [o t] m' (Hc & [= -> ->] & Hk). apply twp_ret. rewrite He, andb_true_r in *. split; [done|].
  split; [done|]. split; [|done]. rewrite <-He. by apply Hc.
Qed.
Lemma SetSchedUtilLowPct_twp (O : Setting → Prop) v m :
  O LOW → twp (SetSchedUtilLowPct v) (λ r m', changes O m m' ∧ r = present m LOW ∧
    wrote LOW v (present m LOW && takes schedUtilLowPctPath v) m m') m.
Proof.
  intros HO. apply twp_bind. eapply twp_mono; [apply (on_file_twp O); [exact low_tuned|exact HO]|].
  intros [o t] m' (Hc & [= -> ->] & Hk). by apply twp_ret.
Qed.
Lemma SaveSchedUtilLowPct_setting m : SaveSchedUtilLowPct m = setting m LOW.
Proof.
  unfold SaveSchedUtilLowPct. destruct (setting m LOW) as [v|] eqn:E.
  - destruct (value_read _ schedUtilLowPctPath _ ltac:(done) E) as [-> Hv]. simpl. by rewrite first_line_only.
  - by destruct (file_absent _ _ low_tuned E) as [_ ->].
Qed.

Definition numa_owns (k : Setting) : Prop := k = PARAL ∨ k = LOW.
#[export] Instance numa_owns_dec k : Decision (numa_owns k).
Proof. unfold numa_owns. apply _. Defined.
Definition numa_same (m0 m : sys) : Prop := setting m PARAL = setting m0 PARAL ∧ setting m LOW = setting m0 LOW.
Definition low_ok (m0 : sys) : Prop := ∀ v, setting m0 LOW = Some v → v ≠ [].
Definition numa_saved (m0 : sys) (p : NumaSched) (m : sys) : Prop :=
  if isOriginalEnabled p then numa_same m0 m
  else schedFeaturePath p ∈ possiblePaths ∧ sys_exists m (schedFeaturePath p) = true ∧
    present m PARAL = true ∧ present m LOW = true ∧
    setting m0 PARAL = Some disableFeature ∧ setting m0 LOW = Some (originalSchedUtilLowPct p).

Lemma numa_same_local m0 m m' : changes (λ k, ¬ numa_owns k) m m' → numa_same m0 m → numa_same m0 m'.
Proof.
  intros Hc [H1 H2]. split; rewrite (kept_local _ _ _ _ Hc); [done|by left|done|by right].
Qed.
Lemma numa_enabled m0 s :
  low_ok m0 → isOriginalEnabled (own s) = false → numa_same m0 (host s) →
  twp NumaSched_Enable (λ r s', changes numa_owns (host s) (host s') ∧
    if decide (r_code r = Some OK) then numa_saved m0 (own s') (host s')
    else isOriginalEnabled (own s') = false ∧ numa_same m0 (host s')) s.
Proof.
  intros Hok Ho Hs. destruct s as [p m]. simpl in *. unfold NumaSched_Enable. apply twp_bind, twp_get. simpl.
  destruct (ReadSchedFeatures m []) as [path features] eqn:E. pose proof (parallel_status _ _ _ E) as Hst.
  apply twp_bind, twp_modify. destruct (IsSupportNumaSched features); cbn [negb].
  2: { apply twp_ret. split; [reflexivity|]. by rewrite decide_False. }
  destruct Hst as (Hp & He & Hoff). destruct (IsFeatureEnabled features).
  { apply twp_bind, twp_modify, twp_ret. split; [reflexivity|]. by rewrite decide_True. }
  specialize (Hoff eq_refl). destruct Hs as [Hs1 Hs2]. rewrite SaveSchedUtilLowPct_setting.
  destruct (setting m LOW) as [low|] eqn:El.
  2: { apply twp_ret. split; [reflexivity|]. rewrite decide_False by done. split; [exact Ho|]. split; [exact Hs1|]. by rewrite <-Hs2. }
  apply twp_bind, twp_modify, twp_bind, on_host_twp. simpl.
  eapply twp_mono; [apply (WriteFeature_twp numa_owns _ "PARAL"); [done|done|by apply list_elem_of_here|by left|done]|].
  intros r m1 (Hc1 & -> & He1 & _). cbn [negb]. apply twp_bind, on_host_twp. simpl.
  eapply twp_mono; [apply (SetSchedUtilLowPct_twp numa_owns); by right|]. intros r m2 (Hc2 & -> & _).
  rewrite (present_changes _ _ _ _ Hc1), (present_some _ _ _ El). cbn [negb]. apply twp_ret. simpl.
  assert (changes numa_owns m m2) as Hc by (by transitivity m1). split; [done|].
  unfold numa_saved. simpl. rewrite Ho, !(present_changes _ _ _ _ Hc), (present_some _ _ _ El), (present_some _ _ _ Hoff).
  rewrite <-Hs1, <-Hs2, Hoff. split; [done|]. split; [|done]. rewrite <-He1. by apply Hc2.
Qed.
Lemma numa_disabled m0 s :
  low_ok m0 → numa_saved m0 (own s) (host s) →
  twp NumaSched_Disable (λ _ s', changes numa_owns (host s) (host s') ∧
    isOriginalEnabled (own s') = false ∧ numa_same m0 (host s')) s.
Proof.
  intros Hok Hs. destruct s as [p m]. unfold numa_saved in Hs. simpl in *. unfold NumaSched_Disable.
  apply twp_bind, twp_get. simpl. destruct (isOriginalEnabled p) eqn:Ho; [by apply twp_modify|].
  destruct Hs as (Hp & He & Hpp & Hpl & E1 & E2). apply twp_bind, on_host_twp. simpl.
  eapply twp_mono; [apply (WriteFeature_twp numa_owns _ "PARAL"); [done|done| |by left|done]|].
  { apply list_elem_of_further, list_elem_of_here. }
  intros r m1 (Hc1 & -> & _ & Hw1). cbn [negb]. fold PARAL in Hw1. rewrite Hpp in Hw1.
  rewrite decide_False by (by apply Hok). apply twp_bind, on_host_twp. simpl.
  eapply twp_mono; [apply (SetSchedUtilLowPct_twp numa_owns); by right|]. intros r m2 (Hc2 & -> & Hw2).
  apply twp_modify. simpl. split; [by transitivity m1|]. split; [done|]. split.
  - rewrite (wrote_ne _ _ _ _ _ _ Hw2), (wrote_at _ _ _ _ Hw1) by done. by rewrite E1.
  - eapply wrote_back; [exact E2| |exact Hw2]. by rewrite (present_changes _ _ _ _ Hc1).
Qed.

#[export] Program Instance numa_switched : Switched NumaSched := {|
  sw_owns := numa_owns;
  sw_owns_dec := numa_owns_dec;
  sw_returns := numa_owns;
  sw_enable _ := NumaSched_Enable;
  sw_disable := NumaSched_Disable;
  sw_ready m0 p m := low_ok m0 ∧ isOriginalEnabled p = false ∧ numa_same m0 m;
  sw_saved m0 p m := low_ok m0 ∧ numa_saved m0 p m
|}.
Next Obligation. intros m0 p m k (_ & _ & H1 & H2) [->| ->]; done. Qed.
Next Obligation. intros m0 p m m' Hc (H1 & H2 & H3). do 2 (split; [done|]). by eapply numa_same_local. Qed.
Next Obligation.
  intros m0 p m m' Hc (H1 & H2). split; [done|]. unfold numa_saved in *.
  destruct (isOriginalEnabled p); [by eapply numa_same_local|]. rewrite !(present_changes _ _ _ _ Hc).
  destruct H2 as (Hp & He & H2). split; [done|]. split; [|done]. rewrite <-He. by apply Hc.
Qed.
Next Obligation.
  intros m0 param s (H1 & H2 & H3). apply ends_twp. eapply twp_mono; [by apply (numa_enabled m0)|].
  intros r s' [Hc Hr]. split; [done|]. by case_decide.
Qed.
Next Obligation.
  intros m0 s (H1 & H2). eapply twp_mono; [by apply (numa_disabled m0)|]. by intros r s' (Hc & Ho & Hs).
Qed.

(** ** Dynamic SMT *)

Definition KEEP : Setting := Feature "KEEP_ON_CORE".
Definition RATIO : Setting := File schedRatioPath.
Lemma ratio_tuned : tuned schedRatioPath.
Proof. left. do 3 apply list_elem_of_further. apply list_elem_of_here. Qed.

Lemma on_host_ends {P A} (c : St sys A) (Q : A → On P → Prop) s :
  ends c (λ a m, Q a (mkOn (own s) m)) (host s) → ends (on_host c) Q s.
Proof. unfold ends, on_host, zoom. by destruct (c (host s)) as [[a m]| |]. Qed.

Lemma CheckEnv_ends m : ends Smt_CheckEnv (λ _ m', changes (λ _, False) m m') m.
Proof.
  unfold Smt_CheckEnv. apply ends_then, ends_get. destruct (sys_read m smt_active); [|by apply ends_value].
  apply ends_then, ends_deref. intros [] _; cbn [negb]; [|by apply ends_value]. apply ends_then.
  assert (ExecCommand smt_command m = Ret ((sys_exec m smt_command).1, (sys_exec m smt_command).2)) as E.
  { unfold ExecCommand. by destruct (sys_exec m smt_command). }
  unfold ends at 1. rewrite E. apply ends_value. apply commands_change.
Qed.

Definition path_found (m : sys) (path : string) : Prop := path ∈ possiblePaths ∧ sys_exists m path = true.
Lemma find_features_none m paths path status :
  (∀ q, q ∈ paths → sys_exists m q = false) → (∀ q, q ∈ paths → q ∈ possiblePaths) →
  find_features m paths path status = (path, status).
Proof.
  induction paths as [|q paths IH]; intros Hno Hin; [done|]. simpl.
  pose proof (features_read m q (Hin q (list_elem_of_here _ _))) as Hr.
  rewrite (Hno q (list_elem_of_here _ _)) in Hr. rewrite Hr.
  apply IH; intros r Hr'; [apply Hno|apply Hin]; by apply list_elem_of_further.
Qed.
Lemma find_features_spec m paths path status path' status' :
  (∀ p, p ∈ paths → p ∈ possiblePaths) → find_features m paths path status = (path', status') →
  ((∀ p, p ∈ paths → sys_exists m p = false) ∧ path' = path) ∨
  (path_found m path' ∧ (present m KEEP = true → status' = negb (bool_decide (setting m KEEP = Some NO_KEEP_ON_CORE)))).
Proof.
  revert path status. induction paths as [|p paths IH]; intros path status Hin E; simpl in E.
  { injection E as <- <-. left. split; [|done]. by intros p Hp%elem_of_nil. }
  pose proof (features_read m p (Hin p (list_elem_of_here _ _))) as Hr.
  assert (∀ q, q ∈ paths → q ∈ possiblePaths) as Hin' by (intros q Hq; by apply Hin, list_elem_of_further).
  destruct (sys_exists m p) eqn:He.
  - destruct Hr as (line & Er & Hn & _ & Hk & Ho). rewrite Er, lines_only in E by done. simpl in E.
    right. destruct (IH _ _ Hin' E) as [[Hno ->]|]; [|done].
    split; [split; [by apply Hin, list_elem_of_here|done]|].
    rewrite find_features_none in E by done.
    injection E as <-. intros Hp%bool_decide_eq_true. unfold KEEP in *.
    by rewrite Hk, Ho, bool_decide_true.
  - rewrite Hr in E. destruct (IH _ _ Hin' E) as [[Hno ->]|]; [left|by right].
    split; [|done]. intros q [->|Hq]%elem_of_cons; [done|by apply Hno].
Qed.
Lemma possible_or_not p : p ∈ schedFeaturesPaths ↔ p ∈ possiblePaths.
Proof. unfold schedFeaturesPaths, possiblePaths. set_solver. Qed.

Lemma extract_int_printed old z : in_range CInt z → extract_int old (to_string z ++ [newline]) = z.
Proof. intros Hz. apply extract_int_number; [by apply strtol_to_string|done]. Qed.

Definition smt_owns (k : Setting) : Prop := k = KEEP ∨ k = RATIO.
#[export] Instance smt_owns_dec k : Decision (smt_owns k).
Proof. unfold smt_owns. apply _. Defined.
Definition smt_same (m0 m : sys) : Prop := setting m KEEP = setting m0 KEEP ∧ setting m RATIO = setting m0 RATIO.
(** The ratio is a number, and the scheduler that has it has the feature. *)
Definition smt_ok (m0 : sys) : Prop := ∀ v, setting m0 RATIO = Some v →
  present m0 KEEP = true ∧ ∃ z, v = to_string z ∧ 0 ≤ z ≤ 2147483647.
Definition path_ok (p : DynamicSmt) (m : sys) : Prop :=
  schedFeaturesPath p = EmptyString ∨ path_found m (schedFeaturesPath p).
(** What is saved when the settings are those of [m0]. *)
Record smt_read (m0 : sys) (p : DynamicSmt) (m : sys) : Prop := {
  sr_path : path_found m (schedFeaturesPath p);
  sr_keep : present m KEEP = true;
  sr_ratio : present m RATIO = true;
  sr_status : setting m0 KEEP = Some (if initialStatus p then KEEP_ON_CORE else NO_KEEP_ON_CORE);
  sr_number : setting m0 RATIO = Some (to_string (initialRatio p));
  sr_pos : 0 ≤ initialRatio p
}.
Definition smt_saved (m0 : sys) (p : DynamicSmt) (m : sys) : Prop :=
  smt_read m0 p m ∧ (initialStatus p = true → setting m KEEP = setting m0 KEEP).

Lemma path_found_changes O m m' path : changes O m m' → path_found m path → path_found m' path.
Proof. intros Hc [Hp He]. split; [done|]. rewrite <-He. by apply Hc. Qed.
Lemma path_ok_changes O p m m' : changes O m m' → path_ok p m → path_ok p m'.
Proof. intros Hc [|H]; [by left|right]. by eapply path_found_changes. Qed.
Lemma smt_read_changes O m0 p m m' : changes O m m' → smt_read m0 p m → smt_read m0 p m'.
Proof.
  intros Hc [H1 H2 H3 H4 H5 H6]. split; rewrite ?(present_changes _ _ _ _ Hc); try done.
  by eapply path_found_changes.
Qed.

(** The first reading; only the object changes. *)
Lemma InitSchedParam_twp m0 s :
  smt_ok m0 → smt_same m0 (host s) → path_ok (own s) (host s) →
  twp InitSchedParam (λ r s', host s' = host s ∧ path_ok (own s') (host s) ∧
    (r = true → smt_read m0 (own s') (host s))) s.
Proof.
  intros Hok [Hs1 Hs2] Hpath. destruct s as [p m]. simpl in *. unfold InitSchedParam. apply twp_bind, twp_get.
  cbn [own host]. destruct (find_features m schedFeaturesPaths (schedFeaturesPath p) (initialStatus p)) as [path status] eqn:E.
  apply find_features_spec in E; [|intros q; apply possible_or_not].
  assert (path = EmptyString ∨ path_found m path) as Hp.
  { destruct E as [[Hno ->]|[? _]]; [|by right]. destruct Hpath as [|[Hin He]]; [by left|]. exfalso.
    rewrite Hno in He; [done|]. by apply possible_or_not. }
  apply twp_bind, twp_modify. destruct (decide (path = EmptyString)) as [E0|E0].
  { apply twp_ret. split; [done|]. split; [by left|done]. }
  destruct Hp as [|Hp]; [done|].
  destruct (setting m RATIO) as [v|] eqn:Ev.
  2: { destruct (file_absent _ _ ratio_tuned Ev) as [_ ->]. apply twp_ret. split; [done|]. split; [by right|done]. }
  destruct (value_read _ schedRatioPath _ ltac:(done) Ev) as [-> _]. rewrite Hs2 in Ev.
  symmetry in Hs2. destruct (Hok v Hs2) as (Hk & z & -> & Hz).
  apply twp_bind, twp_modify, twp_ret. split; [done|]. split; [by right|]. intros _. simpl.
  rewrite extract_int_printed by (apply in_range_int; lia).
  assert (present m KEEP = true) as Hk'.
  { unfold present in *. by rewrite Hs1. }
  assert (status = negb (bool_decide (setting m KEEP = Some NO_KEEP_ON_CORE))) as Hst.
  { destruct E as [[Hno ->]|[_ E]]; [|by apply E]. exfalso. destruct Hpath as [|[Hin He]]; [done|].
    rewrite Hno in He; [done|]. by apply possible_or_not. }
  split; simpl; [done|done|apply (present_some _ _ (to_string z)); by rewrite Ev| |done|lia].
  rewrite <-Hs1. pose proof Hk' as [w Hw]%bool_decide_eq_true. unfold KEEP in *. rewrite Hw in Hst |- *.
  destruct (feature_value _ _ _ Hw) as [[->| ->] _].
  - rewrite bool_decide_false in Hst by (vm_compute; discriminate). by rewrite Hst.
  - rewrite bool_decide_true in Hst by done. by rewrite Hst.
Qed.

(** The parameter only sets the ratio to write. *)
Lemma read_param_ends `{HB : !HashOrderOf (list byte)} param s :
  ends (read_param param) (λ _ s', host s' = host s ∧ ∃ ratio, own s' = set_ratio ratio (own s)) s.
Proof.
  assert (host s = host s ∧ ∃ ratio, own s = set_ratio ratio (own s)) as Hsame.
  { split; [done|]. exists (schedUtilRatio (own s)). by destruct s as [[] m]. }
  unfold read_param. destruct (decide _) as [|_]; [by apply ends_value|]. cbv zeta.
  destruct (decide _) as [_|_]; [by apply ends_value|].
  destruct (GetKeyValueFromString param !! threshold) as [value|]; [|by apply ends_value].
  destruct (IsInteger value); cbn [negb]; [|by apply ends_value].
  apply ends_then, ends_lift. intros ratio _. apply ends_then, ends_get, ends_then, ends_modify, ends_value.
  split; [done|]. by exists ratio.
Qed.
Lemma smt_read_ratio m0 ratio p m : smt_read m0 p m → smt_read m0 (set_ratio ratio p) m.
Proof. intros [H1 H2 H3 H4 H5 H6]. by split. Qed.

Lemma WriteFile_feature_twp (O : Setting → Prop) p f v m :
  path_found m p → plain f → v ∈ [feature_on f; feature_off f] → O (Feature f) → present m (Feature f) = true →
  twp (WriteFile p v) (λ r m', changes O m m' ∧ r = true ∧ wrote (Feature f) v true m m') m.
Proof.
  intros [Hp He] Hf Hv HO Hpr. apply twp_bind. eapply twp_mono; [by apply (on_feature_twp O _ f)|].
  intros [o t] m' (Hc & [= -> ->] & Hk). apply twp_ret. by rewrite He, Hpr in *.
Qed.

Lemma smt_enabled `{HB : !HashOrderOf (list byte)} m0 param s :
  smt_ok m0 → path_ok (own s) (host s) → smt_same m0 (host s) →
  ends (Smt_Enable param) (λ r s', changes smt_owns (host s) (host s') ∧
    if decide (r_code r = Some OK) then smt_saved m0 (own s') (host s')
    else path_ok (own s') (host s') ∧ smt_same m0 (host s')) s.
Proof.
  intros Hok Hpath Hs. destruct s as [p m]. cbn [own host] in *. apply ends_then, on_host_ends. cbn [own host].
  eapply ends_weaken; [apply CheckEnv_ends|]. intros env m1 Hc1. cbv beta in Hc1.
  assert (smt_same m0 m1) as Hs1.
  { destruct Hs as [H1 H2]. split; rewrite <-?H1, <-?H2; apply Hc1; by intros []. }
  assert (path_ok p m1) as Hp1 by (by eapply path_ok_changes).
  assert (changes smt_owns m m1) as Hcc1 by (by eapply changes_weaken; [|exact Hc1]).
  destruct env; cbn [negb]; [|by apply ends_value]. apply ends_then.
  eapply ends_weaken; [by apply ends_twp, (InitSchedParam_twp m0)|]. intros found [p2 m2] (E2 & Hp2 & Hr2).
  cbn [own host] in *. subst m2. destruct found; cbn [negb]; [|by apply ends_value]. specialize (Hr2 eq_refl).
  apply ends_then. eapply ends_weaken; [apply read_param_ends|].
  intros refused [p3 m3] [E3 [ratio E3']]. cbn [own host] in *. subst p3 m3.
  apply (smt_read_ratio _ ratio) in Hr2. destruct refused as [text|]; [by apply ends_value|].
  apply ends_twp, twp_bind, twp_get. cbn [own host]. apply twp_bind, on_host_twp. cbn [own host].
  eapply twp_mono; [apply (WriteFile_twp smt_owns); [exact ratio_tuned|by right]|].
  intros r m4 (Hc4 & -> & Hw4). assert (changes smt_owns m m4) as Hcc4 by (by transitivity m1).
  fold RATIO in Hw4 |- *. destruct (present m1 RATIO && takes schedRatioPath _); cbn [negb].
  2: { apply twp_ret. split; [done|]. rewrite decide_False by done. split.
       - eapply path_ok_changes; [exact Hc4|exact Hp2].
       - destruct Hs1. by split; rewrite (wrote_not _ _ _ _ _ Hw4). }
  apply (smt_read_changes _ _ _ _ _ Hc4) in Hr2. apply twp_bind, on_host_twp. cbn [own host].
  eapply twp_mono; [apply (WriteFile_feature_twp smt_owns _ "KEEP_ON_CORE"); [apply Hr2|done|apply list_elem_of_here|by left|apply Hr2]|].
  intros r m5 (Hc5 & -> & Hw5). apply twp_ret. split; [by transitivity m4|]. cbn [r_code ok].
  rewrite decide_True by done. split; [by eapply smt_read_changes|]. cbn [own host]. intros Hst. fold KEEP in Hw5.
  rewrite (wrote_at _ _ _ _ Hw5), (sr_status _ _ _ Hr2). by rewrite Hst.
Qed.
Lemma smt_disabled m0 s :
  smt_saved m0 (own s) (host s) →
  twp Smt_Disable (λ _ s', changes smt_owns (host s) (host s') ∧ path_ok (own s') (host s') ∧ smt_same m0 (host s')) s.
Proof.
  intros [Hr Hst]. destruct s as [p m]. cbn [own host] in *. unfold Smt_Disable. apply twp_bind, twp_get.
  cbn [own host]. apply twp_bind.
  apply (twp_mono _ (λ _ s', own s' = p ∧ changes smt_owns m (host s') ∧ setting (host s') KEEP = setting m0 KEEP)).
  { destruct (initialStatus p) eqn:Ei; [apply twp_ret; split; [done|split; [reflexivity|by apply Hst]]|].
    apply on_host_twp. cbn [own host]. eapply twp_mono.
    { apply (WriteFile_feature_twp smt_owns _ "KEEP_ON_CORE"); [apply Hr|done| |by left|apply Hr].
      apply list_elem_of_further, list_elem_of_here. }
    intros r m1 (Hc & -> & Hw). split; [done|]. split; [done|]. cbn [host].
    fold KEEP in Hw. by rewrite (wrote_at _ _ _ _ Hw), (sr_status _ _ _ Hr), Ei. }
  intros b [p1 m1] (Ep & Hc & Hk). cbn [own host] in *. subst p1. apply (smt_read_changes _ _ _ _ _ Hc) in Hr.
  rewrite decide_False by (pose proof (sr_pos _ _ _ Hr); lia). apply twp_bind, on_host_twp. cbn [own host].
  eapply twp_mono; [apply (WriteFile_twp smt_owns); [exact ratio_tuned|by right]|].
  intros r m2 (Hc2 & -> & Hw). apply twp_ret. cbn [own host]. split; [by transitivity m1|]. split.
  - right. eapply path_found_changes; [exact Hc2|apply Hr].
  - split; [by rewrite (wrote_ne _ _ _ _ _ _ Hw)|]. eapply wrote_back; [apply Hr|apply Hr|exact Hw].
Qed.

#[export] Program Instance smt_switched `{HB : !HashOrderOf (list byte)} : Switched DynamicSmt := {|
  sw_owns := smt_owns;
  sw_owns_dec := smt_owns_dec;
  sw_returns := smt_owns;
  sw_enable := Smt_Enable;
  sw_disable := Smt_Disable;
  sw_ready m0 p m := smt_ok m0 ∧ path_ok p m ∧ smt_same m0 m;
  sw_saved m0 p m := smt_ok m0 ∧ smt_saved m0 p m
|}.
Next Obligation. intros HB m0 p m k (_ & _ & H1 & H2) [->| ->]; done. Qed.
Next Obligation.
  intros HB m0 p m m' Hc (H1 & H2 & H3 & H4). split; [done|]. split; [by eapply path_ok_changes|].
  split; rewrite (kept_local _ _ _ _ Hc); [done|by left|done|by right].
Qed.
Next Obligation.
  intros HB m0 p m m' Hc (H1 & H2 & H3). split; [done|]. split; [by eapply smt_read_changes|].
  intros Hi. rewrite (kept_local _ _ _ _ Hc); [auto|by left].
Qed.
Next Obligation.
  intros HB m0 param s (H1 & H2 & H3). eapply ends_weaken; [by apply (smt_enabled m0)|].
  intros r s' [Hc Hr]. split; [done|]. by destruct (decide _).
Qed.
Next Obligation.
  intros HB m0 s (H1 & H2). eapply twp_mono; [by apply (smt_disabled m0)|]. by intros r s' (Hc & Ho & Hs).
Qed.

(** ** Stealing tasks: nothing is given back *)

Definition STEAL : Setting := Feature "STEAL".
Lemma WriteFile_any_feature_twp (O : Setting → Prop) p f v m :
  p ∈ possiblePaths → plain f → v ∈ [feature_on f; feature_off f] → O (Feature f) →
  twp (WriteFile p v) (λ _ m', changes O m m') m.
Proof.
  intros Hp Hf Hv HO. apply twp_bind. eapply twp_mono; [by apply (on_feature_twp O _ f)|].
  intros [o t] m' (Hc & _). by apply twp_ret.
Qed.
#[export] Program Instance steal_switched : Switched StealTask := {|
  sw_owns k := k = STEAL;
  sw_owns_dec k := decide (k = STEAL);
  sw_returns _ := False;
  sw_enable _ := Steal_Enable;
  sw_disable := Steal_Disable;
  sw_ready m0 p m := sk_schedFeaturesPath p = EmptyString ∨ sk_schedFeaturesPath p ∈ possiblePaths;
  sw_saved m0 p m := sk_schedFeaturesPath p ∈ possiblePaths
|}.
Next Obligation. done. Qed.
Next Obligation. done. Qed.
Next Obligation. done. Qed.
Next Obligation.
  intros m0 param [p m] Hp. cbn [own host] in *. apply ends_twp. unfold Steal_Enable. apply twp_bind, on_host_twp.
  cbn [own host]. unfold system, twp at 1. destruct (commands_change (λ k, k = STEAL) m steal_command) as [Hc _].
  destruct (sys_system m steal_command) as [status m1]. cbn [snd] in Hc.
  destruct (decide (status = 1)); [apply twp_ret; split; [done|by rewrite decide_False]|].
  apply twp_bind, twp_get, twp_bind, twp_modify. cbn [own host].
  destruct (InitSchedFeaturesPath m1 (sk_schedFeaturesPath p)) as [path|] eqn:E.
  2: { apply twp_bind, twp_modify, twp_ret. split; [done|]. rewrite decide_False by done. by left. }
  assert (path ∈ possiblePaths) as Hin.
  { unfold InitSchedFeaturesPath in E. destruct (decide _) as [Hne|_]; [injection E as <-; by destruct Hp|].
    apply head_Some_elem_of, list_elem_of_filter in E as [_ E]. by apply possible_or_not. }
  apply twp_bind, twp_modify, twp_bind, on_host_twp. cbn [own host].
  eapply twp_mono; [apply (WriteFile_any_feature_twp (λ k, k = STEAL) _ "STEAL"); [done|done|apply list_elem_of_here|done]|].
  intros r m2 Hc2. apply twp_ret. split; [by transitivity m1|]. cbn [own host set_own].
  destruct r; [by rewrite decide_True|]. rewrite decide_False by done. by right.
Qed.
Next Obligation.
  intros m0 [p m] Hp. cbn [own host] in *. unfold Steal_Disable. apply twp_bind, twp_get, twp_bind, on_host_twp.
  eapply twp_mono; [apply (WriteFile_any_feature_twp (λ k, k = STEAL) _ "STEAL"); [done|done| |done]|].
  { apply list_elem_of_further, list_elem_of_here. }
  intros r m2 Hc2. apply twp_ret. split; [done|by right].
Qed.

(** ** The seep governor *)

Definition GOV (i : Z) : Setting := File (governor_path i).
Definition seep_owns (k : Setting) : Prop := ∃ i, k = GOV i.
Lemma gov_tuned i : tuned (governor_path i).
Proof. right. by exists i. Qed.
Lemma gov_not_thp i : governor_path i ≠ thpFileName.
Proof. unfold governor_path, thpFileName. by intros [=]. Qed.
Lemma gov_inj i j : GOV i = GOV j → i = j.
Proof.
  unfold GOV, governor_path. intros [= E]. apply (f_equal bytes_of) in E. rewrite !bytes_of_append, !bytes_of_str_of in E.
  change (bytes_of EmptyString) with (@nil byte) in E. cbn [app] in E. by apply app_inv_tail, to_string_inj in E.
Qed.

(** The number of a governor's processor stands behind 27 characters. *)
#[export] Instance seep_owns_dec k : Decision (seep_owns k).
Proof.
  destruct k as [p|f]; [|right; by intros [i [=]]].
  destruct (decide (File p = GOV (default 0 (strtol (drop 27 (bytes_of p)))))) as [E|Hn]; [left; by eexists|].
  right. intros [i E]. apply Hn. injection E as ->. f_equal. unfold governor_path. f_equal. f_equal.
  rewrite !bytes_of_append, bytes_of_str_of. change (drop 27 _) with (to_string i ++ bytes_of "/cpufreq/scaling_governor").
  by rewrite strtol_to_string.
Defined.

Lemma WriteSeepFile_twp i v m :
  twp (WriteSeepFile i v) (λ r m', changes seep_owns m m' ∧
    r = present m (GOV i) && takes (governor_path i) v ∧ wrote (GOV i) v r m m') m.
Proof. apply (write_existing_twp seep_owns); [apply gov_tuned|by exists i]. Qed.

(** Governors that are put back, as many as are saved. *)
Definition saved_at (m0 : sys) (scaling : list (list byte)) (i : Z) : Prop :=
  present m0 (GOV i) = true ∧ at_index scaling i = setting m0 (GOV i).
Lemma restore_governors_twp m0 scaling l m :
  (∀ i, i ∈ l → saved_at m0 scaling i ∧ present m (GOV i) = true) →
  twp (for_each l (write_scaling scaling)) (λ _ m', changes seep_owns m m' ∧
    ∀ i, setting m' (GOV i) = if decide (i ∈ l) then setting m0 (GOV i) else setting m (GOV i)) m.
Proof.
  revert m. induction l as [|i l IH]; intros m Hl; cbn [for_each].
  { apply twp_ret. split; [reflexivity|]. intros i. by rewrite decide_False by apply not_elem_of_nil. }
  destruct (Hl i (list_elem_of_here _ _)) as [[[v Ev]%bool_decide_eq_true Ea] Hp]. apply twp_bind. unfold write_scaling at 1.
  apply twp_bind, (twp_deref _ v); [by rewrite Ea, Ev|]. apply twp_bind.
  eapply twp_mono; [apply WriteSeepFile_twp|]. intros r m1 (Hc1 & -> & Hw1). apply twp_ret.
  pose proof (wrote_back _ _ m0 m m1 Ev Hp Hw1) as Hb. fold (GOV i) in Hb.
  eapply twp_mono; [apply IH|].
  { intros j Hj. rewrite (present_changes _ _ _ _ Hc1). apply Hl. by apply list_elem_of_further. }
  intros [] m2 (Hc2 & H2). split; [by transitivity m1|]. intros j. rewrite H2.
  destruct (decide (j ∈ l)) as [Hj|Hj]; [by rewrite decide_True by by apply list_elem_of_further|].
  destruct (decide (j = i)) as [->|Hne]; [by rewrite decide_True by apply list_elem_of_here|].
  rewrite decide_False by (by intros [?|?]%elem_of_cons). apply (wrote_ne _ _ _ _ _ _ Hw1).
  by intros ?%gov_inj.
Qed.
Lemma for_each_host_twp {P A} (l : list A) (c : A → St sys unit) (Q : unit → On P → Prop) s :
  twp (for_each l c) (λ a m, Q a (mkOn (own s) m)) (host s) → twp (for_each l (λ x, on_host (c x))) Q s.
Proof.
  revert s. induction l as [|x l IH]; intros s H; cbn [for_each] in *.
  { unfold twp in *. cbn in *. by destruct s. }
  apply twp_bind, on_host_twp. unfold twp in H at 1. rewrite run_bind in H. unfold twp at 1.
  destruct (c x (host s)) as [[[] m]| |]; [|done..]. by apply IH.
Qed.

(** What [Init] appends. *)
Lemma read_governors_spec m cpus scaling :
  match read_governors m cpus scaling with
  | (true, l) => (∀ i, i ∈ cpus → present m (GOV i) = true) ∧
      ∃ vs, l = scaling ++ vs ∧ Some <$> vs = (λ i, setting m (GOV i)) <$> cpus
  | (false, l) => ∃ i, i ∈ cpus ∧ present m (GOV i) = false
  end.
Proof.
  revert scaling. induction cpus as [|i cpus IH]; intros scaling; simpl.
  { split; [by intros i Hi%elem_of_nil|]. exists []. by rewrite app_nil_r. }
  destruct (setting m (GOV i)) as [v|] eqn:E.
  - destruct (value_read _ _ _ (gov_not_thp i) E) as [-> Hv]. rewrite first_line_only by done. unfold default, id.
    cbn [from_option]. specialize (IH (scaling ++ [v])). destruct (read_governors m cpus (scaling ++ [v])) as [[] l].
    + destruct IH as (Hp & vs & -> & Hvs). split.
      * intros j [->|Hj]%elem_of_cons; [by eapply present_some|by apply Hp].
      * exists (v :: vs). rewrite <-app_assoc. split; [done|]. by rewrite fmap_cons, Hvs.
    + destruct IH as (j & Hj & Hp). exists j. split; [by apply list_elem_of_further|done].
  - destruct (file_absent _ _ (gov_tuned i) E) as [_ ->]. exists i. split; [apply list_elem_of_here|].
    by apply present_none.
Qed.

Definition cpus_of (m : sys) : list Z := seqZ 0 (wrap CInt (sys_cpus m)).
Lemma elem_of_cpus m i : i ∈ cpus_of m ↔ 0 ≤ i < wrap CInt (sys_cpus m).
Proof. unfold cpus_of. rewrite elem_of_seqZ. lia. Qed.
(** Every governor is that of [m0], but for those of [l]. *)
Definition govs_but (l : list Z) (m0 m : sys) : Prop := ∀ i, i ∉ l → setting m (GOV i) = setting m0 (GOV i).
Definition scaling_ok (m0 : sys) (p : Seep) : Prop :=
  (∀ i, i ∈ cpus_of m0 → present m0 (GOV i) = true) →
  cpuScaling p = [] ∨ ∀ i, i ∈ cpus_of m0 → saved_at m0 (cpuScaling p) i.
Definition seep_ready (m0 : sys) (p : Seep) (m : sys) : Prop :=
  sys_cpus m = sys_cpus m0 ∧ govs_but [] m0 m ∧ scaling_ok m0 p.
Record seep_saved (m0 : sys) (p : Seep) (m : sys) : Prop := {
  ss_cpus : sys_cpus m = sys_cpus m0;
  ss_num : cpuNum p = wrap CInt (sys_cpus m0);
  ss_all i : i ∈ cpus_of m0 → saved_at m0 (cpuScaling p) i ∧ present m (GOV i) = true;
  ss_rest : govs_but (cpus_of m0) m0 m
}.

(** The saved governors come first, whatever is appended. *)
Lemma scaling_read m0 m p scaling :
  seep_ready m0 p m → read_governors m (cpus_of m0) (cpuScaling p) = (true, scaling) →
  ∀ i, i ∈ cpus_of m0 → saved_at m0 scaling i ∧ present m (GOV i) = true.
Proof.
  intros (_ & Hg & Hok) E i Hi. pose proof (read_governors_spec m (cpus_of m0) (cpuScaling p)) as Hr. rewrite E in Hr.
  destruct Hr as (Hp & vs & -> & Hvs). assert (∀ j, setting m (GOV j) = setting m0 (GOV j)) as Hs.
  { intros j. apply Hg, not_elem_of_nil. }
  assert (∀ j, present m0 (GOV j) = present m (GOV j)) as Hpr by (intros j; unfold present; by rewrite Hs).
  split; [|by apply Hp]. split; [by rewrite Hpr; apply Hp|].
  destruct (proj1 (bool_decide_eq_true _) (Hp i Hi)) as [v Ev].
  apply elem_of_cpus in Hi as Hi'. unfold at_index. rewrite decide_False by lia. rewrite <-Hs, Ev.
  destruct Hok as [->|Hok]; [by intros j Hj; rewrite Hpr; apply Hp| |].
  - simpl. assert ((Some <$> vs) !! Z.to_nat i = Some (setting m (GOV i))) as H.
    { rewrite Hvs, list_lookup_fmap. unfold cpus_of. rewrite lookup_seqZ_lt by lia. simpl. f_equal. f_equal. f_equal. lia. }
    rewrite list_lookup_fmap, Ev in H. destruct (vs !! Z.to_nat i); [|done]. by injection H as ->.
  - destruct (Hok i Hi) as [_ Ha]. unfold at_index in Ha. rewrite decide_False in Ha by lia.
    rewrite <-Hs, Ev in Ha. by apply lookup_app_l_Some.
Qed.

(** Setting the governors one after the other. *)
Lemma set_seep_twp m0 scaling done todo m :
  (∀ i, i ∈ done ++ todo → saved_at m0 scaling i ∧ present m (GOV i) = true) → govs_but done m0 m →
  twp (set_seep scaling done todo) (λ r m', changes seep_owns m m' ∧
    match r with None => govs_but (done ++ todo) m0 m' | Some _ => govs_but [] m0 m' end) m.
Proof.
  revert done m. induction todo as [|i todo IH]; intros done m Hall Hg; cbn [set_seep].
  { apply twp_ret. split; [reflexivity|]. by rewrite app_nil_r. }
  apply twp_bind. eapply twp_mono; [apply WriteSeepFile_twp|]. intros r m1 (Hc1 & -> & Hw1).
  assert (∀ j, j ∈ done ++ i :: todo → saved_at m0 scaling j ∧ present m1 (GOV j) = true) as Hall1.
  { intros j Hj. rewrite (present_changes _ _ _ _ Hc1). by apply Hall. }
  destruct (present m (GOV i) && takes (governor_path i) SEEP).
  - assert (done ++ i :: todo = (done ++ [i]) ++ todo) as -> by (by rewrite <-app_assoc).
    eapply twp_mono; [apply IH|].
    + intros j Hj. apply Hall1. by rewrite <-app_assoc in Hj.
    + intros j Hj. rewrite (wrote_ne _ _ _ _ _ _ Hw1).
      * apply Hg. intros Hd. apply Hj, elem_of_app. by left.
      * intros ->%gov_inj. apply Hj, elem_of_app. right. apply list_elem_of_here.
    + intros r m2 [Hc2 H2]. split; [by transitivity m1|done].
  - apply twp_bind. eapply twp_mono; [apply (restore_governors_twp m0 scaling done)|].
    { intros j Hj. apply Hall1, elem_of_app. by left. }
    intros [] m2 (Hc2 & H2). apply twp_ret. split; [by transitivity m1|]. intros j _. rewrite H2.
    destruct (decide (j ∈ done)); [done|]. rewrite (wrote_not _ _ _ _ _ Hw1). by apply Hg.
Qed.
Lemma InsertSeepKo_twp m : twp InsertSeepKo (λ _ m', changes (λ _, False) m m') m.
Proof.
  unfold InsertSeepKo. apply twp_bind, twp_get. destruct (sys_read m modules_path) as [content|]; [|by apply twp_ret].
  destruct (existsb _ _); [by apply twp_ret|]. apply twp_bind.
  assert (system seep_command m = Ret ((sys_system m seep_command).1, (sys_system m seep_command).2)) as E.
  { unfold system. by destruct (sys_system m seep_command). }
  unfold twp at 1. rewrite E. apply twp_ret, commands_change.
Qed.
Lemma seep_ready_local (O : Setting → Prop) m0 p m m' :
  changes O m m' → (∀ i, ¬ O (GOV i)) → seep_ready m0 p m → seep_ready m0 p m'.
Proof.
  intros Hc HO (H1 & H2 & H3). split; [|split; [|done]].
  - rewrite <-H1. apply Hc.
  - intros i Hi. rewrite <-H2 by done. apply Hc, HO.
Qed.
(** The table of governors grew, and only the object changed. *)
Lemma seep_ready_read m0 p m found scaling :
  seep_ready m0 p m → read_governors m (cpus_of m0) (cpuScaling p) = (found, scaling) →
  seep_ready m0 (mkSeep (wrap CInt (sys_cpus m0)) scaling) m.
Proof.
  intros Hr E. pose proof Hr as (H1 & H2 & H3). split; [done|]. split; [done|]. intros Hall. right. intros i Hi.
  destruct found; [by apply (scaling_read m0 m p scaling Hr E)|]. exfalso.
  pose proof (read_governors_spec m (cpus_of m0) (cpuScaling p)) as Hs. rewrite E in Hs.
  destruct Hs as (j & Hj & Hp). specialize (Hall j Hj). unfold present in *. rewrite H2 in Hp by apply not_elem_of_nil.
  by rewrite Hp in Hall.
Qed.
Lemma seep_enabled m0 s :
  seep_ready m0 (own s) (host s) →
  twp Seep_Enable (λ r s', changes seep_owns (host s) (host s') ∧
    if decide (r_code r = Some OK) then seep_saved m0 (own s') (host s') else seep_ready m0 (own s') (host s')) s.
Proof.
  intros Hr. destruct s as [p m]. cbn [own host] in *. unfold Seep_Enable. apply twp_bind, on_host_twp. cbn [own host].
  eapply twp_mono; [apply InsertSeepKo_twp|]. intros ins m1 Hc1.
  assert (changes seep_owns m m1) as Hc by (by eapply changes_weaken; [|exact Hc1]).
  eapply seep_ready_local in Hr; [|exact Hc1|by intros i []]. clear Hc1.
  destruct ins; cbn [negb]; [|by apply twp_ret]. apply twp_bind, twp_get. cbn [own host]. cbv zeta.
  pose proof Hr as (Ecpu & Hg & Hok). rewrite Ecpu. apply twp_bind, twp_modify. cbn [own host set_own].
  destruct (decide (wrap CInt (sys_cpus m0) = -1)).
  { apply twp_ret. split; [done|]. rewrite decide_False by done. by split. }
  fold (cpus_of m0). destruct (read_governors m1 (cpus_of m0) (cpuScaling p)) as [found scaling] eqn:E.
  pose proof (seep_ready_read _ _ _ _ _ Hr E) as Hr'. apply twp_bind, twp_modify. cbn [own host set_own].
  destruct found; cbn [negb]; [|by apply twp_ret].
  pose proof (scaling_read m0 m1 p scaling Hr E) as Hall. apply twp_bind, on_host_twp. cbn [own host].
  eapply twp_mono; [by apply (set_seep_twp m0 scaling [] (cpus_of m0))|].
  intros bad m2 [Hc2 H2]. apply twp_ret. cbn [own host]. split; [by transitivity m1|].
  assert (sys_cpus m2 = sys_cpus m0) as E2 by (rewrite <-Ecpu; apply Hc2). destruct bad as [i|].
  - rewrite decide_False by done. split; [done|]. split; [done|]. apply Hr'.
  - rewrite decide_True by done. split; [done|done| |done]. intros i Hi.
    rewrite (present_changes _ _ _ _ Hc2). by apply Hall.
Qed.
Lemma seep_disabled m0 s :
  seep_saved m0 (own s) (host s) →
  twp Seep_Disable (λ _ s', changes seep_owns (host s) (host s') ∧ seep_ready m0 (own s') (host s')) s.
Proof.
  intros [H1 H2 H3 H4]. destruct s as [p m]. cbn [own host] in *. unfold Seep_Disable. apply twp_bind, twp_get, twp_bind.
  cbn [own host]. rewrite H2. fold (cpus_of m0). apply for_each_host_twp. cbn [own host].
  eapply twp_mono; [by apply (restore_governors_twp m0)|]. intros [] m' [Hc Hs]. apply twp_modify.
  cbn [own host set_own]. split; [done|]. split; [rewrite <-H1; apply Hc|]. split; [|by left].
  intros i _. rewrite Hs. destruct (decide (i ∈ cpus_of m0)); [done|by apply H4].
Qed.
#[export] Program Instance seep_switched : Switched Seep := {|
  sw_owns := seep_owns;
  sw_owns_dec := seep_owns_dec;
  sw_returns := seep_owns;
  sw_enable _ := Seep_Enable;
  sw_disable := Seep_Disable;
  sw_ready := seep_ready;
  sw_saved := seep_saved
|}.
Next Obligation. intros m0 p m k (_ & Hg & _) [i ->]. apply Hg, not_elem_of_nil. Qed.
Next Obligation.
  intros m0 p m m' Hc. apply (seep_ready_local _ _ _ _ _ Hc). intros i Hi. apply Hi. by exists i.
Qed.
Next Obligation.
  intros m0 p m m' Hc [H1 H2 H3 H4]. split; [rewrite <-H1; apply Hc|done|..].
  - intros i. rewrite (present_changes _ _ _ _ Hc). apply H3.
  - intros i Hi. rewrite <-H4 by done. apply (kept_local _ _ _ _ Hc). by exists i.
Qed.
Next Obligation. intros m0 param s Hr. by apply ends_twp, seep_enabled. Qed.
Next Obligation. intros m0 s Hr. by apply seep_disabled. Qed.
End instances.

(** ** The six instances together *)

(** The instances that change the kernel's switches. *)
Inductive Tune := TThp | TCluster | TNuma | TSmt | TSteal | TSeep.
#[export] Instance Tune_eq_dec : EqDecision Tune.
Proof. solve_decision. Defined.

(** Their objects, and those that the constructors make. *)
Definition Object (t : Tune) : Type :=
  match t with
  | TThp => Thp | TCluster => ClusterCpu | TNuma => NumaSched | TSmt => DynamicSmt | TSteal => StealTask
  | TSeep => Seep
  end.
Definition Object0 (t : Tune) : Object t :=
  match t with
  | TThp => Thp0 | TCluster => ClusterCpu0 | TNuma => NumaSched0 | TSmt => DynamicSmt0 | TSteal => StealTask0
  | TSeep => Seep0
  end.

Section together.
Context `{MA : Machine} `{SK : !SwitchKernel MA} `{HB : !HashOrderOf (list byte)}.

Definition switched (t : Tune) : Switched (Object t) :=
  match t with
  | TThp => thp_switched | TCluster => cluster_switched | TNuma => numa_switched | TSmt => smt_switched
  | TSteal => steal_switched | TSeep => seep_switched
  end.
#[local] Existing Instance switched.

Definition SystemTune : Type := Tuned Object.
Definition system_step : SystemTune → SystemTune → Prop := tuned_step Object.
Definition SystemTune0 (m : sys) : SystemTune := mkTuned Object Object0 (λ _, false) m.

Lemma owners_apart (t u : Tune) k : t ≠ u → sw_owns (P:=Object t) k → ¬ sw_owns (P:=Object u) k.
Proof.
  intros Hn H1 H2.
  destruct t, u; try done; simpl in H1, H2; unfold numa_owns, smt_owns, seep_owns in *;
    repeat match goal with
    | H : _ ∨ _ |- _ => destruct H
    | H : ∃ _, _ |- _ => destruct H
    end; subst; try done; match goal with H : _ = _ |- _ => by injection H end.
Qed.
#[local] Instance owned_dec k : Decision (∃ t, sw_owns (P:=Object t) k).
Proof.
  assert (∀ t, Decision (sw_owns (P:=Object t) k)) as D by (intros t; apply sw_owns_dec).
  destruct (D TThp); [left; by eexists|]. destruct (D TCluster); [left; by eexists|].
  destruct (D TNuma); [left; by eexists|]. destruct (D TSmt); [left; by eexists|].
  destruct (D TSteal); [left; by eexists|]. destruct (D TSeep); [left; by eexists|].
  right. by intros [[] H].
Defined.

(** What the instances rely on when they read: the mode and the share of the
    load are not empty, the ratio of dynamic SMT is a number and comes with
    its feature. *)
Definition kernel_ok (m : sys) : Prop := thp_ok m ∧ low_ok m ∧ smt_ok m.

Lemma system_inv0 m : kernel_ok m → family_inv Object m (SystemTune0 m).
Proof.
  intros (H1 & H2 & H3). split; [|done]. intros t. simpl. destruct t; simpl.
  - done.
  - done.
  - by split_and!.
  - split; [done|]. split; [by left|done].
  - by left.
  - split; [done|]. split; [done|by left].
Qed.
End together.
#[local] Existing Instances switched owned_dec.

(** Which settings an instance changes. *)
Definition owner (k : Setting) (t : Tune) : Prop :=
  match t with
  | TThp => k = THP
  | TCluster => k = CLUSTER
  | TNuma => k = PARAL ∨ k = LOW
  | TSmt => k = KEEP ∨ k = RATIO
  | TSteal => k = STEAL
  | TSeep => ∃ i, k = GOV i
  end.

(** C30. The kernel's settings are given back: in whatever order the daemon
    enables and disables the six instances that share the machine, failures
    included, a setting is what it was at the start unless an instance that
    changes it is enabled, and disabling that one succeeds; only the feature
    STEAL stays as its instance left it. *)
Theorem switches_given_back `{MA : Machine} `{SK : !SwitchKernel MA} `{HB : !HashOrderOf (list byte)}
    (m0 : sys) (s : SystemTune) (Hok : kernel_ok m0) (Hrun : rtc system_step (SystemTune0 m0) s) :
  (∀ k, k ≠ STEAL → (∀ t, owner k t → enabled Object s t = false) →
     setting (tuned_sys Object s) k = setting m0 k) ∧
  (∀ t, enabled Object s t = true → ∃ s', Tuned_Disable Object t s = Ret (tt, s')).
Proof.
  pose proof (family_steps Object owners_apart m0 _ _ Hrun (system_inv0 m0 Hok)) as Hi. split.
  - intros k Hk Ho. apply (family_back Object owned_dec m0 s k Hi). intros t Ht. split.
    + apply Ho. by destruct t.
    + destruct t; try exact Ht. by destruct Hk.
  - intros t Ht. pose proof (disable_inv Object owners_apart m0 t s Hi Ht) as H. unfold twp in H.
    destruct (Tuned_Disable Object t s) as [[[] s']| |]; [by eexists|done..].
Qed.

(** ** A machine with two processors *)

Inductive Val := VAlways | VMadvise | VZero | VOne | VFifty | VHundred | VPerformance | VSeep.
#[export] Instance Val_eq_dec : EqDecision Val.
Proof. solve_decision. Defined.
Definition vals : list Val := [VAlways; VMadvise; VZero; VOne; VFifty; VHundred; VPerformance; VSeep].
Definition val_text (v : Val) : list byte := bytes_of
  match v with
  | VAlways => "always" | VMadvise => "madvise" | VZero => "0" | VOne => "1" | VFifty => "50"
  | VHundred => "100" | VPerformance => "performance" | VSeep => "seep"
  end.
Definition val_of (t : list byte) : option Val := snd <$> list_find (λ v, val_text v = t) vals.
Lemma val_of_text v : val_of (val_text v) = Some v.
Proof. by destruct v. Qed.
Lemma val_of_some t v : val_of t = Some v → val_text v = t.
Proof.
  unfold val_of. intros H%fmap_Some. destruct H as ([i w] & H & ->). by apply list_find_Some in H as (_ & H & _).
Qed.

Record SwitchBox := mkSwitchBox {
  sb_file : gmap string Val; sb_paral : bool; sb_keep : bool; sb_steal : bool
}.
Definition features_path : string := "/sys/kernel/debug/sched/features".
Definition other_paths : list string := [features_path; "/sys/kernel/debug/sched_features"%string; smt_active; modules_path].
Definition sb_status (b : SwitchBox) (f : string) : option bool :=
  if decide (f = "PARAL"%string) then Some (sb_paral b)
  else if decide (f = "KEEP_ON_CORE"%string) then Some (sb_keep b)
  else if decide (f = "STEAL"%string) then Some (sb_steal b) else None.
Definition feature_text (f : string) (on : bool) : list byte := if on then feature_on f else feature_off f.
Definition sb_val (b : SwitchBox) (p : string) : option Val :=
  if decide (p ∈ other_paths) then None else sb_file b !! p.
Definition sb_line (b : SwitchBox) : list byte :=
  feature_text "PARAL" (sb_paral b) ++ [x20] ++ feature_text "KEEP_ON_CORE" (sb_keep b) ++ [x20] ++
  feature_text "STEAL" (sb_steal b).

Definition sb_read (b : SwitchBox) (p : string) : option (list byte) :=
  if decide (p = features_path) then Some (sb_line b ++ [newline])
  else if decide (p = smt_active) then Some (bytes_of "1" ++ [newline])
  else if decide (p = modules_path) then Some []
  else v ← sb_val b p;
       Some ((if decide (p = thpFileName)
              then [open_bracket] ++ val_text v ++ [close_bracket] ++ bytes_of " never" else val_text v) ++ [newline]).
(** Writing one of the features' values. *)
Definition sb_feature (b : SwitchBox) (t : list byte) : option SwitchBox :=
  if decide (t = feature_on "PARAL") then Some (mkSwitchBox (sb_file b) true (sb_keep b) (sb_steal b))
  else if decide (t = feature_off "PARAL") then Some (mkSwitchBox (sb_file b) false (sb_keep b) (sb_steal b))
  else if decide (t = feature_on "KEEP_ON_CORE") then Some (mkSwitchBox (sb_file b) (sb_paral b) true (sb_steal b))
  else if decide (t = feature_off "KEEP_ON_CORE") then Some (mkSwitchBox (sb_file b) (sb_paral b) false (sb_steal b))
  else if decide (t = feature_on "STEAL") then Some (mkSwitchBox (sb_file b) (sb_paral b) (sb_keep b) true)
  else if decide (t = feature_off "STEAL") then Some (mkSwitchBox (sb_file b) (sb_paral b) (sb_keep b) false)
  else None.
Definition sb_write (b : SwitchBox) (p : string) (t : list byte) : bool * bool * SwitchBox :=
  if decide (p = features_path) then
    match sb_feature b t with Some b' => (true, true, b') | None => (true, false, b) end
  else match sb_val b p with
       | None => (false, false, b)
       | Some _ => match val_of t with
                   | None => (true, false, b)
                   | Some v => (true, true, mkSwitchBox (<[p := v]> (sb_file b)) (sb_paral b) (sb_keep b) (sb_steal b))
                   end
       end.
Definition switch_machine : Machine := {|
  sys := SwitchBox;
  sys_read := sb_read;
  sys_write := sb_write;
  sys_exists b p := bool_decide (p = features_path) || bool_decide (is_Some (sb_val b p));
  sys_dir b p := None;
  sys_exec b c := (Some (bytes_of "CONFIG_SCHED_SMT=y" ++ [newline]), b);
  sys_system b c := (0, b);
  sys_yaml b p := None;
  sys_emit b _ _ := b;
  sys_cpus _ := 2
|}.
Definition sb_setting (b : SwitchBox) (k : Setting) : option (list byte) :=
  match k with
  | File p => val_text <$> sb_val b p
  | Feature f => feature_text f <$> sb_status b f
  end.

(** *** It keeps the promises *)

Lemma tuned_plain p : tuned p → p ∉ other_paths.
Proof.
  intros Hp. unfold other_paths, features_path, smt_active, modules_path. rewrite !not_elem_of_cons.
  destruct Hp as [Hp|[i ->]].
  - rewrite !elem_of_cons in Hp. split_and!; [..|apply not_elem_of_nil];
      destruct Hp as [->|[->|[->|[->|[]%elem_of_nil]]]]; by intros [=].
  - split_and!; [..|apply not_elem_of_nil]; by intros [=].
Qed.
Lemma sb_val_plain b p v : sb_val b p = Some v → p ∉ other_paths.
Proof. unfold sb_val. by destruct (decide _). Qed.
Lemma other_not b p : p ∉ other_paths →
  sb_read b p = v ← sb_val b p;
    Some ((if decide (p = thpFileName)
           then [open_bracket] ++ val_text v ++ [close_bracket] ++ bytes_of " never" else val_text v) ++ [newline]).
Proof.
  unfold other_paths. rewrite !not_elem_of_cons. intros (H1 & _ & H2 & H3 & _). unfold sb_read.
  by rewrite !decide_False by done.
Qed.
Lemma val_text_no v c : c ∈ [newline; close_bracket] → c ∉ val_text v.
Proof. intros Hc. refine (bool_decide_unpack _ _). rewrite !elem_of_cons in Hc.
  destruct Hc as [->|[->|[]%elem_of_nil]]; by destruct v.
Qed.

Lemma sb_file_read (b : SwitchBox) p v : sb_setting b (File p) = Some v →
  (bool_decide (p = features_path) || bool_decide (is_Some (sb_val b p))) = true ∧
  if decide (p = thpFileName)
  then ∃ pre post content, sb_read b p = Some content ∧
    first_line content = Some (pre ++ open_bracket :: v ++ close_bracket :: post) ∧
    open_bracket ∉ pre ∧ close_bracket ∉ v
  else sb_read b p = Some (v ++ [newline]) ∧ newline ∉ v.
Proof.
  simpl. intros H%fmap_Some. destruct H as (w & E & ->). split.
  { rewrite orb_true_iff. right. apply bool_decide_eq_true. by eexists. }
  rewrite (other_not b p) by (by eapply sb_val_plain). rewrite E. cbn [mbind option_bind].
  destruct (decide (p = thpFileName)).
  - exists [], (bytes_of " never"). eexists. split; [done|]. split; [|split; [apply not_elem_of_nil|]].
    + rewrite first_line_only; [done|].
      rewrite !elem_of_app. intros [H|[H|[H|H]]].
      * apply list_elem_of_singleton in H. by vm_compute in H.
      * by apply (val_text_no w newline) in H; [|apply list_elem_of_here].
      * apply list_elem_of_singleton in H. by vm_compute in H.
      * revert H. refine (bool_decide_unpack _ _). vm_compute. exact I.
    + apply val_text_no, list_elem_of_further, list_elem_of_here.
  - split; [done|]. apply val_text_no, list_elem_of_here.
Qed.

Lemma sb_status_some b f on : sb_status b f = Some on →
  (f = "PARAL" ∧ on = sb_paral b ∨ f = "KEEP_ON_CORE" ∧ on = sb_keep b ∨ f = "STEAL" ∧ on = sb_steal b)%string.
Proof. unfold sb_status. repeat destruct (decide _); subst; naive_solver. Qed.
Lemma sb_feature_value (b : SwitchBox) f v : sb_setting b (Feature f) = Some v →
  (v = feature_on f ∨ v = feature_off f) ∧ plain f.
Proof.
  simpl. intros H%fmap_Some. destruct H as (on & E & ->). split; [destruct on; auto|].
  by apply sb_status_some in E as [[-> _]|[[-> _]|[-> _]]].
Qed.
Lemma sb_features_read (b : SwitchBox) :
  newline ∉ sb_line b ∧
  (∀ w, w ∈ words (sb_line b) ↔ ∃ f, sb_setting b (Feature f) = Some w) ∧
  occurs KEEP_ON_CORE (sb_line b) = true ∧
  occurs NO_KEEP_ON_CORE (sb_line b) = negb (sb_keep b).
Proof.
  destruct b as [files paral keep steal]. split.
  { refine (bool_decide_unpack _ _). by destruct paral, keep, steal. }
  split; [|by destruct paral, keep, steal]. intros w.
  assert (words (sb_line (mkSwitchBox files paral keep steal)) =
    [feature_text "PARAL" paral; feature_text "KEEP_ON_CORE" keep; feature_text "STEAL" steal]) as ->
    by (by destruct paral, keep, steal).
  rewrite !elem_of_cons. split.
  - intros [->|[->|[->|[]%elem_of_nil]]]; [exists "PARAL"%string|exists "KEEP_ON_CORE"%string|exists "STEAL"%string]; done.
  - simpl. intros [f H]. apply fmap_Some in H as (on & E & ->).
    apply sb_status_some in E as [[-> ->]|[[-> ->]|[-> ->]]]; simpl; auto.
Qed.

(** Writing. *)
Lemma sb_write_file (b : SwitchBox) p t : tuned p → ∃ b', sb_write b p t =
    (bool_decide (is_Some (sb_setting b (File p))),
     bool_decide (is_Some (sb_setting b (File p))) && bool_decide (is_Some (val_of t)), b') ∧
  ∀ k, sb_setting b' k =
    if decide (k = File p ∧ is_Some (sb_setting b k) ∧ bool_decide (is_Some (val_of t)) = true)
    then Some t else sb_setting b k.
Proof.
  intros Hp%tuned_plain. unfold sb_write. rewrite decide_False.
  2: { intros ->. apply Hp, list_elem_of_here. }
  destruct (sb_val b p) as [w|] eqn:Ew.
  2: { exists b. assert (sb_setting b (File p) = None) as E by (simpl; by rewrite Ew). rewrite E.
       split; [by rewrite bool_decide_false by by intros [? [=]]|]. intros k.
       destruct (decide _) as [(-> & [v Ev] & _)|]; [|done]. congruence. }
  assert (sb_setting b (File p) = Some (val_text w)) as E by (simpl; by rewrite Ew). rewrite E.
  rewrite (bool_decide_true (is_Some (Some _))) by by eexists. destruct (val_of t) as [v|] eqn:Ev; simpl.
  2: { exists b. split; [done|]. intros k. by rewrite decide_False by by intros (_ & _ & [=]). }
  eexists. split; [done|]. apply val_of_some in Ev as Et. intros [q|f].
  - simpl. unfold sb_val. simpl. destruct (decide (q = p)) as [->|Hq].
    + rewrite decide_False by done. rewrite lookup_insert_eq. simpl. rewrite decide_True; [by rewrite Et|].
      unfold sb_val in Ew. rewrite decide_False in Ew by done. rewrite decide_False, Ew by done.
      split; [done|]. split; [by eexists|done].
    + rewrite lookup_insert_ne by done. rewrite (decide_False (P := File q = File p ∧ _)) by (by intros [[=] _]). done.
  - rewrite decide_False by (by intros [[=] _]). done.
Qed.
Lemma feature_known b f t :
  plain f → t ∈ [feature_on f; feature_off f] →
  match sb_feature b t with
  | Some b' => is_Some (sb_status b f) ∧ sb_file b' = sb_file b ∧
      ∀ g, feature_text g <$> sb_status b' g = if decide (g = f) then Some t else feature_text g <$> sb_status b g
  | None => sb_status b f = None
  end.
Proof.
  intros Hf Ht. unfold sb_feature.
  assert (∀ g, plain g → t = feature_on g → f = g) as Hon.
  { intros g Hg ->. rewrite !elem_of_cons in Ht. destruct Ht as [Ht|[Ht|[]%elem_of_nil]]; [by apply (inj bytes_of) in Ht|].
    unfold plain, feature_on, feature_off in *. by rewrite Ht, bytes_of_append, prefixb_app in Hg. }
  assert (∀ g, t = feature_off g → f = g) as Hoff.
  { intros g ->. rewrite !elem_of_cons in Ht. destruct Ht as [Ht|[Ht|[]%elem_of_nil]]; [|by apply feature_off_inj in Ht].
    unfold plain, feature_on, feature_off in *. by rewrite <-Ht, bytes_of_append, prefixb_app in Hf. }
  repeat (destruct (decide (t = _)) as [->|?];
    [first [assert (f = "PARAL"%string) as -> by first [by apply Hon|by apply Hoff]
           |assert (f = "KEEP_ON_CORE"%string) as -> by first [by apply Hon|by apply Hoff]
           |assert (f = "STEAL"%string) as -> by first [by apply Hon|by apply Hoff]];
     split; [by eexists|]; split; [done|]; intros g; unfold sb_status; simpl;
     repeat destruct (decide (g = _)) as [->|?]; done|]).
  unfold sb_status. rewrite !elem_of_cons in Ht. rewrite !decide_False; [done|..]; intros ->;
    destruct Ht as [->|[->|[]%elem_of_nil]]; done.
Qed.

Lemma sb_write_feature (b : SwitchBox) p f t : p ∈ possiblePaths → plain f → t ∈ [feature_on f; feature_off f] →
  ∃ b', sb_write b p t =
    (@sys_exists switch_machine b p, @sys_exists switch_machine b p && bool_decide (is_Some (sb_setting b (Feature f))), b') ∧
  ∀ k, sb_setting b' k =
    if decide (@sys_exists switch_machine b p = true ∧ k = Feature f ∧ is_Some (sb_setting b k))
    then Some t else sb_setting b k.
Proof.
  intros Hp Hf Ht. unfold possiblePaths in Hp. rewrite !elem_of_cons in Hp. pose proof (feature_known b f t Hf Ht) as Hk.
  destruct Hp as [->|[->|[]%elem_of_nil]].
  - exists b. split; [done|]. intros k. by rewrite decide_False by by intros [H _].
  - unfold sb_write. rewrite decide_True by done. destruct (sb_feature b t) as [b'|].
    + destruct Hk as (Hs & Efile & Hk). exists b'. split.
      * by rewrite bool_decide_true by by apply fmap_is_Some.
      * intros [q|g]; [rewrite decide_False by (by intros (_ & H & _)); simpl; unfold sb_val; by rewrite Efile|].
        cbn [sb_setting]. rewrite Hk. destruct (decide (g = f)) as [->|Hn]; [by rewrite decide_True by by split_and!; [..|apply fmap_is_Some]|].
        by rewrite decide_False by naive_solver.
    + exists b. simpl. rewrite Hk. split; [done|].
      intros k. destruct (decide _) as [(_ & -> & Hs)|]; [|done]. simpl in Hs. rewrite Hk in Hs. by destruct Hs.
Qed.

#[local] Instance switch_kernel : SwitchKernel switch_machine.
Proof.
  refine {| setting := sb_setting : @sys switch_machine → _; takes _ t := bool_decide (is_Some (val_of t)) |}.
  - intros b p v. simpl. intros H%fmap_Some. destruct H as (w & _ & ->). by rewrite val_of_text.
  - apply sb_file_read.
  - intros b p Hp%tuned_plain. simpl. intros H%fmap_None. rewrite (other_not b p) by done. rewrite H.
    rewrite bool_decide_false; [done|]. intros ->. apply Hp, list_elem_of_here.
  - apply sb_feature_value.
  - intros b p Hp. unfold possiblePaths in Hp. rewrite !elem_of_cons in Hp.
    destruct Hp as [->|[->|[]%elem_of_nil]]; [done|]. exists (sb_line b).
    destruct (sb_features_read b) as (H1 & H2 & H3 & H4). split; [done|]. split; [done|]. split; [done|].
    split; [by rewrite H3|]. rewrite H4. by destruct b as [? ? [] ?].
  - intros b p t Hp. destruct (sb_write_file b p t Hp) as (b' & E & H). exists b'. split; [exact E|]. split; [|exact H].
    split; [|done]. intros q Hq. simpl. f_equal. unfold possiblePaths in Hq. rewrite !elem_of_cons in Hq.
    by destruct Hq as [->|[->|[]%elem_of_nil]].
  - intros b p f t Hp Hf Ht. destruct (sb_write_feature b p f t Hp Hf Ht) as (b' & E & H). exists b'.
    split; [exact E|]. split; [|exact H]. split; [|done]. intros q Hq. simpl. f_equal.
    unfold possiblePaths in Hq. rewrite !elem_of_cons in Hq. by destruct Hq as [->|[->|[]%elem_of_nil]].
  - done.
Defined.

(** Some are enabled, and one of them is disabled. *)
Definition switch_box : SwitchBox := mkSwitchBox
  (<[thpFileName := VMadvise]> (<[CLUSTER_PATH := VZero]> (<[schedUtilLowPctPath := VFifty]>
   (<[schedRatioPath := VHundred]> (<[governor_path 0 := VPerformance]> (<[governor_path 1 := VPerformance]> ∅))))))
  false false false.
#[local] Instance byte_order : HashOrderOf (list byte) := {| order_of X := elements X; order_of_perm X := reflexivity _ |}.
Fixpoint switch_run (l : list (Tune * bool)) (s : SystemTune) : option SystemTune :=
  match l with
  | [] => Some s
  | (t, on) :: l =>
    if decide (enabled Object s t = on) then None else
    match (if on then Tuned_Enable Object t [] ;; mret tt else Tuned_Disable Object t) s with
    | Ret (_, s') => switch_run l s'
    | _ => None
    end
  end.
Lemma switch_run_steps l s s' : switch_run l s = Some s' → rtc system_step s s'.
Proof.
  revert s. induction l as [|[t on] l IH]; intros s E; cbn [switch_run] in E; [by injection E as ->|].
  destruct (decide (enabled Object s t = on)) as [|Hn]; [done|]. destruct on.
  - destruct ((Tuned_Enable Object t [] ;; mret tt) s) as [[[] s1]| |] eqn:E1; [|done..].
    apply bind_inv in E1 as (r & s2 & E1 & [= ->]). apply (rtc_l _ _ s1); [|by apply IH].
    apply (step_on _ t [] r); [by destruct (enabled Object s t)|done].
  - destruct (Tuned_Disable Object t s) as [[[] s1]| |] eqn:E1; [|done..]. apply (rtc_l _ _ s1); [|by apply IH].
    apply (step_off _ t); [by destruct (enabled Object s t)|done].
Qed.

Lemma switches_given_back_witness :
  ∃ s s' : SystemTune, setting (tuned_sys Object s) PARAL = Some disableFeature ∧
    setting (tuned_sys Object s) LOW = Some (bytes_of "50") ∧ setting (tuned_sys Object s) (GOV 1) = Some SEEP ∧
    Tuned_Disable Object TSeep s = Ret (tt, s').
Proof.
  assert (match switch_run [(TNuma, true); (TSmt, true); (TThp, true); (TSeep, true); (TNuma, false)]
      (SystemTune0 (switch_box : @sys switch_machine)) with
    | Some s => enabled Object s TNuma = false ∧ enabled Object s TSeep = true ∧
        setting (tuned_sys Object s) (GOV 1) = Some SEEP
    | None => False
    end) as H by (vm_compute; repeat split; reflexivity).
  destruct (switch_run _ _) as [s|] eqn:E; [|destruct H]. destruct H as (H1 & H2 & H3).
  apply switch_run_steps in E. destruct (switches_given_back (switch_box : @sys switch_machine) s) as [Hb Hd].
  - split; [|split].
    + intros v. vm_compute. by intros [= <-].
    + intros v. vm_compute. by intros [= <-].
    + intros v Hv. split; [vm_compute; reflexivity|]. exists 100.
      assert (Some v = Some (bytes_of "100")) as [= ->] by (rewrite <-Hv; vm_compute; reflexivity).
      split; [vm_compute; reflexivity|lia].
  - exact E.
  - destruct (Hd TSeep H2) as [s' E']. exists s, s'. split; [|split; [|split; [exact H3|exact E']]].
    + rewrite Hb; [vm_compute; reflexivity|discriminate|]. intros [] Ho; try discriminate Ho; simpl in Ho.
      * exact H1.
      * destruct Ho; discriminate.
      * destruct Ho; discriminate.
    + rewrite Hb; [vm_compute; reflexivity|discriminate|]. intros [] Ho; try discriminate Ho; simpl in Ho.
      * exact H1.
      * destruct Ho; discriminate.
      * destruct Ho as [i Ho]. unfold LOW, GOV, governor_path in Ho. discriminate.
Defined.
